(* ===== verification/_CoqProject ===== *)
-Q . S2P
Prelude.v
GoText.v
GoJson.v
GoDigest.v
GoTime.v
GoJsonValue.v
GoJsonFacts.v
AgentContract.v
TurnTypes.v
MemoryStore.v
MemoryStoreFacts.v
MemoryStoreProgress.v
Fixtures.v
MemoryStoreTheorems.v
TurnService.v
ExecutionTypes.v
Settlement.v
ProviderUsage.v
SettlementUsage.v
SqlDatabase.v
SqlFacts.v
SqlStore.v
SqlExecution.v
EffectOutbox.v
SettlementAuthority.v
SettlementTables.v
SettlementResolution.v
CommitCommand.v
SqlCommit.v
Reconcile.v
EpochFacts.v
SqlCommitFacts.v
SqlExecutionFacts.v
ExecutionFixtures.v
SqlExecutionTheorems.v
PluginScopedStore.v
SqlStoreFacts.v
CommitFixtures.v
SqlLedgerFacts.v
ReviewWrites.v
ReviewFacts.v
SqlStoreTheorems.v
SqlCommitTheorems.v
SettlementTheorems.v
SettlementResolutionTheorems.v
EffectOutboxFacts.v
EffectOutboxProgress.v
EffectOutboxTheorems.v
EffectDispatcher.v
EffectDispatcherTheorems.v
ReconcilerPass.v
EventStream.v
EventStreamFacts.v
TurnServiceTheorems.v
EventStreamTheorems.v
SubscriptionCycle.v
CreditTables.v
CreditsPack.v
ProjectBudget.v
CreditReservation.v
CreditChecks.v
CreditPackFacts.v
CreditRefundFacts.v
CreditLedgerFacts.v
CreditOperationFacts.v
CreditReserveFacts.v
CreditRuns.v
CreditLedgerTheorems.v
CreditSpendTheorems.v
CreditSweepTheorems.v
SubscriptionCycleTheorems.v
BillingTypes.v
AgentBilling.v
BillingFacts.v
BillingRuns.v
BillingTheorems.v
BillingKernel.v
PendingReconciler.v
PendingReconcilerTheorems.v
ExpiredReservations.v
