(* ===== verification/Prelude.v ===== *)
(** * WorkMax durable Agent Turn kernel: verification library

    ** The program

    WorkMax runs long agent turns on behalf of users.  The kernel that makes them
    durable is [src/server/service/agentturn/] with its wire contract in
    [src/server/contracts/agent/v1/durable_turn.go].  A caller starts a Turn
    through the service, which admits it into a store under an idempotency key.
    Worker processes claim Turns: a claim opens an Attempt with a lease and a
    fencing token, heartbeats extend the lease, and CommitAttempt writes, in one
    transaction, an event, the side effects to deliver, a receipt of the
    operation and, when it finishes the Turn, the commercial outcome.  Effects
    are delivered by dispatchers through an outbox.  Observers follow the event
    log of a Turn.  A reconciler retires Turns whose executor is gone.  When a
    release could hide usage, the outcome is a Review: provider receipts are
    collected in a journal, a meter prices them, and an operator finalizes the
    Review.  The store is either an in-memory map or SQL tables.

    Turns are paid from credits.  [src/server/service/account/] keeps packs of
    credits with an expiry, the monthly grants of a subscription, and
    reservations: a reservation takes credits from the packs that expire first
    and from the budget of a project, and is later finalized for what was used,
    released, held for a review, or expired by a sweeper; what is not used is
    returned through a refund that is retried until it succeeds.

    [src/server/service/agentbilling/] joins the two.  It reserves credits when a
    Turn is admitted and binds the reservation to the Turn; it is the authority
    the kernel asks before an Attempt runs, settles a Turn with, holds a Review
    with and resolves it with, each in the transaction of the kernel; and it keeps
    one outcome row per Turn beside the reservation.  A recovery pass retries the
    refunds that are due.

    ** The files

    Shared: [Prelude] (validation and result notations, tactics, list and integer
    lemmas), [GoText] (byte strings, UTF-8, trimming), [GoJson], [GoJsonValue],
    [GoJsonFacts] (encoding/json as the source uses it:
    validity, compaction with HTML escaping, decoding, canonical re-encoding),
    [GoDigest] (SHA-256, hex, length-prefixed hashing), [GoTime] (RFC 3339).

    Contract and stores:
    - [AgentContract]: durable_turn.go, every type and validator.
    - [TurnTypes]: types.go and store.go; the state machine [CanTransition]; the
      class [TurnStore] states what a store promises to the service.
    - [MemoryStore]: memory_store.go, one definition per method, the mutex as
      atomicity.  [MemoryStoreFacts], [MemoryStoreProgress],
      [MemoryStoreTheorems], [Fixtures] hold its proofs.
    - [TurnService], [TurnServiceTheorems]: service.go over any [TurnStore].
    - [SqlDatabase]: the tables as lists of rows with their unique keys, row
      conversions, transactions; [SqlStore]: sql_store.go; [SqlFacts],
      [SqlStoreFacts], [SqlStoreTheorems]: its proofs.

    Execution:
    - [ExecutionTypes]: execution_types.go.
    - [SqlExecution]: ClaimAttempt, HeartbeatAttempt, the claim and reclaim scans
      (sql_execution_store.go, sql_claim_next.go).
    - [Settlement], [ProviderUsage], [SettlementUsage]: the records, digests and
      validators of settlement.go, settlement_review.go,
      provider_usage_journal.go, settlement_review_usage.go and
      settlement_review_resolution.go.
    - [SettlementAuthority]: bindings of the commercial authority, settle and the
      persistence of Reviews; [SettlementTables]: lookups and the checks that
      tie a Review to the receipts of its Turn.
    - [CommitCommand]: the normal form, digest and plan of a commit command;
      [SqlCommit]: CommitAttempt; [Reconcile]: ReconcileTerminal of reconcile.go.
    - [PluginScopedStore]: plugin_scoped_store.go; [ReconcilerPass]: the passes
      and the schedule of reconcile.go; both with their theorems.
    - [SettlementResolution]: AppendAttested, CaptureSettlementReviewUsageEvidence,
      ResolveSettlementReview, scoped recorders and the audit lists.
    - [EpochFacts], [SqlCommitFacts], [SqlExecutionFacts], [SqlLedgerFacts],
      [ReviewWrites], [ReviewFacts] (lemmas),
      [ExecutionFixtures], [CommitFixtures] (concrete
      histories), [SqlExecutionTheorems], [SqlCommitTheorems],
      [SettlementTheorems], [SettlementResolutionTheorems] (theorems).

    Delivery and observation:
    - [EffectOutbox] (effect_outbox.go), [EffectOutboxFacts],
      [EffectOutboxProgress], [EffectOutboxTheorems].
    - [EffectDispatcher] (effect_dispatcher.go, admission_gate.go),
      [EffectDispatcherTheorems].
    - [EventStream] (event_stream.go), [EventStreamFacts],
      [EventStreamTheorems].

    Credits:
    - [CreditTables]: the tables of packs, orders, users, projects, reservations
      and allocations (server/model) with the statements on them and the faults
      a statement may meet; [SubscriptionCycle], [CreditsPack]:
      credits_pack_service.go; [ProjectBudget]: the budget operations of
      service/project/repository.go; [CreditReservation]:
      credit_reservation_service.go; [CreditChecks]: the CHECK constraints
      mysql_schema.go requires.
    - [CreditPackFacts], [CreditRefundFacts], [CreditLedgerFacts],
      [CreditOperationFacts], [CreditReserveFacts], [CreditRuns] (lemmas, the
      invariant [ledger_ok], the steps and a concrete history),
      [CreditLedgerTheorems], [CreditSpendTheorems], [CreditSweepTheorems],
      [SubscriptionCycleTheorems] (theorems).

    Billing of Turns:
    - [BillingTypes]: types.go, bindings and outcomes with their digests and
      validators; [AgentBilling]: authority.go and sql_rows.go;
      [BillingKernel]: provider_usage_authority.go, the instance of the kernel's
      authorities, and the theorems on kernel and ledger together;
      [PendingReconciler]: pending_reconciler.go; [ExpiredReservations]:
      expired_reservation_reconciler.go and its theorem.
    - [BillingFacts] (the invariant [billing_ok]), [BillingRuns] (steps and a
      concrete history), [BillingTheorems], [PendingReconcilerTheorems].

    ** How the code is modelled

    A Go method is a function from its arguments and the state to a [result] and
    the new state; an error is a value of [error], with the sentinels of the
    source and [ErrText] for formatted ones.  [check!], [guard!] and [try!]
    follow the early returns.  uint64 and int64 conversions are the wrap-around
    functions [u64] and [i64]; a time is a count of nanoseconds.

    A SQL table is the list of its rows in insertion order.  A transaction is a
    function on the [Database]; [writeTransaction] commits it, rolls it back, or
    loses the answer of the commit, in which case the tables may or may not have
    changed; the read that follows sees what other transactions did in between
    ([se_others], [ae_between], [cme_between], [rse_between]).  Statements in one
    transaction see the rows it locked; concurrency is the interleaving of whole
    transactions.  A JSON column holds what decoding its stored text gives, escaping
    included, or the text itself where the code compares it.

    Code outside src/ is a parameter: the clock of the database, the context of a
    call (whether it is cancelled at its n-th look), the random source of Turn
    ids, the provider of a delivery, the admission, execution and expiry
    authorities of reservations, and the settlement authority, which
    [BillingKernel] instantiates with the credit authority of the repository.  An
    authority call that was accepted is an entry of the append-only ledger
    [st_ledger], in the transaction that made it.

    [kernel_step] is one transaction of the kernel (admission, append,
    transition, cancel, claim, heartbeat, commit, reconcile) with any arguments,
    clock reading and outcome; [exec_step] adds deliveries and whatever else
    leaves those tables alone; [settlement_step] adds receipts, pricing,
    finalizing and new meter releases.  [exec_reachable] and
    [settlement_reachable] are their closures from empty tables.  The memory
    store, the outbox and the event stream have step relations of their own.

    The credit tables form a [Ledger]; [ledger_env] gives the clock readings and
    the statements that fail.  [ledger_step] is one transaction of the ledger:
    an admission, a hold, a settlement, one candidate of the sweep, a grant,
    purchase, revocation or clipping of packs, a new budget cap, or any change
    of the tables the ledger only reads.

    [BillingState] is the ledger with the bindings and outcomes.  [billing_step]
    is one transaction of the authority, or a step of the ledger that leaves the
    bound reservations alone, as [sweep_spares_bound] shows of the sweeper.  A
    step is [honest] when the outcome it writes and the one it replaces do not
    share a SHA-256 digest unless they are equal: [persistOutcome] compares
    digests only.  An empty request digest stands for NULL.

    ** What is proved

    - Exactly-once admission, gap-free append-only logs and exact replay for both
      stores; well-formedness of every reachable state; Turn rows and event ids
      survive the trip through the tables.
    - The service is exactly-once over any store keeping the class laws, and the
      log alone determines status and cancellation of a Turn.
    - Execution epochs: at most one running Attempt; a later epoch excludes the
      earlier one; lost commits are resolved; no unfinished Turn falls out of
      sight.  An operation is committed exactly once, only by the live epoch.
    - Commercial outcomes: at most one per Turn, exactly one for a terminal
      commit; no release while operations or effects of the Turn exist; a Review
      holds every effect of its Turn; a pass of the reconciler retires only idle
      Turns and counts each once.  A plugin-scoped worker claims only Turns of its
      releases.
    - Reviews: their status says which rows they have and only moves forward; the
      evidence names exactly the receipts of the Turn; finalizing happens once,
      for the measured units, within the reserve; receipts and resolutions
      replay.  Reviews of the older usage binding cannot be resolved.
    - The outbox and dispatcher: fenced, single completion of a delivery,
      exclusive leases, bounded retry delays, no guessing on unknown outcomes.
    - Observers see every event once and in order, and Next answers.
    - Credits are conserved: what packs and projects have spent is what the
      reservations hold.  A request is admitted once, a settlement charges once
      and is final, a refund is all or nothing, a debit takes from the packs that
      expire first and succeeds exactly when the balance covers it, a sweep
      settles what is due and nothing else, every row satisfies the constraints
      of the schema, and the cycles of a subscription partition time.
    - A Turn has one binding and one outcome, and the outcome always mirrors the
      reservation; the drift check accepts exactly that.  A settlement charges
      the used units once, an outcome is final, a Turn executes only on a live
      reservation; a terminal commit of the kernel charges its Turn and a claim
      needs credit.  A recovery pass counts what it does within its bounds, skips
      no due refund and advances to the end of its cycle; an expiry pass retires
      only Turns whose reservation had expired unused.

    ** Fuel and bounds

    The JSON decoder recurses on fuel given by the length of its input, and
    [GoJsonFacts.json_decode_total] shows that every valid document decodes.  The dispatcher
    loop, the claim loops and [Next] take the number of iterations from their
    batch limits or from the schedule; [stream_next_answers] and
    [dispatch_once_settles] prove that the bound is enough.  SHA-256 follows
    FIPS 180-4 and is checked on its test vectors; the
    only assumptions on its collisions are that billing steps are [honest] and the
    one [scope_matches_decides] states.
    A recovery pass recurses on its candidates, of which discovery returns at
    most 200.

    ** Not modelled

    The goroutines of worker.go with its limits, the jitter of the
    reconciler's pause, the schema and readiness inspection (only the unique
    keys and CHECK constraints it requires are used), the backfill of
    subscription credits and the migration of legacy packs, the cache of the
    cycle grant, the precision of datetime columns, the julianday branch
    SQLite fixtures take, refusals of nil receivers and arguments, process
    wiring, and the other subsystems of the repository: desktop login, model
    gateway and synchronisation, the sidecar, HTTP handlers, pricing. The v3
    MeasureReview command and receipt have no caller in the kernel. Isolation
    levels and row-lock waits of the database are represented by the atomic interleaving of transactions. *)

From stdpp Require Export base gmap strings list pretty fin_maps.
From Stdlib Require Export ZArith Lia.

#[global] Open Scope Z_scope.
#[global] Set Default Goal Selector "!".

(** ** Errors *)

(** The kinds of a [RefundIntegrityError] of service/account. *)
Inductive refund_kind :=
| ErrCreditsRefundAllocationInvalid | ErrCreditsRefundAllocationIncomplete | ErrCreditsRefundPackInvariant.

(** A Go [error] is identified with what [errors.Is] can observe of it: the
    sentinel it wraps.  [ErrText] stands for an error built by [fmt.Errorf] or
    [errors.New] that wraps no sentinel; its argument is the message with the
    formatted operands left out. *)
Inductive error : Type :=
| ErrText (msg : string)
| ErrContext (* context.Canceled or context.DeadlineExceeded *)
(* service/agentturn/types.go *)
| ErrTurnNotFound | ErrTurnIDConflict | ErrIdempotencyConflict
| ErrInvalidTransition | ErrTurnTerminal | ErrCancellationNotRequested
| ErrReplayCursorNotFound | ErrReplayCursorAhead | ErrReplayGap
| ErrSequenceExhausted | ErrReservedEventType | ErrStoreUnavailable
| ErrStoreIntegrity
(* service/agentturn/execution_types.go *)
| ErrAttemptNotFound | ErrAttemptConflict | ErrAttemptBusy | ErrAttemptFenced
| ErrAttemptLeaseExpired | ErrAttemptCancelled | ErrAttemptFenceExhausted
| ErrOperationConflict | ErrEffectConflict | ErrExecutionFenceRequired
| ErrNoClaimableTurn | ErrPluginScopeMismatch | ErrAttemptBudgetExhausted
| ErrReconcilePrecondition
(* service/agentturn/effect_outbox.go *)
| ErrEffectNotFound | ErrEffectFenced | ErrEffectTerminal
| ErrEffectScopeMismatch | ErrNoClaimableEffects
(* service/agentturn/event_stream.go, admission_gate.go and io *)
| ErrSubscriptionClosed | ErrAdmissionClosed | ErrEOF
(* service/agentturn/settlement.go, reservation_admission.go *)
| ErrSettlementFailed | ErrSettlementUsageUnknown | ErrSettlementBindingInvalid
| ErrSettlementReviewFailed | ErrSettlementCompletedUsageUntrusted
| ErrSettlementReviewNotFound | ErrSettlementReviewResolutionUnavailable
| ErrSettlementReviewResolutionConflict | ErrSettlementReviewResolutionFailed
| ErrSettlementReviewUsageUnavailable | ErrSettlementReviewUsageConflict
| ErrSettlementReviewUsageFailed | ErrSettlementReviewUsagePending
| ErrSettlementReviewUsageOverflow | ErrSettlementReviewUnitsExceedReserved
| ErrTurnReservationAdmissionAuthorityUnavailable
| ErrTurnReservationAdmissionFailed | ErrTurnReservationBindingInvalid
| ErrTurnReservationExecutionUnauthorized | ErrTurnReservationExecutionExpired
(* service/agentturn/provider_usage_journal.go *)
| ErrProviderUsageJournalInvalid | ErrProviderUsageConflict | ErrProviderUsageForbidden
| ErrUsageMeterReleaseNotFound | ErrUsageMeterReleaseConflict
(* gorm, service/account and service/project *)
| ErrRecordNotFound | ErrInsufficientCredits
| RefundIntegrityError (kind : refund_kind) (reservationID packID : Z)
| ErrReservationAlreadyFinalized | ErrReservationAlreadyReleased | ErrReservationExpired
| ErrReservationTTLExpired | ErrReservationReplayConflict | ErrReservationSettlementConflict
| ErrReservationReviewPending | ErrReservationReviewConflict
| ErrBudgetExceeded | ErrBudgetRefundInvariant
(* service/agentbilling/types.go *)
| ErrLedgerUnavailable | ErrBindingNotFound | ErrBindingConflict | ErrOutcomeNotFound
| ErrOutcomeConflict | ErrReservationIneligible | ErrReservationStateDrift | ErrPricingSnapshotConflict
(* service/agentbilling/pending_reconciler.go, provider_usage_authority.go *)
| ErrPendingReconcileLimit | ErrPendingReconcileCursor | ErrExpiredReservationReconcileLimit | ErrExpiredReservationCursor | ErrProviderUsageMeterUnavailable.

(** ** Results, guards and stateful computations *)

Inductive result (A : Type) : Type :=
| Ok (a : A)
| Err (e : error).
Arguments Ok {A} _.
Arguments Err {A} _.

Definition is_Ok {A} (r : result A) : Prop := ∃ a, r = Ok a.

(** A Go function that only returns an [error]: [None] is [nil]. *)
Abbreviation validation := (option error).

Declare Scope go_scope.
Delimit Scope go_scope with go.
#[global] Open Scope go_scope.

(** [when b e] is [if b { return e }] in a validator. *)
Definition when (b : bool) (e : error) : validation := if b then Some e else None.

(** A validator is a list of checks; the first failing one is returned. *)
Fixpoint first_error (checks : list validation) : validation :=
  match checks with
  | [] => None
  | Some e :: _ => Some e
  | None :: rest => first_error rest
  end.

(** [if err := v; err != nil { return err }] in a function with a value. *)
Notation "'check!' v ;; k" :=
  (match v with Some e => Err e | None => k end)
  (at level 10, v at level 99, k at level 200) : go_scope.

(** The same with the error replaced, as in [return ErrStoreIntegrity]. *)
Notation "'check!' v 'as' e ;; k" :=
  (match v with Some _ => Err e | None => k end)
  (at level 10, v at level 99, e at level 99, k at level 200) : go_scope.

Notation "'guard!' b 'else' e ;; k" :=
  (if b then k else Err e)
  (at level 10, b at level 99, e at level 99, k at level 200) : go_scope.

Notation "'try!' x ':=' m 'in' k" :=
  (match m with Ok x => k | Err e => Err e end)
  (at level 10, x pattern, m at level 99, k at level 200) : go_scope.

Notation "'try!' x ':=' m 'as' e 'in' k" :=
  (match m with Ok x => k | Err _ => Err e end)
  (at level 10, x pattern, m at level 99, e at level 99, k at level 200) : go_scope.

(** A stateful operation returns its result and the state it leaves behind,
    also when it fails: what a failed call has already written stays visible. *)
Definition op (S A : Type) : Type := S → result A * S.

(** An operation whose body computes a value and a new state or fails before
    writing anything: the shape of every body that runs under a mutex or in a
    transaction that rolls back on error. *)
Definition atomic {S A} (body : S → result (A * S)) : op S A :=
  fun s => match body s with
           | Ok (a, s') => (Ok a, s')
           | Err e => (Err e, s)
           end.

(** [contextError(ctx)]: a context is what its successive checks return
    within one operation; [None] is an uncancelled, non-nil context. *)
Definition context : Type := nat → validation.
Definition background : context := fun _ => None.

(** ** Fixed-width integers *)
Definition u64 (z : Z) : Z := z mod 2 ^ 64.
Definition i64 (z : Z) : Z := (z + 2 ^ 63) mod 2 ^ 64 - 2 ^ 63.

(** ** Automation *)

(** Case on every match and if of a hypothesis that returns a [result]. *)
Ltac step_in H :=
  repeat (case_match; simplify_eq/=; try discriminate H).

Ltac bool_hyps :=
  repeat match goal with
  | H : (_ && _) = true |- _ => apply andb_true_iff in H as [? ?]
  | H : (_ || _) = false |- _ => apply orb_false_iff in H as [? ?]
  | H : negb _ = true |- _ => apply negb_true_iff in H
  | H : negb _ = false |- _ => apply negb_false_iff in H
  | H : bool_decide _ = true |- _ => apply bool_decide_eq_true_1 in H
  | H : bool_decide _ = false |- _ => apply bool_decide_eq_false_1 in H
  | H : (_ =? _) = true |- _ => apply Z.eqb_eq in H
  | H : (_ =? _) = false |- _ => apply Z.eqb_neq in H
  | H : (_ <? _) = true |- _ => apply Z.ltb_lt in H
  | H : (_ <? _) = false |- _ => apply Z.ltb_ge in H
  | H : (_ <=? _) = true |- _ => apply Z.leb_le in H
  | H : (_ <=? _) = false |- _ => apply Z.leb_gt in H
  end.

Create HintDb go.
Create Rewrite HintDb go.

(** ** Generic lemmas *)

Lemma when_None b e : when b e = None ↔ b = false.
Proof. by destruct b. Qed.

Lemma first_error_None cs : first_error cs = None ↔ Forall (.= None) cs.
Proof.
  induction cs as [|[e|] cs IH]; simpl.
  - by split.
  - split; [done|]. by intros [? _]%Forall_cons.
  - rewrite IH, Forall_cons. tauto.
Qed.

Lemma atomic_Ok {S A} (body : S → result (A * S)) s a s' :
  atomic body s = (Ok a, s') ↔ body s = Ok (a, s').
Proof. unfold atomic. repeat case_match; naive_solver. Qed.

Lemma atomic_Err {S A} (body : S → result (A * S)) s e s' :
  atomic body s = (Err e, s') → body s = Err e ∧ s' = s.
Proof. unfold atomic. repeat case_match; naive_solver. Qed.

Lemma u64_small z : 0 ≤ z < 2 ^ 64 → u64 z = z.
Proof. apply Z.mod_small. Qed.

Lemma i64_small z : - 2 ^ 63 ≤ z < 2 ^ 63 → i64 z = z.
Proof. intros. unfold i64. rewrite Z.mod_small; lia. Qed.

#[export] Hint Rewrite @when_None @first_error_None : go.
