(* ===== verification/GoText.v ===== *)
(** * The parts of Go's text packages the kernel uses

    Go strings are byte strings: [string] here is a sequence of 8-bit
    characters.  This file models [strings.TrimSpace], [strings.ContainsAny],
    [strings.HasPrefix], [url.PathEscape], [strconv.FormatInt] and
    [strconv.ParseUint], and proves the facts about them the kernel relies on. *)

From Stdlib Require Import Ascii.
From S2P Require Import Prelude.

(** ** Bytes *)

Definition code (c : ascii) : Z := Z.of_N (N_of_ascii c).

Fixpoint bytes (s : string) : list Z :=
  match s with
  | EmptyString => []
  | String c s' => code c :: bytes s'
  end.

(** [len(s)]: the number of bytes. *)
Definition len (s : string) : Z := Z.of_nat (String.length s).

Fixpoint chars (s : string) : list ascii :=
  match s with
  | EmptyString => []
  | String c s' => c :: chars s'
  end.

Fixpoint of_chars (l : list ascii) : string :=
  match l with
  | [] => EmptyString
  | c :: l' => String c (of_chars l')
  end.

(** ** strings.TrimSpace

    [unicode.IsSpace] holds of the ASCII blanks, U+0085, U+00A0, U+1680,
    U+2000..U+200A, U+2028, U+2029, U+202F, U+205F and U+3000.  The functions
    below recognise the UTF-8 encoding of one such rune at the front of a byte
    list, and at the front of a reversed byte list. *)

Definition ascii_space (b : Z) : bool :=
  (9 <=? b) && (b <=? 13) || (b =? 32).

Definition space2 (b1 b2 : Z) : bool :=
  (b1 =? 0xC2) && ((b2 =? 0x85) || (b2 =? 0xA0)).

Definition space3 (b1 b2 b3 : Z) : bool :=
  (b1 =? 0xE1) && (b2 =? 0x9A) && (b3 =? 0x80)
  || (b1 =? 0xE2) && (b2 =? 0x80) &&
     ((0x80 <=? b3) && (b3 <=? 0x8A) || (b3 =? 0xA8) || (b3 =? 0xA9) || (b3 =? 0xAF))
  || (b1 =? 0xE2) && (b2 =? 0x81) && (b3 =? 0x9F)
  || (b1 =? 0xE3) && (b2 =? 0x80) && (b3 =? 0x80).

(** Drop leading spaces; [f2] and [f3] recognise the multi-byte spaces in the
    direction the list is read. *)
Fixpoint drop_spaces (f2 : Z → Z → bool) (f3 : Z → Z → Z → bool)
    (l : list ascii) : list ascii :=
  match l with
  | [] => []
  | a :: l1 =>
    if ascii_space (code a) then drop_spaces f2 f3 l1
    else match l1 with
         | [] => l
         | b :: l2 =>
           if f2 (code a) (code b) then drop_spaces f2 f3 l2
           else match l2 with
                | [] => l
                | c :: l3 =>
                  if f3 (code a) (code b) (code c) then drop_spaces f2 f3 l3
                  else l
                end
         end
  end.

Definition trim_left (l : list ascii) : list ascii := drop_spaces space2 space3 l.
Definition trim_right (l : list ascii) : list ascii :=
  rev (drop_spaces (fun b a => space2 a b) (fun c b a => space3 a b c) (rev l)).

Definition TrimSpace (s : string) : string :=
  of_chars (trim_right (trim_left (chars s))).

(** ** Other string functions *)

(** [strings.ContainsAny(s, set)] for a set of ASCII characters. *)
Definition ContainsAny (s : string) (set : string) : bool :=
  existsb (fun c => existsb (Ascii.eqb c) (chars set)) (chars s).

Definition HasPrefix (s prefix : string) : bool := String.prefix prefix s.

(** [url.PathEscape]: unreserved characters and ['$' '&' '+' ':' '=' '@'] stay. *)
Definition path_unescaped (b : Z) : bool :=
  ((97 <=? b) && (b <=? 122)) || ((65 <=? b) && (b <=? 90)) || ((48 <=? b) && (b <=? 57))
  || existsb (Z.eqb b) [45; 95; 46; 126; 36; 38; 43; 58; 61; 64].

Definition upper_hex (n : Z) : ascii :=
  ascii_of_N (Z.to_N (if n <? 10 then 48 + n else 55 + n)).

Fixpoint PathEscape (s : string) : string :=
  match s with
  | EmptyString => EmptyString
  | String c s' =>
    if path_unescaped (code c) then String c (PathEscape s')
    else String "%" (String (upper_hex (code c / 16))
                      (String (upper_hex (code c mod 16)) (PathEscape s')))
  end.

(** [strconv.FormatUint(z, 10)] and the [%d] verb on a non-negative number. *)
Definition FormatInt (z : Z) : string := pretty z.

(** [strconv.ParseUint(raw, 10, 63)]: decimal digits only, at least one, and a
    value below [2^63]. *)
Definition digit_value (c : ascii) : option Z :=
  if (48 <=? code c) && (code c <=? 57) then Some (code c - 48) else None.

Fixpoint parse_digits (acc : Z) (s : string) : option Z :=
  match s with
  | EmptyString => Some acc
  | String c s' => d ← digit_value c; parse_digits (10 * acc + d) s'
  end.

Definition ParseUint63 (s : string) : option Z :=
  if bool_decide (s = "") then None
  else n ← parse_digits 0 s; if n <? 2 ^ 63 then Some n else None.

(** ** Facts *)

Lemma code_range c : 0 ≤ code c < 256.
Proof. unfold code. pose proof (N_ascii_bounded c). lia. Qed.

Lemma String_app c s1 s2 : String c s1 +:+ s2 = String c (s1 +:+ s2).
Proof. done. Qed.

Lemma chars_app s1 s2 : chars (s1 +:+ s2) = chars s1 ++ chars s2.
Proof. induction s1 as [|c s1 IH]; [done|]. rewrite String_app. simpl. by rewrite IH. Qed.

Lemma of_chars_chars s : of_chars (chars s) = s.
Proof. induction s; simpl; congruence. Qed.

Lemma chars_inj s1 s2 : chars s1 = chars s2 → s1 = s2.
Proof. intros H. rewrite <- (of_chars_chars s1), H. apply of_chars_chars. Qed.

Lemma length_chars s : length (chars s) = String.length s.
Proof. induction s; simpl; congruence. Qed.

Lemma len_app s1 s2 : len (s1 +:+ s2) = len s1 + len s2.
Proof.
  unfold len. rewrite <- !length_chars, chars_app, length_app. lia.
Qed.

Lemma string_app_assoc (s1 s2 s3 : string) :
  (s1 +:+ s2) +:+ s3 = s1 +:+ (s2 +:+ s3).
Proof. apply chars_inj. rewrite !chars_app, app_assoc. done. Qed.

Lemma HasPrefix_app s t : HasPrefix (s +:+ t) s = true.
Proof.
  unfold HasPrefix. induction s as [|c s IH]; [by destruct t|].
  rewrite String_app. simpl. by destruct (ascii_dec c c).
Qed.

(** [parse_digits] inverts the decimal printer. *)
Lemma digit_value_pretty d :
  (d < 10)%N → digit_value (pretty_N_char d) = Some (Z.of_N d).
Proof.
  intros Hd.
  assert (d = 0 ∨ d = 1 ∨ d = 2 ∨ d = 3 ∨ d = 4 ∨ d = 5 ∨ d = 6 ∨ d = 7
          ∨ d = 8 ∨ d = 9)%N as Hcases by lia.
  by destruct_or! Hcases; subst.
Qed.

Lemma parse_digits_go x s :
  parse_digits 0 (pretty_N_go x s) = parse_digits (Z.of_N x) s.
Proof.
  revert s. induction (N.lt_wf_0 x) as [x _ IH]; intros s.
  destruct (decide (x = 0)%N) as [->|Hx]; [by rewrite pretty_N_go_0|].
  rewrite pretty_N_go_step by lia.
  rewrite IH by (apply N.div_lt; lia).
  cbn [parse_digits]. rewrite digit_value_pretty by (apply N.mod_lt; lia).
  simpl. f_equal. rewrite N2Z.inj_div, N2Z.inj_mod.
  pose proof (Z.div_mod (Z.of_N x) 10). lia.
Qed.

Lemma parse_digits_FormatInt z : 0 ≤ z → parse_digits 0 (FormatInt z) = Some z.
Proof.
  intros Hz. unfold FormatInt, pretty, pretty_Z.
  destruct z as [|p|p]; [done| |lia].
  unfold pretty, pretty_positive, pretty, pretty_N.
  destruct (decide _) as [?|?]; [done|]. by rewrite parse_digits_go.
Qed.

Lemma FormatInt_nonempty z : 0 ≤ z → FormatInt z ≠ "".
Proof.
  intros Hz Heq. pose proof (parse_digits_FormatInt z Hz) as H. rewrite Heq in H.
  simpl in H. injection H as <-. done.
Qed.

Lemma ParseUint63_FormatInt z :
  0 ≤ z < 2 ^ 63 → ParseUint63 (FormatInt z) = Some z.
Proof.
  intros Hz. unfold ParseUint63.
  rewrite bool_decide_eq_false_2 by (apply FormatInt_nonempty; lia).
  rewrite parse_digits_FormatInt by lia. simpl.
  by destruct (Z.ltb_spec z (2 ^ 63)); [|lia].
Qed.

(** The printer never emits a leading zero except for zero itself. *)
Lemma pretty_N_go_head x s :
  (0 < x)%N → ∃ d s', pretty_N_go x s = String (pretty_N_char d) s' ∧ (0 < d < 10)%N.
Proof.
  revert s. induction (N.lt_wf_0 x) as [x _ IH]; intros s Hx.
  rewrite pretty_N_go_step by done.
  destruct (decide (x < 10)%N) as [Hlt|Hge].
  - rewrite (N.div_small x 10), pretty_N_go_0, N.mod_small by done. eauto with lia.
  - apply IH; [by apply N.div_lt|]. apply N.div_str_pos. lia.
Qed.

Lemma FormatInt_head z :
  0 < z → ∃ c s, FormatInt z = String c s ∧ c ≠ "0"%char.
Proof.
  intros Hz. unfold FormatInt, pretty, pretty_Z. destruct z as [|p|p]; [lia| |lia].
  unfold pretty, pretty_positive, pretty, pretty_N.
  destruct (decide _) as [?|?]; [done|].
  destruct (pretty_N_go_head (Npos p) "") as (d & s' & -> & Hd); [lia|].
  exists (pretty_N_char d), s'. split; [done|].
  intros Heq%(pretty_N_char_inj d 0); lia.
Qed.

Lemma FormatInt_inj z1 z2 : FormatInt z1 = FormatInt z2 → z1 = z2.
Proof. apply pretty_Z_inj. Qed.

(** ** Trimmed strings

    A trimmed, non-empty string stays trimmed when it is extended by text whose
    first and last bytes are ASCII and not blank. *)

Lemma drop_spaces_suffix f2 f3 l : ∃ k, l = k ++ drop_spaces f2 f3 l.
Proof.
  induction l as [l IH] using (induction_ltof1 _ (@length ascii)). unfold ltof in IH.
  destruct l as [|a l1]; [by exists []|]. cbn [drop_spaces].
  case_match; [destruct (IH l1) as [k Hk]; [simpl; lia|]; exists (a :: k); simpl; congruence|].
  destruct l1 as [|b l2]; [by exists []|].
  case_match; [destruct (IH l2) as [k Hk]; [simpl; lia|]; exists (a :: b :: k); simpl; congruence|].
  destruct l2 as [|c l3]; [by exists []|].
  case_match; [|by exists []].
  destruct (IH l3) as [k Hk]; [simpl; lia|]. exists (a :: b :: c :: k). simpl. congruence.
Qed.

Lemma drop_spaces_length f2 f3 l : (length (drop_spaces f2 f3 l) ≤ length l)%nat.
Proof.
  destruct (drop_spaces_suffix f2 f3 l) as [k Hk]. rewrite Hk at 2. rewrite length_app. lia.
Qed.

Lemma drop_spaces_same_length f2 f3 l :
  length (drop_spaces f2 f3 l) = length l → drop_spaces f2 f3 l = l.
Proof.
  intros Hl. destruct (drop_spaces_suffix f2 f3 l) as [k Hk].
  assert (length k = 0%nat) as ->%nil_length_inv; [|done].
  apply (f_equal length) in Hk. rewrite length_app in Hk. lia.
Qed.

Lemma TrimSpace_left s : TrimSpace s = s → trim_left (chars s) = chars s.
Proof.
  intros H%(f_equal chars). unfold TrimSpace in H.
  apply drop_spaces_same_length. apply (f_equal length) in H.
  assert (Hoc : ∀ l, chars (of_chars l) = l) by (induction l; simpl; congruence).
  rewrite Hoc in H. unfold trim_right in H. rewrite length_rev in H.
  pose proof (drop_spaces_length (fun b a => space2 a b) (fun c b a => space3 a b c)
                (rev (trim_left (chars s)))) as H1.
  rewrite length_rev in H1.
  pose proof (drop_spaces_length space2 space3 (chars s)). unfold trim_left in *. lia.
Qed.

Lemma drop_spaces_app f2 f3 l c r :
  drop_spaces f2 f3 l = l → l ≠ [] →
  (∀ x, f2 x (code c) = false) → (∀ x y, f3 x (code c) y = false) →
  (∀ x y, f3 x y (code c) = false) →
  drop_spaces f2 f3 (l ++ c :: r) = l ++ c :: r.
Proof.
  intros Hl Hne H2 H3 H3'.
  assert (Hlen : ∀ k, (length k < length l)%nat → drop_spaces f2 f3 k ≠ l).
  { intros k Hk Heq. pose proof (drop_spaces_length f2 f3 k). rewrite Heq in *. lia. }
  destruct l as [|a l1]; [done|]. simpl in *.
  destruct (ascii_space (code a)); [by destruct (Hlen l1 ltac:(lia))|].
  destruct l1 as [|b l2]; simpl in *.
  { rewrite H2. destruct r; [done|]. by rewrite H3. }
  destruct (f2 (code a) (code b)); [by destruct (Hlen l2 ltac:(lia))|].
  destruct l2 as [|d l3]; simpl in *; [by rewrite H3'|].
  destruct (f3 (code a) (code b) (code d)); [|done].
  by destruct (Hlen l3 ltac:(simpl; lia)).
Qed.

Lemma drop_spaces_head f2 f3 a l :
  ascii_space (code a) = false →
  (∀ b, f2 (code a) (code b) = false) → (∀ b c, f3 (code a) (code b) (code c) = false) →
  drop_spaces f2 f3 (a :: l) = a :: l.
Proof.
  intros Ha H2 H3. destruct l as [|b [|c l]]; cbn [drop_spaces]; rewrite Ha; [done|by rewrite H2|].
  by rewrite H2, H3.
Qed.

Lemma of_chars_snoc l z : of_chars (l ++ [z]) = of_chars l +:+ String z "".
Proof. induction l as [|c l IH]; [done|]. simpl. rewrite String_app, <- IH. done. Qed.

Lemma trim_right_ascii l z :
  ascii_space (code z) = false → code z < 0x80 → trim_right (l ++ [z]) = l ++ [z].
Proof.
  intros Hz Hz'. unfold trim_right. rewrite rev_app_distr. cbn [rev app].
  rewrite drop_spaces_head; [|done|unfold space2; intros; lia|unfold space3; intros; lia].
  cbn [rev]. by rewrite rev_involutive.
Qed.

Lemma TrimSpace_extend s (a z : ascii) m :
  TrimSpace s = s → s ≠ "" → code a < 0x80 → ascii_space (code z) = false → code z < 0x80 →
  TrimSpace (s +:+ String a (m +:+ String z "")) = s +:+ String a (m +:+ String z "").
Proof.
  intros Hs%TrimSpace_left Hne Ha Hz Hz'. unfold TrimSpace.
  rewrite chars_app. cbn [chars]. unfold trim_left in *.
  rewrite drop_spaces_app; [|done|by destruct s|unfold space2; intros; lia
    |unfold space3; intros; lia..].
  rewrite chars_app. cbn [chars]. rewrite app_comm_cons, app_assoc, trim_right_ascii by done.
  rewrite <- app_assoc, <- app_comm_cons. 
  change [z] with (chars (String z "")). rewrite <- chars_app.
  change (a :: chars (m +:+ String z "")) with (chars (String a (m +:+ String z ""))).
  by rewrite <- chars_app, of_chars_chars.
Qed.

(** A decimal numeral ends in a digit. *)
Lemma parse_digits_all acc s n :
  parse_digits acc s = Some n → Forall (fun c => is_Some (digit_value c)) (chars s).
Proof.
  revert acc. induction s as [|c s IH]; intros acc; [by constructor|]. simpl.
  destruct (digit_value c) eqn:Hd; [|done]. simpl. intros H%IH. constructor; eauto.
Qed.

Lemma digit_value_ascii c :
  is_Some (digit_value c) → ascii_space (code c) = false ∧ code c < 0x80.
Proof.
  unfold digit_value, ascii_space. intros [n Hn]. case_match; [|done]. bool_hyps. lia.
Qed.

Lemma FormatInt_snoc n :
  0 ≤ n → ∃ m z, FormatInt n = m +:+ String z "" ∧ ascii_space (code z) = false ∧ code z < 0x80.
Proof.
  intros Hn. pose proof (FormatInt_nonempty n Hn) as Hne.
  pose proof (parse_digits_all _ _ _ (parse_digits_FormatInt n Hn)) as Hall.
  destruct (chars (FormatInt n)) as [|z l _] eqn:Hc using rev_ind.
  { apply (chars_inj _ "") in Hc. done. }
  apply Forall_app in Hall as [_ [Hz _]%Forall_cons]. apply digit_value_ascii in Hz as [??].
  exists (of_chars l), z. split; [|done].
  by rewrite <- of_chars_snoc, <- Hc, of_chars_chars.
Qed.

(** A durable sequence prints in at most 19 digits. *)
Lemma pretty_N_go_length k x s :
  (x < 10 ^ N.of_nat k)%N → (String.length (pretty_N_go x s) ≤ k + String.length s)%nat.
Proof.
  revert x s. induction k as [|k IH]; intros x s Hx.
  { assert (x = 0)%N as -> by lia. by rewrite pretty_N_go_0. }
  destruct (decide (x = 0)%N) as [->|Hx0]; [rewrite pretty_N_go_0; lia|].
  rewrite pretty_N_go_step by lia. etrans; [apply IH|simpl; lia].
  apply N.Div0.div_lt_upper_bound. by rewrite <- N.pow_succ_r', <- Nat2N.inj_succ.
Qed.

Lemma FormatInt_len n : 0 ≤ n < 2 ^ 63 → len (FormatInt n) ≤ 19.
Proof.
  intros Hn. unfold FormatInt, pretty, pretty_Z. destruct n as [|p|p]; [done| |lia].
  unfold pretty, pretty_positive, pretty, pretty_N, len.
  destruct (decide _) as [?|?]; [done|].
  pose proof (pretty_N_go_length 19 (Npos p) "") as H. simpl in H.
  assert (Npos p < 10000000000000000000)%N by lia. specialize (H H0). lia.
Qed.

(** ** Canonical decimals

    A digit string without a leading zero is what the printer gives for its
    value. *)

Lemma digit_value_bounds c d : digit_value c = Some d → 0 ≤ d < 10.
Proof. unfold digit_value. intros H. case_match; simplify_eq. bool_hyps. lia. Qed.

Lemma digit_value_inj c c' d : digit_value c = Some d → digit_value c' = Some d → c = c'.
Proof.
  unfold digit_value, code. intros H H'. repeat case_match; simplify_eq.
  rewrite <- (ascii_N_embedding c), <- (ascii_N_embedding c'). f_equal. lia.
Qed.

Lemma parse_digits_bounds s : ∀ acc n,
  parse_digits acc s = Some n →
  acc * 10 ^ len s ≤ n < (acc + 1) * 10 ^ len s.
Proof.
  unfold len. induction s as [|c s IH]; intros acc n H; cbn [parse_digits String.length] in *.
  { simplify_eq. simpl. lia. }
  destruct (digit_value c) as [d|] eqn:Hd; [|done]. apply digit_value_bounds in Hd.
  apply IH in H. rewrite Nat2Z.inj_succ, Z.pow_succ_r by lia.
  pose proof (Z.pow_pos_nonneg 10 (Z.of_nat (String.length s)) ltac:(lia) ltac:(lia)). nia.
Qed.

Lemma parse_digits_same_length s : ∀ s' acc n,
  String.length s = String.length s' → parse_digits acc s = Some n → parse_digits acc s' = Some n →
  s = s'.
Proof.
  induction s as [|c s IH]; intros [|c' s'] acc n Hl H H'; try done.
  cbn [parse_digits String.length] in *. injection Hl as Hl.
  destruct (digit_value c) as [d|] eqn:Hd; [|done]. destruct (digit_value c') as [d'|] eqn:Hd'; [|done].
  simpl in *. pose proof (parse_digits_bounds _ _ _ H) as B. pose proof (parse_digits_bounds _ _ _ H') as B'.
  unfold len in B, B'. rewrite <- Hl in B'.
  pose proof (Z.pow_pos_nonneg 10 (Z.of_nat (String.length s)) ltac:(lia) ltac:(lia)).
  assert (d = d') as <- by nia. f_equal; [by eapply digit_value_inj|by eapply IH].
Qed.

Lemma parse_digits_length c s n :
  c ≠ "0"%char → parse_digits 0 (String c s) = Some n → 10 ^ len s ≤ n < 10 ^ (len s + 1).
Proof.
  intros Hc H. cbn [parse_digits] in H. destruct (digit_value c) as [d|] eqn:Hd; [|done].
  assert (d ≠ 0) by (intros ->; apply Hc; by apply (digit_value_inj _ _ 0)).
  apply digit_value_bounds in Hd. apply parse_digits_bounds in H.
  pose proof (Z.pow_pos_nonneg 10 (len s) ltac:(lia) ltac:(unfold len; lia)).
  rewrite Z.pow_add_r by (unfold len; lia). nia.
Qed.

Lemma parse_digits_canonical c s n :
  c ≠ "0"%char → parse_digits 0 (String c s) = Some n → FormatInt n = String c s.
Proof.
  intros Hc H. pose proof (parse_digits_length _ _ _ Hc H) as B.
  pose proof (Z.pow_pos_nonneg 10 (len s) ltac:(lia) ltac:(unfold len; lia)).
  destruct (FormatInt_head n) as (c'&s'&E&Hc'); [lia|].
  pose proof (parse_digits_FormatInt n ltac:(lia)) as Hp. rewrite E in Hp.
  pose proof (parse_digits_length _ _ _ Hc' Hp) as B'. rewrite E.
  assert (len s = len s') as Hl.
  { unfold len in *. destruct (Z.lt_trichotomy (Z.of_nat (String.length s)) (Z.of_nat (String.length s')))
      as [L|[L|L]]; [|done|]; exfalso.
    - pose proof (Z.pow_le_mono_r 10 (Z.of_nat (String.length s) + 1) (Z.of_nat (String.length s'))
        ltac:(lia) ltac:(lia)). lia.
    - pose proof (Z.pow_le_mono_r 10 (Z.of_nat (String.length s') + 1) (Z.of_nat (String.length s))
        ltac:(lia) ltac:(lia)). lia. }
  symmetry. eapply parse_digits_same_length; [|exact H|exact Hp]. simpl. unfold len in Hl. lia.
Qed.

(** A suffix by position. *)
Lemma substring_all s : String.substring 0 (String.length s) s = s.
Proof. induction s; simpl; congruence. Qed.

Lemma substring_suffix p s :
  String.substring (String.length p) (String.length (p +:+ s) - String.length p) (p +:+ s) = s.
Proof.
  induction p as [|c p IH].
  - simpl. rewrite Nat.sub_0_r. apply substring_all.
  - rewrite String_app. exact IH.
Qed.

Lemma HasPrefix_split s p : HasPrefix s p = true → ∃ rest, s = p +:+ rest.
Proof.
  unfold HasPrefix. revert s. induction p as [|c p IH]; intros s H; [by exists s|].
  destruct s as [|c' s]; [done|]. simpl in H. destruct (ascii_dec c c') as [->|]; [|done].
  destruct (IH s H) as [rest ->]. by exists rest.
Qed.
