(* ===== verification/GoJson.v ===== *)
(** * encoding/json: the validity scanner

    [json.Valid] as the standard library implements it: a push-down automaton
    that reads one byte at a time, with a stack of open objects and arrays
    limited to [maxNestingDepth] entries.  Bytes at or above 0x80 are accepted
    inside strings without checking UTF-8, as the library does. *)

From Stdlib Require Import Ascii.
From S2P Require Import Prelude GoText.

Inductive frame : Set := parseObjectKey | parseObjectValue | parseArrayValue.

Inductive scan_state : Set :=
| stateBeginValueOrEmpty | stateBeginValue | stateBeginStringOrEmpty
| stateBeginString | stateEndValue | stateEndTop
| stateInString | stateInStringEsc | stateInStringEscU (missing : nat)
| stateNeg | state1 | state0 | stateDot | stateDot0 | stateE | stateESign
| stateE0
| stateLiteral (rest : string).

Definition scanner : Type := scan_state * list frame.

Definition maxNestingDepth : Z := 10000.

Definition json_space (b : Z) : bool :=
  (b =? 32) || (b =? 9) || (b =? 13) || (b =? 10).
Definition is_digit (b : Z) : bool := (48 <=? b) && (b <=? 57).
Definition is_hex (b : Z) : bool :=
  is_digit b || (97 <=? b) && (b <=? 102) || (65 <=? b) && (b <=? 70).

(** [pushParseState] and [popParseState]. *)
Definition push_frame (st : scan_state) (f : frame) (stack : list frame) : option scanner :=
  if Z.of_nat (length stack) <? maxNestingDepth then Some (st, f :: stack) else None.

Definition pop_frame (stack : list frame) : option scanner :=
  match stack with
  | [] => None
  | [_] => Some (stateEndTop, [])
  | _ :: rest => Some (stateEndValue, rest)
  end.

Definition end_value (stack : list frame) (b : Z) : option scanner :=
  match stack with
  | [] => if json_space b then Some (stateEndTop, []) else None
  | f :: rest =>
    if json_space b then Some (stateEndValue, stack)
    else match f with
         | parseObjectKey =>
           if b =? 58 then Some (stateBeginValue, parseObjectValue :: rest) else None
         | parseObjectValue =>
           if b =? 44 then Some (stateBeginString, parseObjectKey :: rest)
           else if b =? 125 then pop_frame stack else None
         | parseArrayValue =>
           if b =? 44 then Some (stateBeginValue, stack)
           else if b =? 93 then pop_frame stack else None
         end
  end.

Definition begin_value (stack : list frame) (b : Z) : option scanner :=
  if json_space b then Some (stateBeginValue, stack)
  else if b =? 123 then push_frame stateBeginStringOrEmpty parseObjectKey stack
  else if b =? 91 then push_frame stateBeginValueOrEmpty parseArrayValue stack
  else if b =? 34 then Some (stateInString, stack)
  else if b =? 45 then Some (stateNeg, stack)
  else if b =? 48 then Some (state0, stack)
  else if b =? 116 then Some (stateLiteral "rue", stack)
  else if b =? 102 then Some (stateLiteral "alse", stack)
  else if b =? 110 then Some (stateLiteral "ull", stack)
  else if (49 <=? b) && (b <=? 57) then Some (state1, stack)
  else None.

Definition begin_string (self : scan_state) (stack : list frame) (b : Z) : option scanner :=
  if json_space b then Some (self, stack)
  else if b =? 34 then Some (stateInString, stack) else None.

Definition number_tail (stack : list frame) (b : Z) : option scanner :=
  if b =? 46 then Some (stateDot, stack)
  else if (b =? 101) || (b =? 69) then Some (stateE, stack)
  else end_value stack b.

Definition exp_sign (stack : list frame) (b : Z) : option scanner :=
  if is_digit b then Some (stateE0, stack) else None.

Definition scan_step (sc : scanner) (c : ascii) : option scanner :=
  let b := code c in
  let stack := snd sc in
  match fst sc with
  | stateBeginValueOrEmpty =>
    if json_space b then Some sc
    else if b =? 93 then end_value stack b else begin_value stack b
  | stateBeginValue => begin_value stack b
  | stateBeginStringOrEmpty =>
    if json_space b then Some sc
    else if b =? 125 then
      match stack with
      | [] => None
      | _ :: rest => end_value (parseObjectValue :: rest) b
      end
    else begin_string stateBeginString stack b
  | stateBeginString => begin_string stateBeginString stack b
  | stateEndValue => end_value stack b
  | stateEndTop => if json_space b then Some sc else None
  | stateInString =>
    if b =? 34 then Some (stateEndValue, stack)
    else if b =? 92 then Some (stateInStringEsc, stack)
    else if b <? 32 then None else Some sc
  | stateInStringEsc =>
    if existsb (Z.eqb b) [98; 102; 110; 114; 116; 92; 47; 34]
    then Some (stateInString, stack)
    else if b =? 117 then Some (stateInStringEscU 4, stack) else None
  | stateInStringEscU missing =>
    if is_hex b then
      match missing with
      | S (S n) => Some (stateInStringEscU (S n), stack)
      | _ => Some (stateInString, stack)
      end
    else None
  | stateNeg =>
    if b =? 48 then Some (state0, stack)
    else if (49 <=? b) && (b <=? 57) then Some (state1, stack) else None
  | state1 => if is_digit b then Some sc else number_tail stack b
  | state0 => number_tail stack b
  | stateDot => if is_digit b then Some (stateDot0, stack) else None
  | stateDot0 =>
    if is_digit b then Some sc
    else if (b =? 101) || (b =? 69) then Some (stateE, stack)
    else end_value stack b
  | stateE =>
    if (b =? 43) || (b =? 45) then Some (stateESign, stack) else exp_sign stack b
  | stateESign => exp_sign stack b
  | stateE0 => if is_digit b then Some sc else end_value stack b
  | stateLiteral rest =>
    match rest with
    | String c' rest' =>
      if Ascii.eqb c c' then
        Some (if bool_decide (rest' = "") then stateEndValue else stateLiteral rest', stack)
      else None
    | EmptyString => None
    end
  end.

Fixpoint scan (sc : scanner) (s : string) : option scanner :=
  match s with
  | EmptyString => Some sc
  | String c s' => sc' ← scan_step sc c; scan sc' s'
  end.

(** [scanner.eof]: one more space must bring the scanner to the top level. *)
Definition scan_eof (sc : scanner) : bool :=
  match scan_step sc " "%char with
  | Some (stateEndTop, _) => true
  | _ => false
  end.

Definition json_valid (s : string) : bool :=
  match scan (stateBeginValue, []) s with
  | Some sc => scan_eof sc
  | None => false
  end.

(** ** Sanity of the scanner, by evaluation *)

Definition quote : string := String "034"%char EmptyString.

Example json_valid_samples :
  map json_valid
    [ "{}"; "[]"; " [1, -2.5e+3, true, null] "; "0"; quote +:+ "a" +:+ quote;
      "{" +:+ quote +:+ "k" +:+ quote +:+ ":[{}]}";
      ""; "01"; "[1,]"; "{a:1}"; "tru"; "1 2"; quote; "[}" ]
  = [true; true; true; true; true; true;
     false; false; false; false; false; false; false; false].
Proof. vm_compute. reflexivity. Qed.

(** Scanning is a fold, so it composes over concatenation. *)
Lemma scan_app sc s1 s2 : scan sc (s1 +:+ s2) = sc' ← scan sc s1; scan sc' s2.
Proof.
  revert sc. induction s1 as [|c s1 IH]; intros sc; [done|].
  rewrite String_app. simpl. destruct (scan_step sc c); simpl; [apply IH|done].
Qed.

(** ** json.Marshal of strings

    [appendString] with HTML escaping on, as [json.Marshal] uses it: the quote,
    the backslash, control characters and ['<' '>' '&'] are escaped, U+2028 and
    U+2029 too, and a byte that is not part of valid UTF-8 becomes U+FFFD. *)

Definition continuation (b : Z) : bool := (0x80 <=? b) && (b <=? 0xBF).
Definition utf8_2 (a b : Z) : bool := (0xC2 <=? a) && (a <=? 0xDF) && continuation b.
Definition utf8_3 (a b c : Z) : bool :=
  ((a =? 0xE0) && (0xA0 <=? b) && (b <=? 0xBF)
   || (0xE1 <=? a) && (a <=? 0xEC) && continuation b
   || (a =? 0xED) && (0x80 <=? b) && (b <=? 0x9F)
   || (0xEE <=? a) && (a <=? 0xEF) && continuation b) && continuation c.
Definition utf8_4 (a b c d : Z) : bool :=
  ((a =? 0xF0) && (0x90 <=? b) && (b <=? 0xBF)
   || (0xF1 <=? a) && (a <=? 0xF3) && continuation b
   || (a =? 0xF4) && (0x80 <=? b) && (b <=? 0x8F)) && continuation c && continuation d.

Definition lower_hex (n : Z) : ascii :=
  ascii_of_N (Z.to_N (if n <? 10 then 48 + n else 87 + n)).

Definition backslash : ascii := "\"%char.
Definition escape1 (c : ascii) : list ascii := [backslash; c].
Definition escape_u (h1 h2 h3 h4 : ascii) : list ascii := [backslash; "u"%char; h1; h2; h3; h4].

Definition marshal_ascii (c : ascii) : list ascii :=
  let b := code c in
  if (b =? 34) || (b =? 92) then escape1 c
  else if b =? 8 then escape1 "b"
  else if b =? 12 then escape1 "f"
  else if b =? 10 then escape1 "n"
  else if b =? 13 then escape1 "r"
  else if b =? 9 then escape1 "t"
  else if (b <? 32) || (b =? 60) || (b =? 62) || (b =? 38)
       then escape_u "0" "0" (lower_hex (b / 16)) (lower_hex (b mod 16))
  else [c].

Fixpoint marshal_chars (l : list ascii) : list ascii :=
  match l with
  | [] => []
  | a :: l1 =>
    if code a <? 0x80 then marshal_ascii a ++ marshal_chars l1
    else match l1 with
         | b :: l2 =>
           if utf8_2 (code a) (code b) then a :: b :: marshal_chars l2
           else match l2 with
                | c :: l3 =>
                  if utf8_3 (code a) (code b) (code c) then
                    (if (code a =? 0xE2) && (code b =? 0x80)
                        && ((code c =? 0xA8) || (code c =? 0xA9))
                     then escape_u "2" "0" "2" (lower_hex (code c mod 16))
                     else [a; b; c]) ++ marshal_chars l3
                  else match l3 with
                       | d :: l4 =>
                         if utf8_4 (code a) (code b) (code c) (code d)
                         then a :: b :: c :: d :: marshal_chars l4
                         else escape_u "f" "f" "f" "d" ++ marshal_chars l1
                       | [] => escape_u "f" "f" "f" "d" ++ marshal_chars l1
                       end
                | [] => escape_u "f" "f" "f" "d" ++ marshal_chars l1
                end
         | [] => escape_u "f" "f" "f" "d" ++ marshal_chars l1
         end
  end.

Definition marshal_string (s : string) : string :=
  quote +:+ of_chars (marshal_chars (chars s)) +:+ quote.

(** One field of an object, with a literal name. *)
Definition json_field (name : string) (value : string) : string :=
  quote +:+ name +:+ quote +:+ ":" +:+ value.

Fixpoint join_comma (fields : list string) : string :=
  match fields with
  | [] => ""
  | [f] => f
  | f :: rest => f +:+ "," +:+ join_comma rest
  end.

Definition json_object (fields : list string) : string :=
  "{" +:+ join_comma fields +:+ "}".

Example marshal_string_sample :
  marshal_string "a<b" = quote +:+ "a\u003cb" +:+ quote.
Proof. vm_compute. reflexivity. Qed.

(** *** The encoder's output always scans as a string *)

Lemma chars_of_chars l : chars (of_chars l) = l.
Proof. induction l; simpl; congruence. Qed.

Lemma of_chars_app l1 l2 : of_chars (l1 ++ l2) = of_chars l1 +:+ of_chars l2.
Proof. apply chars_inj. by rewrite chars_app, !chars_of_chars. Qed.

(** A fragment that keeps the scanner inside the string. *)
Definition in_string (l : list ascii) : Prop :=
  ∀ stack, scan (stateInString, stack) (of_chars l) = Some (stateInString, stack).

Lemma in_string_app l1 l2 : in_string l1 → in_string l2 → in_string (l1 ++ l2).
Proof. intros H1 H2 stack. rewrite of_chars_app, scan_app, H1. apply H2. Qed.

Lemma in_string_cons a l : 32 ≤ code a → code a ≠ 34 → code a ≠ 92 →
  in_string l → in_string (a :: l).
Proof.
  intros H1 H2 H3 Hl stack. simpl. unfold scan_step. simpl.
  destruct (Z.eqb_spec (code a) 34); [done|]. destruct (Z.eqb_spec (code a) 92); [done|].
  destruct (Z.ltb_spec (code a) 32); [lia|]. apply Hl.
Qed.

Lemma marshal_ascii_in_string c : code c < 128 → in_string (marshal_ascii c).
Proof.
  intros _ stack. destruct c as [b0 b1 b2 b3 b4 b5 b6 b7].
  destruct b0, b1, b2, b3, b4, b5, b6, b7; reflexivity.
Qed.

Lemma utf8_byte_bounds :
  (∀ a b, utf8_2 a b = true → 128 ≤ a ∧ 128 ≤ b)
  ∧ (∀ a b c, utf8_3 a b c = true → 128 ≤ a ∧ 128 ≤ b ∧ 128 ≤ c)
  ∧ (∀ a b c d, utf8_4 a b c d = true → 128 ≤ a ∧ 128 ≤ b ∧ 128 ≤ c ∧ 128 ≤ d).
Proof. unfold utf8_2, utf8_3, utf8_4, continuation. split_and!; intros; lia. Qed.

Lemma escape_fffd_in_string : in_string (escape_u "f" "f" "f" "d").
Proof. intros stack. reflexivity. Qed.

Lemma escape_2028_in_string c :
  code c = 0xA8 ∨ code c = 0xA9 → in_string (escape_u "2" "0" "2" (lower_hex (code c mod 16))).
Proof. intros [-> | ->] stack; reflexivity. Qed.

Ltac in_string_tac :=
  repeat first
    [ apply in_string_app | apply escape_fffd_in_string
    | apply in_string_cons; [lia|lia|lia|] | assumption | intros ?; reflexivity ].

Lemma marshal_chars_in_string l : in_string (marshal_chars l).
Proof.
  destruct utf8_byte_bounds as (H2 & H3 & H4).
  induction l as [l IH] using (induction_ltof1 _ (@length ascii)). unfold ltof in IH.
  destruct l as [|a l1]; [by intros ?|].
  assert (IH1 : in_string (marshal_chars l1)) by (apply IH; simpl; lia).
  cbn [marshal_chars]. destruct (Z.ltb_spec (code a) 128).
  { apply in_string_app; [by apply marshal_ascii_in_string|done]. }
  destruct l1 as [|b l2]; [by in_string_tac|].
  assert (IH2 : in_string (marshal_chars l2)) by (apply IH; simpl; lia).
  destruct (utf8_2 _ _) eqn:E2; [apply H2 in E2; by in_string_tac|].
  destruct l2 as [|c l3]; [by in_string_tac|].
  assert (IH3 : in_string (marshal_chars l3)) by (apply IH; simpl; lia).
  destruct (utf8_3 _ _ _) eqn:E3.
  { apply H3 in E3. apply in_string_app; [|done].
    destruct (_ && _) eqn:Eesc; [|by in_string_tac].
    apply escape_2028_in_string. lia. }
  destruct l3 as [|d l4]; [by in_string_tac|].
  assert (IH4 : in_string (marshal_chars l4)) by (apply IH; simpl; lia).
  destruct (utf8_4 _ _ _ _) eqn:E4; [apply H4 in E4|]; by in_string_tac.
Qed.

(** Marshalling any Go string gives valid JSON. *)
Lemma marshal_string_valid s : json_valid (marshal_string s) = true.
Proof.
  unfold json_valid, marshal_string. rewrite scan_app. cbn [scan quote].
  change (scan_step (stateBeginValue, []) "034") with (Some (stateInString, @nil frame)).
  cbn [mbind option_bind]. rewrite scan_app, marshal_chars_in_string. reflexivity.
Qed.

(** ** What a JSON column holds

    A string marshalled by [json.Marshal] and decoded again: bytes outside
    valid UTF-8 have become U+FFFD, everything else is unchanged. *)
Definition rune_error : list ascii := ["239"; "191"; "189"]%char.

Fixpoint utf8_sanitize (l : list ascii) : list ascii :=
  match l with
  | [] => []
  | a :: l1 =>
    if code a <? 0x80 then a :: utf8_sanitize l1
    else match l1 with
         | b :: l2 =>
           if utf8_2 (code a) (code b) then a :: b :: utf8_sanitize l2
           else match l2 with
                | c :: l3 =>
                  if utf8_3 (code a) (code b) (code c)
                  then a :: b :: c :: utf8_sanitize l3
                  else match l3 with
                       | d :: l4 =>
                         if utf8_4 (code a) (code b) (code c) (code d)
                         then a :: b :: c :: d :: utf8_sanitize l4
                         else rune_error ++ utf8_sanitize l1
                       | [] => rune_error ++ utf8_sanitize l1
                       end
                | [] => rune_error ++ utf8_sanitize l1
                end
         | [] => rune_error ++ utf8_sanitize l1
         end
  end.

Definition json_string_column (s : string) : string := of_chars (utf8_sanitize (chars s)).

(** [compact] with HTML escaping, which [json.Marshal] applies to a
    [json.RawMessage]: blanks outside strings go, ['<' '>' '&'], U+2028 and
    U+2029 are escaped.  [instr] and [esc] say whether the next byte is inside a
    string and follows a backslash there. *)
Fixpoint compact_chars (instr esc : bool) (l : list ascii) : list ascii :=
  match l with
  | [] => []
  | a :: l1 =>
    let b := code a in
    if negb instr && json_space b then compact_chars false false l1
    else
      let instr' := if instr then esc || negb (b =? 34) else b =? 34 in
      let esc' := instr && negb esc && (b =? 92) in
      if (b =? 60) || (b =? 62) || (b =? 38) then
        escape_u "0" "0" (lower_hex (b / 16)) (lower_hex (b mod 16)) ++ compact_chars instr' esc' l1
      else match l1 with
           | c2 :: (c3 :: l3) =>
             if (b =? 0xE2) && (code c2 =? 0x80) && ((code c3 =? 0xA8) || (code c3 =? 0xA9))
             then escape_u "2" "0" "2" (lower_hex (code c3 mod 16)) ++ compact_chars instr' false l3
             else a :: compact_chars instr' esc' l1
           | _ => a :: compact_chars instr' esc' l1
           end
  end.

Definition json_compact (s : string) : string := of_chars (compact_chars false false (chars s)).

Example json_compact_sample :
  json_compact ("{ " +:+ quote +:+ "a <" +:+ quote +:+ " : [1, 2] }")
  = "{" +:+ quote +:+ "a \u003c" +:+ quote +:+ ":[1,2]}".
Proof. vm_compute. reflexivity. Qed.
