(* ===== verification/GoDigest.v ===== *)
(** * Digests: crypto/sha256, encoding/hex and length-prefixed hashing

    SHA-256 as FIPS 180-4 defines it, on the bytes of a string, with the
    lowercase hexadecimal text [hex.EncodeToString] prints, and the
    length-prefixed encoding ["%d:%s"] every identifier of the kernel is hashed
    through.  That encoding is injective, so two lists of parts with one digest
    are one list or a collision of SHA-256. *)

From Stdlib Require Import Ascii PrimInt63 Uint63Axioms.
From S2P Require Import Prelude GoText GoJson.

(** ** SHA-256

    A 32-bit word is a machine integer of 63 bits that is kept below [2 ^ 32]:
    sums of five words and left shifts by less than 31 do not lose a bit of the
    low word. *)

Local Infix "<<" := PrimInt63.lsl (at level 30, no associativity) : uint63_scope.
Local Infix ">>" := PrimInt63.lsr (at level 30, no associativity) : uint63_scope.
Local Notation "x 'land' y" := (PrimInt63.land x y) (at level 40, left associativity) : uint63_scope.
Local Notation "x 'lor' y" := (PrimInt63.lor x y) (at level 40, left associativity) : uint63_scope.
Local Notation "x 'lxor' y" := (PrimInt63.lxor x y) (at level 40, left associativity) : uint63_scope.
Local Infix "+" := PrimInt63.add : uint63_scope.
Local Infix "-" := PrimInt63.sub : uint63_scope.
Local Infix "*" := PrimInt63.mul : uint63_scope.
Local Open Scope uint63_scope.

Definition w32 (x : int) : int := x land 0xffffffff.
(** The right rotation by [n], [2 <= n < 32], before it is cut to a word. *)
Definition rotated (n x : int) : int := (x >> n) lor (x << (32 - n)).
Definition bsig0 (x : int) : int := w32 ((rotated 2 x lxor rotated 13 x) lxor rotated 22 x).
Definition bsig1 (x : int) : int := w32 ((rotated 6 x lxor rotated 11 x) lxor rotated 25 x).
Definition ssig0 (x : int) : int := w32 ((rotated 7 x lxor rotated 18 x) lxor (x >> 3)).
Definition ssig1 (x : int) : int := w32 ((rotated 17 x lxor rotated 19 x) lxor (x >> 10)).
(** [(x land y) lxor (not x land z)] and the bitwise majority. *)
Definition choose (x y z : int) : int := z lxor (x land (y lxor z)).
Definition majority (x y z : int) : int := (x land y) lor (z land (x lor y)).

(** The first words of the fractional parts of the cube roots of the first 64 primes. *)
Definition round_constants : list int :=
  [ 1116352408; 1899447441; 3049323471; 3921009573; 961987163; 1508970993; 2453635748; 2870763221;
    3624381080; 310598401; 607225278; 1426881987; 1925078388; 2162078206; 2614888103; 3248222580;
    3835390401; 4022224774; 264347078; 604807628; 770255983; 1249150122; 1555081692; 1996064986;
    2554220882; 2821834349; 2952996808; 3210313671; 3336571891; 3584528711; 113926993; 338241895;
    666307205; 773529912; 1294757372; 1396182291; 1695183700; 1986661051; 2177026350; 2456956037;
    2730485921; 2820302411; 3259730800; 3345764771; 3516065817; 3600352804; 4094571909; 275423344;
    430227734; 506948616; 659060556; 883997877; 958139571; 1322822218; 1537002063; 1747873779;
    1955562222; 2024104815; 2227730452; 2361852424; 2428436474; 2756734187; 3204031479; 3329325298 ].

Record hash_state := mkHashState {
  hs_a : int; hs_b : int; hs_c : int; hs_d : int; hs_e : int; hs_f : int; hs_g : int; hs_h : int
}.

Definition initial_hash : hash_state :=
  mkHashState 1779033703 3144134277 1013904242 2773480762 1359893119 2600822924 528734635 1541459225.

(** The message schedule, newest word first. *)
Fixpoint extend_schedule (n : nat) (w : list int) : list int :=
  match n with
  | O => w
  | S n' =>
    extend_schedule n'
      (w32 (ssig1 (nth 1 w 0) + nth 6 w 0 + ssig0 (nth 14 w 0) + nth 15 w 0) :: w)
  end.

Definition hash_round (s : hash_state) (kw : int * int) : hash_state :=
  let t1 := s.(hs_h) + bsig1 s.(hs_e) + choose s.(hs_e) s.(hs_f) s.(hs_g) + fst kw + snd kw in
  let t2 := bsig0 s.(hs_a) + majority s.(hs_a) s.(hs_b) s.(hs_c) in
  mkHashState (w32 (t1 + t2)) s.(hs_a) s.(hs_b) s.(hs_c) (w32 (s.(hs_d) + t1)) s.(hs_e) s.(hs_f) s.(hs_g).

Definition hash_block (s : hash_state) (words : list int) : hash_state :=
  let r := foldl hash_round s (combine round_constants (rev (extend_schedule 48 (rev words)))) in
  mkHashState (w32 (s.(hs_a) + r.(hs_a))) (w32 (s.(hs_b) + r.(hs_b))) (w32 (s.(hs_c) + r.(hs_c)))
    (w32 (s.(hs_d) + r.(hs_d))) (w32 (s.(hs_e) + r.(hs_e))) (w32 (s.(hs_f) + r.(hs_f)))
    (w32 (s.(hs_g) + r.(hs_g))) (w32 (s.(hs_h) + r.(hs_h))).

(** The value of a byte, and the words of a byte string. *)
Definition bit (b : bool) (v : int) : int := if b then v else 0.
Definition byte_of (c : ascii) : int :=
  let 'Ascii b0 b1 b2 b3 b4 b5 b6 b7 := c in
  bit b0 1 lor bit b1 2 lor bit b2 4 lor bit b3 8 lor bit b4 16 lor bit b5 32 lor bit b6 64 lor bit b7 128.

Fixpoint be_words (l : list int) : list int :=
  match l with
  | a :: b :: c :: d :: rest => (((a << 24) lor (b << 16)) lor (c << 8)) lor d :: be_words rest
  | _ => []
  end.

(** The eight bytes of the length of the message in bits. *)
Definition length_bytes (n : int) : list int :=
  map (fun shift => (n >> shift) land 255) [56; 48; 40; 32; 24; 16; 8; 0].

Definition pad_message (l : list int) : list int :=
  let n := length l in
  l ++ [0x80] ++ repeat 0 (Z.to_nat ((55 - Z.of_nat n) mod 64)%Z) ++ length_bytes (8 * of_Z (Z.of_nat n)).

(** The blocks of sixteen words; [fuel] bounds their number. *)
Fixpoint hash_blocks (fuel : nat) (s : hash_state) (words : list int) : hash_state :=
  match fuel, words with
  | S fuel', _ :: _ => hash_blocks fuel' (hash_block s (take 16 words)) (drop 16 words)
  | _, _ => s
  end.

Definition sha256_words (l : list int) : hash_state :=
  let words := be_words (pad_message l) in hash_blocks (length words) initial_hash words.

Local Close Scope uint63_scope.

Fixpoint hex_digits (n : nat) (z : Z) : list ascii :=
  match n with
  | O => []
  | S n' => lower_hex (Z.shiftr z (4 * Z.of_nat n') mod 16) :: hex_digits n' z
  end.

(** [hex.EncodeToString] of [sha256.Sum256]. *)
Definition sha256_chars (s : string) : list ascii :=
  let h := sha256_words (map byte_of (chars s)) in
  concat (map (fun word => hex_digits 8 (to_Z word))
    [h.(hs_a); h.(hs_b); h.(hs_c); h.(hs_d); h.(hs_e); h.(hs_f); h.(hs_g); h.(hs_h)]).

Definition sha256_hex (s : string) : string := of_chars (sha256_chars s).

Definition sha256_digest (s : string) : string := "sha256:" +:+ sha256_hex s.

(** The test vectors of FIPS 180-4, and one with three blocks. *)
Example sha256_empty :
  sha256_hex "" = "e3b0c44298fc1c149afbf4c8996fb92427ae41e4649b934ca495991b7852b855".
Proof. vm_compute. reflexivity. Qed.

Example sha256_abc :
  sha256_hex "abc" = "ba7816bf8f01cfea414140de5dae2223b00361a396177a9cb410ff61f20015ad".
Proof. vm_compute. reflexivity. Qed.

Example sha256_two_blocks :
  sha256_hex "abcdbcdecdefdefgefghfghighijhijkijkljklmklmnlmnomnopnopq"
  = "248d6a61d20638b8e5c026930c3e6039a33ce45964ff2167f6ecedd419db06c1".
Proof. vm_compute. reflexivity. Qed.

(** ** Length-prefixed parts *)

(** [fmt.Fprintf(hash, "%d:%s", len(part), part)] for every part. *)
Fixpoint hash_parts (parts : list string) : string :=
  match parts with
  | [] => ""
  | part :: rest => FormatInt (len part) +:+ ":" +:+ part +:+ hash_parts rest
  end.

Lemma hex_digits_length n z : length (hex_digits n z) = n.
Proof. induction n; simpl; congruence. Qed.

Definition hex_char (c : ascii) : bool :=
  (48 <=? code c) && (code c <=? 57) || (97 <=? code c) && (code c <=? 102).

Lemma lower_hex_char n : 0 ≤ n < 16 → hex_char (lower_hex n) = true.
Proof.
  intros H. assert (n ∈ seqZ 0 16) as Hin by (apply elem_of_seqZ; lia).
  clear H. revert n Hin. apply Forall_forall. repeat constructor.
Qed.

Lemma hex_digits_char n z : Forall (λ c, hex_char c = true) (hex_digits n z).
Proof.
  induction n as [|n IH]; simpl; constructor; [|done].
  apply lower_hex_char. apply Z.mod_pos_bound. lia.
Qed.

Lemma sha256_chars_hex s : Forall (λ c, hex_char c = true) (sha256_chars s).
Proof.
  unfold sha256_chars. cbn [map concat]. rewrite !Forall_app.
  repeat split; first [apply hex_digits_char | constructor].
Qed.

Lemma sha256_chars_length s : length (sha256_chars s) = 64%nat.
Proof. unfold sha256_chars. cbn [map concat]. rewrite !length_app, !hex_digits_length. done. Qed.

Lemma sha256_hex_len s : len (sha256_hex s) = 64.
Proof. unfold len, sha256_hex. rewrite <- length_chars, chars_of_chars, sha256_chars_length. done. Qed.

Lemma sha256_hex_text s : forallb hex_char (chars (sha256_hex s)) = true.
Proof.
  unfold sha256_hex. rewrite chars_of_chars. apply forallb_forall. intros c Hc.
  pose proof (sha256_chars_hex s) as Hf. eapply Forall_forall in Hf; [|by apply list_elem_of_In]. done.
Qed.

#[global] Opaque sha256_hex.

(** ** Injectivity of the length-prefixed encoding *)

Lemma app_sep_inj {A} (sep : A) (l1 l2 r1 r2 : list A) :
  sep ∉ l1 → sep ∉ l2 → l1 ++ sep :: r1 = l2 ++ sep :: r2 → l1 = l2 ∧ r1 = r2.
Proof.
  revert l2. induction l1 as [|a l1 IH]; intros [|b l2] H1 H2 Heq; simplify_eq/=; try set_solver.
  destruct (IH l2) as [-> ->]; set_solver.
Qed.

Lemma FormatInt_no_colon z : 0 ≤ z → ":"%char ∉ chars (FormatInt z).
Proof.
  intros Hz Hin. pose proof (parse_digits_all _ _ _ (parse_digits_FormatInt z Hz)) as H.
  rewrite Forall_forall in H. by destruct (H _ Hin).
Qed.

Lemma len_nonneg s : 0 ≤ len s.
Proof. unfold len. lia. Qed.

Lemma hash_parts_cons_inj p q x y :
  FormatInt (len p) +:+ ":" +:+ p +:+ x = FormatInt (len q) +:+ ":" +:+ q +:+ y → p = q ∧ x = y.
Proof.
  intros H%(f_equal chars). rewrite !chars_app in H. cbn [chars app] in H.
  apply app_sep_inj in H as [Hl H]; [|apply FormatInt_no_colon, len_nonneg..].
  apply chars_inj, FormatInt_inj in Hl. unfold len in Hl. rewrite <- !length_chars in Hl.
  apply app_inj_1 in H as [Hp Hx]; [|lia]. split; by apply chars_inj.
Qed.

Lemma hash_parts_inj ps qs : hash_parts ps = hash_parts qs → ps = qs.
Proof.
  assert (Hne : ∀ p x, FormatInt (len p) +:+ ":" +:+ p +:+ x ≠ "").
  { intros p x H%(f_equal chars). rewrite !chars_app in H. apply app_eq_nil in H as [_ H]. done. }
  revert qs. induction ps as [|p ps IH]; intros [|q qs] H; simpl in H; [done| | |].
  - by destruct (Hne q (hash_parts qs)).
  - by destruct (Hne p (hash_parts ps)).
  - apply hash_parts_cons_inj in H as [-> H]. f_equal. by apply IH.
Qed.
