(* ===== verification/GoTime.v ===== *)
(** * Timestamps as text: time.Format and time.Time.MarshalJSON

    A [time] is the number of nanoseconds since January 1, year 1, UTC.  The
    civil date is computed the way the proleptic Gregorian calendar does, by
    cycles of 400, 100, 4 and 1 years. *)

From Stdlib Require Import Ascii.
From S2P Require Import Prelude GoText GoJson.

(** [z] in decimal, padded with zeros to [n] digits. *)
Definition pad_int (n : nat) (z : Z) : string :=
  let s := FormatInt z in of_chars (repeat "0"%char (n - String.length s)%nat) +:+ s.

Record civil_date := mkCivilDate { cd_Year : Z; cd_Month : Z; cd_Day : Z }.

Definition leap_year (y : Z) : bool :=
  (y mod 4 =? 0) && (negb (y mod 100 =? 0) || (y mod 400 =? 0)).

Definition month_lengths (y : Z) : list Z :=
  [31; if leap_year y then 29 else 28; 31; 30; 31; 30; 31; 31; 30; 31; 30; 31].

(** The month and day of the [d]-th day, from zero, of a year. *)
Fixpoint month_day (lengths : list Z) (m d : Z) : Z * Z :=
  match lengths with
  | [] => (m, d + 1)
  | n :: rest => if d <? n then (m, d + 1) else month_day rest (m + 1) (d - n)
  end.

Definition civil (days : Z) : civil_date :=
  let n400 := days / 146097 in
  let d := days mod 146097 in
  let n100 := Z.min 3 (d / 36524) in
  let d := d - n100 * 36524 in
  let n4 := d / 1461 in
  let d := d mod 1461 in
  let n1 := Z.min 3 (d / 365) in
  let d := d - n1 * 365 in
  let y := 400 * n400 + 100 * n100 + 4 * n4 + n1 + 1 in
  let md := month_day (month_lengths y) 1 d in
  mkCivilDate y (fst md) (snd md).

Definition second_ns : Z := 10 ^ 9.

(** ["2006-01-02T15:04:05"]. *)
Definition format_seconds (t : Z) : string :=
  let seconds := t / second_ns in
  let date := civil (seconds / 86400) in
  let s := seconds mod 86400 in
  pad_int 4 date.(cd_Year) +:+ "-" +:+ pad_int 2 date.(cd_Month) +:+ "-" +:+ pad_int 2 date.(cd_Day)
  +:+ "T" +:+ pad_int 2 (s / 3600) +:+ ":" +:+ pad_int 2 (s / 60 mod 60) +:+ ":" +:+ pad_int 2 (s mod 60).

(** [Format("2006-01-02T15:04:05.000000Z")]. *)
Definition format_micros (t : Z) : string :=
  format_seconds t +:+ "." +:+ pad_int 6 (t mod second_ns / 1000) +:+ "Z".

Fixpoint drop_zeros (l : list ascii) : list ascii :=
  match l with
  | "0"%char :: rest => drop_zeros rest
  | _ => l
  end.

(** [time.RFC3339Nano], which [MarshalJSON] quotes: trailing zeros of the
    fraction go, and the point with them. *)
Definition format_rfc3339 (t : Z) : string :=
  let fraction := rev (drop_zeros (rev (chars (pad_int 9 (t mod second_ns))))) in
  format_seconds t +:+ (if bool_decide (fraction = []) then "" else "." +:+ of_chars fraction) +:+ "Z".

Definition marshal_time (t : Z) : string := quote +:+ format_rfc3339 t +:+ quote.

(** Year 1000, the Unix epoch, a leap day and the last day of year 9999. *)
Example format_samples :
  map format_rfc3339
    [ 364877 * 86400 * second_ns; 719162 * 86400 * second_ns;
      (730178 * 86400 + 45296) * second_ns + 120; (3652058 * 86400 + 86399) * second_ns + 5 * 10 ^ 8 ]
  = [ "1000-01-01T00:00:00Z"; "1970-01-01T00:00:00Z"; "2000-02-29T12:34:56.00000012Z";
      "9999-12-31T23:59:59.5Z" ].
Proof. vm_compute. reflexivity. Qed.

Example format_micros_sample : format_micros (719162 * 86400 * second_ns + 1500) = "1970-01-01T00:00:00.000001Z".
Proof. vm_compute. reflexivity. Qed.
