(* ===== verification/GoJsonFacts.v ===== *)
(** * Decoding valid JSON is total and ignores compaction

    The scanner of [json.Valid] and the decoder agree: every document the
    scanner accepts has a decoded value, within the decoder's fuel, and
    compacting the document does not change its tokens. *)

From Stdlib Require Import Ascii.
From S2P Require Import Prelude GoText GoJson GoJsonValue.

#[local] Arguments json_space : simpl never.
#[local] Arguments code : simpl never.
#[local] Arguments is_hex : simpl never.
#[local] Arguments is_digit : simpl never.

(** ** Acceptance *)

(** The scanner in state [sc] accepts the rest [l] of the document. *)
Definition accepts (sc : scanner) (l : list ascii) : bool :=
  match scan sc (of_chars l) with
  | Some sc' => scan_eof sc'
  | None => false
  end.

Lemma json_valid_accepts s : json_valid s = accepts (stateBeginValue, []) (chars s).
Proof. unfold accepts. by rewrite of_chars_chars. Qed.

Lemma accepts_nil sc : accepts sc [] = scan_eof sc.
Proof. done. Qed.

Lemma accepts_cons sc a l :
  accepts sc (a :: l) = match scan_step sc a with Some sc' => accepts sc' l | None => false end.
Proof. unfold accepts. simpl. by destruct (scan_step sc a). Qed.

Lemma accepts_top l : accepts (stateEndTop, []) l = accepts (stateEndValue, []) l.
Proof.
  destruct l as [|a l]; [done|]. rewrite !accepts_cons. simpl. by destruct (json_space (code a)).
Qed.

(** A popped frame leaves the scanner after a value. *)
Lemma accepts_pop f stack sc l :
  pop_frame (f :: stack) = Some sc → accepts sc l = true → accepts (stateEndValue, stack) l = true.
Proof. destruct stack; simpl; intros [= <-] H; [by rewrite <- accepts_top|done]. Qed.

Ltac split_code :=
  repeat match goal with
  | |- context [json_space ?b] => destruct (json_space b) eqn:?
  | |- context [?x =? ?y] => destruct (Z.eqb_spec x y)
  | |- context [?x <=? ?y] => destruct (Z.leb_spec x y)
  | |- context [?x <? ?y] => destruct (Z.ltb_spec x y)
  end.

(** ** Blanks *)

Definition blank (a : ascii) : bool := json_space (code a).

Lemma blank_split l :
  (∃ sp a r, l = sp ++ a :: r ∧ Forall (λ x, blank x = true) sp ∧ blank a = false)
  ∨ Forall (λ x, blank x = true) l.
Proof.
  induction l as [|a l IH]; [by right|]. destruct (blank a) eqn:E.
  - destruct IH as [(sp&b&r&->&?&?)|?]; [left; exists (a :: sp), b, r|right]; auto.
  - left. by exists [], a, l.
Qed.

Lemma tokens_blank sp l : Forall (λ x, blank x = true) sp → tokens None (sp ++ l) = tokens None l.
Proof. induction 1 as [|a sp Ha _ IH]; [done|]. simpl. unfold blank in Ha. by rewrite Ha. Qed.

(** The states that skip blanks and do not end on them. *)
Definition waits (st : scan_state) (stack : list frame) : Prop :=
  st = stateBeginValue ∨ st = stateBeginString ∨ st = stateBeginStringOrEmpty
  ∨ st = stateBeginValueOrEmpty ∨ st = stateEndValue ∧ stack ≠ [].

Lemma waits_blank st stack a :
  waits st stack → blank a = true → scan_step (st, stack) a = Some (st, stack).
Proof.
  unfold blank. intros Hw Ha. unfold scan_step, begin_value, begin_string, end_value.
  destruct Hw as [->|[->|[->|[->|[-> Hs]]]]]; cbn [fst snd]; rewrite ?Ha; try done.
  by destruct stack.
Qed.

Lemma accepts_blank st stack sp l :
  waits st stack → Forall (λ x, blank x = true) sp →
  accepts (st, stack) (sp ++ l) = accepts (st, stack) l.
Proof.
  intros Hw. induction 1 as [|a sp Ha _ IH]; [done|]. simpl.
  by rewrite accepts_cons, waits_blank.
Qed.

(** A waiting scanner that accepts meets a first byte that is not blank. *)
Lemma accepts_first st stack l :
  waits st stack → accepts (st, stack) l = true →
  ∃ a r sc, tokens None l = tokens None (a :: r) ∧ blank a = false
    ∧ scan_step (st, stack) a = Some sc ∧ accepts sc r = true.
Proof.
  intros Hw H. destruct (blank_split l) as [(sp&a&r&->&Hsp&Ha)|Hsp].
  - rewrite accepts_blank, accepts_cons in H by done.
    destruct (scan_step _ _) as [sc|] eqn:E; [|done]. exists a, r, sc.
    by rewrite tokens_blank.
  - rewrite <- (app_nil_r l), accepts_blank in H by done.
    assert (scan_step (st, stack) " " = Some (st, stack)) as E by (by apply waits_blank).
    rewrite accepts_nil in H. unfold scan_eof in H. rewrite E in H.
    by destruct Hw as [->|[->|[->|[->|[-> _]]]]].
Qed.

(** ** String literals *)

Definition is_escape (c : ascii) : bool :=
  existsb (Z.eqb (code c)) [98; 102; 110; 114; 116; 92; 47; 34].

(** The body of a literal the scanner accepts. *)
Inductive str_items : list ascii → Prop :=
| si_nil : str_items []
| si_plain a l : 32 ≤ code a → code a ≠ 34 → code a ≠ 92 → str_items l → str_items (a :: l)
| si_escape b e l : code b = 92 → is_escape e = true → str_items l → str_items (b :: e :: l)
| si_unicode b u h1 h2 h3 h4 l :
    code b = 92 → code u = 117 →
    is_hex (code h1) = true → is_hex (code h2) = true → is_hex (code h3) = true →
    is_hex (code h4) = true → str_items l → str_items (b :: u :: h1 :: h2 :: h3 :: h4 :: l).

Lemma accepts_hex n stack l :
  accepts (stateInStringEscU (S n), stack) l = true →
  ∃ h r, l = h :: r ∧ is_hex (code h) = true
    ∧ accepts (match n with O => stateInString | S _ => stateInStringEscU n end, stack) r = true.
Proof.
  destruct l as [|h r]; [discriminate|]. rewrite accepts_cons. unfold scan_step; cbn [fst snd].
  destruct (is_hex (code h)) eqn:E; [|done]. intros H. exists h, r. split; [done|].
  split; [done|]. by destruct n.
Qed.

Lemma code_34 a : code a = 34 → a = "034"%char.
Proof.
  unfold code. intros H. rewrite <- (ascii_N_embedding a). by replace (N_of_ascii a) with 34%N by lia.
Qed.

Lemma accepts_string stack l :
  accepts (stateInString, stack) l = true →
  ∃ raw rest, l = raw ++ "034"%char :: rest ∧ str_items raw ∧ accepts (stateEndValue, stack) rest = true.
Proof.
  induction l as [l IH] using (induction_ltof1 _ (@length ascii)). unfold ltof in IH.
  destruct l as [|a l]; [done|]. rewrite accepts_cons. unfold scan_step; cbn [fst snd].
  destruct (Z.eqb_spec (code a) 34) as [Ha|Ha].
  { intros H. exists [], l. rewrite (code_34 a Ha). auto using str_items. }
  destruct (Z.eqb_spec (code a) 92) as [Hb|Hb].
  - destruct l as [|e l]; [done|]. rewrite accepts_cons. unfold scan_step; cbn [fst snd].
    fold (is_escape e). destruct (is_escape e) eqn:He.
    { intros H. apply IH in H as (raw&rest&->&?&?); [|simpl; lia].
      exists (a :: e :: raw), rest. auto using str_items. }
    destruct (Z.eqb_spec (code e) 117) as [Hu|]; [|done].
    intros (h1&r1&->&?&H)%accepts_hex. apply accepts_hex in H as (h2&r2&->&?&H).
    apply accepts_hex in H as (h3&r3&->&?&H). apply accepts_hex in H as (h4&r4&->&?&H).
    apply IH in H as (raw&rest&->&?&?); [|simpl; lia].
    exists (a :: e :: h1 :: h2 :: h3 :: h4 :: raw), rest. auto using str_items.
  - destruct (Z.ltb_spec (code a) 32) as [|Hc]; [done|].
    intros H. apply IH in H as (raw&rest&->&?&?); [|simpl; lia].
    exists (a :: raw), rest. auto using str_items.
Qed.

Lemma is_hex_plain c : is_hex (code c) = true → code c ≠ 34 ∧ code c ≠ 92.
Proof. unfold is_hex, is_digit. lia. Qed.

Lemma is_escape_code e : is_escape e = true → code e < 128.
Proof. unfold is_escape. simpl. lia. Qed.

(** A literal is one token. *)
Lemma tokens_string raw acc rest :
  str_items raw →
  tokens (Some (acc, false)) (raw ++ "034"%char :: rest)
  = TokString (of_chars (unquote 0 (rev acc ++ raw))) :: tokens None rest.
Proof.
  assert (Hplain : ∀ a l acc, code a ≠ 34 → code a ≠ 92 →
    tokens (Some (acc, false)) (a :: l) = tokens (Some (a :: acc, false)) l).
  { intros a l acc' H1 H2. simpl. destruct (Z.eqb_spec (code a) 34), (Z.eqb_spec (code a) 92); done. }
  assert (Hesc : ∀ b e l acc, code b = 92 →
    tokens (Some (acc, false)) (b :: e :: l) = tokens (Some (e :: b :: acc, false)) l).
  { intros b e l acc' H. simpl. rewrite H. simpl. done. }
  intros H. revert acc. induction H as [|a l ? ? ? _ IH|b e l ? _ _ IH
    |b u h1 h2 h3 h4 l ? Hu ?%is_hex_plain ?%is_hex_plain ?%is_hex_plain ?%is_hex_plain _ IH]; intros acc.
  - simpl. by rewrite app_nil_r.
  - rewrite <- app_comm_cons, Hplain, IH by done. simpl. by rewrite <- app_assoc.
  - rewrite <- !app_comm_cons, Hesc, IH by done. simpl. by rewrite <- !app_assoc.
  - rewrite <- !app_comm_cons, Hesc, !Hplain, IH by naive_solver. simpl. by rewrite <- !app_assoc.
Qed.

(** ** Literals and numbers *)

(** After a value comes a structural byte or the end. *)
Lemma take_atom_end stack l :
  accepts (stateEndValue, stack) l = true → take_atom (tokens None l) = ([], tokens None l).
Proof.
  destruct (blank_split l) as [(sp&a&r&->&Hsp&Ha)|Hsp].
  - rewrite tokens_blank by done. intros H.
    assert (structural a = true) as Hst.
    { destruct stack as [|f stack].
      - assert (accepts (stateEndValue, []) (sp ++ a :: r) = false) as E; [|congruence].
        clear H. rewrite <- accepts_top. induction Hsp as [|b sp Hb _ IH]; simpl; rewrite accepts_cons; unfold scan_step; cbn [fst snd].
        + unfold blank in Ha. by rewrite Ha.
        + unfold blank in Hb. by rewrite Hb.
      - rewrite accepts_blank, accepts_cons in H by (unfold waits; naive_solver).
        unfold blank in Ha. unfold scan_step, end_value in H; cbn [fst snd] in H. rewrite Ha in H. unfold structural. simpl.
        destruct f; repeat (case_match; try done); bool_hyps; lia. }
    assert (code a ≠ 34) by (intros E; unfold structural in Hst; rewrite E in Hst; done).
    simpl. unfold blank in Ha. rewrite Ha. destruct (Z.eqb_spec (code a) 34); [done|].
    simpl. by rewrite Hst.
  - intros _. rewrite <- (app_nil_r l), tokens_blank by done. done.
Qed.

Definition in_atom (st : scan_state) : bool :=
  match st with
  | stateNeg | state1 | state0 | stateDot | stateDot0 | stateE | stateESign | stateE0
  | stateLiteral _ => true
  | _ => false
  end.

(** A byte that continues a literal or number. *)
Definition atom_byte (a : ascii) : bool :=
  is_digit (code a) || existsb (Z.eqb (code a)) [43; 45; 46; 69] || (97 <=? code a) && (code a <=? 122).

Lemma atom_byte_token a : atom_byte a = true → blank a = false ∧ code a ≠ 34 ∧ structural a = false.
Proof.
  unfold atom_byte, blank, json_space, structural, is_digit. simpl. intros H.
  split; [|split]; lia.
Qed.

(** The literals the scanner reads are made of letters. *)
Fixpoint letters (s : string) : bool :=
  match s with
  | EmptyString => true
  | String c s' => (97 <=? code c) && (code c <=? 122) && letters s'
  end.

Definition atom_state (st : scan_state) : bool :=
  match st with
  | stateLiteral rest => letters rest
  | _ => in_atom st
  end.

(** In a literal or number, a byte continues it or is what follows a value. *)
Lemma atom_step st stack a sc :
  atom_state st = true → scan_step (st, stack) a = Some sc →
  atom_byte a = true ∧ (∃ st', sc = (st', stack) ∧ (atom_state st' = true ∨ st' = stateEndValue))
  ∨ scan_step (stateEndValue, stack) a = Some sc.
Proof.
  intros Hst. unfold scan_step. cbn [fst snd].
  destruct st; try done; unfold number_tail, exp_sign;
    repeat (case_match; try done); intros; simplify_eq; try (by right; done);
    left; (split; [|eexists; split; [done|auto]]); unfold atom_byte, is_digit in *; simpl; bool_hyps;
    try (repeat match goal with H : _ || _ = true |- _ => apply orb_true_iff in H as [H|H] end; bool_hyps; lia).
  all: match goal with H : Ascii.eqb _ _ = true |- _ => apply Ascii.eqb_eq in H; subst end;
    simpl in Hst; bool_hyps; auto; lia.
Qed.

Lemma atom_eof st stack :
  atom_state st = true → scan_eof (st, stack) = true → scan_eof (stateEndValue, stack) = true.
Proof.
  unfold scan_eof. intros Hst. destruct (scan_step (st, stack) " ") as [sc|] eqn:E; [|done].
  apply atom_step in E as [[Ha _]|E]; [done|by rewrite E|done].
Qed.

Lemma take_atom_spec st stack l :
  atom_state st = true ∨ st = stateEndValue → accepts (st, stack) l = true →
  ∃ cs l', take_atom (tokens None l) = (cs, tokens None l') ∧ accepts (stateEndValue, stack) l' = true.
Proof.
  revert st. induction l as [|a l IH]; intros st [Hst| ->] H.
  - exists [], []. split; [done|]. by apply (atom_eof st).
  - by exists [], [].
  - rewrite accepts_cons in H. destruct (scan_step _ _) as [sc|] eqn:E; [|done].
    apply atom_step in E as [(Ha&st'&->&Hst')|E]; [| |done].
    + apply IH in H as (cs&l'&Ht&?); [|done]. exists (a :: cs), l'. split; [|done].
      apply atom_byte_token in Ha as (Hb&Hq&Hs). unfold blank in Hb. simpl. rewrite Hb.
      destruct (Z.eqb_spec (code a) 34); [done|]. simpl. by rewrite Hs, Ht.
    + exists [], (a :: l). assert (accepts (stateEndValue, stack) (a :: l) = true) as Hv
        by (by rewrite accepts_cons, E).
      split; [by eapply take_atom_end|done].
  - exists [], (a :: l). split; [by eapply take_atom_end|done].
Qed.

(** ** Every accepted document has a value *)

Lemma take_atom_length toks : (length (snd (take_atom toks)) ≤ length toks)%nat.
Proof.
  induction toks as [|[c|s] toks IH]; simpl; [done| |done]. destruct (structural c); simpl; lia.
Qed.

(** Parsing consumes tokens. *)
Definition shrinks {A} (p : list token → option (A * list token)) : Prop :=
  ∀ toks v rest, p toks = Some (v, rest) → (length rest < length toks)%nat.

Lemma parse_value_shrinks fuel :
  shrinks (parse_elements fuel) → shrinks (parse_members fuel) → shrinks (parse_value (S fuel)).
Proof.
  intros IHe IHm toks v rest H.
  assert (Hel : ∀ toks, parse_elements fuel toks ≫= (λ r, Some (JArray r.1, r.2)) = Some (v, rest) →
    (length rest < length toks)%nat).
  { intros toks' Hr. destruct (parse_elements fuel toks') as [[es r']|] eqn:E; simplify_eq/=.
    by apply IHe in E. }
  assert (Hme : ∀ toks, parse_members fuel toks ≫= (λ r, Some (JObject r.1, r.2)) = Some (v, rest) →
    (length rest < length toks)%nat).
  { intros toks' Hr. destruct (parse_members fuel toks') as [[es r']|] eqn:E; simplify_eq/=.
    by apply IHm in E. }
  destruct toks as [|[c|s] toks]; simpl in H; simplify_eq; [|simpl; lia].
  destruct (code c =? 123).
  { destruct toks as [|[d|s] toks]; [apply Hme in H; simpl in *; lia| |apply Hme in H; simpl in *; lia].
    case_match; simplify_eq/=; lia. }
  destruct (code c =? 91).
  { destruct toks as [|[d|s] toks]; [apply Hel in H; simpl in *; lia| |apply Hel in H; simpl in *; lia].
    case_match; [simplify_eq/=; lia|]. apply Hel in H. simpl in *. lia. }
  destruct (structural c) eqn:Es; simplify_eq. simpl.
  pose proof (take_atom_length toks). lia.
Qed.

Lemma parse_elements_shrinks fuel :
  shrinks (parse_value fuel) → shrinks (parse_elements fuel) → shrinks (parse_elements (S fuel)).
Proof.
  intros IHv IHe toks vs rest H. simpl in H.
  destruct (parse_value fuel toks) as [[v r]|] eqn:E; simplify_eq/=. apply IHv in E.
  destruct r as [|[c|s] r]; [done| |done]. simpl in E.
  case_match; [|by case_match; simplify_eq/=; lia].
  destruct (parse_elements fuel r) as [[es r']|] eqn:E'; simplify_eq/=. apply IHe in E'. lia.
Qed.

Lemma parse_members_shrinks fuel :
  shrinks (parse_value fuel) → shrinks (parse_members fuel) → shrinks (parse_members (S fuel)).
Proof.
  intros IHv IHm toks ms rest H. simpl in H.
  destruct toks as [|[?|k] [|[colon|?] toks]]; try done.
  destruct (parse_value fuel toks) as [[v r]|] eqn:E; simplify_eq/=. apply IHv in E.
  destruct r as [|[c|s] r]; [done| |done]. simpl in *.
  case_match; [|by case_match; simplify_eq/=; lia].
  destruct (parse_members fuel r) as [[es r']|] eqn:E'; simplify_eq/=. apply IHm in E'. lia.
Qed.

Lemma parse_shrinks fuel :
  shrinks (parse_value fuel) ∧ shrinks (parse_elements fuel) ∧ shrinks (parse_members fuel).
Proof.
  induction fuel as [|fuel (?&?&?)]; [by split_and!|].
  split_and!; auto using parse_value_shrinks, parse_elements_shrinks, parse_members_shrinks.
Qed.

Lemma tokens_char a l :
  blank a = false → code a ≠ 34 → tokens None (a :: l) = TokChar a :: tokens None l.
Proof.
  unfold blank. intros Hb Hq. simpl. rewrite Hb. by destruct (Z.eqb_spec (code a) 34).
Qed.

Lemma tokens_quote l stack :
  accepts (stateInString, stack) l = true →
  ∃ s l', tokens None ("034"%char :: l) = TokString s :: tokens None l'
    ∧ accepts (stateEndValue, stack) l' = true.
Proof.
  intros (raw&rest&->&Hraw&?)%accepts_string. eexists _, rest. split; [|done].
  simpl. by rewrite (tokens_string raw []) by done.
Qed.

Definition parses_value (fuel : nat) : Prop := ∀ l stack,
  (2 * length (tokens None l) + 1 ≤ fuel)%nat → accepts (stateBeginValue, stack) l = true →
  ∃ v l', parse_value fuel (tokens None l) = Some (v, tokens None l')
    ∧ accepts (stateEndValue, stack) l' = true.

Definition parses_elements (fuel : nat) : Prop := ∀ l stack,
  (2 * length (tokens None l) + 2 ≤ fuel)%nat → accepts (stateBeginValue, parseArrayValue :: stack) l = true →
  ∃ vs l', parse_elements fuel (tokens None l) = Some (vs, tokens None l')
    ∧ accepts (stateEndValue, stack) l' = true.

Definition parses_members (fuel : nat) : Prop := ∀ l stack,
  (2 * length (tokens None l) + 2 ≤ fuel)%nat → accepts (stateBeginString, parseObjectKey :: stack) l = true →
  ∃ ms l', parse_members fuel (tokens None l) = Some (ms, tokens None l')
    ∧ accepts (stateEndValue, stack) l' = true.

(** What follows a value inside a container. *)
Lemma accepts_after f stack l :
  accepts (stateEndValue, f :: stack) l = true →
  ∃ c r sc, tokens None l = TokChar c :: tokens None r ∧ end_value (f :: stack) (code c) = Some sc
    ∧ blank c = false ∧ accepts sc r = true.
Proof.
  intros (c&r&sc&Ht&Hb&Hs&?)%accepts_first; [|unfold waits; naive_solver].
  exists c, r, sc. rewrite Ht. unfold scan_step in Hs; cbn [fst snd] in Hs. split_and!; try done.
  apply tokens_char; [done|]. intros Hq. unfold end_value, blank in *. rewrite Hb, Hq in Hs.
  by destruct f.
Qed.

Lemma parses_object fuel l stack :
  parses_members fuel → (2 * length (tokens None l) + 2 ≤ fuel)%nat →
  accepts (stateBeginStringOrEmpty, parseObjectKey :: stack) l = true →
  ∃ v l', match tokens None l with
          | TokChar d :: rest => if code d =? 125 then Some (JObject [], rest) else None
          | toks => r ← parse_members fuel toks; Some (JObject (fst r), snd r)
          end = Some (v, tokens None l') ∧ accepts (stateEndValue, stack) l' = true.
Proof.
  intros IHm Hf (a&r&sc&Ht&Hb&Hs&H)%accepts_first; [|unfold waits; naive_solver].
  unfold scan_step, begin_string in Hs; cbn [fst snd] in Hs. unfold blank in Hb. rewrite Hb in Hs.
  destruct (Z.eqb_spec (code a) 125) as [E|E].
  - rewrite Ht, tokens_char by (done || lia). rewrite E. simpl. exists (JObject []), r.
    split; [done|]. unfold end_value in Hs. rewrite Hb, E in Hs. simpl in Hs. by apply (accepts_pop parseArrayValue _ _ _ Hs).
  - destruct (Z.eqb_spec (code a) 34) as [Eq|]; [|done]. simplify_eq.
    assert (accepts (stateBeginString, parseObjectKey :: stack) (a :: r) = true) as Hm.
    { rewrite accepts_cons. unfold scan_step, begin_string; cbn [fst snd]. by rewrite Hb, Eq. }
    destruct (IHm (a :: r) stack) as (ms&l'&Hp&?); [by rewrite <- Ht|done|].
    apply code_34 in Eq as ->. apply tokens_quote in H as (s&l1&Hq&_).
    exists (JObject ms), l'. rewrite Ht, Hq in *. by rewrite Hp.
Qed.

Lemma parses_array fuel l stack :
  parses_elements fuel → (2 * length (tokens None l) + 2 ≤ fuel)%nat →
  accepts (stateBeginValueOrEmpty, parseArrayValue :: stack) l = true →
  ∃ v l', match tokens None l with
          | TokChar d :: rest => if code d =? 93 then Some (JArray [], rest)
              else r ← parse_elements fuel (tokens None l); Some (JArray (fst r), snd r)
          | _ => r ← parse_elements fuel (tokens None l); Some (JArray (fst r), snd r)
          end = Some (v, tokens None l') ∧ accepts (stateEndValue, stack) l' = true.
Proof.
  intros IHe Hf (a&r&sc&Ht&Hb&Hs&H)%accepts_first; [|unfold waits; naive_solver].
  unfold scan_step in Hs; cbn [fst snd] in Hs. unfold blank in Hb. rewrite Hb in Hs.
  destruct (Z.eqb_spec (code a) 93) as [E|E].
  - rewrite Ht, tokens_char by (done || lia). rewrite E. simpl. exists (JArray []), r.
    split; [done|]. unfold end_value in Hs. rewrite Hb, E in Hs. simpl in Hs. by apply (accepts_pop parseArrayValue _ _ _ Hs).
  - assert (accepts (stateBeginValue, parseArrayValue :: stack) (a :: r) = true) as Hv
      by (by rewrite accepts_cons; unfold scan_step; cbn [fst snd]; rewrite Hs).
    destruct (IHe (a :: r) stack) as (vs&l'&Hp&?); [by rewrite <- Ht|done|].
    exists (JArray vs), l'. split; [|done]. rewrite Ht, Hp. simpl.
    unfold blank in *. rewrite Hb. destruct (Z.eqb_spec (code a) 34) as [Eq|].
    + apply code_34 in Eq as ->. unfold begin_value in Hs. simpl in Hs. simplify_eq.
      apply tokens_quote in H as (s&l1&Hq&_). simpl in Hq. by rewrite Hq.
    + by destruct (Z.eqb_spec (code a) 93).
Qed.

Lemma parses_value_step fuel :
  parses_elements fuel → parses_members fuel → parses_value (S fuel).
Proof.
  intros IHe IHm l stack Hf (a&r&sc&Ht&Hb&Hs&H)%accepts_first; [|unfold waits; naive_solver].
  rewrite Ht in *. unfold scan_step, begin_value in Hs; cbn [fst snd] in Hs. unfold blank in Hb.
  rewrite Hb in Hs.
  destruct (Z.eqb_spec (code a) 34) as [Eq|Hq].
  { rewrite Eq in Hs. simpl in Hs. simplify_eq. apply code_34 in Eq as ->.
    apply tokens_quote in H as (s&l'&->&?). exists (JString s), l'. done. }
  rewrite tokens_char in Hf |- * by done. simpl in Hf.
  destruct (Z.eqb_spec (code a) 123) as [E|].
  { unfold push_frame in Hs. case_match; simplify_eq.
    destruct (parses_object fuel r stack) as (v&l'&Hp&?); [done|lia|done|].
    exists v, l'. split; [|done]. simpl. rewrite E. simpl. rewrite <- Hp.
    by destruct (tokens None r) as [|[]]. }
  destruct (Z.eqb_spec (code a) 91) as [E|].
  { unfold push_frame in Hs. case_match; simplify_eq.
    destruct (parses_array fuel r stack) as (v&l'&Hp&?); [done|lia|done|].
    exists v, l'. split; [|done]. simpl. rewrite E. simpl. rewrite <- Hp.
    by destruct (tokens None r) as [|[]]. }
  assert (Hsc : ∃ st, sc = (st, stack) ∧ atom_state st = true ∧ atom_byte a = true).
  { repeat (case_match; try done); simplify_eq; eexists; (split; [done|]); (split; [done|]);
      unfold atom_byte, is_digit; simpl; bool_hyps; lia. }
  destruct Hsc as (st&->&Hst&Ha). apply atom_byte_token in Ha as (_&_&Hns).
  apply take_atom_spec in H as (cs&l'&Hta&?); [|by left].
  exists (atom_value (of_chars (a :: cs))), l'. split; [|done].
  simpl. destruct (Z.eqb_spec (code a) 123), (Z.eqb_spec (code a) 91); try done.
  by rewrite Hns, Hta.
Qed.

Lemma parses_elements_step fuel :
  parses_value fuel → parses_elements fuel → parses_elements (S fuel).
Proof.
  intros IHv IHe l stack Hf H. apply IHv in H as (v&l1&Hp&H1); [|lia].
  pose proof (proj1 (parse_shrinks fuel) _ _ _ Hp) as Hsh.
  apply accepts_after in H1 as (c&r&sc&Ht&Hs&Hb&H2). rewrite Ht in Hp, Hsh. simpl in Hsh.
  unfold end_value, blank in *. rewrite Hb in Hs. simpl. rewrite Hp. simpl.
  destruct (code c =? 44).
  - simplify_eq. destruct (IHe r stack) as (vs&l'&->&?); [lia|done|]. simpl. eauto.
  - destruct (code c =? 93); [|done]. exists [v], r. split; [done|]. by eapply accepts_pop.
Qed.

Lemma parses_members_step fuel :
  parses_value fuel → parses_members fuel → parses_members (S fuel).
Proof.
  intros IHv IHm l stack Hf (a&r&sc&Ht&Hb&Hs&H)%accepts_first; [|unfold waits; naive_solver].
  unfold scan_step, begin_string in Hs; cbn [fst snd] in Hs. unfold blank in Hb. rewrite Hb in Hs.
  destruct (Z.eqb_spec (code a) 34) as [Eq|]; [|done]. simplify_eq. apply code_34 in Eq as ->.
  apply tokens_quote in H as (k&l1&Hk&H1). rewrite Ht, Hk in Hf |- *. simpl in Hf.
  apply accepts_after in H1 as (c&r1&sc1&Ht1&Hs1&Hb1&H2). rewrite Ht1 in Hf |- *. simpl in Hf.
  unfold end_value, blank in *. rewrite Hb1 in Hs1. destruct (code c =? 58); [|done]. simplify_eq.
  apply IHv in H2 as (v&l2&Hp&H3); [|lia]. pose proof (proj1 (parse_shrinks fuel) _ _ _ Hp) as Hsh.
  apply accepts_after in H3 as (d&r2&sc2&Ht2&Hs2&Hb2&H4). rewrite Ht2 in Hp, Hsh. simpl in Hsh.
  unfold end_value, blank in *. rewrite Hb2 in Hs2. simpl. rewrite Hp. simpl.
  destruct (code d =? 44).
  - simplify_eq. destruct (IHm r2 stack) as (ms&l'&->&?); [lia|done|]. simpl. eauto.
  - destruct (code d =? 125); [|done]. exists [(k, v)], r2. split; [done|]. by eapply accepts_pop.
Qed.

Lemma parses fuel : parses_value fuel ∧ parses_elements fuel ∧ parses_members fuel.
Proof.
  induction fuel as [|fuel (?&?&?)].
  - split_and!; intros l stack ?; lia.
  - split_and!; auto using parses_value_step, parses_elements_step, parses_members_step.
Qed.

(** Every document [json.Valid] accepts decodes. *)
Lemma json_decode_total s : json_valid s = true → is_Some (json_decode s).
Proof.
  rewrite json_valid_accepts. intros H. unfold json_decode, parse_tokens, json_tokens.
  destruct (proj1 (parses _) (chars s) [] (le_n _) H) as (v&l'&->&_). by eexists.
Qed.

(** ** Compaction keeps the tokens of a document

    [json.Marshal] compacts a [json.RawMessage]: it drops the blanks outside
    strings and escapes some characters inside them.  Neither changes a token,
    so a stored document and the one that was submitted decode alike. *)


(** ** Inside a string *)

Definition in_str (l : list ascii) : list ascii := compact_chars true false l.

Definition html (a : ascii) : bool := (code a =? 60) || (code a =? 62) || (code a =? 38).

(** The next three bytes are U+2028 or U+2029. *)
Definition separator (a : ascii) (l : list ascii) : bool :=
  match l with
  | c2 :: c3 :: _ => (code a =? 0xE2) && (code c2 =? 0x80) && ((code c3 =? 0xA8) || (code c3 =? 0xA9))
  | _ => false
  end.

Lemma compact_keep instr esc a l :
  negb instr && json_space (code a) = false → html a = false → separator a l = false →
  compact_chars instr esc (a :: l)
  = a :: compact_chars (if instr then esc || negb (code a =? 34) else code a =? 34)
           (instr && negb esc && (code a =? 92)) l.
Proof.
  intros H1 H2 H3. cbn [compact_chars]. unfold html in H2. rewrite H1, H2.
  destruct l as [|c2 [|c3 l]]; [done..|]. unfold separator in H3. by rewrite H3.
Qed.

Lemma in_str_keep a l :
  code a ≠ 34 → code a ≠ 92 → html a = false → separator a l = false → in_str (a :: l) = a :: in_str l.
Proof.
  intros H1 H2 H3 H4. unfold in_str. rewrite compact_keep by done. simpl.
  by destruct (Z.eqb_spec (code a) 34), (Z.eqb_spec (code a) 92).
Qed.

Lemma in_str_html a l :
  html a = true →
  in_str (a :: l) = escape_u "0" "0" (lower_hex (code a / 16)) (lower_hex (code a mod 16)) ++ in_str l.
Proof.
  intros H. unfold in_str. cbn [compact_chars]. unfold html in H. rewrite H. simpl.
  assert (code a =? 34 = false ∧ code a =? 92 = false) as [-> ->] by lia. done.
Qed.

Lemma in_str_separator a c2 c3 l :
  separator a (c2 :: c3 :: l) = true →
  in_str (a :: c2 :: c3 :: l) = escape_u "2" "0" "2" (lower_hex (code c3 mod 16)) ++ in_str l.
Proof.
  intros H. unfold in_str. cbn [compact_chars]. unfold separator in H. rewrite H.
  assert (code a = 0xE2) as -> by lia. done.
Qed.

Lemma ascii_plain a : code a < 128 → html a = false → ∀ l, separator a l = false.
Proof.
  intros H _ [|c2 [|c3 l]]; try done. simpl. destruct (Z.eqb_spec (code a) 0xE2); [lia|done].
Qed.

Lemma is_hex_html h : is_hex (code h) = true → html h = false ∧ code h < 128.
Proof. unfold is_hex, is_digit, html. lia. Qed.

Lemma in_str_hex h l : is_hex (code h) = true → in_str (h :: l) = h :: in_str l.
Proof.
  intros Hh. pose proof (is_hex_html _ Hh) as [??]. apply is_hex_plain in Hh as [??].
  apply in_str_keep; auto using ascii_plain.
Qed.

Lemma in_str_escaped b e l :
  code b = 92 → html e = false → code e < 128 → in_str (b :: e :: l) = b :: e :: in_str l.
Proof.
  intros Hb He Hc. unfold in_str. rewrite compact_keep; [|done|unfold html; by rewrite Hb|].
  2: { apply ascii_plain; [lia|unfold html; by rewrite Hb]. }
  rewrite Hb. cbn [negb andb orb Z.eqb Pos.eqb]. rewrite compact_keep; auto using ascii_plain.
Qed.

Lemma is_escape_html e : is_escape e = true → html e = false.
Proof. unfold is_escape, html. simpl. lia. Qed.

Lemma in_str_unicode b u h1 h2 h3 h4 l :
  code b = 92 → code u = 117 → is_hex (code h1) = true → is_hex (code h2) = true →
  is_hex (code h3) = true → is_hex (code h4) = true →
  in_str (b :: u :: h1 :: h2 :: h3 :: h4 :: l) = b :: u :: h1 :: h2 :: h3 :: h4 :: in_str l.
Proof.
  intros Hb Hu ????. rewrite in_str_escaped; [|done|unfold html; by rewrite Hu|lia].
  by rewrite !in_str_hex.
Qed.

(** A case analysis of a body by what [compact] does to its head. *)
Inductive body_view : list ascii → Prop :=
| bv_nil : body_view []
| bv_keep a l :
    32 ≤ code a → code a ≠ 34 → code a ≠ 92 → html a = false → separator a l = false →
    str_items l → body_view (a :: l)
| bv_html a l : html a = true → str_items l → body_view (a :: l)
| bv_separator a c2 c3 l :
    separator a (c2 :: c3 :: l) = true → str_items l → body_view (a :: c2 :: c3 :: l)
| bv_escape b e l : code b = 92 → is_escape e = true → str_items l → body_view (b :: e :: l)
| bv_unicode b u h1 h2 h3 h4 l :
    code b = 92 → code u = 117 → is_hex (code h1) = true → is_hex (code h2) = true →
    is_hex (code h3) = true → is_hex (code h4) = true → str_items l →
    body_view (b :: u :: h1 :: h2 :: h3 :: h4 :: l).

Lemma str_items_high a l : 128 ≤ code a → str_items (a :: l) → str_items l.
Proof. intros Ha H. inversion H; subst; [done|lia|lia]. Qed.

Lemma body_cases l : str_items l → body_view l.
Proof.
  intros H. destruct H as [|a l ? ? ? Hl|b e l|b u h1 h2 h3 h4 l];
    [constructor| |by constructor|by constructor].
  destruct (html a) eqn:Hh; [by constructor|]. destruct (separator a l) eqn:Hs; [|by constructor].
  destruct l as [|c2 [|c3 l]]; [done..|]. apply bv_separator; [done|].
  simpl in Hs. bool_hyps. apply (str_items_high c3); [lia|]. apply (str_items_high c2); [lia|done].
Qed.

Lemma in_str_app raw rest :
  str_items raw →
  compact_chars true false (raw ++ "034"%char :: rest)
  = in_str raw ++ "034"%char :: compact_chars false false rest.
Proof.
  fold (in_str (raw ++ "034"%char :: rest)).
  induction raw as [raw IH] using (induction_ltof1 _ (@length ascii)). unfold ltof in IH.
  intros H%body_cases. destruct H as [|a l ? ? ? Hh Hs Hl|a l Hh Hl|a c2 c3 l Hs Hl|b e l Hb He Hl
    |b u h1 h2 h3 h4 l Hb Hu ? ? ? ? Hl]; rewrite <- ?app_comm_cons.
  - simpl. unfold in_str. rewrite compact_keep; [done..|by apply ascii_plain].
  - assert (separator a (l ++ "034"%char :: rest) = false) as Hs'.
    { destruct l as [|c2 [|c3 l]]; [| |done]; destruct rest as [|c4 rest]; try done; simpl.
      - by rewrite andb_false_r.
      - by rewrite !andb_false_r.
      - by rewrite !andb_false_r. }
    rewrite !in_str_keep, IH by (done || simpl; lia). done.
  - rewrite !in_str_html, IH by (done || simpl; lia). by rewrite <- app_assoc.
  - rewrite !in_str_separator, IH by (done || simpl; lia). by rewrite <- app_assoc.
  - rewrite !in_str_escaped, IH
      by (done || (simpl; lia) || by apply is_escape_html || by apply is_escape_code). done.
  - rewrite !in_str_unicode, IH by (done || simpl; lia). done.
Qed.

Lemma lower_hex_is_hex n : 0 ≤ n < 16 → is_hex (code (lower_hex n)) = true.
Proof.
  intros H. assert (n ∈ seqZ 0 16) as Hin by (apply elem_of_seqZ; lia).
  clear H. revert n Hin. apply Forall_forall. repeat constructor.
Qed.

Lemma escape_items h1 h2 h3 h4 l :
  is_hex (code h1) = true → is_hex (code h2) = true → is_hex (code h3) = true →
  is_hex (code h4) = true → str_items l → str_items (escape_u h1 h2 h3 h4 ++ l).
Proof. intros. by apply si_unicode. Qed.

Lemma code_div a : 0 ≤ code a / 16 < 16 ∧ 0 ≤ code a mod 16 < 16.
Proof. pose proof (code_range a). split; [|apply Z.mod_pos_bound; lia]. split; [apply Z.div_pos; lia|apply Z.div_lt_upper_bound; lia]. Qed.

Lemma in_str_items raw : str_items raw → str_items (in_str raw).
Proof.
  induction raw as [raw IH] using (induction_ltof1 _ (@length ascii)). unfold ltof in IH.
  intros H%body_cases. destruct H as [|a l ? ? ? Hh Hs Hl|a l Hh Hl|a c2 c3 l Hs Hl|b e l Hb He Hl
    |b u h1 h2 h3 h4 l Hb Hu ? ? ? ? Hl].
  - constructor.
  - rewrite in_str_keep by done. constructor; try done. apply IH; [simpl; lia|done].
  - rewrite in_str_html by done. pose proof (code_div a) as [??].
    apply escape_items; try (apply IH; [simpl; lia|done]); auto using lower_hex_is_hex.
  - rewrite in_str_separator by done. pose proof (code_div c3) as [??].
    apply escape_items; try (apply IH; [simpl; lia|done]); auto using lower_hex_is_hex.
  - rewrite in_str_escaped by (done || by apply is_escape_html || by apply is_escape_code).
    apply si_escape; try done. apply IH; [simpl; lia|done].
  - rewrite in_str_unicode by done. apply si_unicode; try done. apply IH; [simpl; lia|done].
Qed.

(** ** Unquoting *)

Lemma unquote_skip k l : unquote k l = unquote 0 (drop k l).
Proof. revert l. induction k as [|k IH]; intros [|a l]; [done..|]. apply IH. Qed.

Lemma unquote_cons a l :
  unquote 0 (a :: l) = fst (unquote_step a l) ++ unquote 0 (drop (snd (unquote_step a l)) l).
Proof. simpl. by rewrite unquote_skip. Qed.

Lemma unquote_unicode h1 h2 h3 h4 l n :
  u4 [h1; h2; h3; h4] = Some n → (n <? 0xD800) = true →
  unquote 0 (escape_u h1 h2 h3 h4 ++ l) = encode_rune n ++ unquote 0 l.
Proof.
  intros Hu Hn. simpl app. rewrite unquote_cons. unfold unquote_step. cbn [code].
  change (code backslash =? 92) with true. change (code "u" =? 117) with true. cbn iota beta.
  unfold u4 in *. rewrite Hu. assert (0xD800 <=? n = false) as -> by lia. done.
Qed.

Lemma code_chr a z : code a = z → a = chr z.
Proof. unfold code, chr. intros <-. by rewrite N2Z.id, ascii_N_embedding. Qed.

Lemma html_unquote a l :
  html a = true →
  unquote 0 (escape_u "0" "0" (lower_hex (code a / 16)) (lower_hex (code a mod 16)) ++ l)
  = a :: unquote 0 l.
Proof.
  unfold html. intros H. assert (code a = 60 ∨ code a = 62 ∨ code a = 38) as Ha by lia.
  destruct Ha as [E|[E|E]]; rewrite E; apply code_chr in E as ->;
    (erewrite unquote_unicode; [|reflexivity|reflexivity]); reflexivity.
Qed.

Lemma separator_unquote a c2 c3 l l' :
  separator a (c2 :: c3 :: l) = true →
  unquote 0 (escape_u "2" "0" "2" (lower_hex (code c3 mod 16)) ++ l') = [a; c2; c3] ++ unquote 0 l'
  ∧ unquote 0 (a :: c2 :: c3 :: l) = [a; c2; c3] ++ unquote 0 l.
Proof.
  unfold separator. intros H.
  assert (code a = 0xE2 ∧ code c2 = 0x80) as [Ea E2] by lia.
  assert (code c3 = 0xA8 ∨ code c3 = 0xA9) as Hc by lia.
  apply code_chr in Ea as ->. apply code_chr in E2 as ->.
  destruct Hc as [E|E]; apply code_chr in E as ->; (split; [|reflexivity]);
    (erewrite (unquote_unicode "2" "0" "2"); [|reflexivity|reflexivity]); reflexivity.
Qed.

(** *** Lookahead *)

Definition continuation_byte (a : ascii) : Prop := 0x80 ≤ code a ≤ 0xBF.

Lemma in_str_continuation b l : continuation_byte b → in_str (b :: l) = b :: in_str l.
Proof.
  intros [??]. apply in_str_keep; [lia|lia|unfold html; lia|].
  destruct l as [|c2 [|c3 l]]; [done..|]. simpl. by destruct (Z.eqb_spec (code b) 0xE2); [lia|].
Qed.

(** A continuation byte in the output was there in the input. *)
Lemma in_str_head l b x :
  str_items l → in_str l = b :: x → continuation_byte b → ∃ l', l = b :: l' ∧ x = in_str l' ∧ str_items l'.
Proof.
  unfold continuation_byte. intros H%body_cases Heq [? ?].
  destruct H as [|a l ? ? ? Hh Hs Hl|a l Hh Hl|a c2 c3 l Hs Hl|b' e l Hb He Hl|b' u h1 h2 h3 h4 l Hb Hu ? ? ? ? Hl].
  - done.
  - rewrite in_str_keep in Heq by done. simplify_eq. eauto.
  - rewrite in_str_html in Heq by done. simpl in Heq. injection Heq as <- <-.
    change (code backslash) with 92 in *. lia.
  - rewrite in_str_separator in Heq by done. simpl in Heq. injection Heq as <- <-.
    change (code backslash) with 92 in *. lia.
  - rewrite in_str_escaped in Heq by (done || by apply is_escape_html || by apply is_escape_code).
    injection Heq as <- <-. lia.
  - rewrite in_str_unicode in Heq by done. injection Heq as <- <-. lia.
Qed.

Lemma utf8_continuations :
  (∀ a b, utf8_2 a b = true → 0x80 ≤ b ≤ 0xBF)
  ∧ (∀ a b c, utf8_3 a b c = true → 0x80 ≤ b ≤ 0xBF ∧ 0x80 ≤ c ≤ 0xBF)
  ∧ (∀ a b c d, utf8_4 a b c d = true → 0x80 ≤ b ≤ 0xBF ∧ 0x80 ≤ c ≤ 0xBF ∧ 0x80 ≤ d ≤ 0xBF).
Proof. unfold utf8_2, utf8_3, utf8_4, continuation. split_and!; intros; lia. Qed.

(** The bytes a rune needs after its first. *)
Lemma rune_tail_inv a l k :
  rune_tail a l = Some k → Forall continuation_byte (take k l) ∧ length (take k l) = k.
Proof.
  destruct utf8_continuations as (H2&H3&H4). unfold rune_tail, continuation_byte. intros H.
  destruct l as [|b [|c [|d l]]]; try done; repeat case_match; simplify_eq; simpl;
    repeat match goal with
    | E : utf8_2 _ _ = true |- _ => apply H2 in E
    | E : utf8_3 _ _ _ = true |- _ => apply H3 in E
    | E : utf8_4 _ _ _ _ = true |- _ => apply H4 in E
    end; split; try done; repeat constructor; lia.
Qed.

Lemma rune_tail_take a l k r :
  rune_tail a l = Some k → rune_tail a (take k l ++ r) = Some k.
Proof.
  unfold rune_tail. intros H.
  destruct l as [|b [|c [|d l]]]; try done; repeat case_match; simplify_eq/=; try congruence;
    repeat case_match; simplify_eq/=; congruence.
Qed.

Lemma in_str_continuations k l r :
  str_items l → Forall continuation_byte k → in_str l = k ++ r → ∃ l', l = k ++ l' ∧ r = in_str l' ∧ str_items l'.
Proof.
  intros Hl Hk. revert l Hl. induction Hk as [|b k Hb _ IH]; intros l Hl Heq; simpl in *; [eauto|].
  apply in_str_head in Heq as (l'&->&Hx&Hl'); [|done|done].
  destruct (IH l' Hl' (eq_sym Hx)) as (l''&->&->&?). eauto.
Qed.

Lemma in_str_prefix k l : Forall continuation_byte k → in_str (k ++ l) = k ++ in_str l.
Proof. induction 1; simpl; [done|]. rewrite in_str_continuation by done. congruence. Qed.

Lemma str_items_prefix k l : Forall continuation_byte k → str_items (k ++ l) → str_items l.
Proof.
  induction 1 as [|b k [??] _ IH]; [done|]. intros Hi%str_items_high; [auto|lia].
Qed.

Lemma rune_tail_in_str a l : str_items l → rune_tail a (in_str l) = rune_tail a l.
Proof.
  intros Hl. destruct (rune_tail a l) as [k|] eqn:E.
  - pose proof (rune_tail_inv _ _ _ E) as [Hk _]. rewrite <- (take_drop k l), in_str_prefix by done.
    by apply rune_tail_take.
  - destruct (rune_tail a (in_str l)) as [k|] eqn:E'; [|done].
    pose proof (rune_tail_inv _ _ _ E') as [Hk Hlen].
    destruct (in_str_continuations (take k (in_str l)) l (drop k (in_str l))) as (l'&Hl'&_&_);
      [done|done|by rewrite take_drop|].
    apply (rune_tail_take _ _ _ l') in E'. rewrite <- Hl' in E'. congruence.
Qed.

Lemma low_surrogate_in_str l : str_items l → low_surrogate (in_str l) = low_surrogate l.
Proof.
  intros H%body_cases. destruct H as [|a l ? ? ? Hh Hs Hl|a l Hh Hl|a c2 c3 l Hs Hl|b e l Hb He Hl
    |b u h1 h2 h3 h4 l Hb Hu ? ? ? ? Hl].
  - done.
  - rewrite in_str_keep by done. unfold low_surrogate.
    destruct (Z.eqb_spec (code a) 92); [done|]. by destruct (in_str l), l.
  - rewrite in_str_html by done. unfold html in Hh.
    assert (code a = 60 ∨ code a = 62 ∨ code a = 38) as Ha by lia.
    destruct Ha as [E|[E|E]]; rewrite E; apply code_chr in E as ->; by destruct l.
  - rewrite in_str_separator by done. unfold separator in Hs.
    assert (code a = 0xE2) as Ea by lia. assert (code c3 = 0xA8 ∨ code c3 = 0xA9) as Hc by lia.
    apply code_chr in Ea as ->. destruct Hc as [E|E]; apply code_chr in E as ->; reflexivity.
  - rewrite in_str_escaped by (done || by apply is_escape_html || by apply is_escape_code).
    unfold low_surrogate. assert (code e =? 117 = false) as -> by (unfold is_escape in He; simpl in He; lia).
    by rewrite andb_false_r.
  - rewrite in_str_unicode by done. done.
Qed.

Lemma low_surrogate_inv l m :
  str_items l → low_surrogate l = Some m →
  ∃ k l', l = k ++ l' ∧ length k = 6%nat ∧ in_str l = k ++ in_str l' ∧ str_items l'.
Proof.
  intros H Hs. destruct H as [|a l ? ? ? Hl|b e l Hb He Hl|b u h1 h2 h3 h4 l Hb Hu ? ? ? ? Hl].
  - done.
  - unfold low_surrogate in Hs. destruct l; [done|]. by destruct (Z.eqb_spec (code a) 92).
  - unfold low_surrogate in Hs. assert (code e =? 117 = false) as E by (unfold is_escape in He; simpl in He; lia).
    by rewrite E, andb_false_r in Hs.
  - exists [b; u; h1; h2; h3; h4], l. rewrite in_str_unicode by done. done.
Qed.

(** *** Escaping does not change what a literal spells *)

Lemma unquote_step_unicode b u h1 h2 h3 h4 l :
  code b = 92 → code u = 117 → str_items l →
  ∃ k l', l = k ++ l' ∧ in_str l = k ++ in_str l' ∧ str_items l'
    ∧ unquote 0 (b :: u :: h1 :: h2 :: h3 :: h4 :: in_str l)
      = fst (unquote_step b (u :: h1 :: h2 :: h3 :: h4 :: l)) ++ unquote 0 (in_str l')
    ∧ unquote 0 (b :: u :: h1 :: h2 :: h3 :: h4 :: l)
      = fst (unquote_step b (u :: h1 :: h2 :: h3 :: h4 :: l)) ++ unquote 0 l'
  ∨ is_hex (code h1) && is_hex (code h2) && is_hex (code h3) && is_hex (code h4) = false.
Proof.
  intros Hb Hu Hl.
  destruct (is_hex (code h1) && is_hex (code h2) && is_hex (code h3) && is_hex (code h4)) eqn:Hx;
    [|by exists [], []; right].
  rewrite !unquote_cons. unfold unquote_step. rewrite Hb, Hu.
  change (92 =? 92) with true. change (117 =? 117) with true. cbn iota beta.
  unfold u4. rewrite Hx. cbn [drop]. rewrite !drop_0.
  set (n := ((hex_value h1 * 16 + hex_value h2) * 16 + hex_value h3) * 16 + hex_value h4).
  assert (Hsimple : ∀ out, ∃ k l', l = k ++ l' ∧ in_str l = k ++ in_str l' ∧ str_items l'
    ∧ fst (out, 5%nat) ++ unquote 0 (drop (snd (out, 5%nat)) (u :: h1 :: h2 :: h3 :: h4 :: in_str l))
      = fst (out, 5%nat) ++ unquote 0 (in_str l')
    ∧ fst (out, 5%nat) ++ unquote 0 (drop (snd (out, 5%nat)) (u :: h1 :: h2 :: h3 :: h4 :: l))
      = fst (out, 5%nat) ++ unquote 0 l')
    by (intros out; exists [], l; cbn [snd fst drop]; by rewrite !drop_0).
  rewrite low_surrogate_in_str by done.
  destruct ((0xD800 <=? n) && (n <? 0xE000)); [|destruct (Hsimple (encode_rune n)) as (k&l'&?); by exists k, l'; left].
  destruct (low_surrogate l) as [m|] eqn:Hm; [|destruct (Hsimple rune_error) as (k&l'&?); by exists k, l'; left].
  destruct (n <? 0xDC00); [|destruct (Hsimple rune_error) as (k&l'&?); by exists k, l'; left].
  apply low_surrogate_inv in Hm as (k&l'&->&Hk&Hi&Hl'); [|done]. exists k, l'. left.
  rewrite Hi. split_and!; try done; cbn [fst snd drop]; f_equal; f_equal;
    rewrite drop_app_length'; done.
Qed.

Lemma in_str_unquote raw : str_items raw → unquote 0 (in_str raw) = unquote 0 raw.
Proof.
  induction raw as [raw IH] using (induction_ltof1 _ (@length ascii)). unfold ltof in IH.
  intros H%body_cases. destruct H as [|a l ? ? ? Hh Hs Hl|a l Hh Hl|a c2 c3 l Hs Hl|b e l Hb He Hl
    |b u h1 h2 h3 h4 l Hb Hu Hx1 Hx2 Hx3 Hx4 Hl].
  - done.
  - rewrite in_str_keep by done. rewrite !unquote_cons. unfold unquote_step.
    destruct (Z.eqb_spec (code a) 92); [done|].
    destruct (code a <? 0x80); [cbn [fst snd]; rewrite !drop_0, IH by (done || simpl; lia); done|].
    rewrite rune_tail_in_str by done. destruct (rune_tail a l) as [k|] eqn:E.
    + apply rune_tail_inv in E as [Hk Hlen]. rewrite <- (take_drop k l) in Hl |- *.
      apply str_items_prefix in Hl; [|done]. rewrite in_str_prefix by done.
      cbn [fst snd]. rewrite !take_app_length', !drop_app_length' by done.
      rewrite IH; [done| |done]. simpl. rewrite length_drop. lia.
    + cbn [fst snd]. rewrite !drop_0, IH by (done || simpl; lia). done.
  - rewrite in_str_html, html_unquote, IH by (done || simpl; lia).
    rewrite unquote_cons. unfold unquote_step, html in *.
    assert (code a =? 92 = false) as -> by lia. assert (code a <? 0x80 = true) as -> by lia. done.
  - rewrite in_str_separator by done.
    destruct (separator_unquote a c2 c3 l (in_str l) Hs) as [-> ->]. rewrite IH by (done || simpl; lia). done.
  - rewrite in_str_escaped by (done || by apply is_escape_html || by apply is_escape_code).
    rewrite !unquote_cons. unfold unquote_step. rewrite Hb.
    assert (code e =? 117 = false) as -> by (unfold is_escape in He; simpl in He; lia).
    cbn [fst snd drop Z.eqb Pos.eqb]. rewrite !drop_0, IH by (done || simpl; lia). done.
  - rewrite in_str_unicode by done.
    destruct (unquote_step_unicode b u h1 h2 h3 h4 l) as (k&l'&[(->&_&Hl'&-> & ->)|Hx]); [done..| |].
    + rewrite IH; [done| |done]. simpl. rewrite length_app. lia.
    + by rewrite Hx1, Hx2, Hx3, Hx4 in Hx.
Qed.

(** ** Outside strings *)

Definition outside (st : scan_state) : bool :=
  match st with
  | stateInString | stateInStringEsc | stateInStringEscU _ => false
  | stateLiteral rest => letters rest
  | _ => true
  end.

(** Outside a string the scanner takes ASCII bytes that [compact] keeps, and a
    quote opens a string. *)
Lemma outside_step st stack a sc :
  outside st = true → scan_step (st, stack) a = Some sc → blank a = false →
  code a < 128 ∧ html a = false
  ∧ if code a =? 34 then fst sc = stateInString else outside (fst sc) = true.
Proof.
  unfold blank. intros Hst Hs Hb.
  assert (Hend : ∀ stack' sc, end_value stack' (code a) = Some sc →
    code a < 128 ∧ html a = false ∧ code a ≠ 34 ∧ outside (fst sc) = true).
  { intros stack' sc'. unfold end_value, html. rewrite Hb.
    destruct stack' as [|f stack']; [done|]. unfold pop_frame.
    destruct f; repeat (case_match; try done); intros; simplify_eq; bool_hyps; split_and!; try lia; done. }
  assert (Hbegin : ∀ stack' sc, begin_value stack' (code a) = Some sc →
    code a < 128 ∧ html a = false ∧ if code a =? 34 then fst sc = stateInString else outside (fst sc) = true).
  { intros stack' sc'. unfold begin_value, push_frame, html. rewrite Hb.
    repeat (case_match; try done); intros; simplify_eq; bool_hyps; split_and!; try lia; done. }
  assert (Hif : ∀ (P Q : Prop), code a ≠ 34 → Q → if code a =? 34 then P else Q)
    by (intros; by destruct (Z.eqb_spec (code a) 34)).
  unfold scan_step in Hs. cbn [fst snd] in Hs.
  destruct st; simpl in Hst; try done; unfold number_tail, exp_sign, begin_string in *; rewrite ?Hb in Hs;
    repeat (case_match; try done); simplify_eq; bool_hyps; eauto;
    try (by destruct (Hend _ _ Hs) as (?&?&?&?); auto).
  all: try (apply Ascii.eqb_eq in H1; subst; simpl in Hst; bool_hyps).
  all: clear Hend Hbegin Hif; unfold html, is_digit in *; bool_hyps;
    first [exfalso; lia | split_and!; first [lia|done]].
Qed.

Lemma compact_blank a l : blank a = true → compact_chars false false (a :: l) = compact_chars false false l.
Proof. unfold blank. intros H. cbn [compact_chars]. by rewrite H. Qed.

Lemma compact_outside a l :
  code a < 128 → blank a = false → html a = false →
  compact_chars false false (a :: l) = a :: compact_chars (code a =? 34) false l.
Proof.
  unfold blank. intros Hc Hb Hh. rewrite compact_keep by auto using ascii_plain.
  by destruct (code a =? 34).
Qed.

Lemma blank_step st stack a sc :
  outside st = true → scan_step (st, stack) a = Some sc → blank a = true → outside (fst sc) = true.
Proof.
  unfold blank. intros Hst Hs Hb.
  assert (Hend : ∀ stack' sc, end_value stack' (code a) = Some sc → outside (fst sc) = true).
  { intros stack' sc'. unfold end_value. rewrite Hb. destruct stack'; by intros [= <-]. }
  unfold scan_step in Hs. cbn [fst snd] in Hs.
  destruct st; simpl in Hst; try done; unfold number_tail, exp_sign, begin_string, begin_value in *;
    rewrite ?Hb in Hs; repeat (case_match; try done); simplify_eq; eauto.
  all: simpl in Hst; bool_hyps; auto.
Qed.

(** Compaction changes no token of a document the scanner accepts. *)
Lemma compact_tokens st stack l :
  outside st = true → accepts (st, stack) l = true →
  tokens None (compact_chars false false l) = tokens None l.
Proof.
  revert st stack. induction l as [l IH] using (induction_ltof1 _ (@length ascii)). unfold ltof in IH.
  intros st stack Hst H. destruct l as [|a l]; [done|].
  rewrite accepts_cons in H. destruct (scan_step (st, stack) a) as [[st' stack']|] eqn:Hs; [|done].
  destruct (blank a) eqn:Hb.
  { rewrite compact_blank by done. pose proof (blank_step _ _ _ _ Hst Hs Hb) as Hst'.
    rewrite (IH l ltac:(simpl; lia) st' stack' Hst' H). unfold blank in Hb. simpl. by rewrite Hb. }
  destruct (outside_step _ _ _ _ Hst Hs Hb) as (Hc&Hh&Hq). simpl in Hq.
  rewrite compact_outside by done. destruct (Z.eqb_spec (code a) 34) as [E|E].
  - subst st'. apply code_34 in E as ->. apply accepts_string in H as (raw&rest&->&Hraw&Hrest).
    rewrite in_str_app by done. simpl.
    rewrite !(tokens_string _ []) by auto using in_str_items. simpl. f_equal.
    + by rewrite in_str_unquote.
    + apply (IH rest) in Hrest; [done| |done]. simpl. rewrite length_app. simpl. lia.
  - rewrite !tokens_char by done. f_equal. by apply (IH l ltac:(simpl; lia) st' stack').
Qed.

Lemma json_compact_tokens s : json_valid s = true → json_tokens (json_compact s) = json_tokens s.
Proof.
  rewrite json_valid_accepts. intros H. unfold json_tokens, json_compact. rewrite chars_of_chars.
  by apply (compact_tokens stateBeginValue []).
Qed.

(** What a JSON column holds decodes to what was written to it. *)
Lemma json_decode_compact s : json_valid s = true → json_decode (json_compact s) = json_decode s.
Proof. intros H. unfold json_decode. by rewrite json_compact_tokens. Qed.
