(* ===== verification/AgentContract.v ===== *)
(** * The durable Turn contract: contracts/agent/v1/durable_turn.go

    The value types every other component exchanges (statuses, cursors, replay
    windows, event envelopes) and their [Validate] methods. *)

From S2P Require Import Prelude GoText GoJson.

Definition EventEnvelopeSchemaVersion : Z := 1.

(** [ThreadID], [TurnID] and [IdempotencyKey] are Go string types and
    [Sequence] is a [uint64]. *)
Definition ThreadID : Type := string.
Definition TurnID : Type := string.
Definition IdempotencyKey : Type := string.
Definition Sequence : Type := Z.

(** ** TurnStatus *)

Definition TurnStatus : Type := string.
Definition TurnStatusQueued : TurnStatus := "queued".
Definition TurnStatusRunning : TurnStatus := "running".
Definition TurnStatusCompleted : TurnStatus := "completed".
Definition TurnStatusStopped : TurnStatus := "stopped".
Definition TurnStatusFailed : TurnStatus := "failed".
Definition TurnStatusTimeout : TurnStatus := "timeout".

Definition TurnStatus_Valid (s : TurnStatus) : bool :=
  bool_decide (s ∈ [TurnStatusQueued; TurnStatusRunning; TurnStatusCompleted;
                    TurnStatusStopped; TurnStatusFailed; TurnStatusTimeout]).

Definition TurnStatus_Terminal (s : TurnStatus) : bool :=
  bool_decide (s ∈ [TurnStatusCompleted; TurnStatusStopped; TurnStatusFailed;
                    TurnStatusTimeout]).

(** ** Identifiers *)

Definition validateIdentifier (value : string) : validation :=
  first_error
    [ when (bool_decide (TrimSpace value = "")) (ErrText "is required");
      when (negb (bool_decide (value = TrimSpace value)))
        (ErrText "must not contain surrounding whitespace") ].

(** ** Requests *)

Record StartRequest := mkStartRequest {
  sreq_ThreadID : ThreadID;
  sreq_IdempotencyKey : IdempotencyKey
}.

Definition StartRequest_Validate (r : StartRequest) : validation :=
  first_error
    [ validateIdentifier r.(sreq_ThreadID);
      validateIdentifier r.(sreq_IdempotencyKey) ].

Record StartAdmissionResult := mkStartAdmissionResult {
  adm_TurnID : TurnID;
  adm_StreamURL : string
}.

Definition StartAdmissionResult_Validate (r : StartAdmissionResult) : validation :=
  first_error
    [ validateIdentifier r.(adm_TurnID); validateIdentifier r.(adm_StreamURL) ].

(** The [AfterSequence] pointer is an [option]. *)
Record ReplayCursor := mkReplayCursor {
  cur_LastEventID : string;
  cur_AfterSequence : option Sequence
}.

Definition ReplayCursor_Validate (c : ReplayCursor) : validation :=
  when (negb (bool_decide (c.(cur_LastEventID) = TrimSpace c.(cur_LastEventID))))
    (ErrText "lastEventId must not contain surrounding whitespace").

Record AttachRequest := mkAttachRequest {
  areq_TurnID : TurnID;
  areq_Cursor : ReplayCursor
}.

Definition AttachRequest_Validate (r : AttachRequest) : validation :=
  first_error
    [ validateIdentifier r.(areq_TurnID); ReplayCursor_Validate r.(areq_Cursor) ].

Record CancelRequest := mkCancelRequest { creq_TurnID : TurnID }.

Definition CancelRequest_Validate (r : CancelRequest) : validation :=
  validateIdentifier r.(creq_TurnID).

Record TerminalState := mkTerminalState {
  tst_TurnID : TurnID;
  tst_Status : TurnStatus
}.

Definition TerminalState_Validate (s : TerminalState) : validation :=
  first_error
    [ validateIdentifier s.(tst_TurnID);
      when (negb (TurnStatus_Valid s.(tst_Status))) (ErrText "unknown turn status");
      when (negb (TurnStatus_Terminal s.(tst_Status)))
        (ErrText "turn status is not terminal") ].

(** ** Replay windows *)

Record ReplayWindow := mkReplayWindow {
  win_OldestSequence : Sequence;
  win_LatestSequence : Sequence
}.

Definition ReplayWindow_Empty (w : ReplayWindow) : bool :=
  (w.(win_OldestSequence) =? 0) && (w.(win_LatestSequence) =? 0).

Definition ReplayWindow_Validate (w : ReplayWindow) : validation :=
  if ReplayWindow_Empty w then None
  else first_error
    [ when ((w.(win_OldestSequence) =? 0) || (w.(win_LatestSequence) =? 0))
        (ErrText "a non-empty replay window requires positive sequence bounds");
      when (w.(win_LatestSequence) <? w.(win_OldestSequence))
        (ErrText "oldestSequence exceeds latestSequence") ].

(** ** Events *)

Definition EventFrameEvent : string := "event".
Definition EventFrameKind_Valid (k : string) : bool := bool_decide (k = EventFrameEvent).
Definition EventVisibilityUser : string := "user".
Definition EventVisibility_Valid (v : string) : bool :=
  bool_decide (v = EventVisibilityUser).

Definition EventType : Type := string.
Definition EventCoreTurnStatus : EventType := "core.turn.status".

Record EventPluginRef := mkEventPluginRef {
  plg_ID : string;
  plg_Version : string;
  plg_ReleaseDigest : string
}.

#[export] Instance EventPluginRef_eq_dec : EqDecision EventPluginRef.
Proof. solve_decision. Defined.

Definition EventPluginRef_Validate (r : EventPluginRef) : validation :=
  first_error
    [ validateIdentifier r.(plg_ID); validateIdentifier r.(plg_Version);
      validateIdentifier r.(plg_ReleaseDigest) ].

Record EventEnvelope := mkEventEnvelope {
  ev_SchemaVersion : Z;
  ev_FrameKind : string;
  ev_EventID : string;
  ev_TurnID : TurnID;
  ev_Sequence : Sequence;
  ev_Plugin : EventPluginRef;
  ev_Type : EventType;
  ev_Visibility : string;
  ev_ResourceRefs : list string;
  ev_Data : string
}.

#[export] Instance EventEnvelope_eq_dec : EqDecision EventEnvelope.
Proof. solve_decision. Defined.

Definition EventEnvelope_Validate (e : EventEnvelope) : validation :=
  first_error
    ([ when (negb (e.(ev_SchemaVersion) =? EventEnvelopeSchemaVersion))
         (ErrText "unsupported event schemaVersion");
       when (negb (EventFrameKind_Valid e.(ev_FrameKind)))
         (ErrText "unsupported frameKind");
       validateIdentifier e.(ev_EventID);
       validateIdentifier e.(ev_TurnID);
       when (e.(ev_Sequence) =? 0) (ErrText "event sequence must be positive");
       EventPluginRef_Validate e.(ev_Plugin);
       validateIdentifier e.(ev_Type);
       when (negb (EventVisibility_Valid e.(ev_Visibility)))
         (ErrText "unsupported event visibility");
       when ((len e.(ev_Data) =? 0) || negb (json_valid e.(ev_Data)))
         (ErrText "event data must contain valid JSON") ]
     ++ map validateIdentifier e.(ev_ResourceRefs)).

(** [ValidateEventSequence]: the loop carries the index test [i > 0], the
    previous sequence and the event ids seen so far. *)
Fixpoint ValidateEventSequence_loop (turnID : TurnID) (first : bool)
    (previous : Sequence) (seen : gset string) (events : list EventEnvelope)
    : validation :=
  match events with
  | [] => None
  | event :: rest =>
    first_error
      [ EventEnvelope_Validate event;
        when (negb (bool_decide (event.(ev_TurnID) = turnID)))
          (ErrText "event belongs to another turn");
        when (negb first && (event.(ev_Sequence) <=? previous))
          (ErrText "event sequence is not greater");
        when (bool_decide (event.(ev_EventID) ∈ seen)) (ErrText "event repeats eventId");
        ValidateEventSequence_loop turnID false event.(ev_Sequence)
          ({[event.(ev_EventID)]} ∪ seen) rest ]
  end.

Definition ValidateEventSequence (events : list EventEnvelope) : validation :=
  match events with
  | [] => None
  | first :: _ => ValidateEventSequence_loop first.(ev_TurnID) true 0 ∅ events
  end.

(** ** Facts about statuses *)

Lemma TurnStatus_Valid_cases s :
  TurnStatus_Valid s = true ↔
  s = TurnStatusQueued ∨ s = TurnStatusRunning ∨ TurnStatus_Terminal s = true.
Proof.
  unfold TurnStatus_Valid, TurnStatus_Terminal.
  rewrite !bool_decide_eq_true, !elem_of_cons, elem_of_nil. tauto.
Qed.

Lemma TurnStatus_Terminal_cases s :
  TurnStatus_Terminal s = true ↔
  s = TurnStatusCompleted ∨ s = TurnStatusStopped ∨ s = TurnStatusFailed
  ∨ s = TurnStatusTimeout.
Proof.
  unfold TurnStatus_Terminal. rewrite bool_decide_eq_true, !elem_of_cons, elem_of_nil. tauto.
Qed.

Lemma TurnStatus_Terminal_Valid s :
  TurnStatus_Terminal s = true → TurnStatus_Valid s = true.
Proof. rewrite TurnStatus_Valid_cases. tauto. Qed.

(** ** The consumer's sequence check

    What [ValidateEventSequence] accepts, stated without the loop: every event
    validates, all belong to one Turn, sequences strictly increase and event
    ids do not repeat. *)

Lemma ValidateEventSequence_loop_None turnID first previous seen events :
  ValidateEventSequence_loop turnID first previous seen events = None ↔
  Forall (fun e => EventEnvelope_Validate e = None ∧ e.(ev_TurnID) = turnID) events
  ∧ (first = false → ∀ e, head events = Some e → previous < e.(ev_Sequence))
  ∧ (∀ i e1 e2, events !! i = Some e1 → events !! S i = Some e2 →
       e1.(ev_Sequence) < e2.(ev_Sequence))
  ∧ NoDup (map ev_EventID events)
  ∧ Forall (fun e => e.(ev_EventID) ∉ seen) events.
Proof.
  revert first previous seen. induction events as [|e events IH]; intros first previous seen.
  { cbn. repeat split; try done. constructor. }
  cbn [ValidateEventSequence_loop]. rewrite first_error_None.
  rewrite !Forall_cons, !when_None, IH. cbn [map head]. rewrite NoDup_cons.
  rewrite negb_false_iff, bool_decide_eq_true, bool_decide_eq_false.
  rewrite andb_false_iff, negb_false_iff, Z.leb_gt.
  split.
  - intros (Hv & Hid & Hprev & Hseen & (Hall & Hhd & Hord & Hnd & Hfresh) & _).
    split_and!; try done.
    + intros Hf e' [= <-]. destruct Hprev as [->|]; [done|lia].
    + intros [|i] e1 e2 H1 H2.
      * simpl in *. simplify_eq. apply Hhd; [done|]. by destruct events.
      * by apply (Hord i).
    + intros (e' & Heq & He')%list_elem_of_fmap.
      rewrite Forall_forall in Hfresh. apply Hfresh in He'. set_solver.
    + rewrite Forall_forall in Hfresh |- *. set_solver.
  - intros ([[Hv Hid] Hall] & Hprev & Hord & [Hnin Hnd] & [Hseen Hfresh]).
    split_and!; try done.
    + destruct first; [by left|right]. by apply Hprev.
    + intros _ e' He'. apply (Hord 0%nat); [done|]. by destruct events.
    + intros i e1 e2 H1 H2. by apply (Hord (S i)).
    + rewrite Forall_forall in Hfresh |- *. intros e' He'.
      specialize (Hfresh e' He'). apply not_elem_of_union. split; [|done].
      rewrite elem_of_singleton. intros Heq. apply Hnin. apply list_elem_of_fmap. eauto.
Qed.

Lemma ValidateEventSequence_None events :
  ValidateEventSequence events = None ↔
  Forall (fun e => EventEnvelope_Validate e = None) events
  ∧ (∀ e1 e2, e1 ∈ events → e2 ∈ events → e1.(ev_TurnID) = e2.(ev_TurnID))
  ∧ (∀ i e1 e2, events !! i = Some e1 → events !! S i = Some e2 →
       e1.(ev_Sequence) < e2.(ev_Sequence))
  ∧ NoDup (map ev_EventID events).
Proof.
  destruct events as [|e events].
  { cbn. repeat split; try done; [set_solver|constructor]. }
  unfold ValidateEventSequence. rewrite ValidateEventSequence_loop_None.
  set (l := e :: events). rewrite !Forall_forall. split.
  - intros (Hall & _ & Hord & Hnd & _). split_and!; try done.
    + intros x Hx. by apply Hall.
    + intros e1 e2 H1 H2. by rewrite (proj2 (Hall e1 H1)), (proj2 (Hall e2 H2)).
  - intros (Hall & Hid & Hord & Hnd). split_and!; try done.
    intros x Hx. split; [by apply Hall|]. apply Hid; [done|]. by constructor.
Qed.
