(* ===== verification/TurnTypes.v ===== *)
(** * Turns, commands and the status machine

    service/agentturn/types.go and the [CanTransition] state machine of
    service/agentturn/store.go.  A [time.Time] is the number of nanoseconds
    since Go's zero time, so [IsZero] is equality with 0; all values are in
    UTC.  A pointer to a time is an [option]. *)

From S2P Require Import Prelude GoText GoJson AgentContract.

Definition time : Type := Z.
Definition IsZero (t : time) : bool := t =? 0.
Definition Before (a b : time) : bool := a <? b.
Definition After (a b : time) : bool := b <? a.

(** A test on a pointer that holds only when the pointer is not nil. *)
Definition holds_at {A} (p : option A) (f : A → bool) : bool :=
  match p with Some x => f x | None => false end.

Definition MaxPrincipalIDBytes : Z := 128.
Definition MaxThreadIDBytes : Z := 256.
Definition MaxTurnIDBytes : Z := 256.
Definition MaxIdempotencyKeyBytes : Z := 128.
Definition MaxCommandDigestBytes : Z := 128.
Definition MaxPluginFieldBytes : Z := 512.
Definition MaxEventTypeBytes : Z := 255.
Definition MaxEventIDBytes : Z := 320.
Definition MaxEventDataBytes : Z := 2 ^ 20.
Definition MaxEventResourceRefs : Z := 64.
Definition MaxDurableSequence : Sequence := 2 ^ 63 - 1.

Definition PrincipalID : Type := string.

(** ** Text validators *)

Definition validateText (value : string) : validation :=
  first_error
    [ when (bool_decide (TrimSpace value = "")) (ErrText "is required");
      when (negb (bool_decide (value = TrimSpace value)))
        (ErrText "must not contain surrounding whitespace");
      when (2048 <? len value) (ErrText "exceeds 2048 bytes") ].

Definition validateBoundedText (value : string) (maximum : Z) : validation :=
  first_error
    [ validateText value; when (maximum <? len value) (ErrText "exceeds maximum") ].

Definition validatePathSegment (value : string) (maximum : Z) : validation :=
  first_error
    [ validateBoundedText value maximum;
      when (ContainsAny value "/\?#%") (ErrText "contains a path delimiter");
      when (existsb (fun b => (b <? 0x20) || (b =? 0x7f)) (bytes value))
        (ErrText "contains a control character") ].

Definition validatePluginRef (plugin : EventPluginRef) : validation :=
  first_error
    [ validateBoundedText plugin.(plg_ID) MaxPluginFieldBytes;
      validateBoundedText plugin.(plg_Version) MaxPluginFieldBytes;
      validateBoundedText plugin.(plg_ReleaseDigest) MaxPluginFieldBytes ].

Definition printable_ascii (value : string) : bool :=
  forallb (fun b => (0x20 <=? b) && (b <=? 0x7e)) (bytes value).

Definition validateCommandDigest (value : string) : validation :=
  first_error
    [ validateBoundedText value MaxCommandDigestBytes;
      when (negb (printable_ascii value))
        (ErrText "commandDigest must contain printable ASCII only") ].

(** ** Turn *)

Record Turn := mkTurn {
  turn_ID : TurnID;
  turn_PrincipalID : PrincipalID;
  turn_ThreadID : ThreadID;
  turn_IdempotencyKey : IdempotencyKey;
  turn_CommandDigest : string;
  turn_Plugin : EventPluginRef;
  turn_Status : TurnStatus;
  turn_CancelRequestedAt : option time;
  turn_CreatedAt : time;
  turn_UpdatedAt : time;
  turn_StartedAt : option time;
  turn_FinishedAt : option time
}.

#[export] Instance Turn_eq_dec : EqDecision Turn.
Proof. solve_decision. Defined.

Definition Turn_Validate (t : Turn) : validation :=
  first_error
    [ validatePathSegment t.(turn_ID) MaxTurnIDBytes;
      validateBoundedText t.(turn_PrincipalID) MaxPrincipalIDBytes;
      validatePathSegment t.(turn_ThreadID) MaxThreadIDBytes;
      validateBoundedText t.(turn_IdempotencyKey) MaxIdempotencyKeyBytes;
      validateCommandDigest t.(turn_CommandDigest);
      EventPluginRef_Validate t.(turn_Plugin);
      validatePluginRef t.(turn_Plugin);
      when (negb (TurnStatus_Valid t.(turn_Status))) (ErrText "unknown turn status");
      when (IsZero t.(turn_CreatedAt) || IsZero t.(turn_UpdatedAt))
        (ErrText "createdAt and updatedAt are required");
      when (Before t.(turn_UpdatedAt) t.(turn_CreatedAt))
        (ErrText "updatedAt precedes createdAt");
      when (holds_at t.(turn_StartedAt) (fun s => Before s t.(turn_CreatedAt)))
        (ErrText "startedAt precedes createdAt");
      when (holds_at t.(turn_CancelRequestedAt) (fun c => Before c t.(turn_CreatedAt)))
        (ErrText "cancelRequestedAt precedes createdAt");
      when (holds_at t.(turn_FinishedAt) (fun f => Before f t.(turn_CreatedAt)))
        (ErrText "finishedAt precedes createdAt");
      when (holds_at t.(turn_StartedAt) (fun s =>
              holds_at t.(turn_FinishedAt) (fun f => Before f s)))
        (ErrText "finishedAt precedes startedAt");
      when (holds_at t.(turn_StartedAt) (fun s => After s t.(turn_UpdatedAt)))
        (ErrText "startedAt exceeds updatedAt");
      when (holds_at t.(turn_CancelRequestedAt) (fun c => After c t.(turn_UpdatedAt)))
        (ErrText "cancelRequestedAt exceeds updatedAt");
      when (holds_at t.(turn_FinishedAt) (fun f => After f t.(turn_UpdatedAt)))
        (ErrText "finishedAt exceeds updatedAt");
      when (negb (Bool.eqb (TurnStatus_Terminal t.(turn_Status))
                    (bool_decide (is_Some t.(turn_FinishedAt)))))
        (ErrText "terminal status and finishedAt must agree");
      when (bool_decide (t.(turn_Status) = TurnStatusQueued)
            && bool_decide (is_Some t.(turn_StartedAt)))
        (ErrText "queued turn must not have startedAt");
      when (bool_decide (t.(turn_Status) = TurnStatusRunning)
            && bool_decide (t.(turn_StartedAt) = None))
        (ErrText "running turn requires startedAt");
      when (bool_decide (t.(turn_Status) = TurnStatusStopped)
            && bool_decide (t.(turn_CancelRequestedAt) = None))
        (ErrText "stopped turn requires prior cancellation intent") ].

(** ** Event drafts *)

Record EventDraft := mkEventDraft {
  draft_Type : EventType;
  draft_ResourceRefs : list string;
  draft_Data : string
}.

Definition EventDraft_Validate (d : EventDraft) : validation :=
  first_error
    ([ validateBoundedText d.(draft_Type) MaxEventTypeBytes;
       when ((len d.(draft_Data) =? 0) || negb (json_valid d.(draft_Data)))
         (ErrText "event data must contain valid JSON");
       when (MaxEventDataBytes <? len d.(draft_Data)) (ErrText "event data exceeds maximum");
       when (MaxEventResourceRefs <? Z.of_nat (length d.(draft_ResourceRefs)))
         (ErrText "event resource refs exceed maximum") ]
     ++ map validateText d.(draft_ResourceRefs)).

(** ** Commands *)

Record StartCommand := mkStartCommand {
  start_PrincipalID : PrincipalID;
  start_Request : StartRequest;
  start_CommandDigest : string;
  start_Plugin : EventPluginRef
}.

Definition StartCommand_Validate (c : StartCommand) : validation :=
  first_error
    [ validateBoundedText c.(start_PrincipalID) MaxPrincipalIDBytes;
      StartRequest_Validate c.(start_Request);
      validatePathSegment c.(start_Request).(sreq_ThreadID) MaxThreadIDBytes;
      validateBoundedText c.(start_Request).(sreq_IdempotencyKey) MaxIdempotencyKeyBytes;
      validateCommandDigest c.(start_CommandDigest);
      EventPluginRef_Validate c.(start_Plugin);
      validatePluginRef c.(start_Plugin) ].

Record StartResult := mkStartResult {
  sres_Admission : StartAdmissionResult;
  sres_Turn : Turn;
  sres_IdempotentReplay : bool
}.

Record OwnedTurnRequest := mkOwnedTurnRequest {
  oreq_PrincipalID : PrincipalID;
  oreq_ThreadID : ThreadID;
  oreq_TurnID : TurnID
}.

Definition OwnedTurnRequest_Validate (r : OwnedTurnRequest) : validation :=
  first_error
    [ validateBoundedText r.(oreq_PrincipalID) MaxPrincipalIDBytes;
      validatePathSegment r.(oreq_ThreadID) MaxThreadIDBytes;
      validatePathSegment r.(oreq_TurnID) MaxTurnIDBytes ].

Record AttachCommand := mkAttachCommand {
  attach_PrincipalID : PrincipalID;
  attach_ThreadID : ThreadID;
  attach_Request : AttachRequest
}.

Definition AttachCommand_Validate (c : AttachCommand) : validation :=
  first_error
    [ validateBoundedText c.(attach_PrincipalID) MaxPrincipalIDBytes;
      validatePathSegment c.(attach_ThreadID) MaxThreadIDBytes;
      AttachRequest_Validate c.(attach_Request);
      validatePathSegment c.(attach_Request).(areq_TurnID) MaxTurnIDBytes ].

Record CancelCommand := mkCancelCommand {
  cancel_PrincipalID : PrincipalID;
  cancel_ThreadID : ThreadID;
  cancel_Request : CancelRequest
}.

Definition CancelCommand_Validate (c : CancelCommand) : validation :=
  first_error
    [ validateBoundedText c.(cancel_PrincipalID) MaxPrincipalIDBytes;
      validatePathSegment c.(cancel_ThreadID) MaxThreadIDBytes;
      CancelRequest_Validate c.(cancel_Request);
      validatePathSegment c.(cancel_Request).(creq_TurnID) MaxTurnIDBytes ].

(** ** Results *)

Record CancelResult := mkCancelResult {
  cres_Turn : Turn;
  cres_NewlyRequested : bool;
  cres_Event : option EventEnvelope
}.

Record TransitionResult := mkTransitionResult {
  tres_Turn : Turn;
  tres_Changed : bool;
  tres_Event : option EventEnvelope
}.

Record AdmissionRecord := mkAdmissionRecord {
  arec_Turn : Turn;
  arec_Created : bool
}.

(** [ReplayRecord], and [Attachment], which has the same fields. *)
Record ReplayRecord := mkReplayRecord {
  rec_Turn : Turn;
  rec_AfterSequence : Sequence;
  rec_Window : ReplayWindow;
  rec_Events : list EventEnvelope;
  rec_HasMore : bool
}.

Record ReplayQuery := mkReplayQuery {
  qry_Cursor : ReplayCursor;
  qry_Limit : Z
}.

Definition ReplayQuery_Validate (q : ReplayQuery) : validation :=
  first_error
    [ ReplayCursor_Validate q.(qry_Cursor);
      if bool_decide (q.(qry_Cursor).(cur_LastEventID) = "") then None
      else validateBoundedText q.(qry_Cursor).(cur_LastEventID) MaxEventIDBytes;
      when ((q.(qry_Limit) <=? 0) || (1000 <? q.(qry_Limit)))
        (ErrText "replay limit must be between 1 and 1000");
      when (holds_at q.(qry_Cursor).(cur_AfterSequence) (fun a => MaxDurableSequence <? a))
        (ErrText "replay cursor exceeds durable sequence limit") ].

(** ** The status machine: store.go *)

Definition CanTransition (from to : TurnStatus) : bool :=
  if negb (TurnStatus_Valid from) || negb (TurnStatus_Valid to) then false
  else if bool_decide (from = to) then true
  else if TurnStatus_Terminal from then false
  else if bool_decide (from = TurnStatusQueued) then
    bool_decide (to ∈ [TurnStatusRunning; TurnStatusStopped; TurnStatusFailed;
                       TurnStatusTimeout])
  else if bool_decide (from = TurnStatusRunning) then TurnStatus_Terminal to
  else false.

Definition transitionError (from to : TurnStatus) : error :=
  if TurnStatus_Terminal from && negb (bool_decide (from = to))
  then ErrTurnTerminal else ErrInvalidTransition.

(** ** Facts *)

(** What a validated Turn satisfies, as propositions. *)
Record turn_ok (t : Turn) : Prop := {
  ok_id : validatePathSegment t.(turn_ID) MaxTurnIDBytes = None;
  ok_principal : validateBoundedText t.(turn_PrincipalID) MaxPrincipalIDBytes = None;
  ok_thread : validatePathSegment t.(turn_ThreadID) MaxThreadIDBytes = None;
  ok_plugin : EventPluginRef_Validate t.(turn_Plugin) = None;
  ok_plugin_bounds : validatePluginRef t.(turn_Plugin) = None;
  ok_status : TurnStatus_Valid t.(turn_Status) = true;
  ok_created : t.(turn_CreatedAt) ≠ 0;
  ok_updated : t.(turn_UpdatedAt) ≠ 0;
  ok_order : t.(turn_CreatedAt) ≤ t.(turn_UpdatedAt);
  ok_started : ∀ s, t.(turn_StartedAt) = Some s → t.(turn_CreatedAt) ≤ s ≤ t.(turn_UpdatedAt);
  ok_cancel : ∀ c, t.(turn_CancelRequestedAt) = Some c → t.(turn_CreatedAt) ≤ c ≤ t.(turn_UpdatedAt);
  ok_finished : ∀ f, t.(turn_FinishedAt) = Some f → t.(turn_CreatedAt) ≤ f ≤ t.(turn_UpdatedAt);
  ok_start_finish : ∀ s f, t.(turn_StartedAt) = Some s → t.(turn_FinishedAt) = Some f → s ≤ f;
  ok_terminal : TurnStatus_Terminal t.(turn_Status) = true ↔ is_Some t.(turn_FinishedAt);
  ok_queued : t.(turn_Status) = TurnStatusQueued → t.(turn_StartedAt) = None;
  ok_running : t.(turn_Status) = TurnStatusRunning → is_Some t.(turn_StartedAt);
  ok_stopped : t.(turn_Status) = TurnStatusStopped → is_Some t.(turn_CancelRequestedAt)
}.

Lemma holds_at_false {A} (p : option A) f :
  holds_at p f = false ↔ ∀ x, p = Some x → f x = false.
Proof. destruct p; simpl; naive_solver. Qed.

Lemma is_Some_iff_not_None {A} (p : option A) : p ≠ None ↔ is_Some p.
Proof. rewrite not_eq_None_Some. done. Qed.

Lemma Turn_Validate_ok t : Turn_Validate t = None → turn_ok t.
Proof.
  unfold Turn_Validate. rewrite first_error_None, !Forall_cons, !when_None.
  rewrite !holds_at_false. setoid_rewrite holds_at_false.
  unfold IsZero, Before, After.
  intros (?&?&?&?&?&?&?&?&Hz&?&Hs&Hc&Hf&Hsf&Hsu&Hcu&Hfu&Ht&Hq&Hr&Hst&_).
  bool_hyps. apply Bool.eqb_prop in Ht.
  apply andb_false_iff in Hq, Hr, Hst.
  setoid_rewrite Z.ltb_ge in Hs. setoid_rewrite Z.ltb_ge in Hc.
  setoid_rewrite Z.ltb_ge in Hf. setoid_rewrite Z.ltb_ge in Hsf.
  setoid_rewrite Z.ltb_ge in Hsu. setoid_rewrite Z.ltb_ge in Hcu.
  setoid_rewrite Z.ltb_ge in Hfu.
  setoid_rewrite bool_decide_eq_false in Hq.
  setoid_rewrite bool_decide_eq_false in Hr.
  setoid_rewrite bool_decide_eq_false in Hst.
  split; try done; eauto.
  - rewrite Ht. by rewrite bool_decide_eq_true.
  - intros. apply eq_None_not_Some. tauto.
  - intros. apply is_Some_iff_not_None. tauto.
  - intros. apply is_Some_iff_not_None. tauto.
Qed.

(** The edges of the status machine. *)
Lemma CanTransition_spec from to :
  CanTransition from to = true ↔
  TurnStatus_Valid from = true ∧
  (from = to
   ∨ from = TurnStatusQueued ∧ (to = TurnStatusRunning ∨ to = TurnStatusStopped
                                 ∨ to = TurnStatusFailed ∨ to = TurnStatusTimeout)
   ∨ from = TurnStatusRunning ∧ TurnStatus_Terminal to = true).
Proof.
  rewrite TurnStatus_Valid_cases, !TurnStatus_Terminal_cases. split.
  - unfold CanTransition. intros H. repeat case_match; bool_hyps; try done.
    all: rewrite ?TurnStatus_Valid_cases, ?TurnStatus_Terminal_cases in *.
    all: try set_solver.
  - intros [Hv [Heq|[[? Hto]|[? Hto]]]]; subst.
    + by destruct_or! Hv; subst.
    + by destruct_or! Hto; subst.
    + by destruct_or! Hto; subst.
Qed.

Lemma CanTransition_terminal from to :
  TurnStatus_Terminal from = true → CanTransition from to = true → from = to.
Proof.
  intros Ht. rewrite CanTransition_spec. intros [_ [?|[[-> _]|[-> _]]]]; done.
Qed.

(** ** Stronger text checks imply weaker ones *)

Lemma validateText_identifier v : validateText v = None → validateIdentifier v = None.
Proof.
  unfold validateText, validateIdentifier. rewrite !first_error_None, !Forall_cons. tauto.
Qed.

Lemma validateBoundedText_text v m : validateBoundedText v m = None → validateText v = None.
Proof. unfold validateBoundedText. rewrite first_error_None, !Forall_cons. tauto. Qed.

Lemma validatePathSegment_bounded v m :
  validatePathSegment v m = None → validateBoundedText v m = None.
Proof. unfold validatePathSegment. rewrite first_error_None, !Forall_cons. tauto. Qed.

#[export] Hint Resolve validateText_identifier validateBoundedText_text
  validatePathSegment_bounded : go.
