(* ===== verification/MemoryStore.v ===== *)
(** * MemoryStore: service/agentturn/memory_store.go

    The reference implementation of the kernel's [Store].  Every operation
    runs under the store's mutex, so it is a function of the store; the two
    [contextError] checks of a mutating call are the 0th (before the lock) and
    the 1st (with the lock held).  [cloneTurn] and [cloneEvent] copy values so
    that no caller shares memory with the store, which in a functional model
    is the identity. *)

From S2P Require Import Prelude GoText GoJson AgentContract TurnTypes.

Definition idempotencyScope : Type := PrincipalID * ThreadID * IdempotencyKey.

Record MemoryStore := mkMemoryStore {
  ms_turns : gmap TurnID Turn;
  ms_byIdem : gmap idempotencyScope TurnID;
  ms_events : gmap TurnID (list EventEnvelope);
  ms_lastSequence : gmap TurnID Sequence
}.

Definition NewMemoryStore : MemoryStore := mkMemoryStore ∅ ∅ ∅ ∅.

(** ** Events *)

Definition deterministicEventID (turnID : TurnID) (sequence : Sequence) : string :=
  turnID +:+ ":" +:+ FormatInt sequence.

Definition buildEvent (turn : Turn) (sequence : Sequence) (draft : EventDraft)
    : result EventEnvelope :=
  guard! negb ((sequence =? 0) || (MaxDurableSequence <? sequence)) else ErrSequenceExhausted;;
  let event := {|
    ev_SchemaVersion := EventEnvelopeSchemaVersion;
    ev_FrameKind := EventFrameEvent;
    ev_EventID := deterministicEventID turn.(turn_ID) sequence;
    ev_TurnID := turn.(turn_ID);
    ev_Sequence := sequence;
    ev_Plugin := turn.(turn_Plugin);
    ev_Type := draft.(draft_Type);
    ev_Visibility := EventVisibilityUser;
    ev_ResourceRefs := draft.(draft_ResourceRefs);
    ev_Data := draft.(draft_Data)
  |} in
  check! EventEnvelope_Validate event;;
  Ok event.

Definition nextEventLocked (s : MemoryStore) (turn : Turn) (draft : EventDraft)
    : result EventEnvelope :=
  let latest := default 0 (s.(ms_lastSequence) !! turn.(turn_ID)) in
  if 0 <? latest then
    guard! negb (MaxDurableSequence <=? latest) else ErrSequenceExhausted;;
    buildEvent turn (u64 (latest + 1)) draft
  else buildEvent turn 1 draft.

(** The three writes that end every mutating operation. *)
Definition writeTurn (s : MemoryStore) (turnID : TurnID) (turn : Turn) : MemoryStore :=
  {| ms_turns := <[turnID := turn]> s.(ms_turns);
     ms_byIdem := s.(ms_byIdem);
     ms_events := s.(ms_events);
     ms_lastSequence := s.(ms_lastSequence) |}.

Definition appendLocked (s : MemoryStore) (turnID : TurnID) (event : EventEnvelope)
    : MemoryStore :=
  {| ms_turns := s.(ms_turns);
     ms_byIdem := s.(ms_byIdem);
     ms_events := <[turnID := default [] (s.(ms_events) !! turnID) ++ [event]]> s.(ms_events);
     ms_lastSequence := <[turnID := event.(ev_Sequence)]> s.(ms_lastSequence) |}.

(** ** Operations *)

Definition admissionLifecycle (candidate : Turn) : bool :=
  bool_decide (candidate.(turn_Status) = TurnStatusQueued)
  && bool_decide (candidate.(turn_CancelRequestedAt) = None)
  && bool_decide (candidate.(turn_StartedAt) = None)
  && bool_decide (candidate.(turn_FinishedAt) = None).

(** The zero value [Turn{}], which reading a missing map entry yields. *)
Definition zeroTurn : Turn :=
  mkTurn "" "" "" "" "" (mkEventPluginRef "" "" "") "" None 0 0 None None.

Definition scopeOf (t : Turn) : idempotencyScope :=
  (t.(turn_PrincipalID), t.(turn_ThreadID), t.(turn_IdempotencyKey)).

Definition Admit (ctx : context) (candidate : Turn) (initial : EventDraft)
    : op MemoryStore AdmissionRecord :=
  atomic (fun s =>
    check! ctx 0%nat;;
    check! Turn_Validate candidate;;
    guard! admissionLifecycle candidate else ErrText "invalid admitted turn lifecycle";;
    check! EventDraft_Validate initial;;
    check! ctx 1%nat;;
    match s.(ms_byIdem) !! scopeOf candidate with
    | Some existingID =>
      let existing := default zeroTurn (s.(ms_turns) !! existingID) in
      guard! bool_decide (existing.(turn_CommandDigest) = candidate.(turn_CommandDigest))
        else ErrIdempotencyConflict;;
      Ok (mkAdmissionRecord existing false, s)
    | None =>
      guard! bool_decide (s.(ms_turns) !! candidate.(turn_ID) = None) else ErrTurnIDConflict;;
      try! first := buildEvent candidate 1 initial in
      Ok (mkAdmissionRecord candidate true,
          {| ms_turns := <[candidate.(turn_ID) := candidate]> s.(ms_turns);
             ms_byIdem := <[scopeOf candidate := candidate.(turn_ID)]> s.(ms_byIdem);
             ms_events := <[candidate.(turn_ID) := [first]]> s.(ms_events);
             ms_lastSequence := <[candidate.(turn_ID) := 1]> s.(ms_lastSequence) |})
    end).

(** [turn, ok := s.turns[turnID]; !ok || ownership mismatch]. *)
Definition ownedTurn (s : MemoryStore) (principalID : PrincipalID) (threadID : ThreadID)
    (turnID : TurnID) : option Turn :=
  turn ← s.(ms_turns) !! turnID;
  if bool_decide (turn.(turn_PrincipalID) = principalID)
     && bool_decide (turn.(turn_ThreadID) = threadID) then Some turn else None.

Definition GetOwned (ctx : context) (principalID : PrincipalID) (threadID : ThreadID)
    (turnID : TurnID) : op MemoryStore Turn :=
  atomic (fun s =>
    check! ctx 0%nat;;
    match ownedTurn s principalID threadID turnID with
    | Some turn => Ok (turn, s)
    | None => Err ErrTurnNotFound
    end).

Definition AppendEvent (ctx : context) (turnID : TurnID) (draft : EventDraft)
    : op MemoryStore EventEnvelope :=
  atomic (fun s =>
    check! ctx 0%nat;;
    check! EventDraft_Validate draft;;
    check! ctx 1%nat;;
    match s.(ms_turns) !! turnID with
    | None => Err ErrTurnNotFound
    | Some turn =>
      guard! negb (TurnStatus_Terminal turn.(turn_Status)) else ErrTurnTerminal;;
      try! event := nextEventLocked s turn draft in
      Ok (event, appendLocked s turnID event)
    end).

(** The Turn a transition to [to] at time [at] writes. *)
Definition transitioned (turn : Turn) (to : TurnStatus) (at_ : time) : Turn :=
  {| turn_ID := turn.(turn_ID);
     turn_PrincipalID := turn.(turn_PrincipalID);
     turn_ThreadID := turn.(turn_ThreadID);
     turn_IdempotencyKey := turn.(turn_IdempotencyKey);
     turn_CommandDigest := turn.(turn_CommandDigest);
     turn_Plugin := turn.(turn_Plugin);
     turn_Status := to;
     turn_CancelRequestedAt := turn.(turn_CancelRequestedAt);
     turn_CreatedAt := turn.(turn_CreatedAt);
     turn_UpdatedAt := at_;
     turn_StartedAt :=
       if bool_decide (to = TurnStatusRunning) && bool_decide (turn.(turn_StartedAt) = None)
       then Some at_ else turn.(turn_StartedAt);
     turn_FinishedAt :=
       if TurnStatus_Terminal to then Some at_ else turn.(turn_FinishedAt) |}.

Definition Transition (ctx : context) (turnID : TurnID) (to : TurnStatus) (at_ : time)
    (eventDraft : EventDraft) : op MemoryStore TransitionResult :=
  atomic (fun s =>
    check! ctx 0%nat;;
    guard! negb (IsZero at_) else ErrText "transition time is required";;
    check! EventDraft_Validate eventDraft;;
    check! ctx 1%nat;;
    match s.(ms_turns) !! turnID with
    | None => Err ErrTurnNotFound
    | Some turn =>
      if bool_decide (turn.(turn_Status) = to) then
        Ok (mkTransitionResult turn false None, s)
      else
        guard! CanTransition turn.(turn_Status) to
          else transitionError turn.(turn_Status) to;;
        guard! negb (bool_decide (to = TurnStatusStopped)
                     && bool_decide (turn.(turn_CancelRequestedAt) = None))
          else ErrCancellationNotRequested;;
        let next := transitioned turn to at_ in
        check! Turn_Validate next;;
        try! event := nextEventLocked s next eventDraft in
        Ok (mkTransitionResult next true (Some event),
            appendLocked (writeTurn s turnID next) turnID event)
    end).

(** The Turn a cancellation at time [at] writes. *)
Definition cancelled (turn : Turn) (at_ : time) : Turn :=
  {| turn_ID := turn.(turn_ID);
     turn_PrincipalID := turn.(turn_PrincipalID);
     turn_ThreadID := turn.(turn_ThreadID);
     turn_IdempotencyKey := turn.(turn_IdempotencyKey);
     turn_CommandDigest := turn.(turn_CommandDigest);
     turn_Plugin := turn.(turn_Plugin);
     turn_Status := turn.(turn_Status);
     turn_CancelRequestedAt := Some at_;
     turn_CreatedAt := turn.(turn_CreatedAt);
     turn_UpdatedAt := at_;
     turn_StartedAt := turn.(turn_StartedAt);
     turn_FinishedAt := turn.(turn_FinishedAt) |}.

Definition RequestCancel (ctx : context) (principalID : PrincipalID) (threadID : ThreadID)
    (turnID : TurnID) (at_ : time) (eventDraft : EventDraft) : op MemoryStore CancelResult :=
  atomic (fun s =>
    check! ctx 0%nat;;
    guard! negb (IsZero at_) else ErrText "cancellation time is required";;
    check! EventDraft_Validate eventDraft;;
    check! ctx 1%nat;;
    match ownedTurn s principalID threadID turnID with
    | None => Err ErrTurnNotFound
    | Some turn =>
      if TurnStatus_Terminal turn.(turn_Status)
         || bool_decide (is_Some turn.(turn_CancelRequestedAt)) then
        Ok (mkCancelResult turn false None, s)
      else
        let next := cancelled turn at_ in
        check! Turn_Validate next;;
        try! event := nextEventLocked s next eventDraft in
        Ok (mkCancelResult next true (Some event),
            appendLocked (writeTurn s turnID next) turnID event)
    end).

(** ** Replay *)

Definition windowOf (events : list EventEnvelope) : ReplayWindow :=
  match head events, last events with
  | Some oldest, Some latest =>
    mkReplayWindow oldest.(ev_Sequence) latest.(ev_Sequence)
  | _, _ => mkReplayWindow 0 0
  end.

(** The [LastEventID] search: the first event with that id moves the cursor
    forward, never back. *)
Definition resolveCursor (events : list EventEnvelope) (cursor : ReplayCursor)
    : result Sequence :=
  let after := default 0 cursor.(cur_AfterSequence) in
  if bool_decide (cursor.(cur_LastEventID) = "") then Ok after
  else match list_find (fun e => e.(ev_EventID) = cursor.(cur_LastEventID)) events with
       | Some (_, event) => Ok (if after <? event.(ev_Sequence) then event.(ev_Sequence) else after)
       | None => Err ErrReplayCursorNotFound
       end.

(** The page loop: collect events after the cursor until the limit is full. *)
Fixpoint replayPage (after : Sequence) (limit : Z) (replayed : list EventEnvelope)
    (events : list EventEnvelope) : list EventEnvelope * bool :=
  match events with
  | [] => (replayed, false)
  | event :: rest =>
    if after <? event.(ev_Sequence) then
      if Z.of_nat (length replayed) =? limit then (replayed, true)
      else replayPage after limit (replayed ++ [event]) rest
    else replayPage after limit replayed rest
  end.

Definition Replay (ctx : context) (principalID : PrincipalID) (threadID : ThreadID)
    (turnID : TurnID) (query : ReplayQuery) : op MemoryStore ReplayRecord :=
  atomic (fun s =>
    check! ctx 0%nat;;
    check! ReplayQuery_Validate query;;
    match ownedTurn s principalID threadID turnID with
    | None => Err ErrTurnNotFound
    | Some turn =>
      let events := default [] (s.(ms_events) !! turnID) in
      let window := windowOf events in
      try! after := resolveCursor events query.(qry_Cursor) in
      guard! negb (ReplayWindow_Empty window && (0 <? after)
                   || negb (ReplayWindow_Empty window) && (window.(win_LatestSequence) <? after))
        else ErrReplayCursorAhead;;
      guard! negb (bool_decide (is_Some query.(qry_Cursor).(cur_AfterSequence))
                   && negb (ReplayWindow_Empty window)
                   && (after <? u64 (window.(win_OldestSequence) - 1)))
        else ErrReplayGap;;
      let page := replayPage after query.(qry_Limit) [] events in
      Ok ({| rec_Turn := turn; rec_AfterSequence := after; rec_Window := window;
             rec_Events := fst page; rec_HasMore := snd page |}, s)
    end).
