(* ===== verification/MemoryStoreFacts.v ===== *)
(** * MemoryStore: invariant, monotonicity and replay

    The well-formedness invariant of the reference store, its preservation by
    every operation, how a store may evolve, and what [Replay] returns. *)

From S2P Require Import Prelude GoText GoJson AgentContract TurnTypes MemoryStore.

(** ** The invariant *)

(** The log of a Turn: event number [i] carries sequence [i+1], the Turn's id
    and plugin snapshot, the derived event id, and validates. *)
Definition event_ok (t : Turn) (i : nat) (e : EventEnvelope) : Prop :=
  EventEnvelope_Validate e = None
  ∧ e.(ev_TurnID) = t.(turn_ID)
  ∧ e.(ev_Sequence) = Z.of_nat i + 1
  ∧ e.(ev_EventID) = deterministicEventID t.(turn_ID) (Z.of_nat i + 1)
  ∧ e.(ev_Plugin) = t.(turn_Plugin).

Definition log_ok (t : Turn) (evs : list EventEnvelope) : Prop :=
  ∀ i e, evs !! i = Some e → event_ok t i e.

Record store_wf (s : MemoryStore) : Prop := {
  wf_turn : ∀ id t, s.(ms_turns) !! id = Some t → t.(turn_ID) = id ∧ Turn_Validate t = None;
  wf_idem : ∀ sc id, s.(ms_byIdem) !! sc = Some id →
    ∃ t, s.(ms_turns) !! id = Some t ∧ scopeOf t = sc;
  wf_scope : ∀ id t, s.(ms_turns) !! id = Some t → s.(ms_byIdem) !! scopeOf t = Some id;
  wf_log : ∀ id t, s.(ms_turns) !! id = Some t →
    ∃ evs, s.(ms_events) !! id = Some evs ∧ evs ≠ [] ∧ log_ok t evs
           ∧ s.(ms_lastSequence) !! id = Some (Z.of_nat (length evs))
           ∧ Z.of_nat (length evs) ≤ MaxDurableSequence;
  wf_owned : ∀ id, s.(ms_turns) !! id = None → s.(ms_events) !! id = None
}.

(** The fields of a Turn that no later write may change. *)
Definition same_identity (t t' : Turn) : Prop :=
  t'.(turn_ID) = t.(turn_ID) ∧ scopeOf t' = scopeOf t
  ∧ t'.(turn_CommandDigest) = t.(turn_CommandDigest)
  ∧ t'.(turn_Plugin) = t.(turn_Plugin) ∧ t'.(turn_CreatedAt) = t.(turn_CreatedAt).

(** ** What the operations write *)

Lemma buildEvent_Ok t n d e :
  buildEvent t n d = Ok e →
  EventEnvelope_Validate e = None ∧ e.(ev_TurnID) = t.(turn_ID) ∧ e.(ev_Sequence) = n
  ∧ e.(ev_EventID) = deterministicEventID t.(turn_ID) n ∧ e.(ev_Plugin) = t.(turn_Plugin)
  ∧ n ≤ MaxDurableSequence.
Proof.
  unfold buildEvent. intros H. repeat case_match; simplify_eq/=. bool_hyps. split_and!; done.
Qed.

Lemma nextEventLocked_Ok s t (evs : list EventEnvelope) d e :
  s.(ms_lastSequence) !! t.(turn_ID) = Some (Z.of_nat (length evs)) → evs ≠ [] →
  nextEventLocked s t d = Ok e →
  event_ok t (length evs) e ∧ Z.of_nat (length evs) < MaxDurableSequence.
Proof.
  unfold nextEventLocked. intros -> Hne H. simpl in H.
  assert (0 < Z.of_nat (length evs)) by (destruct evs; simpl; [done|lia]).
  destruct (Z.ltb_spec 0 (Z.of_nat (length evs))); [|lia].
  case_match; [|done]. bool_hyps. unfold MaxDurableSequence in *.
  rewrite u64_small in H by lia. apply buildEvent_Ok in H as (?&?&?&?&?&?).
  split; [by split_and!|lia].
Qed.

Lemma Admit_Ok ctx c d s r s' :
  Admit ctx c d s = (Ok r, s') →
  Turn_Validate c = None ∧ admissionLifecycle c = true ∧
  ((∃ id, s.(ms_byIdem) !! scopeOf c = Some id ∧ s' = s
     ∧ r = mkAdmissionRecord (default zeroTurn (s.(ms_turns) !! id)) false
     ∧ (default zeroTurn (s.(ms_turns) !! id)).(turn_CommandDigest) = c.(turn_CommandDigest))
   ∨ (∃ e, s.(ms_byIdem) !! scopeOf c = None ∧ s.(ms_turns) !! c.(turn_ID) = None
     ∧ buildEvent c 1 d = Ok e ∧ r = mkAdmissionRecord c true
     ∧ s' = {| ms_turns := <[c.(turn_ID) := c]> s.(ms_turns);
               ms_byIdem := <[scopeOf c := c.(turn_ID)]> s.(ms_byIdem);
               ms_events := <[c.(turn_ID) := [e]]> s.(ms_events);
               ms_lastSequence := <[c.(turn_ID) := 1]> s.(ms_lastSequence) |})).
Proof.
  unfold Admit. rewrite atomic_Ok. intros H. repeat case_match; simplify_eq/=; bool_hyps.
  all: split_and!; eauto 10.
Qed.

Lemma AppendEvent_Ok ctx id d s r s' :
  AppendEvent ctx id d s = (Ok r, s') →
  ∃ t, s.(ms_turns) !! id = Some t ∧ TurnStatus_Terminal t.(turn_Status) = false
       ∧ nextEventLocked s t d = Ok r ∧ s' = appendLocked s id r.
Proof.
  unfold AppendEvent. rewrite atomic_Ok. intros H.
  repeat case_match; simplify_eq/=; bool_hyps. eauto.
Qed.

Lemma Transition_Ok ctx id to at_ d s r s' :
  Transition ctx id to at_ d s = (Ok r, s') →
  ∃ t, s.(ms_turns) !! id = Some t ∧
  ((t.(turn_Status) = to ∧ s' = s ∧ r = mkTransitionResult t false None)
   ∨ (∃ e, t.(turn_Status) ≠ to ∧ CanTransition t.(turn_Status) to = true
      ∧ (to = TurnStatusStopped → is_Some t.(turn_CancelRequestedAt))
      ∧ Turn_Validate (transitioned t to at_) = None
      ∧ nextEventLocked s (transitioned t to at_) d = Ok e
      ∧ r = mkTransitionResult (transitioned t to at_) true (Some e)
      ∧ s' = appendLocked (writeTurn s id (transitioned t to at_)) id e)).
Proof.
  unfold Transition. rewrite atomic_Ok. intros H.
  repeat case_match; simplify_eq/=; bool_hyps; eexists; (split; [done|]); [by left|].
  right. eexists. split_and!; eauto.
  intros ->. apply is_Some_iff_not_None.
  match goal with E : _ && _ = false |- _ => apply andb_false_iff in E as [?|?] end;
    by bool_hyps.
Qed.

Lemma RequestCancel_Ok ctx p th id at_ d s r s' :
  RequestCancel ctx p th id at_ d s = (Ok r, s') →
  ∃ t, ownedTurn s p th id = Some t ∧
  (((TurnStatus_Terminal t.(turn_Status) = true ∨ is_Some t.(turn_CancelRequestedAt))
    ∧ s' = s ∧ r = mkCancelResult t false None)
   ∨ (∃ e, TurnStatus_Terminal t.(turn_Status) = false ∧ t.(turn_CancelRequestedAt) = None
      ∧ Turn_Validate (cancelled t at_) = None
      ∧ nextEventLocked s (cancelled t at_) d = Ok e
      ∧ r = mkCancelResult (cancelled t at_) true (Some e)
      ∧ s' = appendLocked (writeTurn s id (cancelled t at_)) id e)).
Proof.
  unfold RequestCancel. rewrite atomic_Ok. intros H.
  repeat case_match; simplify_eq/=; eexists; (split; [done|]).
  - left. split; [|done].
    match goal with E : _ || _ = true |- _ => apply orb_true_iff in E as [?|?] end;
      bool_hyps; auto.
  - right. bool_hyps. eexists. split_and!; eauto. by apply eq_None_not_Some.
Qed.

Lemma ownedTurn_Some s p th id t :
  ownedTurn s p th id = Some t ↔
  s.(ms_turns) !! id = Some t ∧ t.(turn_PrincipalID) = p ∧ t.(turn_ThreadID) = th.
Proof.
  unfold ownedTurn. rewrite bind_Some. split.
  - intros (t' & ? & H). case_match; simplify_eq. bool_hyps. done.
  - intros (? & <- & <-). eexists. split; [done|]. by rewrite !bool_decide_eq_true_2.
Qed.

(** ** Writes preserve the invariant *)

Lemma log_ok_identity t t' evs : same_identity t t' → log_ok t evs → log_ok t' evs.
Proof.
  intros (Hid & _ & _ & Hp & _) H i e He. destruct (H i e He) as (?&?&?&?&?).
  unfold event_ok. rewrite Hid, Hp. done.
Qed.

Lemma log_ok_app t evs e :
  log_ok t evs → event_ok t (length evs) e → log_ok t (evs ++ [e]).
Proof.
  intros H He i e'. rewrite lookup_app_Some. intros [?|[Hi Hl]]; [by apply H|].
  apply list_lookup_singleton_Some in Hl as [Hl ->].
  replace i with (length evs) by lia. done.
Qed.

Lemma write_wf s id t t' d e :
  store_wf s → s.(ms_turns) !! id = Some t → same_identity t t' →
  Turn_Validate t' = None → nextEventLocked s t' d = Ok e →
  store_wf (appendLocked (writeTurn s id t') id e).
Proof.
  intros Hwf Ht Hid Hval Hev. pose proof Hid as (Hid1 & Hsc & _ & _ & _).
  destruct (wf_turn s Hwf id t Ht) as [Htid _].
  destruct (wf_log s Hwf id t Ht) as (evs & Hevs & Hne & Hlog & Hseq & Hmax).
  apply (nextEventLocked_Ok s t' evs) in Hev as [Hok Hlt]; [|congruence|done].
  assert (Hlog' : log_ok t' (evs ++ [e]))
    by eauto using log_ok_app, log_ok_identity.
  split; simpl.
  - intros id' u. rewrite lookup_insert. case_decide; [|by apply Hwf].
    intros [= <-]. split; congruence.
  - intros sc id' Hsc'. destruct (wf_idem s Hwf sc id' Hsc') as (u & Hu & <-).
    rewrite lookup_insert. case_decide; [|by eauto].
    exists t'. split; [done|]. congruence.
  - intros id' u. rewrite lookup_insert. case_decide; [|by apply Hwf].
    intros [= <-]. subst. rewrite Hsc. by apply Hwf.
  - intros id' u. rewrite !lookup_insert. case_decide; [|by apply Hwf].
    intros [= <-]. rewrite Hevs. simpl. exists (evs ++ [e]).
    destruct Hok as (_ & _ & Hs & _).
    rewrite length_app, Hs. simpl. split_and!; try done.
    + by destruct evs.
    + f_equal. lia.
    + lia.
  - intros id'. rewrite !lookup_insert. case_decide; [done|]. by apply Hwf.
Qed.

Lemma writeTurn_id s id t : s.(ms_turns) !! id = Some t → writeTurn s id t = s.
Proof. intros H. unfold writeTurn. rewrite insert_id by done. by destruct s. Qed.

Lemma same_identity_refl t : same_identity t t.
Proof. by repeat split. Qed.

Lemma transitioned_identity t to at_ : same_identity t (transitioned t to at_).
Proof. by repeat split. Qed.

Lemma cancelled_identity t at_ : same_identity t (cancelled t at_).
Proof. by repeat split. Qed.

#[export] Hint Resolve same_identity_refl transitioned_identity cancelled_identity : go.

Lemma new_store_wf : store_wf NewMemoryStore.
Proof. split; simpl; intros *; rewrite ?lookup_empty; done. Qed.

Lemma Admit_wf ctx c d s r s' : store_wf s → Admit ctx c d s = (Ok r, s') → store_wf s'.
Proof.
  intros Hwf (Hv & _ & [(id & _ & -> & _)|(e & Hidem & Hfresh & He & _ & ->)])%Admit_Ok;
    [done|].
  apply buildEvent_Ok in He as (?&?&?&?&?&?).
  split; simpl.
  - intros id t. rewrite lookup_insert. case_decide; [|by apply Hwf]. by intros [= <-].
  - intros sc id. rewrite lookup_insert. case_decide.
    + intros [= <-]. exists c. by rewrite lookup_insert_eq.
    + intros (t & Ht & <-)%(wf_idem s Hwf). exists t. rewrite lookup_insert_ne; [done|congruence].
  - intros id t. rewrite lookup_insert. case_decide.
    + intros [= <-]. by rewrite lookup_insert_eq; subst.
    + intros Ht. pose proof (wf_scope s Hwf id t Ht).
      rewrite lookup_insert_ne; [done|]. intros Heq. congruence.
  - intros id t. rewrite !lookup_insert. case_decide; [|by apply Hwf].
    intros [= <-]. exists [e]. split_and!; try done.
    intros i e' [-> ->]%list_lookup_singleton_Some. by split_and!.
  - intros id. rewrite !lookup_insert. case_decide; [done|]. by apply Hwf.
Qed.

Lemma AppendEvent_wf ctx id d s r s' :
  store_wf s → AppendEvent ctx id d s = (Ok r, s') → store_wf s'.
Proof.
  intros Hwf (t & Ht & _ & He & ->)%AppendEvent_Ok.
  rewrite <- (writeTurn_id s id t Ht).
  eapply write_wf; eauto with go. by apply (wf_turn s Hwf id).
Qed.

Lemma Transition_wf ctx id to at_ d s r s' :
  store_wf s → Transition ctx id to at_ d s = (Ok r, s') → store_wf s'.
Proof.
  intros Hwf (t & Ht & [(_ & -> & _)|(e & _ & _ & _ & Hv & He & _ & ->)])%Transition_Ok; [done|].
  eapply write_wf; eauto with go.
Qed.

Lemma RequestCancel_wf ctx p th id at_ d s r s' :
  store_wf s → RequestCancel ctx p th id at_ d s = (Ok r, s') → store_wf s'.
Proof.
  intros Hwf (t & (Ht & _)%ownedTurn_Some & [(_ & -> & _)|(e & _ & _ & Hv & He & _ & ->)])%RequestCancel_Ok;
    [done|].
  eapply write_wf; eauto with go.
Qed.

(** ** Executions

    One call of any store operation, whatever its arguments, its context and
    its outcome. *)
Inductive mstep (s : MemoryStore) : MemoryStore → Prop :=
| mstep_admit ctx c d r s' : Admit ctx c d s = (r, s') → mstep s s'
| mstep_get ctx p th id r s' : GetOwned ctx p th id s = (r, s') → mstep s s'
| mstep_append ctx id d r s' : AppendEvent ctx id d s = (r, s') → mstep s s'
| mstep_transition ctx id to at_ d r s' : Transition ctx id to at_ d s = (r, s') → mstep s s'
| mstep_cancel ctx p th id at_ d r s' : RequestCancel ctx p th id at_ d s = (r, s') → mstep s s'
| mstep_replay ctx p th id q r s' : Replay ctx p th id q s = (r, s') → mstep s s'.

Definition reachable (s : MemoryStore) : Prop := rtc mstep NewMemoryStore s.

Lemma GetOwned_state ctx p th id s r s' : GetOwned ctx p th id s = (r, s') → s' = s.
Proof. unfold GetOwned, atomic. intros. repeat case_match; naive_solver. Qed.

Lemma Replay_state ctx p th id q s r s' : Replay ctx p th id q s = (r, s') → s' = s.
Proof. unfold Replay, atomic. intros. repeat case_match; naive_solver. Qed.

(** A failing call has written nothing. *)
Lemma failed_call_writes_nothing {A} (f : op MemoryStore A) (body : MemoryStore → result (A * MemoryStore)) s e s' :
  f = atomic body → f s = (Err e, s') → s' = s.
Proof. intros -> H. by apply atomic_Err in H as [_ ->]. Qed.

Ltac failed H := eapply failed_call_writes_nothing in H; [subst|reflexivity].

Lemma mstep_wf s s' : mstep s s' → store_wf s → store_wf s'.
Proof.
  intros [ctx c d [r|e] ? H|ctx p th id r ? H|ctx id d [r|e] ? H|ctx id to at_ d [r|e] ? H
         |ctx p th id at_ d [r|e] ? H|ctx p th id q r ? H] Hwf; try (failed H; done).
  - eauto using Admit_wf.
  - by apply GetOwned_state in H as ->.
  - eauto using AppendEvent_wf.
  - eauto using Transition_wf.
  - eauto using RequestCancel_wf.
  - by apply Replay_state in H as ->.
Qed.

Lemma reachable_wf s : reachable s → store_wf s.
Proof.
  unfold reachable. intros H. assert (Hn := new_store_wf).
  induction H as [|s1 s2 s3 H12 _ IH]; eauto using mstep_wf.
Qed.

(** ** How a store evolves *)

Definition status_path : TurnStatus → TurnStatus → Prop :=
  rtc (fun a b => CanTransition a b = true).

(** Between two states of one Turn: identity, admission time, plugin snapshot
    and digest are frozen; a cancellation intent, a start time and a terminal
    record are never rewritten; the status moved along the state machine. *)
Definition turn_evolves (t t' : Turn) : Prop :=
  same_identity t t'
  ∧ status_path t.(turn_Status) t'.(turn_Status)
  ∧ (∀ c, t.(turn_CancelRequestedAt) = Some c → t'.(turn_CancelRequestedAt) = Some c)
  ∧ (∀ a, t.(turn_StartedAt) = Some a → t'.(turn_StartedAt) = Some a)
  ∧ (TurnStatus_Terminal t.(turn_Status) = true → t' = t).

Definition evolves (s s' : MemoryStore) : Prop :=
  ∀ id t evs, s.(ms_turns) !! id = Some t → s.(ms_events) !! id = Some evs →
  ∃ t' suffix, s'.(ms_turns) !! id = Some t' ∧ turn_evolves t t'
    ∧ s'.(ms_events) !! id = Some (evs ++ suffix)
    ∧ (TurnStatus_Terminal t.(turn_Status) = true → suffix = []).

Lemma turn_evolves_refl t : turn_evolves t t.
Proof. unfold turn_evolves. split_and!; eauto with go; apply rtc_refl. Qed.

Lemma turn_evolves_trans t1 t2 t3 : turn_evolves t1 t2 → turn_evolves t2 t3 → turn_evolves t1 t3.
Proof.
  intros ((?&?&?&?&?)&P1&C1&S1&T1) ((?&?&?&?&?)&P2&C2&S2&T2).
  unfold turn_evolves, same_identity, status_path in *. split_and!; try congruence; eauto.
  - by etrans.
  - intros Ht. pose proof (T1 Ht) as ->. auto.
Qed.

Lemma evolves_refl s : evolves s s.
Proof.
  intros id t evs ??. exists t, []. rewrite app_nil_r. eauto using turn_evolves_refl.
Qed.

Lemma evolves_trans s1 s2 s3 : evolves s1 s2 → evolves s2 s3 → evolves s1 s3.
Proof.
  intros H12 H23 id t evs Ht He.
  destruct (H12 id t evs Ht He) as (t2 & sf1 & Ht2 & E12 & He2 & Hx1).
  destruct (H23 id t2 _ Ht2 He2) as (t3 & sf2 & Ht3 & E23 & He3 & Hx2).
  exists t3, (sf1 ++ sf2). rewrite app_assoc. split_and!; eauto using turn_evolves_trans.
  intros Hterm. rewrite (Hx1 Hterm). destruct E12 as (_&_&_&_&T).
  rewrite (T Hterm) in Hx2. by rewrite Hx2.
Qed.

Lemma write_evolves s id t t' e :
  s.(ms_turns) !! id = Some t → turn_evolves t t' →
  TurnStatus_Terminal t.(turn_Status) = false →
  evolves s (appendLocked (writeTurn s id t') id e).
Proof.
  intros Ht Hev Hnt id' u evs Hu He. simpl. destruct (decide (id = id')) as [<-|Hne].
  - simplify_eq. exists t', [e]. rewrite !lookup_insert_eq, He. split_and!; try done.
    by rewrite Hnt.
  - exists u, []. rewrite !lookup_insert_ne, app_nil_r by done. split_and!; eauto using turn_evolves_refl.
Qed.

Lemma transitioned_evolves t to at_ :
  CanTransition t.(turn_Status) to = true → t.(turn_Status) ≠ to →
  turn_evolves t (transitioned t to at_).
Proof.
  intros Hc Hne. unfold turn_evolves. split_and!; eauto with go.
  - by apply rtc_once.
  - simpl. intros a ->. by rewrite andb_false_r.
  - intros Ht. by apply CanTransition_terminal in Hc.
Qed.

Lemma cancelled_evolves t at_ :
  TurnStatus_Terminal t.(turn_Status) = false → t.(turn_CancelRequestedAt) = None →
  turn_evolves t (cancelled t at_).
Proof.
  intros Ht Hc. unfold turn_evolves, status_path. rewrite Ht, Hc.
  split_and!; eauto with go; done.
Qed.

Lemma mstep_evolves s s' : mstep s s' → evolves s s'.
Proof.
  intros [ctx c d [r|e] ? H|ctx p th id r ? H|ctx id d [r|e] ? H|ctx id to at_ d [r|e] ? H
         |ctx p th id at_ d [r|e] ? H|ctx p th id q r ? H];
    try (failed H; apply evolves_refl).
  - apply Admit_Ok in H as (_ & _ & [(id & _ & -> & _)|(e & _ & Hf & _ & _ & ->)]);
      [apply evolves_refl|].
    intros id t evs Ht He. exists t, []. simpl. assert (c.(turn_ID) ≠ id) by congruence.
    rewrite !lookup_insert_ne, app_nil_r by done. eauto using turn_evolves_refl.
  - apply GetOwned_state in H as ->. apply evolves_refl.
  - apply AppendEvent_Ok in H as (t & Ht & Hnt & _ & ->).
    rewrite <- (writeTurn_id s id t Ht) at 2. eauto using write_evolves, turn_evolves_refl.
  - apply Transition_Ok in H as (t & Ht & [(_ & -> & _)|(e & Hne & Hc & _ & _ & _ & _ & ->)]);
      [apply evolves_refl|].
    eapply write_evolves; eauto using transitioned_evolves.
    destruct (TurnStatus_Terminal t.(turn_Status)) eqn:Hterm; [|done].
    by apply CanTransition_terminal in Hc.
  - apply RequestCancel_Ok in H
      as (t & (Ht & _)%ownedTurn_Some & [(_ & -> & _)|(e & Hnt & Hc & _ & _ & _ & ->)]);
      [apply evolves_refl|].
    eauto using write_evolves, cancelled_evolves.
  - apply Replay_state in H as ->. apply evolves_refl.
Qed.

Lemma run_evolves s s' : rtc mstep s s' → evolves s s'.
Proof.
  induction 1 as [|s1 s2 s3 H12 _ IH]; eauto using evolves_refl, evolves_trans, mstep_evolves.
Qed.

Lemma run_wf s s' : rtc mstep s s' → store_wf s → store_wf s'.
Proof. induction 1 as [|s1 s2 s3 H12 _ IH]; eauto using mstep_wf. Qed.

(** A successful admission returns a stored Turn of the candidate's scope. *)
Lemma Admit_stored ctx c d s r s' :
  store_wf s → Admit ctx c d s = (Ok r, s') →
  s'.(ms_turns) !! r.(arec_Turn).(turn_ID) = Some r.(arec_Turn)
  ∧ scopeOf r.(arec_Turn) = scopeOf c
  ∧ r.(arec_Turn).(turn_CommandDigest) = c.(turn_CommandDigest).
Proof.
  intros Hwf (_ & _ & [(id & Hid & -> & -> & Hdig)|(e & _ & Hf & _ & -> & ->)])%Admit_Ok; simpl.
  - destruct (wf_idem s Hwf _ _ Hid) as (t & Ht & Hsc). rewrite Ht in *. simpl in *.
    destruct (wf_turn s Hwf id t Ht) as [-> _]. done.
  - by rewrite lookup_insert_eq.
Qed.

(** Admitting a scope that is taken replays its Turn or reports a conflict. *)
Lemma Admit_replay s c d id t :
  store_wf s → s.(ms_turns) !! id = Some t → scopeOf t = scopeOf c →
  Turn_Validate c = None → admissionLifecycle c = true → EventDraft_Validate d = None →
  Admit background c d s =
    (if bool_decide (t.(turn_CommandDigest) = c.(turn_CommandDigest))
     then Ok (mkAdmissionRecord t false) else Err ErrIdempotencyConflict, s).
Proof.
  intros Hwf Ht Hsc Hv Hl Hd. pose proof (wf_scope s Hwf id t Ht) as Hidem.
  rewrite Hsc in Hidem. unfold Admit, atomic. simpl. rewrite Hv, Hl, Hd, Hidem, Ht. simpl.
  by case_bool_decide.
Qed.
