(* ===== verification/MemoryStoreProgress.v ===== *)
(** * MemoryStore: legal calls succeed

    The invariant says what a successful call writes.  This file shows that the
    checks a store repeats on its own output (the event envelope it builds, the
    Turn it is about to write) never reject a call that the state machine, the
    clock and the sequence limit allow, so the outcome of every mutating call
    is determined by its documented guards alone. *)

From Stdlib Require Import Ascii.
From S2P Require Import Prelude GoText GoJson AgentContract TurnTypes MemoryStore MemoryStoreFacts.

Lemma validateIdentifier_None v :
  validateIdentifier v = None ↔ TrimSpace v = v ∧ v ≠ "".
Proof.
  unfold validateIdentifier. rewrite first_error_None, !Forall_cons, !when_None.
  rewrite bool_decide_eq_false, negb_false_iff, bool_decide_eq_true.
  split; [intros (? & H & _); split; congruence|intros [-> ?]; done].
Qed.

Lemma deterministicEventID_valid id n :
  validateIdentifier id = None → 0 ≤ n → validateIdentifier (deterministicEventID id n) = None.
Proof.
  rewrite !validateIdentifier_None. intros [Ht Hne] Hn. unfold deterministicEventID.
  destruct (FormatInt_snoc n Hn) as (m & z & -> & Hz & Hz').
  rewrite String_app. split; [by apply TrimSpace_extend|]. by destruct id.
Qed.

Lemma EventDraft_Validate_envelope d :
  EventDraft_Validate d = None →
  validateIdentifier d.(draft_Type) = None
  ∧ (len d.(draft_Data) =? 0) || negb (json_valid d.(draft_Data)) = false
  ∧ Forall (.= None) (map validateIdentifier d.(draft_ResourceRefs)).
Proof.
  unfold EventDraft_Validate. rewrite first_error_None, Forall_app, !Forall_cons, when_None.
  intros ((? & ? & _) & Hrefs). split_and!; [by eauto with go|done|].
  rewrite Forall_forall in Hrefs |- *. intros v (r & -> & Hr)%list_elem_of_fmap.
  apply validateText_identifier, Hrefs, list_elem_of_fmap. eauto.
Qed.

(** [buildEvent] fails only on an exhausted sequence. *)
Lemma buildEvent_total t n d :
  validatePathSegment t.(turn_ID) MaxTurnIDBytes = None →
  EventPluginRef_Validate t.(turn_Plugin) = None → EventDraft_Validate d = None →
  1 ≤ n ≤ MaxDurableSequence → ∃ e, buildEvent t n d = Ok e.
Proof.
  intros Hid Hpl (Hty & Hdata & Hrefs)%EventDraft_Validate_envelope Hn. unfold buildEvent.
  destruct (Z.eqb_spec n 0); [lia|]. destruct (Z.ltb_spec MaxDurableSequence n); [lia|].
  simpl negb. cbv iota.
  match goal with |- context [EventEnvelope_Validate ?e] =>
    assert (EventEnvelope_Validate e = None) as ->; [|by eexists] end.
  unfold EventEnvelope_Validate. rewrite first_error_None, Forall_app, !Forall_cons, !when_None.
  cbn [ev_SchemaVersion ev_FrameKind ev_EventID ev_TurnID ev_Sequence ev_Plugin ev_Type
    ev_Visibility ev_ResourceRefs ev_Data].
  split_and!; try done.
  - apply deterministicEventID_valid; [eauto with go|lia].
  - eauto with go.
  - by apply Z.eqb_neq.
Qed.

Lemma nextEventLocked_total s t (evs : list EventEnvelope) d :
  turn_ok t → EventDraft_Validate d = None →
  s.(ms_lastSequence) !! t.(turn_ID) = Some (Z.of_nat (length evs)) → evs ≠ [] →
  nextEventLocked s t d =
    if Z.of_nat (length evs) <? MaxDurableSequence
    then buildEvent t (Z.of_nat (length evs) + 1) d else Err ErrSequenceExhausted.
Proof.
  intros Hok Hd Hseq Hne. unfold nextEventLocked. rewrite Hseq. simpl default.
  assert (0 < Z.of_nat (length evs)) by (destruct evs; simpl; [done|lia]).
  destruct (Z.ltb_spec 0 (Z.of_nat (length evs))); [|lia].
  destruct (Z.ltb_spec (Z.of_nat (length evs)) MaxDurableSequence),
    (Z.leb_spec MaxDurableSequence (Z.of_nat (length evs))); try lia; simpl; [|done].
  rewrite u64_small; [done|]. unfold MaxDurableSequence in *. lia.
Qed.

(** ** The Turn a legal transition writes validates *)

Lemma turn_ok_Validate t :
  turn_ok t → validateBoundedText t.(turn_IdempotencyKey) MaxIdempotencyKeyBytes = None →
  validateCommandDigest t.(turn_CommandDigest) = None → Turn_Validate t = None.
Proof.
  intros [] Hk Hd. unfold Turn_Validate. rewrite first_error_None, !Forall_cons, !when_None.
  rewrite !holds_at_false. setoid_rewrite holds_at_false. unfold IsZero, Before, After.
  split_and!; try done.
  - by rewrite ok_status.
  - apply orb_false_iff. by rewrite !Z.eqb_neq.
  - by apply Z.ltb_ge.
  - intros x Hx. apply ok_started in Hx. apply Z.ltb_ge. lia.
  - intros x Hx. apply ok_cancel in Hx. apply Z.ltb_ge. lia.
  - intros x Hx. apply ok_finished in Hx. apply Z.ltb_ge. lia.
  - intros x Hx y Hy. apply Z.ltb_ge. eauto.
  - intros x Hx. apply ok_started in Hx. apply Z.ltb_ge. lia.
  - intros x Hx. apply ok_cancel in Hx. apply Z.ltb_ge. lia.
  - intros x Hx. apply ok_finished in Hx. apply Z.ltb_ge. lia.
  - apply negb_false_iff, Bool.eqb_true_iff, eq_iff_eq_true. by rewrite bool_decide_eq_true.
  - apply andb_false_iff. destruct (decide (turn_Status t = TurnStatusQueued)) as [e|e];
      [right|left; by apply bool_decide_eq_false].
    apply bool_decide_eq_false. rewrite (ok_queued e). by intros [].
  - apply andb_false_iff. destruct (decide (turn_Status t = TurnStatusRunning)) as [e|e];
      [right|left; by apply bool_decide_eq_false].
    apply bool_decide_eq_false. destruct (ok_running e) as [? ->]. done.
  - apply andb_false_iff. destruct (decide (turn_Status t = TurnStatusStopped)) as [e|e];
      [right|left; by apply bool_decide_eq_false].
    apply bool_decide_eq_false. destruct (ok_stopped e) as [? ->]. done.
Qed.

Lemma Turn_Validate_keys t :
  Turn_Validate t = None →
  validateBoundedText t.(turn_IdempotencyKey) MaxIdempotencyKeyBytes = None
  ∧ validateCommandDigest t.(turn_CommandDigest) = None.
Proof.
  unfold Turn_Validate. rewrite first_error_None, !Forall_cons. tauto.
Qed.

Lemma CanTransition_Valid from to : CanTransition from to = true → TurnStatus_Valid to = true.
Proof.
  unfold CanTransition. destruct (TurnStatus_Valid from), (TurnStatus_Valid to); done.
Qed.

Lemma transitioned_Validate t to at_ :
  Turn_Validate t = None → CanTransition t.(turn_Status) to = true → t.(turn_Status) ≠ to →
  (to = TurnStatusStopped → is_Some t.(turn_CancelRequestedAt)) →
  t.(turn_UpdatedAt) ≤ at_ → at_ ≠ 0 →
  Turn_Validate (transitioned t to at_) = None.
Proof.
  intros Hv Hc Hne Hst Hat H0. destruct (Turn_Validate_keys t Hv).
  apply Turn_Validate_ok in Hv. apply turn_ok_Validate; [|done..].
  pose proof (CanTransition_Valid _ _ Hc) as Hto.
  assert (Hnt : TurnStatus_Terminal t.(turn_Status) = false).
  { destruct (TurnStatus_Terminal _) eqn:E; [|done]. by apply CanTransition_terminal in Hc. }
  assert (Hf : t.(turn_FinishedAt) = None).
  { apply eq_None_not_Some. rewrite <- (ok_terminal t Hv). by rewrite Hnt. }
  assert (Hq : to ≠ TurnStatusQueued).
  { intros ->. apply CanTransition_spec in Hc as [_ [?|[[_ Hx]|[_ Hx]]]];
      [congruence|by destruct_or! Hx|done]. }
  destruct Hv. unfold transitioned. split; simpl; try done; try lia.
  - intros s. case_match; [intros [= <-]; lia|]. intros Hs%ok_started. lia.
  - intros c Hcc%ok_cancel. lia.
  - intros f. case_match; [intros [= <-]; lia|]. by rewrite Hf.
  - rewrite Hf. intros s f Hs. destruct (TurnStatus_Terminal to); [|done]. intros [= <-].
    case_match; simplify_eq; [lia|]. apply ok_started in Hs. lia.
  - rewrite Hf. destruct (TurnStatus_Terminal to); (split; [done|]); [done|]. by intros [].
  - intros ->. rewrite bool_decide_eq_true_2 by done. simpl. case_bool_decide; eauto.
    by apply is_Some_iff_not_None.
Qed.

Lemma cancelled_Validate t at_ :
  Turn_Validate t = None → TurnStatus_Terminal t.(turn_Status) = false →
  t.(turn_UpdatedAt) ≤ at_ → at_ ≠ 0 → Turn_Validate (cancelled t at_) = None.
Proof.
  intros Hv Hnt Hat H0. destruct (Turn_Validate_keys t Hv).
  apply Turn_Validate_ok in Hv. apply turn_ok_Validate; [|done..].
  destruct Hv. unfold cancelled. split; simpl; try done; try lia; eauto.
  - intros s Hs%ok_started. lia.
  - intros c [= <-]. lia.
  - intros f Hf%ok_finished. lia.
Qed.

(** The next event of a stored Turn whose successor state validates. *)
Lemma nextEvent_succeeds s id t t' evs d :
  store_wf s → s.(ms_turns) !! id = Some t → s.(ms_events) !! id = Some evs →
  same_identity t t' → Turn_Validate t' = None → EventDraft_Validate d = None →
  Z.of_nat (length evs) < MaxDurableSequence →
  ∃ e, nextEventLocked s t' d = Ok e ∧ e.(ev_Sequence) = Z.of_nat (length evs) + 1.
Proof.
  intros Hwf Ht Hevs (Hid & _) Hv%Turn_Validate_ok Hd Hmax.
  destruct (wf_turn s Hwf id t Ht) as [Htid _].
  destruct (wf_log s Hwf id t Ht) as (evs' & Hevs' & Hne & _ & Hseq & _). simplify_eq.
  rewrite (nextEventLocked_total s t' evs d); [|done..|congruence|done].
  rewrite (proj2 (Z.ltb_lt _ _) Hmax).
  destruct (buildEvent_total t' (Z.of_nat (length evs) + 1) d) as [e He];
    [apply Hv|apply Hv|done|lia|].
  exists e. split; [done|]. by apply buildEvent_Ok in He as (_&_&?&_).
Qed.

Lemma stop_guard t to :
  (to = TurnStatusStopped → is_Some t.(turn_CancelRequestedAt)) →
  bool_decide (to = TurnStatusStopped) && bool_decide (t.(turn_CancelRequestedAt) = None) = false.
Proof.
  intros H. apply andb_false_iff. case_bool_decide as Hs; [right|by left].
  destruct (H Hs) as [c ->]. done.
Qed.

(** A derived event id is a valid replay cursor. *)
Lemma deterministicEventID_bounded id n :
  validatePathSegment id MaxTurnIDBytes = None → 0 ≤ n ≤ MaxDurableSequence →
  validateBoundedText (deterministicEventID id n) MaxEventIDBytes = None.
Proof.
  intros Hid Hn. unfold MaxDurableSequence in Hn.
  assert (Hlen : len (deterministicEventID id n) ≤ 276).
  { unfold deterministicEventID. rewrite !len_app. pose proof (FormatInt_len n ltac:(lia)).
    assert (len id ≤ 256); [|change (len ":") with 1; lia].
    apply validatePathSegment_bounded in Hid. unfold validateBoundedText in Hid.
    rewrite first_error_None, !Forall_cons, when_None in Hid. destruct Hid as (_ & Hl & _).
    unfold MaxTurnIDBytes in Hl. bool_hyps. lia. }
  pose proof (deterministicEventID_valid id n ltac:(eauto with go) ltac:(lia)) as Hv.
  unfold validateIdentifier in Hv. rewrite first_error_None, !Forall_cons in Hv.
  destruct Hv as (H1 & H2 & _).
  unfold validateBoundedText, validateText, MaxEventIDBytes.
  rewrite !first_error_None, !Forall_cons, !when_None, !first_error_None, !Forall_cons.
  split_and!; try done; try (by apply Z.ltb_ge; lia). apply when_None, Z.ltb_ge. lia.
Qed.

(** ** MemoryStore: replay pages

    On a well-formed log, event number [i] has sequence [i+1], so a page after
    cursor [a] is a slice of the log.  This file proves it of the code's page
    loop and cursor search, and states what [Replay] returns. *)

(** The slice a page should contain: [limit] events after sequence [after]. *)
Definition log_after (after : Sequence) (evs : list EventEnvelope) : list EventEnvelope :=
  drop (Z.to_nat after) evs.

Definition page_of (after : Sequence) (limit : Z) (evs : list EventEnvelope)
    : list EventEnvelope :=
  take (Z.to_nat limit) (log_after after evs).

(** ** The page loop *)

Lemma replayPage_skip after limit acc evs k :
  (∀ i e, evs !! i = Some e → e.(ev_Sequence) = k + Z.of_nat i + 1) → k < after →
  replayPage after limit acc evs
  = replayPage after limit acc (drop (Z.to_nat (after - k)) evs).
Proof.
  revert k. induction evs as [|e evs IH]; intros k Hseq Hk; [by rewrite drop_nil|].
  cbn [replayPage]. pose proof (Hseq 0%nat e eq_refl) as Hs.
  destruct (Z.ltb_spec after e.(ev_Sequence)); [lia|].
  replace (Z.to_nat (after - k)) with (S (Z.to_nat (after - (k + 1)))) by lia.
  cbn [drop]. destruct (decide (k + 1 < after)).
  - apply IH; [|lia]. intros i e' He'. pose proof (Hseq (S i) e' He'). lia.
  - replace (Z.to_nat (after - (k + 1))) with 0%nat by lia. done.
Qed.

Lemma replayPage_take after limit acc evs :
  (∀ i e, evs !! i = Some e → after < e.(ev_Sequence)) →
  Z.of_nat (length acc) ≤ limit →
  replayPage after limit acc evs =
    (acc ++ take (Z.to_nat limit - length acc) evs,
     limit <? Z.of_nat (length acc) + Z.of_nat (length evs)).
Proof.
  revert acc. induction evs as [|e evs IH]; intros acc Hseq Hacc; cbn [replayPage].
  { rewrite take_nil, app_nil_r. f_equal. symmetry. apply Z.ltb_ge. simpl. lia. }
  destruct (Z.ltb_spec after e.(ev_Sequence)) as [_|Hge];
    [|specialize (Hseq 0%nat e eq_refl); lia].
  destruct (Z.eqb_spec (Z.of_nat (length acc)) limit) as [Heq|Hne].
  - replace (Z.to_nat limit - length acc)%nat with 0%nat by lia.
    rewrite app_nil_r. f_equal. symmetry. apply Z.ltb_lt. simpl. lia.
  - rewrite IH; [|by intros i e' He'; apply (Hseq (S i))|rewrite length_app; simpl; lia].
    rewrite length_app. simpl.
    replace (Z.to_nat limit - length acc)%nat
      with (S (Z.to_nat limit - (length acc + 1)))%nat by lia.
    simpl. rewrite <- app_assoc. simpl. f_equal. f_equal. lia.
Qed.

Lemma replayPage_log t after limit evs :
  log_ok t evs → 0 ≤ after → 0 < limit →
  replayPage after limit [] evs =
    (page_of after limit evs, after + limit <? Z.of_nat (length evs)).
Proof.
  intros Hlog Ha Hl.
  assert (Hseq : ∀ i e, evs !! i = Some e → e.(ev_Sequence) = 0 + Z.of_nat i + 1).
  { intros i e He. destruct (Hlog i e He) as (_&_&Hs&_). lia. }
  assert (Hskip : replayPage after limit [] evs = replayPage after limit [] (log_after after evs)).
  { unfold log_after. destruct (decide (0 < after)).
    - rewrite (replayPage_skip after limit [] evs 0) by done. by rewrite Z.sub_0_r.
    - replace (Z.to_nat after) with 0%nat by lia. done. }
  rewrite Hskip, replayPage_take; [|intros i e He|simpl; lia].
  - unfold page_of, log_after. cbn [length]. rewrite Nat.sub_0_r. f_equal.
    rewrite length_drop. apply eq_iff_eq_true. rewrite !Z.ltb_lt. lia.
  - unfold log_after in He. rewrite lookup_drop in He.
    apply Hseq in He. lia.
Qed.

(** ** Windows and cursors *)

Lemma windowOf_log t evs :
  log_ok t evs → evs ≠ [] → windowOf evs = mkReplayWindow 1 (Z.of_nat (length evs)).
Proof.
  intros Hlog Hne. unfold windowOf. destruct evs as [|e evs]; [done|]. cbn [head].
  rewrite last_lookup. destruct (lookup_lt_is_Some_2 (e :: evs) (pred (length (e :: evs))))
    as [l Hl]; [simpl; lia|].
  rewrite Hl. destruct (Hlog 0%nat e eq_refl) as (_&_&He&_).
  destruct (Hlog _ _ Hl) as (_&_&Hs&_). rewrite He, Hs. f_equal. simpl. lia.
Qed.

Lemma deterministicEventID_inj id n m :
  deterministicEventID id n = deterministicEventID id m → n = m.
Proof.
  unfold deterministicEventID. intros H%String.app_inj%String.app_inj. by apply FormatInt_inj.
Qed.

(** Resuming by event id is resuming by that event's sequence. *)
Lemma resolveCursor_id t evs i e a :
  log_ok t evs → evs !! i = Some e → e.(ev_EventID) ≠ "" →
  resolveCursor evs (mkReplayCursor e.(ev_EventID) a)
  = Ok (Z.max (default 0 a) (Z.of_nat i + 1)).
Proof.
  intros Hlog He Hne. unfold resolveCursor. cbn [cur_LastEventID cur_AfterSequence].
  rewrite bool_decide_eq_false_2 by done.
  destruct (Hlog i e He) as (_&_&Hs&Hid&_).
  assert (Hfind : list_find (fun e' => e'.(ev_EventID) = e.(ev_EventID)) evs = Some (i, e)).
  { apply list_find_Some. split_and!; [done..|]. intros j y Hj Hlt Heq.
    destruct (Hlog j y Hj) as (_&_&_&Hidj&_). rewrite Hid, Hidj in Heq.
    apply deterministicEventID_inj in Heq. lia. }
  rewrite Hfind. f_equal. rewrite Hs.
  destruct (Z.ltb_spec (default 0 a) (Z.of_nat i + 1)); lia.
Qed.

(** ** What Replay returns *)

(** The answer for a resolved cursor [after] on the log [evs] of Turn [t]. *)
Definition replay_answer (t : Turn) (evs : list EventEnvelope) (after limit : Z)
    : result ReplayRecord :=
  if after <=? Z.of_nat (length evs) then
    Ok {| rec_Turn := t; rec_AfterSequence := after;
          rec_Window := mkReplayWindow 1 (Z.of_nat (length evs));
          rec_Events := page_of after limit evs;
          rec_HasMore := after + limit <? Z.of_nat (length evs) |}
  else Err ErrReplayCursorAhead.

Lemma Replay_resolved s p th id q t evs after :
  store_wf s → ownedTurn s p th id = Some t → s.(ms_events) !! id = Some evs →
  ReplayQuery_Validate q = None → resolveCursor evs q.(qry_Cursor) = Ok after → 0 ≤ after →
  Replay background p th id q s = (replay_answer t evs after q.(qry_Limit), s).
Proof.
  intros Hwf Hown Hevs Hq Hcur Ha. pose proof Hown as (Ht & _)%ownedTurn_Some.
  destruct (wf_log s Hwf id t Ht) as (evs' & Hevs' & Hne & Hlog & _ & Hmax). simplify_eq.
  assert (Hlim : 0 < q.(qry_Limit)).
  { unfold ReplayQuery_Validate in Hq. rewrite first_error_None, !Forall_cons, !when_None in Hq.
    destruct Hq as (_&_&Hl&_). bool_hyps. lia. }
  unfold Replay, atomic, replay_answer. simpl.
  rewrite Hq, Hown, Hevs. simpl. rewrite Hcur, (windowOf_log t evs) by done.
  unfold ReplayWindow_Empty. simpl. rewrite (replayPage_log t) by done.
  destruct (Z.ltb_spec (Z.of_nat (length evs)) after) as [Hgt|Hle];
    destruct (Z.leb_spec after (Z.of_nat (length evs))); try lia; [done|].
  change (u64 (1 - 1)) with 0.
  destruct (Z.ltb_spec after 0); [lia|]. rewrite andb_false_r. done.
Qed.

(** Every page is a valid event sequence of the contract, and its window too. *)
Lemma log_slice_valid t evs n m :
  log_ok t evs → ValidateEventSequence (take m (drop n evs)) = None.
Proof.
  intros Hlog.
  assert (Hsl : ∀ i e, take m (drop n evs) !! i = Some e → event_ok t (n + i) e).
  { intros i e. rewrite lookup_take_Some, lookup_drop. intros [He _]. by apply Hlog. }
  apply ValidateEventSequence_None. split_and!.
  - apply Forall_forall. intros e (i & He)%list_elem_of_lookup. by apply Hsl in He as [? _].
  - intros e1 e2 (i & H1)%list_elem_of_lookup (j & H2)%list_elem_of_lookup.
    apply Hsl in H1 as (_ & -> & _). by apply Hsl in H2 as (_ & -> & _).
  - intros i e1 e2 H1 H2. apply Hsl in H1 as (_&_&->&_). apply Hsl in H2 as (_&_&->&_). lia.
  - apply NoDup_alt. intros i j x Hi Hj. rewrite list_lookup_fmap in Hi, Hj.
    apply fmap_Some in Hi as (e1 & H1 & ->). apply fmap_Some in Hj as (e2 & H2 & Heq).
    apply Hsl in H1 as (_&_&_&Hid1&_). apply Hsl in H2 as (_&_&_&Hid2&_).
    rewrite Hid1, Hid2 in Heq. apply deterministicEventID_inj in Heq. lia.
Qed.

(** ** Valid cursors *)

Lemma ReplayQuery_Validate_sequence a limit :
  1 ≤ limit ≤ 1000 → (∀ n, a = Some n → n ≤ MaxDurableSequence) →
  ReplayQuery_Validate (mkReplayQuery (mkReplayCursor "" a) limit) = None.
Proof.
  intros Hl Ha. unfold ReplayQuery_Validate. rewrite first_error_None, !Forall_cons, !when_None.
  cbn [qry_Cursor qry_Limit cur_LastEventID cur_AfterSequence].
  rewrite holds_at_false. split_and!; try done.
  - apply orb_false_iff. lia.
  - intros n Hn. apply Z.ltb_ge. auto.
Qed.

Lemma ReplayQuery_Validate_id v limit :
  1 ≤ limit ≤ 1000 → validateBoundedText v MaxEventIDBytes = None →
  ReplayQuery_Validate (mkReplayQuery (mkReplayCursor v None) limit) = None.
Proof.
  intros Hl Hv. unfold ReplayQuery_Validate. rewrite first_error_None, !Forall_cons, !when_None.
  cbn [qry_Cursor qry_Limit cur_LastEventID cur_AfterSequence holds_at]. rewrite Hv.
  pose proof (proj1 (validateIdentifier_None v) ltac:(eauto with go)) as [Ht _].
  split_and!; try done; [|by case_bool_decide|apply orb_false_iff; lia].
  unfold ReplayCursor_Validate. cbn [cur_LastEventID]. rewrite when_None, Ht. by rewrite bool_decide_eq_true_2.
Qed.

Lemma window_valid (evs : list EventEnvelope) :
  evs ≠ [] → ReplayWindow_Validate (mkReplayWindow 1 (Z.of_nat (length evs))) = None.
Proof.
  intros Hne. unfold ReplayWindow_Validate, ReplayWindow_Empty. simpl.
  destruct evs as [|e evs]; [done|]. simpl length.
  rewrite (proj2 (Z.eqb_neq (Z.of_nat (S (length evs))) 0)) by lia.
  by rewrite (proj2 (Z.ltb_ge (Z.of_nat (S (length evs))) 1)) by lia.
Qed.
