(* ===== verification/Fixtures.v ===== *)
(** * Concrete Turns and stores used by the witnesses

    One Turn of one principal taken through admission, start, two domain
    events, a cancellation and a stop, each state computed by the operations
    themselves. *)

From Stdlib Require Import Ascii.
From S2P Require Import Prelude GoText GoJson AgentContract TurnTypes MemoryStore MemoryStoreFacts.

Definition demoPlugin : EventPluginRef := mkEventPluginRef "image" "1.0.0" "sha256:abc".

Definition demoTurn : Turn :=
  mkTurn "turn_1" "user-1" "thread-1" "key-1" "digest-1" demoPlugin TurnStatusQueued
    None 100 100 None None.

(** A retry of the same command under a freshly minted id, and a different
    command under the same key. *)
Definition demoRetry : Turn :=
  mkTurn "turn_2" "user-1" "thread-1" "key-1" "digest-1" demoPlugin TurnStatusQueued
    None 900 900 None None.

Definition demoOther : Turn :=
  mkTurn "turn_3" "user-1" "thread-1" "key-1" "digest-2" demoPlugin TurnStatusQueued
    None 900 900 None None.

Definition demoData : string :=
  of_chars ["{"; "034"; "a"; "034"; ":"; "1"; "}"]%char.

Definition demoDraft : EventDraft := mkEventDraft "image.progress" ["asset-1"] demoData.

Definition after_op {A} (r : result A * MemoryStore) : MemoryStore := snd r.

Definition demoAdmitted : MemoryStore :=
  Eval vm_compute in after_op (Admit background demoTurn demoDraft NewMemoryStore).
Definition demoRunning : MemoryStore :=
  Eval vm_compute in
    after_op (Transition background "turn_1" TurnStatusRunning 200 demoDraft demoAdmitted).
Definition demoAppended : MemoryStore :=
  Eval vm_compute in after_op (AppendEvent background "turn_1" demoDraft demoRunning).
Definition demoCancelled : MemoryStore :=
  Eval vm_compute in
    after_op (RequestCancel background "user-1" "thread-1" "turn_1" 300 demoDraft demoAppended).
Definition demoStopped : MemoryStore :=
  Eval vm_compute in
    after_op (Transition background "turn_1" TurnStatusStopped 400 demoDraft demoCancelled).

Lemma demo_step_admit : mstep NewMemoryStore demoAdmitted.
Proof.
  eapply (mstep_admit _ background demoTurn demoDraft). vm_compute. reflexivity.
Qed.

Lemma demo_step_running : mstep demoAdmitted demoRunning.
Proof.
  eapply (mstep_transition _ background "turn_1" TurnStatusRunning 200 demoDraft).
  vm_compute. reflexivity.
Qed.

Lemma demo_step_append : mstep demoRunning demoAppended.
Proof. eapply (mstep_append _ background "turn_1" demoDraft). vm_compute. reflexivity. Qed.

Lemma demo_step_cancel : mstep demoAppended demoCancelled.
Proof.
  eapply (mstep_cancel _ background "user-1" "thread-1" "turn_1" 300 demoDraft).
  vm_compute. reflexivity.
Qed.

Lemma demo_step_stop : mstep demoCancelled demoStopped.
Proof.
  eapply (mstep_transition _ background "turn_1" TurnStatusStopped 400 demoDraft).
  vm_compute. reflexivity.
Qed.

Lemma demoAdmitted_reachable : reachable demoAdmitted.
Proof. apply rtc_once, demo_step_admit. Qed.

Lemma demo_running_to_stopped : rtc mstep demoRunning demoStopped.
Proof.
  eapply rtc_l; [apply demo_step_append|]. eapply rtc_l; [apply demo_step_cancel|].
  apply rtc_once, demo_step_stop.
Qed.

Lemma demoRunning_reachable : reachable demoRunning.
Proof. eapply rtc_r; [apply demoAdmitted_reachable|apply demo_step_running]. Qed.

Lemma demoAppended_reachable : reachable demoAppended.
Proof. eapply rtc_r; [apply demoRunning_reachable|apply demo_step_append]. Qed.

Lemma demoStopped_reachable : reachable demoStopped.
Proof. unfold reachable. etrans; [apply demoRunning_reachable|apply demo_running_to_stopped]. Qed.

#[export] Hint Resolve demoAdmitted_reachable demoRunning_reachable demoAppended_reachable
  demoStopped_reachable demo_running_to_stopped : go.

(** The Turn and log of a computed store. *)
Definition turnIn (s : MemoryStore) (id : TurnID) : Turn := default zeroTurn (s.(ms_turns) !! id).
Definition eventsIn (s : MemoryStore) (id : TurnID) : list EventEnvelope :=
  default [] (s.(ms_events) !! id).
