(* ===== verification/MemoryStoreTheorems.v ===== *)
(** * MemoryStore: theorems

    The correctness properties of service/agentturn/memory_store.go over every
    interleaving of calls, with a witness for each on the states of
    [Fixtures]. *)

From S2P Require Import Prelude GoText GoJson AgentContract TurnTypes MemoryStore MemoryStoreFacts MemoryStoreProgress Fixtures.

(** ** Invariant and history *)

(** C33: after any sequence of store calls, whatever their arguments, contexts
    and outcomes, the store is well formed: every stored Turn validates and is
    stored under its own id, the idempotency index and the Turn table agree in
    both directions, and every Turn has a gap-free log [1..n] of validated
    events that carry its id, its plugin snapshot and the derived event ids. *)
Theorem memory_store_invariant s : reachable s → store_wf s.
Proof. apply reachable_wf. Qed.

Lemma memory_store_invariant_witness :
  reachable demoStopped ∧ store_wf demoStopped ∧ length (eventsIn demoStopped "turn_1") = 5%nat.
Proof.
  split; [auto with go|]. split; [apply memory_store_invariant; auto with go|reflexivity].
Defined.

(** Between any two states of a run, a Turn keeps its identity, owner,
    idempotency key, digest, plugin snapshot and admission time; its status
    has moved along [CanTransition]; a cancellation intent and a start time
    are never rewritten; its log has only been appended to; and once terminal,
    neither the Turn nor its log ever changes again. *)
Theorem memory_store_history s s' id t evs :
  rtc mstep s s' → s.(ms_turns) !! id = Some t → s.(ms_events) !! id = Some evs →
  ∃ t' suffix, s'.(ms_turns) !! id = Some t' ∧ turn_evolves t t'
    ∧ s'.(ms_events) !! id = Some (evs ++ suffix)
    ∧ (TurnStatus_Terminal t.(turn_Status) = true → t' = t ∧ suffix = []).
Proof.
  intros Hrun Ht He.
  destruct (run_evolves _ _ Hrun _ _ _ Ht He) as (t' & sf & Ht' & Hev & Hevs & Hterm).
  exists t', sf. split_and!; try done. intros Hx. split; [|auto]. by apply Hev.
Qed.

Lemma memory_store_history_witness :
  ∃ t' suffix, demoStopped.(ms_turns) !! "turn_1" = Some t'
    ∧ turn_evolves (turnIn demoRunning "turn_1") t'
    ∧ demoStopped.(ms_events) !! "turn_1" = Some (eventsIn demoRunning "turn_1" ++ suffix).
Proof.
  destruct (memory_store_history demoRunning demoStopped "turn_1"
    (turnIn demoRunning "turn_1") (eventsIn demoRunning "turn_1"))
    as (t' & sf & H1 & H2 & H3 & _); [auto with go|reflexivity|reflexivity|].
  exists t', sf. auto.
Defined.

(** ** Admission *)

(** Admission is exactly-once per idempotency scope.  After a successful
    admission, and after any further calls whatsoever, admitting the same
    (principal, thread, key) again never creates a second Turn: with the same
    command digest it returns the Turn of the first admission as it is now,
    with a different digest it returns [ErrIdempotencyConflict], and in both
    cases it writes nothing. *)
Theorem memory_admit_exactly_once ctx c d s r s1 s2 c' d' :
  reachable s → Admit ctx c d s = (Ok r, s1) → rtc mstep s1 s2 →
  scopeOf c' = scopeOf c → Turn_Validate c' = None → admissionLifecycle c' = true →
  EventDraft_Validate d' = None →
  ∃ t, s2.(ms_turns) !! r.(arec_Turn).(turn_ID) = Some t ∧ turn_evolves r.(arec_Turn) t
    ∧ Admit background c' d' s2 =
        (if bool_decide (c'.(turn_CommandDigest) = c.(turn_CommandDigest))
         then Ok (mkAdmissionRecord t false) else Err ErrIdempotencyConflict, s2).
Proof.
  intros Hr%reachable_wf Ha Hrun Hsc Hv Hl Hd.
  assert (Hwf1 : store_wf s1) by eauto using Admit_wf.
  destruct (Admit_stored _ _ _ _ _ _ Hr Ha) as (Ht & Hscr & Hdig).
  destruct (wf_log s1 Hwf1 _ _ Ht) as (evs & Hevs & _).
  destruct (run_evolves _ _ Hrun _ _ _ Ht Hevs) as (t & _ & Ht2 & Hev & _).
  exists t. split_and!; [done..|]. pose proof Hev as ((_ & Hs2 & Hd2 & _) & _).
  rewrite (Admit_replay s2 c' d' (turn_ID (arec_Turn r)) t); try done; [|eauto using run_wf|congruence].
  rewrite Hd2, Hdig. do 2 case_bool_decide; congruence.
Qed.

Lemma memory_admit_exactly_once_witness :
  ∃ t, Admit background demoRetry demoDraft demoStopped = (Ok (mkAdmissionRecord t false), demoStopped)
    ∧ t.(turn_ID) = "turn_1".
Proof.
  destruct (memory_admit_exactly_once background demoTurn demoDraft NewMemoryStore
    (mkAdmissionRecord demoTurn true) demoAdmitted demoStopped demoRetry demoDraft)
    as (t & _ & ((Hid & _) & _) & H).
  - apply rtc_refl.
  - vm_compute. reflexivity.
  - eapply rtc_l; [apply demo_step_running|auto with go].
  - reflexivity.
  - vm_compute. reflexivity.
  - vm_compute. reflexivity.
  - vm_compute. reflexivity.
  - exists t. split; [exact H|exact Hid].
Defined.

(** ** Legal transitions succeed *)

(** A legal transition always succeeds: on an existing Turn, an edge of
    [CanTransition] other than a self-loop (with a recorded cancellation intent
    when the target is stopped), at a time not before the last update, with a
    valid draft and a log below the sequence limit, writes exactly the
    transitioned Turn and appends exactly one event numbered one past the log.
    The validations the store repeats on its own output cannot fail. *)
Theorem memory_transition_succeeds s id t evs to at_ d :
  reachable s → s.(ms_turns) !! id = Some t → s.(ms_events) !! id = Some evs →
  CanTransition t.(turn_Status) to = true → t.(turn_Status) ≠ to →
  (to = TurnStatusStopped → is_Some t.(turn_CancelRequestedAt)) →
  t.(turn_UpdatedAt) ≤ at_ → at_ ≠ 0 → EventDraft_Validate d = None →
  Z.of_nat (length evs) < MaxDurableSequence →
  ∃ e s', Transition background id to at_ d s
          = (Ok (mkTransitionResult (transitioned t to at_) true (Some e)), s')
    ∧ s'.(ms_turns) !! id = Some (transitioned t to at_)
    ∧ s'.(ms_events) !! id = Some (evs ++ [e])
    ∧ e.(ev_Sequence) = Z.of_nat (length evs) + 1.
Proof.
  intros Hwf%reachable_wf Ht Hevs Hc Hne Hst Hat H0 Hd Hmax.
  destruct (wf_turn s Hwf id t Ht) as [Hid Hv].
  pose proof (transitioned_Validate t to at_ Hv Hc Hne Hst Hat H0) as Hv'.
  destruct (nextEvent_succeeds s id t (transitioned t to at_) evs d) as (e & He & Hseq); auto with go.
  exists e, (appendLocked (writeTurn s id (transitioned t to at_)) id e).
  split_and!; [|simpl; by rewrite lookup_insert_eq|simpl; by rewrite lookup_insert_eq, Hevs|done].
  unfold Transition, atomic. simpl. unfold IsZero. rewrite (proj2 (Z.eqb_neq at_ 0) H0). simpl.
  rewrite Hd, Ht, bool_decide_eq_false_2, Hc by done.
  rewrite (stop_guard t to Hst), Hv', He. done.
Qed.

Lemma memory_transition_succeeds_witness :
  ∃ e s', Transition background "turn_1" TurnStatusCompleted 500 demoDraft demoAppended
          = (Ok (mkTransitionResult
                   (transitioned (turnIn demoAppended "turn_1") TurnStatusCompleted 500)
                   true (Some e)), s')
    ∧ e.(ev_Sequence) = 4.
Proof.
  destruct (memory_transition_succeeds demoAppended "turn_1" (turnIn demoAppended "turn_1")
    (eventsIn demoAppended "turn_1") TurnStatusCompleted 500 demoDraft)
    as (e & s' & H & _ & _ & Hs).
  - auto with go.
  - reflexivity.
  - reflexivity.
  - vm_compute. reflexivity.
  - vm_compute. discriminate.
  - vm_compute. discriminate.
  - vm_compute. discriminate.
  - discriminate.
  - vm_compute. reflexivity.
  - vm_compute. reflexivity.
  - exists e, s'. split; [exact H|exact Hs].
Defined.

(** ** Replay *)

(** Replay by sequence returns exactly the slice of the log the observer
    asked for.  For the owner and a cursor [a], the page is the next [limit]
    events after [a] (all of them when fewer remain), [HasMore] says exactly
    whether events remain after it, the window is [1..n], a cursor past the log
    is [ErrReplayCursorAhead], and the page passes the consumer-side contract
    check [ValidateEventSequence].  The read changes nothing. *)
Theorem memory_replay_slice s p th id t evs a limit :
  reachable s → ownedTurn s p th id = Some t → s.(ms_events) !! id = Some evs →
  1 ≤ limit ≤ 1000 → 0 ≤ a ≤ MaxDurableSequence →
  let n := Z.of_nat (length evs) in
  let page := take (Z.to_nat limit) (drop (Z.to_nat a) evs) in
  Replay background p th id (mkReplayQuery (mkReplayCursor "" (Some a)) limit) s =
    (if a <=? n
     then Ok (mkReplayRecord t a (mkReplayWindow 1 n) page (a + limit <? n))
     else Err ErrReplayCursorAhead, s)
  ∧ ValidateEventSequence page = None ∧ ReplayWindow_Validate (mkReplayWindow 1 n) = None.
Proof.
  intros Hwf%reachable_wf Hown Hevs Hlim Ha n page. pose proof Hown as (Ht & _)%ownedTurn_Some.
  destruct (wf_log s Hwf id t Ht) as (evs' & Hevs' & Hne & Hlog & _). simplify_eq.
  split; [|split; [by eapply log_slice_valid|by apply window_valid]].
  rewrite (Replay_resolved s p th id _ t evs a); try done; [|lia].
  apply ReplayQuery_Validate_sequence; [done|]. intros ? [= <-]. lia.
Qed.

Lemma memory_replay_slice_witness :
  Replay background "user-1" "thread-1" "turn_1"
    (mkReplayQuery (mkReplayCursor "" (Some 1)) 2) demoStopped =
  (Ok (mkReplayRecord (turnIn demoStopped "turn_1") 1 (mkReplayWindow 1 5)
         (take 2 (drop 1 (eventsIn demoStopped "turn_1"))) true), demoStopped).
Proof.
  apply (memory_replay_slice demoStopped "user-1" "thread-1" "turn_1"
    (turnIn demoStopped "turn_1") (eventsIn demoStopped "turn_1") 1 2).
  - auto with go.
  - vm_compute. reflexivity.
  - vm_compute. reflexivity.
  - split; discriminate.
  - split; discriminate.
Defined.

(** The id of every stored event is an accepted replay cursor, and
    resuming after an event by its id (SSE [Last-Event-ID]) is the same read as
    resuming by that event's sequence. *)
Theorem memory_replay_by_event_id s p th id t evs i e limit :
  reachable s → ownedTurn s p th id = Some t → s.(ms_events) !! id = Some evs →
  evs !! i = Some e → 1 ≤ limit ≤ 1000 →
  Replay background p th id (mkReplayQuery (mkReplayCursor e.(ev_EventID) None) limit) s
  = Replay background p th id
      (mkReplayQuery (mkReplayCursor "" (Some e.(ev_Sequence))) limit) s.
Proof.
  intros Hwf%reachable_wf Hown Hevs He Hlim. pose proof Hown as (Ht & _)%ownedTurn_Some.
  destruct (wf_turn s Hwf id t Ht) as [_ Hv%Turn_Validate_ok].
  destruct (wf_log s Hwf id t Ht) as (evs' & Hevs' & Hne & Hlog & _ & Hmax). simplify_eq.
  destruct (Hlog i e He) as (_ & _ & Hseq & Hid & _). pose proof (lookup_lt_Some _ _ _ He).
  assert (Hb : validateBoundedText (ev_EventID e) MaxEventIDBytes = None).
  { rewrite Hid. apply deterministicEventID_bounded; [apply Hv|lia]. }
  assert (Hn : ev_EventID e ≠ "") by (apply (validateIdentifier_None (ev_EventID e)); eauto with go).
  transitivity (replay_answer t evs (Z.of_nat i + 1) limit, s); [|symmetry].
  - apply (Replay_resolved s p th id
      (mkReplayQuery (mkReplayCursor (ev_EventID e) None) limit)); try done; [..|lia].
    + by apply ReplayQuery_Validate_id.
    + cbn [qry_Cursor]. rewrite (resolveCursor_id t evs i e None) by done. f_equal. simpl. lia.
  - apply (Replay_resolved s p th id
      (mkReplayQuery (mkReplayCursor "" (Some (ev_Sequence e))) limit)); try done; [..|lia].
    + apply ReplayQuery_Validate_sequence; [done|]. intros ? [= <-]. lia.
    + unfold resolveCursor. cbn. by rewrite Hseq.
Qed.

Lemma memory_replay_by_event_id_witness :
  Replay background "user-1" "thread-1" "turn_1"
    (mkReplayQuery (mkReplayCursor "turn_1:3" None) 10) demoStopped
  = Replay background "user-1" "thread-1" "turn_1"
      (mkReplayQuery (mkReplayCursor "" (Some 3)) 10) demoStopped.
Proof.
  apply (memory_replay_by_event_id demoStopped "user-1" "thread-1" "turn_1"
    (turnIn demoStopped "turn_1") (eventsIn demoStopped "turn_1") 2
    (nth 2 (eventsIn demoStopped "turn_1") (mkEventEnvelope 0 "" "" "" 0 demoPlugin "" "" [] "")) 10).
  - auto with go.
  - vm_compute. reflexivity.
  - vm_compute. reflexivity.
  - vm_compute. reflexivity.
  - split; discriminate.
Defined.

(** ** Ownership *)

(** A Turn is invisible to everyone but its owner: for a principal and
    thread that do not own it, status, cancellation and replay answer
    [ErrTurnNotFound], exactly as for a Turn that does not exist, and nothing
    is written. *)
Theorem memory_ownership_hidden s p th id at_ d q :
  (∀ t, s.(ms_turns) !! id = Some t → ¬ (t.(turn_PrincipalID) = p ∧ t.(turn_ThreadID) = th)) →
  at_ ≠ 0 → EventDraft_Validate d = None → ReplayQuery_Validate q = None →
  GetOwned background p th id s = (Err ErrTurnNotFound, s)
  ∧ RequestCancel background p th id at_ d s = (Err ErrTurnNotFound, s)
  ∧ Replay background p th id q s = (Err ErrTurnNotFound, s).
Proof.
  intros Hno Hat Hd Hq. assert (Hown : ownedTurn s p th id = None).
  { apply eq_None_not_Some. intros [t (Ht & ? & ?)%ownedTurn_Some]. by eapply Hno. }
  unfold GetOwned, RequestCancel, Replay, atomic. simpl. unfold IsZero.
  rewrite (proj2 (Z.eqb_neq at_ 0) Hat). simpl. by rewrite Hd, Hq, Hown.
Qed.

Lemma memory_ownership_hidden_witness :
  GetOwned background "user-2" "thread-1" "turn_1" demoRunning = (Err ErrTurnNotFound, demoRunning)
  ∧ is_Some (demoRunning.(ms_turns) !! "turn_1").
Proof.
  split; [|eexists; reflexivity].
  apply (memory_ownership_hidden demoRunning "user-2" "thread-1" "turn_1" 5 demoDraft
    (mkReplayQuery (mkReplayCursor "" None) 10)).
  - intros t Ht [Hp _]. vm_compute in Ht. injection Ht as <-. discriminate Hp.
  - discriminate.
  - vm_compute. reflexivity.
  - vm_compute. reflexivity.
Defined.
