(* ===== verification/TurnService.v ===== *)
(** * The Turn service over any durable store

    service/agentturn/store.go (the [Store] interface) and
    service/agentturn/service.go.  The service is written against the class
    [TurnStore]; what it relies on is the class [TurnStoreLaws], which
    [MemoryStore] satisfies. *)

From Stdlib Require Import Ascii.
From S2P Require Import Prelude GoText GoJson AgentContract TurnTypes MemoryStore MemoryStoreFacts MemoryStoreProgress.

(** ** The interface *)

Class TurnStore (S : Type) : Type := {
  store_Admit : context → Turn → EventDraft → op S AdmissionRecord;
  store_GetOwned : context → PrincipalID → ThreadID → TurnID → op S Turn;
  store_AppendEvent : context → TurnID → EventDraft → op S EventEnvelope;
  store_Transition : context → TurnID → TurnStatus → time → EventDraft → op S TransitionResult;
  store_RequestCancel :
    context → PrincipalID → ThreadID → TurnID → time → EventDraft → op S CancelResult;
  store_Replay : context → PrincipalID → ThreadID → TurnID → ReplayQuery → op S ReplayRecord
}.

(** One call of any operation of a store. *)
Inductive store_step {S} `{TurnStore S} (s : S) : S → Prop :=
| step_admit ctx c d r s' : store_Admit ctx c d s = (r, s') → store_step s s'
| step_get ctx p th id r s' : store_GetOwned ctx p th id s = (r, s') → store_step s s'
| step_append ctx id d r s' : store_AppendEvent ctx id d s = (r, s') → store_step s s'
| step_transition ctx id to at_ d r s' :
    store_Transition ctx id to at_ d s = (r, s') → store_step s s'
| step_cancel ctx p th id at_ d r s' :
    store_RequestCancel ctx p th id at_ d s = (r, s') → store_step s s'
| step_replay ctx p th id q r s' : store_Replay ctx p th id q s = (r, s') → store_step s s'.

(** The promises of a durable store, over an abstract view of its Turns. *)
Class TurnStoreLaws (S : Type) `{TurnStore S} : Type := {
  store_ok : S → Prop;
  store_turn : S → TurnID → option Turn;
  (* a Turn survives every later call with its identity, scope and digest *)
  law_step : ∀ s s', store_ok s → store_step s s' →
    store_ok s' ∧
    ∀ id t, store_turn s id = Some t →
      ∃ t', store_turn s' id = Some t' ∧ t'.(turn_ID) = t.(turn_ID)
            ∧ scopeOf t' = scopeOf t ∧ t'.(turn_CommandDigest) = t.(turn_CommandDigest);
  (* a stored Turn validates and is stored under its own id *)
  law_turn : ∀ s id t, store_ok s → store_turn s id = Some t →
    t.(turn_ID) = id ∧ Turn_Validate t = None;
  (* a successful admission returns a stored Turn of the candidate's scope *)
  law_admit : ∀ ctx c d s r s', store_ok s → store_Admit ctx c d s = (Ok r, s') →
    store_turn s' r.(arec_Turn).(turn_ID) = Some r.(arec_Turn)
    ∧ scopeOf r.(arec_Turn) = scopeOf c
    ∧ r.(arec_Turn).(turn_CommandDigest) = c.(turn_CommandDigest)
    ∧ (r.(arec_Created) = true → r.(arec_Turn).(turn_ID) = c.(turn_ID)
         ∧ store_turn s c.(turn_ID) = None)
    ∧ (r.(arec_Created) = false → s' = s);
  (* a failed admission wrote nothing *)
  law_admit_failed : ∀ ctx c d s e s', store_Admit ctx c d s = (Err e, s') → s' = s;
  (* admitting a scope that is taken replays its Turn or reports a conflict *)
  law_admit_replay : ∀ c d s id t, store_ok s → store_turn s id = Some t →
    scopeOf t = scopeOf c → Turn_Validate c = None → admissionLifecycle c = true →
    EventDraft_Validate d = None →
    store_Admit background c d s =
      (if bool_decide (t.(turn_CommandDigest) = c.(turn_CommandDigest))
       then Ok (mkAdmissionRecord t false) else Err ErrIdempotencyConflict, s)
}.

(** ** Kernel events *)

Definition statusEventData (status : TurnStatus) (cancellationRequested : bool) : string :=
  json_object
    (json_field "status" (marshal_string status) ::
     if cancellationRequested then [json_field "cancellationRequested" "true"] else []).

Definition statusEvent (status : TurnStatus) (cancellationRequested : bool) : EventDraft :=
  mkEventDraft EventCoreTurnStatus [] (statusEventData status cancellationRequested).

Definition cancelRequestedEvent : EventDraft :=
  mkEventDraft EventCoreTurnStatus [] (json_object [json_field "cancellationRequested" "true"]).

Definition defaultStreamURL (threadID : ThreadID) (turnID : TurnID) : string :=
  "/api/v1/agent/threads/" +:+ PathEscape threadID +:+ "/turns/" +:+ PathEscape turnID
  +:+ "/stream".

(** [randomTurnID] on the 16 bytes it read. *)
Definition randomTurnID (raw : list Z) : TurnID :=
  "turn_" +:+ of_chars (flat_map (fun b => [lower_hex (b / 16); lower_hex (b mod 16)]) raw).

(** ** The service *)

(** What the service reads from outside during one call: the id it mints and
    its clock. *)
Record ServiceEnv := mkServiceEnv {
  env_newTurnID : result TurnID;
  env_now : time
}.

(** [NewService]: the page limit is the only configured number. *)
Definition NewService (hasStore : bool) (replayPageLimit : Z) : result Z :=
  guard! hasStore else ErrText "durable turn store is required";;
  let limit := if replayPageLimit =? 0 then 256 else replayPageLimit in
  guard! negb ((limit <? 1) || (1000 <? limit))
    else ErrText "replay page limit must be between 1 and 1000";;
  Ok limit.

(** The candidate Turn [start] builds. *)
Definition startCandidate (command : StartCommand) (turnID : TurnID) (now : time) : Turn :=
  {| turn_ID := turnID;
     turn_PrincipalID := command.(start_PrincipalID);
     turn_ThreadID := command.(start_Request).(sreq_ThreadID);
     turn_IdempotencyKey := command.(start_Request).(sreq_IdempotencyKey);
     turn_CommandDigest := command.(start_CommandDigest);
     turn_Plugin := command.(start_Plugin);
     turn_Status := TurnStatusQueued;
     turn_CancelRequestedAt := None;
     turn_CreatedAt := now; turn_UpdatedAt := now;
     turn_StartedAt := None; turn_FinishedAt := None |}.

(** Everything [start] checks before it calls the store. *)
Definition startPrepare (ctx : context) (env : ServiceEnv) (command : StartCommand)
    : result Turn :=
  check! StartCommand_Validate command;;
  check! ctx 0%nat;;
  try! turnID := env.(env_newTurnID) in
  check! validatePathSegment turnID MaxTurnIDBytes;;
  guard! negb (IsZero env.(env_now)) else ErrText "durable turn clock returned zero time";;
  Ok (startCandidate command turnID env.(env_now)).

(** What [start] builds from the admission record. *)
Definition startAdmission (turn : Turn) : StartAdmissionResult :=
  mkStartAdmissionResult turn.(turn_ID) (defaultStreamURL turn.(turn_ThreadID) turn.(turn_ID)).

Definition startFinish (record : AdmissionRecord) : result StartResult :=
  let turn := record.(arec_Turn) in
  let admission := startAdmission turn in
  check! StartAdmissionResult_Validate admission;;
  Ok (mkStartResult admission turn (negb record.(arec_Created))).

(** The context checks after the service's own are the store's. *)
Definition ctx_after (n : nat) (ctx : context) : context := fun i => ctx (n + i)%nat.

Section Service.
Context {S : Type} `{TurnStore S}.

Definition start (ctx : context) (env : ServiceEnv) (command : StartCommand)
    (admission : context → Turn → EventDraft → op S AdmissionRecord) : op S StartResult :=
  fun s =>
    match startPrepare ctx env command with
    | Err e => (Err e, s)
    | Ok candidate =>
      match admission (ctx_after 1 ctx) candidate (statusEvent TurnStatusQueued false) s with
      | (Err e, s') => (Err e, s')
      | (Ok record, s') => (startFinish record, s')
      end
    end.

Definition Service_Start (ctx : context) (env : ServiceEnv) (command : StartCommand)
    : op S StartResult :=
  start ctx env command store_Admit.

Definition Service_Status (ctx : context) (request : OwnedTurnRequest) : op S Turn :=
  fun s => match OwnedTurnRequest_Validate request with
           | Some e => (Err e, s)
           | None => store_GetOwned ctx request.(oreq_PrincipalID) request.(oreq_ThreadID)
                       request.(oreq_TurnID) s
           end.

Definition Service_Attach (ctx : context) (replayPageLimit : Z) (command : AttachCommand)
    : op S ReplayRecord :=
  fun s => match AttachCommand_Validate command with
           | Some e => (Err e, s)
           | None =>
             store_Replay ctx command.(attach_PrincipalID) command.(attach_ThreadID)
               command.(attach_Request).(areq_TurnID)
               (mkReplayQuery command.(attach_Request).(areq_Cursor) replayPageLimit) s
           end.

Definition Service_AppendDomainEvent (ctx : context) (turnID : TurnID) (draft : EventDraft)
    : op S EventEnvelope :=
  fun s =>
    match first_error
            [ validatePathSegment turnID MaxTurnIDBytes; EventDraft_Validate draft;
              when (HasPrefix draft.(draft_Type) "core.") ErrReservedEventType ] with
    | Some e => (Err e, s)
    | None => store_AppendEvent ctx turnID draft s
    end.

Definition Service_Transition (ctx : context) (env : ServiceEnv) (turnID : TurnID)
    (to : TurnStatus) : op S TransitionResult :=
  fun s =>
    match first_error
            [ validatePathSegment turnID MaxTurnIDBytes;
              when (negb (TurnStatus_Valid to)) (ErrText "unknown turn status") ] with
    | Some e => (Err e, s)
    | None =>
      store_Transition ctx turnID to env.(env_now)
        (statusEvent to (bool_decide (to = TurnStatusStopped))) s
    end.

Definition Service_Cancel (ctx : context) (env : ServiceEnv) (command : CancelCommand)
    : op S CancelResult :=
  fun s => match CancelCommand_Validate command with
           | Some e => (Err e, s)
           | None =>
             store_RequestCancel ctx command.(cancel_PrincipalID) command.(cancel_ThreadID)
               command.(cancel_Request).(creq_TurnID) env.(env_now) cancelRequestedEvent s
           end.
End Service.

(** ** The admission result always validates *)

(** A string delimited by an ASCII non-space on both sides is not trimmed. *)
Lemma TrimSpace_delimited (a z : ascii) s :
  ascii_space (code a) = false → code a < 0x80 → ascii_space (code z) = false → code z < 0x80 →
  TrimSpace (String a (s +:+ String z "")) = String a (s +:+ String z "").
Proof.
  intros Ha Ha' Hz Hz'. unfold TrimSpace. cbn [chars]. unfold trim_left.
  rewrite drop_spaces_head; [|done|unfold space2; intros; lia|unfold space3; intros; lia].
  rewrite chars_app. cbn [chars].
  rewrite app_comm_cons, trim_right_ascii, <- app_comm_cons by done. simpl.
  by rewrite of_chars_snoc, of_chars_chars.
Qed.

Lemma defaultStreamURL_valid th id : validateIdentifier (defaultStreamURL th id) = None.
Proof.
  unfold defaultStreamURL.
  set (u := _ +:+ _). assert (∃ m, u = String "/" (m +:+ String "m" "")) as (m & ->).
  { exists ("api/v1/agent/threads/" +:+ PathEscape th +:+ "/turns/" +:+ PathEscape id +:+ "/strea").
    unfold u. rewrite <- !String_app, !string_app_assoc. done. }
  unfold validateIdentifier. rewrite TrimSpace_delimited by done. simpl.
  by rewrite bool_decide_eq_true_2.
Qed.

Lemma startFinish_total record :
  Turn_Validate record.(arec_Turn) = None →
  startFinish record = Ok (mkStartResult (startAdmission record.(arec_Turn))
    record.(arec_Turn) (negb record.(arec_Created))).
Proof.
  intros Hv%Turn_Validate_ok. unfold startFinish, startAdmission, StartAdmissionResult_Validate.
  cbn [adm_TurnID adm_StreamURL]. rewrite defaultStreamURL_valid.
  rewrite (validateText_identifier (turn_ID (arec_Turn record))) by eauto using ok_id with go.
  reflexivity.
Qed.

(** The candidate [start] builds satisfies the store's admission checks. *)
Lemma startPrepare_Ok ctx env command c :
  startPrepare ctx env command = Ok c →
  Turn_Validate c = None ∧ admissionLifecycle c = true
  ∧ scopeOf c = (command.(start_PrincipalID), command.(start_Request).(sreq_ThreadID),
                 command.(start_Request).(sreq_IdempotencyKey))
  ∧ c.(turn_CommandDigest) = command.(start_CommandDigest)
  ∧ env.(env_newTurnID) = Ok c.(turn_ID).
Proof.
  unfold startPrepare. intros H. repeat case_match; simplify_eq/=. bool_hyps.
  unfold StartCommand_Validate in *.
  match goal with E : first_error _ = None |- _ =>
    rewrite first_error_None, !Forall_cons in E; destruct E as (E1&E2&E3&E4&E5&E6&E7&_) end.
  split_and!; try done.
  unfold Turn_Validate, startCandidate, IsZero, Before in *. rewrite first_error_None, !Forall_cons, !when_None.
  cbn [turn_ID turn_PrincipalID turn_ThreadID turn_IdempotencyKey turn_CommandDigest turn_Plugin
    turn_Status turn_CancelRequestedAt turn_CreatedAt turn_UpdatedAt turn_StartedAt
    turn_FinishedAt holds_at].
  split_and!; try done; [|lia]. apply orb_false_iff. split; apply Z.eqb_neq; lia.
Qed.

Lemma statusEvent_valid st b :
  TurnStatus_Valid st = true → EventDraft_Validate (statusEvent st b) = None.
Proof.
  rewrite TurnStatus_Valid_cases, TurnStatus_Terminal_cases. intros Hst.
  destruct_or! Hst; subst; destruct b; vm_compute; reflexivity.
Qed.

(** ** Service theorems against the interface *)

Section ServiceLaws.
Context {S : Type} `{TurnStoreLaws S}.

Lemma run_ok s s' :
  store_ok s → rtc store_step s s' →
  store_ok s' ∧
  ∀ id t, store_turn s id = Some t →
    ∃ t', store_turn s' id = Some t' ∧ t'.(turn_ID) = t.(turn_ID)
          ∧ scopeOf t' = scopeOf t ∧ t'.(turn_CommandDigest) = t.(turn_CommandDigest).
Proof.
  intros Hok Hrun. induction Hrun as [s|s1 s2 s3 H12 _ IH]; [eauto 10|].
  destruct (law_step s1 s2 Hok H12) as [Hok2 H2]. destruct (IH Hok2) as [Hok3 H3].
  split; [done|]. intros id t Ht. destruct (H2 id t Ht) as (t2 & Ht2 & Hi & Hs & Hd).
  destruct (H3 id t2 Ht2) as (t3 & Ht3 & Hi3 & Hs3 & Hd3).
  exists t3. split_and!; congruence.
Qed.

Lemma Start_Ok ctx env command s r s' :
  store_ok s → Service_Start ctx env command s = (Ok r, s') →
  ∃ c rec, startPrepare ctx env command = Ok c
    ∧ store_Admit (ctx_after 1 ctx) c (statusEvent TurnStatusQueued false) s = (Ok rec, s')
    ∧ r = mkStartResult (startAdmission rec.(arec_Turn)) rec.(arec_Turn) (negb rec.(arec_Created)).
Proof.
  unfold Service_Start, start. intros Hok Hs.
  destruct (startPrepare _ _ _) as [c|] eqn:Hp; [|done].
  destruct (store_Admit _ _ _ _) as [[rec|e] s1] eqn:Ha; [|done].
  unfold startFinish in Hs. case_match; simplify_eq/=. by exists c, rec.
Qed.

Lemma Admit_ok ctx c d s r s' :
  store_ok s → store_Admit ctx c d s = (r, s') → store_ok s'.
Proof. intros Hok Ha. apply (law_step s s' Hok). by eapply step_admit. Qed.

Lemma scopeOf_thread t t' :
  scopeOf t = scopeOf t' → t.(turn_ThreadID) = t'.(turn_ThreadID).
Proof. unfold scopeOf. congruence. Qed.
End ServiceLaws.

(** ** MemoryStore implements the interface *)

#[export] Instance MemoryStore_TurnStore : TurnStore MemoryStore := {|
  store_Admit := Admit;
  store_GetOwned := GetOwned;
  store_AppendEvent := AppendEvent;
  store_Transition := Transition;
  store_RequestCancel := RequestCancel;
  store_Replay := Replay
|}.

Lemma store_step_mstep (s s' : MemoryStore) : store_step s s' → mstep s s'.
Proof. destruct 1; [eapply mstep_admit|eapply mstep_get|eapply mstep_append|
  eapply mstep_transition|eapply mstep_cancel|eapply mstep_replay]; eassumption. Qed.

#[export] Program Instance MemoryStore_TurnStoreLaws : TurnStoreLaws MemoryStore := {|
  store_ok := store_wf;
  store_turn := fun s id => s.(ms_turns) !! id
|}.
Next Obligation.
  intros s s' Hwf Hstep%store_step_mstep. split; [by eapply mstep_wf|].
  intros id t Ht. destruct (wf_log s Hwf id t Ht) as (evs & Hevs & _).
  destruct (mstep_evolves _ _ Hstep id t evs Ht Hevs) as (t' & _ & Ht' & ((?&?&?&_)&_) & _).
  eauto.
Qed.
Next Obligation. intros s id t Hwf. apply (wf_turn s Hwf). Qed.
Next Obligation.
  simpl. intros ctx c d s r s' Hwf
    (_ & _ & [(id & Hid & -> & -> & Hdig)|(e & _ & Hf & _ & -> & ->)])%Admit_Ok; simpl.
  - destruct (wf_idem s Hwf _ _ Hid) as (t & Ht & Hsc). rewrite Ht in *. simpl in *.
    destruct (wf_turn s Hwf id t Ht) as [-> _]. done.
  - by rewrite lookup_insert_eq.
Qed.
Next Obligation. simpl. intros ctx c d s e s' Ha. by failed Ha. Qed.
Next Obligation. simpl. intros. by eapply Admit_replay. Qed.
