(* ===== verification/ExecutionTypes.v ===== *)
(** * Execution epochs, commands and effects: service/agentturn/execution_types.go

    Attempts, fences, claim and commit commands, reclaim reasons and effect
    drafts with their validators, and the settlement request types of
    service/agentturn/settlement.go a commit command carries.  A [[]byte]
    payload is a string; an [int] or [int64] field is a [Z]. *)

From Stdlib Require Import Ascii.
From S2P Require Import Prelude GoText GoJson AgentContract TurnTypes.

(** ** Limits *)

Definition second : Z := 10 ^ 9.
Definition minute : Z := 60 * second.

Definition DefaultAttemptLeaseTTL : Z := 30 * second.
Definition DefaultClaimNextScanLimit : Z := 16.
Definition MaxClaimNextScanLimit : Z := 128.
Definition DefaultMaxTurnAttempts : Z := 3.
Definition MaxTurnAttemptsLimit : Z := 64.
Definition DefaultReclaimScanLimit : Z := 64.
Definition MaxReclaimScanLimit : Z := 512.
Definition MaxAttemptIDBytes : Z := 64.
Definition MaxWorkerIDBytes : Z := 128.
Definition MaxWorkerBuildDigestBytes : Z := 128.
Definition MaxOperationIDBytes : Z := 128.
Definition MaxEffectOutboxIDBytes : Z := 64.
Definition MaxEffectTopicBytes : Z := 128.
Definition MaxEffectDedupeKeyBytes : Z := 256.
Definition MaxEffectPayloadBytes : Z := 2 ^ 20.
Definition MaxEffectsPerOperation : Z := 64.
Definition MaxClaimPluginScopes : Z := 32.

Definition validatePrintableASCII (value : string) (maximum : Z) : validation :=
  first_error
    [ validateBoundedText value maximum;
      when (existsb (fun b => (b <? 0x20) || (0x7e <? b)) (bytes value))
        (ErrText "must contain printable ASCII only") ].

(** ** Attempts *)

Definition AttemptStatus : Type := string.
Definition AttemptStatusRunning : AttemptStatus := "running".
Definition AttemptStatusCompleted : AttemptStatus := "completed".
Definition AttemptStatusStopped : AttemptStatus := "stopped".
Definition AttemptStatusFailed : AttemptStatus := "failed".
Definition AttemptStatusTimeout : AttemptStatus := "timeout".
Definition AttemptStatusExpired : AttemptStatus := "expired".

Definition AttemptStatus_Valid (s : AttemptStatus) : bool :=
  bool_decide (s ∈ [AttemptStatusRunning; AttemptStatusCompleted; AttemptStatusStopped;
                    AttemptStatusFailed; AttemptStatusTimeout; AttemptStatusExpired]).

Definition AttemptStatus_Terminal (s : AttemptStatus) : bool :=
  AttemptStatus_Valid s && negb (bool_decide (s = AttemptStatusRunning)).

Record AttemptFence := mkAttemptFence {
  fence_TurnID : TurnID;
  fence_AttemptID : string;
  fence_FencingToken : Sequence;
  fence_WorkerID : string;
  fence_WorkerBuildDigest : string
}.

Definition AttemptFence_Validate (f : AttemptFence) : validation :=
  first_error
    [ validatePathSegment f.(fence_TurnID) MaxTurnIDBytes;
      validatePrintableASCII f.(fence_AttemptID) MaxAttemptIDBytes;
      when ((f.(fence_FencingToken) =? 0) || (MaxDurableSequence <? f.(fence_FencingToken)))
        (ErrText "fencingToken out of range");
      validatePrintableASCII f.(fence_WorkerID) MaxWorkerIDBytes;
      validatePrintableASCII f.(fence_WorkerBuildDigest) MaxWorkerBuildDigestBytes ].

Record TurnAttempt := mkTurnAttempt {
  att_ID : string;
  att_TurnID : TurnID;
  att_FencingToken : Sequence;
  att_Status : AttemptStatus;
  att_WorkerID : string;
  att_WorkerBuildDigest : string;
  att_LeaseExpiresAt : time;
  att_ClaimedAt : time;
  att_LastHeartbeatAt : time;
  att_FinishedAt : option time;
  att_CreatedAt : time;
  att_UpdatedAt : time
}.

Definition TurnAttempt_Fence (a : TurnAttempt) : AttemptFence :=
  mkAttemptFence a.(att_TurnID) a.(att_ID) a.(att_FencingToken) a.(att_WorkerID)
    a.(att_WorkerBuildDigest).

Definition TurnAttempt_Validate (a : TurnAttempt) : validation :=
  first_error
    [ AttemptFence_Validate (TurnAttempt_Fence a);
      when (negb (AttemptStatus_Valid a.(att_Status))) (ErrText "unknown attempt status");
      when (IsZero a.(att_LeaseExpiresAt) || IsZero a.(att_ClaimedAt)
            || IsZero a.(att_LastHeartbeatAt) || IsZero a.(att_CreatedAt)
            || IsZero a.(att_UpdatedAt))
        (ErrText "attempt lease and lifecycle timestamps are required");
      when (Before a.(att_LastHeartbeatAt) a.(att_ClaimedAt)
            || Before a.(att_UpdatedAt) a.(att_CreatedAt)
            || Before a.(att_UpdatedAt) a.(att_LastHeartbeatAt))
        (ErrText "attempt lifecycle timestamps are out of order");
      when (negb (Before a.(att_LastHeartbeatAt) a.(att_LeaseExpiresAt)))
        (ErrText "attempt heartbeat must precede lease expiry");
      when (negb (Bool.eqb (AttemptStatus_Terminal a.(att_Status))
                    (bool_decide (is_Some a.(att_FinishedAt)))))
        (ErrText "terminal attempt status and finishedAt must agree");
      when (holds_at a.(att_FinishedAt) (fun f => Before f a.(att_LastHeartbeatAt)))
        (ErrText "attempt finishedAt precedes last heartbeat");
      when (holds_at a.(att_FinishedAt) (fun f => Before a.(att_UpdatedAt) f))
        (ErrText "attempt updatedAt precedes finishedAt") ].

(** ** Claims *)

(** The loop of [validateClaimPluginScope]; [seen] are the releases before. *)
Fixpoint validateClaimPluginScope_loop (seen scope : list EventPluginRef) : validation :=
  match scope with
  | [] => None
  | plugin :: rest =>
    first_error
      [ EventPluginRef_Validate plugin; validatePluginRef plugin;
        when (bool_decide (plugin ∈ seen)) (ErrText "pluginScope repeats a release");
        validateClaimPluginScope_loop (plugin :: seen) rest ]
  end.

Definition validateClaimPluginScope (scope : list EventPluginRef) : validation :=
  first_error
    [ when (MaxClaimPluginScopes <? Z.of_nat (length scope))
        (ErrText "pluginScope contains too many releases");
      validateClaimPluginScope_loop [] scope ].

Definition claimPluginScopeAllows (scope : list EventPluginRef) (plugin : EventPluginRef) : bool :=
  bool_decide (scope = []) || existsb (fun allowed => bool_decide (allowed = plugin)) scope.

Record ClaimAttemptCommand := mkClaimAttemptCommand {
  claim_TurnID : TurnID;
  claim_AttemptID : string;
  claim_WorkerID : string;
  claim_WorkerBuildDigest : string;
  claim_PluginScope : list EventPluginRef
}.

Definition ClaimAttemptCommand_Validate (c : ClaimAttemptCommand) : validation :=
  first_error
    [ AttemptFence_Validate (mkAttemptFence c.(claim_TurnID) c.(claim_AttemptID) 1
        c.(claim_WorkerID) c.(claim_WorkerBuildDigest));
      validateClaimPluginScope c.(claim_PluginScope) ].

Record ClaimAttemptResult := mkClaimAttemptResult {
  clres_Turn : Turn;
  clres_Attempt : TurnAttempt;
  clres_Claimed : bool;
  clres_Reclaimed : bool;
  clres_Replay : bool
}.

Record ClaimNextCommand := mkClaimNextCommand {
  next_AttemptID : string;
  next_WorkerID : string;
  next_WorkerBuildDigest : string;
  next_ScanLimit : Z;
  next_PluginScope : list EventPluginRef
}.

Definition ClaimNextCommand_Validate (c : ClaimNextCommand) : validation :=
  first_error
    [ validatePrintableASCII c.(next_AttemptID) MaxAttemptIDBytes;
      validatePrintableASCII c.(next_WorkerID) MaxWorkerIDBytes;
      validatePrintableASCII c.(next_WorkerBuildDigest) MaxWorkerBuildDigestBytes;
      when ((c.(next_ScanLimit) <? 0) || (MaxClaimNextScanLimit <? c.(next_ScanLimit)))
        (ErrText "scanLimit out of range");
      validateClaimPluginScope c.(next_PluginScope) ].

Definition ClaimNextCommand_scanLimit (c : ClaimNextCommand) : Z :=
  if c.(next_ScanLimit) <=? 0 then DefaultClaimNextScanLimit else c.(next_ScanLimit).

Definition ClaimNextCommand_claimFor (c : ClaimNextCommand) (turnID : TurnID)
    : ClaimAttemptCommand :=
  mkClaimAttemptCommand turnID c.(next_AttemptID) c.(next_WorkerID) c.(next_WorkerBuildDigest)
    c.(next_PluginScope).

(** ** Reclaim and heartbeat *)

Definition ReclaimReason : Type := string.
Definition ReclaimReasonLeaseExpired : ReclaimReason := "lease_expired".
Definition ReclaimReasonCancellationPending : ReclaimReason := "cancellation_pending".
Definition ReclaimReasonAttemptsExhausted : ReclaimReason := "attempts_exhausted".
Definition ReclaimReasonReservationExpired : ReclaimReason := "reservation_expired".

Definition ReclaimReason_Valid (r : ReclaimReason) : bool :=
  bool_decide (r ∈ [ReclaimReasonLeaseExpired; ReclaimReasonCancellationPending;
                    ReclaimReasonAttemptsExhausted; ReclaimReasonReservationExpired]).

Definition ReclaimReason_Actionable (r : ReclaimReason) : bool :=
  bool_decide (r = ReclaimReasonCancellationPending)
  || bool_decide (r = ReclaimReasonAttemptsExhausted)
  || bool_decide (r = ReclaimReasonReservationExpired).

Definition ReclaimReason_TerminalStatus (r : ReclaimReason) : option TurnStatus :=
  if bool_decide (r = ReclaimReasonCancellationPending) then Some TurnStatusStopped
  else if bool_decide (r ∈ [ReclaimReasonAttemptsExhausted; ReclaimReasonReservationExpired])
  then Some TurnStatusTimeout else None.

Record ReclaimableTurn := mkReclaimableTurn {
  recl_TurnID : TurnID;
  recl_Status : TurnStatus;
  recl_Reason : ReclaimReason;
  recl_AttemptID : string;
  recl_FencingToken : Sequence;
  recl_WorkerID : string;
  recl_LeaseExpiresAt : option time;
  recl_CancelRequestedAt : option time
}.

Record ReclaimQuery := mkReclaimQuery {
  rq_Limit : Z;
  rq_ActionableOnly : bool
}.

Definition ReclaimQuery_Validate (q : ReclaimQuery) : validation :=
  when ((q.(rq_Limit) <? 0) || (MaxReclaimScanLimit <? q.(rq_Limit))) (ErrText "limit out of range").

Definition ReclaimQuery_limit (q : ReclaimQuery) : Z :=
  if q.(rq_Limit) <=? 0 then DefaultReclaimScanLimit else q.(rq_Limit).

Record HeartbeatAttemptResult := mkHeartbeatAttemptResult {
  hb_Attempt : TurnAttempt;
  hb_CancelRequestedAt : option time
}.

Record ReconcileCommand := mkReconcileCommand {
  rcmd_TurnID : TurnID;
  rcmd_Reason : ReclaimReason;
  rcmd_ReconcilerID : string;
  rcmd_ReconcilerBuildDigest : string
}.

Definition ReconcileCommand_Validate (c : ReconcileCommand) : validation :=
  first_error
    [ validatePathSegment c.(rcmd_TurnID) MaxTurnIDBytes;
      when (negb (ReclaimReason_Actionable c.(rcmd_Reason)))
        (ErrText "reconcile reason is not actionable");
      validatePrintableASCII c.(rcmd_ReconcilerID) MaxWorkerIDBytes;
      validatePrintableASCII c.(rcmd_ReconcilerBuildDigest) MaxWorkerBuildDigestBytes ].

(** ** Effects *)

Record EffectOutboxDraft := mkEffectOutboxDraft {
  edraft_OutboxID : string;
  edraft_Topic : string;
  edraft_DedupeKey : string;
  edraft_Payload : string;
  edraft_AvailableAt : time
}.

Definition EffectOutboxDraft_Validate (d : EffectOutboxDraft) : validation :=
  first_error
    [ validatePrintableASCII d.(edraft_OutboxID) MaxEffectOutboxIDBytes;
      validatePrintableASCII d.(edraft_Topic) MaxEffectTopicBytes;
      validateBoundedText d.(edraft_DedupeKey) MaxEffectDedupeKeyBytes;
      when ((len d.(edraft_Payload) =? 0) || negb (json_valid d.(edraft_Payload)))
        (ErrText "effect payload must contain valid JSON");
      when (MaxEffectPayloadBytes <? len d.(edraft_Payload))
        (ErrText "effect payload exceeds maximum");
      when (IsZero d.(edraft_AvailableAt)) (ErrText "effect availableAt is required") ].

Record EffectOutboxRecord := mkEffectOutboxRecord {
  erec_OutboxID : string;
  erec_TurnID : TurnID;
  erec_AttemptID : string;
  erec_FencingToken : Sequence;
  erec_OperationID : string;
  erec_Ordinal : Z;
  erec_Topic : string;
  erec_DedupeKey : string;
  erec_Payload : string;
  erec_Status : string;
  erec_AvailableAt : time
}.

(** ** Settlement requests (settlement.go) *)

Definition SettlementIntent : Type := string.
Definition SettlementIntentFinalize : SettlementIntent := "finalize".
Definition SettlementIntentRelease : SettlementIntent := "release".

Definition SettlementIntent_Valid (i : SettlementIntent) : bool :=
  bool_decide (i = SettlementIntentFinalize) || bool_decide (i = SettlementIntentRelease).

Definition DefaultSettlementIntent (status : TurnStatus) : SettlementIntent :=
  if bool_decide (status = TurnStatusCompleted) then SettlementIntentFinalize
  else SettlementIntentRelease.

Record SettlementRequest := mkSettlementRequest {
  sreq_Intent : SettlementIntent;
  sreq_UsedUnits : Z
}.

Definition SettlementRequest_resolve (r : SettlementRequest) (status : TurnStatus)
    : SettlementIntent :=
  if SettlementIntent_Valid r.(sreq_Intent) then r.(sreq_Intent)
  else DefaultSettlementIntent status.

(** ** Commit commands *)

Record CommitAttemptCommand := mkCommitAttemptCommand {
  commit_Fence : AttemptFence;
  commit_OperationID : string;
  commit_Event : option EventDraft;
  commit_TerminalStatus : TurnStatus;
  commit_Effects : list EffectOutboxDraft;
  commit_Settlement : option SettlementRequest
}.

(** [effect.Topic + NUL + effect.DedupeKey]. *)
Definition dedupeScope (d : EffectOutboxDraft) : string :=
  d.(edraft_Topic) +:+ String "000"%char d.(edraft_DedupeKey).

Fixpoint validateEffects (seenOutboxIDs seenDedupeKeys : gset string)
    (effects : list EffectOutboxDraft) : validation :=
  match effects with
  | [] => None
  | effect :: rest =>
    first_error
      [ EffectOutboxDraft_Validate effect;
        when (bool_decide (effect.(edraft_OutboxID) ∈ seenOutboxIDs))
          (ErrText "effect repeats outboxId");
        when (bool_decide (dedupeScope effect ∈ seenDedupeKeys))
          (ErrText "effect repeats topic and dedupeKey");
        validateEffects ({[effect.(edraft_OutboxID)]} ∪ seenOutboxIDs)
          ({[dedupeScope effect]} ∪ seenDedupeKeys) rest ]
  end.

Definition validateCommitEvent (c : CommitAttemptCommand) : validation :=
  if bool_decide (c.(commit_TerminalStatus) = "") then
    match c.(commit_Event) with
    | None => Some (ErrText "non-terminal attempt commit requires an event")
    | Some event =>
      first_error
        [ EventDraft_Validate event;
          when (HasPrefix event.(draft_Type) "core.") ErrReservedEventType ]
    end
  else first_error
    [ when (negb (TurnStatus_Valid c.(commit_TerminalStatus))
            || negb (TurnStatus_Terminal c.(commit_TerminalStatus)))
        (ErrText "attempt terminal status must be terminal");
      when (bool_decide (is_Some c.(commit_Event)))
        (ErrText "terminal attempt event is built by the kernel") ].

Definition validateCommitSettlement (c : CommitAttemptCommand) : validation :=
  match c.(commit_Settlement) with
  | None => None
  | Some request =>
    first_error
      [ when (bool_decide (c.(commit_TerminalStatus) = ""))
          (ErrText "settlement requires a terminal attempt commit");
        when (negb (bool_decide (request.(sreq_Intent) = ""))
              && negb (SettlementIntent_Valid request.(sreq_Intent)))
          (ErrText "unknown settlement intent");
        when (request.(sreq_UsedUnits) <? 0)
          (ErrText "settlement usedUnits must not be negative") ]
  end.

Definition CommitAttemptCommand_Validate (c : CommitAttemptCommand) : validation :=
  first_error
    [ AttemptFence_Validate c.(commit_Fence);
      validatePrintableASCII c.(commit_OperationID) MaxOperationIDBytes;
      validateCommitEvent c;
      validateCommitSettlement c;
      when (MaxEffectsPerOperation <? Z.of_nat (length c.(commit_Effects)))
        (ErrText "attempt effects exceed maximum");
      validateEffects ∅ ∅ c.(commit_Effects) ].

(** ** What a validated commit command's effects satisfy *)

Lemma validatePrintableASCII_bounded v m :
  validatePrintableASCII v m = None → validateBoundedText v m = None.
Proof. unfold validatePrintableASCII. rewrite first_error_None, !Forall_cons. tauto. Qed.

Lemma validatePrintableASCII_chars v m :
  validatePrintableASCII v m = None → Forall (fun b => 0x20 ≤ b ≤ 0x7e) (bytes v).
Proof.
  unfold validatePrintableASCII. rewrite first_error_None, !Forall_cons, when_None.
  intros (_ & Hb & _). apply Forall_forall. intros b Hin.
  destruct (decide (0x20 ≤ b ≤ 0x7e)) as [|Hn]; [done|].
  rewrite <- not_true_iff_false, existsb_exists in Hb. exfalso. apply Hb.
  exists b. split; [by apply list_elem_of_In|]. apply orb_true_iff. lia.
Qed.

(** A separator that occurs in neither prefix splits the text in one way. *)
Lemma separator_inj (c : ascii) (t1 t2 k1 k2 : string) :
  c ∉ chars t1 → c ∉ chars t2 →
  t1 +:+ String c k1 = t2 +:+ String c k2 → t1 = t2 ∧ k1 = k2.
Proof.
  revert t2. induction t1 as [|a t1 IH]; intros [|b t2] H1 H2 Heq.
  - by simplify_eq.
  - rewrite String_app in Heq. simpl in *. injection Heq as -> _. set_solver.
  - rewrite String_app in Heq. simpl in *. injection Heq as -> _. set_solver.
  - rewrite !String_app in Heq. injection Heq as -> Heq. simpl in *.
    destruct (IH t2) as [-> ->]; [set_solver..|done|done].
Qed.

Lemma topic_no_nul d :
  EffectOutboxDraft_Validate d = None → "000"%char ∉ chars d.(edraft_Topic).
Proof.
  unfold EffectOutboxDraft_Validate. rewrite first_error_None, !Forall_cons.
  intros (_ & Ht%validatePrintableASCII_chars & _). rewrite Forall_forall in Ht. intros Hin.
  assert (Hb : 0 ∈ bytes d.(edraft_Topic)); [|apply Ht in Hb; lia]. clear Ht.
  induction d.(edraft_Topic) as [|c t IH]; [by apply elem_of_nil in Hin|]. simpl in *.
  apply elem_of_cons in Hin as [<-|Hin]; [by left|right; auto].
Qed.

Lemma dedupeScope_inj d1 d2 :
  EffectOutboxDraft_Validate d1 = None → EffectOutboxDraft_Validate d2 = None →
  dedupeScope d1 = dedupeScope d2 →
  d1.(edraft_Topic) = d2.(edraft_Topic) ∧ d1.(edraft_DedupeKey) = d2.(edraft_DedupeKey).
Proof. unfold dedupeScope. eauto using separator_inj, topic_no_nul. Qed.

Lemma validateEffects_None seenO seenD es :
  validateEffects seenO seenD es = None ↔
  Forall (fun e => EffectOutboxDraft_Validate e = None
                   ∧ e.(edraft_OutboxID) ∉ seenO ∧ dedupeScope e ∉ seenD) es
  ∧ NoDup (map edraft_OutboxID es) ∧ NoDup (map dedupeScope es).
Proof.
  revert seenO seenD. induction es as [|e es IH]; intros seenO seenD.
  { simpl. split; [|done]. intros _. split_and!; constructor. }
  cbn [validateEffects map]. rewrite first_error_None, !Forall_cons, !when_None, IH, !NoDup_cons.
  rewrite !bool_decide_eq_false, !Forall_forall. split.
  - intros (Hv & Ho & Hd & (Hall & Hno & Hnd) & _). split_and!; try done.
    + intros x Hx. destruct (Hall x Hx) as (? & ? & ?). split_and!; set_solver.
    + intros (x & Heq & Hx)%list_elem_of_fmap. destruct (Hall x Hx) as (_ & Hf & _). set_solver.
    + intros (x & Heq & Hx)%list_elem_of_fmap. destruct (Hall x Hx) as (_ & _ & Hf). set_solver.
  - intros (((Hv & Ho & Hd) & Hall) & (Hio & Hno) & (Hid & Hnd)).
    split_and!; try done; [|by intros x Hx%elem_of_nil]. intros x Hx. destruct (Hall x Hx) as (? & ? & ?). split_and!; [done| |].
    + apply not_elem_of_union. split; [|done]. rewrite elem_of_singleton. intros Heq. apply Hio.
      apply list_elem_of_fmap. eauto.
    + apply not_elem_of_union. split; [|done]. rewrite elem_of_singleton. intros Heq. apply Hid.
      apply list_elem_of_fmap. eauto.
Qed.

(** ** Execution timestamps (sql_execution_store.go) *)

Definition year1000 : time := 364877 * 86400 * second.
Definition year10000 : time := 3652059 * 86400 * second.

Definition canonicalExecutionTime (value : time) : result time :=
  guard! negb (IsZero value) else ErrText "execution clock returned zero time";;
  let value := value - value mod 1000 in
  guard! (year1000 <=? value) && (value <? year10000)
    else ErrText "execution time is outside SQL datetime range";;
  Ok value.
