(* ===== verification/Settlement.v ===== *)
(** * Settlement commands and reviews: settlement.go and settlement_review.go

    The commercial decision a terminal Turn asks for: the keys and digests that
    identify it, the command presented to the settlement authority, and the
    Review record that stands for a decision still to be made, with their
    validators.  Nothing here touches the tables. *)

From S2P Require Import Prelude GoText GoJson GoDigest AgentContract TurnTypes ExecutionTypes.

(** ** Keys *)

Definition settlementKeyDigest (domain first second : string) : string :=
  "wm:turn-settlement:v1:" +:+ sha256_hex (hash_parts [domain; first; second]).

Definition settlementKey (turnID : TurnID) (operationID : string) : string :=
  settlementKeyDigest "operation" turnID operationID.

Definition reconcileSettlementKey (turnID : TurnID) (fence : Sequence) : string :=
  settlementKeyDigest "reconcile" turnID (FormatInt (i64 fence)).

Definition MaxSettlementKeyBytes : Z := 256.

(** ** Settlement commands *)

Definition SettlementAuthorizationKind : Type := string.
Definition SettlementAuthorizationOperation : SettlementAuthorizationKind := "operation".
Definition SettlementAuthorizationReconcile : SettlementAuthorizationKind := "reconcile".

Definition SettlementAuthorizationKind_Valid (k : SettlementAuthorizationKind) : bool :=
  bool_decide (k = SettlementAuthorizationOperation) || bool_decide (k = SettlementAuthorizationReconcile).

Record SettlementCommand := mkSettlementCommand {
  sc_TurnID : TurnID;
  sc_PrincipalID : PrincipalID;
  sc_SettlementKey : string;
  sc_AuthorizationKind : SettlementAuthorizationKind;
  sc_AttemptID : string;
  sc_FencingToken : Sequence;
  sc_OperationID : string;
  sc_Intent : SettlementIntent;
  sc_TerminalStatus : TurnStatus;
  sc_UsedUnits : Z
}.

Definition validateAuthorization (c : SettlementCommand) : validation :=
  if bool_decide (c.(sc_AuthorizationKind) = SettlementAuthorizationOperation) then
    first_error
      [ validatePrintableASCII c.(sc_AttemptID) MaxAttemptIDBytes;
        validatePrintableASCII c.(sc_OperationID) MaxOperationIDBytes;
        when (negb (bool_decide (c.(sc_SettlementKey) = settlementKey c.(sc_TurnID) c.(sc_OperationID))))
          (ErrText "settlement key does not match operation authorization") ]
  else
    when (negb (bool_decide (c.(sc_AttemptID) = "")) || negb (bool_decide (c.(sc_OperationID) = ""))
          || negb (bool_decide (c.(sc_SettlementKey)
                                = reconcileSettlementKey c.(sc_TurnID) c.(sc_FencingToken))))
      (ErrText "settlement key does not match reconciliation authorization").

Definition SettlementCommand_Validate (c : SettlementCommand) : validation :=
  first_error
    [ validatePathSegment c.(sc_TurnID) MaxTurnIDBytes;
      validateBoundedText c.(sc_PrincipalID) MaxPrincipalIDBytes;
      validatePrintableASCII c.(sc_SettlementKey) MaxSettlementKeyBytes;
      when (negb (SettlementAuthorizationKind_Valid c.(sc_AuthorizationKind))
            || (c.(sc_FencingToken) <? 1) || (MaxDurableSequence <? c.(sc_FencingToken)))
        (ErrText "settlement authorization is invalid");
      validateAuthorization c;
      when (negb (SettlementIntent_Valid c.(sc_Intent))) (ErrText "unknown settlement intent");
      when (negb (TurnStatus_Valid c.(sc_TerminalStatus)) || negb (TurnStatus_Terminal c.(sc_TerminalStatus)))
        (ErrText "settlement requires a terminal turn status");
      when (c.(sc_UsedUnits) <? 0) (ErrText "usedUnits must not be negative");
      when (bool_decide (c.(sc_Intent) = SettlementIntentRelease) && negb (c.(sc_UsedUnits) =? 0))
        (ErrText "a released reservation cannot report used units") ].

(** ** Reviews *)

Definition DefaultSettlementReviewListLimit : Z := 64.
Definition MaxSettlementReviewListLimit : Z := 512.
Definition MaxSettlementReviewIDBytes : Z := 64.
Definition MaxSettlementReviewDigestBytes : Z := 128.

Definition SettlementReviewSource : Type := string.
Definition SettlementReviewSourceExecutor : SettlementReviewSource := "executor_release".
Definition SettlementReviewSourceExecutorCompletion : SettlementReviewSource := "executor_completion".
Definition SettlementReviewSourceExecutorTerminal : SettlementReviewSource := "executor_terminal".
Definition SettlementReviewSourceReconcile : SettlementReviewSource := "reconcile_release".
Definition SettlementReviewSourceReconcileTerminal : SettlementReviewSource := "reconcile_terminal".
Definition SettlementReviewReasonUsageUnknown : string := "usage_unknown".
Definition SettlementReviewReasonCompletedUsageUnmeasured : string := "completed_usage_unmeasured".
Definition SettlementReviewReasonTerminalUsageUnmeasured : string := "terminal_usage_unmeasured".
Definition SettlementReviewStatusPending : string := "pending".
Definition SettlementReviewStatusMeteredHeld : string := "metered_held".
Definition SettlementReviewStatusFinalizedHeld : string := "finalized_held".

Definition SettlementReviewSource_Valid (s : SettlementReviewSource) : bool :=
  bool_decide (s ∈ [SettlementReviewSourceExecutor; SettlementReviewSourceExecutorCompletion;
                    SettlementReviewSourceExecutorTerminal; SettlementReviewSourceReconcile;
                    SettlementReviewSourceReconcileTerminal]).

Definition SettlementReviewSource_executor (s : SettlementReviewSource) : bool :=
  bool_decide (s ∈ [SettlementReviewSourceExecutor; SettlementReviewSourceExecutorCompletion;
                    SettlementReviewSourceExecutorTerminal]).

Record SettlementUsageEvidence := mkSettlementUsageEvidence {
  ue_PriorOperationCount : Z;
  ue_PriorEffectCount : Z;
  ue_PriorProviderUsageCount : Z;
  ue_CurrentEffectCount : Z
}.

#[export] Instance SettlementUsageEvidence_eq_dec : EqDecision SettlementUsageEvidence.
Proof. solve_decision. Defined.

Definition ambiguous (e : SettlementUsageEvidence) : bool :=
  (0 <? e.(ue_PriorOperationCount)) || (0 <? e.(ue_PriorEffectCount)) || (0 <? e.(ue_CurrentEffectCount)).

Definition SettlementUsageEvidence_validate (e : SettlementUsageEvidence) : validation :=
  when ((e.(ue_PriorOperationCount) <? 0) || (e.(ue_PriorEffectCount) <? 0)
        || (e.(ue_PriorProviderUsageCount) <? 0) || (e.(ue_CurrentEffectCount) <? 0)
        || (MaxEffectsPerOperation <? e.(ue_CurrentEffectCount))) ErrStoreIntegrity.

Record SettlementReviewRecord := mkSettlementReviewRecord {
  rv_ReviewID : string;
  rv_TurnID : TurnID;
  rv_SettlementKey : string;
  rv_RequestDigest : string;
  rv_Reason : string;
  rv_Source : SettlementReviewSource;
  rv_TerminalStatus : TurnStatus;
  rv_AttemptID : string;
  rv_FencingToken : Sequence;
  rv_OperationID : string;
  rv_Evidence : SettlementUsageEvidence;
  rv_Status : string;
  rv_CreatedAt : time;
  rv_UpdatedAt : time
}.

#[export] Instance SettlementReviewRecord_eq_dec : EqDecision SettlementReviewRecord.
Proof. solve_decision. Defined.

(** *** Review identity *)

Definition settlementReviewID (key : string) : string := sha256_hex (hash_parts ["review"; key]).

Definition settlementReviewRequestDigestV1 (r : SettlementReviewRecord) : string :=
  sha256_digest (hash_parts
    [ "settlement-review-v1"; r.(rv_ReviewID); r.(rv_TurnID); r.(rv_SettlementKey); r.(rv_Reason);
      r.(rv_Source); r.(rv_TerminalStatus); r.(rv_AttemptID); FormatInt (i64 r.(rv_FencingToken));
      r.(rv_OperationID); FormatInt r.(rv_Evidence).(ue_PriorOperationCount);
      FormatInt r.(rv_Evidence).(ue_PriorEffectCount);
      FormatInt r.(rv_Evidence).(ue_CurrentEffectCount) ]).

Definition settlementReviewRequestDigest (r : SettlementReviewRecord) : string :=
  settlementReviewRequestDigestV1 r.

Definition settlementReviewRequestDigestV2 (r : SettlementReviewRecord) : string :=
  sha256_digest (hash_parts
    [ "settlement-review-v2"; r.(rv_ReviewID); r.(rv_TurnID); r.(rv_SettlementKey); r.(rv_Reason);
      r.(rv_Source); r.(rv_TerminalStatus); r.(rv_AttemptID); FormatInt (i64 r.(rv_FencingToken));
      r.(rv_OperationID); FormatInt r.(rv_Evidence).(ue_PriorOperationCount);
      FormatInt r.(rv_Evidence).(ue_PriorEffectCount);
      FormatInt r.(rv_Evidence).(ue_PriorProviderUsageCount);
      FormatInt r.(rv_Evidence).(ue_CurrentEffectCount) ]).

Definition settlementReviewRequestDigestValid (r : SettlementReviewRecord) : bool :=
  let v1 := (r.(rv_Evidence).(ue_PriorProviderUsageCount) =? 0)
            && bool_decide (r.(rv_RequestDigest) = settlementReviewRequestDigestV1 r) in
  let v2 := bool_decide (r.(rv_RequestDigest) = settlementReviewRequestDigestV2 r) in
  if bool_decide (r.(rv_Source) ∈ [SettlementReviewSourceExecutor; SettlementReviewSourceReconcile]) then v1
  else if bool_decide (r.(rv_Source) = SettlementReviewSourceExecutorCompletion) then v2 || v1
  else if bool_decide (r.(rv_Source) ∈ [SettlementReviewSourceExecutorTerminal;
                                        SettlementReviewSourceReconcileTerminal]) then v2
  else false.

(** *** Review validity *)

(** The checks an executor's source shares. *)
Definition validateExecutorReview (r : SettlementReviewRecord) : validation :=
  first_error
    [ validatePrintableASCII r.(rv_AttemptID) MaxAttemptIDBytes;
      validatePrintableASCII r.(rv_OperationID) MaxOperationIDBytes;
      when (negb (bool_decide (r.(rv_SettlementKey) = settlementKey r.(rv_TurnID) r.(rv_OperationID))))
        ErrStoreIntegrity ].

Definition validateReconcileReview (r : SettlementReviewRecord) : validation :=
  when (negb (bool_decide (r.(rv_SettlementKey) = reconcileSettlementKey r.(rv_TurnID) r.(rv_FencingToken))))
    ErrStoreIntegrity.

Definition validateReviewSource (r : SettlementReviewRecord) : validation :=
  let e := r.(rv_Evidence) in
  if bool_decide (r.(rv_Source) = SettlementReviewSourceExecutor) then
    first_error
      [ when (negb (bool_decide (r.(rv_Reason) = SettlementReviewReasonUsageUnknown))
              || negb (ambiguous e) || negb (e.(ue_PriorProviderUsageCount) =? 0)) ErrStoreIntegrity;
        validateExecutorReview r ]
  else if bool_decide (r.(rv_Source) = SettlementReviewSourceExecutorCompletion) then
    first_error
      [ when (negb (bool_decide (r.(rv_Reason) = SettlementReviewReasonCompletedUsageUnmeasured))
              || negb (bool_decide (r.(rv_TerminalStatus) = TurnStatusCompleted))) ErrStoreIntegrity;
        validateExecutorReview r ]
  else if bool_decide (r.(rv_Source) = SettlementReviewSourceExecutorTerminal) then
    first_error
      [ when (negb (bool_decide (r.(rv_Reason) = SettlementReviewReasonTerminalUsageUnmeasured))
              || bool_decide (r.(rv_TerminalStatus) = TurnStatusCompleted)) ErrStoreIntegrity;
        validateExecutorReview r ]
  else if bool_decide (r.(rv_Source) = SettlementReviewSourceReconcile) then
    first_error
      [ when (negb (bool_decide (r.(rv_Reason) = SettlementReviewReasonUsageUnknown))
              || bool_decide (r.(rv_TerminalStatus) = TurnStatusCompleted) || negb (ambiguous e)
              || negb (bool_decide (r.(rv_AttemptID) = "")) || negb (bool_decide (r.(rv_OperationID) = ""))
              || negb (e.(ue_CurrentEffectCount) =? 0) || negb (e.(ue_PriorProviderUsageCount) =? 0))
          ErrStoreIntegrity;
        validateReconcileReview r ]
  else if bool_decide (r.(rv_Source) = SettlementReviewSourceReconcileTerminal) then
    first_error
      [ when (negb (bool_decide (r.(rv_Reason) = SettlementReviewReasonTerminalUsageUnmeasured))
              || bool_decide (r.(rv_TerminalStatus) = TurnStatusCompleted)
              || negb (bool_decide (r.(rv_AttemptID) = "")) || negb (bool_decide (r.(rv_OperationID) = ""))
              || negb (e.(ue_CurrentEffectCount) =? 0)) ErrStoreIntegrity;
        validateReconcileReview r ]
  else None.

Definition SettlementReviewRecord_Validate (r : SettlementReviewRecord) : validation :=
  first_error
    [ validatePrintableASCII r.(rv_ReviewID) MaxSettlementReviewIDBytes;
      validatePathSegment r.(rv_TurnID) MaxTurnIDBytes;
      validatePrintableASCII r.(rv_SettlementKey) MaxSettlementKeyBytes;
      validatePrintableASCII r.(rv_RequestDigest) MaxSettlementReviewDigestBytes;
      when (negb (SettlementReviewSource_Valid r.(rv_Source))
            || negb (bool_decide (r.(rv_Status) ∈ [SettlementReviewStatusPending;
                 SettlementReviewStatusMeteredHeld; SettlementReviewStatusFinalizedHeld]))) ErrStoreIntegrity;
      when (negb (TurnStatus_Valid r.(rv_TerminalStatus)) || negb (TurnStatus_Terminal r.(rv_TerminalStatus)))
        ErrStoreIntegrity;
      when ((r.(rv_FencingToken) <? 1) || (MaxDurableSequence <? r.(rv_FencingToken))) ErrStoreIntegrity;
      SettlementUsageEvidence_validate r.(rv_Evidence);
      validateReviewSource r;
      when (IsZero r.(rv_CreatedAt) || IsZero r.(rv_UpdatedAt) || Before r.(rv_UpdatedAt) r.(rv_CreatedAt))
        ErrStoreIntegrity;
      when (negb (bool_decide (r.(rv_ReviewID) = settlementReviewID r.(rv_SettlementKey)))
            || negb (settlementReviewRequestDigestValid r)) ErrStoreIntegrity ].

Definition settlementReviewProviderUsageAware (r : SettlementReviewRecord) : bool :=
  bool_decide (SettlementReviewRecord_Validate r = None)
  && bool_decide (r.(rv_RequestDigest) = settlementReviewRequestDigestV2 r)
  && bool_decide (r.(rv_Source) ∈ [SettlementReviewSourceExecutorCompletion;
                                   SettlementReviewSourceExecutorTerminal;
                                   SettlementReviewSourceReconcileTerminal]).

Record SettlementReviewHoldCommand := mkSettlementReviewHoldCommand {
  hold_Review : SettlementReviewRecord;
  hold_PrincipalID : PrincipalID
}.

Definition SettlementReviewHoldCommand_Validate (c : SettlementReviewHoldCommand) : validation :=
  first_error
    [ SettlementReviewRecord_Validate c.(hold_Review);
      when (negb (bool_decide (c.(hold_Review).(rv_Status) = SettlementReviewStatusPending))) ErrStoreIntegrity;
      validateBoundedText c.(hold_PrincipalID) MaxPrincipalIDBytes ].

(** *** Opening a review *)

Definition with_request_digest (r : SettlementReviewRecord) (digest : string) : SettlementReviewRecord :=
  mkSettlementReviewRecord r.(rv_ReviewID) r.(rv_TurnID) r.(rv_SettlementKey) digest r.(rv_Reason)
    r.(rv_Source) r.(rv_TerminalStatus) r.(rv_AttemptID) r.(rv_FencingToken) r.(rv_OperationID)
    r.(rv_Evidence) r.(rv_Status) r.(rv_CreatedAt) r.(rv_UpdatedAt).

Definition with_review_times (r : SettlementReviewRecord) (created updated : time) : SettlementReviewRecord :=
  mkSettlementReviewRecord r.(rv_ReviewID) r.(rv_TurnID) r.(rv_SettlementKey) r.(rv_RequestDigest)
    r.(rv_Reason) r.(rv_Source) r.(rv_TerminalStatus) r.(rv_AttemptID) r.(rv_FencingToken)
    r.(rv_OperationID) r.(rv_Evidence) r.(rv_Status) created updated.

Definition pendingReviewRecord (turnID : TurnID) (reason : string) (terminal : TurnStatus)
    (source : SettlementReviewSource) (attemptID : string) (fence : Sequence) (operationID key : string)
    (evidence : SettlementUsageEvidence) (now : time) : SettlementReviewRecord :=
  mkSettlementReviewRecord (settlementReviewID key) turnID key "" 
    (if bool_decide (source = SettlementReviewSourceExecutorCompletion)
     then SettlementReviewReasonCompletedUsageUnmeasured else reason)
    source terminal attemptID fence operationID evidence SettlementReviewStatusPending now now.

Definition buildSettlementReviewRecord (turn : Turn) (terminal : TurnStatus)
    (source : SettlementReviewSource) (attemptID : string) (fence : Sequence) (operationID key : string)
    (evidence : SettlementUsageEvidence) (now : time) : result SettlementReviewRecord :=
  let review := pendingReviewRecord turn.(turn_ID) SettlementReviewReasonUsageUnknown terminal source
                  attemptID fence operationID key evidence now in
  let review := with_request_digest review (settlementReviewRequestDigest review) in
  check! SettlementReviewRecord_Validate review as ErrStoreIntegrity;;
  Ok review.

Definition buildProviderSettlementReviewRecord (turn : Turn) (terminal : TurnStatus)
    (source : SettlementReviewSource) (attemptID : string) (fence : Sequence) (operationID key : string)
    (evidence : SettlementUsageEvidence) (now : time) : result SettlementReviewRecord :=
  guard! bool_decide (source ∈ [SettlementReviewSourceExecutorCompletion;
                                SettlementReviewSourceExecutorTerminal;
                                SettlementReviewSourceReconcileTerminal]) else ErrStoreIntegrity;;
  let review := pendingReviewRecord turn.(turn_ID) SettlementReviewReasonTerminalUsageUnmeasured terminal
                  source attemptID fence operationID key evidence now in
  let review := with_request_digest review (settlementReviewRequestDigestV2 review) in
  check! SettlementReviewRecord_Validate review as ErrStoreIntegrity;;
  Ok review.

Record ListSettlementReviewsQuery := mkListSettlementReviewsQuery { lq_Limit : Z }.

Definition ListSettlementReviewsQuery_limit (q : ListSettlementReviewsQuery) : Z :=
  if q.(lq_Limit) <=? 0 then DefaultSettlementReviewListLimit else q.(lq_Limit).

Definition ListSettlementReviewsQuery_Validate (q : ListSettlementReviewsQuery) : validation :=
  when ((q.(lq_Limit) <? 0) || (MaxSettlementReviewListLimit <? q.(lq_Limit))) (ErrText "limit out of range").
