(* ===== verification/ProviderUsage.v ===== *)
(** * Provider usage provenance: the types of provider_usage_journal.go

    Source registrations and their canonical registry, meter releases and
    journal records, with the digests that bind them and their validators.  The
    operations on the tables are in SettlementTables.v. *)

From Stdlib Require Import Ascii.
From stdpp Require Import sorting.
From S2P Require Import Prelude GoText GoJson GoDigest GoTime GoJsonValue AgentContract TurnTypes ExecutionTypes Settlement.

Definition MaxProviderUsageFieldBytes : Z := 256.
Definition MaxProviderUsageVerificationKind : Z := 32.
Definition MaxProviderUsageJSONBytes : Z := 2 ^ 16.
Definition MaxProviderUsageSources : Z := 64.

(** ** Digests and canonical JSON *)

(** settlement_review_resolution.go [validateSettlementReviewSHA256Digest]: a
    digest is its prefix and 64 lowercase hexadecimal digits. *)
Definition validateSettlementReviewSHA256Digest (value : string) : validation :=
  when (negb ((len value =? 71) && HasPrefix value "sha256:"
              && forallb hex_char (chars (String.substring 7 (String.length value - 7) value))))
    (ErrText "must be a lowercase SHA-256 digest").

Definition validateDigests (digests : list string) : validation :=
  first_error (map validateSettlementReviewSHA256Digest digests).

Definition providerUsageDigest (domain : string) (parts : list string) : string :=
  sha256_digest (hash_parts (domain :: parts)).

Definition providerUsageOpaqueID (domain : string) (parts : list string) : string :=
  sha256_hex (hash_parts (domain :: parts)).

Definition providerUsageJSONDigest (domain raw : string) : string := providerUsageDigest domain [raw].

Definition providerUsagePluginSnapshotDigest (p : EventPluginRef) : string :=
  providerUsageDigest "provider-usage-plugin-snapshot-v1" [p.(plg_ID); p.(plg_Version); p.(plg_ReleaseDigest)].

(** sql_execution_store.go [canonicalJSONContent]. *)
Definition canonicalJSONContent (raw : string) : result string :=
  guard! negb ((len raw =? 0) || negb (json_valid raw)) else ErrStoreIntegrity;;
  match json_decode raw with
  | None => Err (ErrText "decode")
  | Some value => Ok (marshal_value value)
  end.

(** sql_execution_store.go [sameJSONContent]. *)
Definition sameJSONContent (left right : string) : bool :=
  match canonicalJSONContent left, canonicalJSONContent right with
  | Ok l, Ok r => bool_decide (l = r)
  | _, _ => false
  end.

Definition canonicalProviderUsageJSON (raw : string) : result string :=
  guard! negb ((len raw <? 1) || (MaxProviderUsageJSONBytes <? len raw)) else ErrStoreIntegrity;;
  canonicalJSONContent raw.

(** The text is its own canonical form. *)
Definition is_canonical (raw : string) : bool :=
  match canonicalProviderUsageJSON raw with
  | Ok canonical => bool_decide (canonical = raw)
  | Err _ => false
  end.

(** A timestamp the database clock could have produced. *)
Definition is_canonical_time (t : time) : bool :=
  match canonicalExecutionTime t with
  | Ok t' => t' =? t
  | Err _ => false
  end.

(** ** Source registrations *)

Record ProviderUsageSourceRegistration := mkRegistration {
  reg_ProviderKey : string;
  reg_ProviderAccountDigest : string;
  reg_SourceKey : string;
  reg_SourceVersion : string;
  reg_SourceBuildDigest : string;
  reg_UsageSchemaKey : string;
  reg_UsageSchemaVersion : string;
  reg_SourceSchemaDigest : string;
  reg_VerificationKind : string;
  reg_VerificationKeyDigest : string;
  reg_VerificationBuildDigest : string;
  reg_RegistrationDigest : string
}.

#[export] Instance ProviderUsageSourceRegistration_eq_dec : EqDecision ProviderUsageSourceRegistration.
Proof. solve_decision. Defined.

Definition providerUsageSourceRegistrationDigest (r : ProviderUsageSourceRegistration) : string :=
  providerUsageDigest "provider-usage-source-registration-v1"
    [ r.(reg_ProviderKey); r.(reg_ProviderAccountDigest); r.(reg_SourceKey); r.(reg_SourceVersion);
      r.(reg_SourceBuildDigest); r.(reg_UsageSchemaKey); r.(reg_UsageSchemaVersion);
      r.(reg_SourceSchemaDigest); r.(reg_VerificationKind); r.(reg_VerificationKeyDigest);
      r.(reg_VerificationBuildDigest) ].

Definition ProviderUsageSourceRegistration_Validate (r : ProviderUsageSourceRegistration) : validation :=
  first_error
    [ validatePrintableASCII r.(reg_ProviderKey) MaxProviderUsageFieldBytes;
      validatePrintableASCII r.(reg_SourceKey) MaxProviderUsageFieldBytes;
      validatePrintableASCII r.(reg_SourceVersion) MaxProviderUsageFieldBytes;
      validatePrintableASCII r.(reg_UsageSchemaKey) MaxProviderUsageFieldBytes;
      validatePrintableASCII r.(reg_UsageSchemaVersion) MaxProviderUsageFieldBytes;
      validatePrintableASCII r.(reg_VerificationKind) MaxProviderUsageVerificationKind;
      validateDigests [r.(reg_ProviderAccountDigest); r.(reg_SourceBuildDigest); r.(reg_SourceSchemaDigest);
                       r.(reg_VerificationKeyDigest); r.(reg_VerificationBuildDigest);
                       r.(reg_RegistrationDigest)];
      when (negb (bool_decide (r.(reg_RegistrationDigest) = providerUsageSourceRegistrationDigest r)))
        ErrStoreIntegrity ].

(** The spec is a registration without its digest. *)
Definition NewProviderUsageSourceRegistration (spec : ProviderUsageSourceRegistration)
    : result ProviderUsageSourceRegistration :=
  let r := mkRegistration spec.(reg_ProviderKey) spec.(reg_ProviderAccountDigest) spec.(reg_SourceKey)
             spec.(reg_SourceVersion) spec.(reg_SourceBuildDigest) spec.(reg_UsageSchemaKey)
             spec.(reg_UsageSchemaVersion) spec.(reg_SourceSchemaDigest) spec.(reg_VerificationKind)
             spec.(reg_VerificationKeyDigest) spec.(reg_VerificationBuildDigest)
             (providerUsageSourceRegistrationDigest spec) in
  check! ProviderUsageSourceRegistration_Validate r;;
  Ok r.

(** [json.Marshal] of the registrations. *)
Definition registration_json (r : ProviderUsageSourceRegistration) : string :=
  json_object
    [ json_field "providerKey" (marshal_string r.(reg_ProviderKey));
      json_field "providerAccountDigest" (marshal_string r.(reg_ProviderAccountDigest));
      json_field "sourceKey" (marshal_string r.(reg_SourceKey));
      json_field "sourceVersion" (marshal_string r.(reg_SourceVersion));
      json_field "sourceBuildDigest" (marshal_string r.(reg_SourceBuildDigest));
      json_field "usageSchemaKey" (marshal_string r.(reg_UsageSchemaKey));
      json_field "usageSchemaVersion" (marshal_string r.(reg_UsageSchemaVersion));
      json_field "sourceSchemaDigest" (marshal_string r.(reg_SourceSchemaDigest));
      json_field "verificationKind" (marshal_string r.(reg_VerificationKind));
      json_field "verificationKeyDigest" (marshal_string r.(reg_VerificationKeyDigest));
      json_field "verificationBuildDigest" (marshal_string r.(reg_VerificationBuildDigest));
      json_field "registrationDigest" (marshal_string r.(reg_RegistrationDigest)) ].

Definition registrations_json (sources : list ProviderUsageSourceRegistration) : string :=
  "[" +:+ join_comma (map registration_json sources) +:+ "]".

(** [json.Unmarshal] of one registration. *)
Definition registration_of_json (v : jvalue) : option ProviderUsageSourceRegistration :=
  members ← match v with JObject ms => Some ms | JNull => Some [] | _ => None end;
  f1 ← string_member "providerKey" members;
  f2 ← string_member "providerAccountDigest" members;
  f3 ← string_member "sourceKey" members;
  f4 ← string_member "sourceVersion" members;
  f5 ← string_member "sourceBuildDigest" members;
  f6 ← string_member "usageSchemaKey" members;
  f7 ← string_member "usageSchemaVersion" members;
  f8 ← string_member "sourceSchemaDigest" members;
  f9 ← string_member "verificationKind" members;
  f10 ← string_member "verificationKeyDigest" members;
  f11 ← string_member "verificationBuildDigest" members;
  f12 ← string_member "registrationDigest" members;
  Some (mkRegistration f1 f2 f3 f4 f5 f6 f7 f8 f9 f10 f11 f12).

Definition registrations_of_json (raw : string) : option (list ProviderUsageSourceRegistration) :=
  match json_decode raw with
  | Some (JArray vs) => mapM registration_of_json vs
  | Some JNull => Some []
  | _ => None
  end.

(** ** Registries *)

Record ProviderUsageSourceRegistry := mkRegistry {
  registry_Sources : list ProviderUsageSourceRegistration;
  registry_CanonicalJSON : string;
  registry_Digest : string
}.

Definition string_ltb (a b : string) : bool := match String.compare a b with Lt => true | _ => false end.

Definition digest_before (a b : ProviderUsageSourceRegistration) : Prop :=
  string_ltb b.(reg_RegistrationDigest) a.(reg_RegistrationDigest) = false.

#[export] Instance digest_before_dec : RelDecision digest_before.
Proof. unfold RelDecision, digest_before. intros a b. apply _. Defined.

(** Strictly increasing registration digests. *)
Fixpoint digests_increase (sources : list ProviderUsageSourceRegistration) : bool :=
  match sources with
  | a :: (b :: _) as rest =>
    string_ltb a.(reg_RegistrationDigest) b.(reg_RegistrationDigest) && digests_increase rest
  | _ => true
  end.

Fixpoint repeats_digest (sources : list ProviderUsageSourceRegistration) : bool :=
  match sources with
  | a :: (b :: _) as rest =>
    bool_decide (a.(reg_RegistrationDigest) = b.(reg_RegistrationDigest)) || repeats_digest rest
  | _ => false
  end.

Definition source_count_ok (sources : list ProviderUsageSourceRegistration) : bool :=
  (1 <=? Z.of_nat (length sources)) && (Z.of_nat (length sources) <=? MaxProviderUsageSources).

Definition NewProviderUsageSourceRegistry (input : list ProviderUsageSourceRegistration)
    : result ProviderUsageSourceRegistry :=
  guard! source_count_ok input else ErrText "provider usage source registry size";;
  check! first_error (map ProviderUsageSourceRegistration_Validate input);;
  let sources := merge_sort digest_before input in
  guard! negb (repeats_digest sources) else ErrUsageMeterReleaseConflict;;
  try! raw := canonicalProviderUsageJSON (registrations_json sources) as ErrUsageMeterReleaseConflict in
  Ok (mkRegistry sources raw (providerUsageJSONDigest "provider-usage-source-registry-v1" raw)).

Definition decodeProviderUsageSourceRegistry (raw : string)
    : result (string * list ProviderUsageSourceRegistration) :=
  guard! is_canonical raw else ErrStoreIntegrity;;
  match registrations_of_json raw with
  | None => Err ErrStoreIntegrity
  | Some sources =>
    guard! source_count_ok sources else ErrStoreIntegrity;;
    try! normalized := canonicalProviderUsageJSON (registrations_json sources) as ErrStoreIntegrity in
    guard! bool_decide (normalized = raw) else ErrStoreIntegrity;;
    guard! forallb (fun s => bool_decide (ProviderUsageSourceRegistration_Validate s = None)) sources
           && digests_increase sources else ErrStoreIntegrity;;
    Ok (raw, sources)
  end.

Definition ProviderUsageSourceRegistry_Validate (r : ProviderUsageSourceRegistry) : validation :=
  match decodeProviderUsageSourceRegistry r.(registry_CanonicalJSON) with
  | Err _ => Some ErrStoreIntegrity
  | Ok (canonical, sources) =>
    when (negb (bool_decide (canonical = r.(registry_CanonicalJSON)))
          || negb (bool_decide (r.(registry_Digest)
                                = providerUsageJSONDigest "provider-usage-source-registry-v1" canonical))
          || negb (bool_decide (sources = r.(registry_Sources)))) ErrStoreIntegrity
  end.

(** [sort.Search]: the smallest index in [i, j) whose test holds, by bisection;
    [fuel] bounds the number of halvings. *)
Fixpoint sort_search (fuel : nat) (f : Z → bool) (i j : Z) : Z :=
  match fuel with
  | O => i
  | S fuel' =>
    if i <? j then
      let h := (i + j) / 2 in
      if f h then sort_search fuel' f i h else sort_search fuel' f (h + 1) j
    else i
  end.

Definition registration_at (sources : list ProviderUsageSourceRegistration) (i : Z)
    : option ProviderUsageSourceRegistration := if i <? 0 then None else sources !! Z.to_nat i.

Definition Registry_Contains (r : ProviderUsageSourceRegistry) (want : ProviderUsageSourceRegistration) : bool :=
  bool_decide (ProviderUsageSourceRegistry_Validate r = None)
  && bool_decide (ProviderUsageSourceRegistration_Validate want = None)
  && let sources := r.(registry_Sources) in
     let index := sort_search (length sources) (fun i =>
                    match registration_at sources i with
                    | Some s => negb (string_ltb s.(reg_RegistrationDigest) want.(reg_RegistrationDigest))
                    | None => true
                    end) 0 (Z.of_nat (length sources)) in
     bool_decide (registration_at sources index = Some want).

(** ** Meter releases *)

Record UsageMeterReleaseRecord := mkUsageMeterRelease {
  rel_ReleaseID : string;
  rel_Plugin : EventPluginRef;
  rel_PluginSnapshotDigest : string;
  rel_BillingPolicyKey : string;
  rel_PricingSnapshotJSON : string;
  rel_PricingSnapshotDigest : string;
  rel_MeterKey : string;
  rel_MeterVersion : string;
  rel_MeterBuildDigest : string;
  rel_SourceRegistryJSON : string;
  rel_SourceRegistryDigest : string;
  rel_ReleaseDigest : string;
  rel_CreatedAt : time
}.

#[export] Instance UsageMeterReleaseRecord_eq_dec : EqDecision UsageMeterReleaseRecord.
Proof. solve_decision. Defined.

Definition usageMeterReleaseDigest (r : UsageMeterReleaseRecord) : string :=
  providerUsageDigest "provider-usage-meter-release-v1"
    [ r.(rel_Plugin).(plg_ID); r.(rel_Plugin).(plg_Version); r.(rel_Plugin).(plg_ReleaseDigest);
      r.(rel_PluginSnapshotDigest); r.(rel_BillingPolicyKey); r.(rel_PricingSnapshotDigest);
      r.(rel_MeterKey); r.(rel_MeterVersion); r.(rel_MeterBuildDigest); r.(rel_SourceRegistryDigest) ].

Definition UsageMeterReleaseRecord_Validate (r : UsageMeterReleaseRecord) : validation :=
  first_error
    [ validatePrintableASCII r.(rel_ReleaseID) MaxSettlementReviewIDBytes;
      EventPluginRef_Validate r.(rel_Plugin);
      validatePluginRef r.(rel_Plugin);
      validatePrintableASCII r.(rel_BillingPolicyKey) MaxProviderUsageFieldBytes;
      validatePrintableASCII r.(rel_MeterKey) MaxProviderUsageFieldBytes;
      validatePrintableASCII r.(rel_MeterVersion) MaxProviderUsageFieldBytes;
      validateDigests [r.(rel_PluginSnapshotDigest); r.(rel_PricingSnapshotDigest); r.(rel_MeterBuildDigest);
                       r.(rel_SourceRegistryDigest); r.(rel_ReleaseDigest)];
      when (negb (is_canonical r.(rel_PricingSnapshotJSON))
            || negb (bool_decide (r.(rel_PricingSnapshotDigest)
                 = providerUsageJSONDigest "provider-usage-pricing-snapshot-v1" r.(rel_PricingSnapshotJSON))))
        ErrStoreIntegrity;
      match decodeProviderUsageSourceRegistry r.(rel_SourceRegistryJSON) with
      | Err _ => Some ErrStoreIntegrity
      | Ok (registry, sources) =>
        when (negb (bool_decide (registry = r.(rel_SourceRegistryJSON)))
              || negb (bool_decide (r.(rel_SourceRegistryDigest)
                   = providerUsageJSONDigest "provider-usage-source-registry-v1" registry))
              || negb (source_count_ok sources)) ErrStoreIntegrity
      end;
      when (negb (is_canonical_time r.(rel_CreatedAt))) ErrStoreIntegrity;
      when (negb (bool_decide (r.(rel_PluginSnapshotDigest) = providerUsagePluginSnapshotDigest r.(rel_Plugin)))
            || negb (bool_decide (r.(rel_ReleaseDigest) = usageMeterReleaseDigest r))
            || negb (bool_decide (r.(rel_ReleaseID)
                 = providerUsageOpaqueID "provider-usage-meter-release-id-v1" [r.(rel_ReleaseDigest)])))
        ErrStoreIntegrity ].

Record UsageMeterReleaseSpec := mkUsageMeterReleaseSpec {
  spec_Plugin : EventPluginRef;
  spec_BillingPolicyKey : string;
  spec_PricingSnapshotJSON : string;
  spec_MeterKey : string;
  spec_MeterVersion : string;
  spec_MeterBuildDigest : string;
  spec_Sources : list ProviderUsageSourceRegistration
}.

Definition NewUsageMeterReleaseRecord (spec : UsageMeterReleaseSpec) (createdAt : time)
    : result UsageMeterReleaseRecord :=
  try! pricing := canonicalProviderUsageJSON spec.(spec_PricingSnapshotJSON) in
  try! registry := NewProviderUsageSourceRegistry spec.(spec_Sources) in
  try! createdAt := canonicalExecutionTime createdAt in
  let draft releaseID digest :=
    mkUsageMeterRelease releaseID spec.(spec_Plugin) (providerUsagePluginSnapshotDigest spec.(spec_Plugin))
      spec.(spec_BillingPolicyKey) pricing
      (providerUsageJSONDigest "provider-usage-pricing-snapshot-v1" pricing)
      spec.(spec_MeterKey) spec.(spec_MeterVersion) spec.(spec_MeterBuildDigest)
      registry.(registry_CanonicalJSON) registry.(registry_Digest) digest createdAt in
  let digest := usageMeterReleaseDigest (draft "" "") in
  let release := draft (providerUsageOpaqueID "provider-usage-meter-release-id-v1" [digest]) digest in
  check! UsageMeterReleaseRecord_Validate release;;
  Ok release.

Definition SourceRegistry (r : UsageMeterReleaseRecord) : result ProviderUsageSourceRegistry :=
  try! (canonical, sources) := decodeProviderUsageSourceRegistry r.(rel_SourceRegistryJSON) in
  let registry := mkRegistry sources canonical r.(rel_SourceRegistryDigest) in
  check! ProviderUsageSourceRegistry_Validate registry;;
  Ok registry.

Definition containsSource (r : UsageMeterReleaseRecord) (want : ProviderUsageSourceRegistration) : bool :=
  match SourceRegistry r with
  | Ok registry => Registry_Contains registry want
  | Err _ => false
  end.

(** settlement_review_usage.go [usageMeterReleaseEqual]. *)
Definition usageMeterReleaseEqual (l r : UsageMeterReleaseRecord) : bool :=
  bool_decide (UsageMeterReleaseRecord_Validate l = None)
  && bool_decide (UsageMeterReleaseRecord_Validate r = None) && bool_decide (l = r).

(** ** Journal records *)

Record ProviderUsageJournalRecord := mkJournalRecord {
  jr_ReceiptID : string;
  jr_TurnID : TurnID;
  jr_AttemptID : string;
  jr_FencingToken : Sequence;
  jr_MeterReleaseID : string;
  jr_Plugin : EventPluginRef;
  jr_PluginSnapshotDigest : string;
  jr_ProviderKey : string;
  jr_ProviderAccountDigest : string;
  jr_ProviderRequestDigest : string;
  jr_ProviderEventDigest : string;
  jr_SourceKey : string;
  jr_SourceVersion : string;
  jr_SourceBuildDigest : string;
  jr_SourceRegistrationDigest : string;
  jr_UsageSchemaKey : string;
  jr_UsageSchemaVersion : string;
  jr_SourceSchemaDigest : string;
  jr_CanonicalUsageDigest : string;
  jr_ProviderReceiptDigest : string;
  jr_VerificationKind : string;
  jr_VerificationKeyDigest : string;
  jr_VerificationBuildDigest : string;
  jr_AttestationDigest : string;
  jr_JournalRecordDigest : string;
  jr_ProviderUsageJSON : string;
  jr_ProviderReportedAt : time;
  jr_CreatedAt : time
}.

#[export] Instance ProviderUsageJournalRecord_eq_dec : EqDecision ProviderUsageJournalRecord.
Proof. solve_decision. Defined.

Definition sourceRegistration (r : ProviderUsageJournalRecord) : ProviderUsageSourceRegistration :=
  mkRegistration r.(jr_ProviderKey) r.(jr_ProviderAccountDigest) r.(jr_SourceKey) r.(jr_SourceVersion)
    r.(jr_SourceBuildDigest) r.(jr_UsageSchemaKey) r.(jr_UsageSchemaVersion) r.(jr_SourceSchemaDigest)
    r.(jr_VerificationKind) r.(jr_VerificationKeyDigest) r.(jr_VerificationBuildDigest)
    r.(jr_SourceRegistrationDigest).

Definition providerUsageReceiptID (providerKey accountDigest eventDigest : string) : string :=
  providerUsageOpaqueID "provider-usage-receipt-id-v1" [providerKey; accountDigest; eventDigest].

Definition providerUsageJournalRecordDigest (r : ProviderUsageJournalRecord) : string :=
  providerUsageDigest "provider-usage-journal-record-v1"
    [ r.(jr_ReceiptID); r.(jr_TurnID); r.(jr_AttemptID); FormatInt (i64 r.(jr_FencingToken));
      r.(jr_MeterReleaseID); r.(jr_Plugin).(plg_ID); r.(jr_Plugin).(plg_Version);
      r.(jr_Plugin).(plg_ReleaseDigest); r.(jr_PluginSnapshotDigest); r.(jr_ProviderKey);
      r.(jr_ProviderAccountDigest); r.(jr_ProviderRequestDigest); r.(jr_ProviderEventDigest);
      r.(jr_SourceKey); r.(jr_SourceVersion); r.(jr_SourceBuildDigest); r.(jr_SourceRegistrationDigest);
      r.(jr_UsageSchemaKey); r.(jr_UsageSchemaVersion); r.(jr_SourceSchemaDigest);
      r.(jr_CanonicalUsageDigest); r.(jr_ProviderReceiptDigest); r.(jr_VerificationKind);
      r.(jr_VerificationKeyDigest); r.(jr_VerificationBuildDigest); r.(jr_AttestationDigest);
      format_micros r.(jr_ProviderReportedAt); format_micros r.(jr_CreatedAt) ].

Definition ProviderUsageJournalRecord_Validate (r : ProviderUsageJournalRecord) : validation :=
  first_error
    [ validatePrintableASCII r.(jr_ReceiptID) MaxSettlementReviewIDBytes;
      AttemptFence_Validate (mkAttemptFence r.(jr_TurnID) r.(jr_AttemptID) r.(jr_FencingToken) "journal" "journal");
      EventPluginRef_Validate r.(jr_Plugin);
      validatePluginRef r.(jr_Plugin);
      ProviderUsageSourceRegistration_Validate (sourceRegistration r);
      validatePrintableASCII r.(jr_MeterReleaseID) MaxSettlementReviewIDBytes;
      validateDigests [r.(jr_PluginSnapshotDigest); r.(jr_ProviderRequestDigest); r.(jr_ProviderEventDigest);
                       r.(jr_CanonicalUsageDigest); r.(jr_ProviderReceiptDigest); r.(jr_AttestationDigest);
                       r.(jr_JournalRecordDigest)];
      when (negb (is_canonical r.(jr_ProviderUsageJSON))
            || negb (bool_decide (r.(jr_CanonicalUsageDigest)
                 = providerUsageJSONDigest "provider-usage-canonical-payload-v1" r.(jr_ProviderUsageJSON))))
        ErrStoreIntegrity;
      when (negb (is_canonical_time r.(jr_ProviderReportedAt)) || negb (is_canonical_time r.(jr_CreatedAt)))
        ErrStoreIntegrity;
      when (After r.(jr_ProviderReportedAt) r.(jr_CreatedAt)
            || negb (bool_decide (r.(jr_PluginSnapshotDigest) = providerUsagePluginSnapshotDigest r.(jr_Plugin)))
            || negb (bool_decide (r.(jr_ReceiptID)
                 = providerUsageReceiptID r.(jr_ProviderKey) r.(jr_ProviderAccountDigest) r.(jr_ProviderEventDigest)))
            || negb (bool_decide (r.(jr_JournalRecordDigest) = providerUsageJournalRecordDigest r)))
        ErrStoreIntegrity ].

(** settlement_review_usage.go [providerUsageJournalRecordsEqual]. *)
Fixpoint providerUsageJournalRecordsEqual (l r : list ProviderUsageJournalRecord) : bool :=
  match l, r with
  | [], [] => true
  | x :: l', y :: r' =>
    bool_decide (ProviderUsageJournalRecord_Validate x = None)
    && bool_decide (ProviderUsageJournalRecord_Validate y = None)
    && bool_decide (x.(jr_ReceiptID) = y.(jr_ReceiptID))
    && bool_decide (x.(jr_JournalRecordDigest) = y.(jr_JournalRecordDigest))
    && bool_decide (x.(jr_ProviderUsageJSON) = y.(jr_ProviderUsageJSON))
    && providerUsageJournalRecordsEqual l' r'
  | _, _ => false
  end.

(** ** Recorders *)

(** The journal a recorder is scoped to; [journal_ref] is its address. *)
Record ProviderUsageJournal := mkProviderUsageJournal {
  journal_ref : nat;
  journal_store : nat;
  journal_marker : Z
}.

Definition NewProviderUsageJournal (ref : nat) (store : option nat) : result ProviderUsageJournal :=
  match store with
  | None => Err ErrProviderUsageJournalInvalid
  | Some s => Ok (mkProviderUsageJournal ref s 1)
  end.

Definition MatchesStore (journal : option ProviderUsageJournal) (store : nat) : bool :=
  holds_at journal (fun j => (j.(journal_marker) =? 1) && (j.(journal_store) =? store)%nat).

Record ProviderUsageRecorder := mkProviderUsageRecorder {
  rcd_journal : option ProviderUsageJournal;
  rcd_plugin : EventPluginRef;
  rcd_meterReleaseID : string;
  rcd_meterReleaseDigest : string;
  rcd_source : ProviderUsageSourceRegistration;
  rcd_marker : Z
}.

Definition Recorder_intact (r : ProviderUsageRecorder) : bool :=
  (r.(rcd_marker) =? 1)
  && holds_at r.(rcd_journal) (fun j => MatchesStore (Some j) j.(journal_store))
  && bool_decide (EventPluginRef_Validate r.(rcd_plugin) = None)
  && bool_decide (validatePluginRef r.(rcd_plugin) = None)
  && bool_decide (ProviderUsageSourceRegistration_Validate r.(rcd_source) = None)
  && bool_decide (validatePrintableASCII r.(rcd_meterReleaseID) MaxSettlementReviewIDBytes = None)
  && bool_decide (validateSettlementReviewSHA256Digest r.(rcd_meterReleaseDigest) = None).

Record AppendAttestedProviderUsageCommand := mkAppendAttested {
  aa_Fence : AttemptFence;
  aa_ProviderRequestDigest : string;
  aa_ProviderEventDigest : string;
  aa_CanonicalUsageJSON : string;
  aa_ProviderReceiptDigest : string;
  aa_AttestationDigest : string;
  aa_ProviderReportedAt : time
}.

Definition AppendAttestedProviderUsageCommand_Validate (c : AppendAttestedProviderUsageCommand) : validation :=
  first_error
    [ AttemptFence_Validate c.(aa_Fence);
      validateDigests [c.(aa_ProviderRequestDigest); c.(aa_ProviderEventDigest); c.(aa_ProviderReceiptDigest);
                       c.(aa_AttestationDigest)];
      when (negb (is_canonical c.(aa_CanonicalUsageJSON))) (ErrText "canonicalUsageJson must be canonical JSON");
      when (negb (is_canonical_time c.(aa_ProviderReportedAt)))
        (ErrText "providerReportedAt must be a canonical SQL timestamp") ].

Definition newProviderUsageJournalRecord (recorder : ProviderUsageRecorder)
    (c : AppendAttestedProviderUsageCommand) (createdAt : time) : ProviderUsageJournalRecord :=
  let s := recorder.(rcd_source) in
  let draft digest :=
    mkJournalRecord
      (providerUsageReceiptID s.(reg_ProviderKey) s.(reg_ProviderAccountDigest) c.(aa_ProviderEventDigest))
      c.(aa_Fence).(fence_TurnID) c.(aa_Fence).(fence_AttemptID) c.(aa_Fence).(fence_FencingToken)
      recorder.(rcd_meterReleaseID) recorder.(rcd_plugin)
      (providerUsagePluginSnapshotDigest recorder.(rcd_plugin))
      s.(reg_ProviderKey) s.(reg_ProviderAccountDigest) c.(aa_ProviderRequestDigest) c.(aa_ProviderEventDigest)
      s.(reg_SourceKey) s.(reg_SourceVersion) s.(reg_SourceBuildDigest) s.(reg_RegistrationDigest)
      s.(reg_UsageSchemaKey) s.(reg_UsageSchemaVersion) s.(reg_SourceSchemaDigest)
      (providerUsageJSONDigest "provider-usage-canonical-payload-v1" c.(aa_CanonicalUsageJSON))
      c.(aa_ProviderReceiptDigest) s.(reg_VerificationKind) s.(reg_VerificationKeyDigest)
      s.(reg_VerificationBuildDigest) c.(aa_AttestationDigest) digest c.(aa_CanonicalUsageJSON)
      c.(aa_ProviderReportedAt) createdAt in
  draft (providerUsageJournalRecordDigest (draft "")).

Definition providerUsageRecordMatchesAppend (r : ProviderUsageJournalRecord)
    (recorder : ProviderUsageRecorder) (c : AppendAttestedProviderUsageCommand) : bool :=
  bool_decide (ProviderUsageJournalRecord_Validate r = None)
  && bool_decide (r.(jr_TurnID) = c.(aa_Fence).(fence_TurnID))
  && bool_decide (r.(jr_AttemptID) = c.(aa_Fence).(fence_AttemptID))
  && (r.(jr_FencingToken) =? c.(aa_Fence).(fence_FencingToken))
  && bool_decide (r.(jr_MeterReleaseID) = recorder.(rcd_meterReleaseID))
  && bool_decide (r.(jr_Plugin) = recorder.(rcd_plugin))
  && bool_decide (sourceRegistration r = recorder.(rcd_source))
  && bool_decide (r.(jr_ProviderRequestDigest) = c.(aa_ProviderRequestDigest))
  && bool_decide (r.(jr_ProviderEventDigest) = c.(aa_ProviderEventDigest))
  && bool_decide (r.(jr_ProviderUsageJSON) = c.(aa_CanonicalUsageJSON))
  && bool_decide (r.(jr_ProviderReceiptDigest) = c.(aa_ProviderReceiptDigest))
  && bool_decide (r.(jr_AttestationDigest) = c.(aa_AttestationDigest))
  && (r.(jr_ProviderReportedAt) =? c.(aa_ProviderReportedAt)).
