(* ===== verification/SettlementUsage.v ===== *)
(** * Measuring and resolving reviews: the types of settlement_review_usage.go
      and settlement_review_resolution.go

    Usage evidence with its source links, the measurement and resolution
    commands and receipts of the sealed authority, and the resolution record.
    The transactions are in SettlementResolution.v. *)

From S2P Require Import Prelude GoText GoJson GoDigest GoTime GoJsonValue AgentContract TurnTypes ExecutionTypes Settlement ProviderUsage.

Definition MaxSettlementReviewUsageFieldBytes : Z := 256.
Definition MaxSettlementReviewActorIDBytes : Z := 256.
Definition SettlementReviewResolutionReasonMeteredUsageConfirmed : string := "metered_usage_confirmed".

(** ** Usage evidence *)

Record SettlementReviewUsageEvidenceRecord := mkUsageEvidence {
  ev_EvidenceID : string;
  ev_ReviewID : string;
  ev_EvidenceTurnID : TurnID;
  ev_SettlementKey : string;
  ev_ReviewRequestDigest : string;
  ev_EvidencePlugin : EventPluginRef;
  ev_BillingPolicyKey : string;
  ev_PricingSnapshotDigest : string;
  ev_MeterKey : string;
  ev_MeterVersion : string;
  ev_MeterBuildDigest : string;
  ev_MeterReleaseID : string;
  ev_UsageSourceDigest : string;
  ev_SourceReceiptCount : Z;
  ev_MeasurementDigest : string;
  ev_UsedUnits : Z;
  ev_MeterReceiptDigest : string;
  ev_EvidenceDigest : string;
  ev_CreatedAt : time
}.

#[export] Instance SettlementReviewUsageEvidenceRecord_eq_dec : EqDecision SettlementReviewUsageEvidenceRecord.
Proof. solve_decision. Defined.

Definition settlementReviewUsageEvidenceID (reviewID : string) : string :=
  sha256_hex (hash_parts ["settlement-review-usage-evidence-id-v1"; reviewID]).

Definition settlementReviewUsageEvidenceDigest (e : SettlementReviewUsageEvidenceRecord) : string :=
  sha256_digest (hash_parts
    [ "settlement-review-usage-evidence-receipt-v2"; e.(ev_EvidenceID); e.(ev_ReviewID);
      e.(ev_EvidenceTurnID); e.(ev_SettlementKey); e.(ev_ReviewRequestDigest);
      e.(ev_EvidencePlugin).(plg_ID); e.(ev_EvidencePlugin).(plg_Version);
      e.(ev_EvidencePlugin).(plg_ReleaseDigest); e.(ev_BillingPolicyKey); e.(ev_PricingSnapshotDigest);
      e.(ev_MeterKey); e.(ev_MeterVersion); e.(ev_MeterBuildDigest); e.(ev_MeterReleaseID);
      e.(ev_UsageSourceDigest); FormatInt e.(ev_SourceReceiptCount); e.(ev_MeasurementDigest);
      FormatInt e.(ev_UsedUnits); e.(ev_MeterReceiptDigest); format_micros e.(ev_CreatedAt) ]).

Definition SettlementReviewUsageEvidenceRecord_Validate (e : SettlementReviewUsageEvidenceRecord) : validation :=
  first_error
    [ validatePrintableASCII e.(ev_EvidenceID) MaxSettlementReviewIDBytes;
      validatePrintableASCII e.(ev_ReviewID) MaxSettlementReviewIDBytes;
      validatePathSegment e.(ev_EvidenceTurnID) MaxTurnIDBytes;
      validatePrintableASCII e.(ev_SettlementKey) MaxSettlementKeyBytes;
      EventPluginRef_Validate e.(ev_EvidencePlugin);
      validatePluginRef e.(ev_EvidencePlugin);
      validatePrintableASCII e.(ev_BillingPolicyKey) MaxSettlementReviewUsageFieldBytes;
      validatePrintableASCII e.(ev_MeterKey) MaxSettlementReviewUsageFieldBytes;
      validatePrintableASCII e.(ev_MeterVersion) MaxSettlementReviewUsageFieldBytes;
      validatePrintableASCII e.(ev_MeterReleaseID) MaxSettlementReviewUsageFieldBytes;
      validateDigests [e.(ev_ReviewRequestDigest); e.(ev_PricingSnapshotDigest); e.(ev_MeterBuildDigest);
                       e.(ev_UsageSourceDigest); e.(ev_MeasurementDigest); e.(ev_MeterReceiptDigest);
                       e.(ev_EvidenceDigest)];
      when ((e.(ev_UsedUnits) <? 1) || (MaxDurableSequence <? e.(ev_UsedUnits))) ErrStoreIntegrity;
      when ((e.(ev_SourceReceiptCount) <? 1) || (MaxProviderUsageSources <? e.(ev_SourceReceiptCount)))
        ErrStoreIntegrity;
      when (negb (is_canonical_time e.(ev_CreatedAt))) ErrStoreIntegrity;
      when (negb (bool_decide (e.(ev_EvidenceID) = settlementReviewUsageEvidenceID e.(ev_ReviewID)))
            || negb (bool_decide (e.(ev_EvidenceDigest) = settlementReviewUsageEvidenceDigest e)))
        ErrStoreIntegrity ].

Definition settlementReviewUsageEvidenceMatchesReview (e : SettlementReviewUsageEvidenceRecord)
    (r : SettlementReviewRecord) : bool :=
  bool_decide (SettlementReviewUsageEvidenceRecord_Validate e = None)
  && bool_decide (e.(ev_ReviewID) = r.(rv_ReviewID))
  && bool_decide (e.(ev_EvidenceTurnID) = r.(rv_TurnID))
  && bool_decide (e.(ev_SettlementKey) = r.(rv_SettlementKey))
  && bool_decide (e.(ev_ReviewRequestDigest) = r.(rv_RequestDigest)).

(** ** Source links *)

Record SettlementReviewUsageEvidenceSourceRecord := mkEvidenceSource {
  src_EvidenceID : string;
  src_Ordinal : Z;
  src_ReviewID : string;
  src_TurnID : TurnID;
  src_SettlementKey : string;
  src_ReviewRequestDigest : string;
  src_MeterReleaseID : string;
  src_UsageSourceDigest : string;
  src_EvidenceDigest : string;
  src_SourceReceiptCount : Z;
  src_ReceiptID : string;
  src_SourceRegistrationDigest : string;
  src_SourceSchemaDigest : string;
  src_CanonicalUsageDigest : string;
  src_ProviderReceiptDigest : string;
  src_JournalRecordDigest : string;
  src_CreatedAt : time
}.

#[export] Instance SettlementReviewUsageEvidenceSourceRecord_eq_dec :
  EqDecision SettlementReviewUsageEvidenceSourceRecord.
Proof. solve_decision. Defined.

Definition SettlementReviewUsageEvidenceSourceRecord_Validate (s : SettlementReviewUsageEvidenceSourceRecord)
    : validation :=
  first_error
    [ validatePrintableASCII s.(src_EvidenceID) MaxSettlementReviewIDBytes;
      validatePrintableASCII s.(src_ReviewID) MaxSettlementReviewIDBytes;
      validatePrintableASCII s.(src_SettlementKey) MaxSettlementKeyBytes;
      validatePrintableASCII s.(src_MeterReleaseID) MaxSettlementReviewIDBytes;
      validatePrintableASCII s.(src_ReceiptID) MaxSettlementReviewIDBytes;
      validatePathSegment s.(src_TurnID) MaxTurnIDBytes;
      validateDigests [s.(src_ReviewRequestDigest); s.(src_UsageSourceDigest); s.(src_EvidenceDigest);
                       s.(src_SourceRegistrationDigest); s.(src_SourceSchemaDigest);
                       s.(src_CanonicalUsageDigest); s.(src_ProviderReceiptDigest);
                       s.(src_JournalRecordDigest)];
      when ((s.(src_SourceReceiptCount) <? 1) || (MaxProviderUsageSources <? s.(src_SourceReceiptCount))
            || (s.(src_Ordinal) <? 0) || (s.(src_SourceReceiptCount) <=? s.(src_Ordinal))) ErrStoreIntegrity;
      when (negb (is_canonical_time s.(src_CreatedAt))) ErrStoreIntegrity ].

Definition matchesEvidence (s : SettlementReviewUsageEvidenceSourceRecord)
    (e : SettlementReviewUsageEvidenceRecord) : bool :=
  bool_decide (SettlementReviewUsageEvidenceSourceRecord_Validate s = None)
  && bool_decide (SettlementReviewUsageEvidenceRecord_Validate e = None)
  && bool_decide (s.(src_EvidenceID) = e.(ev_EvidenceID)) && bool_decide (s.(src_ReviewID) = e.(ev_ReviewID))
  && bool_decide (s.(src_TurnID) = e.(ev_EvidenceTurnID))
  && bool_decide (s.(src_SettlementKey) = e.(ev_SettlementKey))
  && bool_decide (s.(src_ReviewRequestDigest) = e.(ev_ReviewRequestDigest))
  && bool_decide (s.(src_MeterReleaseID) = e.(ev_MeterReleaseID))
  && bool_decide (s.(src_UsageSourceDigest) = e.(ev_UsageSourceDigest))
  && bool_decide (s.(src_EvidenceDigest) = e.(ev_EvidenceDigest))
  && (s.(src_SourceReceiptCount) =? e.(ev_SourceReceiptCount)) && (s.(src_CreatedAt) =? e.(ev_CreatedAt)).

Definition settlementReviewUsageEvidenceSourceRecord (e : SettlementReviewUsageEvidenceRecord) (ordinal : Z)
    (source : ProviderUsageJournalRecord) : SettlementReviewUsageEvidenceSourceRecord :=
  mkEvidenceSource e.(ev_EvidenceID) ordinal e.(ev_ReviewID) e.(ev_EvidenceTurnID) e.(ev_SettlementKey)
    e.(ev_ReviewRequestDigest) e.(ev_MeterReleaseID) e.(ev_UsageSourceDigest) e.(ev_EvidenceDigest)
    e.(ev_SourceReceiptCount) source.(jr_ReceiptID) source.(jr_SourceRegistrationDigest)
    source.(jr_SourceSchemaDigest) source.(jr_CanonicalUsageDigest) source.(jr_ProviderReceiptDigest)
    source.(jr_JournalRecordDigest) e.(ev_CreatedAt).

Definition settlementReviewProviderUsageSourceEligible (r : SettlementReviewRecord)
    (record : ProviderUsageJournalRecord) : bool :=
  settlementReviewProviderUsageAware r && bool_decide (ProviderUsageJournalRecord_Validate record = None)
  && bool_decide (record.(jr_TurnID) = r.(rv_TurnID))
  && bool_decide (r.(rv_Source) ∈ [SettlementReviewSourceExecutorCompletion;
                                   SettlementReviewSourceExecutorTerminal;
                                   SettlementReviewSourceReconcileTerminal])
  && (record.(jr_FencingToken) <=? r.(rv_FencingToken)).

Definition settlementReviewProviderUsageSourceDigest (r : SettlementReviewRecord)
    (release : UsageMeterReleaseRecord) (sources : list ProviderUsageJournalRecord) : string :=
  providerUsageDigest "settlement-review-provider-usage-source-v1"
    ([ r.(rv_ReviewID); r.(rv_TurnID); r.(rv_SettlementKey); r.(rv_RequestDigest);
       release.(rel_ReleaseID); release.(rel_ReleaseDigest); release.(rel_PluginSnapshotDigest);
       release.(rel_SourceRegistryDigest); FormatInt (Z.of_nat (length sources)) ]
     ++ concat (map (fun s =>
          [ s.(jr_ReceiptID); s.(jr_AttemptID); FormatInt (i64 s.(jr_FencingToken));
            s.(jr_SourceRegistrationDigest); s.(jr_SourceSchemaDigest); s.(jr_CanonicalUsageDigest);
            s.(jr_ProviderReceiptDigest); s.(jr_JournalRecordDigest) ]) sources)).

Definition settlementReviewProviderMeterReceiptDigest (e : SettlementReviewUsageEvidenceRecord)
    (release : UsageMeterReleaseRecord) : string :=
  providerUsageDigest "settlement-review-provider-meter-receipt-v1"
    [ e.(ev_EvidenceID); e.(ev_ReviewID); e.(ev_EvidenceTurnID); e.(ev_SettlementKey);
      e.(ev_ReviewRequestDigest); release.(rel_ReleaseID); release.(rel_ReleaseDigest);
      e.(ev_UsageSourceDigest); FormatInt e.(ev_SourceReceiptCount); e.(ev_MeasurementDigest);
      FormatInt e.(ev_UsedUnits) ].

(** ** Measurement commands *)

Record CaptureSettlementReviewUsageEvidenceCommand := mkCaptureCommand {
  cap_TurnID : TurnID;
  cap_ReviewID : string;
  cap_ExpectedRequestDigest : string
}.

Definition CaptureSettlementReviewUsageEvidenceCommand_Validate
    (c : CaptureSettlementReviewUsageEvidenceCommand) : validation :=
  first_error
    [ validatePathSegment c.(cap_TurnID) MaxTurnIDBytes;
      validatePrintableASCII c.(cap_ReviewID) MaxSettlementReviewIDBytes;
      validateSettlementReviewSHA256Digest c.(cap_ExpectedRequestDigest) ].

Record MeasureSettlementReviewProviderUsageCommand := mkMeasureCommand {
  msr_Review : SettlementReviewRecord;
  msr_PrincipalID : PrincipalID;
  msr_Plugin : EventPluginRef;
  msr_EvidenceID : string;
  msr_MeterRelease : UsageMeterReleaseRecord;
  msr_Sources : list ProviderUsageJournalRecord;
  msr_UsageSourceDigest : string
}.

(** Strictly increasing receipt ids. *)
Fixpoint receipts_increase (sources : list ProviderUsageJournalRecord) : bool :=
  match sources with
  | a :: (b :: _) as rest => string_ltb a.(jr_ReceiptID) b.(jr_ReceiptID) && receipts_increase rest
  | _ => true
  end.

Definition MeasureSettlementReviewProviderUsageCommand_Validate
    (c : MeasureSettlementReviewProviderUsageCommand) : validation :=
  first_error
    [ when (bool_decide (is_Some (SettlementReviewRecord_Validate c.(msr_Review)))
            || negb (bool_decide (c.(msr_Review).(rv_Status) = SettlementReviewStatusPending))
            || negb (settlementReviewProviderUsageAware c.(msr_Review))) ErrStoreIntegrity;
      validateBoundedText c.(msr_PrincipalID) MaxPrincipalIDBytes;
      when (bool_decide (is_Some (EventPluginRef_Validate c.(msr_Plugin)))
            || bool_decide (is_Some (validatePluginRef c.(msr_Plugin)))
            || negb (bool_decide (c.(msr_EvidenceID) = settlementReviewUsageEvidenceID c.(msr_Review).(rv_ReviewID)))
            || bool_decide (is_Some (UsageMeterReleaseRecord_Validate c.(msr_MeterRelease)))
            || negb (bool_decide (c.(msr_MeterRelease).(rel_Plugin) = c.(msr_Plugin)))
            || (Z.of_nat (length c.(msr_Sources)) <? 1)
            || (MaxProviderUsageSources <? Z.of_nat (length c.(msr_Sources)))) ErrStoreIntegrity;
      validateSettlementReviewSHA256Digest c.(msr_UsageSourceDigest);
      when (negb (forallb (fun s =>
              bool_decide (ProviderUsageJournalRecord_Validate s = None)
              && bool_decide (s.(jr_TurnID) = c.(msr_Review).(rv_TurnID))
              && bool_decide (s.(jr_Plugin) = c.(msr_Plugin))
              && bool_decide (s.(jr_MeterReleaseID) = c.(msr_MeterRelease).(rel_ReleaseID))
              && containsSource c.(msr_MeterRelease) (sourceRegistration s)
              && settlementReviewProviderUsageSourceEligible c.(msr_Review) s) c.(msr_Sources))
            || negb (receipts_increase c.(msr_Sources))) ErrStoreIntegrity;
      when (negb (bool_decide (c.(msr_UsageSourceDigest)
              = settlementReviewProviderUsageSourceDigest c.(msr_Review) c.(msr_MeterRelease) c.(msr_Sources))))
        ErrStoreIntegrity ].

Record SettlementReviewProviderUsageAuthorityReceipt := mkMeasureReceipt {
  mrc_MeasurementDigest : string;
  mrc_UsedUnits : Z
}.

Definition SettlementReviewProviderUsageAuthorityReceipt_Validate
    (r : SettlementReviewProviderUsageAuthorityReceipt) (c : MeasureSettlementReviewProviderUsageCommand)
    : validation :=
  first_error
    [ MeasureSettlementReviewProviderUsageCommand_Validate c;
      validateSettlementReviewSHA256Digest r.(mrc_MeasurementDigest);
      when ((r.(mrc_UsedUnits) <? 1) || (MaxDurableSequence <? r.(mrc_UsedUnits))) (ErrText "usedUnits out of range") ].

(** ** Resolution *)

Record ResolveSettlementReviewCommand := mkResolveCommand {
  rsv_TurnID : TurnID;
  rsv_ReviewID : string;
  rsv_ExpectedRequestDigest : string;
  rsv_EvidenceID : string;
  rsv_ExpectedEvidenceDigest : string;
  rsv_ActorID : string
}.

Definition ResolveSettlementReviewCommand_Validate (c : ResolveSettlementReviewCommand) : validation :=
  first_error
    [ validatePathSegment c.(rsv_TurnID) MaxTurnIDBytes;
      validatePrintableASCII c.(rsv_ReviewID) MaxSettlementReviewIDBytes;
      validateSettlementReviewSHA256Digest c.(rsv_ExpectedRequestDigest);
      validatePrintableASCII c.(rsv_EvidenceID) MaxSettlementReviewIDBytes;
      validateSettlementReviewSHA256Digest c.(rsv_ExpectedEvidenceDigest);
      validatePrintableASCII c.(rsv_ActorID) MaxSettlementReviewActorIDBytes ].

Definition settlementReviewResolutionID (reviewID : string) : string :=
  sha256_hex (hash_parts ["settlement-review-resolution-id-v1"; reviewID]).

Definition settlementReviewResolutionDecisionDigestFields (resolutionID reviewID : string) (turnID : TurnID)
    (key reviewRequestDigest evidenceID evidenceDigest pricingSnapshotDigest : string)
    (intent : SettlementIntent) (usedUnits : Z) (actorID reason : string) : string :=
  sha256_digest (hash_parts
    [ "settlement-review-resolution-decision-v2"; resolutionID; reviewID; turnID; key; reviewRequestDigest;
      evidenceID; evidenceDigest; pricingSnapshotDigest; intent; FormatInt usedUnits; actorID; reason ]).

Definition settlementReviewResolutionDecisionDigest (r : SettlementReviewRecord)
    (e : SettlementReviewUsageEvidenceRecord) (actorID : string) : string :=
  settlementReviewResolutionDecisionDigestFields (settlementReviewResolutionID r.(rv_ReviewID))
    r.(rv_ReviewID) r.(rv_TurnID) r.(rv_SettlementKey) r.(rv_RequestDigest) e.(ev_EvidenceID)
    e.(ev_EvidenceDigest) e.(ev_PricingSnapshotDigest) SettlementIntentFinalize e.(ev_UsedUnits) actorID
    SettlementReviewResolutionReasonMeteredUsageConfirmed.

Record SettlementReviewResolutionRecord := mkResolution {
  rs_ResolutionID : string;
  rs_ReviewID : string;
  rs_TurnID : TurnID;
  rs_SettlementKey : string;
  rs_ReviewRequestDigest : string;
  rs_EvidenceID : string;
  rs_PricingSnapshotDigest : string;
  rs_DecisionDigest : string;
  rs_ResolutionDigest : string;
  rs_Intent : SettlementIntent;
  rs_UsedUnits : Z;
  rs_ReservedUnits : Z;
  rs_ActorID : string;
  rs_Reason : string;
  rs_EvidenceDigest : string;
  rs_AuthorityReceiptDigest : string;
  rs_CreatedAt : time
}.

#[export] Instance SettlementReviewResolutionRecord_eq_dec : EqDecision SettlementReviewResolutionRecord.
Proof. solve_decision. Defined.

Definition settlementReviewResolutionRecordDecisionDigest (r : SettlementReviewResolutionRecord) : string :=
  settlementReviewResolutionDecisionDigestFields r.(rs_ResolutionID) r.(rs_ReviewID) r.(rs_TurnID)
    r.(rs_SettlementKey) r.(rs_ReviewRequestDigest) r.(rs_EvidenceID) r.(rs_EvidenceDigest)
    r.(rs_PricingSnapshotDigest) r.(rs_Intent) r.(rs_UsedUnits) r.(rs_ActorID) r.(rs_Reason).

Definition settlementReviewResolutionDigest (r : SettlementReviewResolutionRecord) : string :=
  sha256_digest (hash_parts
    [ "settlement-review-resolution-receipt-v2"; r.(rs_ResolutionID); r.(rs_ReviewID); r.(rs_TurnID);
      r.(rs_SettlementKey); r.(rs_ReviewRequestDigest); r.(rs_EvidenceID); r.(rs_EvidenceDigest);
      r.(rs_PricingSnapshotDigest); r.(rs_DecisionDigest); r.(rs_Intent); FormatInt r.(rs_UsedUnits);
      FormatInt r.(rs_ReservedUnits); r.(rs_ActorID); r.(rs_Reason); r.(rs_AuthorityReceiptDigest);
      format_micros r.(rs_CreatedAt) ]).

Definition SettlementReviewResolutionRecord_Validate (r : SettlementReviewResolutionRecord) : validation :=
  first_error
    [ validatePrintableASCII r.(rs_ResolutionID) MaxSettlementReviewIDBytes;
      validatePrintableASCII r.(rs_ReviewID) MaxSettlementReviewIDBytes;
      validatePathSegment r.(rs_TurnID) MaxTurnIDBytes;
      validatePrintableASCII r.(rs_SettlementKey) MaxSettlementKeyBytes;
      validatePrintableASCII r.(rs_EvidenceID) MaxSettlementReviewIDBytes;
      validateDigests [r.(rs_ReviewRequestDigest); r.(rs_PricingSnapshotDigest); r.(rs_DecisionDigest);
                       r.(rs_ResolutionDigest); r.(rs_EvidenceDigest); r.(rs_AuthorityReceiptDigest)];
      when (negb (bool_decide (r.(rs_Intent) = SettlementIntentFinalize)) || (r.(rs_UsedUnits) <? 1)
            || (MaxDurableSequence <? r.(rs_UsedUnits)) || (r.(rs_ReservedUnits) <? r.(rs_UsedUnits))
            || (MaxDurableSequence <? r.(rs_ReservedUnits))) ErrStoreIntegrity;
      validatePrintableASCII r.(rs_ActorID) MaxSettlementReviewActorIDBytes;
      when (negb (is_canonical_time r.(rs_CreatedAt))
            || negb (bool_decide (r.(rs_Reason) = SettlementReviewResolutionReasonMeteredUsageConfirmed)))
        ErrStoreIntegrity;
      when (negb (bool_decide (r.(rs_ResolutionID) = settlementReviewResolutionID r.(rs_ReviewID)))
            || negb (bool_decide (r.(rs_EvidenceID) = settlementReviewUsageEvidenceID r.(rs_ReviewID)))
            || negb (bool_decide (r.(rs_DecisionDigest) = settlementReviewResolutionRecordDecisionDigest r))
            || negb (bool_decide (r.(rs_ResolutionDigest) = settlementReviewResolutionDigest r)))
        ErrStoreIntegrity ].

Record SettlementReviewResolutionAuthorityCommand := mkResolutionAuthorityCommand {
  rac_Review : SettlementReviewRecord;
  rac_Evidence : SettlementReviewUsageEvidenceRecord;
  rac_PrincipalID : PrincipalID;
  rac_ResolutionID : string;
  rac_DecisionDigest : string;
  rac_Intent : SettlementIntent;
  rac_UsedUnits : Z;
  rac_ActorID : string;
  rac_Reason : string;
  rac_EvidenceDigest : string;
  rac_PricingSnapshotDigest : string
}.

Definition SettlementReviewResolutionAuthorityCommand_Validate
    (c : SettlementReviewResolutionAuthorityCommand) : validation :=
  let r := c.(rac_Review) in
  let e := c.(rac_Evidence) in
  first_error
    [ when (bool_decide (is_Some (SettlementReviewRecord_Validate r))
            || negb (bool_decide (r.(rv_Status) = SettlementReviewStatusMeteredHeld))) ErrStoreIntegrity;
      when (bool_decide (is_Some (SettlementReviewUsageEvidenceRecord_Validate e))
            || negb (bool_decide (e.(ev_ReviewID) = r.(rv_ReviewID)))
            || negb (bool_decide (e.(ev_EvidenceTurnID) = r.(rv_TurnID)))
            || negb (bool_decide (e.(ev_SettlementKey) = r.(rv_SettlementKey)))
            || negb (bool_decide (e.(ev_ReviewRequestDigest) = r.(rv_RequestDigest)))
            || negb (e.(ev_CreatedAt) =? r.(rv_UpdatedAt))) ErrStoreIntegrity;
      validateBoundedText c.(rac_PrincipalID) MaxPrincipalIDBytes;
      ResolveSettlementReviewCommand_Validate
        (mkResolveCommand r.(rv_TurnID) r.(rv_ReviewID) r.(rv_RequestDigest) e.(ev_EvidenceID)
           e.(ev_EvidenceDigest) c.(rac_ActorID));
      when (negb (bool_decide (c.(rac_Intent) = SettlementIntentFinalize))
            || negb (c.(rac_UsedUnits) =? e.(ev_UsedUnits))
            || negb (bool_decide (c.(rac_Reason) = SettlementReviewResolutionReasonMeteredUsageConfirmed))
            || negb (bool_decide (c.(rac_EvidenceDigest) = e.(ev_EvidenceDigest)))
            || negb (bool_decide (c.(rac_PricingSnapshotDigest) = e.(ev_PricingSnapshotDigest))))
        ErrStoreIntegrity;
      when (negb (bool_decide (c.(rac_ResolutionID) = settlementReviewResolutionID r.(rv_ReviewID)))
            || negb (bool_decide (c.(rac_DecisionDigest)
                 = settlementReviewResolutionDecisionDigest r e c.(rac_ActorID)))) ErrStoreIntegrity ].

Record SettlementReviewResolutionAuthorityReceipt := mkResolutionReceipt {
  rrc_ResolutionID : string;
  rrc_DecisionDigest : string;
  rrc_EvidenceID : string;
  rrc_EvidenceDigest : string;
  rrc_PricingSnapshotDigest : string;
  rrc_UsedUnits : Z;
  rrc_ReservedUnits : Z;
  rrc_ReceiptDigest : string
}.

Definition SettlementReviewResolutionAuthorityReceipt_Validate
    (r : SettlementReviewResolutionAuthorityReceipt) (c : SettlementReviewResolutionAuthorityCommand)
    : validation :=
  first_error
    [ SettlementReviewResolutionAuthorityCommand_Validate c;
      when (negb (bool_decide (r.(rrc_ResolutionID) = c.(rac_ResolutionID)))
            || negb (bool_decide (r.(rrc_DecisionDigest) = c.(rac_DecisionDigest)))
            || negb (bool_decide (r.(rrc_EvidenceID) = c.(rac_Evidence).(ev_EvidenceID)))
            || negb (bool_decide (r.(rrc_EvidenceDigest) = c.(rac_Evidence).(ev_EvidenceDigest)))
            || negb (bool_decide (r.(rrc_PricingSnapshotDigest) = c.(rac_Evidence).(ev_PricingSnapshotDigest)))
            || negb (r.(rrc_UsedUnits) =? c.(rac_UsedUnits))) ErrStoreIntegrity;
      when ((r.(rrc_ReservedUnits) <? r.(rrc_UsedUnits)) || (r.(rrc_ReservedUnits) <? 1)
            || (MaxDurableSequence <? r.(rrc_ReservedUnits))) ErrSettlementReviewUnitsExceedReserved;
      validateSettlementReviewSHA256Digest r.(rrc_ReceiptDigest) ].
