(* ===== verification/SqlDatabase.v ===== *)
(** * The durable tables: sql_store.go and sql_execution_store.go

    The rows of the Turn, Event, Attempt, Effect, Operation and settlement tables, the conversions
    between rows and domain values, and the statements the stores issue.

    A table is the list of its rows in primary-key order.  A statement that
    reads one row takes the first match: the tables' unique keys make it the
    only one.  An INSERT fails on a duplicate unique key.  A JSON column is
    modelled by what [decodeStrictJSON] reads from it, [None] when it does not
    decode; the value written is what encoding and decoding gives, so strings
    have invalid UTF-8 replaced and raw JSON is compacted.  The CHECK
    constraints of the schema repeat the validators and are not modelled. *)

From S2P Require Import Prelude GoText GoJson AgentContract TurnTypes MemoryStore ExecutionTypes Settlement ProviderUsage SettlementUsage.

(** ** Rows *)

Record sqlTurnRow := mkSqlTurnRow {
  tr_ID : Z;
  tr_TurnID : string;
  tr_PrincipalID : string;
  tr_ThreadID : string;
  tr_IdempotencyKey : string;
  tr_CommandDigest : string;
  tr_PluginSnapshotJSON : option EventPluginRef;
  tr_Status : string;
  tr_LastEventSequence : Z;
  tr_ActiveAttemptID : option string;
  tr_FencingToken : Z;
  tr_CancelRequestedAt : option time;
  tr_StartedAt : option time;
  tr_FinishedAt : option time;
  tr_CreatedAt : time;
  tr_UpdatedAt : time
}.

Record sqlTurnEventRow := mkSqlTurnEventRow {
  er_ID : Z;
  er_TurnID : string;
  er_Sequence : Z;
  er_EventID : string;
  er_SchemaVersion : Z;
  er_EventType : string;
  er_EventJSON : option EventEnvelope;
  er_CreatedAt : time
}.

Record sqlTurnAttemptRow := mkSqlTurnAttemptRow {
  ar_ID : Z;
  ar_AttemptID : string;
  ar_TurnID : string;
  ar_FencingToken : Z;
  ar_Status : string;
  ar_WorkerID : string;
  ar_WorkerBuildDigest : string;
  ar_ClaimedAt : time;
  ar_LastHeartbeatAt : time;
  ar_LeaseExpiresAt : time;
  ar_FinishedAt : option time;
  ar_CreatedAt : time;
  ar_UpdatedAt : time
}.

Record sqlEffectOutboxRow := mkSqlEffectOutboxRow {
  fx_ID : Z;
  fx_OutboxID : string;
  fx_TurnID : string;
  fx_AttemptID : string;
  fx_TurnFencingToken : Z;
  fx_OperationID : string;
  fx_Ordinal : Z;
  fx_Topic : string;
  fx_DedupeKey : string;
  fx_PayloadJSON : string;
  fx_Status : string;
  fx_AvailableAt : time;
  fx_DeliveryAttempts : Z;
  fx_DispatchFencingToken : Z;
  fx_LeaseOwnerID : option string;
  fx_LeaseExpiresAt : option time;
  fx_LastErrorCode : option string;
  fx_DeliveredAt : option time;
  fx_DeadLetteredAt : option time;
  fx_CreatedAt : time;
  fx_UpdatedAt : time
}.

Record sqlTurnOperationRow := mkSqlTurnOperationRow {
  or_ID : Z;
  or_TurnID : string;
  or_OperationID : string;
  or_OperationDigest : string;
  or_AttemptID : string;
  or_FencingToken : Z;
  or_EventSequence : Z;
  or_TurnStatus : string;
  or_EffectCount : Z;
  or_CreatedAt : time
}.

(** A row of a table whose columns are the fields of a record: the conversions
    between the two only rename them, read a NULL text as empty and write an
    empty one as NULL. *)
Record stored (A : Type) := mkStored { row_ID : Z; row_record : A }.
Arguments mkStored {A} _ _.
Arguments row_ID {A} _.
Arguments row_record {A} _.

(** What the commercial authority accepted.  Its own tables are a function of
    the calls it accepted, so the ledger is their sequence. *)
Inductive ledgerEntry : Type :=
| Settled (c : SettlementCommand)
| HeldForReview (c : SettlementReviewHoldCommand)
| ReviewResolved (c : SettlementReviewResolutionAuthorityCommand).

(** The settlement tables: reviews, usage evidence and its sources, resolutions,
    the provider usage journal, the meter releases and the ledger. *)
Record SettlementTables := mkSettlementTables {
  st_reviews : list (stored SettlementReviewRecord);
  st_evidence : list (stored SettlementReviewUsageEvidenceRecord);
  st_sources : list (stored SettlementReviewUsageEvidenceSourceRecord);
  st_resolutions : list (stored SettlementReviewResolutionRecord);
  st_journal : list (stored ProviderUsageJournalRecord);
  st_releases : list (stored UsageMeterReleaseRecord);
  st_ledger : list ledgerEntry
}.

Definition noSettlement : SettlementTables := mkSettlementTables [] [] [] [] [] [] [].

Record Database := mkDatabase {
  db_turns : list sqlTurnRow;
  db_events : list sqlTurnEventRow;
  db_attempts : list sqlTurnAttemptRow;
  db_effects : list sqlEffectOutboxRow;
  db_operations : list sqlTurnOperationRow;
  db_settlement : SettlementTables
}.

(** The configured part of an [SQLStore]; [cfg_sqlite] is the dialect. *)
Record SQLStoreConfig := mkSQLStoreConfig {
  cfg_sqlite : bool;
  cfg_attemptLeaseTTL : Z;
  cfg_maxTurnAttempts : Z;
  cfg_effectLease : Z;
  cfg_maxDeliveryAttempts : Z
}.

(** ** Statements *)

(** [SELECT ... WHERE p LIMIT 1]. *)
Definition select_one {A} (p : A → bool) (rows : list A) : option A := List.find p rows.

(** [UPDATE ... SET f WHERE p] and the number of rows it matched. *)
Definition update_rows {A} (p : A → bool) (f : A → A) (rows : list A) : list A :=
  map (fun r => if p r then f r else r) rows.
Definition rows_matched {A} (p : A → bool) (rows : list A) : nat := length (List.filter p rows).

Definition turn_is (turnID : TurnID) (r : sqlTurnRow) : bool := bool_decide (r.(tr_TurnID) = turnID).

Definition turn_owned_by (turnID : TurnID) (p : PrincipalID) (th : ThreadID) (r : sqlTurnRow) : bool :=
  bool_decide (r.(tr_TurnID) = turnID) && bool_decide (r.(tr_PrincipalID) = p)
  && bool_decide (r.(tr_ThreadID) = th).

(** [lockTurn] under one of its predicates. *)
Definition lockTurn (db : Database) (predicate : sqlTurnRow → bool) : result sqlTurnRow :=
  match select_one predicate db.(db_turns) with
  | Some row => Ok row
  | None => Err ErrTurnNotFound
  end.

Definition set_turns (db : Database) (rows : list sqlTurnRow) : Database :=
  mkDatabase rows db.(db_events) db.(db_attempts) db.(db_effects) db.(db_operations) db.(db_settlement).
Definition set_events (db : Database) (rows : list sqlTurnEventRow) : Database :=
  mkDatabase db.(db_turns) rows db.(db_attempts) db.(db_effects) db.(db_operations) db.(db_settlement).
Definition set_attempts (db : Database) (rows : list sqlTurnAttemptRow) : Database :=
  mkDatabase db.(db_turns) db.(db_events) rows db.(db_effects) db.(db_operations) db.(db_settlement).
Definition set_effects (db : Database) (rows : list sqlEffectOutboxRow) : Database :=
  mkDatabase db.(db_turns) db.(db_events) db.(db_attempts) rows db.(db_operations) db.(db_settlement).

Definition set_operations (db : Database) (rows : list sqlTurnOperationRow) : Database :=
  mkDatabase db.(db_turns) db.(db_events) db.(db_attempts) db.(db_effects) rows db.(db_settlement).
Definition set_settlement (db : Database) (st : SettlementTables) : Database :=
  mkDatabase db.(db_turns) db.(db_events) db.(db_attempts) db.(db_effects) db.(db_operations) st.

Definition set_reviews (st : SettlementTables) rows : SettlementTables :=
  mkSettlementTables rows st.(st_evidence) st.(st_sources) st.(st_resolutions) st.(st_journal)
    st.(st_releases) st.(st_ledger).
Definition set_ledger (st : SettlementTables) entries : SettlementTables :=
  mkSettlementTables st.(st_reviews) st.(st_evidence) st.(st_sources) st.(st_resolutions) st.(st_journal)
    st.(st_releases) entries.

Definition updateTurnColumns (db : Database) (turnID : TurnID) (columns : sqlTurnRow → sqlTurnRow)
    : result Database :=
  guard! (rows_matched (turn_is turnID) db.(db_turns) =? 1)%nat else ErrStoreIntegrity;;
  Ok (set_turns db (update_rows (turn_is turnID) columns db.(db_turns))).

Definition updateAttemptColumns (db : Database) (id : Z)
    (columns : sqlTurnAttemptRow → sqlTurnAttemptRow) : Database :=
  set_attempts db (update_rows (fun r => r.(ar_ID) =? id) columns db.(db_attempts)).

Definition updateEffectColumns (db : Database) (id : Z)
    (columns : sqlEffectOutboxRow → sqlEffectOutboxRow) : result Database :=
  guard! (rows_matched (fun r => (r.(fx_ID) =? id)%Z) db.(db_effects) =? 1)%nat
    else ErrStoreIntegrity;;
  Ok (set_effects db (update_rows (fun r => r.(fx_ID) =? id) columns db.(db_effects))).

Definition lookupAttemptByID (db : Database) (attemptID : string) : option sqlTurnAttemptRow :=
  select_one (fun r => bool_decide (r.(ar_AttemptID) = attemptID)) db.(db_attempts).

Definition lockAttempt (db : Database) (turnID attemptID : string) (fence : Z)
    : result sqlTurnAttemptRow :=
  match select_one (fun r => bool_decide (r.(ar_TurnID) = turnID)
                             && bool_decide (r.(ar_AttemptID) = attemptID)
                             && (r.(ar_FencingToken) =? fence)) db.(db_attempts) with
  | Some row => Ok row
  | None => Err ErrAttemptNotFound
  end.

(** settlement_review.go [lookupSettlementReviewTx]. *)
Definition lookupSettlementReviewTx (db : Database) (turnID : TurnID)
    : result (option SettlementReviewRecord) :=
  match select_one (fun r => bool_decide (r.(row_record).(rv_TurnID) = turnID)) db.(db_settlement).(st_reviews) with
  | None => Ok None
  | Some row =>
    check! SettlementReviewRecord_Validate row.(row_record) as ErrStoreIntegrity;;
    Ok (Some row.(row_record))
  end.

(** The next AUTO_INCREMENT value. *)
Definition next_id {A} (id : A → Z) (rows : list A) : Z :=
  foldr Z.max 0 (map id rows) + 1.

(** ** Transactions *)

(** How the driver ends a transaction whose body succeeded: it reports the
    commit, or it reports a failure after a commit that did or did not happen. *)
Inductive txOutcome : Type := TxReported | TxLost (committed : bool).

Definition driverError : error := ErrText "driver error".

Definition writeTransaction {A} (cfg : SQLStoreConfig) (ctx : context) (outcome : txOutcome)
    (body : Database → result (A * Database)) (db : Database) : result A * Database :=
  match ctx 1%nat with
  | Some e => (Err e, db)
  | None =>
    match (if cfg.(cfg_sqlite) then ctx 2%nat else None) with
    | Some e => (Err e, db)
    | None =>
      match body db with
      | Err e => (Err e, db)
      | Ok (a, db') =>
        match outcome with
        | TxReported => (Ok a, db')
        | TxLost committed => (Err driverError, if committed then db' else db)
        end
      end
    end
  end.

(** [normalize]: the sentinels it passes through; the rest is unavailable. *)
Definition normalize (e : error) : error :=
  match e with
  | ErrText _ | ErrReservedEventType | ErrNoClaimableTurn | ErrNoClaimableEffects
  | ErrSubscriptionClosed | ErrAdmissionClosed | ErrEOF
  | ErrProviderUsageJournalInvalid | ErrProviderUsageConflict | ErrProviderUsageForbidden
  | ErrUsageMeterReleaseNotFound | ErrUsageMeterReleaseConflict
  | ErrStoreUnavailable => ErrStoreUnavailable
  | _ => e
  end.

(** ** Time *)

(** [executionNow] on what the configured clock returned. *)
Definition executionNow (clock : result time) : result time :=
  try! now := clock in canonicalExecutionTime now.

Definition MaxAttemptLeaseTTL : Z := 10 * minute.

Definition executionLeaseExpiry (cfg : SQLStoreConfig) (now : time) : result time :=
  guard! negb ((cfg.(cfg_attemptLeaseTTL) <=? 0) || (MaxAttemptLeaseTTL <? cfg.(cfg_attemptLeaseTTL)))
    else ErrStoreIntegrity;;
  try! expiresAt := canonicalExecutionTime (now + cfg.(cfg_attemptLeaseTTL)) as ErrStoreIntegrity in
  guard! After expiresAt now else ErrStoreIntegrity;;
  Ok expiresAt.

(** ** Counters *)

Definition turnAttemptBudget (cfg : SQLStoreConfig) : result Z :=
  guard! negb ((cfg.(cfg_maxTurnAttempts) <=? 0) || (MaxTurnAttemptsLimit <? cfg.(cfg_maxTurnAttempts)))
    else ErrStoreIntegrity;;
  Ok cfg.(cfg_maxTurnAttempts).

Definition nextExecutionFence (last : Z) : result Sequence :=
  guard! negb ((last <? 0) || (MaxDurableSequence <? u64 last)) else ErrStoreIntegrity;;
  guard! negb (u64 last =? MaxDurableSequence) else ErrAttemptFenceExhausted;;
  Ok (u64 (i64 (last + 1))).

Definition nextSQLSequence (last : Z) : result Sequence :=
  guard! negb (last <? 1) else ErrStoreIntegrity;;
  guard! negb (MaxDurableSequence <=? u64 last) else ErrSequenceExhausted;;
  Ok (u64 (i64 (last + 1))).

(** ** Row conversions *)

Definition plugin_column (p : EventPluginRef) : option EventPluginRef :=
  Some (mkEventPluginRef (json_string_column p.(plg_ID)) (json_string_column p.(plg_Version))
          (json_string_column p.(plg_ReleaseDigest))).

Definition turnToSQLRow (id : Z) (turn : Turn) (last : Sequence) : sqlTurnRow :=
  {| tr_ID := id;
     tr_TurnID := turn.(turn_ID);
     tr_PrincipalID := turn.(turn_PrincipalID);
     tr_ThreadID := turn.(turn_ThreadID);
     tr_IdempotencyKey := turn.(turn_IdempotencyKey);
     tr_CommandDigest := turn.(turn_CommandDigest);
     tr_PluginSnapshotJSON := plugin_column turn.(turn_Plugin);
     tr_Status := turn.(turn_Status);
     tr_LastEventSequence := i64 last;
     tr_ActiveAttemptID := None;
     tr_FencingToken := 0;
     tr_CancelRequestedAt := turn.(turn_CancelRequestedAt);
     tr_StartedAt := turn.(turn_StartedAt);
     tr_FinishedAt := turn.(turn_FinishedAt);
     tr_CreatedAt := turn.(turn_CreatedAt);
     tr_UpdatedAt := turn.(turn_UpdatedAt) |}.

Definition toTurn (row : sqlTurnRow) : result Turn :=
  guard! negb ((row.(tr_LastEventSequence) <? 1)
               || (MaxDurableSequence <? u64 row.(tr_LastEventSequence))) else ErrStoreIntegrity;;
  guard! negb ((row.(tr_FencingToken) <? 0) || (MaxDurableSequence <? u64 row.(tr_FencingToken)))
    else ErrStoreIntegrity;;
  guard! negb (holds_at row.(tr_ActiveAttemptID) (fun a =>
      (row.(tr_FencingToken) <? 1)
      || bool_decide (is_Some (validatePrintableASCII a MaxAttemptIDBytes))))
    else ErrStoreIntegrity;;
  match row.(tr_PluginSnapshotJSON) with
  | None => Err ErrStoreIntegrity
  | Some plugin =>
    let turn := {|
      turn_ID := row.(tr_TurnID);
      turn_PrincipalID := row.(tr_PrincipalID);
      turn_ThreadID := row.(tr_ThreadID);
      turn_IdempotencyKey := row.(tr_IdempotencyKey);
      turn_CommandDigest := row.(tr_CommandDigest);
      turn_Plugin := plugin;
      turn_Status := row.(tr_Status);
      turn_CancelRequestedAt := row.(tr_CancelRequestedAt);
      turn_CreatedAt := row.(tr_CreatedAt);
      turn_UpdatedAt := row.(tr_UpdatedAt);
      turn_StartedAt := row.(tr_StartedAt);
      turn_FinishedAt := row.(tr_FinishedAt) |} in
    check! Turn_Validate turn as ErrStoreIntegrity;;
    Ok turn
  end.

Definition validateStoredEnvelope (event : EventEnvelope) : validation :=
  first_error
    [ when (bool_decide (is_Some (EventEnvelope_Validate event))
            || (MaxDurableSequence <? event.(ev_Sequence))) ErrStoreIntegrity;
      when (bool_decide (is_Some (validatePluginRef event.(ev_Plugin)))) ErrStoreIntegrity;
      when (bool_decide (is_Some (EventDraft_Validate
              (mkEventDraft event.(ev_Type) event.(ev_ResourceRefs) event.(ev_Data)))))
        ErrStoreIntegrity ].

(** What decoding the marshalled envelope gives. *)
Definition event_column (e : EventEnvelope) : option EventEnvelope :=
  Some {| ev_SchemaVersion := e.(ev_SchemaVersion);
          ev_FrameKind := json_string_column e.(ev_FrameKind);
          ev_EventID := json_string_column e.(ev_EventID);
          ev_TurnID := json_string_column e.(ev_TurnID);
          ev_Sequence := e.(ev_Sequence);
          ev_Plugin := default e.(ev_Plugin) (plugin_column e.(ev_Plugin));
          ev_Type := json_string_column e.(ev_Type);
          ev_Visibility := json_string_column e.(ev_Visibility);
          ev_ResourceRefs := map json_string_column e.(ev_ResourceRefs);
          ev_Data := json_compact e.(ev_Data) |}.

Definition eventToSQLRow (id : Z) (event : EventEnvelope) (now : time) : result sqlTurnEventRow :=
  check! validateStoredEnvelope event;;
  try! canonicalNow := canonicalExecutionTime now as ErrStoreIntegrity in
  Ok {| er_ID := id;
        er_TurnID := event.(ev_TurnID);
        er_Sequence := i64 event.(ev_Sequence);
        er_EventID := event.(ev_EventID);
        er_SchemaVersion := event.(ev_SchemaVersion);
        er_EventType := event.(ev_Type);
        er_EventJSON := event_column event;
        er_CreatedAt := canonicalNow |}.

(** The unique keys of the event table. *)
Definition event_key_taken (row : sqlTurnEventRow) (r : sqlTurnEventRow) : bool :=
  bool_decide (r.(er_TurnID) = row.(er_TurnID))
  && ((r.(er_Sequence) =? row.(er_Sequence)) || bool_decide (r.(er_EventID) = row.(er_EventID))).

Definition insertEvent (db : Database) (event : EventEnvelope) (now : time) : result Database :=
  try! row := eventToSQLRow (next_id er_ID db.(db_events)) event now as ErrStoreIntegrity in
  guard! negb (existsb (event_key_taken row) db.(db_events)) else driverError;;
  Ok (set_events db (db.(db_events) ++ [row])).

Definition attemptToSQLRow (id : Z) (a : TurnAttempt) : result sqlTurnAttemptRow :=
  check! TurnAttempt_Validate a;;
  Ok {| ar_ID := id;
        ar_AttemptID := a.(att_ID);
        ar_TurnID := a.(att_TurnID);
        ar_FencingToken := i64 a.(att_FencingToken);
        ar_Status := a.(att_Status);
        ar_WorkerID := a.(att_WorkerID);
        ar_WorkerBuildDigest := a.(att_WorkerBuildDigest);
        ar_ClaimedAt := a.(att_ClaimedAt);
        ar_LastHeartbeatAt := a.(att_LastHeartbeatAt);
        ar_LeaseExpiresAt := a.(att_LeaseExpiresAt);
        ar_FinishedAt := a.(att_FinishedAt);
        ar_CreatedAt := a.(att_CreatedAt);
        ar_UpdatedAt := a.(att_UpdatedAt) |}.

Definition toAttempt (row : sqlTurnAttemptRow) : result TurnAttempt :=
  guard! negb ((row.(ar_FencingToken) <? 1) || (MaxDurableSequence <? u64 row.(ar_FencingToken)))
    else ErrStoreIntegrity;;
  let attempt := {|
    att_ID := row.(ar_AttemptID);
    att_TurnID := row.(ar_TurnID);
    att_FencingToken := u64 row.(ar_FencingToken);
    att_Status := row.(ar_Status);
    att_WorkerID := row.(ar_WorkerID);
    att_WorkerBuildDigest := row.(ar_WorkerBuildDigest);
    att_LeaseExpiresAt := row.(ar_LeaseExpiresAt);
    att_ClaimedAt := row.(ar_ClaimedAt);
    att_LastHeartbeatAt := row.(ar_LastHeartbeatAt);
    att_FinishedAt := row.(ar_FinishedAt);
    att_CreatedAt := row.(ar_CreatedAt);
    att_UpdatedAt := row.(ar_UpdatedAt) |} in
  check! TurnAttempt_Validate attempt as ErrStoreIntegrity;;
  Ok attempt.

(** The unique keys of the attempt table. *)
Definition attempt_key_taken (row : sqlTurnAttemptRow) (r : sqlTurnAttemptRow) : bool :=
  bool_decide (r.(ar_AttemptID) = row.(ar_AttemptID))
  || bool_decide (r.(ar_TurnID) = row.(ar_TurnID)) && (r.(ar_FencingToken) =? row.(ar_FencingToken)).

Definition createAttempt (db : Database) (row : sqlTurnAttemptRow) : result Database :=
  guard! negb (existsb (attempt_key_taken row) db.(db_attempts)) else driverError;;
  Ok (set_attempts db (db.(db_attempts) ++ [row])).
