(* ===== verification/SqlFacts.v ===== *)
(** * Facts about statements, transactions and the database clock

    What the components over the tables share: the rows a statement reads and
    writes, what a transaction leaves behind, and the clock. *)

From S2P Require Import Prelude GoText GoJson AgentContract TurnTypes MemoryStore ExecutionTypes SqlDatabase.

(** ** The clock *)

(** What the database clock returns at time [t], unless it fails. *)
Definition clock_reading (t : time) (clock : result time) : Prop :=
  clock = Ok t ∨ ∃ e, clock = Err e.

(** [executionNow] succeeds only on the reading it was given. *)
Lemma executionNow_reading t clock now :
  clock_reading t clock → executionNow clock = Ok now → canonicalExecutionTime t = Ok now.
Proof. by intros [->|[e ->]]. Qed.

Lemma canonicalExecutionTime_Ok t now :
  canonicalExecutionTime t = Ok now → now = t - t mod 1000 ∧ 0 < now.
Proof.
  unfold canonicalExecutionTime. intros H. repeat case_match; simplify_eq. bool_hyps.
  split; [done|]. unfold year1000, second in *. lia.
Qed.

Lemma micros_mono t t' : t ≤ t' → t - t mod 1000 ≤ t' - t' mod 1000.
Proof. intros. Z.to_euclidean_division_equations. lia. Qed.

Lemma i64_succ_nonneg z : 0 ≤ z < 2 ^ 63 → 0 ≤ i64 (z + 1) → i64 (z + 1) = z + 1 ∧ z + 1 < 2 ^ 63.
Proof.
  unfold i64. intros Hz H. destruct (decide (z + 1 < 2 ^ 63)) as [Hl|Hl].
  - rewrite Z.mod_small; lia.
  - exfalso. assert (z + 1 + 2 ^ 63 = 2 ^ 64) as E by lia. rewrite E, Z_mod_same_full in H. lia.
Qed.

(** ** Options and lists *)

Lemma holds_at_true {A} (p : option A) f : holds_at p f = true ↔ ∃ x, p = Some x ∧ f x = true.
Proof. destruct p; simpl; naive_solver. Qed.

Lemma NoDup_snoc {A} (l : list A) x : NoDup l → x ∉ l → NoDup (l ++ [x]).
Proof.
  intros Hl Hx. apply NoDup_app. split; [done|]. split; [|apply NoDup_singleton]. set_solver.
Qed.

(** ** Statements *)

Lemma find_None_iff {A} (p : A → bool) l : List.find p l = None ↔ Forall (λ x, p x = false) l.
Proof.
  induction l as [|x l IH]; simpl; [by split; constructor|].
  rewrite Forall_cons. destruct (p x) eqn:E; naive_solver.
Qed.

Lemma rows_matched_unique {A} (p : A → bool) (l : list A) x y :
  rows_matched p l = 1%nat → x ∈ l → y ∈ l → p x = true → p y = true → x = y.
Proof.
  unfold rows_matched. intros H Hx Hy Px Py.
  assert (x ∈ List.filter p l) as H1 by (apply list_elem_of_In, List.filter_In; rewrite <- list_elem_of_In; done).
  assert (y ∈ List.filter p l) as H2 by (apply list_elem_of_In, List.filter_In; rewrite <- list_elem_of_In; done).
  destruct (List.filter p l) as [|z [|]]; try discriminate H.
  apply list_elem_of_singleton in H1, H2. congruence.
Qed.

Lemma update_rows_Forall2 {A} (R : A → A → Prop) (p : A → bool) f (l : list A) :
  (∀ x, x ∈ l → p x = true → R x (f x)) → (∀ x, x ∈ l → p x = false → R x x) →
  Forall2 R l (update_rows p f l).
Proof.
  intros Ht Hf. unfold update_rows.
  induction l as [|x l IH]; simpl; constructor.
  - destruct (p x) eqn:E; [apply Ht|apply Hf]; auto using list_elem_of_here.
  - apply IH; intros; [apply Ht|apply Hf]; auto using list_elem_of_further.
Qed.

Lemma next_id_fresh {A} (id : A → Z) rows : next_id id rows ∉ map id rows.
Proof.
  unfold next_id. assert (∀ z, z ∈ map id rows → z ≤ foldr Z.max 0 (map id rows)) as H.
  { induction (map id rows) as [|x l IH]; intros z; [by intros ?%elem_of_nil|].
    simpl. intros [->|?]%elem_of_cons; [lia|]. specialize (IH z ltac:(done)). lia. }
  intros Hin%H. lia.
Qed.

(** ** Selections and transactions *)

Lemma select_one_elem {A} (p : A → bool) (l : list A) x :
  select_one p l = Some x → x ∈ l ∧ p x = true.
Proof.
  unfold select_one. intros [H1 H2]%List.find_some. by rewrite list_elem_of_In.
Qed.

Lemma select_one_Forall2 {A} (R : A → A → Prop) (p : A → bool) l l' news :
  Forall2 R l l' → (∀ x y, R x y → p y = p x) →
  (∀ x, select_one p l = Some x → ∃ y, select_one p (l' ++ news) = Some y ∧ R x y).
Proof.
  intros HF Hp. induction HF as [|x y l l' HR HF IH]; simpl; [done|].
  rewrite (Hp _ _ HR). destruct (p x); [|done].
  intros ? [= <-]. eauto.
Qed.

Lemma writeTransaction_inv {A} cfg ctx outcome (body : Database → result (A * Database)) db r db' :
  writeTransaction cfg ctx outcome body db = (r, db') →
  (∃ e, r = Err e) ∧ db' = db
  ∨ ∃ a db1, body db = Ok (a, db1) ∧ (outcome = TxReported ∧ r = Ok a ∧ db' = db1
      ∨ outcome = TxLost true ∧ r = Err driverError ∧ db' = db1).
Proof.
  unfold writeTransaction. intros H.
  repeat case_match; simplify_eq; naive_solver.
Qed.
