(* ===== verification/SqlStore.v ===== *)
(** * The SQL Turn store: service/agentturn/sql_store.go

    Admission, ownership reads, unfenced event appends and transitions,
    cancellation and replay over the tables of [SqlDatabase].  A call meets an
    environment: its context, the database clock, how the driver ends its
    transaction, and what other transactions commit between its statements when
    it issues more than one transaction. *)

From Stdlib Require Import Ascii.
From stdpp Require Import sorting.
From S2P Require Import Prelude GoText GoJson AgentContract TurnTypes MemoryStore TurnService ExecutionTypes SqlDatabase.

Record storeEnv := mkStoreEnv {
  se_ctx : context;
  se_clock : result time;
  se_outcome : txOutcome;
  se_others : nat → Database → Database;
  se_resolveOutcome : txOutcome
}.

(** ** Lookups *)

Definition validateOwnedStorageLookup (principalID : PrincipalID) (threadID : ThreadID)
    (turnID : TurnID) : validation :=
  first_error
    [ validateBoundedText principalID MaxPrincipalIDBytes;
      validatePathSegment threadID MaxThreadIDBytes;
      validatePathSegment turnID MaxTurnIDBytes ].

Definition turn_in_scope (candidate : Turn) (r : sqlTurnRow) : bool :=
  bool_decide (r.(tr_PrincipalID) = candidate.(turn_PrincipalID))
  && bool_decide (r.(tr_ThreadID) = candidate.(turn_ThreadID))
  && bool_decide (r.(tr_IdempotencyKey) = candidate.(turn_IdempotencyKey)).

Definition lookupIdempotency (db : Database) (candidate : Turn) : result (option Turn) :=
  match select_one (turn_in_scope candidate) db.(db_turns) with
  | None => Ok None
  | Some row =>
    try! turn := toTurn row as ErrStoreIntegrity in
    guard! bool_decide (scopeOf turn = scopeOf candidate) else ErrStoreIntegrity;;
    Ok (Some turn)
  end.

Definition lookupTurnByID (db : Database) (turnID : TurnID) : result (option Turn) :=
  match select_one (turn_is turnID) db.(db_turns) with
  | None => Ok None
  | Some row => try! turn := toTurn row as ErrStoreIntegrity in Ok (Some turn)
  end.

Definition classifyIdempotentAdmission (existing candidate : Turn) : result AdmissionRecord :=
  guard! bool_decide (existing.(turn_CommandDigest) = candidate.(turn_CommandDigest))
    else ErrIdempotencyConflict;;
  Ok (mkAdmissionRecord existing false).

(** ** Admission *)

(** The unique keys of the Turn table. *)
Definition turn_key_taken (row r : sqlTurnRow) : bool :=
  bool_decide (r.(tr_TurnID) = row.(tr_TurnID))
  || bool_decide (r.(tr_PrincipalID) = row.(tr_PrincipalID))
     && bool_decide (r.(tr_ThreadID) = row.(tr_ThreadID))
     && bool_decide (r.(tr_IdempotencyKey) = row.(tr_IdempotencyKey)).

Definition createTurn (db : Database) (row : sqlTurnRow) : result Database :=
  guard! negb (existsb (turn_key_taken row) db.(db_turns)) else driverError;;
  Ok (set_turns db (db.(db_turns) ++ [row])).

Definition createEvent (db : Database) (row : sqlTurnEventRow) : result Database :=
  guard! negb (existsb (event_key_taken row) db.(db_events)) else driverError;;
  Ok (set_events db (db.(db_events) ++ [row])).

(** The candidate with the database's admission time. *)
Definition admittedAt (candidate : Turn) (now : time) : Turn :=
  mkTurn candidate.(turn_ID) candidate.(turn_PrincipalID) candidate.(turn_ThreadID)
    candidate.(turn_IdempotencyKey) candidate.(turn_CommandDigest) candidate.(turn_Plugin)
    candidate.(turn_Status) candidate.(turn_CancelRequestedAt) now now
    candidate.(turn_StartedAt) candidate.(turn_FinishedAt).

(** The INSERTs of an admission; [bind] runs between them. *)
Definition admitRows (db : Database) (admitted : Turn) (first : EventEnvelope) (now : time)
    (bind : Database → validation) : result Database :=
  check! Turn_Validate admitted as ErrStoreIntegrity;;
  let turnRow := turnToSQLRow (next_id tr_ID db.(db_turns)) admitted 1 in
  try! eventRow := eventToSQLRow (next_id er_ID db.(db_events)) first now as ErrStoreIntegrity in
  try! db := createTurn db turnRow in
  check! bind db;;
  createEvent db eventRow.

Definition admitBody (clock : result time) (candidate : Turn) (first : EventEnvelope)
    (db : Database) : result (Turn * Database) :=
  try! now := executionNow clock in
  let admitted := admittedAt candidate now in
  try! db := admitRows db admitted first now (fun _ => None) in
  Ok (admitted, db).

(** What an ordinary admission checks before it reads anything. *)
Definition admitChecks (ctx : context) (candidate : Turn) (initial : EventDraft) : validation :=
  first_error
    [ ctx 0%nat; Turn_Validate candidate;
      when (negb (admissionLifecycle candidate)) ErrInvalidTransition;
      EventDraft_Validate initial ].

Definition SQLStore_Admit (cfg : SQLStoreConfig) (env : storeEnv) (candidate : Turn)
    (initial : EventDraft) : op Database AdmissionRecord := fun db =>
  match admitChecks env.(se_ctx) candidate initial with
  | Some e => (Err e, db)
  | None =>
    match lookupIdempotency db candidate with
    | Err e => (Err (normalize e), db)
    | Ok (Some existing) => (classifyIdempotentAdmission existing candidate, db)
    | Ok None =>
      match buildEvent candidate 1 initial with
      | Err e => (Err e, db)
      | Ok first =>
        let db := env.(se_others) 0%nat db in
        match writeTransaction cfg env.(se_ctx) env.(se_outcome)
                (admitBody env.(se_clock) candidate first) db with
        | (Ok admitted, db') => (Ok (mkAdmissionRecord admitted true), db')
        | (Err txErr, db') =>
          let db' := env.(se_others) 1%nat db' in
          match env.(se_ctx) 3%nat with
          | Some e => (Err e, db')
          | None =>
            match lookupIdempotency db' candidate with
            | Err e => (Err (normalize e), db')
            | Ok (Some existing) => (classifyIdempotentAdmission existing candidate, db')
            | Ok None =>
              match lookupTurnByID db' candidate.(turn_ID) with
              | Err e => (Err (normalize e), db')
              | Ok (Some _) => (Err ErrTurnIDConflict, db')
              | Ok None => (Err (normalize txErr), db')
              end
            end
          end
        end
      end
    end
  end.

(** The commercial admission authority; the tables it writes are its own. *)
Record AdmissionAuthority := mkAdmissionAuthority {
  aa_ReserveAndBindTurn : Database → Turn → validation;
  aa_VerifyTurnBinding : Database → Turn → validation
}.

Definition verifyReservationAdmissionWinner (authority : AdmissionAuthority) (candidate : Turn)
    (db : Database) : result (option AdmissionRecord) :=
  match lockTurn db (turn_in_scope candidate) with
  | Err ErrTurnNotFound => Ok None
  | Err e => Err e
  | Ok row =>
    try! winner := toTurn row as ErrStoreIntegrity in
    try! record := classifyIdempotentAdmission winner candidate in
    check! authority.(aa_VerifyTurnBinding) db winner as ErrTurnReservationBindingInvalid;;
    Ok (Some record)
  end.

Definition admitWithReservationBody (clock : result time) (authority : AdmissionAuthority)
    (candidate : Turn) (initial : EventDraft) (db : Database) : result (AdmissionRecord * Database) :=
  try! winner := verifyReservationAdmissionWinner authority candidate db in
  match winner with
  | Some record => Ok (record, db)
  | None =>
    try! now := executionNow clock in
    let admitted := admittedAt candidate now in
    check! Turn_Validate admitted as ErrStoreIntegrity;;
    try! first := buildEvent admitted 1 initial in
    try! db := admitRows db admitted first now (fun db =>
                 match authority.(aa_ReserveAndBindTurn) db admitted with
                 | Some _ => Some ErrTurnReservationAdmissionFailed
                 | None => None
                 end) in
    Ok (mkAdmissionRecord admitted true, db)
  end.

Definition SQLStore_AdmitWithReservationAuthority (cfg : SQLStoreConfig) (env : storeEnv)
    (authority : option AdmissionAuthority) (candidate : Turn) (initial : EventDraft)
    : op Database AdmissionRecord := fun db =>
  match admitChecks env.(se_ctx) candidate initial with
  | Some e => (Err e, db)
  | None =>
    match authority with
    | None => (Err ErrTurnReservationAdmissionAuthorityUnavailable, db)
    | Some authority =>
      match writeTransaction cfg env.(se_ctx) env.(se_outcome)
              (admitWithReservationBody env.(se_clock) authority candidate initial) db with
      | (Ok record, db') => (Ok record, db')
      | (Err txErr, db') =>
        let db' := env.(se_others) 0%nat db' in
        match env.(se_ctx) 3%nat with
        | Some e => (Err e, db')
        | None =>
          match normalize txErr with
          | ErrStoreUnavailable =>
            match writeTransaction cfg (fun i => env.(se_ctx) (3 + i)%nat)
                    env.(se_resolveOutcome)
                    (fun db => try! w := verifyReservationAdmissionWinner authority candidate db in
                               Ok (w, db)) db' with
            | (Err e, db') => (Err (normalize e), db')
            | (Ok (Some winner), db') => (Ok winner, db')
            | (Ok None, db') =>
              match lookupTurnByID db' candidate.(turn_ID) with
              | Err e => (Err (normalize e), db')
              | Ok (Some _) => (Err ErrTurnIDConflict, db')
              | Ok None => (Err ErrStoreUnavailable, db')
              end
            end
          | classified => (Err classified, db')
          end
        end
      end
    end
  end.

(** ** Reads *)

Definition SQLStore_GetOwned (ctx : context) (principalID : PrincipalID) (threadID : ThreadID)
    (turnID : TurnID) (db : Database) : result Turn :=
  check! first_error [ctx 0%nat; validateOwnedStorageLookup principalID threadID turnID];;
  match select_one (turn_owned_by turnID principalID threadID) db.(db_turns) with
  | None => Err ErrTurnNotFound
  | Some row => try! turn := toTurn row as ErrStoreIntegrity in Ok turn
  end.

(** ** Unfenced writes *)

(** Number, build and insert the next event of a locked Turn. *)
Definition sqlAppend (db : Database) (row : sqlTurnRow) (turn : Turn) (draft : EventDraft)
    (now : time) : result (Z * EventEnvelope * Database) :=
  try! sequence := nextSQLSequence row.(tr_LastEventSequence) in
  try! event := buildEvent turn sequence draft in
  try! db := insertEvent db event now in
  Ok (i64 sequence, event, db).

(** The columns of a Turn row that a domain Turn carries, with the log position:
    the columns a statement does not name are written with the value read. *)
Definition lifecycleColumns (turn : Turn) (last : Z) (r : sqlTurnRow) : sqlTurnRow :=
  {| tr_ID := r.(tr_ID); tr_TurnID := r.(tr_TurnID); tr_PrincipalID := r.(tr_PrincipalID);
     tr_ThreadID := r.(tr_ThreadID); tr_IdempotencyKey := r.(tr_IdempotencyKey);
     tr_CommandDigest := r.(tr_CommandDigest); tr_PluginSnapshotJSON := r.(tr_PluginSnapshotJSON);
     tr_Status := turn.(turn_Status); tr_LastEventSequence := last;
     tr_ActiveAttemptID := r.(tr_ActiveAttemptID); tr_FencingToken := r.(tr_FencingToken);
     tr_CancelRequestedAt := turn.(turn_CancelRequestedAt);
     tr_StartedAt := turn.(turn_StartedAt); tr_FinishedAt := turn.(turn_FinishedAt);
     tr_CreatedAt := r.(tr_CreatedAt); tr_UpdatedAt := turn.(turn_UpdatedAt) |}.

Definition appendEventBody (clock : result time) (turnID : TurnID) (draft : EventDraft)
    (db : Database) : result (EventEnvelope * Database) :=
  try! row := lockTurn db (turn_is turnID) in
  try! turn := toTurn row as ErrStoreIntegrity in
  guard! negb (0 <? row.(tr_FencingToken)) else ErrExecutionFenceRequired;;
  guard! negb (TurnStatus_Terminal turn.(turn_Status)) else ErrTurnTerminal;;
  try! now := executionNow clock in
  try! (last, event, db) := sqlAppend db row turn draft now in
  try! db := updateTurnColumns db turn.(turn_ID) (lifecycleColumns turn last) in
  Ok (event, db).

Definition finishWrite {A} (r : result A * Database) : result A * Database :=
  match r with
  | (Ok a, db) => (Ok a, db)
  | (Err e, db) => (Err (normalize e), db)
  end.

Definition SQLStore_AppendEvent (cfg : SQLStoreConfig) (env : storeEnv) (turnID : TurnID)
    (draft : EventDraft) : op Database EventEnvelope := fun db =>
  match first_error [env.(se_ctx) 0%nat; validatePathSegment turnID MaxTurnIDBytes;
                     EventDraft_Validate draft] with
  | Some e => (Err e, db)
  | None => finishWrite (writeTransaction cfg env.(se_ctx) env.(se_outcome)
                           (appendEventBody env.(se_clock) turnID draft) db)
  end.

Definition transitionBody (clock : result time) (turnID : TurnID) (to : TurnStatus)
    (draft : EventDraft) (db : Database) : result (TransitionResult * Database) :=
  try! row := lockTurn db (turn_is turnID) in
  try! turn := toTurn row as ErrStoreIntegrity in
  guard! negb (0 <? row.(tr_FencingToken)) else ErrExecutionFenceRequired;;
  if bool_decide (turn.(turn_Status) = to) then Ok (mkTransitionResult turn false None, db)
  else
    guard! CanTransition turn.(turn_Status) to else transitionError turn.(turn_Status) to;;
    guard! negb (bool_decide (to = TurnStatusStopped)
                 && bool_decide (turn.(turn_CancelRequestedAt) = None))
      else ErrCancellationNotRequested;;
    try! now := executionNow clock in
    let next := transitioned turn to now in
    check! Turn_Validate next as ErrStoreIntegrity;;
    try! (last, event, db) := sqlAppend db row next draft now in
    try! db := updateTurnColumns db next.(turn_ID) (lifecycleColumns next last) in
    Ok (mkTransitionResult next true (Some event), db).

Definition SQLStore_Transition (cfg : SQLStoreConfig) (env : storeEnv) (turnID : TurnID)
    (to : TurnStatus) (at_ : time) (draft : EventDraft) : op Database TransitionResult := fun db =>
  match first_error
          [ env.(se_ctx) 0%nat; validatePathSegment turnID MaxTurnIDBytes;
            when (negb (TurnStatus_Valid to)) ErrInvalidTransition;
            when (IsZero at_) (ErrText "transition time is required");
            EventDraft_Validate draft ] with
  | Some e => (Err e, db)
  | None => finishWrite (writeTransaction cfg env.(se_ctx) env.(se_outcome)
                           (transitionBody env.(se_clock) turnID to draft) db)
  end.

Definition requestCancelBody (clock : result time) (principalID : PrincipalID) (threadID : ThreadID)
    (turnID : TurnID) (draft : EventDraft) (db : Database) : result (CancelResult * Database) :=
  try! row := lockTurn db (turn_owned_by turnID principalID threadID) in
  try! turn := toTurn row as ErrStoreIntegrity in
  if TurnStatus_Terminal turn.(turn_Status) || bool_decide (is_Some turn.(turn_CancelRequestedAt))
  then Ok (mkCancelResult turn false None, db)
  else
    try! now := executionNow clock in
    let next := cancelled turn now in
    check! Turn_Validate next as ErrStoreIntegrity;;
    try! (last, event, db) := sqlAppend db row next draft now in
    try! db := updateTurnColumns db next.(turn_ID) (lifecycleColumns next last) in
    Ok (mkCancelResult next true (Some event), db).

Definition SQLStore_RequestCancel (cfg : SQLStoreConfig) (env : storeEnv) (principalID : PrincipalID)
    (threadID : ThreadID) (turnID : TurnID) (at_ : time) (draft : EventDraft)
    : op Database CancelResult := fun db =>
  match first_error
          [ env.(se_ctx) 0%nat; validateOwnedStorageLookup principalID threadID turnID;
            when (IsZero at_) (ErrText "cancellation time is required");
            EventDraft_Validate draft ] with
  | Some e => (Err e, db)
  | None => finishWrite (writeTransaction cfg env.(se_ctx) env.(se_outcome)
                           (requestCancelBody env.(se_clock) principalID threadID turnID draft) db)
  end.

(** ** Replay *)

(** [sqlTurnEventRow.toEnvelope]. *)
Definition toEnvelope (turn : Turn) (row : sqlTurnEventRow) : result EventEnvelope :=
  guard! negb ((row.(er_Sequence) <? 1) || (MaxDurableSequence <? u64 row.(er_Sequence)))
    else ErrStoreIntegrity;;
  match row.(er_EventJSON) with
  | None => Err ErrStoreIntegrity
  | Some event =>
    guard! bool_decide (event.(ev_TurnID) = turn.(turn_ID))
           && bool_decide (event.(ev_Plugin) = turn.(turn_Plugin))
           && (event.(ev_Sequence) =? u64 row.(er_Sequence))
           && bool_decide (event.(ev_EventID) = row.(er_EventID))
           && (event.(ev_SchemaVersion) =? row.(er_SchemaVersion))
           && bool_decide (event.(ev_Type) = row.(er_EventType))
           && bool_decide (event.(ev_EventID) = deterministicEventID turn.(turn_ID) event.(ev_Sequence))
      else ErrStoreIntegrity;;
    check! validateStoredEnvelope event as ErrStoreIntegrity;;
    Ok event
  end.

Definition parseDeterministicEventID (turnID : TurnID) (eventID : string) : option Sequence :=
  let prefix := turnID +:+ ":" in
  if negb (HasPrefix eventID prefix) then None
  else
    let raw := String.substring (String.length prefix) (String.length eventID - String.length prefix) eventID in
    if bool_decide (raw = "")
       || ((1 <? len raw) && bool_decide (head (chars raw) = Some "0"%char)) then None
    else match ParseUint63 raw with
         | Some parsed => if parsed =? 0 then None else Some parsed
         | None => None
         end.

(** The visible events of a Turn: its rows up to the recorded position. *)
Definition visible_event (row : sqlTurnRow) (e : sqlTurnEventRow) : bool :=
  bool_decide (e.(er_TurnID) = row.(tr_TurnID)) && (e.(er_Sequence) <=? row.(tr_LastEventSequence)).

(** SELECT MIN(sequence). *)
Definition min_sequence (rows : list sqlTurnEventRow) : option Z :=
  match rows with
  | [] => None
  | e :: rest => Some (foldr Z.min e.(er_Sequence) (map er_Sequence rest))
  end.

Definition loadReplayWindow (db : Database) (row : sqlTurnRow) : result ReplayWindow :=
  guard! negb ((row.(tr_LastEventSequence) <? 1)
               || (MaxDurableSequence <? u64 row.(tr_LastEventSequence))) else ErrStoreIntegrity;;
  match min_sequence (List.filter (visible_event row) db.(db_events)) with
  | None => Err ErrStoreIntegrity
  | Some oldest =>
    guard! negb ((oldest <? 1) || (row.(tr_LastEventSequence) <? oldest)) else ErrStoreIntegrity;;
    let window := mkReplayWindow (u64 oldest) (u64 row.(tr_LastEventSequence)) in
    guard! negb ((MaxDurableSequence <? window.(win_LatestSequence))
                 || bool_decide (is_Some (ReplayWindow_Validate window))) else ErrStoreIntegrity;;
    Ok window
  end.

(** The sequence a cursor resolves to, and whether it is explicit. *)
Definition sqlResolveCursor (db : Database) (row : sqlTurnRow) (turn : Turn) (window : ReplayWindow)
    (cursor : ReplayCursor) : result (Sequence * bool) :=
  let after := default 0 cursor.(cur_AfterSequence) in
  let furthest s := if after <? s then s else after in
  if bool_decide (cursor.(cur_LastEventID) = "")
  then Ok (after, bool_decide (is_Some cursor.(cur_AfterSequence)))
  else match select_one (fun e => visible_event row e
                                  && bool_decide (e.(er_EventID) = cursor.(cur_LastEventID)))
               db.(db_events) with
       | None =>
         match parseDeterministicEventID row.(tr_TurnID) cursor.(cur_LastEventID) with
         | None => Err ErrReplayCursorNotFound
         | Some sequence =>
           guard! (sequence <? window.(win_OldestSequence)) || (window.(win_LatestSequence) <? sequence)
             else ErrReplayCursorNotFound;;
           Ok (furthest sequence, true)
         end
       | Some cursorRow =>
         match toEnvelope turn cursorRow with
         | Err _ => Err ErrStoreIntegrity
         | Ok event =>
           guard! negb ((event.(ev_Sequence) <? window.(win_OldestSequence))
                        || (window.(win_LatestSequence) <? event.(ev_Sequence)))
             else ErrStoreIntegrity;;
           Ok (furthest event.(ev_Sequence), true)
         end
       end.

(** The loop over the page's rows. *)
Fixpoint decodePage (turn : Turn) (latest previous : Sequence) (seen : gset string)
    (rows : list sqlTurnEventRow) : result (list EventEnvelope) :=
  match rows with
  | [] => Ok []
  | row :: rest =>
    try! event := toEnvelope turn row as ErrStoreIntegrity in
    guard! negb ((event.(ev_Sequence) <=? previous) || (latest <? event.(ev_Sequence)))
      else ErrStoreIntegrity;;
    guard! negb (bool_decide (event.(ev_EventID) ∈ seen)) else ErrStoreIntegrity;;
    try! events := decodePage turn latest event.(ev_Sequence) ({[event.(ev_EventID)]} ∪ seen) rest in
    Ok (event :: events)
  end.

Definition event_before (a b : sqlTurnEventRow) : Prop := a.(er_Sequence) ≤ b.(er_Sequence).

#[export] Instance event_before_dec : RelDecision event_before.
Proof. unfold RelDecision, event_before. intros a b. apply _. Defined.

Definition sqlReplayBody (principalID : PrincipalID) (threadID : ThreadID) (turnID : TurnID)
    (query : ReplayQuery) (db : Database) : result ReplayRecord :=
  match select_one (turn_owned_by turnID principalID threadID) db.(db_turns) with
  | None => Err ErrTurnNotFound
  | Some row =>
    try! turn := toTurn row as ErrStoreIntegrity in
    try! window := loadReplayWindow db row in
    try! (after, explicit) := sqlResolveCursor db row turn window query.(qry_Cursor) in
    guard! negb (explicit && (window.(win_LatestSequence) <? after)) else ErrReplayCursorAhead;;
    guard! negb (explicit && (after <? u64 (window.(win_OldestSequence) - 1))) else ErrReplayGap;;
    let lower := if explicit then after else u64 (window.(win_OldestSequence) - 1) in
    let rows := take (Z.to_nat (query.(qry_Limit) + 1))
                  (merge_sort event_before
                     (List.filter (fun e => visible_event row e && (i64 lower <? e.(er_Sequence)))
                        db.(db_events))) in
    let hasMore := query.(qry_Limit) <? Z.of_nat (length rows) in
    let rows := if hasMore then take (Z.to_nat query.(qry_Limit)) rows else rows in
    try! events := decodePage turn window.(win_LatestSequence) lower ∅ rows in
    Ok {| rec_Turn := turn; rec_AfterSequence := after; rec_Window := window;
          rec_Events := events; rec_HasMore := hasMore |}
  end.

Definition SQLStore_Replay (ctx : context) (principalID : PrincipalID) (threadID : ThreadID)
    (turnID : TurnID) (query : ReplayQuery) (db : Database) : result ReplayRecord :=
  check! first_error [ctx 0%nat; validateOwnedStorageLookup principalID threadID turnID;
                      ReplayQuery_Validate query];;
  match sqlReplayBody principalID threadID turnID query db with
  | Ok record => Ok record
  | Err e => Err (normalize e)
  end.
