(* ===== verification/SqlExecution.v ===== *)
(** * Execution epochs over the tables: sql_execution_store.go, sql_claim_next.go

    Claiming, replaying and extending Attempts, discovering claimable Turns and
    listing the ones without a live executor.  Every claim is one transaction
    under the Turn lock; a failed transaction is followed by a read that decides
    whether it had committed.  The commercial authority that may refuse a fresh
    epoch is a parameter: it reads the tables and writes nothing. *)

From stdpp Require Import sorting.
From S2P Require Import Prelude GoText GoJson AgentContract TurnTypes MemoryStore TurnService ExecutionTypes SqlDatabase.

(** ** The commercial authority: reservation_admission.go *)

(** The installed SettlementAuthority: whether it has the execution capability
    and is still intact, and what it answers. *)
Record ExecutionAuthority := mkExecutionAuthority {
  xa_capable : bool;
  xa_intact : bool;
  xa_AuthorizeTurnExecution : Database → Turn → validation
}.

Definition noAuthority : ExecutionAuthority := mkExecutionAuthority false true (fun _ _ => None).

Definition authorizeTurnReservationExecution (authority : ExecutionAuthority) (db : Database)
    (turn : Turn) : validation :=
  if negb authority.(xa_capable) then None
  else if negb authority.(xa_intact) then Some ErrSettlementBindingInvalid
  else match authority.(xa_AuthorizeTurnExecution) db turn with
       | None => None
       | Some ErrTurnReservationExecutionExpired => Some ErrTurnReservationExecutionExpired
       | Some _ => Some ErrTurnReservationExecutionUnauthorized
       end.

(** ** Who owns what *)

Definition attemptMatchesClaim (attempt : TurnAttempt) (c : ClaimAttemptCommand) : bool :=
  bool_decide (attempt.(att_ID) = c.(claim_AttemptID))
  && bool_decide (attempt.(att_TurnID) = c.(claim_TurnID))
  && bool_decide (attempt.(att_WorkerID) = c.(claim_WorkerID))
  && bool_decide (attempt.(att_WorkerBuildDigest) = c.(claim_WorkerBuildDigest)).

Definition attemptMatchesFence (attempt : TurnAttempt) (f : AttemptFence) : bool :=
  bool_decide (attempt.(att_TurnID) = f.(fence_TurnID))
  && bool_decide (attempt.(att_ID) = f.(fence_AttemptID))
  && (attempt.(att_FencingToken) =? f.(fence_FencingToken))
  && bool_decide (attempt.(att_WorkerID) = f.(fence_WorkerID))
  && bool_decide (attempt.(att_WorkerBuildDigest) = f.(fence_WorkerBuildDigest)).

Definition turnOwnsAttempt (row : sqlTurnRow) (attempt : TurnAttempt) : bool :=
  bool_decide (row.(tr_ActiveAttemptID) = Some attempt.(att_ID))
  && bool_decide (row.(tr_TurnID) = attempt.(att_TurnID))
  && (row.(tr_FencingToken) =? i64 attempt.(att_FencingToken)).

Definition rowOwnsFence (row : sqlTurnRow) (f : AttemptFence) : bool :=
  bool_decide (row.(tr_ActiveAttemptID) = Some f.(fence_AttemptID))
  && bool_decide (row.(tr_TurnID) = f.(fence_TurnID))
  && (row.(tr_FencingToken) =? i64 f.(fence_FencingToken)).

(** ** Claiming an Attempt *)

(** The epoch of a claim that finds its own Attempt. *)
Definition claimReplay (clock : result time) (command : ClaimAttemptCommand) (row : sqlTurnRow)
    (turn : Turn) (existing : sqlTurnAttemptRow) : result ClaimAttemptResult :=
  try! attempt := toAttempt existing as ErrStoreIntegrity in
  guard! attemptMatchesClaim attempt command else ErrAttemptConflict;;
  guard! turnOwnsAttempt row attempt && bool_decide (attempt.(att_Status) = AttemptStatusRunning)
    else ErrAttemptFenced;;
  try! now := executionNow clock in
  guard! After attempt.(att_LeaseExpiresAt) now else ErrAttemptLeaseExpired;;
  Ok (mkClaimAttemptResult turn attempt false false true).

(** The guards of a fresh epoch, up to the active Attempt. *)
Definition claimGuards (cfg : SQLStoreConfig) (row : sqlTurnRow) (turn : Turn) : validation :=
  first_error
    [ when (TurnStatus_Terminal turn.(turn_Status)) ErrTurnTerminal;
      when (negb (bool_decide (turn.(turn_Status) ∈ [TurnStatusQueued; TurnStatusRunning])))
        ErrStoreIntegrity;
      when (bool_decide (is_Some turn.(turn_CancelRequestedAt))) ErrAttemptCancelled;
      when (u64 row.(tr_FencingToken) =? MaxDurableSequence) ErrAttemptFenceExhausted;
      match turnAttemptBudget cfg with
      | Err e => Some e
      | Ok budget => when (budget <=? row.(tr_FencingToken)) ErrAttemptBudgetExhausted
      end;
      when (bool_decide (row.(tr_ActiveAttemptID) = None) && (0 <? row.(tr_FencingToken)))
        ErrStoreIntegrity;
      when (bool_decide (is_Some row.(tr_ActiveAttemptID))
            && negb (bool_decide (turn.(turn_Status) = TurnStatusRunning))) ErrStoreIntegrity ].

(** The expired Attempt a reclaim retires, if the Turn has an active one. *)
Definition claimExpired (db : Database) (row : sqlTurnRow) (now : time)
    : result (option sqlTurnAttemptRow) :=
  match row.(tr_ActiveAttemptID) with
  | None => Ok None
  | Some active =>
    try! current := lockAttempt db row.(tr_TurnID) active row.(tr_FencingToken) in
    match toAttempt current with
    | Err _ => Err ErrStoreIntegrity
    | Ok attempt =>
      guard! turnOwnsAttempt row attempt && bool_decide (attempt.(att_Status) = AttemptStatusRunning)
        else ErrStoreIntegrity;;
      guard! negb (After attempt.(att_LeaseExpiresAt) now) else ErrAttemptBusy;;
      Ok (Some current)
    end
  end.

Definition expiredColumns (now : time) (r : sqlTurnAttemptRow) : sqlTurnAttemptRow :=
  {| ar_ID := r.(ar_ID); ar_AttemptID := r.(ar_AttemptID); ar_TurnID := r.(ar_TurnID);
     ar_FencingToken := r.(ar_FencingToken); ar_Status := AttemptStatusExpired;
     ar_WorkerID := r.(ar_WorkerID); ar_WorkerBuildDigest := r.(ar_WorkerBuildDigest);
     ar_ClaimedAt := r.(ar_ClaimedAt); ar_LastHeartbeatAt := r.(ar_LastHeartbeatAt);
     ar_LeaseExpiresAt := r.(ar_LeaseExpiresAt); ar_FinishedAt := Some now;
     ar_CreatedAt := r.(ar_CreatedAt); ar_UpdatedAt := now |}.

Definition expireAttempt (db : Database) (expired : option sqlTurnAttemptRow) (now : time) : Database :=
  match expired with
  | None => db
  | Some row => updateAttemptColumns db row.(ar_ID) (expiredColumns now)
  end.

Definition freshAttempt (command : ClaimAttemptCommand) (fence : Sequence) (lease now : time)
    : TurnAttempt :=
  mkTurnAttempt command.(claim_AttemptID) command.(claim_TurnID) fence AttemptStatusRunning
    command.(claim_WorkerID) command.(claim_WorkerBuildDigest) lease now now None now now.

(** The Turn after a claim: a queued one starts running. *)
Definition claimedTurn (turn : Turn) (now : time) : Turn :=
  let queued := bool_decide (turn.(turn_Status) = TurnStatusQueued) in
  {| turn_ID := turn.(turn_ID); turn_PrincipalID := turn.(turn_PrincipalID);
     turn_ThreadID := turn.(turn_ThreadID); turn_IdempotencyKey := turn.(turn_IdempotencyKey);
     turn_CommandDigest := turn.(turn_CommandDigest); turn_Plugin := turn.(turn_Plugin);
     turn_Status := if queued then TurnStatusRunning else turn.(turn_Status);
     turn_CancelRequestedAt := turn.(turn_CancelRequestedAt);
     turn_CreatedAt := turn.(turn_CreatedAt); turn_UpdatedAt := now;
     turn_StartedAt := if queued then Some now else turn.(turn_StartedAt);
     turn_FinishedAt := turn.(turn_FinishedAt) |}.

(** The first epoch appends the running status event. *)
Definition claimEvent (db : Database) (row : sqlTurnRow) (turn nextTurn : Turn) (now : time)
    : result (Z * Database) :=
  if bool_decide (turn.(turn_Status) = TurnStatusQueued) then
    try! sequence := nextSQLSequence row.(tr_LastEventSequence) in
    try! event := buildEvent nextTurn sequence (statusEvent TurnStatusRunning false) in
    try! db' := insertEvent db event now in
    Ok (i64 sequence, db')
  else Ok (row.(tr_LastEventSequence), db).

Definition claimedColumns (attemptID : string) (fence : Sequence) (queued : bool) (last : Z)
    (now : time) (r : sqlTurnRow) : sqlTurnRow :=
  {| tr_ID := r.(tr_ID); tr_TurnID := r.(tr_TurnID); tr_PrincipalID := r.(tr_PrincipalID);
     tr_ThreadID := r.(tr_ThreadID); tr_IdempotencyKey := r.(tr_IdempotencyKey);
     tr_CommandDigest := r.(tr_CommandDigest); tr_PluginSnapshotJSON := r.(tr_PluginSnapshotJSON);
     tr_Status := if queued then TurnStatusRunning else r.(tr_Status);
     tr_LastEventSequence := if queued then last else r.(tr_LastEventSequence);
     tr_ActiveAttemptID := Some attemptID; tr_FencingToken := i64 fence;
     tr_CancelRequestedAt := r.(tr_CancelRequestedAt);
     tr_StartedAt := if queued then Some now else r.(tr_StartedAt);
     tr_FinishedAt := r.(tr_FinishedAt); tr_CreatedAt := r.(tr_CreatedAt); tr_UpdatedAt := now |}.

(** The writes of a fresh epoch. *)
Definition claimEpoch (cfg : SQLStoreConfig) (command : ClaimAttemptCommand) (db : Database)
    (row : sqlTurnRow) (turn : Turn) (expired : option sqlTurnAttemptRow) (now : time)
    : result (ClaimAttemptResult * Database) :=
  let db := expireAttempt db expired now in
  try! fence := nextExecutionFence row.(tr_FencingToken) in
  try! lease := executionLeaseExpiry cfg now in
  let attempt := freshAttempt command fence lease now in
  try! attemptRow := attemptToSQLRow (next_id ar_ID db.(db_attempts)) attempt as ErrStoreIntegrity in
  try! db := createAttempt db attemptRow in
  let nextTurn := claimedTurn turn now in
  try! written := claimEvent db row turn nextTurn now in
  check! Turn_Validate nextTurn as ErrStoreIntegrity;;
  try! db := updateTurnColumns (snd written) command.(claim_TurnID)
               (claimedColumns attempt.(att_ID) fence
                  (bool_decide (turn.(turn_Status) = TurnStatusQueued)) (fst written) now) in
  Ok (mkClaimAttemptResult nextTurn attempt true (bool_decide (is_Some expired)) false, db).

Definition claimAttemptBody (cfg : SQLStoreConfig) (authority : ExecutionAuthority)
    (clock : result time) (command : ClaimAttemptCommand) (db : Database)
    : result (ClaimAttemptResult * Database) :=
  try! row := lockTurn db (turn_is command.(claim_TurnID)) in
  try! turn := toTurn row as ErrStoreIntegrity in
  guard! claimPluginScopeAllows command.(claim_PluginScope) turn.(turn_Plugin)
    else ErrPluginScopeMismatch;;
  match lookupAttemptByID db command.(claim_AttemptID) with
  | Some existing =>
    try! replay := claimReplay clock command row turn existing in
    Ok (replay, db)
  | None =>
    try! now := executionNow clock in
    check! claimGuards cfg row turn;;
    try! expired := claimExpired db row now in
    check! authorizeTurnReservationExecution authority db turn;;
    claimEpoch cfg command db row turn expired now
  end.

(** [resolveClaim]: [None] when no Attempt has the command's id. *)
Definition resolveClaim (clock : result time) (command : ClaimAttemptCommand) (db : Database)
    : result (option ClaimAttemptResult) :=
  match lookupAttemptByID db command.(claim_AttemptID) with
  | None => Ok None
  | Some attemptRow =>
    try! attempt := toAttempt attemptRow as ErrStoreIntegrity in
    guard! attemptMatchesClaim attempt command else ErrAttemptConflict;;
    match select_one (turn_is command.(claim_TurnID)) db.(db_turns) with
    | None => Err driverError
    | Some turnRow =>
      try! turn := toTurn turnRow as ErrStoreIntegrity in
      guard! claimPluginScopeAllows command.(claim_PluginScope) turn.(turn_Plugin)
        else ErrPluginScopeMismatch;;
      guard! turnOwnsAttempt turnRow attempt && bool_decide (attempt.(att_Status) = AttemptStatusRunning)
        else ErrAttemptFenced;;
      try! now := executionNow clock in
      guard! After attempt.(att_LeaseExpiresAt) now else ErrAttemptLeaseExpired;;
      Ok (Some (mkClaimAttemptResult turn attempt false false true))
    end
  end.

(** What one call meets: its context, the clock of its transaction, how the
    transaction ends, what others commit before the read that follows a failure,
    and the clock of that read. *)
Record attemptEnv := mkAttemptEnv {
  ae_ctx : context;
  ae_clock : result time;
  ae_outcome : txOutcome;
  ae_between : Database → Database;
  ae_resolveClock : result time
}.

Definition ClaimAttempt (cfg : SQLStoreConfig) (authority : ExecutionAuthority) (env : attemptEnv)
    (command : ClaimAttemptCommand) : op Database ClaimAttemptResult := fun db =>
  match first_error [env.(ae_ctx) 0%nat; ClaimAttemptCommand_Validate command] with
  | Some e => (Err e, db)
  | None =>
    match writeTransaction cfg env.(ae_ctx) env.(ae_outcome)
            (claimAttemptBody cfg authority env.(ae_clock) command) db with
    | (Ok r, db') => (Ok r, db')
    | (Err txErr, db') =>
      let db' := env.(ae_between) db' in
      match env.(ae_ctx) 3%nat with
      | Some e => (Err e, db')
      | None =>
        match resolveClaim env.(ae_resolveClock) command db' with
        | Err e => (Err (normalize e), db')
        | Ok (Some replay) => (Ok replay, db')
        | Ok None => (Err (normalize txErr), db')
        end
      end
    end
  end.

(** ** Heartbeats *)

Definition heartbeatColumns (lease now : time) (r : sqlTurnAttemptRow) : sqlTurnAttemptRow :=
  {| ar_ID := r.(ar_ID); ar_AttemptID := r.(ar_AttemptID); ar_TurnID := r.(ar_TurnID);
     ar_FencingToken := r.(ar_FencingToken); ar_Status := r.(ar_Status);
     ar_WorkerID := r.(ar_WorkerID); ar_WorkerBuildDigest := r.(ar_WorkerBuildDigest);
     ar_ClaimedAt := r.(ar_ClaimedAt); ar_LastHeartbeatAt := now;
     ar_LeaseExpiresAt := lease; ar_FinishedAt := r.(ar_FinishedAt);
     ar_CreatedAt := r.(ar_CreatedAt); ar_UpdatedAt := now |}.

Definition heartbeatAttempt (a : TurnAttempt) (lease now : time) : TurnAttempt :=
  mkTurnAttempt a.(att_ID) a.(att_TurnID) a.(att_FencingToken) a.(att_Status) a.(att_WorkerID)
    a.(att_WorkerBuildDigest) lease a.(att_ClaimedAt) now a.(att_FinishedAt) a.(att_CreatedAt) now.

(** The command is its fence. *)
Definition heartbeatAttemptBody (cfg : SQLStoreConfig) (clock : result time) (fence : AttemptFence)
    (db : Database) : result (HeartbeatAttemptResult * Database) :=
  try! turnRow := lockTurn db (turn_is fence.(fence_TurnID)) in
  try! turn := toTurn turnRow as ErrStoreIntegrity in
  guard! negb (negb (rowOwnsFence turnRow fence) || TurnStatus_Terminal turn.(turn_Status))
    else ErrAttemptFenced;;
  match lockAttempt db fence.(fence_TurnID) fence.(fence_AttemptID) (i64 fence.(fence_FencingToken)) with
  | Err ErrAttemptNotFound => Err ErrAttemptFenced
  | Err e => Err e
  | Ok attemptRow =>
    try! attempt := toAttempt attemptRow as ErrStoreIntegrity in
    guard! attemptMatchesFence attempt fence && bool_decide (attempt.(att_Status) = AttemptStatusRunning)
      else ErrAttemptFenced;;
    try! now := executionNow clock in
    guard! After attempt.(att_LeaseExpiresAt) now else ErrAttemptLeaseExpired;;
    guard! negb (Before now attempt.(att_LastHeartbeatAt)) else ErrStoreIntegrity;;
    try! lease := executionLeaseExpiry cfg now in
    Ok (mkHeartbeatAttemptResult (heartbeatAttempt attempt lease now) turn.(turn_CancelRequestedAt),
        updateAttemptColumns db attemptRow.(ar_ID) (heartbeatColumns lease now))
  end.

Definition HeartbeatAttempt (cfg : SQLStoreConfig) (ctx : context) (clock : result time)
    (outcome : txOutcome) (fence : AttemptFence) : op Database HeartbeatAttemptResult := fun db =>
  match first_error [ctx 0%nat; AttemptFence_Validate fence] with
  | Some e => (Err e, db)
  | None =>
    match writeTransaction cfg ctx outcome (heartbeatAttemptBody cfg clock fence) db with
    | (Ok r, db') => (Ok r, db')
    | (Err e, db') => (Err (normalize e), db')
    end
  end.

(** ** Discovery *)

(** LEFT JOIN of a Turn with its active Attempt. *)
Definition activeAttemptOf (db : Database) (t : sqlTurnRow) : option sqlTurnAttemptRow :=
  match t.(tr_ActiveAttemptID) with
  | None => None
  | Some active =>
    select_one (fun a => bool_decide (a.(ar_TurnID) = t.(tr_TurnID))
                         && bool_decide (a.(ar_AttemptID) = active)) db.(db_attempts)
  end.

(** a.status = 'running' AND a.lease_expires_at <= now; false without an a. *)
Definition attempt_lapsed (now : time) (a : option sqlTurnAttemptRow) : bool :=
  holds_at a (fun r => bool_decide (r.(ar_Status) = AttemptStatusRunning)
                       && (r.(ar_LeaseExpiresAt) <=? now)).

(** [claimPluginScopePredicate]: a snapshot that does not decode is in no scope. *)
Definition pluginPredicate (scope : list EventPluginRef) (t : sqlTurnRow) : bool :=
  bool_decide (scope = [])
  || holds_at t.(tr_PluginSnapshotJSON) (fun p => existsb (fun allowed => bool_decide (p = allowed)) scope).

(** The WHERE clause of the claim scan. *)
Definition turn_claimable (now : time) (budget : Z) (scope : list EventPluginRef) (db : Database)
    (t : sqlTurnRow) : bool :=
  bool_decide (t.(tr_CancelRequestedAt) = None)
  && (t.(tr_FencingToken) <? budget)
  && (bool_decide (t.(tr_Status) = TurnStatusQueued) && bool_decide (t.(tr_ActiveAttemptID) = None)
      || bool_decide (t.(tr_Status) = TurnStatusRunning)
         && bool_decide (is_Some t.(tr_ActiveAttemptID))
         && attempt_lapsed now (activeAttemptOf db t))
  && pluginPredicate scope t.

(** ORDER BY t.created_at ASC, t.id ASC. *)
Definition turn_before (a b : sqlTurnRow) : Prop :=
  a.(tr_CreatedAt) < b.(tr_CreatedAt) ∨ a.(tr_CreatedAt) = b.(tr_CreatedAt) ∧ a.(tr_ID) ≤ b.(tr_ID).

#[export] Instance turn_before_dec : RelDecision turn_before.
Proof. unfold RelDecision, turn_before. intros a b. apply _. Defined.

Definition scanClaimableTurns (cfg : SQLStoreConfig) (clock : result time) (limit : Z)
    (scope : list EventPluginRef) (db : Database) : result (list TurnID) :=
  try! now := executionNow clock in
  try! budget := turnAttemptBudget cfg in
  check! (if bool_decide (scope = []) then None else validateClaimPluginScope scope);;
  let rows := take (Z.to_nat limit)
                (merge_sort turn_before (List.filter (turn_claimable now budget scope db) db.(db_turns))) in
  guard! forallb (fun t => bool_decide (validatePathSegment t.(tr_TurnID) MaxTurnIDBytes = None)) rows
    else ErrStoreIntegrity;;
  Ok (map tr_TurnID rows).

Definition claimNextSkips (e : error) : bool :=
  match e with
  | ErrAttemptBusy | ErrTurnTerminal | ErrTurnNotFound | ErrAttemptCancelled
  | ErrAttemptFenceExhausted | ErrAttemptBudgetExhausted | ErrTurnReservationExecutionExpired => true
  | _ => false
  end.

(** The loop of [ClaimNext]: what each claim meets, and what others commit
    before it. *)
Fixpoint claimNextLoop (cfg : SQLStoreConfig) (authority : ExecutionAuthority)
    (others : nat → Database → Database) (env : nat → attemptEnv) (i : nat)
    (command : ClaimNextCommand) (candidates : list TurnID) (db : Database)
    : result ClaimAttemptResult * Database :=
  match candidates with
  | [] => (Err ErrNoClaimableTurn, db)
  | turnID :: rest =>
    match ClaimAttempt cfg authority (env i) (ClaimNextCommand_claimFor command turnID) (others i db) with
    | (Ok r, db') => (Ok r, db')
    | (Err claimErr, db') =>
      match (env i).(ae_ctx) 4%nat with
      | Some e => (Err e, db')
      | None =>
        if claimNextSkips claimErr
        then claimNextLoop cfg authority others env (S i) command rest db'
        else (Err claimErr, db')
      end
    end
  end.

Definition ClaimNext (cfg : SQLStoreConfig) (authority : ExecutionAuthority) (ctx : context)
    (scanClock : result time) (others : nat → Database → Database) (env : nat → attemptEnv)
    (command : ClaimNextCommand) : op Database ClaimAttemptResult := fun db =>
  match first_error [ctx 0%nat; ClaimNextCommand_Validate command] with
  | Some e => (Err e, db)
  | None =>
    match lookupAttemptByID db command.(next_AttemptID) with
    | Some existing =>
      ClaimAttempt cfg authority (env 0%nat)
        (ClaimNextCommand_claimFor command existing.(ar_TurnID)) (others 0%nat db)
    | None =>
      match scanClaimableTurns cfg scanClock (ClaimNextCommand_scanLimit command)
              command.(next_PluginScope) db with
      | Err e => (Err (normalize e), db)
      | Ok candidates => claimNextLoop cfg authority others env 0 command candidates db
      end
    end
  end.

(** ** Turns without a live executor *)

(** The WHERE clause of [ListReclaimableTurns]. *)
Definition turn_reclaimable (now : time) (budget : Z) (db : Database) (t : sqlTurnRow) : bool :=
  bool_decide (t.(tr_Status) ∈ [TurnStatusQueued; TurnStatusRunning])
  && (bool_decide (t.(tr_ActiveAttemptID) = None) || attempt_lapsed now (activeAttemptOf db t))
  && (bool_decide (is_Some t.(tr_CancelRequestedAt)) || (budget <=? t.(tr_FencingToken))
      || bool_decide (is_Some t.(tr_ActiveAttemptID))).

Definition toReclaimableTurn (budget : Z) (t : sqlTurnRow) (a : option sqlTurnAttemptRow)
    : result ReclaimableTurn :=
  check! validatePathSegment t.(tr_TurnID) MaxTurnIDBytes as ErrStoreIntegrity;;
  guard! negb (negb (TurnStatus_Valid t.(tr_Status)) || TurnStatus_Terminal t.(tr_Status))
    else ErrStoreIntegrity;;
  guard! negb ((t.(tr_FencingToken) <? 0) || (MaxDurableSequence <? u64 t.(tr_FencingToken)))
    else ErrStoreIntegrity;;
  check! match a with
         | None => None
         | Some r => validatePrintableASCII r.(ar_AttemptID) MaxAttemptIDBytes
         end as ErrStoreIntegrity;;
  let entry reason :=
    {| recl_TurnID := t.(tr_TurnID); recl_Status := t.(tr_Status); recl_Reason := reason;
       recl_AttemptID := default "" (ar_AttemptID <$> a);
       recl_FencingToken := u64 t.(tr_FencingToken);
       recl_WorkerID := default "" (ar_WorkerID <$> a);
       recl_LeaseExpiresAt := ar_LeaseExpiresAt <$> a;
       recl_CancelRequestedAt := t.(tr_CancelRequestedAt) |} in
  if bool_decide (is_Some t.(tr_CancelRequestedAt)) then Ok (entry ReclaimReasonCancellationPending)
  else if budget <=? t.(tr_FencingToken) then Ok (entry ReclaimReasonAttemptsExhausted)
  else if bool_decide (is_Some a) then Ok (entry ReclaimReasonLeaseExpired)
  else Err ErrStoreIntegrity.

Fixpoint reclaimEntries (query : ReclaimQuery) (budget : Z) (db : Database) (rows : list sqlTurnRow)
    : result (list ReclaimableTurn) :=
  match rows with
  | [] => Ok []
  | t :: rest =>
    try! entry := toReclaimableTurn budget t (activeAttemptOf db t) in
    try! entries := reclaimEntries query budget db rest in
    Ok (if query.(rq_ActionableOnly) && negb (ReclaimReason_Actionable entry.(recl_Reason))
        then entries else entry :: entries)
  end.

(** [ListReclaimableTurns]: a read; the limit is the statement's. *)
Definition ListReclaimableTurns (cfg : SQLStoreConfig) (ctx : context) (clock : result time)
    (query : ReclaimQuery) (db : Database) : result (list ReclaimableTurn) :=
  check! first_error [ctx 0%nat; ReclaimQuery_Validate query];;
  match executionNow clock with
  | Err e => Err (normalize e)
  | Ok now =>
    match turnAttemptBudget cfg with
    | Err e => Err (normalize e)
    | Ok budget =>
      let rows := take (Z.to_nat (ReclaimQuery_limit query))
                    (merge_sort turn_before
                       (List.filter (turn_reclaimable now budget db) db.(db_turns))) in
      try! entries := reclaimEntries query budget db rows as ErrStoreIntegrity in
      Ok entries
    end
  end.
