(* ===== verification/EffectOutbox.v ===== *)
(** * The transactional effect outbox: service/agentturn/effect_outbox.go

    Claiming and completing leased deliveries.  Each claim and each completion
    is one transaction on the database; the environment of a call supplies the
    database clock, how the driver ends the transaction and, between the rows of
    one batch, what other transactions committed. *)

From stdpp Require Import sorting.
From S2P Require Import Prelude GoText GoJson AgentContract TurnTypes MemoryStore TurnService ExecutionTypes SqlDatabase.

Definition DefaultEffectLeaseTTL : Z := 30 * second.
Definition MaxEffectLeaseTTL : Z := 10 * minute.
Definition DefaultMaxDeliveryAttempts : Z := 5.
Definition MaxDeliveryAttemptsLimit : Z := 64.
Definition DefaultEffectRetryBackoff : Z := second.
Definition MaxEffectRetryBackoff : Z := 5 * minute.
Definition DefaultEffectClaimBatch : Z := 16.
Definition MaxEffectClaimBatch : Z := 128.
Definition MaxEffectErrorCodeBytes : Z := 64.

(** ** Statuses, fences and reports *)

Definition EffectStatus : Type := string.
Definition EffectStatusPending : EffectStatus := "pending".
Definition EffectStatusDelivering : EffectStatus := "delivering".
Definition EffectStatusDelivered : EffectStatus := "delivered".
Definition EffectStatusDeadLetter : EffectStatus := "dead_letter".
Definition EffectStatusReviewHold : EffectStatus := "review_hold".

Definition EffectStatus_Valid (s : EffectStatus) : bool :=
  bool_decide (s ∈ [EffectStatusPending; EffectStatusDelivering; EffectStatusDelivered;
                    EffectStatusDeadLetter; EffectStatusReviewHold]).

Definition EffectStatus_Terminal (s : EffectStatus) : bool :=
  bool_decide (s = EffectStatusDelivered) || bool_decide (s = EffectStatusDeadLetter).

Record EffectDispatchFence := mkEffectDispatchFence {
  ef_OutboxID : string;
  ef_DispatchToken : Z;
  ef_LeaseOwnerID : string
}.

Definition EffectDispatchFence_Validate (f : EffectDispatchFence) : validation :=
  first_error
    [ validatePrintableASCII f.(ef_OutboxID) MaxEffectOutboxIDBytes;
      when (f.(ef_DispatchToken) <? 1) (ErrText "dispatchToken must be at least 1");
      validatePrintableASCII f.(ef_LeaseOwnerID) MaxWorkerIDBytes ].

Record EffectDelivery := mkEffectDelivery {
  del_OutboxID : string;
  del_TurnID : TurnID;
  del_AttemptID : string;
  del_TurnFencingToken : Sequence;
  del_OperationID : string;
  del_Ordinal : Z;
  del_Topic : string;
  del_DedupeKey : string;
  del_Payload : string;
  del_DeliveryAttempts : Z;
  del_Fence : EffectDispatchFence;
  del_LeaseExpiresAt : time
}.

Definition DeliveryOutcome : Type := string.
Definition DeliveryOutcomeDelivered : DeliveryOutcome := "delivered".
Definition DeliveryOutcomeRetry : DeliveryOutcome := "retry".
Definition DeliveryOutcomePermanent : DeliveryOutcome := "permanent".
Definition DeliveryOutcomeUnknown : DeliveryOutcome := "unknown".

Definition DeliveryOutcome_Valid (o : DeliveryOutcome) : bool :=
  bool_decide (o ∈ [DeliveryOutcomeDelivered; DeliveryOutcomeRetry; DeliveryOutcomePermanent;
                    DeliveryOutcomeUnknown]).

Record DeliveryReport := mkDeliveryReport {
  rep_Outcome : DeliveryOutcome;
  rep_ErrorCode : string;
  rep_RetryAfter : Z;
  rep_IdempotentRetrySafe : bool
}.

Definition DeliveryReport_Validate (r : DeliveryReport) : validation :=
  first_error
    [ when (negb (DeliveryOutcome_Valid r.(rep_Outcome))) (ErrText "unknown delivery outcome");
      (if bool_decide (r.(rep_ErrorCode) = "") then None
       else validatePrintableASCII r.(rep_ErrorCode) MaxEffectErrorCodeBytes);
      when (bool_decide (r.(rep_Outcome) = DeliveryOutcomeDelivered)
            && negb (bool_decide (r.(rep_ErrorCode) = "")))
        (ErrText "a delivered effect cannot carry an error code");
      when ((r.(rep_RetryAfter) <? 0) || (MaxEffectRetryBackoff <? r.(rep_RetryAfter)))
        (ErrText "retryAfter out of range") ].

Record ClaimEffectsCommand := mkClaimEffectsCommand {
  ce_LeaseOwnerID : string;
  ce_Limit : Z;
  ce_Topics : list string
}.

Definition ClaimEffectsCommand_Validate (c : ClaimEffectsCommand) : validation :=
  first_error
    ([ validatePrintableASCII c.(ce_LeaseOwnerID) MaxWorkerIDBytes;
       when ((c.(ce_Limit) <? 0) || (MaxEffectClaimBatch <? c.(ce_Limit))) (ErrText "limit out of range");
       when (MaxEffectClaimBatch <? Z.of_nat (length c.(ce_Topics))) (ErrText "topics exceed maximum") ]
     ++ map (fun t => validatePrintableASCII t MaxEffectTopicBytes) c.(ce_Topics)).

Definition ClaimEffectsCommand_limit (c : ClaimEffectsCommand) : Z :=
  if c.(ce_Limit) <=? 0 then DefaultEffectClaimBatch else c.(ce_Limit).

Record CompleteEffectCommand := mkCompleteEffectCommand {
  cmp_Fence : EffectDispatchFence;
  cmp_Report : DeliveryReport
}.

Definition CompleteEffectCommand_Validate (c : CompleteEffectCommand) : validation :=
  first_error [ EffectDispatchFence_Validate c.(cmp_Fence); DeliveryReport_Validate c.(cmp_Report) ].

Record CompleteEffectResult := mkCompleteEffectResult {
  cer_OutboxID : string;
  cer_Status : EffectStatus;
  cer_DeliveryAttempts : Z;
  cer_AvailableAt : time;
  cer_LastErrorCode : string;
  cer_Replay : bool
}.

(** ** Configuration *)

Definition effectLeaseTTL (cfg : SQLStoreConfig) : Z :=
  if (cfg.(cfg_effectLease) <=? 0) || (MaxEffectLeaseTTL <? cfg.(cfg_effectLease))
  then DefaultEffectLeaseTTL else cfg.(cfg_effectLease).

Definition maxDeliveryAttemptsBudget (cfg : SQLStoreConfig) : Z :=
  if (cfg.(cfg_maxDeliveryAttempts) <=? 0)
     || (MaxDeliveryAttemptsLimit <? cfg.(cfg_maxDeliveryAttempts))
  then DefaultMaxDeliveryAttempts else cfg.(cfg_maxDeliveryAttempts).

(** The doubling loop of [effectRetryDelay]: [left] iterations remain. *)
Fixpoint doubleDelay (left : nat) (delay : Z) : Z :=
  match left with
  | O => delay
  | S left' => if delay <? MaxEffectRetryBackoff then doubleDelay left' (i64 (delay * 2)) else delay
  end.

Definition effectRetryDelay (attempts hint : Z) : Z :=
  let delay := doubleDelay (Z.to_nat (attempts - 1)) DefaultEffectRetryBackoff in
  let delay := if MaxEffectRetryBackoff <? delay then MaxEffectRetryBackoff else delay in
  let delay := if delay <? hint then hint else delay in
  if MaxEffectRetryBackoff <? delay then MaxEffectRetryBackoff else delay.

(** ** Reading the outbox *)

Definition effectTopicScopeAllows (topics : list string) (topic : string) : bool :=
  bool_decide (topics = []) || existsb (fun allowed => bool_decide (allowed = topic)) topics.

(** The WHERE clause of the scan; a NULL lease is never due. *)
Definition effect_due (now : time) (row : sqlEffectOutboxRow) : bool :=
  bool_decide (row.(fx_Status) = EffectStatusPending) && (row.(fx_AvailableAt) <=? now)
  || bool_decide (row.(fx_Status) = EffectStatusDelivering)
     && holds_at row.(fx_LeaseExpiresAt) (fun l => l <=? now).

(** ORDER BY available_at ASC, id ASC. *)
Definition effect_before (a b : sqlEffectOutboxRow) : Prop :=
  a.(fx_AvailableAt) < b.(fx_AvailableAt)
  ∨ a.(fx_AvailableAt) = b.(fx_AvailableAt) ∧ a.(fx_ID) ≤ b.(fx_ID).

#[export] Instance effect_before_dec : RelDecision effect_before.
Proof. unfold RelDecision, effect_before. intros a b. apply _. Defined.

Definition scanClaimableEffects (clock : result time) (command : ClaimEffectsCommand) (db : Database)
    : result (list string) :=
  try! now := executionNow clock in
  let due := List.filter (fun row => effect_due now row
                                     && effectTopicScopeAllows command.(ce_Topics) row.(fx_Topic))
               db.(db_effects) in
  let ids := map fx_OutboxID
               (take (Z.to_nat (ClaimEffectsCommand_limit command)) (merge_sort effect_before due)) in
  guard! forallb (fun id => bool_decide (validatePrintableASCII id MaxEffectOutboxIDBytes = None)) ids
    else ErrStoreIntegrity;;
  Ok ids.

Definition effect_is (outboxID : string) (row : sqlEffectOutboxRow) : bool :=
  bool_decide (row.(fx_OutboxID) = outboxID).

Definition lockEffect (db : Database) (outboxID : string) : result sqlEffectOutboxRow :=
  match select_one (effect_is outboxID) db.(db_effects) with
  | Some row => Ok row
  | None => Err ErrEffectNotFound
  end.

(** ** Claiming *)

Definition claimedEffect (row : sqlEffectOutboxRow) (owner : string) (lease now : time)
    : sqlEffectOutboxRow :=
  {| fx_ID := row.(fx_ID); fx_OutboxID := row.(fx_OutboxID); fx_TurnID := row.(fx_TurnID);
     fx_AttemptID := row.(fx_AttemptID); fx_TurnFencingToken := row.(fx_TurnFencingToken);
     fx_OperationID := row.(fx_OperationID); fx_Ordinal := row.(fx_Ordinal);
     fx_Topic := row.(fx_Topic); fx_DedupeKey := row.(fx_DedupeKey);
     fx_PayloadJSON := row.(fx_PayloadJSON);
     fx_Status := EffectStatusDelivering;
     fx_AvailableAt := row.(fx_AvailableAt);
     fx_DeliveryAttempts := i64 (row.(fx_DeliveryAttempts) + 1);
     fx_DispatchFencingToken := i64 (row.(fx_DispatchFencingToken) + 1);
     fx_LeaseOwnerID := Some owner;
     fx_LeaseExpiresAt := Some lease;
     fx_LastErrorCode := row.(fx_LastErrorCode);
     fx_DeliveredAt := row.(fx_DeliveredAt); fx_DeadLetteredAt := row.(fx_DeadLetteredAt);
     fx_CreatedAt := row.(fx_CreatedAt); fx_UpdatedAt := now |}.

Definition deliveryOf (row : sqlEffectOutboxRow) (owner : string) (lease : time) : EffectDelivery :=
  {| del_OutboxID := row.(fx_OutboxID); del_TurnID := row.(fx_TurnID);
     del_AttemptID := row.(fx_AttemptID); del_TurnFencingToken := u64 row.(fx_TurnFencingToken);
     del_OperationID := row.(fx_OperationID); del_Ordinal := row.(fx_Ordinal);
     del_Topic := row.(fx_Topic); del_DedupeKey := row.(fx_DedupeKey);
     del_Payload := row.(fx_PayloadJSON);
     del_DeliveryAttempts := i64 (row.(fx_DeliveryAttempts) + 1);
     del_Fence := mkEffectDispatchFence row.(fx_OutboxID) (i64 (row.(fx_DispatchFencingToken) + 1)) owner;
     del_LeaseExpiresAt := lease |}.

(** chk_w_agent_effect_outbox_dispatch_counters: the columns are unsigned, so
    the UPDATE of a counter that wrapped is refused. *)
Definition effect_counters_ok (row : sqlEffectOutboxRow) : bool :=
  (0 <=? row.(fx_DeliveryAttempts)) && (0 <=? row.(fx_DispatchFencingToken)).

(** The transaction of [claimEffect] on the row it found by id. *)
Definition claimEffectBody (cfg : SQLStoreConfig) (clock : result time) (identityTurnID : TurnID)
    (outboxID leaseOwnerID : string) (topics : list string) (db : Database)
    : result (option EffectDelivery * Database) :=
  try! _ := lockTurn db (turn_is identityTurnID) in
  try! review := lookupSettlementReviewTx db identityTurnID in
  match lockEffect db outboxID with
  | Err ErrEffectNotFound => Ok (None, db)
  | Err e => Err e
  | Ok row =>
    guard! bool_decide (row.(fx_TurnID) = identityTurnID) else ErrStoreIntegrity;;
    guard! effectTopicScopeAllows topics row.(fx_Topic) else ErrEffectScopeMismatch;;
    try! now := executionNow clock in
    let status := row.(fx_Status) in
    guard! EffectStatus_Valid status else ErrStoreIntegrity;;
    if bool_decide (is_Some review) then
      if bool_decide (status ∈ [EffectStatusReviewHold; EffectStatusDelivered; EffectStatusDeadLetter])
      then Ok (None, db) else Err ErrStoreIntegrity
    else if bool_decide (status = EffectStatusPending) && negb (After row.(fx_AvailableAt) now)
            || bool_decide (status = EffectStatusDelivering)
               && holds_at row.(fx_LeaseExpiresAt) (fun l => negb (After l now)) then
      let lease := now + effectLeaseTTL cfg in
      let next := claimedEffect row leaseOwnerID lease now in
      guard! effect_counters_ok next else driverError;;
      try! db' := updateEffectColumns db row.(fx_ID)
                    (fun r => claimedEffect r leaseOwnerID lease now) in
      Ok (Some (deliveryOf row leaseOwnerID lease), db')
    else Ok (None, db)
  end.

Definition claimEffect (cfg : SQLStoreConfig) (ctx : context) (clock : result time)
    (outcome : txOutcome) (outboxID leaseOwnerID : string) (topics : list string)
    : op Database (option EffectDelivery) := fun db =>
  match select_one (effect_is outboxID) db.(db_effects) with
  | None => (Ok None, db)
  | Some identity =>
    match validatePathSegment identity.(fx_TurnID) MaxTurnIDBytes with
    | Some _ => (Err ErrStoreIntegrity, db)
    | None =>
      writeTransaction cfg ctx outcome
        (claimEffectBody cfg clock identity.(fx_TurnID) outboxID leaseOwnerID topics) db
    end
  end.

(** What each row of a batch meets: other transactions, its context, clock and
    transaction outcome. *)
Record claimEnv := mkClaimEnv {
  cenv_others : Database → Database;
  cenv_ctx : context;
  cenv_clock : result time;
  cenv_outcome : txOutcome
}.

(** The loop of [ClaimEffects]; the deliveries claimed before a failure are
    returned with it. *)
Fixpoint claimEffectsLoop (cfg : SQLStoreConfig) (env : nat → claimEnv) (i : nat)
    (leaseOwnerID : string) (topics : list string) (candidates : list string)
    (deliveries : list EffectDelivery) (db : Database)
    : list EffectDelivery * validation * Database :=
  match candidates with
  | [] => (deliveries, None, db)
  | outboxID :: rest =>
    let e := env i in
    let db := e.(cenv_others) db in
    match e.(cenv_ctx) 0%nat with
    | Some err => (deliveries, Some err, db)
    | None =>
      match claimEffect cfg e.(cenv_ctx) e.(cenv_clock) e.(cenv_outcome) outboxID leaseOwnerID topics db with
      | (Err err, db') => (deliveries, Some (normalize err), db')
      | (Ok (Some delivery), db') =>
        claimEffectsLoop cfg env (S i) leaseOwnerID topics rest (deliveries ++ [delivery]) db'
      | (Ok None, db') => claimEffectsLoop cfg env (S i) leaseOwnerID topics rest deliveries db'
      end
    end
  end.

(** [ClaimEffects] returns deliveries and an error; both may be present. *)
Definition ClaimEffects (cfg : SQLStoreConfig) (ctx : context) (scanClock : result time)
    (env : nat → claimEnv) (command : ClaimEffectsCommand) (db : Database)
    : list EffectDelivery * validation * Database :=
  match first_error [ctx 0%nat; ClaimEffectsCommand_Validate command] with
  | Some e => ([], Some e, db)
  | None =>
    match scanClaimableEffects scanClock command db with
    | Err e => ([], Some (normalize e), db)
    | Ok candidates =>
      match claimEffectsLoop cfg env 0 command.(ce_LeaseOwnerID) command.(ce_Topics) candidates [] db with
      | ([], None, db') => ([], Some ErrNoClaimableEffects, db')
      | r => r
      end
    end
  end.

(** ** Completing *)

Definition completedEffect (row : sqlEffectOutboxRow) (status : EffectStatus) (availableAt : time)
    (errorCode : option string) (delivered dead : option time) (now : time) : sqlEffectOutboxRow :=
  {| fx_ID := row.(fx_ID); fx_OutboxID := row.(fx_OutboxID); fx_TurnID := row.(fx_TurnID);
     fx_AttemptID := row.(fx_AttemptID); fx_TurnFencingToken := row.(fx_TurnFencingToken);
     fx_OperationID := row.(fx_OperationID); fx_Ordinal := row.(fx_Ordinal);
     fx_Topic := row.(fx_Topic); fx_DedupeKey := row.(fx_DedupeKey);
     fx_PayloadJSON := row.(fx_PayloadJSON);
     fx_Status := status; fx_AvailableAt := availableAt;
     fx_DeliveryAttempts := row.(fx_DeliveryAttempts);
     fx_DispatchFencingToken := row.(fx_DispatchFencingToken);
     fx_LeaseOwnerID := None; fx_LeaseExpiresAt := None;
     fx_LastErrorCode := errorCode;
     fx_DeliveredAt := delivered; fx_DeadLetteredAt := dead;
     fx_CreatedAt := row.(fx_CreatedAt); fx_UpdatedAt := now |}.

(** [resolveEffectCompletion]: the row's new columns and the result. *)
Definition resolveEffectCompletion (cfg : SQLStoreConfig) (row : sqlEffectOutboxRow)
    (report : DeliveryReport) (now : time) : result (sqlEffectOutboxRow * CompleteEffectResult) :=
  let budget := maxDeliveryAttemptsBudget cfg in
  let errorCode := if bool_decide (report.(rep_ErrorCode) = "") then None
                   else Some report.(rep_ErrorCode) in
  let answer status availableAt code :=
    mkCompleteEffectResult row.(fx_OutboxID) status row.(fx_DeliveryAttempts) availableAt code false in
  let retry :=
    let availableAt := now + effectRetryDelay row.(fx_DeliveryAttempts) report.(rep_RetryAfter) in
    (completedEffect row EffectStatusPending availableAt errorCode row.(fx_DeliveredAt)
       row.(fx_DeadLetteredAt) now,
     answer EffectStatusPending availableAt report.(rep_ErrorCode)) in
  let dead :=
    (completedEffect row EffectStatusDeadLetter row.(fx_AvailableAt) errorCode row.(fx_DeliveredAt)
       (Some now) now,
     answer EffectStatusDeadLetter 0 report.(rep_ErrorCode)) in
  if bool_decide (report.(rep_Outcome) = DeliveryOutcomeDelivered) then
    Ok (completedEffect row EffectStatusDelivered row.(fx_AvailableAt) None (Some now)
          row.(fx_DeadLetteredAt) now,
        answer EffectStatusDelivered 0 "")
  else if bool_decide (report.(rep_Outcome) = DeliveryOutcomePermanent) then Ok dead
  else if bool_decide (report.(rep_Outcome) = DeliveryOutcomeRetry) then
    Ok (if budget <=? row.(fx_DeliveryAttempts) then dead else retry)
  else if bool_decide (report.(rep_Outcome) = DeliveryOutcomeUnknown) then
    Ok (if negb report.(rep_IdempotentRetrySafe) || (budget <=? row.(fx_DeliveryAttempts))
        then dead else retry)
  else Err (ErrText "unknown delivery outcome").

Definition effectResultFromRow (row : sqlEffectOutboxRow) (replay : bool) : CompleteEffectResult :=
  mkCompleteEffectResult row.(fx_OutboxID) row.(fx_Status) row.(fx_DeliveryAttempts)
    row.(fx_AvailableAt) (default "" row.(fx_LastErrorCode)) replay.

Definition completeEffectBody (cfg : SQLStoreConfig) (clock : result time)
    (command : CompleteEffectCommand) (db : Database) : result (CompleteEffectResult * Database) :=
  let fence := command.(cmp_Fence) in
  try! row := lockEffect db fence.(ef_OutboxID) in
  let status := row.(fx_Status) in
  guard! EffectStatus_Valid status else ErrStoreIntegrity;;
  guard! row.(fx_DispatchFencingToken) =? fence.(ef_DispatchToken) else ErrEffectFenced;;
  if EffectStatus_Terminal status then Ok (effectResultFromRow row true, db)
  else
    guard! bool_decide (status = EffectStatusDelivering)
           && bool_decide (row.(fx_LeaseOwnerID) = Some fence.(ef_LeaseOwnerID)) else ErrEffectFenced;;
    try! now := executionNow clock in
    try! resolved := resolveEffectCompletion cfg row command.(cmp_Report) now in
    try! db' := updateEffectColumns db row.(fx_ID) (fun _ => fst resolved) in
    Ok (snd resolved, db').

Definition CompleteEffect (cfg : SQLStoreConfig) (ctx : context) (clock : result time)
    (outcome : txOutcome) (command : CompleteEffectCommand) : op Database CompleteEffectResult :=
  fun db =>
    match first_error [ctx 0%nat; CompleteEffectCommand_Validate command] with
    | Some e => (Err e, db)
    | None =>
      match writeTransaction cfg ctx outcome (completeEffectBody cfg clock command) db with
      | (Ok r, db') => (Ok r, db')
      | (Err e, db') => (Err (normalize e), db')
      end
    end.

(** ** The stored state of a row: sql_execution_store.go *)

Definition validEffectOutboxState (row : sqlEffectOutboxRow) : bool :=
  let no_lease := bool_decide (row.(fx_LeaseOwnerID) = None)
                  && bool_decide (row.(fx_LeaseExpiresAt) = None) in
  let leased := bool_decide (is_Some row.(fx_LeaseOwnerID))
                && bool_decide (is_Some row.(fx_LeaseExpiresAt)) in
  let counted := (1 <=? row.(fx_DeliveryAttempts)) && (1 <=? row.(fx_DispatchFencingToken)) in
  let delivered := bool_decide (is_Some row.(fx_DeliveredAt)) in
  let dead := bool_decide (is_Some row.(fx_DeadLetteredAt)) in
  if (row.(fx_DeliveryAttempts) <? 0) || (row.(fx_DispatchFencingToken) <? 0)
     || IsZero row.(fx_CreatedAt) || IsZero row.(fx_UpdatedAt)
     || Before row.(fx_UpdatedAt) row.(fx_CreatedAt) then false
  else if holds_at row.(fx_LeaseOwnerID) (fun o =>
            bool_decide (is_Some (validatePrintableASCII o MaxWorkerIDBytes))) then false
  else if holds_at row.(fx_LastErrorCode) (fun c =>
            bool_decide (is_Some (validatePrintableASCII c MaxEffectErrorCodeBytes))) then false
  else if holds_at row.(fx_LeaseExpiresAt) (fun l => negb (After l row.(fx_UpdatedAt))) then false
  else if holds_at row.(fx_DeliveredAt) (fun d => Before d row.(fx_CreatedAt)) then false
  else if holds_at row.(fx_DeadLetteredAt) (fun d => Before d row.(fx_CreatedAt)) then false
  else if bool_decide (row.(fx_Status) = EffectStatusPending) then
    no_lease && negb delivered && negb dead
  else if bool_decide (row.(fx_Status) = EffectStatusDelivering) then
    leased && counted && negb delivered && negb dead
  else if bool_decide (row.(fx_Status) = EffectStatusDelivered) then
    no_lease && counted && delivered && negb dead
  else if bool_decide (row.(fx_Status) = EffectStatusDeadLetter) then
    no_lease && counted && negb delivered && dead
  else if bool_decide (row.(fx_Status) = EffectStatusReviewHold) then
    no_lease && negb delivered && negb dead
  else false.

(** ** The other writers of the table *)

(** [sqlEffectOutboxRow.toRecord]. *)
Definition toEffectRecord (row : sqlEffectOutboxRow) : result EffectOutboxRecord :=
  check! first_error
    [ validatePrintableASCII row.(fx_OutboxID) MaxEffectOutboxIDBytes;
      validatePathSegment row.(fx_TurnID) MaxTurnIDBytes;
      validatePrintableASCII row.(fx_AttemptID) MaxAttemptIDBytes;
      validatePrintableASCII row.(fx_OperationID) MaxOperationIDBytes;
      validatePrintableASCII row.(fx_Topic) MaxEffectTopicBytes;
      validateBoundedText row.(fx_DedupeKey) MaxEffectDedupeKeyBytes ] as ErrStoreIntegrity;;
  guard! negb ((row.(fx_TurnFencingToken) <? 1)
               || (MaxDurableSequence <? u64 row.(fx_TurnFencingToken))
               || (row.(fx_Ordinal) <? 0) || (MaxEffectsPerOperation <=? row.(fx_Ordinal))
               || (len row.(fx_PayloadJSON) =? 0)
               || (MaxEffectPayloadBytes <? len row.(fx_PayloadJSON))
               || negb (json_valid row.(fx_PayloadJSON)) || IsZero row.(fx_AvailableAt))
    else ErrStoreIntegrity;;
  guard! validEffectOutboxState row else ErrStoreIntegrity;;
  Ok {| erec_OutboxID := row.(fx_OutboxID); erec_TurnID := row.(fx_TurnID);
        erec_AttemptID := row.(fx_AttemptID); erec_FencingToken := u64 row.(fx_TurnFencingToken);
        erec_OperationID := row.(fx_OperationID); erec_Ordinal := row.(fx_Ordinal);
        erec_Topic := row.(fx_Topic); erec_DedupeKey := row.(fx_DedupeKey);
        erec_Payload := row.(fx_PayloadJSON); erec_Status := row.(fx_Status);
        erec_AvailableAt := row.(fx_AvailableAt) |}.

(** The row an operation commits for one of its effects, before the table
    assigns its id. *)
Definition buildEffectOutboxRow (attempt : TurnAttempt) (operationID : string) (ordinal : Z)
    (draft : EffectOutboxDraft) (now : time) : result (sqlEffectOutboxRow * EffectOutboxRecord) :=
  guard! negb (bool_decide (is_Some (EffectOutboxDraft_Validate draft))
               || (ordinal <? 0) || (MaxEffectsPerOperation <=? ordinal)) else ErrStoreIntegrity;;
  try! availableAt := canonicalExecutionTime draft.(edraft_AvailableAt) in
  let row :=
    {| fx_ID := 0; fx_OutboxID := draft.(edraft_OutboxID); fx_TurnID := attempt.(att_TurnID);
       fx_AttemptID := attempt.(att_ID); fx_TurnFencingToken := i64 attempt.(att_FencingToken);
       fx_OperationID := operationID; fx_Ordinal := ordinal;
       fx_Topic := draft.(edraft_Topic); fx_DedupeKey := draft.(edraft_DedupeKey);
       fx_PayloadJSON := draft.(edraft_Payload); fx_Status := EffectStatusPending;
       fx_AvailableAt := availableAt; fx_DeliveryAttempts := 0; fx_DispatchFencingToken := 0;
       fx_LeaseOwnerID := None; fx_LeaseExpiresAt := None; fx_LastErrorCode := None;
       fx_DeliveredAt := None; fx_DeadLetteredAt := None; fx_CreatedAt := now; fx_UpdatedAt := now |} in
  try! record := toEffectRecord row in
  Ok (row, record).

Definition with_effect_id (row : sqlEffectOutboxRow) (id : Z) : sqlEffectOutboxRow :=
  {| fx_ID := id; fx_OutboxID := row.(fx_OutboxID); fx_TurnID := row.(fx_TurnID);
     fx_AttemptID := row.(fx_AttemptID); fx_TurnFencingToken := row.(fx_TurnFencingToken);
     fx_OperationID := row.(fx_OperationID); fx_Ordinal := row.(fx_Ordinal);
     fx_Topic := row.(fx_Topic); fx_DedupeKey := row.(fx_DedupeKey);
     fx_PayloadJSON := row.(fx_PayloadJSON); fx_Status := row.(fx_Status);
     fx_AvailableAt := row.(fx_AvailableAt); fx_DeliveryAttempts := row.(fx_DeliveryAttempts);
     fx_DispatchFencingToken := row.(fx_DispatchFencingToken);
     fx_LeaseOwnerID := row.(fx_LeaseOwnerID); fx_LeaseExpiresAt := row.(fx_LeaseExpiresAt);
     fx_LastErrorCode := row.(fx_LastErrorCode); fx_DeliveredAt := row.(fx_DeliveredAt);
     fx_DeadLetteredAt := row.(fx_DeadLetteredAt); fx_CreatedAt := row.(fx_CreatedAt);
     fx_UpdatedAt := row.(fx_UpdatedAt) |}.

(** The unique keys of the outbox table. *)
Definition effect_key_taken (row r : sqlEffectOutboxRow) : bool :=
  bool_decide (r.(fx_OutboxID) = row.(fx_OutboxID))
  || bool_decide (r.(fx_Topic) = row.(fx_Topic)) && bool_decide (r.(fx_DedupeKey) = row.(fx_DedupeKey))
  || bool_decide (r.(fx_TurnID) = row.(fx_TurnID))
     && bool_decide (r.(fx_OperationID) = row.(fx_OperationID)) && (r.(fx_Ordinal) =? row.(fx_Ordinal)).

Definition insertEffect (db : Database) (row : sqlEffectOutboxRow) : result Database :=
  guard! negb (existsb (effect_key_taken row) db.(db_effects)) else driverError;;
  Ok (set_effects db (db.(db_effects) ++ [with_effect_id row (next_id fx_ID db.(db_effects))])).

(** settlement_review.go [holdTurnEffectsForReview]. *)
Definition heldEffect (now : time) (row : sqlEffectOutboxRow) : sqlEffectOutboxRow :=
  completedEffect row EffectStatusReviewHold row.(fx_AvailableAt) row.(fx_LastErrorCode)
    row.(fx_DeliveredAt) row.(fx_DeadLetteredAt)
    (if now <? row.(fx_UpdatedAt) then row.(fx_UpdatedAt) else now).

Definition effect_holdable (turnID : TurnID) (row : sqlEffectOutboxRow) : bool :=
  bool_decide (row.(fx_TurnID) = turnID)
  && bool_decide (row.(fx_Status) ∈ [EffectStatusPending; EffectStatusDelivering]).

Definition holdTurnEffectsForReview (db : Database) (turnID : TurnID) (now : time) : Database :=
  set_effects db (update_rows (effect_holdable turnID) (heldEffect now) db.(db_effects)).

(** [detectEffectConflict]: whether an effect of a failed commit collides with
    a stored one. *)
Definition detectEffectConflict (db : Database) (effects : list EffectOutboxDraft) : bool :=
  existsb (fun effect =>
      bool_decide (is_Some (select_one (fun r =>
        bool_decide (r.(fx_OutboxID) = effect.(edraft_OutboxID))
        || bool_decide (r.(fx_Topic) = effect.(edraft_Topic))
           && bool_decide (r.(fx_DedupeKey) = effect.(edraft_DedupeKey))) db.(db_effects)))) effects.
