(* ===== verification/SettlementAuthority.v ===== *)
(** * The settlement boundary of a store: settlement.go and settlement_review.go

    The commercial authority is code behind an interface: what it answers is a
    parameter, as a function of the tables and of the command, and each
    stronger interface it implements is an optional method.  A call it accepts
    is appended to the ledger in the transaction of the caller.

    The store's settlement fields are one value that the compatibility mutator
    and the binders change; an operation reads it at several moments, so the
    operations take it as a function of the moment. *)

From S2P Require Import Prelude GoText GoJson AgentContract TurnTypes MemoryStore ExecutionTypes Settlement ProviderUsage SettlementUsage SqlDatabase.

(** ** Authorities *)

Record SettlementAuthority := mkSettlementAuthority {
  sa_Settle : Database → SettlementCommand → validation;
  sa_HoldForReview : option (Database → SettlementReviewHoldCommand → validation);
  sa_ResolveReview : option (Database → SettlementReviewResolutionAuthorityCommand →
                             result SettlementReviewResolutionAuthorityReceipt);
  sa_measuresReview : bool;
  sa_MeasureProviderUsage : option (Database → MeasureSettlementReviewProviderUsageCommand →
                                    result SettlementReviewProviderUsageAuthorityReceipt);
  sa_VerifyExpiredTurnReservation : option (Database → Turn → validation)
}.

(** The type assertions to the stronger interfaces. *)
Definition is_review_authority (a : SettlementAuthority) : bool := bool_decide (is_Some a.(sa_HoldForReview)).
Definition is_resolution_authority (a : SettlementAuthority) : bool :=
  is_review_authority a && bool_decide (is_Some a.(sa_ResolveReview)).
Definition is_usage_authority (a : SettlementAuthority) : bool :=
  is_resolution_authority a && a.(sa_measuresReview).
Definition is_provider_authority (a : SettlementAuthority) : bool :=
  is_resolution_authority a && bool_decide (is_Some a.(sa_MeasureProviderUsage)).

(** ** Bindings *)

Record SettlementAuthorityBinding := mkSettlementAuthorityBinding {
  sb_store : nat;
  sb_marker : option Z;
  sb_usageAware : bool;
  sb_providerUsageAware : bool;
  sb_providerJournal : option ProviderUsageJournal
}.

(** The settlement fields of an [SQLStore]; [ss_store] is the store's identity. *)
Record settlementState := mkSettlementState {
  ss_store : nat;
  ss_settlement : option SettlementAuthority;
  ss_binding : option SettlementAuthorityBinding;
  ss_violated : bool
}.

Definition WithSettlementAuthority (authority : option SettlementAuthority) (s : settlementState)
    : settlementState :=
  if bool_decide (is_Some s.(ss_binding))
  then mkSettlementState s.(ss_store) s.(ss_settlement) s.(ss_binding) true
  else mkSettlementState s.(ss_store) authority s.(ss_binding) s.(ss_violated).

(** A store that was configured or bound before is refused. *)
Definition bindable (s : settlementState) : bool :=
  negb (bool_decide (is_Some s.(ss_settlement)) || bool_decide (is_Some s.(ss_binding)) || s.(ss_violated)).

Definition bindAuthority (binding : SettlementAuthorityBinding) (authority : SettlementAuthority)
    (s : settlementState) : result SettlementAuthorityBinding * settlementState :=
  if bindable s
  then (Ok binding, mkSettlementState s.(ss_store) (Some authority) (Some binding) s.(ss_violated))
  else (Err ErrSettlementBindingInvalid, s).

Definition BindSettlementReviewAuthority (authority : option SettlementAuthority) (s : settlementState)
    : result SettlementAuthorityBinding * settlementState :=
  match authority with
  | None => (Err ErrSettlementBindingInvalid, s)
  | Some a => bindAuthority (mkSettlementAuthorityBinding s.(ss_store) (Some 1) false false None) a s
  end.

Definition BindSettlementReviewUsageAuthority (authority : option SettlementAuthority) (s : settlementState)
    : result SettlementAuthorityBinding * settlementState :=
  match authority with
  | None => (Err ErrSettlementBindingInvalid, s)
  | Some a => bindAuthority (mkSettlementAuthorityBinding s.(ss_store) (Some 1) true false None) a s
  end.

Definition BindSettlementReviewProviderUsageAuthority (journal : option ProviderUsageJournal)
    (authority : option SettlementAuthority) (s : settlementState)
    : result SettlementAuthorityBinding * settlementState :=
  match authority with
  | None => (Err ErrSettlementBindingInvalid, s)
  | Some a =>
    if MatchesStore journal s.(ss_store)
    then bindAuthority (mkSettlementAuthorityBinding s.(ss_store) (Some 1) false true journal) a s
    else (Err ErrSettlementBindingInvalid, s)
  end.

(** [binding.store != store || binding.marker == nil || *binding.marker != 1]. *)
Definition binding_intact (s : settlementState) (b : SettlementAuthorityBinding) : bool :=
  (b.(sb_store) =? s.(ss_store))%nat && bool_decide (b.(sb_marker) = Some 1).

(** [MatchesSettlementAuthorityBinding] for the binding the store holds. *)
Definition MatchesSettlementAuthorityBinding (s : settlementState) : bool :=
  match s.(ss_binding) with
  | None => false
  | Some b =>
    binding_intact s b && bool_decide (is_Some s.(ss_settlement)) && negb s.(ss_violated)
    && (negb b.(sb_providerUsageAware) || MatchesStore b.(sb_providerJournal) s.(ss_store))
  end.

Definition hasSettlementAuthority (s : settlementState) : bool := bool_decide (is_Some s.(ss_settlement)).

Definition reviewAuthority (s : settlementState) : option SettlementAuthority :=
  match s.(ss_settlement) with
  | Some a => if negb s.(ss_violated) && is_review_authority a then Some a else None
  | None => None
  end.

Definition settlementReviewResolutionAuthorityLocked (s : settlementState) : result SettlementAuthority :=
  guard! negb s.(ss_violated) else ErrSettlementBindingInvalid;;
  match s.(ss_binding) with
  | None => Err ErrSettlementReviewResolutionUnavailable
  | Some b =>
    guard! b.(sb_usageAware) || b.(sb_providerUsageAware) else ErrSettlementReviewResolutionUnavailable;;
    guard! binding_intact s b else ErrSettlementBindingInvalid;;
    match s.(ss_settlement) with
    | None => Err ErrSettlementBindingInvalid
    | Some a => guard! is_resolution_authority a else ErrSettlementReviewResolutionUnavailable;; Ok a
    end
  end.

Definition settlementReviewUsageAuthorityLocked (s : settlementState) : result SettlementAuthority :=
  guard! negb s.(ss_violated) else ErrSettlementBindingInvalid;;
  match s.(ss_binding) with
  | None => Err ErrSettlementReviewUsageUnavailable
  | Some b =>
    guard! b.(sb_usageAware) else ErrSettlementReviewUsageUnavailable;;
    guard! binding_intact s b else ErrSettlementBindingInvalid;;
    match s.(ss_settlement) with
    | None => Err ErrSettlementBindingInvalid
    | Some a => guard! is_usage_authority a else ErrSettlementReviewUsageUnavailable;; Ok a
    end
  end.

Definition settlementReviewProviderUsageAuthorityLocked (s : settlementState) : result SettlementAuthority :=
  guard! negb s.(ss_violated) else ErrSettlementBindingInvalid;;
  match s.(ss_binding) with
  | None => Err ErrSettlementReviewUsageUnavailable
  | Some b =>
    guard! b.(sb_providerUsageAware) else ErrSettlementReviewUsageUnavailable;;
    guard! binding_intact s b && MatchesStore b.(sb_providerJournal) s.(ss_store)
      else ErrSettlementBindingInvalid;;
    match s.(ss_settlement) with
    | None => Err ErrSettlementBindingInvalid
    | Some a => guard! is_provider_authority a else ErrSettlementReviewUsageUnavailable;; Ok a
    end
  end.

(** ** Calls that reach the ledger *)

Definition record_entry (db : Database) (entry : ledgerEntry) : Database :=
  set_settlement db (set_ledger db.(db_settlement) (db.(db_settlement).(st_ledger) ++ [entry])).

Definition settle (s : settlementState) (db : Database) (command : SettlementCommand) : result Database :=
  guard! negb s.(ss_violated) else ErrSettlementBindingInvalid;;
  match s.(ss_settlement) with
  | None => Ok db
  | Some authority =>
    check! SettlementCommand_Validate command;;
    check! authority.(sa_Settle) db command as ErrSettlementFailed;;
    Ok (record_entry db (Settled command))
  end.

(** The unique keys of the review table. *)
Definition review_key_taken (review : SettlementReviewRecord) (r : stored SettlementReviewRecord) : bool :=
  bool_decide (r.(row_record).(rv_ReviewID) = review.(rv_ReviewID))
  || bool_decide (r.(row_record).(rv_TurnID) = review.(rv_TurnID))
  || bool_decide (r.(row_record).(rv_SettlementKey) = review.(rv_SettlementKey)).

Definition insertReview (db : Database) (review : SettlementReviewRecord) : result Database :=
  let st := db.(db_settlement) in
  guard! negb (existsb (review_key_taken review) st.(st_reviews)) else driverError;;
  Ok (set_settlement db (set_reviews st (st.(st_reviews) ++ [mkStored (next_id row_ID st.(st_reviews)) review]))).

Definition persistSettlementReviewWithAuthority (db : Database) (turn : Turn)
    (review : SettlementReviewRecord) (authority : SettlementAuthority) : result Database :=
  guard! bool_decide (review.(rv_Status) = SettlementReviewStatusPending) else ErrStoreIntegrity;;
  check! SettlementReviewRecord_Validate review as ErrStoreIntegrity;;
  try! db := insertReview db review in
  let hold := mkSettlementReviewHoldCommand review turn.(turn_PrincipalID) in
  check! SettlementReviewHoldCommand_Validate hold as ErrStoreIntegrity;;
  match authority.(sa_HoldForReview) with
  | None => Err ErrStoreIntegrity
  | Some holdForReview =>
    check! holdForReview db hold as ErrSettlementReviewFailed;;
    Ok (record_entry db (HeldForReview hold))
  end.

Definition persistSettlementReview (s : settlementState) (db : Database) (turn : Turn)
    (review : SettlementReviewRecord) : result Database :=
  guard! bool_decide (review.(rv_Status) = SettlementReviewStatusPending) else ErrStoreIntegrity;;
  if settlementReviewProviderUsageAware review then
    try! authority := settlementReviewProviderUsageAuthorityLocked s in
    persistSettlementReviewWithAuthority db turn review authority
  else if bool_decide (review.(rv_Source) = SettlementReviewSourceExecutorCompletion) then
    try! authority := settlementReviewUsageAuthorityLocked s in
    persistSettlementReviewWithAuthority db turn review authority
  else
    match reviewAuthority s with
    | None => Err ErrSettlementUsageUnknown
    | Some authority => persistSettlementReviewWithAuthority db turn review authority
    end.
