(* ===== verification/SettlementTables.v ===== *)
(** * Reading the settlement tables

    The lookups and integrity checks of settlement.go, settlement_review.go,
    settlement_review_usage.go, settlement_review_resolution.go and
    provider_usage_journal.go, and the Operation receipts of
    sql_execution_store.go they read.  [validateTerminalSettlementReviewTx]
    replays the whole chain from a Review to its receipts. *)

From stdpp Require Import sorting.
From S2P Require Import Prelude GoText GoJson GoDigest AgentContract TurnTypes MemoryStore ExecutionTypes Settlement ProviderUsage SettlementUsage SqlDatabase SqlExecution EffectOutbox SettlementAuthority.

(** ** Operations *)

Definition operation_is (turnID : TurnID) (operationID : string) (r : sqlTurnOperationRow) : bool :=
  bool_decide (r.(or_TurnID) = turnID) && bool_decide (r.(or_OperationID) = operationID).

Definition lookupOperationTx (db : Database) (turnID : TurnID) (operationID : string)
    : option sqlTurnOperationRow := select_one (operation_is turnID operationID) db.(db_operations).

Definition validateOperationRow (row : sqlTurnOperationRow) : validation :=
  first_error
    [ validatePathSegment row.(or_TurnID) MaxTurnIDBytes;
      validatePrintableASCII row.(or_OperationID) MaxOperationIDBytes;
      validatePrintableASCII row.(or_OperationDigest) MaxCommandDigestBytes;
      validatePrintableASCII row.(or_AttemptID) MaxAttemptIDBytes;
      when ((row.(or_FencingToken) <? 1) || (MaxDurableSequence <? u64 row.(or_FencingToken))
            || (row.(or_EventSequence) <? 1) || (MaxDurableSequence <? u64 row.(or_EventSequence)))
        ErrStoreIntegrity;
      when (negb (TurnStatus_Valid row.(or_TurnStatus)) || (row.(or_EffectCount) <? 0)
            || (MaxEffectsPerOperation <? row.(or_EffectCount))) ErrStoreIntegrity;
      when (IsZero row.(or_CreatedAt)) ErrStoreIntegrity ].

(** The effects of an operation, ORDER BY ordinal ASC. *)
Definition effect_ordinal_before (a b : sqlEffectOutboxRow) : Prop := a.(fx_Ordinal) ≤ b.(fx_Ordinal).

#[export] Instance effect_ordinal_before_dec : RelDecision effect_ordinal_before.
Proof. unfold RelDecision, effect_ordinal_before. intros a b. apply _. Defined.

Definition effect_of_operation (turnID : TurnID) (operationID : string) (r : sqlEffectOutboxRow) : bool :=
  bool_decide (r.(fx_TurnID) = turnID) && bool_decide (r.(fx_OperationID) = operationID).

Definition operationEffects (db : Database) (turnID : TurnID) (operationID : string) : list sqlEffectOutboxRow :=
  merge_sort effect_ordinal_before
    (List.filter (effect_of_operation turnID operationID) db.(db_effects)).

(** An effect row belongs to the receipt at this position. *)
Definition effect_matches_operation (operation : sqlTurnOperationRow) (ordinal : Z) (r : sqlEffectOutboxRow)
    : bool :=
  (r.(fx_Ordinal) =? ordinal) && bool_decide (r.(fx_TurnID) = operation.(or_TurnID))
  && bool_decide (r.(fx_AttemptID) = operation.(or_AttemptID))
  && (r.(fx_TurnFencingToken) =? operation.(or_FencingToken))
  && bool_decide (r.(fx_OperationID) = operation.(or_OperationID)).

(** ** Usage evidence counts *)

Definition count_rows {A} (p : A → bool) (rows : list A) : Z := Z.of_nat (length (List.filter p rows)).

Definition inspectAmbiguousRelease (db : Database) (turnID : TurnID) (currentEffects : Z)
    : result SettlementUsageEvidence :=
  guard! negb ((currentEffects <? 0) || (MaxEffectsPerOperation <? currentEffects)) else ErrStoreIntegrity;;
  Ok (mkSettlementUsageEvidence
        (count_rows (fun r => bool_decide (r.(or_TurnID) = turnID)) db.(db_operations))
        (count_rows (fun r => bool_decide (r.(fx_TurnID) = turnID)) db.(db_effects)) 0 currentEffects).

Definition inspectReplayReleaseEvidence (db : Database) (turnID : TurnID) (operationID : string)
    (currentEffects : Z) : result SettlementUsageEvidence :=
  guard! negb ((currentEffects <? 0) || (MaxEffectsPerOperation <? currentEffects)) else ErrStoreIntegrity;;
  Ok (mkSettlementUsageEvidence
        (count_rows (fun r => bool_decide (r.(or_TurnID) = turnID)
                              && negb (bool_decide (r.(or_OperationID) = operationID))) db.(db_operations))
        (count_rows (fun r => bool_decide (r.(fx_TurnID) = turnID)
                              && negb (bool_decide (r.(fx_OperationID) = operationID))) db.(db_effects))
        0 currentEffects).

Definition countProviderUsageJournalTx (db : Database) (turnID : TurnID) : Z :=
  count_rows (fun r => bool_decide (r.(row_record).(jr_TurnID) = turnID)) db.(db_settlement).(st_journal).

(** ** Meter releases and the journal *)

Definition lookupUsageMeterReleaseTx (db : Database) (releaseID : string)
    : result (option UsageMeterReleaseRecord) :=
  match select_one (fun r => bool_decide (r.(row_record).(rel_ReleaseID) = releaseID))
          db.(db_settlement).(st_releases) with
  | None => Ok None
  | Some row =>
    check! UsageMeterReleaseRecord_Validate row.(row_record) as ErrStoreIntegrity;;
    Ok (Some row.(row_record))
  end.

Definition lookupProviderUsageJournalByEventTx (db : Database) (providerKey accountDigest eventDigest : string)
    : result (option ProviderUsageJournalRecord) :=
  match select_one (fun r => bool_decide (r.(row_record).(jr_ProviderKey) = providerKey)
                             && bool_decide (r.(row_record).(jr_ProviderAccountDigest) = accountDigest)
                             && bool_decide (r.(row_record).(jr_ProviderEventDigest) = eventDigest))
          db.(db_settlement).(st_journal) with
  | None => Ok None
  | Some row =>
    check! ProviderUsageJournalRecord_Validate row.(row_record) as ErrStoreIntegrity;;
    Ok (Some row.(row_record))
  end.

(** ORDER BY receipt_id ASC. *)
Definition receipt_before (a b : ProviderUsageJournalRecord) : Prop :=
  string_ltb b.(jr_ReceiptID) a.(jr_ReceiptID) = false.

#[export] Instance receipt_before_dec : RelDecision receipt_before.
Proof. unfold RelDecision, receipt_before. intros a b. apply _. Defined.

(** The loop over the receipts of a Review; [previous] is the id before. *)
Fixpoint collectProviderUsage (db : Database) (review : SettlementReviewRecord) (previous : option string)
    (rows : list ProviderUsageJournalRecord) : result (list ProviderUsageJournalRecord) :=
  match rows with
  | [] => Ok []
  | record :: rest =>
    guard! bool_decide (ProviderUsageJournalRecord_Validate record = None)
           && settlementReviewProviderUsageSourceEligible review record
           && match previous with None => true | Some id => string_ltb id record.(jr_ReceiptID) end
      else ErrStoreIntegrity;;
    match lookupAttemptByID db record.(jr_AttemptID) with
    | None => Err ErrStoreIntegrity
    | Some attemptRow =>
      try! attempt := toAttempt attemptRow as ErrStoreIntegrity in
      guard! bool_decide (attempt.(att_TurnID) = record.(jr_TurnID))
             && (attempt.(att_FencingToken) =? record.(jr_FencingToken))
             && AttemptStatus_Terminal attempt.(att_Status) else ErrStoreIntegrity;;
      try! records := collectProviderUsage db review (Some record.(jr_ReceiptID)) rest in
      Ok (record :: records)
    end
  end.

Definition lookupSettlementReviewProviderUsageTx (db : Database) (review : SettlementReviewRecord)
    : result (list ProviderUsageJournalRecord) :=
  guard! settlementReviewProviderUsageAware review else ErrStoreIntegrity;;
  collectProviderUsage db review None
    (merge_sort receipt_before
       (List.filter (fun r => bool_decide (r.(jr_TurnID) = review.(rv_TurnID))
                              && (i64 r.(jr_FencingToken) <=? i64 review.(rv_FencingToken)))
          (map row_record db.(db_settlement).(st_journal)))).

(** ** Evidence, sources and resolutions *)

Definition lookupSettlementReviewUsageEvidenceTx (db : Database) (reviewID : string)
    : result (option SettlementReviewUsageEvidenceRecord) :=
  match select_one (fun r => bool_decide (r.(row_record).(ev_ReviewID) = reviewID))
          db.(db_settlement).(st_evidence) with
  | None => Ok None
  | Some row =>
    check! SettlementReviewUsageEvidenceRecord_Validate row.(row_record) as ErrStoreIntegrity;;
    Ok (Some row.(row_record))
  end.

(** ORDER BY ordinal ASC. *)
Definition source_before (a b : SettlementReviewUsageEvidenceSourceRecord) : Prop :=
  a.(src_Ordinal) ≤ b.(src_Ordinal).

#[export] Instance source_before_dec : RelDecision source_before.
Proof. unfold RelDecision, source_before. intros a b. apply _. Defined.

Definition lookupSettlementReviewUsageEvidenceSourcesTx (db : Database) (evidenceID : string)
    : result (list SettlementReviewUsageEvidenceSourceRecord) :=
  let rows := take (Z.to_nat (MaxProviderUsageSources + 1))
                (merge_sort source_before
                   (List.filter (fun r => bool_decide (r.(src_EvidenceID) = evidenceID))
                      (map row_record db.(db_settlement).(st_sources)))) in
  guard! negb (MaxProviderUsageSources <? Z.of_nat (length rows)) else ErrStoreIntegrity;;
  guard! forallb (fun r => bool_decide (SettlementReviewUsageEvidenceSourceRecord_Validate r = None)) rows
    else ErrStoreIntegrity;;
  Ok rows.

Definition lookupSettlementReviewResolutionTx (db : Database) (reviewID : string)
    : result (option SettlementReviewResolutionRecord) :=
  match select_one (fun r => bool_decide (r.(row_record).(rs_ReviewID) = reviewID))
          db.(db_settlement).(st_resolutions) with
  | None => Ok None
  | Some row =>
    check! SettlementReviewResolutionRecord_Validate row.(row_record) as ErrStoreIntegrity;;
    Ok (Some row.(row_record))
  end.

(** One receipt and its link in the chain of an evidence. *)
Definition link_ok (evidence : SettlementReviewUsageEvidenceRecord) (release : UsageMeterReleaseRecord)
    (ordinal : Z) (journal : ProviderUsageJournalRecord) (link : SettlementReviewUsageEvidenceSourceRecord)
    : bool :=
  matchesEvidence link evidence && (link.(src_Ordinal) =? ordinal)
  && bool_decide (link.(src_ReceiptID) = journal.(jr_ReceiptID))
  && bool_decide (link.(src_SourceRegistrationDigest) = journal.(jr_SourceRegistrationDigest))
  && bool_decide (link.(src_SourceSchemaDigest) = journal.(jr_SourceSchemaDigest))
  && bool_decide (link.(src_CanonicalUsageDigest) = journal.(jr_CanonicalUsageDigest))
  && bool_decide (link.(src_ProviderReceiptDigest) = journal.(jr_ProviderReceiptDigest))
  && bool_decide (link.(src_JournalRecordDigest) = journal.(jr_JournalRecordDigest))
  && bool_decide (journal.(jr_MeterReleaseID) = release.(rel_ReleaseID))
  && bool_decide (journal.(jr_Plugin) = release.(rel_Plugin))
  && containsSource release (sourceRegistration journal).

Fixpoint links_ok (evidence : SettlementReviewUsageEvidenceRecord) (release : UsageMeterReleaseRecord)
    (ordinal : Z) (journal : list ProviderUsageJournalRecord)
    (links : list SettlementReviewUsageEvidenceSourceRecord) : bool :=
  match journal, links with
  | j :: journal', l :: links' =>
    link_ok evidence release ordinal j l && links_ok evidence release (ordinal + 1) journal' links'
  | _, _ => true
  end.

Definition validateSettlementReviewUsageProvenanceTx (db : Database) (review : SettlementReviewRecord)
    (evidence : SettlementReviewUsageEvidenceRecord)
    : result (list ProviderUsageJournalRecord * UsageMeterReleaseRecord) :=
  guard! settlementReviewProviderUsageAware review
         && settlementReviewUsageEvidenceMatchesReview evidence review
         && bool_decide (review.(rv_Status) ∈ [SettlementReviewStatusMeteredHeld;
                                               SettlementReviewStatusFinalizedHeld]) else ErrStoreIntegrity;;
  try! found := lookupUsageMeterReleaseTx db evidence.(ev_MeterReleaseID) in
  match found with
  | None => Err ErrStoreIntegrity
  | Some release =>
    guard! bool_decide (release.(rel_Plugin) = evidence.(ev_EvidencePlugin))
           && bool_decide (evidence.(ev_BillingPolicyKey) = release.(rel_BillingPolicyKey))
           && bool_decide (evidence.(ev_PricingSnapshotDigest) = release.(rel_PricingSnapshotDigest))
           && bool_decide (evidence.(ev_MeterKey) = release.(rel_MeterKey))
           && bool_decide (evidence.(ev_MeterVersion) = release.(rel_MeterVersion))
           && bool_decide (evidence.(ev_MeterBuildDigest) = release.(rel_MeterBuildDigest))
      else ErrStoreIntegrity;;
    try! journalSources := lookupSettlementReviewProviderUsageTx db review in
    try! links := lookupSettlementReviewUsageEvidenceSourcesTx db evidence.(ev_EvidenceID) in
    let count := Z.of_nat (length journalSources) in
    guard! (count =? evidence.(ev_SourceReceiptCount))
           && (Z.of_nat (length links) =? evidence.(ev_SourceReceiptCount))
           && negb (count <? review.(rv_Evidence).(ue_PriorProviderUsageCount))
           && bool_decide (evidence.(ev_UsageSourceDigest)
                = settlementReviewProviderUsageSourceDigest review release journalSources)
           && bool_decide (evidence.(ev_MeterReceiptDigest)
                = settlementReviewProviderMeterReceiptDigest evidence release) else ErrStoreIntegrity;;
    guard! links_ok evidence release 0 journalSources links else ErrStoreIntegrity;;
    Ok (journalSources, release)
  end.

Definition validateSettlementReviewResolutionStateTx (db : Database) (review : SettlementReviewRecord)
    : result (option SettlementReviewResolutionRecord) :=
  check! SettlementReviewRecord_Validate review as ErrStoreIntegrity;;
  try! resolution := lookupSettlementReviewResolutionTx db review.(rv_ReviewID) in
  try! evidence := lookupSettlementReviewUsageEvidenceTx db review.(rv_ReviewID) in
  if bool_decide (review.(rv_Status) = SettlementReviewStatusPending) then
    guard! bool_decide (resolution = None) && bool_decide (evidence = None) else ErrStoreIntegrity;;
    Ok None
  else if bool_decide (review.(rv_Status) = SettlementReviewStatusMeteredHeld) then
    match resolution, evidence with
    | None, Some e =>
      guard! settlementReviewUsageEvidenceMatchesReview e review && (e.(ev_CreatedAt) =? review.(rv_UpdatedAt))
        else ErrStoreIntegrity;;
      try! _ := validateSettlementReviewUsageProvenanceTx db review e in
      Ok None
    | _, _ => Err ErrStoreIntegrity
    end
  else
    match resolution, evidence with
    | Some r, Some e =>
      guard! settlementReviewUsageEvidenceMatchesReview e review
             && bool_decide (r.(rs_ReviewID) = review.(rv_ReviewID))
             && bool_decide (r.(rs_TurnID) = review.(rv_TurnID))
             && bool_decide (r.(rs_SettlementKey) = review.(rv_SettlementKey))
             && bool_decide (r.(rs_ReviewRequestDigest) = review.(rv_RequestDigest))
             && bool_decide (r.(rs_EvidenceID) = e.(ev_EvidenceID))
             && bool_decide (r.(rs_EvidenceDigest) = e.(ev_EvidenceDigest))
             && bool_decide (r.(rs_PricingSnapshotDigest) = e.(ev_PricingSnapshotDigest))
             && (r.(rs_UsedUnits) =? e.(ev_UsedUnits)) && negb (Before r.(rs_CreatedAt) e.(ev_CreatedAt))
             && (r.(rs_CreatedAt) =? review.(rv_UpdatedAt)) else ErrStoreIntegrity;;
      try! _ := validateSettlementReviewUsageProvenanceTx db review e in
      Ok (Some r)
    | _, _ => Err ErrStoreIntegrity
    end.

(** ** The chain from a Review to its terminal receipts *)

Definition attemptStatusForTurn (status : TurnStatus) : AttemptStatus :=
  if bool_decide (status = TurnStatusCompleted) then AttemptStatusCompleted
  else if bool_decide (status = TurnStatusStopped) then AttemptStatusStopped
  else if bool_decide (status = TurnStatusFailed) then AttemptStatusFailed
  else if bool_decide (status = TurnStatusTimeout) then AttemptStatusTimeout
  else "".

(** The loop over the effects of the receipt a Review names. *)
Fixpoint held_effects_ok (operation : sqlTurnOperationRow) (ordinal : Z) (rows : list sqlEffectOutboxRow)
    : bool :=
  match rows with
  | [] => true
  | row :: rest =>
    match toEffectRecord row with Ok _ => true | Err _ => false end && effect_matches_operation operation ordinal row
    && bool_decide (row.(fx_Status) = EffectStatusReviewHold)
    && held_effects_ok operation (ordinal + 1) rest
  end.

(** The receipts of a Review an executor opened. *)
Definition executorReviewEvidenceTx (db : Database) (turn : Turn) (review : SettlementReviewRecord)
    : result SettlementUsageEvidence :=
  match lookupOperationTx db turn.(turn_ID) review.(rv_OperationID) with
  | None => Err ErrStoreIntegrity
  | Some operation =>
    guard! bool_decide (validateOperationRow operation = None)
           && bool_decide (operation.(or_AttemptID) = review.(rv_AttemptID))
           && (operation.(or_FencingToken) =? i64 review.(rv_FencingToken))
           && bool_decide (operation.(or_TurnStatus) = turn.(turn_Status))
           && (operation.(or_EffectCount) =? review.(rv_Evidence).(ue_CurrentEffectCount))
      else ErrStoreIntegrity;;
    let effectRows := operationEffects db operation.(or_TurnID) operation.(or_OperationID) in
    guard! Z.of_nat (length effectRows) =? operation.(or_EffectCount) else ErrStoreIntegrity;;
    guard! held_effects_ok operation 0 effectRows else ErrStoreIntegrity;;
    match lookupAttemptByID db review.(rv_AttemptID) with
    | None => Err ErrStoreIntegrity
    | Some attemptRow =>
      try! attempt := toAttempt attemptRow as ErrStoreIntegrity in
      guard! bool_decide (attempt.(att_TurnID) = turn.(turn_ID))
             && (attempt.(att_FencingToken) =? review.(rv_FencingToken))
             && bool_decide (attempt.(att_Status) = attemptStatusForTurn turn.(turn_Status))
        else ErrStoreIntegrity;;
      inspectReplayReleaseEvidence db turn.(turn_ID) operation.(or_OperationID) operation.(or_EffectCount)
    end
  end.

Definition reviewSourceEvidenceTx (db : Database) (turn : Turn) (review : SettlementReviewRecord)
    : result SettlementUsageEvidence :=
  if SettlementReviewSource_executor review.(rv_Source) then executorReviewEvidenceTx db turn review
  else if bool_decide (review.(rv_Source) ∈ [SettlementReviewSourceReconcile;
                                             SettlementReviewSourceReconcileTerminal]) then
    guard! bool_decide (review.(rv_SettlementKey)
                        = reconcileSettlementKey turn.(turn_ID) review.(rv_FencingToken))
      else ErrStoreIntegrity;;
    inspectAmbiguousRelease db turn.(turn_ID) 0
  else Err ErrStoreIntegrity.

(** The provider receipts a Review froze are still there. *)
Definition reviewProviderUsageTx (db : Database) (turn : Turn) (review : SettlementReviewRecord)
    : validation :=
  let prior := review.(rv_Evidence).(ue_PriorProviderUsageCount) in
  if settlementReviewProviderUsageAware review then
    match lookupSettlementReviewProviderUsageTx db review with
    | Err e => Some e
    | Ok providerUsage => when (Z.of_nat (length providerUsage) <? prior) ErrStoreIntegrity
    end
  else when (negb (prior =? 0) || negb (countProviderUsageJournalTx db turn.(turn_ID) =? 0)) ErrStoreIntegrity.

Definition escapedEffects (db : Database) (turnID : TurnID) : Z :=
  count_rows (effect_holdable turnID) db.(db_effects).

Definition validateTerminalSettlementReviewTx (db : Database) (turnRow : sqlTurnRow) (turn : Turn)
    (review : SettlementReviewRecord) : validation :=
  match
    guard! TurnStatus_Terminal turn.(turn_Status) && bool_decide (review.(rv_TurnID) = turn.(turn_ID))
           && bool_decide (review.(rv_TerminalStatus) = turn.(turn_Status))
           && (review.(rv_FencingToken) =? u64 turnRow.(tr_FencingToken)) else ErrStoreIntegrity;;
    guard! escapedEffects db turn.(turn_ID) =? 0 else ErrStoreIntegrity;;
    try! evidence := reviewSourceEvidenceTx db turn review in
    guard! (evidence.(ue_PriorOperationCount) =? review.(rv_Evidence).(ue_PriorOperationCount))
           && (evidence.(ue_PriorEffectCount) =? review.(rv_Evidence).(ue_PriorEffectCount))
           && (evidence.(ue_CurrentEffectCount) =? review.(rv_Evidence).(ue_CurrentEffectCount))
      else ErrStoreIntegrity;;
    check! reviewProviderUsageTx db turn review;;
    try! _ := validateSettlementReviewResolutionStateTx db review in
    if bool_decide (review.(rv_Status) = SettlementReviewStatusPending) then Ok tt
    else
      try! usage := lookupSettlementReviewUsageEvidenceTx db review.(rv_ReviewID) in
      match usage with
      | None => Err ErrStoreIntegrity
      | Some u => guard! bool_decide (u.(ev_EvidencePlugin) = turn.(turn_Plugin)) else ErrStoreIntegrity;; Ok tt
      end
  with Ok _ => None | Err e => Some e end.

(** ** The open Reviews *)

(** status IN (pending, metered_held) ORDER BY created_at ASC, id ASC. *)
Definition review_open (r : stored SettlementReviewRecord) : bool :=
  bool_decide (r.(row_record).(rv_Status) ∈ [SettlementReviewStatusPending; SettlementReviewStatusMeteredHeld]).

Definition review_before (a b : stored SettlementReviewRecord) : Prop :=
  a.(row_record).(rv_CreatedAt) < b.(row_record).(rv_CreatedAt)
  ∨ a.(row_record).(rv_CreatedAt) = b.(row_record).(rv_CreatedAt) ∧ a.(row_ID) ≤ b.(row_ID).

#[export] Instance review_before_dec : RelDecision review_before.
Proof. unfold RelDecision, review_before. intros a b. apply _. Defined.

(** The reads that follow the list see the tables [db] and, after the first
    check failed, [later]. *)
Definition validateOpenSettlementReviewListCandidate (db later : Database) (review : SettlementReviewRecord)
    : result (option SettlementReviewRecord) :=
  match validateSettlementReviewResolutionStateTx db review with
  | Ok _ => Ok (Some review)
  | Err ErrStoreIntegrity =>
    try! found := lookupSettlementReviewTx later review.(rv_TurnID) in
    match found with
    | None => Err ErrStoreIntegrity
    | Some latest =>
      guard! bool_decide (latest.(rv_ReviewID) = review.(rv_ReviewID))
             && bool_decide (latest.(rv_RequestDigest) = review.(rv_RequestDigest))
             && (latest.(rv_CreatedAt) =? review.(rv_CreatedAt)) else ErrStoreIntegrity;;
      try! _ := validateSettlementReviewResolutionStateTx later latest in
      if bool_decide (latest.(rv_Status) ∈ [SettlementReviewStatusPending; SettlementReviewStatusMeteredHeld])
      then Ok (Some latest)
      else if bool_decide (latest.(rv_Status) = SettlementReviewStatusFinalizedHeld) then Ok None
      else Err ErrStoreIntegrity
    end
  | Err e => Err e
  end.

(** [tables i] is what the reads of the i-th candidate see. *)
Fixpoint openReviews (tables : nat → Database * Database) (i : nat)
    (rows : list (stored SettlementReviewRecord)) : result (list SettlementReviewRecord) :=
  match rows with
  | [] => Ok []
  | row :: rest =>
    check! SettlementReviewRecord_Validate row.(row_record) as ErrStoreIntegrity;;
    match validateOpenSettlementReviewListCandidate (fst (tables i)) (snd (tables i)) row.(row_record) with
    | Err e => Err (normalize e)
    | Ok current =>
      try! reviews := openReviews tables (S i) rest in
      Ok (match current with None => reviews | Some review => review :: reviews end)
    end
  end.

Definition ListSettlementReviews (ctx : context) (tables : nat → Database * Database)
    (query : ListSettlementReviewsQuery) (db : Database) : result (list SettlementReviewRecord) :=
  check! first_error [ctx 0%nat; ListSettlementReviewsQuery_Validate query];;
  openReviews tables 0
    (take (Z.to_nat (ListSettlementReviewsQuery_limit query))
       (merge_sort review_before (List.filter review_open db.(db_settlement).(st_reviews)))).
