(* ===== verification/SettlementResolution.v ===== *)
(** * Metering and resolving Reviews

    The three transactions that follow a Review: a scoped recorder appends
    provider receipts to the journal ([AppendAttested]), the sealed authority
    prices the journal of a pending Review
    ([CaptureSettlementReviewUsageEvidence]), and the priced Review is finalized
    ([ResolveSettlementReview]); with the bounded audit reads.  Each call reads
    the settlement binding once and keeps it locked until it returns. *)

From stdpp Require Import sorting.
From S2P Require Import Prelude GoText GoJson GoDigest GoTime AgentContract TurnTypes MemoryStore ExecutionTypes Settlement ProviderUsage SettlementUsage SqlDatabase SqlStore SqlExecution EffectOutbox SettlementAuthority SettlementTables.

Record resolutionEnv := mkResolutionEnv {
  rse_ctx : context;
  rse_settlement : settlementState;
  rse_clock : result time;
  rse_outcome : txOutcome;
  rse_between : Database → Database
}.

Definition set_evidence (st : SettlementTables) rows : SettlementTables :=
  mkSettlementTables st.(st_reviews) rows st.(st_sources) st.(st_resolutions) st.(st_journal)
    st.(st_releases) st.(st_ledger).
Definition set_sources (st : SettlementTables) rows : SettlementTables :=
  mkSettlementTables st.(st_reviews) st.(st_evidence) rows st.(st_resolutions) st.(st_journal)
    st.(st_releases) st.(st_ledger).
Definition set_resolutions (st : SettlementTables) rows : SettlementTables :=
  mkSettlementTables st.(st_reviews) st.(st_evidence) st.(st_sources) rows st.(st_journal)
    st.(st_releases) st.(st_ledger).
Definition set_journal (st : SettlementTables) rows : SettlementTables :=
  mkSettlementTables st.(st_reviews) st.(st_evidence) st.(st_sources) st.(st_resolutions) rows
    st.(st_releases) st.(st_ledger).

Definition snoc_row {A} (rows : list (stored A)) (a : A) : list (stored A) :=
  rows ++ [mkStored (next_id row_ID rows) a].

(** ** Unique keys *)

Definition journal_key_taken (record : ProviderUsageJournalRecord) (r : stored ProviderUsageJournalRecord) : bool :=
  let j := r.(row_record) in
  bool_decide (j.(jr_ReceiptID) = record.(jr_ReceiptID))
  || bool_decide (j.(jr_ProviderKey) = record.(jr_ProviderKey))
     && bool_decide (j.(jr_ProviderAccountDigest) = record.(jr_ProviderAccountDigest))
     && bool_decide (j.(jr_ProviderEventDigest) = record.(jr_ProviderEventDigest)).

Definition evidence_key_taken (e : SettlementReviewUsageEvidenceRecord)
    (r : stored SettlementReviewUsageEvidenceRecord) : bool :=
  let x := r.(row_record) in
  bool_decide (x.(ev_EvidenceID) = e.(ev_EvidenceID)) || bool_decide (x.(ev_ReviewID) = e.(ev_ReviewID))
  || bool_decide (x.(ev_MeterKey) = e.(ev_MeterKey)) && bool_decide (x.(ev_MeterVersion) = e.(ev_MeterVersion))
     && bool_decide (x.(ev_UsageSourceDigest) = e.(ev_UsageSourceDigest)).

Definition source_key_taken (s : SettlementReviewUsageEvidenceSourceRecord)
    (r : stored SettlementReviewUsageEvidenceSourceRecord) : bool :=
  let x := r.(row_record) in
  bool_decide (x.(src_ReceiptID) = s.(src_ReceiptID))
  || bool_decide (x.(src_EvidenceID) = s.(src_EvidenceID)) && (x.(src_Ordinal) =? s.(src_Ordinal)).

Definition resolution_key_taken (s : SettlementReviewResolutionRecord)
    (r : stored SettlementReviewResolutionRecord) : bool :=
  bool_decide (r.(row_record).(rs_ResolutionID) = s.(rs_ResolutionID))
  || bool_decide (r.(row_record).(rs_ReviewID) = s.(rs_ReviewID)).

(** ** Inserts: the record is validated on its way into the row *)

Definition insertJournal (db : Database) (record : ProviderUsageJournalRecord) : result Database :=
  let st := db.(db_settlement) in
  guard! negb (existsb (journal_key_taken record) st.(st_journal)) else driverError;;
  Ok (set_settlement db (set_journal st (snoc_row st.(st_journal) record))).

Definition insertEvidence (db : Database) (e : SettlementReviewUsageEvidenceRecord) : result Database :=
  let st := db.(db_settlement) in
  check! SettlementReviewUsageEvidenceRecord_Validate e as ErrStoreIntegrity;;
  guard! negb (existsb (evidence_key_taken e) st.(st_evidence)) else driverError;;
  Ok (set_settlement db (set_evidence st (snoc_row st.(st_evidence) e))).

Definition insertSource (db : Database) (s : SettlementReviewUsageEvidenceSourceRecord) : result Database :=
  let st := db.(db_settlement) in
  check! SettlementReviewUsageEvidenceSourceRecord_Validate s as ErrStoreIntegrity;;
  guard! negb (existsb (source_key_taken s) st.(st_sources)) else driverError;;
  Ok (set_settlement db (set_sources st (snoc_row st.(st_sources) s))).

Fixpoint insertSources (db : Database) (e : SettlementReviewUsageEvidenceRecord) (ordinal : Z)
    (sources : list ProviderUsageJournalRecord) : result Database :=
  match sources with
  | [] => Ok db
  | source :: rest =>
    try! db := insertSource db (settlementReviewUsageEvidenceSourceRecord e ordinal source) in
    insertSources db e (ordinal + 1) rest
  end.

Definition insertResolution (db : Database) (r : SettlementReviewResolutionRecord) : result Database :=
  let st := db.(db_settlement) in
  check! SettlementReviewResolutionRecord_Validate r as ErrStoreIntegrity;;
  guard! negb (existsb (resolution_key_taken r) st.(st_resolutions)) else driverError;;
  Ok (set_settlement db (set_resolutions st (snoc_row st.(st_resolutions) r))).

(** ** The status of a Review *)

Definition with_review_status (r : SettlementReviewRecord) (status : string) (now : time)
    : SettlementReviewRecord :=
  mkSettlementReviewRecord r.(rv_ReviewID) r.(rv_TurnID) r.(rv_SettlementKey) r.(rv_RequestDigest)
    r.(rv_Reason) r.(rv_Source) r.(rv_TerminalStatus) r.(rv_AttemptID) r.(rv_FencingToken)
    r.(rv_OperationID) r.(rv_Evidence) status r.(rv_CreatedAt) now.

Definition review_in_status (review : SettlementReviewRecord) (from : string)
    (r : stored SettlementReviewRecord) : bool :=
  bool_decide (r.(row_record).(rv_ReviewID) = review.(rv_ReviewID))
  && bool_decide (r.(row_record).(rv_RequestDigest) = review.(rv_RequestDigest))
  && bool_decide (r.(row_record).(rv_Status) = from).

(** The compare-and-set of the status column. *)
Definition moveReviewStatus (db : Database) (review : SettlementReviewRecord) (from to : string) (now : time)
    : result Database :=
  let st := db.(db_settlement) in
  guard! (rows_matched (review_in_status review from) st.(st_reviews) =? 1)%nat else ErrStoreIntegrity;;
  Ok (set_settlement db (set_reviews st
        (update_rows (review_in_status review from)
           (fun r => mkStored r.(row_ID) (with_review_status r.(row_record) to now)) st.(st_reviews)))).

(** ** Scoped recorders *)

Definition ScopeRecorder (ctx : context) (journal : option ProviderUsageJournal) (plugin : EventPluginRef)
    (meterReleaseID : string) (source : ProviderUsageSourceRegistration) (db : Database)
    : result ProviderUsageRecorder :=
  check! ctx 0%nat;;
  guard! holds_at journal (fun j => MatchesStore journal j.(journal_store))
         && bool_decide (EventPluginRef_Validate plugin = None)
         && bool_decide (validatePluginRef plugin = None)
         && bool_decide (validatePrintableASCII meterReleaseID MaxSettlementReviewIDBytes = None)
         && bool_decide (ProviderUsageSourceRegistration_Validate source = None)
    else ErrProviderUsageJournalInvalid;;
  match lookupUsageMeterReleaseTx db meterReleaseID with
  | Err e => Err (normalize e)
  | Ok None => Err ErrUsageMeterReleaseNotFound
  | Ok (Some release) =>
    guard! bool_decide (release.(rel_Plugin) = plugin) && containsSource release source
      else ErrUsageMeterReleaseConflict;;
    Ok (mkProviderUsageRecorder journal plugin meterReleaseID release.(rel_ReleaseDigest) source 1)
  end.

Definition MatchesScope (recorder : ProviderUsageRecorder) (journal : ProviderUsageJournal)
    (plugin : EventPluginRef) (meterReleaseID : string) (source : ProviderUsageSourceRegistration) : bool :=
  Recorder_intact recorder
  && holds_at recorder.(rcd_journal)
       (fun j => (j.(journal_ref) =? journal.(journal_ref))%nat)
  && bool_decide (recorder.(rcd_plugin) = plugin)
  && bool_decide (recorder.(rcd_meterReleaseID) = meterReleaseID)
  && bool_decide (recorder.(rcd_source) = source).

(** ** Appending a receipt *)

Record AppendAttestedProviderUsageResult := mkAppendResult {
  apr_Record : ProviderUsageJournalRecord;
  apr_Replay : bool
}.

(** A receipt under the same provider event answers the call. *)
Definition replayReceipt (recorder : ProviderUsageRecorder) (command : AppendAttestedProviderUsageCommand)
    (db : Database) (turnRow : sqlTurnRow) (turn : Turn) (attempt : TurnAttempt)
    (existing : ProviderUsageJournalRecord) : validation :=
  if negb (providerUsageRecordMatchesAppend existing recorder command) then Some ErrProviderUsageConflict
  else if bool_decide (turn.(turn_Status) = TurnStatusRunning) then None
  else if TurnStatus_Terminal turn.(turn_Status) then
    if negb (AttemptStatus_Terminal attempt.(att_Status)) then Some ErrStoreIntegrity
    else match lookupSettlementReviewTx db turn.(turn_ID) with
         | Err e => Some e
         | Ok None => Some ErrProviderUsageForbidden
         | Ok (Some review) =>
           if negb (settlementReviewProviderUsageAware review)
              || (review.(rv_FencingToken) <? attempt.(att_FencingToken)) then Some ErrProviderUsageForbidden
           else validateTerminalSettlementReviewTx db turnRow turn review
         end
  else Some ErrStoreIntegrity.

(** A new receipt belongs to the live epoch, or to a pending Review. *)
Definition receiptAllowed (db : Database) (turnRow : sqlTurnRow) (turn : Turn) (attempt : TurnAttempt)
    (now : time) : validation :=
  if bool_decide (turn.(turn_Status) = TurnStatusRunning) then
    when (negb (bool_decide (turnRow.(tr_ActiveAttemptID) = Some attempt.(att_ID))
                && (turnRow.(tr_FencingToken) =? i64 attempt.(att_FencingToken))
                && bool_decide (attempt.(att_Status) = AttemptStatusRunning)
                && After attempt.(att_LeaseExpiresAt) now)) ErrProviderUsageForbidden
  else if TurnStatus_Terminal turn.(turn_Status) then
    if negb (AttemptStatus_Terminal attempt.(att_Status)) then Some ErrProviderUsageForbidden
    else match lookupSettlementReviewTx db turn.(turn_ID) with
         | Err e => Some e
         | Ok None => Some ErrProviderUsageForbidden
         | Ok (Some review) =>
           if negb (bool_decide (review.(rv_Status) = SettlementReviewStatusPending))
              || negb (settlementReviewProviderUsageAware review)
              || negb (bool_decide (review.(rv_Source) ∈ [SettlementReviewSourceExecutorCompletion;
                                                           SettlementReviewSourceExecutorTerminal;
                                                           SettlementReviewSourceReconcileTerminal]))
              || (review.(rv_FencingToken) <? attempt.(att_FencingToken)) then Some ErrProviderUsageForbidden
           else validateTerminalSettlementReviewTx db turnRow turn review
         end
  else Some ErrProviderUsageForbidden.

(** Everything before the INSERT: a replayed record, or the record to insert. *)
Definition appendPrepare (clock : result time) (recorder : ProviderUsageRecorder)
    (command : AppendAttestedProviderUsageCommand) (db : Database)
    : result AppendAttestedProviderUsageResult :=
  let fence := command.(aa_Fence) in
  try! turnRow := lockTurn db (turn_is fence.(fence_TurnID)) as ErrProviderUsageForbidden in
  try! turn := toTurn turnRow as ErrStoreIntegrity in
  guard! bool_decide (turn.(turn_Plugin) = recorder.(rcd_plugin)) else ErrProviderUsageForbidden;;
  try! attemptRow := lockAttempt db turn.(turn_ID) fence.(fence_AttemptID) (i64 fence.(fence_FencingToken))
    as ErrProviderUsageForbidden in
  try! attempt := toAttempt attemptRow as ErrProviderUsageForbidden in
  guard! bool_decide (attempt.(att_WorkerID) = fence.(fence_WorkerID))
         && bool_decide (attempt.(att_WorkerBuildDigest) = fence.(fence_WorkerBuildDigest))
    else ErrProviderUsageForbidden;;
  try! existing := lookupProviderUsageJournalByEventTx db recorder.(rcd_source).(reg_ProviderKey)
                     recorder.(rcd_source).(reg_ProviderAccountDigest) command.(aa_ProviderEventDigest) in
  try! found := lookupUsageMeterReleaseTx db recorder.(rcd_meterReleaseID) in
  match found with
  | None => Err ErrUsageMeterReleaseNotFound
  | Some release =>
    guard! bool_decide (release.(rel_ReleaseDigest) = recorder.(rcd_meterReleaseDigest))
           && bool_decide (release.(rel_Plugin) = recorder.(rcd_plugin))
           && containsSource release recorder.(rcd_source) else ErrUsageMeterReleaseConflict;;
    match existing with
    | Some record =>
      check! replayReceipt recorder command db turnRow turn attempt record;;
      Ok (mkAppendResult record true)
    | None =>
      try! now := executionNow clock in
      guard! negb (After command.(aa_ProviderReportedAt) now) else ErrProviderUsageForbidden;;
      check! receiptAllowed db turnRow turn attempt now;;
      let record := newProviderUsageJournalRecord recorder command now in
      check! ProviderUsageJournalRecord_Validate record as ErrStoreIntegrity;;
      Ok (mkAppendResult record false)
    end
  end.

Definition appendAttestedBody (clock : result time) (recorder : ProviderUsageRecorder)
    (command : AppendAttestedProviderUsageCommand) (db : Database)
    : result (AppendAttestedProviderUsageResult * Database) :=
  try! prepared := appendPrepare clock recorder command db in
  if prepared.(apr_Replay) then Ok (prepared, db)
  else try! db := insertJournal db prepared.(apr_Record) in Ok (prepared, db).

(** Whether the transaction reached the INSERT. *)
Definition insertAttempted (cfg : SQLStoreConfig) (env : resolutionEnv) (recorder : ProviderUsageRecorder)
    (command : AppendAttestedProviderUsageCommand) (db : Database) : bool :=
  bool_decide (env.(rse_ctx) 1%nat = None) && (negb cfg.(cfg_sqlite) || bool_decide (env.(rse_ctx) 2%nat = None))
  && match appendPrepare env.(rse_clock) recorder command db with
     | Ok prepared => negb prepared.(apr_Replay)
     | Err _ => false
     end.

Definition append_sentinel (e : error) : bool :=
  match e with
  | ErrProviderUsageJournalInvalid | ErrProviderUsageConflict | ErrProviderUsageForbidden
  | ErrUsageMeterReleaseNotFound | ErrUsageMeterReleaseConflict => true
  | _ => false
  end.

(** The read after a failed INSERT. *)
Definition appendFailed (env : resolutionEnv) (recorder : ProviderUsageRecorder)
    (command : AppendAttestedProviderUsageCommand) (attempted : bool) (txErr : error)
    : op Database AppendAttestedProviderUsageResult := fun db =>
  if append_sentinel txErr then (Err txErr, db)
  else if negb attempted then (Err (normalize txErr), db)
  else
    let db := env.(rse_between) db in
    match env.(rse_ctx) 3%nat,
          lookupProviderUsageJournalByEventTx db recorder.(rcd_source).(reg_ProviderKey)
            recorder.(rcd_source).(reg_ProviderAccountDigest) command.(aa_ProviderEventDigest) with
    | None, Ok (Some existing) =>
      if providerUsageRecordMatchesAppend existing recorder command
      then (Ok (mkAppendResult existing true), db) else (Err ErrProviderUsageConflict, db)
    | _, _ => (Err (normalize txErr), db)
    end.

Definition AppendAttested (cfg : SQLStoreConfig) (env : resolutionEnv) (recorder : ProviderUsageRecorder)
    (command : AppendAttestedProviderUsageCommand) : op Database AppendAttestedProviderUsageResult := fun db =>
  match first_error [env.(rse_ctx) 0%nat; when (negb (Recorder_intact recorder)) ErrProviderUsageJournalInvalid;
                     AppendAttestedProviderUsageCommand_Validate command] with
  | Some e => (Err e, db)
  | None =>
    match writeTransaction cfg env.(rse_ctx) env.(rse_outcome)
            (appendAttestedBody env.(rse_clock) recorder command) db with
    | (Ok r, db') => (Ok r, db')
    | (Err e, db') => appendFailed env recorder command (insertAttempted cfg env recorder command db) e db'
    end
  end.

(** ** Pricing a Review *)

Record CaptureSettlementReviewUsageEvidenceResult := mkCaptureResult {
  capr_Review : SettlementReviewRecord;
  capr_Evidence : SettlementReviewUsageEvidenceRecord;
  capr_Replay : bool
}.

(** The locked terminal Turn and its Review, as the command names it. *)
Definition lockReview (db : Database) (turnID : TurnID) (reviewID requestDigest : string) (conflict : error)
    : result (sqlTurnRow * Turn * SettlementReviewRecord) :=
  match lockTurn db (turn_is turnID) with
  | Err ErrTurnNotFound => Err ErrSettlementReviewNotFound
  | Err e => Err e
  | Ok turnRow =>
    try! turn := toTurn turnRow as ErrStoreIntegrity in
    guard! TurnStatus_Terminal turn.(turn_Status) else ErrStoreIntegrity;;
    try! found := lookupSettlementReviewTx db turnID in
    match found with
    | None => Err ErrSettlementReviewNotFound
    | Some review =>
      guard! bool_decide (review.(rv_ReviewID) = reviewID) else ErrSettlementReviewNotFound;;
      guard! bool_decide (review.(rv_RequestDigest) = requestDigest) else conflict;;
      Ok (turnRow, turn, review)
    end
  end.

(** The complete receipt set of a pending Review and its one release. *)
Definition captureSources (db : Database) (turn : Turn) (review : SettlementReviewRecord)
    : result (list ProviderUsageJournalRecord * UsageMeterReleaseRecord) :=
  try! sources := lookupSettlementReviewProviderUsageTx db review in
  let count := Z.of_nat (length sources) in
  let prior := review.(rv_Evidence).(ue_PriorProviderUsageCount) in
  guard! negb (MaxProviderUsageSources <? count) else ErrSettlementReviewUsageOverflow;;
  match sources with
  | [] => if prior =? 0 then Err ErrSettlementReviewUsagePending else Err ErrStoreIntegrity
  | first :: _ =>
    guard! negb (count <? prior) else ErrStoreIntegrity;;
    guard! forallb (fun s => bool_decide (s.(jr_MeterReleaseID) = first.(jr_MeterReleaseID))
                             && bool_decide (s.(jr_Plugin) = turn.(turn_Plugin))) sources else ErrStoreIntegrity;;
    try! found := lookupUsageMeterReleaseTx db first.(jr_MeterReleaseID) in
    match found with
    | None => Err ErrStoreIntegrity
    | Some release =>
      guard! bool_decide (release.(rel_Plugin) = turn.(turn_Plugin)) else ErrStoreIntegrity;;
      guard! forallb (fun s => containsSource release (sourceRegistration s)) sources else ErrStoreIntegrity;;
      guard! count_rows (fun r => bool_decide (r.(row_record).(src_ReceiptID) ∈ map jr_ReceiptID sources))
               db.(db_settlement).(st_sources) =? 0 else ErrSettlementReviewUsageConflict;;
      Ok (sources, release)
    end
  end.

(** [receipt, err := authority.MeasureProviderUsage(tx, command)]; it may read
    the tables, so the sources are read again afterwards. *)
Definition measureReview (authority : SettlementAuthority) (db : Database)
    (command : MeasureSettlementReviewProviderUsageCommand)
    : result SettlementReviewProviderUsageAuthorityReceipt :=
  match authority.(sa_MeasureProviderUsage) with
  | None => Err ErrSettlementReviewUsageUnavailable
  | Some measure =>
    match measure db command with
    | Err ErrSettlementBindingInvalid => Err ErrSettlementBindingInvalid
    | Err ErrSettlementReviewUsageUnavailable => Err ErrSettlementReviewUsageUnavailable
    | Err _ => Err ErrSettlementReviewUsageFailed
    | Ok receipt =>
      check! SettlementReviewProviderUsageAuthorityReceipt_Validate receipt command
        as ErrSettlementReviewUsageFailed;;
      Ok receipt
    end
  end.

(** The sources and the release have not changed under the measurement. *)
Definition sourcesUnchanged (db : Database) (review : SettlementReviewRecord) (release : UsageMeterReleaseRecord)
    (sources : list ProviderUsageJournalRecord) : validation :=
  match
    try! freshSources := lookupSettlementReviewProviderUsageTx db review in
    try! found := lookupUsageMeterReleaseTx db release.(rel_ReleaseID) in
    match found with
    | None => Err ErrStoreIntegrity
    | Some freshRelease =>
      guard! usageMeterReleaseEqual release freshRelease && providerUsageJournalRecordsEqual sources freshSources
             && bool_decide (settlementReviewProviderUsageSourceDigest review release sources
                             = settlementReviewProviderUsageSourceDigest review freshRelease freshSources)
        else ErrStoreIntegrity;;
      Ok tt
    end
  with Ok _ => None | Err e => Some e end.

Definition measuredEvidence (review : SettlementReviewRecord) (turn : Turn) (release : UsageMeterReleaseRecord)
    (sources : list ProviderUsageJournalRecord) (receipt : SettlementReviewProviderUsageAuthorityReceipt)
    (measuredAt : time) : SettlementReviewUsageEvidenceRecord :=
  let draft meterReceiptDigest evidenceDigest :=
    mkUsageEvidence (settlementReviewUsageEvidenceID review.(rv_ReviewID)) review.(rv_ReviewID)
      review.(rv_TurnID) review.(rv_SettlementKey) review.(rv_RequestDigest) turn.(turn_Plugin)
      release.(rel_BillingPolicyKey) release.(rel_PricingSnapshotDigest) release.(rel_MeterKey)
      release.(rel_MeterVersion) release.(rel_MeterBuildDigest) release.(rel_ReleaseID)
      (settlementReviewProviderUsageSourceDigest review release sources) (Z.of_nat (length sources))
      receipt.(mrc_MeasurementDigest) receipt.(mrc_UsedUnits) meterReceiptDigest evidenceDigest measuredAt in
  let metered := settlementReviewProviderMeterReceiptDigest (draft "" "") release in
  draft metered (settlementReviewUsageEvidenceDigest (draft metered "")).

(** The later of the database time and the last change of the Review. *)
Definition reviewTime (clock : result time) (review : SettlementReviewRecord) : result time :=
  try! now := executionNow clock in
  Ok (if Before now review.(rv_UpdatedAt) then review.(rv_UpdatedAt) else now).

(** A Review that moved to [status] still passes every check. *)
Definition movedReview (db : Database) (turnRow : sqlTurnRow) (turn : Turn) (review : SettlementReviewRecord)
    (from to : string) (now : time) : result (SettlementReviewRecord * Database) :=
  try! db := moveReviewStatus db review from to now in
  let review := with_review_status review to now in
  check! SettlementReviewRecord_Validate review as ErrStoreIntegrity;;
  check! validateTerminalSettlementReviewTx db turnRow turn review;;
  Ok (review, db).

(** The writes of a pending Review that is priced. *)
Definition capturePending (clock : result time) (authority : SettlementAuthority) (db : Database)
    (turnRow : sqlTurnRow) (turn : Turn) (review : SettlementReviewRecord)
    : result (CaptureSettlementReviewUsageEvidenceResult * Database) :=
  try! (sources, release) := captureSources db turn review in
  let command := mkMeasureCommand review turn.(turn_PrincipalID) turn.(turn_Plugin)
                   (settlementReviewUsageEvidenceID review.(rv_ReviewID)) release sources
                   (settlementReviewProviderUsageSourceDigest review release sources) in
  check! MeasureSettlementReviewProviderUsageCommand_Validate command as ErrStoreIntegrity;;
  try! receipt := measureReview authority db command in
  check! sourcesUnchanged db review release sources;;
  try! measuredAt := reviewTime clock review in
  let evidence := measuredEvidence review turn release sources receipt measuredAt in
  try! db := insertEvidence db evidence in
  try! db := insertSources db evidence 0 sources in
  try! (review, db) := movedReview db turnRow turn review SettlementReviewStatusPending
                         SettlementReviewStatusMeteredHeld measuredAt in
  Ok (mkCaptureResult review evidence false, db).

Definition captureBody (s : settlementState) (clock : result time)
    (command : CaptureSettlementReviewUsageEvidenceCommand) (db : Database)
    : result (CaptureSettlementReviewUsageEvidenceResult * Database) :=
  try! locked := lockReview db command.(cap_TurnID) command.(cap_ReviewID) command.(cap_ExpectedRequestDigest)
                   ErrSettlementReviewUsageConflict in
  let '(turnRow, turn, review) := locked in
  try! authority := settlementReviewProviderUsageAuthorityLocked s in
  guard! settlementReviewProviderUsageAware review else ErrSettlementReviewUsageConflict;;
  check! validateTerminalSettlementReviewTx db turnRow turn review;;
  if bool_decide (review.(rv_Status) ∈ [SettlementReviewStatusMeteredHeld; SettlementReviewStatusFinalizedHeld]) then
    try! found := lookupSettlementReviewUsageEvidenceTx db review.(rv_ReviewID) in
    match found with
    | None => Err ErrStoreIntegrity
    | Some evidence =>
      try! _ := validateSettlementReviewUsageProvenanceTx db review evidence in
      Ok (mkCaptureResult review evidence true, db)
    end
  else
    guard! bool_decide (review.(rv_Status) = SettlementReviewStatusPending) else ErrStoreIntegrity;;
    capturePending clock authority db turnRow turn review.

(** A transaction whose errors are normalized. *)
Definition resolutionTransaction {A} (cfg : SQLStoreConfig) (env : resolutionEnv) (checks : validation)
    (body : Database → result (A * Database)) : op Database A := fun db =>
  match first_error [env.(rse_ctx) 0%nat; checks] with
  | Some e => (Err e, db)
  | None =>
    match writeTransaction cfg env.(rse_ctx) env.(rse_outcome) body db with
    | (Ok r, db') => (Ok r, db')
    | (Err e, db') => (Err (normalize e), db')
    end
  end.

Definition CaptureSettlementReviewUsageEvidence (cfg : SQLStoreConfig) (env : resolutionEnv)
    (command : CaptureSettlementReviewUsageEvidenceCommand)
    : op Database CaptureSettlementReviewUsageEvidenceResult :=
  resolutionTransaction cfg env (CaptureSettlementReviewUsageEvidenceCommand_Validate command)
    (captureBody env.(rse_settlement) env.(rse_clock) command).

(** ** Finalizing a Review *)

Record ResolveSettlementReviewResult := mkResolveResult {
  rsvr_Review : SettlementReviewRecord;
  rsvr_Resolution : SettlementReviewResolutionRecord;
  rsvr_Replay : bool
}.

Definition resolutionCommand (review : SettlementReviewRecord) (evidence : SettlementReviewUsageEvidenceRecord)
    (turn : Turn) (actorID : string) : SettlementReviewResolutionAuthorityCommand :=
  mkResolutionAuthorityCommand review evidence turn.(turn_PrincipalID)
    (settlementReviewResolutionID review.(rv_ReviewID))
    (settlementReviewResolutionDecisionDigest review evidence actorID) SettlementIntentFinalize
    evidence.(ev_UsedUnits) actorID SettlementReviewResolutionReasonMeteredUsageConfirmed
    evidence.(ev_EvidenceDigest) evidence.(ev_PricingSnapshotDigest).

(** [receipt, err := authority.ResolveReview(tx, command)]; an accepted call is
    an entry of the ledger. *)
Definition resolveReview (authority : SettlementAuthority) (db : Database)
    (command : SettlementReviewResolutionAuthorityCommand)
    : result (SettlementReviewResolutionAuthorityReceipt * Database) :=
  match authority.(sa_ResolveReview) with
  | None => Err ErrSettlementReviewResolutionUnavailable
  | Some resolve =>
    match resolve db command with
    | Err ErrSettlementBindingInvalid => Err ErrSettlementBindingInvalid
    | Err ErrSettlementReviewResolutionUnavailable => Err ErrSettlementReviewResolutionUnavailable
    | Err ErrSettlementReviewUnitsExceedReserved => Err ErrSettlementReviewUnitsExceedReserved
    | Err _ => Err ErrSettlementReviewResolutionFailed
    | Ok receipt =>
      match SettlementReviewResolutionAuthorityReceipt_Validate receipt command with
      | Some ErrSettlementReviewUnitsExceedReserved => Err ErrSettlementReviewUnitsExceedReserved
      | Some _ => Err ErrSettlementReviewResolutionFailed
      | None => Ok (receipt, record_entry db (ReviewResolved command))
      end
    end
  end.

Definition resolutionRecord (review : SettlementReviewRecord) (evidence : SettlementReviewUsageEvidenceRecord)
    (receipt : SettlementReviewResolutionAuthorityReceipt) (actorID : string) (resolvedAt : time)
    : SettlementReviewResolutionRecord :=
  let draft digest :=
    mkResolution (settlementReviewResolutionID review.(rv_ReviewID)) review.(rv_ReviewID) review.(rv_TurnID)
      review.(rv_SettlementKey) review.(rv_RequestDigest) evidence.(ev_EvidenceID)
      evidence.(ev_PricingSnapshotDigest) (settlementReviewResolutionDecisionDigest review evidence actorID)
      digest SettlementIntentFinalize evidence.(ev_UsedUnits) receipt.(rrc_ReservedUnits) actorID
      SettlementReviewResolutionReasonMeteredUsageConfirmed evidence.(ev_EvidenceDigest)
      receipt.(rrc_ReceiptDigest) resolvedAt in
  draft (settlementReviewResolutionDigest (draft "")).

Definition resolveMetered (clock : result time) (authority : SettlementAuthority) (actorID : string)
    (db : Database) (turnRow : sqlTurnRow) (turn : Turn) (review : SettlementReviewRecord)
    (evidence : SettlementReviewUsageEvidenceRecord) : result (ResolveSettlementReviewResult * Database) :=
  let authorityCommand := resolutionCommand review evidence turn actorID in
  check! SettlementReviewResolutionAuthorityCommand_Validate authorityCommand as ErrStoreIntegrity;;
  try! (receipt, db) := resolveReview authority db authorityCommand in
  try! resolvedAt := reviewTime clock review in
  let resolution := resolutionRecord review evidence receipt actorID resolvedAt in
  try! db := insertResolution db resolution in
  try! (review, db) := movedReview db turnRow turn review SettlementReviewStatusMeteredHeld
                         SettlementReviewStatusFinalizedHeld resolvedAt in
  Ok (mkResolveResult review resolution false, db).

Definition resolveBody (s : settlementState) (clock : result time) (command : ResolveSettlementReviewCommand)
    (db : Database) : result (ResolveSettlementReviewResult * Database) :=
  try! locked := lockReview db command.(rsv_TurnID) command.(rsv_ReviewID) command.(rsv_ExpectedRequestDigest)
                   ErrSettlementReviewResolutionConflict in
  let '(turnRow, turn, review) := locked in
  try! authority := settlementReviewResolutionAuthorityLocked s in
  check! validateTerminalSettlementReviewTx db turnRow turn review;;
  try! found := lookupSettlementReviewUsageEvidenceTx db review.(rv_ReviewID) in
  match found with
  | None => Err ErrStoreIntegrity
  | Some evidence =>
    guard! bool_decide (command.(rsv_EvidenceID) = evidence.(ev_EvidenceID))
           && bool_decide (command.(rsv_ExpectedEvidenceDigest) = evidence.(ev_EvidenceDigest))
      else ErrSettlementReviewResolutionConflict;;
    if bool_decide (review.(rv_Status) = SettlementReviewStatusFinalizedHeld) then
      try! recorded := lookupSettlementReviewResolutionTx db review.(rv_ReviewID) in
      match recorded with
      | None => Err ErrStoreIntegrity
      | Some resolution =>
        guard! bool_decide (resolution.(rs_DecisionDigest)
                 = settlementReviewResolutionDecisionDigest review evidence command.(rsv_ActorID))
          else ErrSettlementReviewResolutionConflict;;
        Ok (mkResolveResult review resolution true, db)
      end
    else
      guard! bool_decide (review.(rv_Status) = SettlementReviewStatusMeteredHeld) else ErrStoreIntegrity;;
      resolveMetered clock authority command.(rsv_ActorID) db turnRow turn review evidence
  end.

Definition ResolveSettlementReview (cfg : SQLStoreConfig) (env : resolutionEnv)
    (command : ResolveSettlementReviewCommand) : op Database ResolveSettlementReviewResult :=
  resolutionTransaction cfg env (ResolveSettlementReviewCommand_Validate command)
    (resolveBody env.(rse_settlement) env.(rse_clock) command).

(** ** Audit reads *)

Definition list_limit (limit : Z) : Z := if limit <=? 0 then DefaultSettlementReviewListLimit else limit.
Definition list_limit_valid (limit : Z) : validation :=
  when ((limit <? 0) || (MaxSettlementReviewListLimit <? limit)) (ErrText "limit out of range").

(** ORDER BY created_at ASC, id ASC. *)
Definition created_before {A} (created : A → time) (a b : stored A) : Prop :=
  created a.(row_record) < created b.(row_record)
  ∨ created a.(row_record) = created b.(row_record) ∧ a.(row_ID) ≤ b.(row_ID).

#[export] Instance created_before_dec {A} (created : A → time) : RelDecision (created_before created).
Proof. unfold RelDecision, created_before. intros a b. apply _. Defined.

(** One read of the parents of an evidence: [None] asks for another. *)
Definition evidenceParents (evidence : SettlementReviewUsageEvidenceRecord) (db : Database)
    : result (option unit) :=
  try! found := lookupSettlementReviewTx db evidence.(ev_EvidenceTurnID) in
  match found with
  | None => Err ErrStoreIntegrity
  | Some review =>
    guard! bool_decide (review.(rv_ReviewID) = evidence.(ev_ReviewID))
           && settlementReviewUsageEvidenceMatchesReview evidence review else ErrStoreIntegrity;;
    try! owner := lookupTurnByID db evidence.(ev_EvidenceTurnID) in
    match owner with
    | None => Err ErrStoreIntegrity
    | Some turn =>
      guard! TurnStatus_Terminal turn.(turn_Status)
             && bool_decide (turn.(turn_Plugin) = evidence.(ev_EvidencePlugin)) else ErrStoreIntegrity;;
      match validateSettlementReviewResolutionStateTx db review with
      | Err ErrStoreIntegrity => Ok None
      | Err e => Err e
      | Ok _ =>
        try! stored := lookupSettlementReviewUsageEvidenceTx db review.(rv_ReviewID) in
        match stored with
        | None => Err ErrStoreIntegrity
        | Some validated =>
          guard! bool_decide (validated.(ev_EvidenceDigest) = evidence.(ev_EvidenceDigest))
            else ErrStoreIntegrity;;
          Ok (Some tt)
        end
      end
    end
  end.

(** The two attempts see the tables [db] and [later]. *)
Definition validateSettlementReviewUsageEvidenceListCandidate (db later : Database)
    (evidence : SettlementReviewUsageEvidenceRecord) : validation :=
  match evidenceParents evidence db with
  | Err e => Some e
  | Ok (Some _) => None
  | Ok None =>
    match evidenceParents evidence later with
    | Err e => Some e
    | Ok (Some _) => None
    | Ok None => Some ErrStoreIntegrity
    end
  end.

Fixpoint auditRows {A} (validate : A → validation) (checkRow : nat → A → validation) (i : nat)
    (rows : list (stored A)) : result (list A) :=
  match rows with
  | [] => Ok []
  | row :: rest =>
    check! validate row.(row_record) as ErrStoreIntegrity;;
    match checkRow i row.(row_record) with
    | Some e => Err (normalize e)
    | None => try! records := auditRows validate checkRow (S i) rest in Ok (row.(row_record) :: records)
    end
  end.

(** [tables i] is what the reads of the i-th row see. *)
Definition ListSettlementReviewUsageEvidence (ctx : context) (tables : nat → Database * Database) (limit : Z)
    (db : Database) : result (list SettlementReviewUsageEvidenceRecord) :=
  check! first_error [ctx 0%nat; list_limit_valid limit];;
  auditRows SettlementReviewUsageEvidenceRecord_Validate
    (fun i e => validateSettlementReviewUsageEvidenceListCandidate (fst (tables i)) (snd (tables i)) e) 0
    (take (Z.to_nat (list_limit limit))
       (merge_sort (created_before ev_CreatedAt) db.(db_settlement).(st_evidence))).

Definition resolutionParents (db : Database) (resolution : SettlementReviewResolutionRecord) : validation :=
  match
    try! found := lookupSettlementReviewTx db resolution.(rs_TurnID) in
    match found with
    | None => Err ErrStoreIntegrity
    | Some review =>
      guard! bool_decide (review.(rv_ReviewID) = resolution.(rs_ReviewID)) else ErrStoreIntegrity;;
      try! validated := validateSettlementReviewResolutionStateTx db review in
      match validated with
      | None => Err ErrStoreIntegrity
      | Some v => guard! bool_decide (v.(rs_ResolutionDigest) = resolution.(rs_ResolutionDigest))
                    else ErrStoreIntegrity;; Ok tt
      end
    end
  with Ok _ => None | Err e => Some e end.

Definition ListSettlementReviewResolutions (ctx : context) (tables : nat → Database) (limit : Z) (db : Database)
    : result (list SettlementReviewResolutionRecord) :=
  check! first_error [ctx 0%nat; list_limit_valid limit];;
  auditRows SettlementReviewResolutionRecord_Validate (fun i r => resolutionParents (tables i) r) 0
    (take (Z.to_nat (list_limit limit))
       (merge_sort (created_before rs_CreatedAt) db.(db_settlement).(st_resolutions))).
