(* ===== verification/CommitCommand.v ===== *)
(** * The identity of a commit: sql_execution_store.go

    [CommitAttempt] replaces a caller's command by a normalized one and binds
    its retries to the SHA-256 of the normalized content: version 2 for the
    compatibility path, version 3 for a completed Turn under a usage binding,
    version 4 for every terminal Turn under a provider journal binding.  The
    chain of candidates is what a stored receipt may match. *)

From S2P Require Import Prelude GoText GoJson GoDigest GoTime AgentContract TurnTypes TurnService ExecutionTypes Settlement ProviderUsage SettlementUsage SqlDatabase SettlementAuthority.

(** ** Kernel policies *)

Definition completedUsageTerminalizationMode : string := "trusted_usage_review_v1".
Definition providerUsageTerminalizationMode : string := "provider_usage_review_v1".
Definition operationDigestVersionV2 : string := "workmax.agentturn.operation/v2".
Definition operationDigestVersionV3 : string := "workmax.agentturn.operation/v3".
Definition operationDigestVersionV4 : string := "workmax.agentturn.operation/v4".

Record commitDigestTerminalization := mkCommitDigestTerminalization {
  ct_Mode : string;
  ct_Source : SettlementReviewSource;
  ct_Reason : string;
  ct_PolicyDigest : string
}.

#[export] Instance commitDigestTerminalization_eq_dec : EqDecision commitDigestTerminalization.
Proof. solve_decision. Defined.

Definition completedUsageTerminalizationPolicyDigest : string :=
  sha256_digest (hash_parts
    [ "workmax.agentturn.completed-usage-policy/v1";
      "completed terminal usage must come from the sealed trusted meter";
      "nil/default/finalize-zero opens a durable review";
      "zero durable evidence is permitted";
      "all effects remain review_hold";
      "settle is forbidden until evidence-backed resolution" ]).

Definition newCompletedUsageTerminalization : commitDigestTerminalization :=
  mkCommitDigestTerminalization completedUsageTerminalizationMode SettlementReviewSourceExecutorCompletion
    SettlementReviewReasonCompletedUsageUnmeasured completedUsageTerminalizationPolicyDigest.

Definition providerUsageTerminalizationPolicyDigest : string :=
  sha256_digest (hash_parts
    [ "workmax.agentturn.provider-usage-policy/v1";
      "every terminal status opens a durable provider usage review";
      "completed uses executor_completion and other terminals use executor_terminal";
      "nil/default/finalize-zero asks the kernel meter to decide usage";
      "release and positive caller units are untrusted";
      "journal receipts are counted under the turn lock and may arrive while review is pending";
      "all effects remain review_hold and direct settlement is forbidden" ]).

Definition newProviderUsageTerminalization (terminal : TurnStatus) : result commitDigestTerminalization :=
  guard! TurnStatus_Valid terminal && TurnStatus_Terminal terminal else ErrStoreIntegrity;;
  Ok (if bool_decide (terminal = TurnStatusCompleted)
      then mkCommitDigestTerminalization providerUsageTerminalizationMode
             SettlementReviewSourceExecutorCompletion SettlementReviewReasonCompletedUsageUnmeasured
             providerUsageTerminalizationPolicyDigest
      else mkCommitDigestTerminalization providerUsageTerminalizationMode
             SettlementReviewSourceExecutorTerminal SettlementReviewReasonTerminalUsageUnmeasured
             providerUsageTerminalizationPolicyDigest).

Definition commitDigestTerminalization_validate (t : commitDigestTerminalization) : validation :=
  first_error
    [ validatePrintableASCII t.(ct_Mode) MaxCommandDigestBytes;
      when (negb (SettlementReviewSource_Valid t.(ct_Source))) ErrStoreIntegrity;
      validatePrintableASCII t.(ct_Reason) MaxSettlementReviewUsageFieldBytes;
      validateSettlementReviewSHA256Digest t.(ct_PolicyDigest) ].

(** [providerUsageTerminalization]: [None] when the binding is not
    provider-aware. *)
Definition providerUsageTerminalization (s : settlementState) (terminal : TurnStatus)
    : result (option commitDigestTerminalization) :=
  if negb (match s.(ss_binding) with Some b => b.(sb_providerUsageAware) | None => false end) then Ok None
  else
    try! _ := settlementReviewProviderUsageAuthorityLocked s in
    try! terminalization := newProviderUsageTerminalization terminal in
    Ok (Some terminalization).

(** settlement_review.go. *)
Definition completedUsageTerminalization (s : settlementState) : result (option commitDigestTerminalization) :=
  match s.(ss_binding) with
  | None => Ok None
  | Some b =>
    if negb b.(sb_usageAware) then Ok None
    else
      guard! negb s.(ss_violated) && binding_intact s b
             && match s.(ss_settlement) with Some a => is_usage_authority a | None => false end
        else ErrSettlementBindingInvalid;;
      Ok (Some newCompletedUsageTerminalization)
  end.

(** ** Normalized commands and their digest *)

Definition with_available (d : EffectOutboxDraft) (availableAt : time) : EffectOutboxDraft :=
  mkEffectOutboxDraft d.(edraft_OutboxID) d.(edraft_Topic) d.(edraft_DedupeKey) d.(edraft_Payload) availableAt.

Fixpoint normalizeEffects (effects : list EffectOutboxDraft) : result (list EffectOutboxDraft) :=
  match effects with
  | [] => Ok []
  | effect :: rest =>
    try! availableAt := canonicalExecutionTime effect.(edraft_AvailableAt) in
    try! normalized := normalizeEffects rest in
    Ok (with_available effect availableAt :: normalized)
  end.

(** The settlement request a terminal command stands for. *)
Definition resolvedSettlement (status : TurnStatus) (request : option SettlementRequest) : SettlementRequest :=
  let request := default (mkSettlementRequest "" 0) request in
  let intent := SettlementRequest_resolve request status in
  mkSettlementRequest intent
    (if bool_decide (intent = SettlementIntentRelease) then 0 else request.(sreq_UsedUnits)).

(** Field by field, [json.Marshal] of the digest payload. *)
Definition json_array (items : list string) : string := "[" +:+ join_comma items +:+ "]".

Definition marshal_digest_event (event : EventDraft) : string :=
  json_object
    (json_field "type" (marshal_string event.(draft_Type))
     :: (if bool_decide (event.(draft_ResourceRefs) = []) then []
         else [json_field "resourceRefs" (json_array (map marshal_string event.(draft_ResourceRefs)))])
     ++ [json_field "data" (json_compact event.(draft_Data))]).

Definition marshal_digest_effect (effect : EffectOutboxDraft) : string :=
  json_object
    [ json_field "outboxId" (marshal_string effect.(edraft_OutboxID));
      json_field "topic" (marshal_string effect.(edraft_Topic));
      json_field "dedupeKey" (marshal_string effect.(edraft_DedupeKey));
      json_field "payload" (json_compact effect.(edraft_Payload));
      json_field "availableAt" (marshal_time effect.(edraft_AvailableAt)) ].

Definition marshal_digest_settlement (request : SettlementRequest) : string :=
  json_object
    [ json_field "intent" (marshal_string request.(sreq_Intent));
      json_field "usedUnits" (FormatInt request.(sreq_UsedUnits)) ].

Definition marshal_digest_terminalization (t : commitDigestTerminalization) : string :=
  json_object
    [ json_field "mode" (marshal_string t.(ct_Mode));
      json_field "source" (marshal_string t.(ct_Source));
      json_field "reason" (marshal_string t.(ct_Reason));
      json_field "policyDigest" (marshal_string t.(ct_PolicyDigest)) ].

Definition optional_field {A} (name : string) (marshal : A → string) (value : option A) : list string :=
  match value with None => [] | Some v => [json_field name (marshal v)] end.

Definition commit_digest_payload (version : string) (c : CommitAttemptCommand)
    (terminalization : option commitDigestTerminalization) : string :=
  json_object
    (json_field "version" (marshal_string version)
     :: (if bool_decide (c.(commit_TerminalStatus) = "") then []
         else [json_field "terminalStatus" (marshal_string c.(commit_TerminalStatus))])
     ++ optional_field "event" marshal_digest_event c.(commit_Event)
     ++ [json_field "effects" (json_array (map marshal_digest_effect c.(commit_Effects)))]
     ++ optional_field "settlement" marshal_digest_settlement
          (if bool_decide (c.(commit_TerminalStatus) = "") then None else c.(commit_Settlement))
     ++ optional_field "terminalization" marshal_digest_terminalization terminalization).

(** The terminalization a version of the digest admits. *)
Definition version_admits (version : string) (c : CommitAttemptCommand)
    (terminalization : option commitDigestTerminalization) : bool :=
  if bool_decide (version = operationDigestVersionV2) then bool_decide (terminalization = None)
  else if bool_decide (version = operationDigestVersionV3) then
    bool_decide (c.(commit_TerminalStatus) = TurnStatusCompleted)
    && bool_decide (terminalization = Some newCompletedUsageTerminalization)
  else if bool_decide (version = operationDigestVersionV4) then
    match terminalization, newProviderUsageTerminalization c.(commit_TerminalStatus) with
    | Some t, Ok expected => bool_decide (t = expected)
    | _, _ => false
    end
  else false.

Definition normalizeCommitCommandWithVersion (command : CommitAttemptCommand)
    (terminalization : option commitDigestTerminalization) (version : string)
    : result (CommitAttemptCommand * string) :=
  guard! version_admits version command terminalization else ErrStoreIntegrity;;
  try! effects := normalizeEffects command.(commit_Effects) in
  let status := command.(commit_TerminalStatus) in
  let settlement := if bool_decide (status = "") then command.(commit_Settlement)
                    else Some (resolvedSettlement status command.(commit_Settlement)) in
  let normalized := mkCommitAttemptCommand command.(commit_Fence) command.(commit_OperationID)
                      command.(commit_Event) status effects settlement in
  Ok (normalized, sha256_digest (commit_digest_payload version normalized terminalization)).

Definition normalizeCommitCommandWithTerminalization (command : CommitAttemptCommand)
    (terminalization : option commitDigestTerminalization) : result (CommitAttemptCommand * string) :=
  normalizeCommitCommandWithVersion command terminalization
    (if bool_decide (terminalization = None) then operationDigestVersionV2 else operationDigestVersionV3).

Definition normalizeCommitCommand (command : CommitAttemptCommand) : result (CommitAttemptCommand * string) :=
  normalizeCommitCommandWithTerminalization command None.

Definition normalizeCompletedUsageCommitCommand (command : CommitAttemptCommand)
    (terminalization : commitDigestTerminalization) : result (CommitAttemptCommand * string) :=
  guard! bool_decide (command.(commit_TerminalStatus) = TurnStatusCompleted) else ErrStoreIntegrity;;
  check! commitDigestTerminalization_validate terminalization;;
  guard! bool_decide (terminalization = newCompletedUsageTerminalization) else ErrStoreIntegrity;;
  normalizeCommitCommandWithTerminalization command (Some terminalization).

Definition with_settlement (c : CommitAttemptCommand) (request : SettlementRequest) : CommitAttemptCommand :=
  mkCommitAttemptCommand c.(commit_Fence) c.(commit_OperationID) c.(commit_Event) c.(commit_TerminalStatus)
    c.(commit_Effects) (Some request).

Definition normalizeProviderUsageCommitCommand (command : CommitAttemptCommand)
    (terminalization : commitDigestTerminalization) : result (CommitAttemptCommand * string) :=
  guard! TurnStatus_Valid command.(commit_TerminalStatus)
         && TurnStatus_Terminal command.(commit_TerminalStatus) else ErrStoreIntegrity;;
  try! expected := newProviderUsageTerminalization command.(commit_TerminalStatus) as ErrStoreIntegrity in
  guard! bool_decide (terminalization = expected) else ErrStoreIntegrity;;
  check! commitDigestTerminalization_validate terminalization;;
  normalizeCommitCommandWithVersion
    (with_settlement command (mkSettlementRequest SettlementIntentFinalize 0))
    (Some terminalization) operationDigestVersionV4.

(** ** Candidates *)

Inductive operationTerminalizationMode : Set :=
| operationTerminalizationLegacy
| operationTerminalizationCompletedUsageReview
| operationTerminalizationProviderUsageReview.

#[export] Instance operationTerminalizationMode_eq_dec : EqDecision operationTerminalizationMode.
Proof. solve_decision. Defined.

Record commitOperationCandidate := mkCommitOperationCandidate {
  cand_Command : CommitAttemptCommand;
  cand_Digest : string;
  cand_Mode : operationTerminalizationMode
}.

Definition candidate (mode : operationTerminalizationMode) (n : CommitAttemptCommand * string)
    : commitOperationCandidate := mkCommitOperationCandidate (fst n) (snd n) mode.

(** A commercial claim of the caller that the meter has to make. *)
Definition caller_asserts_usage (c : CommitAttemptCommand) : bool :=
  holds_at c.(commit_Settlement) (fun request =>
    bool_decide (request.(sreq_Intent) = SettlementIntentRelease) || (0 <? request.(sreq_UsedUnits))).

Definition completedUsageCallerAssertionUntrusted (c : CommitAttemptCommand) : bool :=
  bool_decide (c.(commit_TerminalStatus) = TurnStatusCompleted) && caller_asserts_usage c.

Definition providerUsageCallerAssertionUntrusted (c : CommitAttemptCommand) : bool :=
  negb (bool_decide (c.(commit_TerminalStatus) = "")) && caller_asserts_usage c.

(** What a call decides before its transaction: its mode, its candidates with
    the primary one first, and whether the caller's assertion is untrusted. *)
Record commitPlan := mkCommitPlan {
  plan_mode : operationTerminalizationMode;
  plan_primary : commitOperationCandidate;
  plan_fallbacks : list commitOperationCandidate;
  plan_untrusted : bool
}.

Definition plan_candidates (p : commitPlan) : list commitOperationCandidate :=
  p.(plan_primary) :: p.(plan_fallbacks).

Definition planProviderCommit (command : CommitAttemptCommand) (legacy : commitOperationCandidate)
    (terminalization : commitDigestTerminalization) : result commitPlan :=
  try! v4 := normalizeProviderUsageCommitCommand command terminalization in
  let primary := candidate operationTerminalizationProviderUsageReview v4 in
  let untrusted := providerUsageCallerAssertionUntrusted command in
  if bool_decide (command.(commit_TerminalStatus) = TurnStatusCompleted) then
    try! v3 := normalizeCompletedUsageCommitCommand command newCompletedUsageTerminalization in
    Ok (mkCommitPlan operationTerminalizationProviderUsageReview primary
          [candidate operationTerminalizationCompletedUsageReview v3; legacy] untrusted)
  else Ok (mkCommitPlan operationTerminalizationProviderUsageReview primary [legacy] untrusted).

(** [s i] is the store's settlement state at the i-th read. *)
Definition planCommit (s : nat → settlementState) (command : CommitAttemptCommand) : result commitPlan :=
  try! v2 := normalizeCommitCommand command in
  let legacy := candidate operationTerminalizationLegacy v2 in
  let plain := mkCommitPlan operationTerminalizationLegacy legacy [] false in
  if bool_decide (command.(commit_TerminalStatus) = "") then Ok plain
  else
    try! provider := providerUsageTerminalization (s 0%nat) command.(commit_TerminalStatus) in
    match provider with
    | Some terminalization => planProviderCommit command legacy terminalization
    | None =>
      if negb (bool_decide (command.(commit_TerminalStatus) = TurnStatusCompleted)) then Ok plain
      else
        try! completed := completedUsageTerminalization (s 1%nat) in
        match completed with
        | None => Ok plain
        | Some terminalization =>
          try! v3 := normalizeCompletedUsageCommitCommand command terminalization in
          Ok (mkCommitPlan operationTerminalizationCompletedUsageReview
                (candidate operationTerminalizationCompletedUsageReview v3) [legacy]
                (completedUsageCallerAssertionUntrusted command))
        end
    end.

(** ** Matching a stored receipt *)

Definition operationMatchesCommand (row : sqlTurnOperationRow) (command : CommitAttemptCommand)
    (digest : string) : bool :=
  bool_decide (row.(or_TurnID) = command.(commit_Fence).(fence_TurnID))
  && bool_decide (row.(or_OperationID) = command.(commit_OperationID))
  && bool_decide (row.(or_OperationDigest) = digest)
  && bool_decide (row.(or_AttemptID) = command.(commit_Fence).(fence_AttemptID))
  && (row.(or_FencingToken) =? i64 command.(commit_Fence).(fence_FencingToken)).

Definition selectOperationReplayCandidate (row : sqlTurnOperationRow)
    (candidates : list commitOperationCandidate) (requireLegacy : bool) : option commitOperationCandidate :=
  List.find (fun c => negb (requireLegacy
                            && negb (bool_decide (c.(cand_Mode) = operationTerminalizationLegacy)))
                      && operationMatchesCommand row c.(cand_Command) c.(cand_Digest)) candidates.
