(* ===== verification/SqlCommit.v ===== *)
(** * Committing the work of an Attempt: sql_execution_store.go [CommitAttempt]

    One transaction appends the event, the operation receipt and the effects of
    a command, moves the Turn and its Attempt, and settles or opens a Review.  A
    receipt that is already there is replayed instead; after a failed
    transaction the receipt decides whether it had committed. *)

From S2P Require Import Prelude GoText GoJson GoJsonValue GoDigest AgentContract TurnTypes MemoryStore TurnService ExecutionTypes Settlement ProviderUsage SettlementUsage SqlDatabase SqlStore SqlExecution EffectOutbox SettlementAuthority SettlementTables CommitCommand.

Record CommitAttemptResult := mkCommitAttemptResult {
  cres_OperationID : string;
  cres_OperationDigest : string;
  cres_Event : EventEnvelope;
  cres_Turn : Turn;
  cres_Attempt : TurnAttempt;
  cres_TurnStatus : TurnStatus;
  cres_Effects : list EffectOutboxRecord;
  cres_SettlementReview : option SettlementReviewRecord;
  cres_Replay : bool
}.

(** ** Status events *)

(** service.go. *)
Definition statusEventWithSettlementReview (status : TurnStatus) (cancellationRequested : bool)
    (review : option SettlementReviewRecord) : result EventDraft :=
  let fields := json_field "status" (marshal_string status)
                :: if cancellationRequested then [json_field "cancellationRequested" "true"] else [] in
  match review with
  | None => Ok (mkEventDraft EventCoreTurnStatus [] (json_object fields))
  | Some r =>
    guard! SettlementReviewSource_executor r.(rv_Source) && bool_decide (r.(rv_TerminalStatus) = status)
      else ErrStoreIntegrity;;
    let nonempty name value := if bool_decide (value = "") then [] else [json_field name (marshal_string value)] in
    Ok (mkEventDraft EventCoreTurnStatus []
          (json_object (fields ++ nonempty "settlementReviewId" r.(rv_ReviewID)
                               ++ nonempty "settlementReviewDigest" r.(rv_RequestDigest))))
  end.

(** The [status] member [json.Unmarshal] reads from an event. *)
Definition eventStatus (data : string) : option TurnStatus :=
  match unmarshal_object data with
  | None => None
  | Some members => string_member "status" members
  end.

Definition operationEventMatchesStatus (event : EventEnvelope) (status : TurnStatus) : bool :=
  if bool_decide (status = TurnStatusRunning) then negb (HasPrefix event.(ev_Type) "core.")
  else TurnStatus_Terminal status && bool_decide (event.(ev_Type) = EventCoreTurnStatus)
       && bool_decide (eventStatus event.(ev_Data) = Some status).

(** ** Reading a receipt back *)

Definition expectedOperationEvent (command : CommitAttemptCommand) (review : option SettlementReviewRecord)
    : result EventDraft :=
  let status := command.(commit_TerminalStatus) in
  if bool_decide (status = "") then
    match command.(commit_Event) with None => Err ErrStoreIntegrity | Some event => Ok event end
  else statusEventWithSettlementReview status (bool_decide (status = TurnStatusStopped)) review.

(** Delivery state is not compared. *)
Fixpoint effects_match (ordinal : Z) (effects : list EffectOutboxRecord) (drafts : list EffectOutboxDraft)
    : bool :=
  match effects, drafts with
  | [], [] => true
  | effect :: effects', expected :: drafts' =>
    (effect.(erec_Ordinal) =? ordinal) && bool_decide (effect.(erec_OutboxID) = expected.(edraft_OutboxID))
    && bool_decide (effect.(erec_Topic) = expected.(edraft_Topic))
    && bool_decide (effect.(erec_DedupeKey) = expected.(edraft_DedupeKey))
    && sameJSONContent effect.(erec_Payload) expected.(edraft_Payload)
    && effects_match (ordinal + 1) effects' drafts'
  | _, _ => false
  end.

Definition operationContentMatchesCommand (event : EventEnvelope) (effects : list EffectOutboxRecord)
    (command : CommitAttemptCommand) (review : option SettlementReviewRecord) : bool :=
  match expectedOperationEvent command review with
  | Err _ => false
  | Ok expected =>
    bool_decide (event.(ev_Type) = expected.(draft_Type))
    && bool_decide (event.(ev_ResourceRefs) = expected.(draft_ResourceRefs))
    && sameJSONContent event.(ev_Data) expected.(draft_Data)
    && effects_match 0 effects command.(commit_Effects)
  end.

Fixpoint operationEffectRecords (operation : sqlTurnOperationRow) (ordinal : Z)
    (rows : list sqlEffectOutboxRow) : result (list EffectOutboxRecord) :=
  match rows with
  | [] => Ok []
  | row :: rest =>
    try! record := toEffectRecord row as ErrStoreIntegrity in
    guard! effect_matches_operation operation ordinal row else ErrStoreIntegrity;;
    try! records := operationEffectRecords operation (ordinal + 1) rest in
    Ok (record :: records)
  end.

(** The Review a receipt of this mode has to name. *)
Definition operationReview (mode : operationTerminalizationMode) (operation : sqlTurnOperationRow)
    (found : option SettlementReviewRecord) : result (option SettlementReviewRecord) :=
  let named r := bool_decide (r.(rv_OperationID) = operation.(or_OperationID)) in
  match mode, found with
  | operationTerminalizationLegacy, Some r =>
    Ok (if bool_decide (r.(rv_Source) = SettlementReviewSourceExecutor) && named r then Some r else None)
  | operationTerminalizationLegacy, None => Ok None
  | operationTerminalizationCompletedUsageReview, Some r =>
    guard! bool_decide (r.(rv_Source) = SettlementReviewSourceExecutorCompletion) && named r
      else ErrStoreIntegrity;;
    Ok (Some r)
  | operationTerminalizationProviderUsageReview, Some r =>
    guard! named r && settlementReviewProviderUsageAware r else ErrStoreIntegrity;;
    Ok (Some r)
  | _, None => Err ErrStoreIntegrity
  end.

(** The identity every Review of an operation repeats. *)
Definition review_binds_operation (turn : Turn) (operation : sqlTurnOperationRow) (r : SettlementReviewRecord)
    : bool :=
  bool_decide (r.(rv_AttemptID) = operation.(or_AttemptID))
  && (r.(rv_FencingToken) =? u64 operation.(or_FencingToken))
  && bool_decide (r.(rv_SettlementKey) = settlementKey turn.(turn_ID) operation.(or_OperationID)).

Definition completedReviewChecks (turn : Turn) (operation : sqlTurnOperationRow)
    (evidence : SettlementUsageEvidence) (r : SettlementReviewRecord) : bool :=
  review_binds_operation turn operation r
  && bool_decide (r.(rv_TerminalStatus) = TurnStatusCompleted)
  && bool_decide (operation.(or_TurnStatus) = TurnStatusCompleted)
  && bool_decide (r.(rv_Reason) = SettlementReviewReasonCompletedUsageUnmeasured)
  && bool_decide (r.(rv_RequestDigest) = settlementReviewRequestDigestV1 r)
  && bool_decide (r.(rv_Evidence) = evidence).

Definition providerReviewChecks (turn : Turn) (operation : sqlTurnOperationRow) (terminal : TurnStatus)
    (evidence : SettlementUsageEvidence) (providerCount : Z) (r : SettlementReviewRecord) : bool :=
  let completed := bool_decide (terminal = TurnStatusCompleted) in
  bool_decide (r.(rv_Source) = if completed then SettlementReviewSourceExecutorCompletion
                               else SettlementReviewSourceExecutorTerminal)
  && bool_decide (r.(rv_Reason) = if completed then SettlementReviewReasonCompletedUsageUnmeasured
                                  else SettlementReviewReasonTerminalUsageUnmeasured)
  && bool_decide (r.(rv_TerminalStatus) = terminal)
  && bool_decide (operation.(or_TurnStatus) = terminal)
  && bool_decide (r.(rv_OperationID) = operation.(or_OperationID))
  && review_binds_operation turn operation r
  && bool_decide (r.(rv_RequestDigest) = settlementReviewRequestDigestV2 r)
  && (r.(rv_Evidence).(ue_PriorOperationCount) =? evidence.(ue_PriorOperationCount))
  && (r.(rv_Evidence).(ue_PriorEffectCount) =? evidence.(ue_PriorEffectCount))
  && (r.(rv_Evidence).(ue_CurrentEffectCount) =? evidence.(ue_CurrentEffectCount))
  && negb (providerCount <? r.(rv_Evidence).(ue_PriorProviderUsageCount)).

Definition executorReviewChecks (turn : Turn) (operation : sqlTurnOperationRow)
    (evidence : SettlementUsageEvidence) (r : SettlementReviewRecord) : bool :=
  bool_decide (r.(rv_Source) = SettlementReviewSourceExecutor)
  && bool_decide (r.(rv_OperationID) = operation.(or_OperationID))
  && review_binds_operation turn operation r
  && bool_decide (r.(rv_TerminalStatus) = operation.(or_TurnStatus))
  && bool_decide (r.(rv_Evidence) = evidence).

Definition command_releases (command : CommitAttemptCommand) : bool :=
  negb (bool_decide (command.(commit_TerminalStatus) = ""))
  && holds_at command.(commit_Settlement) (fun r => bool_decide (r.(sreq_Intent) = SettlementIntentRelease)).

(** The commercial outcome a replayed receipt still has. *)
Definition replayReview (s : settlementState) (db : Database) (turnRow : sqlTurnRow) (turn : Turn)
    (operation : sqlTurnOperationRow) (command : CommitAttemptCommand) (mode : operationTerminalizationMode)
    (found : option SettlementReviewRecord) : result (option SettlementReviewRecord) :=
  let evidence := inspectReplayReleaseEvidence db turn.(turn_ID) operation.(or_OperationID)
                    operation.(or_EffectCount) in
  let confirm (ok : bool) (r : SettlementReviewRecord) :=
    guard! ok else ErrStoreIntegrity;;
    check! validateTerminalSettlementReviewTx db turnRow turn r;;
    Ok (Some r) in
  match mode, found with
  | operationTerminalizationCompletedUsageReview, Some r =>
    try! e := evidence in confirm (completedReviewChecks turn operation e r) r
  | operationTerminalizationProviderUsageReview, Some r =>
    try! e := evidence in
    confirm (providerReviewChecks turn operation command.(commit_TerminalStatus) e
               (countProviderUsageJournalTx db turn.(turn_ID)) r) r
  | operationTerminalizationLegacy, _ =>
    if command_releases command && (hasSettlementAuthority s || bool_decide (is_Some found)) then
      try! e := evidence in
      if ambiguous e then
        match found with
        | None => Err ErrStoreIntegrity
        | Some r => confirm (executorReviewChecks turn operation e r) r
        end
      else (guard! bool_decide (found = None) else ErrStoreIntegrity;; Ok None)
    else (guard! bool_decide (found = None) else ErrStoreIntegrity;; Ok None)
  | _, None => Err ErrStoreIntegrity
  end.

Definition operation_event (db : Database) (operation : sqlTurnOperationRow) : option sqlTurnEventRow :=
  select_one (fun e => bool_decide (e.(er_TurnID) = operation.(or_TurnID))
                       && (e.(er_Sequence) =? operation.(or_EventSequence))) db.(db_events).

Definition hydrateOperationResult (s : settlementState) (db : Database) (turnRow : sqlTurnRow) (turn : Turn)
    (operation : sqlTurnOperationRow) (command : CommitAttemptCommand) (mode : operationTerminalizationMode)
    : result CommitAttemptResult :=
  guard! bool_decide (validateOperationRow operation = None)
         && bool_decide (operation.(or_TurnID) = turnRow.(tr_TurnID))
         && negb (turnRow.(tr_LastEventSequence) <? operation.(or_EventSequence)) else ErrStoreIntegrity;;
  try! attemptRow := lockAttempt db operation.(or_TurnID) operation.(or_AttemptID) operation.(or_FencingToken)
    as ErrStoreIntegrity in
  try! attempt := toAttempt attemptRow as ErrStoreIntegrity in
  match operation_event db operation with
  | None => Err ErrStoreIntegrity
  | Some eventRow =>
    try! event := toEnvelope turn eventRow as ErrStoreIntegrity in
    guard! operationEventMatchesStatus event operation.(or_TurnStatus) else ErrStoreIntegrity;;
    let effectRows := operationEffects db operation.(or_TurnID) operation.(or_OperationID) in
    guard! Z.of_nat (length effectRows) =? operation.(or_EffectCount) else ErrStoreIntegrity;;
    try! effects := operationEffectRecords operation 0 effectRows in
    try! found := lookupSettlementReviewTx db turn.(turn_ID) in
    try! named := operationReview mode operation found in
    guard! operationContentMatchesCommand event effects command named else ErrStoreIntegrity;;
    try! review := replayReview s db turnRow turn operation command mode found in
    Ok (mkCommitAttemptResult operation.(or_OperationID) operation.(or_OperationDigest) event turn attempt
          operation.(or_TurnStatus) effects review true)
  end.

(** A stored receipt answers the call, or conflicts with it. *)
Definition replayOperation (s : settlementState) (db : Database) (turnRow : sqlTurnRow) (turn : Turn)
    (operation : sqlTurnOperationRow) (plan : commitPlan) : result CommitAttemptResult :=
  match selectOperationReplayCandidate operation (plan_candidates plan) plan.(plan_untrusted) with
  | None => Err (if plan.(plan_untrusted) then ErrSettlementCompletedUsageUntrusted else ErrOperationConflict)
  | Some c =>
    try! replayed := hydrateOperationResult s db turnRow turn operation c.(cand_Command) c.(cand_Mode) in
    guard! attemptMatchesFence replayed.(cres_Attempt) c.(cand_Command).(commit_Fence) else ErrOperationConflict;;
    Ok replayed
  end.

(** ** A new commit *)

Definition withUsage (e : SettlementUsageEvidence) (providerCount : Z) : SettlementUsageEvidence :=
  mkSettlementUsageEvidence e.(ue_PriorOperationCount) e.(ue_PriorEffectCount) providerCount
    e.(ue_CurrentEffectCount).

(** Whether the commit opens a Review, and on what evidence. *)
Definition commitReviewEvidence (mode : operationTerminalizationMode) (s : nat → settlementState)
    (db : Database) (turn : Turn) (normalized : CommitAttemptCommand)
    : result (option (SettlementUsageEvidence * SettlementReviewSource)) :=
  let inspected := inspectAmbiguousRelease db turn.(turn_ID) (Z.of_nat (length normalized.(commit_Effects))) in
  match mode with
  | operationTerminalizationProviderUsageReview =>
    try! evidence := inspected in
    Ok (Some (withUsage evidence (countProviderUsageJournalTx db turn.(turn_ID)),
              if bool_decide (normalized.(commit_TerminalStatus) = TurnStatusCompleted)
              then SettlementReviewSourceExecutorCompletion else SettlementReviewSourceExecutorTerminal))
  | operationTerminalizationCompletedUsageReview =>
    try! evidence := inspected in
    Ok (Some (evidence, SettlementReviewSourceExecutorCompletion))
  | operationTerminalizationLegacy =>
    if hasSettlementAuthority (s 3%nat) && command_releases normalized then
      try! evidence := inspected in
      if ambiguous evidence then
        guard! bool_decide (is_Some (reviewAuthority (s 4%nat))) else ErrSettlementUsageUnknown;;
        Ok (Some (evidence, SettlementReviewSourceExecutor))
      else Ok None
    else Ok None
  end.

Definition finishedTurn (turn : Turn) (status : TurnStatus) (now : time) : Turn :=
  {| turn_ID := turn.(turn_ID); turn_PrincipalID := turn.(turn_PrincipalID);
     turn_ThreadID := turn.(turn_ThreadID); turn_IdempotencyKey := turn.(turn_IdempotencyKey);
     turn_CommandDigest := turn.(turn_CommandDigest); turn_Plugin := turn.(turn_Plugin);
     turn_Status := status; turn_CancelRequestedAt := turn.(turn_CancelRequestedAt);
     turn_CreatedAt := turn.(turn_CreatedAt); turn_UpdatedAt := now;
     turn_StartedAt := turn.(turn_StartedAt); turn_FinishedAt := Some now |}.

Definition committedAttempt (a : TurnAttempt) (terminal : TurnStatus) (now : time) : TurnAttempt :=
  let over := negb (bool_decide (terminal = "")) in
  mkTurnAttempt a.(att_ID) a.(att_TurnID) a.(att_FencingToken)
    (if over then attemptStatusForTurn terminal else a.(att_Status)) a.(att_WorkerID)
    a.(att_WorkerBuildDigest) a.(att_LeaseExpiresAt) a.(att_ClaimedAt) a.(att_LastHeartbeatAt)
    (if over then Some now else a.(att_FinishedAt)) a.(att_CreatedAt) now.

Definition commitReviewRecord (mode : operationTerminalizationMode) (nextTurn : Turn)
    (nextAttempt : TurnAttempt) (operationID : string)
    (review : option (SettlementUsageEvidence * SettlementReviewSource)) (now : time)
    : result (option SettlementReviewRecord) :=
  match review with
  | None => Ok None
  | Some (evidence, source) =>
    let build := if bool_decide (mode = operationTerminalizationProviderUsageReview)
                 then buildProviderSettlementReviewRecord else buildSettlementReviewRecord in
    try! record := build nextTurn nextTurn.(turn_Status) source nextAttempt.(att_ID)
                     nextAttempt.(att_FencingToken) operationID
                     (settlementKey nextTurn.(turn_ID) operationID) evidence now in
    Ok (Some record)
  end.

(** The Turn after the commit, the Review it opens and the event it appends. *)
Definition commitNext (mode : operationTerminalizationMode) (turn : Turn) (nextAttempt : TurnAttempt)
    (normalized : CommitAttemptCommand) (review : option (SettlementUsageEvidence * SettlementReviewSource))
    (now : time) : result (Turn * option SettlementReviewRecord * EventDraft) :=
  let terminal := normalized.(commit_TerminalStatus) in
  if bool_decide (terminal = "") then
    match normalized.(commit_Event) with
    | None => Err ErrStoreIntegrity
    | Some draft => Ok (turn, None, draft)
    end
  else
    guard! CanTransition turn.(turn_Status) terminal else transitionError turn.(turn_Status) terminal;;
    guard! negb (bool_decide (terminal = TurnStatusStopped)
                 && bool_decide (turn.(turn_CancelRequestedAt) = None)) else ErrCancellationNotRequested;;
    let nextTurn := finishedTurn turn terminal now in
    try! pending := commitReviewRecord mode nextTurn nextAttempt normalized.(commit_OperationID) review now in
    try! draft := statusEventWithSettlementReview terminal (bool_decide (terminal = TurnStatusStopped)) pending in
    Ok (nextTurn, pending, draft).

(** The unique key of the receipts. *)
Definition insertOperation (db : Database) (row : sqlTurnOperationRow) : result Database :=
  guard! bool_decide (lookupOperationTx db row.(or_TurnID) row.(or_OperationID) = None) else driverError;;
  Ok (set_operations db (db.(db_operations) ++ [row])).

Fixpoint insertEffects (attempt : TurnAttempt) (operationID : string) (now : time) (ordinal : Z)
    (effects : list EffectOutboxDraft) (db : Database) : result (list EffectOutboxRecord * Database) :=
  match effects with
  | [] => Ok ([], db)
  | effect :: rest =>
    try! built := buildEffectOutboxRow attempt operationID ordinal effect now as ErrStoreIntegrity in
    try! db := insertEffect db (fst built) in
    try! more := insertEffects attempt operationID now (ordinal + 1) rest db in
    Ok (snd built :: fst more, snd more)
  end.

Definition heldRecord (r : EffectOutboxRecord) : EffectOutboxRecord :=
  mkEffectOutboxRecord r.(erec_OutboxID) r.(erec_TurnID) r.(erec_AttemptID) r.(erec_FencingToken)
    r.(erec_OperationID) r.(erec_Ordinal) r.(erec_Topic) r.(erec_DedupeKey) r.(erec_Payload)
    EffectStatusReviewHold r.(erec_AvailableAt).

(** The holds of a pending Review and the time it opens. *)
Definition holdForReview (db : Database) (turnID : TurnID) (pending : option SettlementReviewRecord)
    (now : time) (reopened : result time) : result (time * Database) :=
  match pending with
  | None => Ok (now, db)
  | Some _ =>
    try! openedAt := executionNow reopened in
    Ok (openedAt, holdTurnEffectsForReview db turnID now)
  end.

Definition committedTurnColumns (terminal : TurnStatus) (sequence : Z) (now : time) (r : sqlTurnRow)
    : sqlTurnRow :=
  let over := negb (bool_decide (terminal = "")) in
  {| tr_ID := r.(tr_ID); tr_TurnID := r.(tr_TurnID); tr_PrincipalID := r.(tr_PrincipalID);
     tr_ThreadID := r.(tr_ThreadID); tr_IdempotencyKey := r.(tr_IdempotencyKey);
     tr_CommandDigest := r.(tr_CommandDigest); tr_PluginSnapshotJSON := r.(tr_PluginSnapshotJSON);
     tr_Status := if over then terminal else r.(tr_Status);
     tr_LastEventSequence := sequence;
     tr_ActiveAttemptID := if over then None else r.(tr_ActiveAttemptID);
     tr_FencingToken := r.(tr_FencingToken); tr_CancelRequestedAt := r.(tr_CancelRequestedAt);
     tr_StartedAt := r.(tr_StartedAt);
     tr_FinishedAt := if over then Some now else r.(tr_FinishedAt);
     tr_CreatedAt := r.(tr_CreatedAt); tr_UpdatedAt := if over then now else r.(tr_UpdatedAt) |}.

Definition committedAttemptColumns (terminal : TurnStatus) (now : time) (r : sqlTurnAttemptRow)
    : sqlTurnAttemptRow :=
  let over := negb (bool_decide (terminal = "")) in
  {| ar_ID := r.(ar_ID); ar_AttemptID := r.(ar_AttemptID); ar_TurnID := r.(ar_TurnID);
     ar_FencingToken := r.(ar_FencingToken);
     ar_Status := if over then attemptStatusForTurn terminal else r.(ar_Status);
     ar_WorkerID := r.(ar_WorkerID); ar_WorkerBuildDigest := r.(ar_WorkerBuildDigest);
     ar_ClaimedAt := r.(ar_ClaimedAt); ar_LastHeartbeatAt := r.(ar_LastHeartbeatAt);
     ar_LeaseExpiresAt := r.(ar_LeaseExpiresAt);
     ar_FinishedAt := if over then Some now else r.(ar_FinishedAt);
     ar_CreatedAt := r.(ar_CreatedAt); ar_UpdatedAt := now |}.

Definition commitSettlementCommand (turn : Turn) (normalized : CommitAttemptCommand) : SettlementCommand :=
  let request := resolvedSettlement turn.(turn_Status) normalized.(commit_Settlement) in
  mkSettlementCommand turn.(turn_ID) turn.(turn_PrincipalID)
    (settlementKey turn.(turn_ID) normalized.(commit_OperationID)) SettlementAuthorizationOperation
    normalized.(commit_Fence).(fence_AttemptID) normalized.(commit_Fence).(fence_FencingToken)
    normalized.(commit_OperationID) request.(sreq_Intent) turn.(turn_Status) request.(sreq_UsedUnits).

(** The commercial outcome of a terminal commit. *)
Definition commitSettlement (mode : operationTerminalizationMode) (s : nat → settlementState)
    (db : Database) (nextTurn : Turn) (normalized : CommitAttemptCommand)
    (pending : option SettlementReviewRecord) (openedAt : time)
    : result (option SettlementReviewRecord * Database) :=
  if bool_decide (normalized.(commit_TerminalStatus) = "") then Ok (None, db)
  else match pending with
       | Some review =>
         let review := with_review_times review openedAt openedAt in
         try! db := (if bool_decide (mode = operationTerminalizationProviderUsageReview) then
                       try! authority := settlementReviewProviderUsageAuthorityLocked (s 2%nat) in
                       persistSettlementReviewWithAuthority db nextTurn review authority
                     else persistSettlementReview (s 5%nat) db nextTurn review) in
         Ok (Some review, db)
       | None =>
         try! db := settle (s 5%nat) db (commitSettlementCommand nextTurn normalized) in
         Ok (None, db)
       end.

(** The guards of a new commit: the Attempt it works for. *)
Definition commitAttemptRow (turnRow : sqlTurnRow) (turn : Turn) (fence : AttemptFence)
    (found : result sqlTurnAttemptRow) : result (sqlTurnAttemptRow * TurnAttempt) :=
  try! attemptRow := found as ErrAttemptFenced in
  guard! rowOwnsFence turnRow fence && negb (TurnStatus_Terminal turn.(turn_Status)) else ErrAttemptFenced;;
  try! attempt := toAttempt attemptRow as ErrStoreIntegrity in
  guard! attemptMatchesFence attempt fence && bool_decide (attempt.(att_Status) = AttemptStatusRunning)
    else ErrAttemptFenced;;
  Ok (attemptRow, attempt).

Definition commitNow (turn : Turn) (attempt : TurnAttempt) (terminal : TurnStatus) (clock : result time)
    : result time :=
  try! now := executionNow clock in
  guard! After attempt.(att_LeaseExpiresAt) now else ErrAttemptLeaseExpired;;
  guard! negb (Before now attempt.(att_LastHeartbeatAt)) else ErrStoreIntegrity;;
  guard! negb (bool_decide (is_Some turn.(turn_CancelRequestedAt))
               && negb (bool_decide (terminal = TurnStatusStopped))) else ErrAttemptCancelled;;
  Ok now.

Definition operationRow (db : Database) (turn : Turn) (attempt : TurnAttempt) (plan : commitPlan)
    (sequence : Sequence) (now : time) : sqlTurnOperationRow :=
  let normalized := plan.(plan_primary).(cand_Command) in
  {| or_ID := next_id or_ID db.(db_operations); or_TurnID := turn.(turn_ID);
     or_OperationID := normalized.(commit_OperationID);
     or_OperationDigest := plan.(plan_primary).(cand_Digest); or_AttemptID := attempt.(att_ID);
     or_FencingToken := i64 attempt.(att_FencingToken); or_EventSequence := i64 sequence;
     or_TurnStatus := turn.(turn_Status);
     or_EffectCount := Z.of_nat (length normalized.(commit_Effects)); or_CreatedAt := now |}.

(** The writes of a new commit, in order. *)
Definition commitWrites (plan : commitPlan) (s : nat → settlementState) (reopened : result time)
    (db : Database) (turnRow : sqlTurnRow) (attemptRow : sqlTurnAttemptRow)
    (nextTurn : Turn) (nextAttempt : TurnAttempt) (pending : option SettlementReviewRecord)
    (draft : EventDraft) (now : time) : result (CommitAttemptResult * Database) :=
  let normalized := plan.(plan_primary).(cand_Command) in
  let terminal := normalized.(commit_TerminalStatus) in
  check! Turn_Validate nextTurn as ErrStoreIntegrity;;
  check! TurnAttempt_Validate nextAttempt as ErrStoreIntegrity;;
  try! sequence := nextSQLSequence turnRow.(tr_LastEventSequence) in
  try! event := buildEvent nextTurn sequence draft in
  try! db := insertEvent db event now in
  let operation := operationRow db nextTurn nextAttempt plan event.(ev_Sequence) now in
  check! validateOperationRow operation as ErrStoreIntegrity;;
  try! db := insertOperation db operation in
  try! inserted := insertEffects nextAttempt normalized.(commit_OperationID) now 0 normalized.(commit_Effects) db in
  try! held := holdForReview (snd inserted) nextTurn.(turn_ID) pending now reopened in
  let db := updateAttemptColumns (snd held) attemptRow.(ar_ID) (committedAttemptColumns terminal now) in
  try! db := updateTurnColumns db nextTurn.(turn_ID)
               (committedTurnColumns terminal (i64 event.(ev_Sequence)) now) in
  try! settled := commitSettlement plan.(plan_mode) s db nextTurn normalized pending (fst held) in
  let effects := if bool_decide (is_Some pending) then map heldRecord (fst inserted) else fst inserted in
  Ok (mkCommitAttemptResult normalized.(commit_OperationID) plan.(plan_primary).(cand_Digest) event nextTurn
        nextAttempt nextTurn.(turn_Status) effects (fst settled) false, snd settled).

Definition commitAttemptBody (plan : commitPlan) (s : nat → settlementState) (clock reopened : result time)
    (db : Database) : result (CommitAttemptResult * Database) :=
  let normalized := plan.(plan_primary).(cand_Command) in
  let fence := normalized.(commit_Fence) in
  try! turnRow := lockTurn db (turn_is fence.(fence_TurnID)) in
  try! turn := toTurn turnRow as ErrStoreIntegrity in
  check! (if bool_decide (plan.(plan_mode) = operationTerminalizationProviderUsageReview)
          then match settlementReviewProviderUsageAuthorityLocked (s 2%nat) with
               | Ok _ => None | Err e => Some e
               end
          else None);;
  let found := lockAttempt db fence.(fence_TurnID) fence.(fence_AttemptID) (i64 fence.(fence_FencingToken)) in
  match lookupOperationTx db fence.(fence_TurnID) normalized.(commit_OperationID) with
  | Some operation =>
    try! replayed := replayOperation (s 6%nat) db turnRow turn operation plan in
    Ok (replayed, db)
  | None =>
    guard! negb plan.(plan_untrusted) else ErrSettlementCompletedUsageUntrusted;;
    try! owned := commitAttemptRow turnRow turn fence found in
    try! now := commitNow turn (snd owned) normalized.(commit_TerminalStatus) clock in
    try! review := commitReviewEvidence plan.(plan_mode) s db turn normalized in
    let nextAttempt := committedAttempt (snd owned) normalized.(commit_TerminalStatus) now in
    try! next := commitNext plan.(plan_mode) turn nextAttempt normalized review now in
    commitWrites plan s reopened db turnRow (fst owned) (fst (fst next)) nextAttempt (snd (fst next))
      (snd next) now
  end.

(** ** The call *)

(** [resolveOperation]: [None] when there is no receipt. *)
Definition resolveOperation (s : settlementState) (plan : commitPlan) (db : Database)
    : result (option CommitAttemptResult) :=
  let command := plan.(plan_primary).(cand_Command) in
  try! turnRow := lockTurn db (turn_is command.(commit_Fence).(fence_TurnID)) in
  try! turn := toTurn turnRow as ErrStoreIntegrity in
  match lookupOperationTx db command.(commit_Fence).(fence_TurnID) command.(commit_OperationID) with
  | None => Ok None
  | Some operation =>
    try! replayed := replayOperation s db turnRow turn operation plan in
    Ok (Some replayed)
  end.

(** What a call meets: its context, the settlement state at each read, the two
    clock readings of its transaction, how that ends, and what others commit
    before each read that follows a failure. *)
Record commitEnv := mkCommitEnv {
  cme_ctx : context;
  cme_settlement : nat → settlementState;
  cme_clock : result time;
  cme_reopened : result time;
  cme_outcome : txOutcome;
  cme_between : nat → Database → Database
}.

(** After a failed transaction. *)
Definition commitFailed (env : commitEnv) (plan : commitPlan) (txErr : error)
    : op Database CommitAttemptResult := fun db =>
  let db := env.(cme_between) 0%nat db in
  match env.(cme_ctx) 3%nat with
  | Some e => (Err e, db)
  | None =>
    match resolveOperation (env.(cme_settlement) 7%nat) plan db with
    | Err e => (Err (normalize e), db)
    | Ok (Some replay) => (Ok replay, db)
    | Ok None =>
      let classified := normalize txErr in
      match classified with
      | ErrStoreUnavailable =>
        let db := env.(cme_between) 1%nat db in
        if detectEffectConflict db plan.(plan_primary).(cand_Command).(commit_Effects)
        then (Err ErrEffectConflict, db) else (Err classified, db)
      | _ => (Err classified, db)
      end
    end
  end.

Definition CommitAttempt (cfg : SQLStoreConfig) (env : commitEnv) (command : CommitAttemptCommand)
    : op Database CommitAttemptResult := fun db =>
  match first_error [env.(cme_ctx) 0%nat; CommitAttemptCommand_Validate command] with
  | Some e => (Err e, db)
  | None =>
    match planCommit env.(cme_settlement) command with
    | Err e => (Err e, db)
    | Ok plan =>
      match writeTransaction cfg env.(cme_ctx) env.(cme_outcome)
              (commitAttemptBody plan env.(cme_settlement) env.(cme_clock) env.(cme_reopened)) db with
      | (Ok r, db') => (Ok r, db')
      | (Err txErr, db') => commitFailed env plan txErr db'
      end
    end
  end.
