(* ===== verification/Reconcile.v ===== *)
(** * Retiring a Turn without an executor: reconcile.go [ReconcileTerminal]

    The reason of the command is a precondition that is derived again under the
    Turn lock.  The transaction bumps the fence, expires the lapsed Attempt,
    appends the terminal event and releases the reservation, or opens a Review
    when the released amount could not be proved. *)

From S2P Require Import Prelude GoText GoJson GoJsonValue GoDigest AgentContract TurnTypes MemoryStore TurnService ExecutionTypes Settlement ProviderUsage SettlementUsage SqlDatabase SqlStore SqlExecution EffectOutbox SettlementAuthority SettlementTables CommitCommand SqlCommit.

Record ReconcileResult := mkReconcileResult {
  rec_Turn : Turn;
  rec_Event : option EventEnvelope;
  rec_TerminalStatus : TurnStatus;
  rec_Changed : bool;
  rec_FencedAttemptID : string;
  rec_SettlementReview : option SettlementReviewRecord
}.

(** ** Preconditions *)

Definition verifyReconcilePrecondition (reason : ReclaimReason) (row : sqlTurnRow) (hasExpiredAttempt : bool)
    (budget : Z) : validation :=
  let active := bool_decide (is_Some row.(tr_ActiveAttemptID)) in
  let cancelled := bool_decide (is_Some row.(tr_CancelRequestedAt)) in
  let started := bool_decide (is_Some row.(tr_StartedAt)) in
  if active && negb hasExpiredAttempt then Some ErrReconcilePrecondition
  else if bool_decide (reason = ReclaimReasonCancellationPending) then
    when (negb cancelled) ErrReconcilePrecondition
  else if bool_decide (reason = ReclaimReasonAttemptsExhausted) then
    when (cancelled || (row.(tr_FencingToken) <? budget)) ErrReconcilePrecondition
  else if bool_decide (reason = ReclaimReasonReservationExpired) then
    if cancelled then Some ErrReconcilePrecondition
    else if bool_decide (row.(tr_Status) = TurnStatusQueued) then
      when (active || negb (row.(tr_FencingToken) =? 0) || started) ErrStoreIntegrity
    else if bool_decide (row.(tr_Status) = TurnStatusRunning) then
      when (negb active || negb hasExpiredAttempt || (row.(tr_FencingToken) <? 1) || negb started)
        ErrReconcilePrecondition
    else Some ErrReconcilePrecondition
  else Some ErrReconcilePrecondition.

Definition expiredActiveAttempt (db : Database) (row : sqlTurnRow) (now : time)
    : result (option sqlTurnAttemptRow) :=
  match row.(tr_ActiveAttemptID) with
  | None => Ok None
  | Some active =>
    try! attempt := lockAttempt db row.(tr_TurnID) active row.(tr_FencingToken) in
    guard! bool_decide (attempt.(ar_Status) = AttemptStatusRunning) else ErrStoreIntegrity;;
    Ok (if After attempt.(ar_LeaseExpiresAt) now then None else Some attempt)
  end.

(** reservation_admission.go [verifyExpiredTurnReservationLocked]. *)
Definition verifyExpiredTurnReservationLocked (s : settlementState) (db : Database) (turn : Turn) : validation :=
  match s.(ss_settlement) with
  | None => Some ErrReconcilePrecondition
  | Some authority =>
    match authority.(sa_VerifyExpiredTurnReservation) with
    | None => Some ErrReconcilePrecondition
    | Some verify => if s.(ss_violated) then Some ErrSettlementBindingInvalid else verify db turn
    end
  end.

(** ** The terminal event *)

Definition reconcileEvent (reason : ReclaimReason) (terminal : TurnStatus)
    (review : option SettlementReviewRecord) : result EventDraft :=
  let nonempty name value := if bool_decide (value = "") then [] else [json_field name (marshal_string value)] in
  check! match review with
         | None => None
         | Some r => when (negb (bool_decide (r.(rv_Source) ∈ [SettlementReviewSourceReconcile;
                                                               SettlementReviewSourceReconcileTerminal]))
                           || negb (bool_decide (r.(rv_TerminalStatus) = terminal))) ErrStoreIntegrity
         end;;
  let draft := mkEventDraft EventCoreTurnStatus []
    (json_object
       ([json_field "status" (marshal_string terminal)]
        ++ (if bool_decide (terminal = TurnStatusStopped) then [json_field "cancellationRequested" "true"] else [])
        ++ [json_field "reconciled" "true"] ++ nonempty "reason" reason
        ++ match review with
           | None => []
           | Some r => nonempty "settlementReviewId" r.(rv_ReviewID)
                       ++ nonempty "settlementReviewDigest" r.(rv_RequestDigest)
           end)) in
  check! EventDraft_Validate draft;;
  Ok draft.

Record reconcileEventData := mkReconcileEventData {
  red_Status : TurnStatus;
  red_CancellationRequested : bool;
  red_Reconciled : bool;
  red_Reason : ReclaimReason;
  red_SettlementReviewID : string;
  red_SettlementReviewDigest : string
}.

(** [json.Unmarshal] into the payload. *)
Definition unmarshalReconcileEvent (data : string) : option reconcileEventData :=
  members ← unmarshal_object data;
  status ← string_member "status" members;
  cancelled ← bool_member "cancellationRequested" members;
  reconciled ← bool_member "reconciled" members;
  reason ← string_member "reason" members;
  reviewID ← string_member "settlementReviewId" members;
  digest ← string_member "settlementReviewDigest" members;
  Some (mkReconcileEventData status cancelled reconciled reason reviewID digest).

Definition turn_last_event (db : Database) (row : sqlTurnRow) : option sqlTurnEventRow :=
  select_one (fun e => bool_decide (e.(er_TurnID) = row.(tr_TurnID))
                       && (e.(er_Sequence) =? row.(tr_LastEventSequence))) db.(db_events).

(** Whether a reconciler wrote the terminal event, and the Review it names. *)
Definition terminalSettlementReviewMarkerTx (db : Database) (turnRow : sqlTurnRow) (turn : Turn)
    : result (bool * string * string) :=
  guard! TurnStatus_Terminal turn.(turn_Status) && negb (turnRow.(tr_LastEventSequence) <? 1)
    else ErrStoreIntegrity;;
  match turn_last_event db turnRow with
  | None => Err ErrStoreIntegrity
  | Some row =>
    try! event := toEnvelope turn row as ErrStoreIntegrity in
    guard! bool_decide (event.(ev_Type) = EventCoreTurnStatus) else ErrStoreIntegrity;;
    match unmarshalReconcileEvent event.(ev_Data) with
    | None => Err ErrStoreIntegrity
    | Some payload =>
      guard! bool_decide (payload.(red_Status) = turn.(turn_Status)) else ErrStoreIntegrity;;
      let id := payload.(red_SettlementReviewID) in
      let digest := payload.(red_SettlementReviewDigest) in
      guard! (if payload.(red_Reconciled)
              then bool_decide (ReclaimReason_TerminalStatus payload.(red_Reason) = Some turn.(turn_Status))
              else bool_decide (payload.(red_Reason) = "")) else ErrStoreIntegrity;;
      guard! Bool.eqb (bool_decide (id = "")) (bool_decide (digest = "")) else ErrStoreIntegrity;;
      guard! bool_decide (id = "")
             || bool_decide (validatePrintableASCII id MaxSettlementReviewIDBytes = None)
                && bool_decide (validatePrintableASCII digest MaxSettlementReviewDigestBytes = None)
        else ErrStoreIntegrity;;
      Ok (payload.(red_Reconciled), id, digest)
    end
  end.

(** ** A Turn that is already over *)

Definition reconcileFinished (db : Database) (row : sqlTurnRow) (turn : Turn) : result ReconcileResult :=
  try! marker := terminalSettlementReviewMarkerTx db row turn in
  let '(reconciled, markerID, markerDigest) := marker in
  try! found := lookupSettlementReviewTx db turn.(turn_ID) in
  let answer review := mkReconcileResult turn None turn.(turn_Status) false "" review in
  match found with
  | Some review =>
    check! validateTerminalSettlementReviewTx db row turn review;;
    guard! SettlementReviewSource_Valid review.(rv_Source)
           && Bool.eqb reconciled (negb (SettlementReviewSource_executor review.(rv_Source)))
           && bool_decide (markerID = review.(rv_ReviewID))
           && bool_decide (markerDigest = review.(rv_RequestDigest)) else ErrStoreIntegrity;;
    Ok (answer (Some review))
  | None =>
    guard! bool_decide (markerID = "") && bool_decide (markerDigest = "") else ErrStoreIntegrity;;
    guard! count_rows (fun r => bool_decide (r.(fx_TurnID) = turn.(turn_ID))
                                && bool_decide (r.(fx_Status) = EffectStatusReviewHold)) db.(db_effects) =? 0
      else ErrStoreIntegrity;;
    Ok (answer None)
  end.

(** ** Retiring *)

(** The evidence that keeps a retirement from being a plain release. *)
Definition reconcileEvidence (provider : bool) (s : nat → settlementState) (db : Database) (turn : Turn)
    : result (option SettlementUsageEvidence) :=
  if provider then
    try! evidence := inspectAmbiguousRelease db turn.(turn_ID) 0 in
    Ok (Some (withUsage evidence (countProviderUsageJournalTx db turn.(turn_ID))))
  else if hasSettlementAuthority (s 3%nat) then
    try! evidence := inspectAmbiguousRelease db turn.(turn_ID) 0 in
    if ambiguous evidence then
      guard! bool_decide (is_Some (reviewAuthority (s 4%nat))) else ErrSettlementUsageUnknown;;
      Ok (Some evidence)
    else Ok None
  else Ok None.

Definition reconcileReview (provider : bool) (next : Turn) (fence : Sequence)
    (evidence : option SettlementUsageEvidence) (now : time) : result (option SettlementReviewRecord) :=
  match evidence with
  | None => Ok None
  | Some e =>
    let key := reconcileSettlementKey next.(turn_ID) fence in
    try! review :=
      (if provider
       then buildProviderSettlementReviewRecord next next.(turn_Status) SettlementReviewSourceReconcileTerminal
              "" fence "" key e now
       else buildSettlementReviewRecord next next.(turn_Status) SettlementReviewSourceReconcile
              "" fence "" key e now) in
    Ok (Some review)
  end.

Definition retiredColumns (terminal : TurnStatus) (fence : Sequence) (sequence : Z) (now : time)
    (r : sqlTurnRow) : sqlTurnRow :=
  {| tr_ID := r.(tr_ID); tr_TurnID := r.(tr_TurnID); tr_PrincipalID := r.(tr_PrincipalID);
     tr_ThreadID := r.(tr_ThreadID); tr_IdempotencyKey := r.(tr_IdempotencyKey);
     tr_CommandDigest := r.(tr_CommandDigest); tr_PluginSnapshotJSON := r.(tr_PluginSnapshotJSON);
     tr_Status := terminal; tr_LastEventSequence := sequence; tr_ActiveAttemptID := None;
     tr_FencingToken := i64 fence; tr_CancelRequestedAt := r.(tr_CancelRequestedAt);
     tr_StartedAt := r.(tr_StartedAt); tr_FinishedAt := Some now;
     tr_CreatedAt := r.(tr_CreatedAt); tr_UpdatedAt := now |}.

Definition reconcileSettlementCommand (next : Turn) (fence : Sequence) : SettlementCommand :=
  mkSettlementCommand next.(turn_ID) next.(turn_PrincipalID) (reconcileSettlementKey next.(turn_ID) fence)
    SettlementAuthorizationReconcile "" fence "" SettlementIntentRelease next.(turn_Status) 0.

Definition reconcileSettlement (provider : bool) (s : nat → settlementState) (db : Database) (next : Turn)
    (fence : Sequence) (pending : option SettlementReviewRecord) (openedAt : time)
    : result (option SettlementReviewRecord * Database) :=
  match pending with
  | Some review =>
    let review := with_review_times review openedAt openedAt in
    try! db := (if provider then
                  try! authority := settlementReviewProviderUsageAuthorityLocked (s 2%nat) in
                  persistSettlementReviewWithAuthority db next review authority
                else persistSettlementReview (s 5%nat) db next review) in
    Ok (Some review, db)
  | None =>
    try! db := settle (s 5%nat) db (reconcileSettlementCommand next fence) in
    Ok (None, db)
  end.

(** The guards of a retirement: the lapsed Attempt, if there is one. *)
Definition reconcileGuards (cfg : SQLStoreConfig) (provider : bool) (s : nat → settlementState)
    (reason : ReclaimReason) (terminal : TurnStatus) (db : Database) (row : sqlTurnRow) (turn : Turn)
    (now : time) : result (option sqlTurnAttemptRow) :=
  try! budget := turnAttemptBudget cfg in
  try! expired := expiredActiveAttempt db row now in
  check! verifyReconcilePrecondition reason row (bool_decide (is_Some expired)) budget;;
  check! (if bool_decide (reason = ReclaimReasonReservationExpired)
          then verifyExpiredTurnReservationLocked (s (if provider then 2 else 8)%nat) db turn else None);;
  guard! CanTransition turn.(turn_Status) terminal else transitionError turn.(turn_Status) terminal;;
  guard! negb (bool_decide (terminal = TurnStatusStopped)
               && bool_decide (turn.(turn_CancelRequestedAt) = None)) else ErrCancellationNotRequested;;
  Ok expired.

(** The writes of a retirement, in order. *)
Definition reconcileWrites (provider : bool) (s : nat → settlementState) (reason : ReclaimReason)
    (reopened : result time) (db : Database) (row : sqlTurnRow) (next : Turn)
    (expired : option sqlTurnAttemptRow) (fence : Sequence) (pending : option SettlementReviewRecord)
    (now : time) : result (ReconcileResult * Database) :=
  let db := expireAttempt db expired now in
  try! sequence := nextSQLSequence row.(tr_LastEventSequence) in
  try! draft := reconcileEvent reason next.(turn_Status) pending in
  try! event := buildEvent next sequence draft in
  try! db := insertEvent db event now in
  try! db := updateTurnColumns db next.(turn_ID)
               (retiredColumns next.(turn_Status) fence (i64 sequence) now) in
  try! held := holdForReview db next.(turn_ID) pending now reopened in
  try! settled := reconcileSettlement provider s (snd held) next fence pending (fst held) in
  Ok (mkReconcileResult next (Some event) next.(turn_Status) true
        (default "" (ar_AttemptID <$> expired)) (fst settled), snd settled).

Definition reconcileTerminalBody (cfg : SQLStoreConfig) (provider : bool) (s : nat → settlementState)
    (clock reopened : result time) (command : ReconcileCommand) (terminal : TurnStatus) (db : Database)
    : result (ReconcileResult * Database) :=
  try! row := lockTurn db (turn_is command.(rcmd_TurnID)) in
  try! turn := toTurn row as ErrStoreIntegrity in
  check! (if provider
          then match settlementReviewProviderUsageAuthorityLocked (s 2%nat) with
               | Ok _ => None | Err e => Some e
               end
          else None);;
  if TurnStatus_Terminal turn.(turn_Status) then
    try! answer := reconcileFinished db row turn in
    Ok (answer, db)
  else
    try! now := executionNow clock in
    try! expired := reconcileGuards cfg provider s command.(rcmd_Reason) terminal db row turn now in
    try! evidence := reconcileEvidence provider s db turn in
    try! fence := nextExecutionFence row.(tr_FencingToken) in
    let next := finishedTurn turn terminal now in
    guard! negb (bool_decide (next.(turn_StartedAt) = None)
                 && bool_decide (turn.(turn_Status) = TurnStatusRunning)) else ErrStoreIntegrity;;
    check! Turn_Validate next as ErrStoreIntegrity;;
    try! pending := reconcileReview provider next fence evidence now in
    reconcileWrites provider s command.(rcmd_Reason) reopened db row next expired fence pending now.

Definition ReconcileTerminal (cfg : SQLStoreConfig) (env : commitEnv) (command : ReconcileCommand)
    : op Database ReconcileResult := fun db =>
  match first_error [env.(cme_ctx) 0%nat; ReconcileCommand_Validate command] with
  | Some e => (Err e, db)
  | None =>
    match ReclaimReason_TerminalStatus command.(rcmd_Reason) with
    | None => (Err (ErrText "reconcile reason has no terminal status"), db)
    | Some terminal =>
      match providerUsageTerminalization (env.(cme_settlement) 0%nat) terminal with
      | Err e => (Err e, db)
      | Ok terminalization =>
        match writeTransaction cfg env.(cme_ctx) env.(cme_outcome)
                (reconcileTerminalBody cfg (bool_decide (is_Some terminalization)) env.(cme_settlement)
                   env.(cme_clock) env.(cme_reopened) command terminal) db with
        | (Ok r, db') => (Ok r, db')
        | (Err e, db') => (Err (normalize e), db')
        end
      end
    end
  end.
