(* ===== verification/EpochFacts.v ===== *)
(** * Epochs and the log under single transactions

    What every transaction of the Turn store and of the execution store writes:
    how it moves the epoch columns, how it keeps the event log, and the
    invariant [exec_ok] that ties every Attempt to its Turn.
    SqlExecutionFacts.v runs them. *)

From S2P Require Import Prelude GoText GoJson AgentContract TurnTypes MemoryStore TurnService ExecutionTypes SqlDatabase SqlFacts SqlStore SqlExecution.

(** ** Epoch columns *)

(** Both rows name the same Turn in the same epoch. *)
Definition same_epoch (r r' : sqlTurnRow) : Prop :=
  r'.(tr_TurnID) = r.(tr_TurnID) ∧ r'.(tr_ActiveAttemptID) = r.(tr_ActiveAttemptID)
  ∧ r'.(tr_FencingToken) = r.(tr_FencingToken).

(** The status may move while the Turn has never been claimed. *)
Definition turn_keeps (r r' : sqlTurnRow) : Prop :=
  same_epoch r r'
  ∧ (r'.(tr_Status) = r.(tr_Status)
     ∨ r.(tr_FencingToken) = 0 ∧ r.(tr_ActiveAttemptID) = None
       ∧ TurnStatus_Terminal r.(tr_Status) = false).

Definition same_attempt (a a' : sqlTurnAttemptRow) : Prop :=
  a'.(ar_ID) = a.(ar_ID) ∧ a'.(ar_AttemptID) = a.(ar_AttemptID) ∧ a'.(ar_TurnID) = a.(ar_TurnID)
  ∧ a'.(ar_FencingToken) = a.(ar_FencingToken).

Definition attempt_keeps (a a' : sqlTurnAttemptRow) : Prop :=
  same_attempt a a' ∧ a'.(ar_Status) = a.(ar_Status).

(** The running Attempts of one Turn. *)
Definition runs_turn (turnID : TurnID) (a : sqlTurnAttemptRow) : bool :=
  bool_decide (a.(ar_TurnID) = turnID) && bool_decide (a.(ar_Status) = AttemptStatusRunning).

(** What finishing a Turn does to its row and to its running Attempt. *)
Definition turn_retires (r r' : sqlTurnRow) : Prop :=
  r'.(tr_TurnID) = r.(tr_TurnID) ∧ r'.(tr_ActiveAttemptID) = None
  ∧ TurnStatus_Terminal r'.(tr_Status) = true
  ∧ r.(tr_FencingToken) ≤ r'.(tr_FencingToken) ≤ MaxDurableSequence.

Definition attempt_retires (a a' : sqlTurnAttemptRow) : Prop :=
  same_attempt a a' ∧ a'.(ar_Status) ≠ AttemptStatusRunning.

(** ** The event log *)

(** The columns of a Turn row that never change. *)
Definition same_identity (r r' : sqlTurnRow) : Prop :=
  r'.(tr_ID) = r.(tr_ID) ∧ r'.(tr_TurnID) = r.(tr_TurnID) ∧ r'.(tr_PrincipalID) = r.(tr_PrincipalID)
  ∧ r'.(tr_ThreadID) = r.(tr_ThreadID) ∧ r'.(tr_IdempotencyKey) = r.(tr_IdempotencyKey)
  ∧ r'.(tr_CommandDigest) = r.(tr_CommandDigest)
  ∧ r'.(tr_PluginSnapshotJSON) = r.(tr_PluginSnapshotJSON) ∧ r'.(tr_CreatedAt) = r.(tr_CreatedAt).

(** [e] is the next event of the Turn in [row], as the store builds it. *)
Definition next_event (db : Database) (row : sqlTurnRow) (last : Z) (e : sqlTurnEventRow) : Prop :=
  ∃ sequence turn draft event now,
    nextSQLSequence row.(tr_LastEventSequence) = Ok sequence ∧ last = i64 sequence
    ∧ turn.(turn_ID) = row.(tr_TurnID) ∧ buildEvent turn sequence draft = Ok event
    ∧ eventToSQLRow (next_id er_ID db.(db_events)) event now = Ok e
    ∧ existsb (event_key_taken e) db.(db_events) = false.

(** A transaction keeps the log if it leaves it alone or appends the next event
    of one Turn and records its position. *)
Inductive log_kept (db db' : Database) : Prop :=
| log_quiet :
    db'.(db_events) = db.(db_events) →
    Forall2 (λ r r', same_identity r r' ∧ r'.(tr_LastEventSequence) = r.(tr_LastEventSequence))
      db.(db_turns) db'.(db_turns) →
    log_kept db db'
| log_append row last e :
    row ∈ db.(db_turns) → next_event db row last e →
    db'.(db_events) = db.(db_events) ++ [e] →
    Forall2 (λ r r', same_identity r r'
                     ∧ r'.(tr_LastEventSequence)
                       = if turn_is row.(tr_TurnID) r then last else r.(tr_LastEventSequence))
      db.(db_turns) db'.(db_turns) →
    log_kept db db'.

(** ** The invariant *)

(** What a Turn row says about its epochs. *)
Definition turn_epochs_ok (attempts : list sqlTurnAttemptRow) (r : sqlTurnRow) : Prop :=
  0 ≤ r.(tr_FencingToken) ≤ MaxDurableSequence
  ∧ (r.(tr_Status) = TurnStatusQueued → r.(tr_FencingToken) = 0)
  ∧ match r.(tr_ActiveAttemptID) with
    | None => 0 < r.(tr_FencingToken) → TurnStatus_Terminal r.(tr_Status) = true
    | Some active =>
      r.(tr_Status) = TurnStatusRunning ∧ 0 < r.(tr_FencingToken)
      ∧ ∃ a, a ∈ attempts ∧ a.(ar_TurnID) = r.(tr_TurnID) ∧ a.(ar_AttemptID) = active
             ∧ a.(ar_FencingToken) = r.(tr_FencingToken) ∧ a.(ar_Status) = AttemptStatusRunning
    end.

(** What an Attempt row says about its Turn. *)
Definition attempt_epoch_ok (turns : list sqlTurnRow) (a : sqlTurnAttemptRow) : Prop :=
  1 ≤ a.(ar_FencingToken)
  ∧ ∃ r, r ∈ turns ∧ r.(tr_TurnID) = a.(ar_TurnID) ∧ a.(ar_FencingToken) ≤ r.(tr_FencingToken)
      ∧ (a.(ar_Status) = AttemptStatusRunning →
         r.(tr_ActiveAttemptID) = Some a.(ar_AttemptID) ∧ a.(ar_FencingToken) = r.(tr_FencingToken)).

Definition epoch_key (a : sqlTurnAttemptRow) : string * Z := (a.(ar_TurnID), a.(ar_FencingToken)).

Record exec_ok (db : Database) : Prop := {
  xo_turn_ids : NoDup (map tr_TurnID db.(db_turns));
  xo_attempt_pks : NoDup (map ar_ID db.(db_attempts));
  xo_attempt_ids : NoDup (map ar_AttemptID db.(db_attempts));
  xo_epochs : NoDup (map epoch_key db.(db_attempts));
  xo_turn : ∀ r, r ∈ db.(db_turns) → turn_epochs_ok db.(db_attempts) r;
  xo_attempt : ∀ a, a ∈ db.(db_attempts) → attempt_epoch_ok db.(db_turns) a
}.

(** ** Updates as maps *)

Lemma elem_of_map {A B} (f : A → B) (l : list A) y : y ∈ map f l ↔ ∃ x, y = f x ∧ x ∈ l.
Proof.
  rewrite list_elem_of_In, List.in_map_iff. setoid_rewrite list_elem_of_In. naive_solver.
Qed.

Lemma update_rows_map {A} (p : A → bool) (f : A → A) l :
  update_rows p f l = map (fun x => if p x then f x else x) l.
Proof. done. Qed.

Lemma NoDup_key_inj {A B} (k : A → B) (l : list A) x y :
  NoDup (map k l) → x ∈ l → y ∈ l → k x = k y → x = y.
Proof.
  induction l as [|z l IH]; simpl; [by intros _ ?%elem_of_nil|].
  intros [Hz Hl]%NoDup_cons [->|Hx]%elem_of_cons [->|Hy]%elem_of_cons Heq; [done| | |by apply IH].
  - destruct Hz. rewrite Heq. apply elem_of_map; eauto.
  - destruct Hz. rewrite <- Heq. apply elem_of_map; eauto.
Qed.

Lemma map_key_eq {A B} (k : A → B) (f : A → A) (l : list A) :
  (∀ x, x ∈ l → k (f x) = k x) → map k (map f l) = map k l.
Proof.
  intros H. rewrite map_map. apply List.map_ext_in. intros x Hx. by apply H, list_elem_of_In.
Qed.

(** A transaction that keeps every epoch keeps the invariant. *)
Lemma exec_ok_keep db f g db' :
  exec_ok db → db'.(db_turns) = map f db.(db_turns) → db'.(db_attempts) = map g db.(db_attempts) →
  (∀ r, r ∈ db.(db_turns) → turn_keeps r (f r)) →
  (∀ a, a ∈ db.(db_attempts) → attempt_keeps a (g a)) →
  exec_ok db'.
Proof.
  intros [Ht Hp Hi He Hturn Hatt] Ht' Ha' Hf Hg.
  split; rewrite ?Ht', ?Ha'.
  - rewrite map_key_eq; [done|]. intros r Hr. by apply Hf.
  - rewrite map_key_eq; [done|]. intros a Ha. by apply Hg.
  - rewrite map_key_eq; [done|]. intros a Ha. by apply Hg.
  - rewrite map_key_eq; [done|]. intros a Ha. unfold epoch_key.
    destruct (Hg a Ha) as [(_&_&->&->) _]. done.
  - intros r' (r&->&Hr)%elem_of_map. destruct (Hturn r Hr) as (Hrng&Hq&Hact).
    destruct (Hf r Hr) as [(Hid&Hac&Htok) Hst]. unfold turn_epochs_ok. rewrite Hac, Htok, Hid.
    split; [done|]. split; [intros Hqq; destruct Hst as [Hst|(?&_)]; [apply Hq; congruence|done]|].
    destruct (tr_ActiveAttemptID r) as [active|] eqn:Hactive.
    + destruct Hst as [Hst|(_&?&_)]; [|done]. rewrite Hst. destruct Hact as (?&?&a&Ha&?&?&?&?).
      split; [done|]. split; [done|]. exists (g a). split; [apply elem_of_map; eauto|].
      destruct (Hg a Ha) as [(_&->&->&->) ->]. done.
    + intros Hpos. destruct Hst as [Hst|(?&_)]; [rewrite Hst; auto|lia].
  - intros a' (a&->&Ha)%elem_of_map. destruct (Hatt a Ha) as (Hone&r&Hr&Hid&Hle&Hrun).
    destruct (Hg a Ha) as [(_&E2&E3&E4) E5]. destruct (Hf r Hr) as [(Hid'&Hac&Htok) _].
    unfold attempt_epoch_ok. rewrite E2, E3, E4, E5. split; [done|].
    exists (f r). split; [apply elem_of_map; eauto|]. rewrite Hid', Hac, Htok. done.
Qed.

(** ** What the transactions write *)

Lemma toTurn_inv row turn :
  toTurn row = Ok turn →
  turn.(turn_ID) = row.(tr_TurnID) ∧ turn.(turn_Status) = row.(tr_Status)
  ∧ turn.(turn_CancelRequestedAt) = row.(tr_CancelRequestedAt)
  ∧ row.(tr_PluginSnapshotJSON) = Some turn.(turn_Plugin)
  ∧ 0 ≤ row.(tr_FencingToken) ∧ (is_Some row.(tr_ActiveAttemptID) → 1 ≤ row.(tr_FencingToken))
  ∧ 1 ≤ row.(tr_LastEventSequence)
  ∧ turn.(turn_CreatedAt) = row.(tr_CreatedAt) ∧ turn.(turn_UpdatedAt) = row.(tr_UpdatedAt)
  ∧ turn.(turn_StartedAt) = row.(tr_StartedAt) ∧ turn.(turn_FinishedAt) = row.(tr_FinishedAt)
  ∧ Turn_Validate turn = None.
Proof.
  unfold toTurn. intros H. do 3 (destruct (negb _) eqn:? in H; [|done]).
  destruct (tr_PluginSnapshotJSON row) as [plugin|] eqn:Hpl in H; [|done].
  destruct (Turn_Validate _) eqn:? in H; [done|]. simplify_eq/=. bool_hyps.
  repeat (split; [done|]). split.
  { intros [a Ha]. rewrite holds_at_false in *.
    match goal with H : ∀ x, tr_ActiveAttemptID row = Some x → _ |- _ => specialize (H a Ha) end.
    bool_hyps. lia. }
  done.
Qed.

Lemma lockTurn_inv db p row :
  lockTurn db p = Ok row → row ∈ db.(db_turns) ∧ p row = true.
Proof. unfold lockTurn. intros H. case_match; simplify_eq. by apply select_one_elem. Qed.

Lemma updateTurnColumns_inv db id f db' :
  updateTurnColumns db id f = Ok db' →
  db'.(db_turns) = update_rows (turn_is id) f db.(db_turns) ∧ db'.(db_attempts) = db.(db_attempts)
  ∧ db'.(db_events) = db.(db_events) ∧ db'.(db_effects) = db.(db_effects)
  ∧ (∀ x y, x ∈ db.(db_turns) → y ∈ db.(db_turns) → turn_is id x = true → turn_is id y = true → x = y).
Proof.
  unfold updateTurnColumns. intros H. case_match eqn:E; simplify_eq/=. apply Nat.eqb_eq in E.
  repeat (split; [done|]). intros x y Hx Hy. by apply (rows_matched_unique _ _ x y E).
Qed.

Lemma insertEvent_inv db event now db' :
  insertEvent db event now = Ok db' →
  ∃ e, db' = set_events db (db.(db_events) ++ [e])
       ∧ eventToSQLRow (next_id er_ID db.(db_events)) event now = Ok e
       ∧ existsb (event_key_taken e) db.(db_events) = false.
Proof.
  unfold insertEvent. intros H. case_match eqn:E; simplify_eq. case_match eqn:E2; simplify_eq.
  bool_hyps. eauto.
Qed.

Lemma sqlAppend_inv db row turn draft now last event db' :
  sqlAppend db row turn draft now = Ok (last, event, db') →
  ∃ sequence e, nextSQLSequence row.(tr_LastEventSequence) = Ok sequence ∧ last = i64 sequence
    ∧ buildEvent turn sequence draft = Ok event
    ∧ db' = set_events db (db.(db_events) ++ [e])
    ∧ eventToSQLRow (next_id er_ID db.(db_events)) event now = Ok e
    ∧ existsb (event_key_taken e) db.(db_events) = false.
Proof.
  unfold sqlAppend. intros H. case_match eqn:E1; simplify_eq. case_match eqn:E2; simplify_eq.
  case_match eqn:E3; simplify_eq. apply insertEvent_inv in E3 as (e&->&?&?). eauto 10.
Qed.

(** The shape of every unfenced write: one Turn row is rewritten with a Turn of
    the same identity, one event is appended. *)
Definition turn_write (db : Database) (row : sqlTurnRow) (next : Turn) (last : Z) (db' : Database)
    : Prop :=
  row ∈ db.(db_turns) ∧ next.(turn_ID) = row.(tr_TurnID)
  ∧ db'.(db_turns) = update_rows (turn_is row.(tr_TurnID)) (lifecycleColumns next last) db.(db_turns)
  ∧ db'.(db_attempts) = db.(db_attempts)
  ∧ (∀ x, x ∈ db.(db_turns) → turn_is row.(tr_TurnID) x = true → x = row)
  ∧ ∃ e, next_event db row last e ∧ db'.(db_events) = db.(db_events) ++ [e].

Lemma turn_write_intro db row turn next draft now last event db1 db' :
  row ∈ db.(db_turns) → toTurn row = Ok turn → next.(turn_ID) = turn.(turn_ID) →
  sqlAppend db row next draft now = Ok (last, event, db1) →
  updateTurnColumns db1 next.(turn_ID) (lifecycleColumns next last) = Ok db' →
  turn_write db row next last db'.
Proof.
  intros Hrow (Hid&_)%toTurn_inv Hnext (seq&e&?&?&?&->&?&?)%sqlAppend_inv
    (Ht&Ha&He&_&Huniq)%updateTurnColumns_inv. simpl in *.
  rewrite Hnext, Hid in Ht, Huniq. unfold turn_write. rewrite Hnext.
  split; [done|]. split; [done|]. split; [done|]. split; [done|]. split.
  - intros x Hx Hp. apply Huniq; [done..|]. unfold turn_is. by rewrite bool_decide_eq_true_2.
  - exists e. split; [|done]. exists seq, next, draft, event, now. rewrite Hnext, Hid. done.
Qed.

(** Such a write keeps every epoch. *)
Lemma turn_write_keeps db row next last db' :
  turn_write db row next last db' →
  next.(turn_Status) = row.(tr_Status)
  ∨ row.(tr_FencingToken) = 0 ∧ row.(tr_ActiveAttemptID) = None
    ∧ TurnStatus_Terminal row.(tr_Status) = false →
  ∃ f, db'.(db_turns) = map f db.(db_turns) ∧ db'.(db_attempts) = map id db.(db_attempts)
       ∧ ∀ r, r ∈ db.(db_turns) → turn_keeps r (f r).
Proof.
  intros (Hrow&Hid&Ht&Ha&Huniq&_) Hst. eexists. split; [rewrite Ht; apply update_rows_map|].
  split; [by rewrite Ha, List.map_id|]. intros r Hr. simpl. destruct (turn_is _ r) eqn:Hp.
  - rewrite (Huniq r Hr Hp). split; [done|]. simpl. destruct Hst as [->|?]; auto.
  - split; [done|by left].
Qed.

Lemma unfenced_token row turn :
  toTurn row = Ok turn → negb (0 <? row.(tr_FencingToken)) = true →
  row.(tr_FencingToken) = 0 ∧ row.(tr_ActiveAttemptID) = None.
Proof.
  intros (_&_&_&_&H0&Hact&_)%toTurn_inv H. bool_hyps. split; [lia|].
  destruct (tr_ActiveAttemptID row); [|done]. specialize (Hact (mk_is_Some _ _ eq_refl)). lia.
Qed.

Lemma appendEventBody_inv clock turnID draft db a db' :
  appendEventBody clock turnID draft db = Ok (a, db') →
  ∃ row turn last, toTurn row = Ok turn ∧ turn_write db row turn last db'
    ∧ turn.(turn_Status) = row.(tr_Status).
Proof.
  unfold appendEventBody. intros H.
  destruct (lockTurn _ _) as [row|] eqn:Hl; [|done]. apply lockTurn_inv in Hl as [Hrow _].
  destruct (toTurn row) as [turn|] eqn:Ht; [|done].
  destruct (negb (0 <? _)) eqn:Hf; [|done]. destruct (negb (TurnStatus_Terminal _)); [|done].
  destruct (executionNow clock) as [now|]; [|done].
  destruct (sqlAppend _ _ _ _ _) as [[[last event] db1]|] eqn:Hs; [|done].
  destruct (updateTurnColumns _ _ _) eqn:Hu; simplify_eq.
  exists row, turn, last. split; [done|].
  split; [by eapply turn_write_intro|by apply toTurn_inv in Ht as (_&?&_)].
Qed.

Lemma transitionBody_inv clock turnID to draft db a db' :
  transitionBody clock turnID to draft db = Ok (a, db') →
  db' = db ∨ ∃ row turn now last, toTurn row = Ok turn
    ∧ turn_write db row (transitioned turn to now) last db'
    ∧ row.(tr_FencingToken) = 0 ∧ row.(tr_ActiveAttemptID) = None
    ∧ TurnStatus_Terminal row.(tr_Status) = false.
Proof.
  unfold transitionBody. intros H.
  destruct (lockTurn _ _) as [row|] eqn:Hl; [|done]. apply lockTurn_inv in Hl as [Hrow _].
  destruct (toTurn row) as [turn|] eqn:Ht; [|done].
  destruct (negb (0 <? _)) eqn:Hf; [|done].
  case_bool_decide as Hne; [left; naive_solver|right].
  destruct (CanTransition _ _) eqn:Hcan; [|done].
  case_match; [|done]. destruct (executionNow clock) as [now|]; [|done].
  case_match; [done|]. destruct (sqlAppend _ _ _ _ _) as [[[last event] db1]|] eqn:Hs; [|done].
  destruct (updateTurnColumns _ _ _) eqn:Hu; simplify_eq.
  destruct (unfenced_token _ _ Ht Hf). exists row, turn, now, last. split; [done|].
  apply toTurn_inv in Ht as Hti. destruct Hti as (_&Hst&_). rewrite Hst in Hcan, Hne.
  split; [by eapply turn_write_intro|]. split; [done|]. split; [done|].
  destruct (TurnStatus_Terminal (tr_Status row)) eqn:Hterm; [|done].
  by apply CanTransition_terminal in Hcan.
Qed.

Lemma requestCancelBody_inv clock p th turnID draft db a db' :
  requestCancelBody clock p th turnID draft db = Ok (a, db') →
  db' = db ∨ ∃ row turn now last, toTurn row = Ok turn
    ∧ turn_write db row (cancelled turn now) last db' ∧ turn.(turn_Status) = row.(tr_Status).
Proof.
  unfold requestCancelBody. intros H.
  destruct (lockTurn _ _) as [row|] eqn:Hl; [|done]. apply lockTurn_inv in Hl as [Hrow _].
  destruct (toTurn row) as [turn|] eqn:Ht; [|done].
  case_match; [left; naive_solver|right]. destruct (executionNow clock) as [now|]; [|done].
  case_match; [done|]. destruct (sqlAppend _ _ _ _ _) as [[[last event] db1]|] eqn:Hs; [|done].
  destruct (updateTurnColumns _ _ _) eqn:Hu; simplify_eq.
  exists row, turn, now, last. split; [done|].
  split; [by eapply turn_write_intro|by apply toTurn_inv in Ht as (_&?&_)].
Qed.

Lemma finishWrite_inv {A} (w : result A * Database) r db' :
  finishWrite w = (r, db') → snd w = db'.
Proof. destruct w as [[?|?] ?]; simpl; naive_solver. Qed.

(** ** Admission and retirement *)

Lemma admitRows_inv db admitted first now bind db' :
  admitRows db admitted first now bind = Ok db' →
  ∃ id e, db'.(db_turns) = db.(db_turns) ++ [turnToSQLRow id admitted 1]
    ∧ db'.(db_attempts) = db.(db_attempts) ∧ db'.(db_events) = db.(db_events) ++ [e]
    ∧ eventToSQLRow (next_id er_ID db.(db_events)) first now = Ok e
    ∧ existsb (turn_key_taken (turnToSQLRow id admitted 1)) db.(db_turns) = false.
Proof.
  unfold admitRows, createTurn, createEvent. intros H.
  destruct (Turn_Validate admitted); [done|].
  destruct (eventToSQLRow _ _ _) as [e|] eqn:He; [|done].
  destruct (negb _) eqn:Hk in H; [|done]. destruct (bind _); [done|].
  destruct (negb _) eqn:Hk2 in H; simplify_eq/=. bool_hyps. eauto 10.
Qed.

Lemma admit_ok db db' id admitted :
  exec_ok db → admitted.(turn_Status) = TurnStatusQueued →
  db'.(db_turns) = db.(db_turns) ++ [turnToSQLRow id admitted 1] →
  db'.(db_attempts) = db.(db_attempts) →
  existsb (turn_key_taken (turnToSQLRow id admitted 1)) db.(db_turns) = false →
  exec_ok db'.
Proof.
  intros [Ht Hp Hi He Hturn Hatt] Hq Ht' Ha' Hfresh. split; rewrite ?Ht', ?Ha'; try done.
  - rewrite map_app. apply NoDup_snoc; [done|]. simpl. intros (r&Hr&Hin)%elem_of_map.
    rewrite <- not_true_iff_false, List.existsb_exists in Hfresh. destruct Hfresh.
    exists r. split; [by apply list_elem_of_In|]. unfold turn_key_taken. simpl.
    by rewrite bool_decide_eq_true_2.
  - intros r [Hr| ->%list_elem_of_singleton]%elem_of_app; [by apply Hturn|].
    unfold turn_epochs_ok. simpl. split; [done|]. split; [done|]. lia.
  - intros a Ha. destruct (Hatt a Ha) as (?&r&Hr&?). split; [done|]. exists r.
    split; [|done]. apply elem_of_app. by left.
Qed.

Lemma retire_ok db db' turnID f g :
  exec_ok db → (∀ r, r ∈ db.(db_turns) → turn_is turnID r = true → turn_retires r (f r)) →
  (∀ a, attempt_retires a (g a)) →
  db'.(db_turns) = update_rows (turn_is turnID) f db.(db_turns) →
  db'.(db_attempts) = update_rows (runs_turn turnID) g db.(db_attempts) →
  exec_ok db'.
Proof.
  intros [Ht Hp Hi He Hturn Hatt] Hf Hg Ht' Ha'. unfold update_rows in Ht', Ha'.
  assert (Hsame : ∀ a, same_attempt a (if runs_turn turnID a then g a else a)).
  { intros a. destruct (runs_turn turnID a); [apply Hg|done]. }
  split; rewrite ?Ht', ?Ha'.
  - rewrite map_key_eq; [done|]. intros r Hr. destruct (turn_is turnID r) eqn:?; [by apply Hf|done].
  - rewrite map_key_eq; [done|]. intros a _. apply Hsame.
  - rewrite map_key_eq; [done|]. intros a _. apply Hsame.
  - rewrite map_key_eq; [done|]. intros a _. unfold epoch_key. by destruct (Hsame a) as (_&_&->&->).
  - intros r' (r&->&Hr)%elem_of_map. destruct (Hturn r Hr) as (Hrng&Hq&Hact).
    unfold turn_is. case_bool_decide as Hid.
    { destruct (Hf r Hr) as (_&Hac&Hterm&?); [by apply bool_decide_eq_true_2|]. unfold turn_epochs_ok. rewrite Hac, Hterm.
      split; [lia|]. split; [|done]. intros E. by rewrite E in Hterm. }
    split; [done|]. split; [done|]. destruct (tr_ActiveAttemptID r); [|done].
    destruct Hact as (?&?&a&Ha&Hat&?). split; [done|]. split; [done|].
    exists a. split; [|done]. apply elem_of_map. exists a. split; [|done].
    unfold runs_turn. by rewrite bool_decide_eq_false_2 by congruence.
  - intros a' (a&->&Ha)%elem_of_map. destruct (Hatt a Ha) as (Hone&r&Hr&Hid&Hle&Hrun).
    destruct (Hsame a) as (_&E2&E3&E4). unfold attempt_epoch_ok. rewrite E2, E3, E4. split; [done|].
    exists (if turn_is turnID r then f r else r). split; [apply elem_of_map; eauto|].
    destruct (turn_is turnID r) eqn:Hrid; unfold turn_is in Hrid; bool_hyps; unfold runs_turn.
    + destruct (Hf r Hr) as (Hfid&_&_&?); [by apply bool_decide_eq_true_2|]. rewrite Hfid. split; [done|]. split; [lia|]. intros Hr'. exfalso.
      rewrite (bool_decide_eq_true_2 (ar_TurnID a = turnID)) in Hr' by congruence. simpl in Hr'.
      destruct (bool_decide (ar_Status a = AttemptStatusRunning)) eqn:E; [by destruct (Hg a)|].
      by bool_hyps.
    + rewrite (bool_decide_eq_false_2 (ar_TurnID a = turnID)) by congruence. done.
Qed.

(** ** Claims *)

Lemma nextExecutionFence_inv last fence :
  last ≤ MaxDurableSequence → nextExecutionFence last = Ok fence →
  fence = last + 1 ∧ i64 fence = last + 1 ∧ 0 ≤ last < MaxDurableSequence.
Proof.
  assert (MaxDurableSequence = 2 ^ 63 - 1) as HM by reflexivity.
  unfold nextExecutionFence. intros Hmax H. destruct (negb _) eqn:E1 in H; [|done].
  destruct (negb _) eqn:E2 in H; [|done]. simplify_eq. bool_hyps.
  rewrite u64_small in * by lia.
  rewrite (i64_small (last + 1)) by lia. rewrite (u64_small (last + 1)) by lia.
  split; [done|]. split; [apply i64_small; lia|lia].
Qed.

Lemma claimExpired_inv db row now expired :
  claimExpired db row now = Ok expired →
  match row.(tr_ActiveAttemptID) with
  | None => expired = None
  | Some active =>
    ∃ a, expired = Some a ∧ a ∈ db.(db_attempts) ∧ a.(ar_TurnID) = row.(tr_TurnID)
      ∧ a.(ar_AttemptID) = active ∧ a.(ar_FencingToken) = row.(tr_FencingToken)
      ∧ a.(ar_Status) = AttemptStatusRunning ∧ a.(ar_LeaseExpiresAt) ≤ now
  end.
Proof.
  unfold claimExpired. intros H. destruct (tr_ActiveAttemptID row) as [active|]; [|by simplify_eq].
  destruct (lockAttempt _ _ _ _) as [current|] eqn:Hl; [|done].
  unfold lockAttempt in Hl. destruct (select_one _ _) eqn:Hsel; simplify_eq.
  apply select_one_elem in Hsel as [Hin Hp]. bool_hyps.
  destruct (toAttempt current) as [attempt|] eqn:Ha; [|done].
  destruct (turnOwnsAttempt row attempt && _) eqn:Ho; [|done].
  destruct (negb _) eqn:Hlease in H; simplify_eq. unfold After in *. bool_hyps.
  unfold toAttempt in Ha. destruct (negb _) in Ha; [|done].
  destruct (TurnAttempt_Validate _) in Ha; simplify_eq/=. eauto 10.
Qed.

(** A fresh epoch: everything a granted claim wrote. *)
Record claim_write (cfg : SQLStoreConfig) (clock : result time) (command : ClaimAttemptCommand)
    (db : Database) (res : ClaimAttemptResult) (db' : Database) (row : sqlTurnRow) (turn : Turn)
    (now : time) (expired : option sqlTurnAttemptRow) (lease : time) : Prop := {
  cw_row : row ∈ db.(db_turns) ∧ row.(tr_TurnID) = command.(claim_TurnID);
  cw_turn : toTurn row = Ok turn;
  cw_unique : ∀ x, x ∈ db.(db_turns) → turn_is command.(claim_TurnID) x = true → x = row;
  cw_scope : claimPluginScopeAllows command.(claim_PluginScope) turn.(turn_Plugin) = true;
  cw_new : lookupAttemptByID db command.(claim_AttemptID) = None;
  cw_now : executionNow clock = Ok now;
  cw_guards : claimGuards cfg row turn = None;
  cw_expired : claimExpired db row now = Ok expired;
  cw_lease : executionLeaseExpiry cfg now = Ok lease;
  cw_fence : nextExecutionFence row.(tr_FencingToken) = Ok res.(clres_Attempt).(att_FencingToken);
  cw_result : res = mkClaimAttemptResult (claimedTurn turn now)
    (freshAttempt command res.(clres_Attempt).(att_FencingToken) lease now) true
    (bool_decide (is_Some expired)) false;
  cw_next : Turn_Validate (claimedTurn turn now) = None;
  cw_turns : ∃ queued last, (queued = bool_decide (turn.(turn_Status) = TurnStatusQueued))
    ∧ (if queued
       then ∃ sequence, nextSQLSequence row.(tr_LastEventSequence) = Ok sequence ∧ last = i64 sequence
       else last = row.(tr_LastEventSequence))
    ∧ db'.(db_turns) = update_rows (turn_is command.(claim_TurnID))
      (claimedColumns command.(claim_AttemptID) res.(clres_Attempt).(att_FencingToken) queued last now)
      db.(db_turns);
  cw_attempts : ∃ new, attemptToSQLRow new.(ar_ID) res.(clres_Attempt) = Ok new
    ∧ db'.(db_attempts) = (expireAttempt db expired now).(db_attempts) ++ [new]
    ∧ new.(ar_ID) = next_id ar_ID (expireAttempt db expired now).(db_attempts)
    ∧ existsb (attempt_key_taken new) (expireAttempt db expired now).(db_attempts) = false;
  cw_log : log_kept db db'
}.

Lemma expireAttempt_turns db expired now : (expireAttempt db expired now).(db_turns) = db.(db_turns).
Proof. by destruct expired. Qed.

Lemma attemptToSQLRow_inv id a row :
  attemptToSQLRow id a = Ok row →
  row.(ar_ID) = id ∧ row.(ar_AttemptID) = a.(att_ID) ∧ row.(ar_TurnID) = a.(att_TurnID)
  ∧ row.(ar_FencingToken) = i64 a.(att_FencingToken) ∧ row.(ar_Status) = a.(att_Status)
  ∧ row.(ar_LeaseExpiresAt) = a.(att_LeaseExpiresAt) ∧ TurnAttempt_Validate a = None
  ∧ attemptToSQLRow row.(ar_ID) a = Ok row.
Proof.
  intros H. pose proof H as H0. unfold attemptToSQLRow in H.
  destruct (TurnAttempt_Validate a) eqn:E; simplify_eq/=. eauto 10.
Qed.

Lemma claimEvent_inv db row turn next now last db' :
  claimEvent db row turn next now = Ok (last, db') →
  next.(turn_ID) = row.(tr_TurnID) →
  db'.(db_turns) = db.(db_turns) ∧ db'.(db_attempts) = db.(db_attempts)
  ∧ if bool_decide (turn.(turn_Status) = TurnStatusQueued)
    then (∃ sequence, nextSQLSequence row.(tr_LastEventSequence) = Ok sequence ∧ last = i64 sequence)
         ∧ ∃ e, next_event db row last e ∧ db'.(db_events) = db.(db_events) ++ [e]
    else last = row.(tr_LastEventSequence) ∧ db'.(db_events) = db.(db_events).
Proof.
  unfold claimEvent. intros H Hid. case_bool_decide; simplify_eq; [|done].
  destruct (nextSQLSequence _) as [sequence|] eqn:Hs; [|done].
  destruct (buildEvent _ _ _) as [event|] eqn:Hb; [|done].
  destruct (insertEvent _ _ _) eqn:Hi; simplify_eq.
  apply insertEvent_inv in Hi as (e&->&?&?). split; [done|]. split; [done|]. split; [eauto|].
  exists e. split; [|done]. exists sequence, next, (statusEvent TurnStatusRunning false), event, now. done.
Qed.

(** The log of a claim: the first epoch appends, the others leave it alone. *)
Lemma claim_log db db1 db' row turn next now last columns attemptID fence :
  row ∈ db.(db_turns) → db1.(db_turns) = db.(db_turns) → db1.(db_events) = db.(db_events) →
  next.(turn_ID) = row.(tr_TurnID) →
  (∀ x, x ∈ db.(db_turns) → turn_is row.(tr_TurnID) x = true → x = row) →
  (∃ db2, claimEvent db1 row turn next now = Ok (last, db2) ∧ db'.(db_events) = db2.(db_events)) →
  columns = claimedColumns attemptID fence (bool_decide (turn.(turn_Status) = TurnStatusQueued)) last now →
  db'.(db_turns) = update_rows (turn_is row.(tr_TurnID)) columns db.(db_turns) →
  log_kept db db'.
Proof.
  intros Hrow Ht1 He1 Hid Huniq (db2&Hev&He') -> Ht'. apply claimEvent_inv in Hev as (_&_&Hev); [|done].
  case_bool_decide.
  - destruct Hev as (_&e&(seq&tn&draft&event&n&?&?&?&?&?&?)&He2). rewrite He1 in *.
    eapply (log_append _ _ row last e); [done| |by rewrite He', He2|].
    { exists seq, tn, draft, event, n. done. }
    rewrite Ht'. apply update_rows_Forall2; intros x Hx ->; by repeat split.
  - destruct Hev as [-> He2]. apply log_quiet; [by rewrite He', He2, He1|].
    rewrite Ht'. apply update_rows_Forall2; intros x Hx Hp; by repeat split.
Qed.

Lemma claimAttemptBody_inv cfg authority clock command db res db' :
  claimAttemptBody cfg authority clock command db = Ok (res, db') →
  db' = db ∧ res.(clres_Replay) = true ∧ res.(clres_Claimed) = false
  ∨ ∃ row turn now expired lease,
      claim_write cfg clock command db res db' row turn now expired lease.
Proof.
  unfold claimAttemptBody. intros H.
  destruct (lockTurn _ _) as [row|] eqn:Hl; [|done]. apply lockTurn_inv in Hl as [Hrow Hid].
  destruct (toTurn row) as [turn|] eqn:Ht; [|done].
  destruct (claimPluginScopeAllows _ _) eqn:Hsc; [|done].
  destruct (lookupAttemptByID _ _) as [existing|] eqn:Hlk.
  { left. destruct (claimReplay _ _ _ _ _) eqn:Hr; simplify_eq. split; [done|].
    unfold claimReplay in Hr. repeat (case_match; simplify_eq; try done). }
  right. destruct (executionNow clock) as [now|] eqn:Hnow; [|done].
  destruct (claimGuards _ _ _) eqn:Hg; [done|].
  destruct (claimExpired _ _ _) as [expired|] eqn:Hexp; [|done].
  destruct (authorizeTurnReservationExecution _ _ _); [done|]. unfold claimEpoch in H.
  destruct (nextExecutionFence _) as [fence|] eqn:Hf; [|done].
  destruct (executionLeaseExpiry _ _) as [lease|] eqn:Hlease; [|done].
  destruct (attemptToSQLRow _ _) as [new|] eqn:Hnew; [|done].
  destruct (createAttempt _ _) as [db1|] eqn:Hc; [|done].
  destruct (claimEvent _ _ _ _ _) as [[last db2]|] eqn:Hev; [|done].
  destruct (Turn_Validate _) eqn:Hnext; [done|].
  destruct (updateTurnColumns _ _ _) as [db3|] eqn:Hu; simplify_eq.
  apply updateTurnColumns_inv in Hu as (Ht3&Ha3&He3&_&Hun). simpl in *.
  assert (turn_ID turn = tr_TurnID row) as Htid by (by apply toTurn_inv in Ht as [? _]).
  pose proof Hev as Hlog. apply claimEvent_inv in Hev as (Ht2&Ha2&Hlast); [|done].
  unfold createAttempt in Hc. destruct (negb _) eqn:Hk in Hc; simplify_eq/=. bool_hyps.
  rewrite Ht2, expireAttempt_turns in *. unfold turn_is in Hid. bool_hyps.
  assert (Hone : ∀ x, x ∈ db_turns db → turn_is (claim_TurnID command) x = true → x = row).
  { intros x Hx Hp. apply Hun; [done..|]. unfold turn_is. by rewrite bool_decide_eq_true_2. }
  apply attemptToSQLRow_inv in Hnew as (Hnid&_&_&_&_&_&_&Hnew).
  exists row, turn, now, expired, lease. split; simpl; try done.
  - eexists _, last. split; [reflexivity|]. split; [|done]. case_bool_decide; apply Hlast.
  - exists new. rewrite Ha3, Ha2. done.
  - eapply (claim_log db); [done| | | | |exists db2; split; [exact Hlog|exact He3]|reflexivity|];
      simpl; rewrite ?expireAttempt_turns, ?Hid; try done; [by destruct expired|congruence].
Qed.

(** The Attempt column of a reclaim: the expired row, if any, is finished. *)
Definition expireRow (expired : option sqlTurnAttemptRow) (now : time) (a : sqlTurnAttemptRow)
    : sqlTurnAttemptRow :=
  if holds_at expired (fun e => a.(ar_ID) =? e.(ar_ID)) then expiredColumns now a else a.

Lemma expireAttempt_rows db expired now :
  (expireAttempt db expired now).(db_attempts) = map (expireRow expired now) db.(db_attempts).
Proof. destruct expired; [done|]. unfold expireRow. simpl. by rewrite List.map_id. Qed.

Lemma expireRow_cases db expired now a :
  exec_ok db → (∀ e, expired = Some e → e ∈ db.(db_attempts)) → a ∈ db.(db_attempts) →
  expired = Some a ∧ expireRow expired now a = expiredColumns now a
  ∨ expired ≠ Some a ∧ expireRow expired now a = a.
Proof.
  intros Hok Hin Ha. unfold expireRow. destruct expired as [e|]; simpl; [|by right].
  destruct (ar_ID a =? ar_ID e) eqn:E; bool_hyps; [left|right; split; [congruence|done]].
  by rewrite (NoDup_key_inj ar_ID _ a e (xo_attempt_pks _ Hok) Ha (Hin e eq_refl) E).
Qed.

Lemma expireRow_same expired now a : same_attempt a (expireRow expired now a).
Proof. unfold expireRow. by destruct (holds_at _ _). Qed.

Lemma claim_guards_status cfg row turn :
  claimGuards cfg row turn = None → toTurn row = Ok turn →
  (row.(tr_Status) = TurnStatusQueued ∨ row.(tr_Status) = TurnStatusRunning)
  ∧ row.(tr_CancelRequestedAt) = None
  ∧ (∃ budget, turnAttemptBudget cfg = Ok budget ∧ row.(tr_FencingToken) < budget)
  ∧ (row.(tr_ActiveAttemptID) = None → row.(tr_FencingToken) ≤ 0)
  ∧ (is_Some row.(tr_ActiveAttemptID) → row.(tr_Status) = TurnStatusRunning).
Proof.
  intros H (_&Hst&Hc&_)%toTurn_inv. unfold claimGuards in H. rewrite Hst, Hc in H.
  apply first_error_None in H. rewrite !Forall_cons in H. destruct H as (_&H2&H3&_&H5&H6&H7&_).
  apply when_None, negb_false_iff, bool_decide_eq_true in H2.
  apply when_None, bool_decide_eq_false, eq_None_not_Some in H3.
  apply when_None in H6, H7.
  split; [set_solver|]. split; [done|]. split.
  { destruct (turnAttemptBudget cfg) as [budget|]; [|done]. apply when_None in H5. bool_hyps. eauto. }
  split.
  - intros E. rewrite bool_decide_eq_true_2 in H6 by done. simpl in H6. by bool_hyps.
  - intros E. rewrite bool_decide_eq_true_2 in H7 by done. simpl in H7. by bool_hyps.
Qed.

Section Claim.
Context {cfg : SQLStoreConfig} {clock : result time} {command : ClaimAttemptCommand}.
Context {db db' : Database} {res : ClaimAttemptResult} {row : sqlTurnRow} {turn : Turn} {now : time}.
Context {expired : option sqlTurnAttemptRow} {lease : time}.
Context (Hok : exec_ok db).
Context (Hw : claim_write cfg clock command db res db' row turn now expired lease).

(** The fence of the new epoch. *)
Abbreviation fence := (att_FencingToken (clres_Attempt res)).

Lemma claim_fence :
  fence = row.(tr_FencingToken) + 1 ∧ i64 fence = row.(tr_FencingToken) + 1
  ∧ 0 ≤ row.(tr_FencingToken) < MaxDurableSequence.
Proof.
  destruct (xo_turn _ Hok row (proj1 (cw_row _ _ _ _ _ _ _ _ _ _ _ Hw))) as (Hrng&_).
  apply nextExecutionFence_inv; [lia|apply Hw].
Qed.

Lemma claim_expired_in e :
  expired = Some e →
  e ∈ db.(db_attempts) ∧ e.(ar_TurnID) = row.(tr_TurnID)
  ∧ row.(tr_ActiveAttemptID) = Some e.(ar_AttemptID) ∧ e.(ar_LeaseExpiresAt) ≤ now.
Proof.
  intros He. pose proof (claimExpired_inv _ _ _ _ (cw_expired _ _ _ _ _ _ _ _ _ _ _ Hw)) as H.
  rewrite He in H. destruct (tr_ActiveAttemptID row); [|done].
  destruct H as (a&[= ->]&?&?&<-&_&_&?). done.
Qed.

Lemma claim_new :
  ∃ new, db'.(db_attempts) = map (expireRow expired now) db.(db_attempts) ++ [new]
    ∧ new.(ar_AttemptID) = command.(claim_AttemptID) ∧ new.(ar_TurnID) = command.(claim_TurnID)
    ∧ new.(ar_FencingToken) = row.(tr_FencingToken) + 1 ∧ new.(ar_Status) = AttemptStatusRunning
    ∧ new.(ar_LeaseExpiresAt) = lease ∧ new.(ar_LastHeartbeatAt) = now
    ∧ new.(ar_ID) = next_id ar_ID (map (expireRow expired now) db.(db_attempts))
    ∧ (∀ a, a ∈ db.(db_attempts) → attempt_key_taken new a = false).
Proof.
  destruct (cw_attempts _ _ _ _ _ _ _ _ _ _ _ Hw) as (new&Hnew&Ha'&Hnid&Hfresh).
  exists new. rewrite expireAttempt_rows in *. split; [done|].
  pose proof (cw_result _ _ _ _ _ _ _ _ _ _ _ Hw) as Hres. unfold attemptToSQLRow in Hnew.
  destruct (TurnAttempt_Validate _) in Hnew; [done|]. rewrite Hres in Hnew. simpl in Hnew.
  destruct claim_fence as (_&Hf64&_).
  injection Hnew as Hnew. rewrite <- Hnew, Hf64. rewrite <- Hnew in Hnid, Hfresh. simpl in *.
  repeat (split; [done|]). intros a Ha. apply not_true_iff_false. intros Hk.
  rewrite <- not_true_iff_false, List.existsb_exists in Hfresh. apply Hfresh.
  exists (expireRow expired now a). split; [by apply List.in_map, list_elem_of_In|].
  unfold attempt_key_taken in *. simpl in *.
  destruct (expireRow_same expired now a) as (_&->&->&->). rewrite Hf64. exact Hk.
Qed.

Lemma claim_turns :
  ∃ queued last, db'.(db_turns) = map (fun r => if turn_is command.(claim_TurnID) r
      then claimedColumns command.(claim_AttemptID) fence queued last now r else r) db.(db_turns)
    ∧ tr_Status (claimedColumns command.(claim_AttemptID) fence queued last now row)
      = TurnStatusRunning.
Proof.
  destruct (cw_turns _ _ _ _ _ _ _ _ _ _ _ Hw) as (queued&last&Hq&_&Ht'). exists queued, last.
  split; [done|].
  destruct (claim_guards_status _ _ _ (cw_guards _ _ _ _ _ _ _ _ _ _ _ Hw)
    (cw_turn _ _ _ _ _ _ _ _ _ _ _ Hw)) as (Hst&_).
  pose proof (cw_turn _ _ _ _ _ _ _ _ _ _ _ Hw) as (_&Hts&_)%toTurn_inv. rewrite Hts in Hq. simpl.
  rewrite Hq. destruct Hst as [E|E]; rewrite E; done.
Qed.

Lemma claim_old_row a :
  a ∈ db.(db_attempts) →
  expired = Some a ∧ expireRow expired now a = expiredColumns now a
  ∨ expired ≠ Some a ∧ expireRow expired now a = a.
Proof. apply expireRow_cases; [done|]. intros e He. by apply claim_expired_in. Qed.

Lemma claim_keys :
  NoDup (map tr_TurnID db'.(db_turns)) ∧ NoDup (map ar_ID db'.(db_attempts))
  ∧ NoDup (map ar_AttemptID db'.(db_attempts)) ∧ NoDup (map epoch_key db'.(db_attempts)).
Proof.
  destruct claim_new as (new&Ha'&_&_&_&_&_&_&Hnid&Htaken). destruct claim_turns as (queued&last&Ht'&_).
  assert (Hkeys : ∀ B (k : _ → B), (∀ a a', same_attempt a a' → k a' = k a) →
    map k (map (expireRow expired now) (db_attempts db)) = map k (db_attempts db)).
  { intros B k Hk. apply map_key_eq. intros a _. apply Hk, expireRow_same. }
  rewrite Ht', Ha', !map_app. split.
  { rewrite map_key_eq; [apply Hok|]. intros r _. by destruct (turn_is _ r). }
  rewrite (Hkeys _ ar_ID), (Hkeys _ ar_AttemptID), (Hkeys _ epoch_key)
    by (unfold same_attempt, epoch_key; intuition congruence).
  split; [|split]; (apply NoDup_snoc; [apply Hok|]).
  - rewrite Hnid, <- (Hkeys _ ar_ID) by (unfold same_attempt; intuition congruence).
    apply next_id_fresh.
  - intros (a&Hk&Ha)%elem_of_map. specialize (Htaken a Ha). unfold attempt_key_taken in Htaken.
    by rewrite bool_decide_eq_true_2 in Htaken.
  - intros (a&Hk&Ha)%elem_of_map. specialize (Htaken a Ha). unfold attempt_key_taken in Htaken.
    unfold epoch_key in Hk. injection Hk as Hk1 Hk2. rewrite Hk1, Hk2, Z.eqb_refl in Htaken.
    by rewrite (bool_decide_eq_true_2 (ar_TurnID a = _)), orb_true_r in Htaken.
Qed.

Lemma claim_turns_ok r' : r' ∈ db'.(db_turns) → turn_epochs_ok db'.(db_attempts) r'.
Proof.
  destruct claim_new as (new&Ha'&Hn1&Hn2&Hn3&Hn4&_). destruct claim_turns as (queued&last&Ht'&Hrs).
  destruct claim_fence as (_&Hf64&Hlt). rewrite Ht', Ha'. intros (r&->&Hr)%elem_of_map.
  destruct (turn_is (claim_TurnID command) r) eqn:Hid.
  - rewrite (cw_unique _ _ _ _ _ _ _ _ _ _ _ Hw r Hr Hid). unfold turn_epochs_ok.
    split; [simpl; lia|]. split; [intros E; discriminate (eq_trans (eq_sym Hrs) E)|]. simpl.
    split; [exact Hrs|]. rewrite Hf64. split; [lia|].
    exists new. split; [apply elem_of_app; right; by apply list_elem_of_singleton|].
    rewrite Hn2, Hn1, Hn3, Hn4. by destruct (cw_row _ _ _ _ _ _ _ _ _ _ _ Hw) as [_ ->].
  - destruct (xo_turn _ Hok r Hr) as (?&?&Hract). split; [done|]. split; [done|].
    destruct (tr_ActiveAttemptID r) as [active|]; [|done].
    destruct Hract as (?&?&a&Ha&Hat&?). split; [done|]. split; [done|]. exists a. split; [|done].
    apply elem_of_app. left. apply elem_of_map. exists a. split; [|done].
    destruct (claim_old_row a Ha) as [[E _]|[_ ->]]; [|done].
    exfalso. destruct (claim_expired_in a E) as (_&E2&_).
    destruct (cw_row _ _ _ _ _ _ _ _ _ _ _ Hw) as [_ Hrid].
    unfold turn_is in Hid. bool_hyps. congruence.
Qed.

Lemma claim_attempts_ok a' : a' ∈ db'.(db_attempts) → attempt_epoch_ok db'.(db_turns) a'.
Proof.
  destruct claim_new as (new&Ha'&Hn1&Hn2&Hn3&Hn4&_). destruct claim_turns as (queued&last&Ht'&_).
  destruct claim_fence as (_&Hf64&Hlt). rewrite Ht', Ha'.
  destruct (cw_row _ _ _ _ _ _ _ _ _ _ _ Hw) as [Hrow Hrid].
  intros [(a&->&Ha)%elem_of_map| ->%list_elem_of_singleton]%elem_of_app.
  - destruct (xo_attempt _ Hok a Ha) as (Hone&r&Hr&Hid&Hle&Hrun). unfold attempt_epoch_ok.
    destruct (expireRow_same expired now a) as (_&E2&E3&E4). rewrite E2, E3, E4. split; [done|].
    eexists. split; [apply elem_of_map; exists r; split; [reflexivity|done]|].
    assert (Hstill : ar_Status (expireRow expired now a) = AttemptStatusRunning →
      expired ≠ Some a ∧ ar_Status a = AttemptStatusRunning).
    { intros Hr'. destruct (claim_old_row a Ha) as [[_ Eq]|[E Eq]]; rewrite Eq in Hr'; done. }
    destruct (turn_is (claim_TurnID command) r) eqn:Hrc; [|naive_solver].
    rewrite (cw_unique _ _ _ _ _ _ _ _ _ _ _ Hw r Hr Hrc) in *. simpl. rewrite Hf64.
    split; [done|]. split; [lia|]. intros [E Hr']%Hstill. exfalso. destruct (Hrun Hr') as [Hac _].
    pose proof (claimExpired_inv _ _ _ _ (cw_expired _ _ _ _ _ _ _ _ _ _ _ Hw)) as Hexp.
    rewrite Hac in Hexp. destruct Hexp as (e&->&He1&_&He2&_). apply E. f_equal.
    by apply (NoDup_key_inj ar_AttemptID _ e a (xo_attempt_ids _ Hok)).
  - unfold attempt_epoch_ok. rewrite Hn3, Hn2, Hn1. split; [lia|].
    eexists. split; [apply elem_of_map; exists row; split; [reflexivity|done]|].
    assert (turn_is (claim_TurnID command) row = true) as ->
      by (unfold turn_is; by rewrite bool_decide_eq_true_2).
    simpl. rewrite Hf64. done.
Qed.

Lemma claim_ok : exec_ok db'.
Proof.
  destruct claim_keys as (?&?&?&?).
  split; [done..|apply claim_turns_ok|apply claim_attempts_ok].
Qed.

End Claim.

(** ** Heartbeats *)

Record heartbeat_write (cfg : SQLStoreConfig) (clock : result time) (fence : AttemptFence)
    (db : Database) (res : HeartbeatAttemptResult) (db' : Database) (row : sqlTurnRow)
    (a : sqlTurnAttemptRow) (now lease : time) : Prop := {
  hw_row : row ∈ db.(db_turns) ∧ rowOwnsFence row fence = true;
  hw_status : TurnStatus_Terminal row.(tr_Status) = false;
  hw_attempt : a ∈ db.(db_attempts) ∧ a.(ar_TurnID) = fence.(fence_TurnID)
    ∧ a.(ar_AttemptID) = fence.(fence_AttemptID) ∧ a.(ar_FencingToken) = i64 fence.(fence_FencingToken)
    ∧ a.(ar_Status) = AttemptStatusRunning;
  hw_now : executionNow clock = Ok now;
  hw_live : now < a.(ar_LeaseExpiresAt) ∧ a.(ar_LastHeartbeatAt) ≤ now;
  hw_lease : executionLeaseExpiry cfg now = Ok lease;
  hw_db : db' = set_attempts db (map (fun x => if x.(ar_ID) =? a.(ar_ID)
                                      then heartbeatColumns lease now x else x) db.(db_attempts));
  hw_result : res.(hb_Attempt).(att_LeaseExpiresAt) = lease
    ∧ res.(hb_CancelRequestedAt) = row.(tr_CancelRequestedAt)
}.

Lemma toAttempt_inv row a :
  toAttempt row = Ok a →
  a.(att_ID) = row.(ar_AttemptID) ∧ a.(att_TurnID) = row.(ar_TurnID)
  ∧ a.(att_FencingToken) = u64 row.(ar_FencingToken) ∧ a.(att_Status) = row.(ar_Status)
  ∧ a.(att_LeaseExpiresAt) = row.(ar_LeaseExpiresAt)
  ∧ a.(att_LastHeartbeatAt) = row.(ar_LastHeartbeatAt)
  ∧ a.(att_WorkerID) = row.(ar_WorkerID) ∧ a.(att_WorkerBuildDigest) = row.(ar_WorkerBuildDigest).
Proof.
  unfold toAttempt. intros H. destruct (negb _) in H; [|done].
  destruct (TurnAttempt_Validate _) in H; by simplify_eq/=.
Qed.

Lemma heartbeatAttemptBody_inv cfg clock fence db res db' :
  heartbeatAttemptBody cfg clock fence db = Ok (res, db') →
  ∃ row a now lease, heartbeat_write cfg clock fence db res db' row a now lease.
Proof.
  unfold heartbeatAttemptBody. intros H.
  destruct (lockTurn _ _) as [row|] eqn:Hl; [|done]. apply lockTurn_inv in Hl as [Hrow _].
  destruct (toTurn row) as [turn|] eqn:Ht; [|done]. destruct (negb _) eqn:Ho in H; [|done].
  destruct (lockAttempt _ _ _ _) as [a|e] eqn:Hla; [|by destruct e].
  unfold lockAttempt in Hla. destruct (select_one _ _) eqn:Hsel; simplify_eq.
  apply select_one_elem in Hsel as [Hin Hp].
  destruct (toAttempt a) as [attempt|] eqn:Ha; [|done].
  destruct (attemptMatchesFence attempt fence && _) eqn:Hm; [|done].
  destruct (executionNow clock) as [now|] eqn:Hn; [|done].
  destruct (After _ _) eqn:Haf; [|done]. destruct (negb (Before _ _)) eqn:Hbe; [|done].
  destruct (executionLeaseExpiry _ _) as [lease|] eqn:Hlease; simplify_eq.
  apply toAttempt_inv in Ha as (_&_&_&Hst&Hle&Hhb&_). apply toTurn_inv in Ht as (_&Hts&Htc&_).
  unfold After, Before in *. bool_hyps. rewrite Hts in *. rewrite Hle, Hhb, Hst in *.
  exists row, a, now, lease. split; try done.
Qed.

Lemma HeartbeatAttempt_inv cfg ctx clock outcome fence db r db' :
  HeartbeatAttempt cfg ctx clock outcome fence db = (r, db') →
  db' = db ∧ (∃ e, r = Err e)
  ∨ ∃ res row a now lease, heartbeat_write cfg clock fence db res db' row a now lease
      ∧ (outcome = TxReported ∧ r = Ok res ∨ outcome = TxLost true ∧ r = Err ErrStoreUnavailable).
Proof.
  unfold HeartbeatAttempt. intros H. case_match; [left; naive_solver|].
  destruct (writeTransaction _ _ _ _ _) as [w dbw] eqn:Hw.
  apply writeTransaction_inv in Hw as [[[e ->] ->]|(a&db1&Hb&Ho)]; [left; naive_solver|right].
  apply heartbeatAttemptBody_inv in Hb as (row&x&now&lease&Hhw).
  destruct Ho as [(->&->&->)|(->&->&->)]; simplify_eq; eauto 10.
Qed.

(** ** The shape of a step *)

Lemma tx_step {A} cfg ctx outcome (body : Database → result (A * Database)) (P : Database → Prop)
    db r db' :
  writeTransaction cfg ctx outcome body db = (r, db') → P db →
  (∀ a db1, body db = Ok (a, db1) → P db1) → P db'.
Proof.
  intros [[_ ->]|(a&db1&Hb&[(_&_&->)|(_&_&->)])]%writeTransaction_inv HP Hbody; eauto.
Qed.

Lemma finish_step {A} cfg ctx outcome (body : Database → result (A * Database)) (P : Database → Prop)
    db r db' :
  finishWrite (writeTransaction cfg ctx outcome body db) = (r, db') → P db →
  (∀ a db1, body db = Ok (a, db1) → P db1) → P db'.
Proof.
  intros H%finishWrite_inv. destruct (writeTransaction _ _ _ _ _) eqn:E. simpl in H. subst.
  by eapply tx_step.
Qed.

Lemma admitBody_inv clock candidate first db admitted db' :
  admitBody clock candidate first db = Ok (admitted, db') →
  ∃ now, executionNow clock = Ok now ∧ admitted = admittedAt candidate now
         ∧ admitRows db admitted first now (fun _ => None) = Ok db'.
Proof.
  unfold admitBody. intros H. destruct (executionNow clock) as [now|]; [|done].
  destruct (admitRows _ _ _ _ _) eqn:E; simplify_eq. eauto.
Qed.

Lemma admitWithReservationBody_inv clock authority candidate initial db res db' :
  admitWithReservationBody clock authority candidate initial db = Ok (res, db') →
  db' = db ∨ ∃ now first bind, executionNow clock = Ok now
    ∧ buildEvent (admittedAt candidate now) 1 initial = Ok first
    ∧ admitRows db (admittedAt candidate now) first now bind = Ok db'.
Proof.
  unfold admitWithReservationBody. intros H.
  destruct (verifyReservationAdmissionWinner _ _ _) as [[w|]|]; [left; by simplify_eq|right|done].
  destruct (executionNow clock) as [now|]; [|done]. destruct (Turn_Validate _); [done|].
  destruct (buildEvent _ _ _) as [first|] eqn:Hb; [|done].
  destruct (admitRows _ _ _ _ _) eqn:E; simplify_eq. eauto 10.
Qed.

Lemma admitChecks_queued ctx candidate initial :
  admitChecks ctx candidate initial = None → candidate.(turn_Status) = TurnStatusQueued.
Proof.
  unfold admitChecks, admissionLifecycle. intros H. apply first_error_None in H.
  rewrite !Forall_cons in H. destruct H as (_&_&H&_). apply when_None in H. by bool_hyps.
Qed.
