(* ===== verification/SqlCommitFacts.v ===== *)
(** * What a commit and a retirement write

    The inversions of [commitAttemptBody] and [reconcileTerminalBody]: either the
    tables are untouched, or the record of writes below describes them all. *)

From S2P Require Import Prelude GoText GoJson AgentContract TurnTypes MemoryStore TurnService ExecutionTypes Settlement SqlDatabase SqlFacts SqlStore SqlExecution EffectOutbox SettlementAuthority SettlementTables CommitCommand SqlCommit Reconcile EpochFacts.

(** ** Commercial outcomes *)

(** The Turn an entry of the ledger decides first; resolving a Review decides
    nothing new. *)
Definition entry_turn (e : ledgerEntry) : option TurnID :=
  match e with
  | Settled c => Some c.(sc_TurnID)
  | HeldForReview c => Some c.(hold_Review).(rv_TurnID)
  | ReviewResolved _ => None
  end.

(** The Turns with a commercial outcome, one occurrence per outcome. *)
Definition outcome_turns (db : Database) : list TurnID := omap entry_turn db.(db_settlement).(st_ledger).

(** What settling writes: nothing without an authority, a settled command, or a
    Review with its hold. *)
Inductive outcome_write (st : SettlementTables) : option ledgerEntry → SettlementTables → Prop :=
| ow_none : outcome_write st None st
| ow_settled c :
    SettlementCommand_Validate c = None →
    outcome_write st (Some (Settled c)) (set_ledger st (st.(st_ledger) ++ [Settled c]))
| ow_held id hold :
    SettlementReviewHoldCommand_Validate hold = None →
    existsb (review_key_taken hold.(hold_Review)) st.(st_reviews) = false →
    outcome_write st (Some (HeldForReview hold))
      (set_ledger (set_reviews st (st.(st_reviews) ++ [mkStored id hold.(hold_Review)]))
         (st.(st_ledger) ++ [HeldForReview hold])).

Lemma settle_inv s db c db' :
  settle s db c = Ok db' →
  (s.(ss_settlement) = None ∧ db' = db)
  ∨ ∃ a, s.(ss_settlement) = Some a ∧ SettlementCommand_Validate c = None
         ∧ a.(sa_Settle) db c = None ∧ db' = record_entry db (Settled c).
Proof.
  unfold settle. intros H. destruct (negb _); [|done].
  destruct (ss_settlement s) as [a|]; [|left; by simplify_eq]. right. exists a.
  destruct (SettlementCommand_Validate c); [done|]. destruct (sa_Settle a db c) eqn:?; [done|].
  by simplify_eq.
Qed.

Lemma insertReview_inv db review db' :
  insertReview db review = Ok db' →
  existsb (review_key_taken review) db.(db_settlement).(st_reviews) = false
  ∧ ∃ id, db' = set_settlement db (set_reviews db.(db_settlement)
                  (db.(db_settlement).(st_reviews) ++ [mkStored id review])).
Proof.
  unfold insertReview. cbv zeta. intros H. destruct (existsb _ _) eqn:E; [done|]. simplify_eq/=. eauto.
Qed.

Lemma persistWithAuthority_inv db turn review a db' :
  persistSettlementReviewWithAuthority db turn review a = Ok db' →
  let hold := mkSettlementReviewHoldCommand review turn.(turn_PrincipalID) in
  is_Some a.(sa_HoldForReview) ∧ SettlementReviewHoldCommand_Validate hold = None
  ∧ ∃ st', db' = set_settlement db st' ∧ outcome_write db.(db_settlement) (Some (HeldForReview hold)) st'.
Proof.
  unfold persistSettlementReviewWithAuthority. cbv zeta. intros H.
  destruct (bool_decide _); [|done]. destruct (SettlementReviewRecord_Validate _) in H; [done|].
  destruct (insertReview db review) as [db1|] eqn:Hi; [|done].
  destruct (SettlementReviewHoldCommand_Validate _) eqn:Hv in H; [done|].
  destruct (sa_HoldForReview a) as [h|]; [|done]. destruct (h _ _); [done|]. simplify_eq.
  apply insertReview_inv in Hi as (Hnew&id&->). split; [done|]. split; [done|].
  eexists. split; [reflexivity|]. cbn. by apply (ow_held _ id (mkSettlementReviewHoldCommand _ _)).
Qed.

Lemma persistSettlementReview_inv s db turn review db' :
  persistSettlementReview s db turn review = Ok db' →
  ∃ a, s.(ss_settlement) = Some a ∧ persistSettlementReviewWithAuthority db turn review a = Ok db'.
Proof.
  unfold persistSettlementReview, settlementReviewProviderUsageAuthorityLocked,
    settlementReviewUsageAuthorityLocked, reviewAuthority. intros H.
  repeat case_match; simplify_eq; eauto.
Qed.

(** ** The rows of a commit *)

Lemma insertOperation_inv db row db' :
  insertOperation db row = Ok db' →
  lookupOperationTx db row.(or_TurnID) row.(or_OperationID) = None
  ∧ db' = set_operations db (db.(db_operations) ++ [row]).
Proof. unfold insertOperation. intros H. case_bool_decide; by simplify_eq. Qed.

(** [row] is what the outbox stores for [draft]. *)
Definition effect_row_for (attempt : TurnAttempt) (operationID : string) (now : time)
    (draft : EffectOutboxDraft) (row : sqlEffectOutboxRow) : Prop :=
  ∃ ordinal id built record, buildEffectOutboxRow attempt operationID ordinal draft now = Ok (built, record)
                             ∧ row = with_effect_id built id.

Lemma insertEffects_inv attempt op now : ∀ effects ordinal db records db',
  insertEffects attempt op now ordinal effects db = Ok (records, db') →
  ∃ rows, db' = set_effects db (db.(db_effects) ++ rows)
          ∧ Forall2 (effect_row_for attempt op now) effects rows ∧ length records = length effects.
Proof.
  induction effects as [|d effects IH]; intros ordinal db records db' H; simpl in H.
  { simplify_eq. exists []. rewrite app_nil_r. by destruct db'. }
  destruct (buildEffectOutboxRow _ _ _ _ _) as [[built rec]|] eqn:Hb; [|done]. simpl in H.
  destruct (insertEffect db built) as [db1|] eqn:Hi; [|done].
  destruct (insertEffects _ _ _ _ _ _) as [[recs db2]|] eqn:Hr; [|done]. simplify_eq/=.
  unfold insertEffect in Hi. destruct (negb _); simplify_eq.
  apply IH in Hr as (rows&->&Hf&Hl). simpl. eexists (_ :: rows). rewrite <- app_assoc. simpl.
  split; [done|]. split; [|by f_equal]. constructor; [|done]. unfold effect_row_for. eauto 10.
Qed.

(** The outbox after a commit: its own rows, and the holds of a Review. *)
Definition committed_effects (effects : list sqlEffectOutboxRow) (rows : list sqlEffectOutboxRow)
    (turnID : TurnID) (pending : option SettlementReviewRecord) (now : time) : list sqlEffectOutboxRow :=
  match pending with
  | None => effects ++ rows
  | Some _ => update_rows (effect_holdable turnID) (heldEffect now) (effects ++ rows)
  end.

Lemma holdForReview_inv db turnID pending now reopened openedAt db' :
  holdForReview db turnID pending now reopened = Ok (openedAt, db') →
  db' = set_effects db (match pending with
                        | None => db.(db_effects)
                        | Some _ => update_rows (effect_holdable turnID) (heldEffect now) db.(db_effects)
                        end).
Proof.
  unfold holdForReview. destruct pending; intros H; [|simplify_eq; by destruct db'].
  destruct (executionNow reopened); by simplify_eq.
Qed.

(** The outcome of a terminal write whose Review, if any, is [pending]. *)
Definition terminal_outcome (s : nat → settlementState) (turn : Turn) (c : SettlementCommand)
    (pending : option SettlementReviewRecord) (openedAt : time) (outcome : option ledgerEntry) : Prop :=
  match pending with
  | Some r => outcome = Some (HeldForReview (mkSettlementReviewHoldCommand
                                (with_review_times r openedAt openedAt) turn.(turn_PrincipalID)))
  | None => (s 5%nat).(ss_settlement) = None ∧ outcome = None
            ∨ (∃ a k, (s 5%nat).(ss_settlement) = Some a ∧ a.(sa_Settle) k c = None) ∧ outcome = Some (Settled c)
  end.

Lemma providerAuthority_installed s a :
  settlementReviewProviderUsageAuthorityLocked s = Ok a → s.(ss_settlement) = Some a.
Proof. unfold settlementReviewProviderUsageAuthorityLocked. intros H. by repeat case_match; simplify_eq. Qed.

(** Settling and opening a Review write the settlement tables only. *)
Lemma terminal_settlement_inv (provider : bool) s db turn c pending openedAt db' :
  match pending with
  | Some review =>
    (if provider then
       try! authority := settlementReviewProviderUsageAuthorityLocked (s 2%nat) in
       persistSettlementReviewWithAuthority db turn (with_review_times review openedAt openedAt) authority
     else persistSettlementReview (s 5%nat) db turn (with_review_times review openedAt openedAt)) = Ok db'
  | None => settle (s 5%nat) db c = Ok db'
  end →
  ∃ outcome st', db' = set_settlement db st' ∧ outcome_write db.(db_settlement) outcome st'
                 ∧ terminal_outcome s turn c pending openedAt outcome.
Proof.
  destruct pending as [r|]; simpl.
  - intros H. assert (∃ a, persistSettlementReviewWithAuthority db turn (with_review_times r openedAt openedAt) a = Ok db')
      as [a (_&_&st'&->&Ho)%persistWithAuthority_inv]; [|eauto].
    destruct provider; [case_match; simplify_eq; eauto|].
    apply persistSettlementReview_inv in H as (a&_&?). eauto.
  - intros [(?&->)|(a&Ha&Hv&Hacc&->)]%settle_inv.
    + exists None, db.(db_settlement). split; [by destruct db|]. split; [constructor|auto].
    + eexists _, _. split; [reflexivity|]. split; [by apply ow_settled|]. right. split; [by exists a, db|done].
Qed.

Lemma commitSettlement_inv mode s db turn n pending openedAt review db' :
  commitSettlement mode s db turn n pending openedAt = Ok (review, db') →
  ∃ outcome st', db' = set_settlement db st' ∧ outcome_write db.(db_settlement) outcome st'
    ∧ (if bool_decide (n.(commit_TerminalStatus) = "") then outcome = None
       else terminal_outcome s turn (commitSettlementCommand turn n) pending openedAt outcome).
Proof.
  unfold commitSettlement. intros H. case_bool_decide.
  { simplify_eq. exists None, db'.(db_settlement). split; [by destruct db'|]. split; [constructor|done]. }
  apply (terminal_settlement_inv (bool_decide (mode = operationTerminalizationProviderUsageReview)) s db turn).
  destruct pending; cbv zeta in *; [destruct (if bool_decide _ then _ else _) in H |- *|destruct (settle _ _ _)];
    by simplify_eq.
Qed.

(** ** A new commit *)

(** What a commit computed on its way. *)
Record commitTrace := mkCommitTrace {
  ctr_row : sqlTurnRow;
  ctr_turn : Turn;
  ctr_attemptRow : sqlTurnAttemptRow;
  ctr_attempt : TurnAttempt;
  ctr_now : time;
  ctr_review : option (SettlementUsageEvidence * SettlementReviewSource);
  ctr_next : Turn;
  ctr_pending : option SettlementReviewRecord;
  ctr_draft : EventDraft;
  ctr_sequence : Sequence;
  ctr_event : EventEnvelope;
  ctr_eventRow : sqlTurnEventRow;
  ctr_effects : list sqlEffectOutboxRow;
  ctr_openedAt : time;
  ctr_outcome : option ledgerEntry
}.

Definition plan_command (plan : commitPlan) : CommitAttemptCommand := plan.(plan_primary).(cand_Command).

Record commit_write (plan : commitPlan) (s : nat → settlementState) (clock : result time)
    (db : Database) (res : CommitAttemptResult) (db' : Database) (k : commitTrace) : Prop := {
  cm_turn : k.(ctr_row) ∈ db.(db_turns)
            ∧ turn_is (plan_command plan).(commit_Fence).(fence_TurnID) k.(ctr_row) = true
            ∧ toTurn k.(ctr_row) = Ok k.(ctr_turn);
  cm_new : lookupOperationTx db (plan_command plan).(commit_Fence).(fence_TurnID)
             (plan_command plan).(commit_OperationID) = None;
  cm_trusted : plan.(plan_untrusted) = false;
  cm_owner : commitAttemptRow k.(ctr_row) k.(ctr_turn) (plan_command plan).(commit_Fence)
               (lockAttempt db (plan_command plan).(commit_Fence).(fence_TurnID)
                  (plan_command plan).(commit_Fence).(fence_AttemptID)
                  (i64 (plan_command plan).(commit_Fence).(fence_FencingToken)))
             = Ok (k.(ctr_attemptRow), k.(ctr_attempt));
  cm_now : commitNow k.(ctr_turn) k.(ctr_attempt) (plan_command plan).(commit_TerminalStatus) clock
           = Ok k.(ctr_now);
  cm_review : commitReviewEvidence plan.(plan_mode) s db k.(ctr_turn) (plan_command plan)
              = Ok k.(ctr_review);
  cm_next : commitNext plan.(plan_mode) k.(ctr_turn)
              (committedAttempt k.(ctr_attempt) (plan_command plan).(commit_TerminalStatus) k.(ctr_now))
              (plan_command plan) k.(ctr_review) k.(ctr_now)
            = Ok (k.(ctr_next), k.(ctr_pending), k.(ctr_draft));
  cm_valid : Turn_Validate k.(ctr_next) = None
             ∧ TurnAttempt_Validate (committedAttempt k.(ctr_attempt)
                 (plan_command plan).(commit_TerminalStatus) k.(ctr_now)) = None;
  cm_event : nextSQLSequence k.(ctr_row).(tr_LastEventSequence) = Ok k.(ctr_sequence)
             ∧ buildEvent k.(ctr_next) k.(ctr_sequence) k.(ctr_draft) = Ok k.(ctr_event)
             ∧ eventToSQLRow (next_id er_ID db.(db_events)) k.(ctr_event) k.(ctr_now)
               = Ok k.(ctr_eventRow)
             ∧ existsb (event_key_taken k.(ctr_eventRow)) db.(db_events) = false;
  cm_effect_rows : Forall2 (effect_row_for (committedAttempt k.(ctr_attempt)
                       (plan_command plan).(commit_TerminalStatus) k.(ctr_now))
                     (plan_command plan).(commit_OperationID) k.(ctr_now))
                     (plan_command plan).(commit_Effects) k.(ctr_effects);
  cm_turns : db'.(db_turns)
             = update_rows (turn_is k.(ctr_next).(turn_ID))
                 (committedTurnColumns (plan_command plan).(commit_TerminalStatus)
                    (i64 k.(ctr_event).(ev_Sequence)) k.(ctr_now)) db.(db_turns);
  cm_unique : ∀ x y, x ∈ db.(db_turns) → y ∈ db.(db_turns) → turn_is k.(ctr_next).(turn_ID) x = true →
              turn_is k.(ctr_next).(turn_ID) y = true → x = y;
  cm_attempts : db'.(db_attempts)
                = update_rows (fun r => r.(ar_ID) =? k.(ctr_attemptRow).(ar_ID))
                    (committedAttemptColumns (plan_command plan).(commit_TerminalStatus) k.(ctr_now))
                    db.(db_attempts);
  cm_events : db'.(db_events) = db.(db_events) ++ [k.(ctr_eventRow)];
  cm_operation_ok : validateOperationRow
      (operationRow db k.(ctr_next) (committedAttempt k.(ctr_attempt)
         (plan_command plan).(commit_TerminalStatus) k.(ctr_now)) plan k.(ctr_event).(ev_Sequence) k.(ctr_now))
      = None;
  cm_operations : db'.(db_operations) = db.(db_operations) ++
      [operationRow db k.(ctr_next) (committedAttempt k.(ctr_attempt)
         (plan_command plan).(commit_TerminalStatus) k.(ctr_now)) plan k.(ctr_event).(ev_Sequence) k.(ctr_now)];
  cm_effects : db'.(db_effects) = committed_effects db.(db_effects) k.(ctr_effects)
                 k.(ctr_next).(turn_ID) k.(ctr_pending) k.(ctr_now);
  cm_settlement : outcome_write db.(db_settlement) k.(ctr_outcome) db'.(db_settlement)
    ∧ (if bool_decide ((plan_command plan).(commit_TerminalStatus) = "") then k.(ctr_outcome) = None
       else terminal_outcome s k.(ctr_next) (commitSettlementCommand k.(ctr_next) (plan_command plan))
              k.(ctr_pending) k.(ctr_openedAt) k.(ctr_outcome));
  cm_result : res.(cres_Replay) = false ∧ res.(cres_Turn) = k.(ctr_next)
    ∧ res.(cres_OperationDigest) = plan.(plan_primary).(cand_Digest) ∧ res.(cres_Event) = k.(ctr_event)
    ∧ res.(cres_Attempt) = committedAttempt k.(ctr_attempt)
        (plan_command plan).(commit_TerminalStatus) k.(ctr_now)
}.

Lemma commitAttemptBody_inv plan s clock reopened db res db' :
  commitAttemptBody plan s clock reopened db = Ok (res, db') →
  (db' = db ∧ ∃ row turn operation,
     lockTurn db (turn_is (plan_command plan).(commit_Fence).(fence_TurnID)) = Ok row
     ∧ toTurn row = Ok turn
     ∧ lookupOperationTx db (plan_command plan).(commit_Fence).(fence_TurnID)
         (plan_command plan).(commit_OperationID) = Some operation
     ∧ replayOperation (s 6%nat) db row turn operation plan = Ok res)
  ∨ ∃ k, commit_write plan s clock db res db' k.
Proof.
  unfold commitAttemptBody. fold (plan_command plan). cbv zeta. intros H.
  destruct (lockTurn _ _) as [row|] eqn:Hrow; [|done].
  destruct (toTurn row) as [turn|] eqn:Hturn; [|done].
  destruct (if bool_decide _ then _ else _) in H; [done|].
  destruct (lookupOperationTx _ _ _) as [operation|] eqn:Hop.
  { left. destruct (replayOperation _ _ _ _ _ _) as [r|] eqn:Hr; [|done]. simplify_eq. eauto 10. }
  right. destruct (plan_untrusted plan) eqn:Htr; [done|]. simpl in H.
  destruct (commitAttemptRow _ _ _ _) as [[arow attempt]|] eqn:Hown; [|done]. cbn [fst snd] in H.
  destruct (commitNow _ _ _ _) as [now|] eqn:Hnow; [|done].
  destruct (commitReviewEvidence _ _ _ _ _) as [review|] eqn:Hrev; [|done].
  destruct (commitNext _ _ _ _ _ _) as [[[next pending] draft]|] eqn:Hnext; [|done]. cbn [fst snd] in H.
  unfold commitWrites in H. fold (plan_command plan) in H. cbv zeta in H.
  destruct (Turn_Validate next) eqn:Hv1; [done|].
  destruct (TurnAttempt_Validate _) eqn:Hv2 in H; [done|].
  destruct (nextSQLSequence _) as [sequence|] eqn:Hseq in H; [|done].
  destruct (buildEvent _ _ _) as [event|] eqn:Hev in H; [|done].
  destruct (insertEvent _ _ _) as [db1|] eqn:Hi in H; [|done].
  apply insertEvent_inv in Hi as (e&->&He&Hk).
  destruct (validateOperationRow _) eqn:Hov in H; [done|].
  destruct (insertOperation _ _) as [db2|] eqn:Hio in H; [|done]. apply insertOperation_inv in Hio as [_ ->].
  destruct (insertEffects _ _ _ _ _ _) as [[records db3]|] eqn:Hie in H; [|done].
  apply insertEffects_inv in Hie as (rows&->&Hrows&_). cbn [fst snd] in H.
  destruct (holdForReview _ _ _ _ _) as [[openedAt db4]|] eqn:Hh in H; [|done].
  apply holdForReview_inv in Hh as ->. cbn [fst snd] in H.
  destruct (updateTurnColumns _ _ _) as [db5|] eqn:Hu in H; [|done].
  destruct (commitSettlement _ _ _ _ _ _ _) as [[srev db6]|] eqn:Hs in H; [|done].
  apply commitSettlement_inv in Hs as (outcome&st'&->&Hw&Ho).
  unfold updateTurnColumns in Hu. destruct (rows_matched _ _ =? 1)%nat eqn:E; [|done]. simplify_eq/=.
  apply Nat.eqb_eq in E.
  exists (mkCommitTrace row turn arow attempt now review next pending draft sequence event e rows openedAt outcome).
  apply lockTurn_inv in Hrow as [Hin Hid].
  split; simpl; try done; try (by destruct pending).
  intros x y Hx Hy. by apply (rows_matched_unique _ _ x y E).
Qed.

(** ** A retirement *)

Record retireTrace := mkRetireTrace {
  rtr_row : sqlTurnRow;
  rtr_turn : Turn;
  rtr_now : time;
  rtr_expired : option sqlTurnAttemptRow;
  rtr_evidence : option SettlementUsageEvidence;
  rtr_fence : Sequence;
  rtr_pending : option SettlementReviewRecord;
  rtr_sequence : Sequence;
  rtr_draft : EventDraft;
  rtr_event : EventEnvelope;
  rtr_eventRow : sqlTurnEventRow;
  rtr_openedAt : time;
  rtr_outcome : option ledgerEntry
}.

Record retire_write (cfg : SQLStoreConfig) (provider : bool) (s : nat → settlementState)
    (clock : result time) (command : ReconcileCommand) (terminal : TurnStatus) (db : Database)
    (res : ReconcileResult) (db' : Database) (k : retireTrace) : Prop := {
  rw_turn : k.(rtr_row) ∈ db.(db_turns) ∧ turn_is command.(rcmd_TurnID) k.(rtr_row) = true
            ∧ toTurn k.(rtr_row) = Ok k.(rtr_turn)
            ∧ TurnStatus_Terminal k.(rtr_turn).(turn_Status) = false;
  rw_now : executionNow clock = Ok k.(rtr_now);
  rw_guards : reconcileGuards cfg provider s command.(rcmd_Reason) terminal db k.(rtr_row) k.(rtr_turn)
                k.(rtr_now) = Ok k.(rtr_expired);
  rw_evidence : reconcileEvidence provider s db k.(rtr_turn) = Ok k.(rtr_evidence);
  rw_fence : nextExecutionFence k.(rtr_row).(tr_FencingToken) = Ok k.(rtr_fence);
  rw_valid : Turn_Validate (finishedTurn k.(rtr_turn) terminal k.(rtr_now)) = None;
  rw_pending : reconcileReview provider (finishedTurn k.(rtr_turn) terminal k.(rtr_now)) k.(rtr_fence)
                 k.(rtr_evidence) k.(rtr_now) = Ok k.(rtr_pending);
  rw_event : nextSQLSequence k.(rtr_row).(tr_LastEventSequence) = Ok k.(rtr_sequence)
             ∧ reconcileEvent command.(rcmd_Reason) terminal k.(rtr_pending) = Ok k.(rtr_draft)
             ∧ buildEvent (finishedTurn k.(rtr_turn) terminal k.(rtr_now)) k.(rtr_sequence) k.(rtr_draft)
               = Ok k.(rtr_event)
             ∧ eventToSQLRow (next_id er_ID db.(db_events)) k.(rtr_event) k.(rtr_now)
               = Ok k.(rtr_eventRow)
             ∧ existsb (event_key_taken k.(rtr_eventRow)) db.(db_events) = false;
  rw_turns : db'.(db_turns)
             = update_rows (turn_is k.(rtr_turn).(turn_ID))
                 (retiredColumns terminal k.(rtr_fence) (i64 k.(rtr_sequence)) k.(rtr_now)) db.(db_turns);
  rw_unique : ∀ x y, x ∈ db.(db_turns) → y ∈ db.(db_turns) → turn_is k.(rtr_turn).(turn_ID) x = true →
              turn_is k.(rtr_turn).(turn_ID) y = true → x = y;
  rw_attempts : db'.(db_attempts) = (expireAttempt db k.(rtr_expired) k.(rtr_now)).(db_attempts);
  rw_events : db'.(db_events) = db.(db_events) ++ [k.(rtr_eventRow)];
  rw_operations : db'.(db_operations) = db.(db_operations);
  rw_effects : db'.(db_effects) = committed_effects db.(db_effects) [] k.(rtr_turn).(turn_ID)
                 k.(rtr_pending) k.(rtr_now);
  rw_settlement : outcome_write db.(db_settlement) k.(rtr_outcome) db'.(db_settlement)
    ∧ terminal_outcome s (finishedTurn k.(rtr_turn) terminal k.(rtr_now))
        (reconcileSettlementCommand (finishedTurn k.(rtr_turn) terminal k.(rtr_now)) k.(rtr_fence))
        k.(rtr_pending) k.(rtr_openedAt) k.(rtr_outcome);
  rw_result : res.(rec_Changed) = true ∧ res.(rec_Turn) = finishedTurn k.(rtr_turn) terminal k.(rtr_now)
              ∧ res.(rec_FencedAttemptID) = default "" (ar_AttemptID <$> k.(rtr_expired))
}.

Lemma expireAttempt_other db expired now :
  let db' := expireAttempt db expired now in
  db'.(db_turns) = db.(db_turns) ∧ db'.(db_events) = db.(db_events) ∧ db'.(db_effects) = db.(db_effects)
  ∧ db'.(db_operations) = db.(db_operations) ∧ db'.(db_settlement) = db.(db_settlement).
Proof. by destruct expired. Qed.

Lemma reconcileSettlement_inv provider s db turn fence pending openedAt review db' :
  reconcileSettlement provider s db turn fence pending openedAt = Ok (review, db') →
  ∃ outcome st', db' = set_settlement db st' ∧ outcome_write db.(db_settlement) outcome st'
    ∧ terminal_outcome s turn (reconcileSettlementCommand turn fence) pending openedAt outcome.
Proof.
  unfold reconcileSettlement. intros H.
  apply (terminal_settlement_inv provider s db turn).
  destruct pending; cbv zeta in *; [destruct (if provider then _ else _) in H |- *|destruct (settle _ _ _)];
    by simplify_eq.
Qed.

Lemma reconcileTerminalBody_inv cfg provider s clock reopened command terminal db res db' :
  reconcileTerminalBody cfg provider s clock reopened command terminal db = Ok (res, db') →
  (db' = db ∧ res.(rec_Changed) = false ∧ TurnStatus_Terminal res.(rec_Turn).(turn_Status) = true)
  ∨ ∃ k, retire_write cfg provider s clock command terminal db res db' k.
Proof.
  unfold reconcileTerminalBody. cbv zeta. intros H.
  destruct (lockTurn _ _) as [row|] eqn:Hrow; [|done].
  destruct (toTurn row) as [turn|] eqn:Hturn; [|done].
  destruct (if provider then _ else _) in H; [done|].
  destruct (TurnStatus_Terminal _) eqn:Hterm in H.
  { left. destruct (reconcileFinished _ _ _) as [r|] eqn:Hr; [|done]. simplify_eq.
    unfold reconcileFinished in Hr. repeat case_match; simplify_eq; done. }
  right. destruct (executionNow clock) as [now|] eqn:Hnow; [|done].
  destruct (reconcileGuards _ _ _ _ _ _ _ _ _) as [expired|] eqn:Hg; [|done].
  destruct (reconcileEvidence _ _ _ _) as [evidence|] eqn:He; [|done].
  destruct (nextExecutionFence _) as [fence|] eqn:Hf; [|done].
  destruct (negb _) in H; [|done].
  destruct (Turn_Validate _) eqn:Hv in H; [done|].
  destruct (reconcileReview _ _ _ _ _) as [pending|] eqn:Hp; [|done].
  unfold reconcileWrites in H. cbv zeta in H.
  change (turn_Status (finishedTurn turn terminal now)) with terminal in H.
  change (turn_ID (finishedTurn turn terminal now)) with (turn_ID turn) in H.
  destruct (nextSQLSequence _) as [sequence|] eqn:Hseq in H; [|done].
  destruct (reconcileEvent _ _ _) as [draft|] eqn:Hd in H; [|done].
  destruct (buildEvent _ _ _) as [event|] eqn:Hev in H; [|done].
  destruct (insertEvent _ _ _) as [db1|] eqn:Hi in H; [|done].
  apply insertEvent_inv in Hi as (e&->&Herow&Hk).
  destruct (updateTurnColumns _ _ _) as [db2|] eqn:Hu in H; [|done].
  unfold updateTurnColumns in Hu. destruct (rows_matched _ _ =? 1)%nat eqn:E; [|done]. injection Hu as <-.
  destruct (holdForReview _ _ _ _ _) as [[openedAt db3]|] eqn:Hh in H; [|done].
  apply holdForReview_inv in Hh as ->. cbn [fst snd] in H.
  destruct (reconcileSettlement _ _ _ _ _ _ _) as [[srev db4]|] eqn:Hs in H; [|done].
  apply reconcileSettlement_inv in Hs as (outcome&st'&->&Hw&Ho). simplify_eq.
  cbn [db_turns set_events] in E. apply Nat.eqb_eq in E.
  exists (mkRetireTrace row turn now expired evidence fence pending sequence draft event e openedAt outcome).
  apply lockTurn_inv in Hrow as [Hin Hid].
  destruct (expireAttempt_other db expired now) as (E1&E2&E3&E4&E5).
  cbn in Hw, Ho. rewrite E5 in Hw. rewrite E2 in Herow, Hk. rewrite E1 in E.
  split; simpl; rewrite ?E1, ?E2, ?E3, ?E4, ?E5; try done.
  - intros x y Hx Hy. by apply (rows_matched_unique _ _ x y E).
  - destruct pending; simpl; by rewrite ?app_nil_r.
Qed.

Lemma commitNext_inv mode turn nextAttempt n review now next pending draft :
  commitNext mode turn nextAttempt n review now = Ok (next, pending, draft) →
  (n.(commit_TerminalStatus) = "" ∧ next = turn ∧ pending = None ∧ n.(commit_Event) = Some draft)
  ∨ (n.(commit_TerminalStatus) ≠ "" ∧ next = finishedTurn turn n.(commit_TerminalStatus) now
     ∧ CanTransition turn.(turn_Status) n.(commit_TerminalStatus) = true
     ∧ commitReviewRecord mode next nextAttempt n.(commit_OperationID) review now = Ok pending
     ∧ statusEventWithSettlementReview n.(commit_TerminalStatus)
         (bool_decide (n.(commit_TerminalStatus) = TurnStatusStopped)) pending = Ok draft).
Proof.
  unfold commitNext. cbv zeta. intros H. case_bool_decide as E.
  { left. destruct (commit_Event n); by simplify_eq. }
  right. destruct (CanTransition _ _) eqn:Hc; [|done]. destruct (negb _) in H; [|done].
  destruct (commitReviewRecord _ _ _ _ _ _) eqn:Hr; [|done].
  destruct (statusEventWithSettlementReview _ _ _) eqn:Hs; [|done]. by simplify_eq.
Qed.

Lemma commitNext_id mode turn nextAttempt n review now next pending draft :
  commitNext mode turn nextAttempt n review now = Ok (next, pending, draft) →
  next.(turn_ID) = turn.(turn_ID).
Proof. by intros [(_&->&_)|(_&->&_)]%commitNext_inv. Qed.
