(* ===== verification/SqlExecutionFacts.v ===== *)
(** * Runs of the execution tables

    A step is one transaction of the Turn store or of the execution store at a
    database time.  [xs_other] is any transaction that leaves the Turn, Attempt,
    Event and Operation tables and the first commercial outcomes alone:
    deliveries, the provider journal, review evidence and resolutions. *)

From S2P Require Import Prelude GoText GoJson AgentContract TurnTypes MemoryStore TurnService ExecutionTypes SqlDatabase SqlFacts SqlStore SqlExecution EffectOutbox SettlementAuthority SettlementTables CommitCommand SqlCommit Reconcile EpochFacts SqlCommitFacts.

Inductive kernel_step (cfg : SQLStoreConfig) : time * Database → time * Database → Prop :=
| xs_admit ctx clock outcome candidate initial first t t' db r db' :
    t ≤ t' → clock_reading t' clock →
    admitChecks background candidate initial = None → buildEvent candidate 1 initial = Ok first →
    writeTransaction cfg ctx outcome (admitBody clock candidate first) db = (r, db') →
    kernel_step cfg (t, db) (t', db')
| xs_admit_reserved authority ctx clock outcome candidate initial t t' db r db' :
    t ≤ t' → clock_reading t' clock → admitChecks background candidate initial = None →
    writeTransaction cfg ctx outcome (admitWithReservationBody clock authority candidate initial) db
      = (r, db') →
    kernel_step cfg (t, db) (t', db')
| xs_append env turnID draft t t' db r db' :
    t ≤ t' → clock_reading t' env.(se_clock) →
    SQLStore_AppendEvent cfg env turnID draft db = (r, db') →
    kernel_step cfg (t, db) (t', db')
| xs_transition env turnID to at_ draft t t' db r db' :
    t ≤ t' → clock_reading t' env.(se_clock) →
    SQLStore_Transition cfg env turnID to at_ draft db = (r, db') →
    kernel_step cfg (t, db) (t', db')
| xs_cancel env p th turnID at_ draft t t' db r db' :
    t ≤ t' → clock_reading t' env.(se_clock) →
    SQLStore_RequestCancel cfg env p th turnID at_ draft db = (r, db') →
    kernel_step cfg (t, db) (t', db')
| xs_claim authority ctx clock outcome command t t' db r db' :
    t ≤ t' → clock_reading t' clock → ClaimAttemptCommand_Validate command = None →
    writeTransaction cfg ctx outcome (claimAttemptBody cfg authority clock command) db = (r, db') →
    kernel_step cfg (t, db) (t', db')
| xs_heartbeat ctx clock outcome fence t t' db r db' :
    t ≤ t' → clock_reading t' clock →
    HeartbeatAttempt cfg ctx clock outcome fence db = (r, db') →
    kernel_step cfg (t, db) (t', db')
| xs_commit plan s clock reopened command ctx outcome t t' db r db' :
    t ≤ t' → clock_reading t' clock → CommitAttemptCommand_Validate command = None →
    planCommit s command = Ok plan →
    writeTransaction cfg ctx outcome (commitAttemptBody plan s clock reopened) db = (r, db') →
    kernel_step cfg (t, db) (t', db')
| xs_reconcile provider s clock reopened command terminal ctx outcome t t' db r db' :
    t ≤ t' → clock_reading t' clock → ReconcileCommand_Validate command = None →
    ReclaimReason_TerminalStatus command.(rcmd_Reason) = Some terminal →
    writeTransaction cfg ctx outcome
      (reconcileTerminalBody cfg provider s clock reopened command terminal) db = (r, db') →
    kernel_step cfg (t, db) (t', db').

Inductive exec_step (cfg : SQLStoreConfig) : time * Database → time * Database → Prop :=
| xs_kernel s s' : kernel_step cfg s s' → exec_step cfg s s'
| xs_other t t' db db' :
    t ≤ t' → db'.(db_turns) = db.(db_turns) → db'.(db_attempts) = db.(db_attempts) →
    db'.(db_events) = db.(db_events) → db'.(db_operations) = db.(db_operations) →
    outcome_turns db' = outcome_turns db →
    exec_step cfg (t, db) (t', db').

Definition exec_run (cfg : SQLStoreConfig) : relation (time * Database) := rtc (exec_step cfg).

(** A database no call has touched yet. *)
Definition fresh_tables (db : Database) : Prop :=
  db.(db_turns) = [] ∧ db.(db_attempts) = [] ∧ db.(db_events) = [] ∧ db.(db_operations) = []
  ∧ outcome_turns db = [].

Definition exec_reachable (cfg : SQLStoreConfig) (s : time * Database) : Prop :=
  ∃ t db, fresh_tables db ∧ exec_run cfg (t, db) s.

(** What a step may do to a lease: nothing, or extend it at its own time. *)
Definition lease_moves (cfg : SQLStoreConfig) (t : time) (a a' : sqlTurnAttemptRow) : Prop :=
  a'.(ar_LeaseExpiresAt) = a.(ar_LeaseExpiresAt) ∧ a'.(ar_LastHeartbeatAt) = a.(ar_LastHeartbeatAt)
  ∨ ∃ now, canonicalExecutionTime t = Ok now ∧ a.(ar_LastHeartbeatAt) ≤ now
      ∧ a'.(ar_LastHeartbeatAt) = now ∧ executionLeaseExpiry cfg now = Ok a'.(ar_LeaseExpiresAt).

Inductive step_shape (cfg : SQLStoreConfig) (t : time) (db db' : Database) : Prop :=
| shape_keep f g :
    db'.(db_turns) = map f db.(db_turns) → db'.(db_attempts) = map g db.(db_attempts) →
    (∀ r, r ∈ db.(db_turns) → turn_keeps r (f r)) →
    (∀ a, a ∈ db.(db_attempts) → attempt_keeps a (g a) ∧ lease_moves cfg t a (g a)) →
    step_shape cfg t db db'
| shape_admit id admitted :
    admitted.(turn_Status) = TurnStatusQueued →
    db'.(db_turns) = db.(db_turns) ++ [turnToSQLRow id admitted 1] →
    db'.(db_attempts) = db.(db_attempts) →
    existsb (turn_key_taken (turnToSQLRow id admitted 1)) db.(db_turns) = false →
    step_shape cfg t db db'
| shape_claim clock command res row turn now expired lease :
    claim_write cfg clock command db res db' row turn now expired lease →
    canonicalExecutionTime t = Ok now → step_shape cfg t db db'
| shape_retire turnID f g :
    (∀ r, r ∈ db.(db_turns) → turn_is turnID r = true →
          turn_retires r (f r) ∧ TurnStatus_Terminal r.(tr_Status) = false) →
    (∀ a, attempt_retires a (g a)) →
    db'.(db_turns) = update_rows (turn_is turnID) f db.(db_turns) →
    db'.(db_attempts) = update_rows (runs_turn turnID) g db.(db_attempts) →
    step_shape cfg t db db'.

Lemma shape_same cfg t db : step_shape cfg t db db.
Proof.
  apply (shape_keep _ _ _ _ id id); rewrite ?List.map_id; try done.
  - intros r _. split; [done|by left].
  - intros a _. split; [done|by left].
Qed.

Lemma shape_turn_write cfg t db row next last db' :
  turn_write db row next last db' →
  next.(turn_Status) = row.(tr_Status)
  ∨ row.(tr_FencingToken) = 0 ∧ row.(tr_ActiveAttemptID) = None
    ∧ TurnStatus_Terminal row.(tr_Status) = false →
  step_shape cfg t db db'.
Proof.
  intros Hw Hst. destruct (turn_write_keeps _ _ _ _ _ Hw Hst) as (f&Ht&Ha&Hf).
  apply (shape_keep _ _ _ _ f id); [done..|]. intros a _. split; [done|by left].
Qed.

Lemma shape_admit_rows cfg t db candidate initial first now bind db' :
  admitChecks background candidate initial = None →
  admitRows db (admittedAt candidate now) first now bind = Ok db' → step_shape cfg t db db'.
Proof.
  intros Hv (id&e&Ht&Ha&_&_&Hk)%admitRows_inv. eapply shape_admit; [|done..].
  exact (admitChecks_queued _ _ _ Hv).
Qed.

Lemma shape_heartbeat cfg t clock fence db res db' row a now lease :
  exec_ok db → clock_reading t clock →
  heartbeat_write cfg clock fence db res db' row a now lease → step_shape cfg t db db'.
Proof.
  intros Hok Hck [_ _ (Ha&_) Hnow [_ Hhb] Hlease -> _].
  eapply executionNow_reading in Hnow; [|done].
  eapply (shape_keep _ _ _ _ id); [by rewrite List.map_id|done| |].
  - intros r _. split; [done|by left].
  - intros x Hx. simpl. destruct (ar_ID x =? ar_ID a) eqn:E; [|split; [done|by left]]. bool_hyps.
    rewrite (NoDup_key_inj ar_ID _ x a (xo_attempt_pks _ Hok) Hx Ha E).
    split; [done|]. right. by exists now.
Qed.

(** *** Commits and retirements *)

Lemma commitAttemptRow_inv db row turn fence arow attempt :
  exec_ok db → row ∈ db.(db_turns) → row.(tr_TurnID) = fence.(fence_TurnID) → toTurn row = Ok turn →
  commitAttemptRow row turn fence (lockAttempt db fence.(fence_TurnID) fence.(fence_AttemptID)
                                     (i64 fence.(fence_FencingToken))) = Ok (arow, attempt) →
  arow ∈ db.(db_attempts) ∧ toAttempt arow = Ok attempt ∧ arow.(ar_TurnID) = row.(tr_TurnID)
  ∧ arow.(ar_Status) = AttemptStatusRunning ∧ row.(tr_ActiveAttemptID) = Some arow.(ar_AttemptID)
  ∧ arow.(ar_FencingToken) = row.(tr_FencingToken)
  ∧ TurnStatus_Terminal row.(tr_Status) = false ∧ attemptMatchesFence attempt fence = true.
Proof.
  intros Hok Hrow Hid Hturn. unfold commitAttemptRow, lockAttempt. intros H.
  destruct (select_one _ _) as [a|] eqn:Hsel; [|done]. apply select_one_elem in Hsel as [Ha Hp].
  destruct (rowOwnsFence row fence && _) eqn:Hown; [|done].
  destruct (toAttempt a) as [x|] eqn:Hx; [|done]. destruct (attemptMatchesFence x fence && _) eqn:Hm; [|done].
  simplify_eq. unfold rowOwnsFence in Hown. bool_hyps.
  apply toTurn_inv in Hturn as (_&Hst&_). apply toAttempt_inv in Hx as Hx'.
  destruct Hx' as (E1&E2&E3&E4&_). split_and!; congruence || done.
Qed.

(** In an epoch the running Attempt of a Turn is the only one. *)
Lemma runs_turn_unique db a x :
  exec_ok db → a ∈ db.(db_attempts) → a.(ar_Status) = AttemptStatusRunning → x ∈ db.(db_attempts) →
  runs_turn a.(ar_TurnID) x = (x.(ar_ID) =? a.(ar_ID)).
Proof.
  intros Hok Ha Hr Hx. destruct (x.(ar_ID) =? a.(ar_ID)) eqn:E.
  - apply Z.eqb_eq in E. rewrite (NoDup_key_inj ar_ID _ x a (xo_attempt_pks _ Hok) Hx Ha E).
    unfold runs_turn. by rewrite !bool_decide_eq_true_2.
  - unfold runs_turn. apply Z.eqb_neq in E. destruct (bool_decide _) eqn:E1, (bool_decide (ar_Status x = _)) eqn:E2;
      try done. bool_hyps. exfalso. apply E.
    destruct (xo_attempt _ Hok a Ha) as (_&r&Hin&Hid&_&Hown). destruct (Hown Hr) as [_ Hf].
    destruct (xo_attempt _ Hok x Hx) as (_&r'&Hin'&Hid'&_&Hown'). destruct (Hown' E2) as [_ Hf'].
    assert (r = r') as <- by (eapply (NoDup_key_inj tr_TurnID); [apply Hok|done..|congruence]).
    assert (x = a) as ->; [|done]. eapply (NoDup_key_inj epoch_key); [apply Hok|done..|].
    unfold epoch_key. congruence.
Qed.

Lemma update_rows_ext {A} (p q : A → bool) (f : A → A) l :
  (∀ x, x ∈ l → p x = q x) → update_rows p f l = update_rows q f l.
Proof.
  intros H. apply List.map_ext_in. intros x Hx. by rewrite (H x) by by apply list_elem_of_In.
Qed.

(** A terminal status of the command is terminal. *)
Definition plan_ok (plan : commitPlan) : Prop :=
  (plan_command plan).(commit_TerminalStatus) = ""
  ∨ TurnStatus_Terminal (plan_command plan).(commit_TerminalStatus) = true.

Lemma attemptStatusForTurn_stops status :
  TurnStatus_Terminal status = true → attemptStatusForTurn status ≠ AttemptStatusRunning.
Proof. unfold attemptStatusForTurn. intros _. by repeat case_bool_decide. Qed.

Lemma shape_commit cfg t plan s clock db res db' k :
  exec_ok db → plan_ok plan → commit_write plan s clock db res db' k → step_shape cfg t db db'.
Proof.
  intros Hok Hplan Hw. destruct (cm_turn _ _ _ _ _ _ _ Hw) as (Hrow&Hid&Hturn).
  pose proof (toTurn_inv _ _ Hturn) as (Htid&Hst&_). unfold turn_is in Hid. bool_hyps.
  pose proof (commitAttemptRow_inv _ _ _ _ _ _ Hok Hrow Hid Hturn (cm_owner _ _ _ _ _ _ _ Hw))
    as (Ha&_&Hat&Har&Hact&Haf&Hterm&_).
  assert (Hnid : turn_ID (ctr_next k) = tr_TurnID (ctr_row k)).
  { by rewrite (commitNext_id _ _ _ _ _ _ _ _ _ (cm_next _ _ _ _ _ _ _ Hw)). }
  pose proof (cm_turns _ _ _ _ _ _ _ Hw) as Ht. pose proof (cm_attempts _ _ _ _ _ _ _ Hw) as Has.
  assert (Huniq : ∀ r, r ∈ db.(db_turns) → turn_is (turn_ID (ctr_next k)) r = true → r = ctr_row k).
  { intros r Hr Hp. apply (cm_unique _ _ _ _ _ _ _ Hw); [done..|]. unfold turn_is. by apply bool_decide_eq_true_2. }
  destruct Hplan as [E|Hover].
  - rewrite E in Ht, Has. unfold update_rows in Ht, Has.
    eapply shape_keep; [exact Ht|exact Has| |].
    + intros r Hr. simpl. destruct (turn_is (turn_ID (ctr_next k)) r); split; try done; by left.
    + intros a _. simpl. destruct (ar_ID a =? ar_ID (ctr_attemptRow k)); split; try done; by left.
  - apply (shape_retire _ _ _ _ (turn_ID (ctr_next k))
      (committedTurnColumns (commit_TerminalStatus (plan_command plan)) (i64 (ev_Sequence (ctr_event k))) (ctr_now k))
      (committedAttemptColumns (commit_TerminalStatus (plan_command plan)) (ctr_now k))); [| |done|].
    + intros r Hr Hp. rewrite (Huniq r Hr Hp). split; [|done]. unfold turn_retires, committedTurnColumns. simpl.
      rewrite bool_decide_eq_false_2 by by intros E; rewrite E in Hover.
      destruct (xo_turn _ Hok _ Hrow) as (?&_). split_and!; try done; lia.
    + intros a. split; [done|]. unfold committedAttemptColumns. simpl.
      rewrite bool_decide_eq_false_2 by by intros E; rewrite E in Hover. by apply attemptStatusForTurn_stops.
    + rewrite Has. apply update_rows_ext. intros x Hx. rewrite Hnid, <- Hat. symmetry. by apply (runs_turn_unique db).
Qed.

Lemma expiredActiveAttempt_inv db row now e :
  expiredActiveAttempt db row now = Ok (Some e) →
  e ∈ db.(db_attempts) ∧ e.(ar_TurnID) = row.(tr_TurnID) ∧ row.(tr_ActiveAttemptID) = Some e.(ar_AttemptID)
  ∧ e.(ar_FencingToken) = row.(tr_FencingToken) ∧ e.(ar_Status) = AttemptStatusRunning
  ∧ e.(ar_LeaseExpiresAt) ≤ now.
Proof.
  unfold expiredActiveAttempt, lockAttempt. intros H. destruct (tr_ActiveAttemptID row) as [active|]; [|done].
  destruct (select_one _ _) as [a|] eqn:Hs; [|done]. apply select_one_elem in Hs as [Ha Hp].
  destruct (bool_decide _) eqn:Hr in H; [|done]. destruct (After _ _) eqn:Hl in H; [done|]. simplify_eq.
  unfold After in Hl. bool_hyps. split_and!; congruence || done || lia.
Qed.

(** The guards of a retirement find the Turn without a live executor. *)
Lemma reconcileGuards_inv cfg provider s reason terminal db row turn now expired :
  reconcileGuards cfg provider s reason terminal db row turn now = Ok expired →
  expiredActiveAttempt db row now = Ok expired
  ∧ (row.(tr_ActiveAttemptID) = None ∨ is_Some expired)
  ∧ CanTransition turn.(turn_Status) terminal = true.
Proof.
  unfold reconcileGuards. intros H. destruct (turnAttemptBudget cfg) as [budget|]; [|done].
  destruct (expiredActiveAttempt db row now) as [e|]; [|done].
  destruct (verifyReconcilePrecondition _ _ _ _) eqn:Hv; [done|].
  destruct (if bool_decide _ then _ else _) in H; [done|].
  destruct (CanTransition _ _) eqn:Hc; [|done]. destruct (negb _) in H; [|done]. simplify_eq.
  split; [done|]. split; [|done]. unfold verifyReconcilePrecondition in Hv. cbv zeta in Hv.
  destruct (tr_ActiveAttemptID row); [right|by left]. destruct expired; [eauto|done].
Qed.

Lemma terminal_reason reason terminal :
  ReclaimReason_TerminalStatus reason = Some terminal → TurnStatus_Terminal terminal = true.
Proof. unfold ReclaimReason_TerminalStatus. intros H. by repeat case_bool_decide; simplify_eq. Qed.

(** The Attempts a retirement ends are the running ones of its Turn. *)
Lemma retire_attempts db row now expired :
  exec_ok db → row ∈ db.(db_turns) → expiredActiveAttempt db row now = Ok expired →
  row.(tr_ActiveAttemptID) = None ∨ is_Some expired →
  (expireAttempt db expired now).(db_attempts)
  = update_rows (runs_turn row.(tr_TurnID)) (expiredColumns now) db.(db_attempts).
Proof.
  intros Hok Hrow He Hor. destruct expired as [e|]; simpl.
  - apply expiredActiveAttempt_inv in He as (Hin&Hid&_&_&Hr&_). apply update_rows_ext.
    intros x Hx. rewrite <- Hid. symmetry. by apply (runs_turn_unique db).
  - destruct Hor as [Hnone|[]]; [|done]. symmetry. rewrite <- (List.map_id (db_attempts db)) at 2.
    apply List.map_ext_in. intros x Hx%list_elem_of_In. unfold runs_turn.
    destruct (bool_decide _) eqn:E1, (bool_decide (ar_Status x = _)) eqn:E2; try done. bool_hyps. exfalso.
    destruct (xo_attempt _ Hok x Hx) as (_&r&Hr&Hid&_&Hown). destruct (Hown E2) as [Hac _].
    assert (r = row) as -> by (eapply (NoDup_key_inj tr_TurnID); [apply Hok|done..|congruence]). congruence.
Qed.

Lemma shape_reconcile cfg t cfg' provider s clock command terminal db res db' k :
  exec_ok db → TurnStatus_Terminal terminal = true →
  retire_write cfg' provider s clock command terminal db res db' k → step_shape cfg t db db'.
Proof.
  intros Hok Hterm Hw. destruct (rw_turn _ _ _ _ _ _ _ _ _ _ Hw) as (Hrow&Hid&Hturn&Hlive).
  pose proof (toTurn_inv _ _ Hturn) as (Htid&Hst&_).
  destruct (reconcileGuards_inv _ _ _ _ _ _ _ _ _ _ (rw_guards _ _ _ _ _ _ _ _ _ _ Hw)) as (He&Hor&_).
  apply (shape_retire _ _ _ _ (turn_ID (rtr_turn k))
    (retiredColumns terminal (rtr_fence k) (i64 (rtr_sequence k)) (rtr_now k)) (expiredColumns (rtr_now k))).
  - intros r Hr Hp.
    assert (r = rtr_row k) as ->.
    { apply (rw_unique _ _ _ _ _ _ _ _ _ _ Hw); [done..|]. unfold turn_is. by apply bool_decide_eq_true_2. }
    split; [|congruence]. destruct (xo_turn _ Hok _ Hrow) as (Hrng&_).
    destruct (nextExecutionFence_inv _ _ (proj2 Hrng) (rw_fence _ _ _ _ _ _ _ _ _ _ Hw)) as (_&Hf&?).
    unfold turn_retires. simpl. split_and!; try done; lia.
  - intros a. done.
  - apply Hw.
  - rewrite (rw_attempts _ _ _ _ _ _ _ _ _ _ Hw), Htid. by apply retire_attempts.
Qed.

(** A normalized command keeps the identity of the one it stands for. *)
Definition same_commit (command : CommitAttemptCommand) (n : CommitAttemptCommand * string) : Prop :=
  (fst n).(commit_TerminalStatus) = command.(commit_TerminalStatus)
  ∧ (fst n).(commit_Fence) = command.(commit_Fence)
  ∧ (fst n).(commit_OperationID) = command.(commit_OperationID).

Lemma normalized_same command terminalization version n :
  normalizeCommitCommandWithVersion command terminalization version = Ok n → same_commit command n.
Proof.
  unfold normalizeCommitCommandWithVersion. intros H. destruct (version_admits _ _ _); [|done].
  destruct (normalizeEffects _); [|done]. by injection H as <-.
Qed.

Lemma completed_same command t n :
  normalizeCompletedUsageCommitCommand command t = Ok n → same_commit command n.
Proof.
  unfold normalizeCompletedUsageCommitCommand, normalizeCommitCommandWithTerminalization. intros H.
  destruct (bool_decide _); [|done]. destruct (commitDigestTerminalization_validate t); [done|].
  destruct (bool_decide (t = _)); [|done]. by eapply normalized_same.
Qed.

Lemma provider_same command t n :
  normalizeProviderUsageCommitCommand command t = Ok n → same_commit command n.
Proof.
  unfold normalizeProviderUsageCommitCommand. intros H. destruct (_ && _) in H; [|done].
  destruct (newProviderUsageTerminalization _) as [e|]; [|done]. destruct (bool_decide _); [|done].
  destruct (commitDigestTerminalization_validate t); [done|].
  by apply (normalized_same (with_settlement command _) _ _ _ H).
Qed.

Lemma plan_command_inv s command plan :
  planCommit s command = Ok plan →
  (plan_command plan).(commit_TerminalStatus) = command.(commit_TerminalStatus)
  ∧ (plan_command plan).(commit_Fence) = command.(commit_Fence)
  ∧ (plan_command plan).(commit_OperationID) = command.(commit_OperationID).
Proof.
  unfold planCommit. intros H. destruct (normalizeCommitCommand command) as [v2|] eqn:H2; [|done].
  apply normalized_same in H2. cbv zeta in H.
  destruct (bool_decide _); [by injection H as <-|].
  destruct (providerUsageTerminalization _ _) as [[t|]|]; [| |done].
  - unfold planProviderCommit in H. destruct (normalizeProviderUsageCommitCommand _ _) as [v4|] eqn:H4; [|done].
    apply provider_same in H4. cbv zeta in H. destruct (bool_decide _); [|by injection H as <-].
    destruct (normalizeCompletedUsageCommitCommand _ _); [|done]. by injection H as <-.
  - destruct (negb _); [by injection H as <-|].
    destruct (completedUsageTerminalization _) as [[t|]|]; [| |done]; [|by injection H as <-].
    destruct (normalizeCompletedUsageCommitCommand _ _) as [v3|] eqn:H3; [|done].
    apply completed_same in H3. by injection H as <-.
Qed.

Lemma plan_ok_intro s command plan :
  CommitAttemptCommand_Validate command = None → planCommit s command = Ok plan → plan_ok plan.
Proof.
  intros Hv (Hs&_)%plan_command_inv. unfold plan_ok. rewrite Hs.
  unfold CommitAttemptCommand_Validate in Hv. rewrite first_error_None, !Forall_cons in Hv.
  destruct Hv as (_&_&He&_). unfold validateCommitEvent in He. case_bool_decide; [by left|]. right.
  rewrite first_error_None, !Forall_cons, when_None in He. destruct He as (He&_). bool_hyps. done.
Qed.

Lemma exec_step_shape cfg t db t' db' :
  exec_ok db → exec_step cfg (t, db) (t', db') → t ≤ t' ∧ step_shape cfg t' db db'.
Proof.
  intros Hok Hs. inversion Hs as [? ? Hk|? ? ? ? Hle Ht Ha He _ _]; subst;
    [inversion Hk as
    [ctx clock outcome candidate initial first ? ? ? r ? Hle Hck Hv _ Hw
    |authority ctx clock outcome candidate initial ? ? ? r ? Hle Hck Hv Hw
    |env turnID draft ? ? ? r ? Hle Hck H|env turnID to at_ draft ? ? ? r ? Hle Hck H
    |env p th turnID at_ draft ? ? ? r ? Hle Hck H
    |authority ctx clock outcome command ? ? ? r ? Hle Hck _ Hw
    |ctx clock outcome fence ? ? ? r ? Hle Hck H
    |plan s clock reopened command ctx outcome ? ? ? r ? Hle Hck Hv Hp Hw
    |provider s clock reopened command terminal ctx outcome ? ? ? r ? Hle Hck Hv Hterm Hw];
     subst|]; (split; [done|]).
  - eapply tx_step; [done|apply shape_same|]. intros a db1 (now&_&->&H)%admitBody_inv.
    by eapply shape_admit_rows.
  - eapply tx_step; [done|apply shape_same|].
    intros a db1 [->|(now&first&bind&_&_&H)]%admitWithReservationBody_inv; [apply shape_same|].
    by eapply shape_admit_rows.
  - unfold SQLStore_AppendEvent in H. case_match; simplify_eq; [apply shape_same|].
    eapply finish_step; [done|apply shape_same|].
    intros a db1 (row&turn&last&_&Hw&?)%appendEventBody_inv. eapply shape_turn_write; eauto.
  - unfold SQLStore_Transition in H. case_match; simplify_eq; [apply shape_same|].
    eapply finish_step; [done|apply shape_same|].
    intros a db1 [->|(row&turn&now&last&_&Hw&?&?&?)]%transitionBody_inv; [apply shape_same|].
    eapply shape_turn_write; eauto.
  - unfold SQLStore_RequestCancel in H. case_match; simplify_eq; [apply shape_same|].
    eapply finish_step; [done|apply shape_same|].
    intros a db1 [->|(row&turn&now&last&_&Hw&?)]%requestCancelBody_inv; [apply shape_same|].
    eapply shape_turn_write; eauto.
  - eapply tx_step; [done|apply shape_same|].
    intros a db1 [(->&_)|(row&turn&now&expired&lease&Hcw)]%claimAttemptBody_inv; [apply shape_same|].
    eapply shape_claim; [done|]. eapply executionNow_reading; [done|apply Hcw].
  - apply HeartbeatAttempt_inv in H as [[-> _]|(res&row&a&now&lease&Hhw&_)]; [apply shape_same|].
    by eapply shape_heartbeat.
  - eapply tx_step; [done|apply shape_same|].
    intros a db1 [(->&_)|(k&Hcw)]%commitAttemptBody_inv; [apply shape_same|].
    eapply shape_commit; [done|by eapply plan_ok_intro|done].
  - eapply tx_step; [done|apply shape_same|].
    intros a db1 [(->&_)|(k&Hrw)]%reconcileTerminalBody_inv; [apply shape_same|].
    eapply shape_reconcile; [done|by eapply terminal_reason|done].
  - apply (shape_keep _ _ _ _ id id); rewrite ?List.map_id; try done; intros x _; split; try done; by left.
Qed.

Lemma step_shape_ok cfg t db db' : exec_ok db → step_shape cfg t db db' → exec_ok db'.
Proof.
  intros Hok [f g Ht Ha Hf Hg|id admitted Hq Ht Ha Hk|clock command res row turn now expired lease Hw _
    |turnID f g Hf Hg Ht Ha].
  - eapply (exec_ok_keep db f g); [done..|]. intros a Hin. by apply Hg.
  - by eapply admit_ok.
  - by eapply claim_ok.
  - eapply retire_ok; [done| |done..]. intros r Hr Hp. by apply Hf.
Qed.

Lemma exec_step_ok cfg s s' : exec_ok s.2 → exec_step cfg s s' → exec_ok s'.2.
Proof.
  destruct s as [t db], s' as [t' db']. intros Hok Hs.
  destruct (exec_step_shape _ _ _ _ _ Hok Hs). by eapply step_shape_ok.
Qed.

Lemma exec_run_ok cfg s s' : exec_ok s.2 → exec_run cfg s s' → exec_ok s'.2.
Proof. intros Hs H. induction H; eauto using exec_step_ok. Qed.

Lemma exec_reachable_ok cfg s : exec_reachable cfg s → exec_ok s.2.
Proof.
  intros (t&db&(Ht&Ha&_)&Hrun). eapply exec_run_ok; [|done].
  split; simpl; rewrite ?Ht, ?Ha; try apply NoDup_nil_2; by intros ? ?%elem_of_nil.
Qed.
