(* ===== verification/ExecutionFixtures.v ===== *)
(** * A concrete execution history used by the witnesses

    Two Turns are admitted; the first is claimed by one worker, whose lease
    lapses, and then by a second worker; the second Turn is cancelled while it
    waits.  Each state is computed by the operations. *)

From S2P Require Import Prelude GoText GoJson AgentContract TurnTypes MemoryStore MemoryStoreFacts Fixtures TurnService ExecutionTypes SqlDatabase SqlFacts SqlStore SqlExecution EpochFacts SqlCommitFacts SqlExecutionFacts.

Definition execClock : time := 63890000000 * second.
Definition execConfig : SQLStoreConfig := mkSQLStoreConfig false (60 * second) 3 (30 * second) 5.

Definition execAt (n : Z) : time := execClock + n * second.

Definition secondTurn : Turn :=
  mkTurn "turn_2" "user-1" "thread-1" "key-2" "digest-2" demoPlugin TurnStatusQueued
    None 900 900 None None.

Definition noOthers : nat → Database → Database := fun _ db => db.
Definition sqlEnv (n : Z) : storeEnv := mkStoreEnv background (Ok (execAt n)) TxReported noOthers TxReported.
Definition claimEnvAt (n : Z) : attemptEnv :=
  mkAttemptEnv background (Ok (execAt n)) TxReported (fun db => db) (Ok (execAt n)).

Definition emptyTables : Database := mkDatabase [] [] [] [] [] noSettlement.

Definition claimOne : ClaimAttemptCommand := mkClaimAttemptCommand "turn_1" "attempt-1" "worker-1" "build-1" [].
Definition claimTwo : ClaimAttemptCommand := mkClaimAttemptCommand "turn_1" "attempt-2" "worker-2" "build-1" [].

Definition admittedOne : Database :=
  Eval vm_compute in snd (SQLStore_Admit execConfig (sqlEnv 0) demoTurn demoDraft emptyTables).
Definition admittedTwo : Database :=
  Eval vm_compute in snd (SQLStore_Admit execConfig (sqlEnv 1) secondTurn demoDraft admittedOne).
Definition claimedOne : Database :=
  Eval vm_compute in snd (ClaimAttempt execConfig noAuthority (claimEnvAt 2) claimOne admittedTwo).
Definition cancelledTwo : Database :=
  Eval vm_compute in
    snd (SQLStore_RequestCancel execConfig (sqlEnv 3) "user-1" "thread-1" "turn_2" (execAt 3) demoDraft claimedOne).
Definition reclaimedOne : Database :=
  Eval vm_compute in snd (ClaimAttempt execConfig noAuthority (claimEnvAt 100) claimTwo cancelledTwo).

(** The results of the two claims. *)
Ltac claim_result call :=
  let x := eval vm_compute in (fst call) in
  match x with Ok ?d => exact d end.
Definition firstEpoch : ClaimAttemptResult :=
  ltac:(claim_result (ClaimAttempt execConfig noAuthority (claimEnvAt 2) claimOne admittedTwo)).
Definition secondEpoch : ClaimAttemptResult :=
  ltac:(claim_result (ClaimAttempt execConfig noAuthority (claimEnvAt 100) claimTwo cancelledTwo)).

Ltac first_row rows :=
  let x := eval vm_compute in rows in
  match x with ?r :: _ => exact r end.
Definition claimedRow : sqlTurnRow := ltac:(first_row (db_turns claimedOne)).
Definition claimedTurnOne : Turn :=
  ltac:(claim_result (toTurn claimedRow, tt)).

Ltac exec_time := unfold execAt, execClock, second; lia.

Lemma execAt_le a b : a ≤ b → execAt a ≤ execAt b.
Proof. exec_time. Qed.

Lemma admitOne_kernel : kernel_step execConfig (execAt 0, emptyTables) (execAt 0, admittedOne).
Proof.
  eapply (xs_admit _ background (Ok (execAt 0)) TxReported demoTurn demoDraft);
    [by apply execAt_le|by left|vm_compute; reflexivity..].
Qed.

Lemma admitTwo_kernel : kernel_step execConfig (execAt 0, admittedOne) (execAt 1, admittedTwo).
Proof.
  eapply (xs_admit _ background (Ok (execAt 1)) TxReported secondTurn demoDraft);
    [by apply execAt_le|by left|vm_compute; reflexivity..].
Qed.

Lemma claimOne_kernel : kernel_step execConfig (execAt 1, admittedTwo) (execAt 2, claimedOne).
Proof.
  eapply (xs_claim _ noAuthority background (Ok (execAt 2)) TxReported claimOne);
    [by apply execAt_le|by left|vm_compute; reflexivity..].
Qed.

Lemma cancelTwo_kernel : kernel_step execConfig (execAt 2, claimedOne) (execAt 3, cancelledTwo).
Proof.
  eapply (xs_cancel _ (sqlEnv 3) "user-1" "thread-1" "turn_2" (execAt 3) demoDraft);
    [by apply execAt_le|by left|vm_compute; reflexivity].
Qed.

Definition admitOne_step := xs_kernel _ _ _ admitOne_kernel.
Definition admitTwo_step := xs_kernel _ _ _ admitTwo_kernel.
Definition claimOne_step := xs_kernel _ _ _ claimOne_kernel.
Definition cancelTwo_step := xs_kernel _ _ _ cancelTwo_kernel.

Lemma admittedTwo_reachable : exec_reachable execConfig (execAt 1, admittedTwo).
Proof.
  exists (execAt 0), emptyTables. split; [done|].
  eapply rtc_l; [apply admitOne_step|]. apply rtc_once, admitTwo_step.
Qed.

Lemma exec_reachable_step cfg s s' : exec_reachable cfg s → exec_step cfg s s' → exec_reachable cfg s'.
Proof. intros (t&db&Hfresh&Hrun) Hs. exists t, db. split; [done|]. by eapply rtc_r. Qed.

Lemma claimedOne_reachable : exec_reachable execConfig (execAt 2, claimedOne).
Proof. eapply exec_reachable_step; [apply admittedTwo_reachable|apply claimOne_step]. Qed.

Lemma cancelledTwo_reachable : exec_reachable execConfig (execAt 3, cancelledTwo).
Proof. eapply exec_reachable_step; [apply claimedOne_reachable|apply cancelTwo_step]. Qed.
