(* ===== verification/SqlExecutionTheorems.v ===== *)
(** * What the execution store promises

    One live executor per Turn, fences that only grow, leases that exclude each
    other, no Turn that falls out of sight, and a claim whose commit was lost
    that is answered by its own Attempt. *)

From stdpp Require Import sorting.
From S2P Require Import Prelude GoText GoJson AgentContract TurnTypes MemoryStore TurnService ExecutionTypes SqlDatabase SqlFacts SqlStore SqlExecution EpochFacts SqlCommitFacts SqlExecutionFacts ExecutionFixtures.

(** ** Following a Turn and an Attempt through a run *)

Definition turn_progress (r r' : sqlTurnRow) : Prop :=
  r'.(tr_TurnID) = r.(tr_TurnID) ∧ r.(tr_FencingToken) ≤ r'.(tr_FencingToken)
  ∧ (TurnStatus_Terminal r.(tr_Status) = true →
     r'.(tr_Status) = r.(tr_Status) ∧ r'.(tr_FencingToken) = r.(tr_FencingToken)
     ∧ r'.(tr_ActiveAttemptID) = r.(tr_ActiveAttemptID)).

#[export] Instance turn_progress_preorder : PreOrder turn_progress.
Proof.
  split; [by intros r; repeat split|]. intros r1 r2 r3 (?&?&H1) (?&?&H2).
  split; [congruence|]. split; [lia|]. intros Ht. destruct (H1 Ht) as (E1&E2&E3).
  rewrite <- E1 in Ht. destruct (H2 Ht) as (?&?&?). split; [congruence|]. split; congruence.
Qed.

Lemma step_shape_turn cfg t db db' r :
  exec_ok db → step_shape cfg t db db' → r ∈ db.(db_turns) →
  ∃ r', r' ∈ db'.(db_turns) ∧ turn_progress r r'.
Proof.
  intros Hok [f g Ht Ha Hf Hg|id admitted Hq Ht Ha Hk|clock command res row turn now expired lease Hw _
    |turnID f g Hf Hg Ht Ha] Hr.
  - exists (f r). split; [rewrite Ht; apply elem_of_map; eauto|].
    destruct (Hf r Hr) as [(?&?&?) Hst]. split; [done|]. split; [lia|].
    intros Hterm. destruct Hst as [?|(_&_&?)]; [done|congruence].
  - exists r. split; [rewrite Ht; apply elem_of_app; by left|reflexivity].
  - destruct (claim_turns Hw) as (queued&last&Ht&_).
    eexists. split; [rewrite Ht; apply elem_of_map; exists r; split; [reflexivity|done]|].
    destruct (turn_is _ r) eqn:Hid; [|reflexivity].
    rewrite (cw_unique _ _ _ _ _ _ _ _ _ _ _ Hw r Hr Hid).
    destruct (claim_fence Hok Hw) as (_&Hf64&_). split; [done|]. simpl. rewrite Hf64. split; [lia|].
    intros Hterm. exfalso.
    destruct (claim_guards_status _ _ _ (cw_guards _ _ _ _ _ _ _ _ _ _ _ Hw)
      (cw_turn _ _ _ _ _ _ _ _ _ _ _ Hw)) as ([E|E]&_); rewrite E in Hterm; done.
  - eexists. split; [rewrite Ht; apply elem_of_map; exists r; split; [reflexivity|done]|].
    destruct (turn_is turnID r) eqn:Hid; [|reflexivity].
    destruct (Hf r Hr Hid) as [(?&?&?&?&?) Hl]. split; [done|]. split; [done|].
    intros Hterm. by rewrite Hl in Hterm.
Qed.

Lemma exec_run_turn cfg s s' r :
  exec_ok s.2 → exec_run cfg s s' → r ∈ s.2.(db_turns) →
  s.1 ≤ s'.1 ∧ ∃ r', r' ∈ s'.2.(db_turns) ∧ turn_progress r r'.
Proof.
  intros Hs Hrun. revert r Hs. induction Hrun as [s|[t db] [t1 db1] s' Hst Hrun IH]; intros r Hs Hr.
  { split; [lia|]. exists r. split; [done|reflexivity]. }
  destruct (exec_step_shape _ _ _ _ _ Hs Hst) as [Hle Hsh].
  destruct (step_shape_turn _ _ _ _ _ Hs Hsh Hr) as (r1&Hr1&Hp1).
  destruct (IH r1) as [Hle' (r'&Hr'&Hp2)]; [by eapply step_shape_ok|done|]. simpl in *.
  split; [lia|]. exists r'. split; [done|]. by trans r1.
Qed.

(** Leases are the configured time after the last heartbeat. *)
Definition leases_ok (cfg : SQLStoreConfig) (db : Database) : Prop :=
  ∀ a, a ∈ db.(db_attempts) → a.(ar_Status) = AttemptStatusRunning →
       executionLeaseExpiry cfg a.(ar_LastHeartbeatAt) = Ok a.(ar_LeaseExpiresAt).

Lemma executionLeaseExpiry_inv cfg now lease :
  executionLeaseExpiry cfg now = Ok lease →
  lease = (now + cfg.(cfg_attemptLeaseTTL)) - (now + cfg.(cfg_attemptLeaseTTL)) mod 1000 ∧ now < lease.
Proof.
  unfold executionLeaseExpiry. intros H. destruct (negb _) in H; [|done].
  destruct (canonicalExecutionTime _) eqn:Hc; [|done]. destruct (After _ _) eqn:Haf; simplify_eq.
  apply canonicalExecutionTime_Ok in Hc as [-> _]. unfold After in Haf. by bool_hyps.
Qed.

Lemma executionLeaseExpiry_mono cfg now now' lease lease' :
  now ≤ now' → executionLeaseExpiry cfg now = Ok lease → executionLeaseExpiry cfg now' = Ok lease' →
  lease ≤ lease'.
Proof.
  intros Hle [-> _]%executionLeaseExpiry_inv [-> _]%executionLeaseExpiry_inv. apply micros_mono. lia.
Qed.

Lemma step_shape_leases cfg t db db' :
  exec_ok db → leases_ok cfg db → step_shape cfg t db db' → leases_ok cfg db'.
Proof.
  intros Hok Hl [f g Ht Ha Hf Hg|id admitted Hq Ht Ha Hk|clock command res row turn now expired lease Hw _
    |turnID f g Hf Hg Ht Ha] a'.
  - rewrite Ha. intros (a&->&Hin)%elem_of_map Hr. destruct (Hg a Hin) as [[_ Hst] Hlease].
    rewrite Hst in Hr. destruct Hlease as [[-> ->]|(now&_&_&->&?)]; [by apply Hl|done].
  - rewrite Ha. apply Hl.
  - destruct (claim_new Hok Hw) as (new&->&_&_&_&_&Hn1&Hn2&_).
    intros [(a&->&Hin)%elem_of_map| ->%list_elem_of_singleton]%elem_of_app Hr.
    + destruct (claim_old_row Hok Hw a Hin) as [[_ E]|[_ E]]; rewrite E in *; [done|by apply Hl].
    + rewrite Hn1, Hn2. apply Hw.
  - rewrite Ha. intros (a&->&Hin)%elem_of_map Hr. destruct (runs_turn turnID a); [|by apply Hl].
    by destruct (Hg a).
Qed.

Lemma exec_run_leases cfg s s' :
  exec_ok s.2 → leases_ok cfg s.2 → exec_run cfg s s' → leases_ok cfg s'.2.
Proof.
  intros Hok Hl Hrun. induction Hrun as [s|[t db] [t1 db1] s' Hst Hrun IH]; [done|].
  destruct (exec_step_shape _ _ _ _ _ Hok Hst) as [_ Hsh]. simpl in *.
  apply IH; [by eapply step_shape_ok|by eapply step_shape_leases].
Qed.

Lemma exec_reachable_leases cfg s : exec_reachable cfg s → leases_ok cfg s.2.
Proof.
  intros (t&db&(Ht&Ha&_)&Hrun). eapply exec_run_leases; [| |done].
  - split; simpl; rewrite ?Ht, ?Ha; try apply NoDup_nil_2; by intros ? ?%elem_of_nil.
  - intros a Hin. simpl in Hin. rewrite Ha in Hin. by apply elem_of_nil in Hin.
Qed.

(** How an epoch can end: it is still running with at least its lease, or its
    lease has lapsed, or its Turn is finished. *)
Definition epoch_fate (a : sqlTurnAttemptRow) (L : time) (s : time * Database) : Prop :=
  (∃ a', a' ∈ s.2.(db_attempts) ∧ same_attempt a a' ∧ a'.(ar_Status) = AttemptStatusRunning
         ∧ L ≤ a'.(ar_LeaseExpiresAt))
  ∨ L ≤ s.1
  ∨ ∃ r, r ∈ s.2.(db_turns) ∧ r.(tr_TurnID) = a.(ar_TurnID) ∧ TurnStatus_Terminal r.(tr_Status) = true.

Lemma epoch_fate_step cfg a L t db t' db' :
  exec_ok db → leases_ok cfg db → t ≤ t' → step_shape cfg t' db db' →
  epoch_fate a L (t, db) → epoch_fate a L (t', db').
Proof.
  intros Hok Hl Hle Hsh [(a1&Ha1&Hs1&Hr1&HL)|[?|(r&Hr&Hid&Hterm)]]; simpl in *.
  2: { right; left. simpl. lia. }
  2: { right; right. destruct (step_shape_turn _ _ _ _ _ Hok Hsh Hr) as (r'&Hr'&Hid'&_&Ht').
       exists r'. simpl. destruct (Ht' Hterm) as (->&_). split; [done|]. split; [congruence|done]. }
  destruct Hsh as [f g Ht Ha Hf Hg|id admitted Hq Ht Ha Hk|clock command res row turn now expired lease Hw Hnow
    |turnID f g Hf Hg Ht Ha].
  - left. exists (g a1). simpl. rewrite Ha. split; [apply elem_of_map; eauto|].
    destruct (Hg a1 Ha1) as [[Hsm Hst] Hlm]. split; [unfold same_attempt in *; intuition congruence|].
    split; [congruence|]. destruct Hlm as [[-> _]|(now&_&Hhb&_&Hx)]; [done|].
    pose proof (executionLeaseExpiry_mono _ _ _ _ _ Hhb (Hl a1 Ha1 Hr1) Hx). lia.
  - left. exists a1. simpl. by rewrite Ha.
  - destruct (claim_new Hok Hw) as (new&Ha&_).
    destruct (claim_old_row Hok Hw a1 Ha1) as [[E _]|[_ E]].
    + right; left. destruct (claim_expired_in Hw a1 E) as (_&_&_&Hlap).
      apply canonicalExecutionTime_Ok in Hnow as [-> _].
      assert (0 ≤ t' mod 1000) by (apply Z.mod_pos_bound; lia). simpl. lia.
    + left. exists a1. simpl. rewrite Ha. split; [|done]. apply elem_of_app. left.
      apply elem_of_map. by exists a1.
  - destruct (runs_turn turnID a1) eqn:Hrt.
    + right; right. unfold runs_turn in Hrt. bool_hyps.
      destruct (xo_attempt _ Hok a1 Ha1) as (_&r&Hr&Hrid&_&Hown).
      exists (f r). simpl. rewrite Ht.
      destruct (Hf r Hr) as [(Hfid&_&Hterm&_) _]; [unfold turn_is; by rewrite bool_decide_eq_true_2 by congruence|].
      split; [|split; [|done]].
      * apply elem_of_map. exists r. split; [|done]. unfold turn_is.
        by rewrite bool_decide_eq_true_2 by congruence.
      * destruct Hs1 as (_&_&Hs1&_). congruence.
    + left. exists a1. simpl. rewrite Ha. split; [|done]. apply elem_of_map. exists a1.
      split; [|done]. by rewrite Hrt.
Qed.

Lemma epoch_fate_run cfg a L s s' :
  exec_ok s.2 → leases_ok cfg s.2 → exec_run cfg s s' → epoch_fate a L s → epoch_fate a L s'.
Proof.
  intros Hok Hl Hrun. revert Hok Hl. induction Hrun as [s|[t db] [t1 db1] s' Hst Hrun IH]; [done|].
  intros Hok Hl Hfate. destruct (exec_step_shape _ _ _ _ _ Hok Hst) as [Hle Hsh]. simpl in *.
  apply IH; [by eapply step_shape_ok|by eapply step_shape_leases|by eapply epoch_fate_step].
Qed.

(** ** The claims *)

(** C35: In every reachable state a Turn has at most one running Attempt, it is
    the one the Turn row names, it carries the Turn's current fencing token and
    the Turn is running; and every Turn row that names an Attempt names a
    running one of its own. *)
Theorem exec_single_owner cfg t db :
  exec_reachable cfg (t, db) →
  (∀ a b, a ∈ db.(db_attempts) → b ∈ db.(db_attempts) → a.(ar_TurnID) = b.(ar_TurnID) →
     a.(ar_Status) = AttemptStatusRunning → b.(ar_Status) = AttemptStatusRunning → a = b)
  ∧ (∀ a, a ∈ db.(db_attempts) → a.(ar_Status) = AttemptStatusRunning →
       ∃ r, r ∈ db.(db_turns) ∧ r.(tr_TurnID) = a.(ar_TurnID)
            ∧ r.(tr_ActiveAttemptID) = Some a.(ar_AttemptID)
            ∧ r.(tr_FencingToken) = a.(ar_FencingToken) ∧ r.(tr_Status) = TurnStatusRunning)
  ∧ (∀ r active, r ∈ db.(db_turns) → r.(tr_ActiveAttemptID) = Some active →
       ∃ a, a ∈ db.(db_attempts) ∧ a.(ar_TurnID) = r.(tr_TurnID) ∧ a.(ar_AttemptID) = active
            ∧ a.(ar_Status) = AttemptStatusRunning).
Proof.
  intros Hok%exec_reachable_ok. simpl in Hok. split; [|split].
  - intros a b Ha Hb Hid Hra Hrb.
    destruct (xo_attempt _ Hok a Ha) as (_&r&Hr&Hrid&_&Hown).
    destruct (xo_attempt _ Hok b Hb) as (_&r'&Hr'&Hrid'&_&Hown').
    assert (r = r') as <- by (apply (NoDup_key_inj tr_TurnID _ _ _ (xo_turn_ids _ Hok)); congruence).
    destruct (Hown Hra) as [E _], (Hown' Hrb) as [E' _].
    apply (NoDup_key_inj ar_AttemptID _ _ _ (xo_attempt_ids _ Hok)); congruence.
  - intros a Ha Hra. destruct (xo_attempt _ Hok a Ha) as (_&r&Hr&Hrid&_&Hown).
    destruct (Hown Hra) as [E Etok]. exists r. destruct (xo_turn _ Hok r Hr) as (_&_&Hact).
    rewrite E in Hact. by destruct Hact as (?&_).
  - intros r active Hr Hact. destruct (xo_turn _ Hok r Hr) as (_&_&H). rewrite Hact in H.
    destruct H as (_&_&a&?&?&?&_&?). eauto.
Qed.

Lemma exec_single_owner_witness :
  exec_reachable execConfig (execAt 2, claimedOne)
  ∧ ∃ a, a ∈ claimedOne.(db_attempts) ∧ a.(ar_Status) = AttemptStatusRunning.
Proof.
  split; [apply claimedOne_reachable|].
  destruct (exec_single_owner execConfig (execAt 2) claimedOne claimedOne_reachable) as (_&_&H).
  destruct (H claimedRow "attempt-1") as (a&Ha&_&_&Hs); [by apply list_elem_of_here|reflexivity|].
  by exists a.
Defined.

(** A claim that is granted, not replayed, is one transaction that wrote. *)
Lemma ClaimAttempt_claimed cfg authority env command db res db' :
  ClaimAttempt cfg authority env command db = (Ok res, db') → res.(clres_Claimed) = true →
  ClaimAttemptCommand_Validate command = None
  ∧ writeTransaction cfg env.(ae_ctx) env.(ae_outcome)
      (claimAttemptBody cfg authority env.(ae_clock) command) db = (Ok res, db')
  ∧ ∃ row turn now expired lease,
      claim_write cfg env.(ae_clock) command db res db' row turn now expired lease.
Proof.
  unfold ClaimAttempt. intros H Hcl. destruct (first_error _) eqn:Hv; [done|].
  apply first_error_None in Hv. rewrite !Forall_cons in Hv. destruct Hv as (_&Hv&_).
  split; [done|]. destruct (writeTransaction _ _ _ _ _) as [[r|txErr] dbw] eqn:Hw.
  - simplify_eq. split; [done|].
    apply writeTransaction_inv in Hw as [[[e ?] _]|(a&db1&Hb&[(_&[= <-]&->)|(_&?&_)])]; [done| |done].
    apply claimAttemptBody_inv in Hb as [(_&_&?)|Hcw]; [congruence|done].
  - exfalso. destruct (ae_ctx env 3%nat); [done|].
    destruct (resolveClaim _ _ _) as [[replay|]|] eqn:Hr; simplify_eq.
    unfold resolveClaim in Hr. repeat (case_match; simplify_eq/=; try done).
Qed.

(** The rows of a granted epoch. *)
Lemma claim_granted {cfg clock command db res db' row turn now expired lease} :
  exec_ok db → claim_write cfg clock command db res db' row turn now expired lease →
  ∃ r a, r ∈ db'.(db_turns) ∧ r.(tr_TurnID) = command.(claim_TurnID)
    ∧ r.(tr_FencingToken) = res.(clres_Attempt).(att_FencingToken)
    ∧ a ∈ db'.(db_attempts) ∧ a.(ar_TurnID) = command.(claim_TurnID)
    ∧ a.(ar_AttemptID) = command.(claim_AttemptID)
    ∧ a.(ar_FencingToken) = res.(clres_Attempt).(att_FencingToken)
    ∧ a.(ar_Status) = AttemptStatusRunning
    ∧ a.(ar_LeaseExpiresAt) = res.(clres_Attempt).(att_LeaseExpiresAt).
Proof.
  intros Hok Hw. destruct (claim_new Hok Hw) as (new&Ha&Hn1&Hn2&Hn3&Hn4&Hn5&_).
  destruct (claim_turns Hw) as (queued&last&Ht&_). destruct (claim_fence Hok Hw) as (Hf&Hf64&_).
  destruct (cw_row _ _ _ _ _ _ _ _ _ _ _ Hw) as [Hrow Hrid].
  eexists _, new. split.
  { rewrite Ht. apply elem_of_map. exists row. split; [reflexivity|done]. }
  unfold turn_is. rewrite bool_decide_eq_true_2 by done. simpl. split; [done|]. split; [congruence|].
  split; [rewrite Ha; apply elem_of_app; right; by apply list_elem_of_singleton|].
  rewrite (cw_result _ _ _ _ _ _ _ _ _ _ _ Hw). simpl. rewrite Hn3, Hf. done.
Qed.

(** An epoch overtaken by a larger token can no longer heartbeat. *)
Lemma overtaken_heartbeat cfg ctx clock outcome (fence : AttemptFence) db r db' row :
  exec_ok db → 0 ≤ fence.(fence_FencingToken) < 2 ^ 63 →
  row ∈ db.(db_turns) → row.(tr_TurnID) = fence.(fence_TurnID) →
  fence.(fence_FencingToken) < row.(tr_FencingToken) →
  HeartbeatAttempt cfg ctx clock outcome fence db = (r, db') → db' = db ∧ ∃ e, r = Err e.
Proof.
  intros Hok Hf Hrow Hid Hlt [?|(res&x&a&now&lease&[[Hx Hown] _ _ _ _ _ _ _]&_)]%HeartbeatAttempt_inv;
    [done|].
  exfalso. unfold rowOwnsFence in Hown. bool_hyps. rewrite i64_small in * by lia.
  assert (x = row) by (apply (NoDup_key_inj tr_TurnID _ _ _ (xo_turn_ids _ Hok)); congruence).
  subst. lia.
Qed.


(** When a new epoch of the Turn is granted, an earlier one has lapsed. *)
Lemma fate_before_claim {cfg clock command db res db' row turn now expired lease a L t t'} :
  exec_ok db → claim_write cfg clock command db res db' row turn now expired lease →
  clock_reading t' clock → t ≤ t' →
  epoch_fate a L (t, db) → a.(ar_TurnID) = command.(claim_TurnID) → L ≤ t'.
Proof.
  intros Hok Hw Hck Hle Hfate Hid. destruct (cw_row _ _ _ _ _ _ _ _ _ _ _ Hw) as [Hrow Hrid].
  destruct Hfate as [(a'&Ha'&(_&Hs1&Hs2&_)&Hr'&HL)|[?|(r&Hr&Hrid2&Hterm)]]; simpl in *; [|lia|].
  - destruct (xo_attempt _ Hok a' Ha') as (_&r&Hr&Hrid'&_&Hown). destruct (Hown Hr') as [Hact _].
    assert (r = row) as -> by (apply (NoDup_key_inj tr_TurnID _ _ _ (xo_turn_ids _ Hok)); congruence).
    pose proof (claimExpired_inv _ _ _ _ (cw_expired _ _ _ _ _ _ _ _ _ _ _ Hw)) as Hexp.
    rewrite Hact in Hexp. destruct Hexp as (e&_&He&_&Heid&_&_&Hlap).
    assert (e = a') as -> by (by apply (NoDup_key_inj ar_AttemptID _ _ _ (xo_attempt_ids _ Hok))).
    pose proof (executionNow_reading _ _ _ Hck (cw_now _ _ _ _ _ _ _ _ _ _ _ Hw)) as [Hn _]%canonicalExecutionTime_Ok.
    assert (0 ≤ t' mod 1000) by (apply Z.mod_pos_bound; lia). lia.
  - exfalso. assert (r = row) as -> by (apply (NoDup_key_inj tr_TurnID _ _ _ (xo_turn_ids _ Hok)); congruence).
    destruct (claim_guards_status _ _ _ (cw_guards _ _ _ _ _ _ _ _ _ _ _ Hw)
      (cw_turn _ _ _ _ _ _ _ _ _ _ _ Hw)) as ([E|E]&_); rewrite E in Hterm; done.
Qed.

(** C2: Two executors never hold one Turn.  If a worker was granted an epoch and a
    later claim of the same Turn is granted too, the later epoch has a larger
    fencing token, it was granted only after the first lease had lapsed, and
    from then on no heartbeat of the first epoch succeeds or writes anything. *)
Theorem exec_mutual_exclusion cfg authority env c t t1 db res db1
    authority' env' c' t2 db2 t3 res' db3 t4 db4 ctx clock outcome r db5 :
  exec_reachable cfg (t, db) → t ≤ t1 → clock_reading t1 env.(ae_clock) →
  ClaimAttempt cfg authority env c db = (Ok res, db1) → res.(clres_Claimed) = true →
  exec_run cfg (t1, db1) (t2, db2) → t2 ≤ t3 → clock_reading t3 env'.(ae_clock) →
  c'.(claim_TurnID) = c.(claim_TurnID) →
  ClaimAttempt cfg authority' env' c' db2 = (Ok res', db3) → res'.(clres_Claimed) = true →
  exec_run cfg (t3, db3) (t4, db4) →
  HeartbeatAttempt cfg ctx clock outcome (TurnAttempt_Fence res.(clres_Attempt)) db4 = (r, db5) →
  res.(clres_Attempt).(att_FencingToken) < res'.(clres_Attempt).(att_FencingToken)
  ∧ res.(clres_Attempt).(att_LeaseExpiresAt) ≤ t3
  ∧ db5 = db4 ∧ ∃ e, r = Err e.
Proof.
  intros Hreach Hle Hck Hc Hcl Hrun Hle3 Hck3 Hid Hc' Hcl' Hrun' Hhb.
  pose proof (exec_reachable_ok _ _ Hreach) as Hok. pose proof (exec_reachable_leases _ _ Hreach) as Hl.
  destruct (ClaimAttempt_claimed _ _ _ _ _ _ _ Hc Hcl) as (Hv&Htx&row&turn&now&expired&lease&Hw).
  destruct (ClaimAttempt_claimed _ _ _ _ _ _ _ Hc' Hcl') as (Hv'&Htx'&row'&turn'&now'&expired'&lease'&Hw').
  assert (Hs1 : exec_step cfg (t, db) (t1, db1)).
  { apply xs_kernel. eapply xs_claim; [exact Hle|exact Hck|exact Hv|exact Htx]. }
  destruct (exec_step_shape _ _ _ _ _ Hok Hs1) as [_ Hsh1]. simpl in *.
  pose proof (claim_ok Hok Hw) as Hok1. pose proof (step_shape_leases _ _ _ _ Hok Hl Hsh1) as Hl1.
  pose proof (exec_run_ok cfg (t1, db1) _ Hok1 Hrun) as Hok2. simpl in Hok2.
  destruct (claim_granted Hok Hw) as (r1&a1&Hr1&Hr1id&Hr1t&Ha1&Ha1id&Ha1a&Ha1t&Ha1s&Ha1l).
  destruct (claim_granted Hok2 Hw') as (r3&a3&Hr3&Hr3id&Hr3t&_).
  destruct (exec_run_turn cfg (t1, db1) _ r1 Hok1 Hrun Hr1) as [_ (r2&Hr2&Hp2id&Hp2t&_)]. simpl in Hr2.
  destruct (cw_row _ _ _ _ _ _ _ _ _ _ _ Hw') as [Hrow' Hrid'].
  assert (r2 = row') as -> by (apply (NoDup_key_inj tr_TurnID _ _ _ (xo_turn_ids _ Hok2)); congruence).
  destruct (claim_fence Hok2 Hw') as (Hf'&_&Hrng').
  assert (Hlt : att_FencingToken (clres_Attempt res) < att_FencingToken (clres_Attempt res')) by lia.
  split; [done|]. split.
  - assert (Hfate : epoch_fate a1 (att_LeaseExpiresAt (clres_Attempt res)) (t1, db1)).
    { left. exists a1. simpl. split; [done|]. split; [by repeat split|]. split; [done|lia]. }
    apply (epoch_fate_run cfg _ _ (t1, db1) (t2, db2) Hok1 Hl1 Hrun) in Hfate.
    by apply (fate_before_claim Hok2 Hw' Hck3 Hle3) in Hfate; [|congruence].
  - destruct (exec_run_turn cfg (t3, db3) _ r3 (claim_ok Hok2 Hw') Hrun' Hr3) as [_ (r4&Hr4&Hp4id&Hp4t&_)].
    eapply (overtaken_heartbeat _ _ _ _ _ db4 _ _ r4); [| | | | |exact Hhb].
    + by apply (exec_run_ok cfg (t3, db3) (t4, db4) (claim_ok Hok2 Hw')).
    + destruct (claim_fence Hok Hw) as (Hf&_&Hrng). simpl. unfold MaxDurableSequence in *. lia.
    + done.
    + simpl. rewrite (cw_result _ _ _ _ _ _ _ _ _ _ _ Hw). simpl. congruence.
    + simpl. lia.
Qed.

Lemma exec_mutual_exclusion_witness :
  firstEpoch.(clres_Attempt).(att_FencingToken) < secondEpoch.(clres_Attempt).(att_FencingToken)
  ∧ firstEpoch.(clres_Attempt).(att_LeaseExpiresAt) ≤ execAt 100
  ∧ snd (HeartbeatAttempt execConfig background (Ok (execAt 101)) TxReported
           (TurnAttempt_Fence firstEpoch.(clres_Attempt)) reclaimedOne) = reclaimedOne.
Proof.
  set (late := HeartbeatAttempt execConfig background (Ok (execAt 101)) TxReported
                 (TurnAttempt_Fence firstEpoch.(clres_Attempt)) reclaimedOne).
  destruct (exec_mutual_exclusion execConfig noAuthority (claimEnvAt 2) claimOne (execAt 1) (execAt 2)
    admittedTwo firstEpoch claimedOne noAuthority (claimEnvAt 100) claimTwo (execAt 3) cancelledTwo
    (execAt 100) secondEpoch reclaimedOne (execAt 100) reclaimedOne background (Ok (execAt 101))
    TxReported (fst late) (snd late) admittedTwo_reachable) as (H1&H2&H3&_).
  - by apply execAt_le.
  - by left.
  - vm_compute; reflexivity.
  - reflexivity.
  - apply rtc_once, cancelTwo_step.
  - by apply execAt_le.
  - by left.
  - reflexivity.
  - vm_compute; reflexivity.
  - reflexivity.
  - apply rtc_refl.
  - apply surjective_pairing.
  - split; [exact H1|]. split; [exact H2|exact H3].
Defined.

(** ** Nothing falls out of sight *)

Definition turn_live (now : time) (db : Database) (r : sqlTurnRow) : Prop :=
  ∃ a, activeAttemptOf db r = Some a ∧ a.(ar_Status) = AttemptStatusRunning
       ∧ now < a.(ar_LeaseExpiresAt).

Lemma activeAttemptOf_running db r active :
  exec_ok db → r ∈ db.(db_turns) → r.(tr_ActiveAttemptID) = Some active →
  ∃ a, activeAttemptOf db r = Some a ∧ a.(ar_AttemptID) = active ∧ a.(ar_Status) = AttemptStatusRunning.
Proof.
  intros Hok Hr Hact. destruct (xo_turn _ Hok r Hr) as (_&_&H). rewrite Hact in H.
  destruct H as (_&_&a&Ha&Hid&Haid&_&Hst). unfold activeAttemptOf. rewrite Hact.
  destruct (select_one _ _) as [b|] eqn:Hs.
  - apply select_one_elem in Hs as [Hb Hp]. bool_hyps. exists b. split; [done|].
    split; [done|]. rewrite (NoDup_key_inj ar_AttemptID _ b a (xo_attempt_ids _ Hok)); congruence.
  - exfalso. unfold select_one in Hs. apply find_None_iff in Hs. rewrite Forall_forall in Hs.
    specialize (Hs a Ha). by rewrite !bool_decide_eq_true_2 in Hs by done.
Qed.

Lemma toReclaimableTurn_actionable budget r turn a :
  toTurn r = Ok turn → r.(tr_Status) = TurnStatusQueued ∨ r.(tr_Status) = TurnStatusRunning →
  (∀ x, a = Some x → r.(tr_ActiveAttemptID) = Some x.(ar_AttemptID)) →
  is_Some r.(tr_CancelRequestedAt) ∨ budget ≤ r.(tr_FencingToken) →
  ∃ entry, toReclaimableTurn budget r a = Ok entry ∧ ReclaimReason_Actionable entry.(recl_Reason) = true.
Proof.
  unfold toTurn. intros H Hst Ha Hwhy. destruct (negb _) eqn:H1 in H; [|done].
  destruct (negb _) eqn:H2 in H; [|done]. destruct (negb _) eqn:H3 in H; [|done].
  destruct (tr_PluginSnapshotJSON r); [|done]. destruct (Turn_Validate _) eqn:Hv in H; simplify_eq.
  unfold Turn_Validate in Hv. apply first_error_None in Hv. rewrite !Forall_cons in Hv.
  destruct Hv as (Hpath&_). simpl in Hpath. unfold toReclaimableTurn. rewrite Hpath.
  assert (negb (negb (TurnStatus_Valid (tr_Status r)) || TurnStatus_Terminal (tr_Status r)) = true) as ->
    by (destruct Hst as [-> | ->]; done).
  rewrite H2. assert (match a with None => None
      | Some x => validatePrintableASCII x.(ar_AttemptID) MaxAttemptIDBytes end = None) as ->.
  { destruct a as [x|]; [|done]. apply negb_true_iff in H3. rewrite holds_at_false in H3.
    specialize (H3 _ (Ha x eq_refl)). bool_hyps. by apply eq_None_not_Some. }
  case_bool_decide as Hc; [eauto|]. destruct Hwhy as [?|Hb]; [done|].
  apply Z.leb_le in Hb. rewrite Hb. eauto.
Qed.

Lemma toTurn_status r turn :
  toTurn r = Ok turn →
  TurnStatus_Terminal r.(tr_Status) = true ∨ r.(tr_Status) = TurnStatusQueued
  ∨ r.(tr_Status) = TurnStatusRunning.
Proof.
  intros (_&Hst&_&_&_&_&_&_&_&_&_&Hv)%toTurn_inv. rewrite <- Hst.
  unfold Turn_Validate in Hv. apply first_error_None in Hv.
  assert (TurnStatus_Valid (turn_Status turn) = true) as H.
  { rewrite !Forall_cons in Hv. destruct Hv as (_&_&_&_&_&_&_&Hx&_). apply when_None in Hx. by bool_hyps. }
  unfold TurnStatus_Valid in H. unfold TurnStatus_Terminal. bool_hyps.
  rewrite bool_decide_eq_true. set_solver.
Qed.

(** C39: No stored Turn falls out of sight.  At any time, a Turn that is not
    finished is held by a live Attempt (and then neither scan lists it), or the
    claim scan lists it, or the reclaim scan lists it with a reason a
    Reconciler may act on, or it was moved to running by the unfenced transition
    and has never been claimed or cancelled. *)
Theorem exec_no_turn_lost cfg t db now budget r turn :
  exec_reachable cfg (t, db) → turnAttemptBudget cfg = Ok budget →
  r ∈ db.(db_turns) → toTurn r = Ok turn →
  TurnStatus_Terminal r.(tr_Status) = true
  ∨ turn_live now db r ∧ turn_claimable now budget [] db r = false
    ∧ turn_reclaimable now budget db r = false
  ∨ turn_claimable now budget [] db r = true
  ∨ turn_reclaimable now budget db r = true
    ∧ (∃ entry, toReclaimableTurn budget r (activeAttemptOf db r) = Ok entry
               ∧ ReclaimReason_Actionable entry.(recl_Reason) = true)
  ∨ r.(tr_Status) = TurnStatusRunning ∧ r.(tr_FencingToken) = 0
    ∧ r.(tr_ActiveAttemptID) = None ∧ r.(tr_CancelRequestedAt) = None.
Proof.
  intros Hok%exec_reachable_ok Hbud Hr Hturn. simpl in Hok.
  assert (0 < budget) as Hbp.
  { unfold turnAttemptBudget in Hbud. destruct (negb _) eqn:E in Hbud; simplify_eq. bool_hyps. lia. }
  destruct (toTurn_status _ _ Hturn) as [?|Hst]; [by left|right].
  destruct (xo_turn _ Hok r Hr) as (Hrng&Hq&Hact).
  assert (Hst' : bool_decide (tr_Status r ∈ [TurnStatusQueued; TurnStatusRunning]) = true)
    by (apply bool_decide_eq_true; set_solver).
  destruct (tr_ActiveAttemptID r) as [active|] eqn:Hactive.
  - destruct Hact as (Hrun&_&_).
    destruct (activeAttemptOf_running _ _ _ Hok Hr Hactive) as (a&Ha&Haid&Hast).
    assert (Hlapse : attempt_lapsed now (activeAttemptOf db r) = (ar_LeaseExpiresAt a <=? now)).
    { rewrite Ha. unfold attempt_lapsed. simpl. by rewrite Hast, bool_decide_eq_true_2. }
    unfold turn_claimable, turn_reclaimable. rewrite Hlapse, Hst', Hactive, Hrun. simpl.
    destruct (ar_LeaseExpiresAt a <=? now) eqn:Hle; bool_hyps; simpl.
    + right. destruct (decide (is_Some (tr_CancelRequestedAt r) ∨ budget ≤ tr_FencingToken r)) as [Hw|Hw].
      * right; left. split.
        { by rewrite orb_true_r. }
        apply (toReclaimableTurn_actionable _ _ turn); [done|by right| |done].
        intros x Hx. rewrite Hactive. congruence.
      * left. apply Decidable.not_or in Hw as [Hc Hb]. rewrite bool_decide_eq_true_2 by (by apply eq_None_not_Some).
        rewrite (proj2 (Z.ltb_lt _ _)) by lia. done.
    + left. split; [by exists a|]. by rewrite !andb_false_r.
  - assert (tr_FencingToken r = 0) as Htok.
    { destruct (decide (0 < tr_FencingToken r)) as [Hp|]; [|lia]. specialize (Hact Hp).
      destruct Hst as [E|E]; rewrite E in Hact; done. }
    assert (Hnone : activeAttemptOf db r = None) by (unfold activeAttemptOf; by rewrite Hactive).
    destruct (decide (is_Some (tr_CancelRequestedAt r))) as [Hc|Hc].
    + right; right; left. split.
      { unfold turn_reclaimable. by rewrite Hst', Hactive, bool_decide_eq_true_2, bool_decide_eq_true_2. }
      rewrite Hnone. apply (toReclaimableTurn_actionable _ _ turn); [done|done|done|by left].
    + apply eq_None_not_Some in Hc. destruct Hst as [E|E].
      * right; left. unfold turn_claimable. rewrite Hc, Htok, E, Hactive.
        by rewrite (proj2 (Z.ltb_lt _ _)) by lia.
      * right; right; right. done.
Qed.

Lemma exec_no_turn_lost_witness :
  toTurn claimedRow = Ok claimedTurnOne ∧ turn_live (execAt 10) claimedOne claimedRow.
Proof.
  split; [vm_compute; reflexivity|].
  destruct (exec_no_turn_lost execConfig (execAt 2) claimedOne (execAt 10) 3 claimedRow claimedTurnOne
    claimedOne_reachable) as [H|[(H&_)|[H|[[H _]|[_ (H&_)]]]]].
  - reflexivity.
  - by apply list_elem_of_here.
  - vm_compute; reflexivity.
  - discriminate H.
  - exact H.
  - discriminate H.
  - discriminate H.
  - discriminate H.
Defined.

(** ** A claim whose commit was lost *)

(** An Attempt survives the trip through its row. *)
Lemma attempt_roundtrip id a row :
  attemptToSQLRow id a = Ok row → 1 ≤ a.(att_FencingToken) → toAttempt row = Ok a.
Proof.
  unfold attemptToSQLRow. intros H Hpos. destruct (TurnAttempt_Validate a) eqn:Hv; simplify_eq.
  pose proof Hv as Hf. unfold TurnAttempt_Validate in Hf. apply first_error_None in Hf.
  rewrite Forall_cons in Hf. destruct Hf as [Hf _]. unfold AttemptFence_Validate in Hf.
  apply first_error_None in Hf. rewrite !Forall_cons in Hf. destruct Hf as (_&_&Hf&_).
  apply when_None in Hf. simpl in Hf. bool_hyps.
  assert (MaxDurableSequence = 2 ^ 63 - 1) by reflexivity.
  unfold toAttempt. simpl. rewrite i64_small, u64_small by lia.
  rewrite (proj2 (Z.ltb_ge _ _)), (proj2 (Z.ltb_ge _ _)) by lia. simpl.
  by destruct a; simpl in *; rewrite Hv.
Qed.

Lemma nextSQLSequence_range last sequence :
  last ≤ MaxDurableSequence → nextSQLSequence last = Ok sequence →
  1 ≤ i64 sequence ≤ MaxDurableSequence ∧ i64 sequence = last + 1.
Proof.
  assert (MaxDurableSequence = 2 ^ 63 - 1) as HM by reflexivity.
  unfold nextSQLSequence. intros Hmax H. destruct (negb _) eqn:E1 in H; [|done].
  destruct (negb _) eqn:E2 in H; [|done]. simplify_eq. bool_hyps. rewrite u64_small in * by lia.
  rewrite (i64_small (last + 1)), (u64_small (last + 1)), i64_small by lia. lia.
Qed.

(** The Turn row a claim wrote decodes to the Turn it returned. *)
Lemma claimed_row_decodes row turn now attemptID fence last :
  toTurn row = Ok turn → Turn_Validate (claimedTurn turn now) = None →
  validatePrintableASCII attemptID MaxAttemptIDBytes = None →
  1 ≤ i64 fence ≤ MaxDurableSequence → 1 ≤ last ≤ MaxDurableSequence →
  row.(tr_LastEventSequence) ≤ MaxDurableSequence →
  toTurn (claimedColumns attemptID fence (bool_decide (turn.(turn_Status) = TurnStatusQueued)) last now row)
  = Ok (claimedTurn turn now).
Proof.
  assert (MaxDurableSequence = 2 ^ 63 - 1) as HM by reflexivity.
  intros Hturn Hv Hid Hf Hl Hrl. pose proof Hturn as (_&_&_&_&_&_&Hr1&_)%toTurn_inv.
  unfold toTurn in Hturn. destruct (negb _) in Hturn; [|done]. destruct (negb _) in Hturn; [|done].
  destruct (negb _) in Hturn; [|done].
  destruct (tr_PluginSnapshotJSON row) as [plugin|] eqn:Hp; [|done].
  destruct (Turn_Validate _) in Hturn; simplify_eq. unfold toTurn. simpl in *.
  assert (Hlast : ∀ z, 1 ≤ z ≤ MaxDurableSequence →
    negb ((z <? 1) || (MaxDurableSequence <? u64 z)) = true).
  { intros z Hz. rewrite u64_small by lia.
    by rewrite (proj2 (Z.ltb_ge z 1)), (proj2 (Z.ltb_ge _ z)) by lia. }
  rewrite Hlast by (case_match; lia). rewrite (u64_small (i64 fence)) by lia.
  rewrite (proj2 (Z.ltb_ge (i64 fence) 0)), (proj2 (Z.ltb_ge _ (i64 fence))) by lia. simpl.
  rewrite (proj2 (Z.ltb_ge (i64 fence) 1)), Hid by lia. simpl. rewrite Hp.
  match goal with |- match ?v with Some _ => _ | None => _ end = _ =>
    replace v with (@None error) by (symmetry; exact Hv) end.
  reflexivity.
Qed.

Lemma select_unique {A B} `{EqDecision B} (k : A → B) (l : list A) x :
  NoDup (map k l) → x ∈ l → select_one (fun y => bool_decide (k y = k x)) l = Some x.
Proof.
  intros Hnd Hx. destruct (select_one _ l) as [y|] eqn:Hs.
  - apply select_one_elem in Hs as [Hy Hk]. bool_hyps. f_equal. by apply (NoDup_key_inj k l).
  - exfalso. unfold select_one in Hs. apply find_None_iff in Hs. rewrite Forall_forall in Hs.
    specialize (Hs x Hx). by rewrite bool_decide_eq_true_2 in Hs.
Qed.

Lemma ClaimAttemptCommand_AttemptID command :
  ClaimAttemptCommand_Validate command = None →
  validatePrintableASCII command.(claim_AttemptID) MaxAttemptIDBytes = None.
Proof.
  unfold ClaimAttemptCommand_Validate, AttemptFence_Validate. intros H.
  apply first_error_None in H. rewrite !Forall_cons in H. destruct H as (H&_).
  apply first_error_None in H. rewrite !Forall_cons in H. by destruct H as (_&H&_).
Qed.

(** The read that follows finds the epoch a claim committed. *)
Lemma claim_resolves {cfg clock command db res db' row turn now expired lease} (t2 now2 : time) :
  exec_ok db → claim_write cfg clock command db res db' row turn now expired lease →
  ClaimAttemptCommand_Validate command = None → row.(tr_LastEventSequence) ≤ MaxDurableSequence →
  executionNow (Ok t2) = Ok now2 → now2 < res.(clres_Attempt).(att_LeaseExpiresAt) →
  resolveClaim (Ok t2) command db'
  = Ok (Some (mkClaimAttemptResult res.(clres_Turn) res.(clres_Attempt) false false true)).
Proof.
  intros Hok Hw Hv Hcol Hnow2 Hlive. pose proof (claim_ok Hok Hw) as Hok'.
  destruct (cw_attempts _ _ _ _ _ _ _ _ _ _ _ Hw) as (new&Hnew&Ha'&_).
  pose proof (cw_result _ _ _ _ _ _ _ _ _ _ _ Hw) as Hres.
  destruct (claim_fence Hok Hw) as (Hf&Hf64&Hrng).
  destruct (cw_row _ _ _ _ _ _ _ _ _ _ _ Hw) as [Hrow Hrid].
  pose proof (attempt_roundtrip _ _ _ Hnew ltac:(lia)) as Hatt.
  apply attemptToSQLRow_inv in Hnew as (_&Hn1&_).
  assert (Hn1' : new.(ar_AttemptID) = command.(claim_AttemptID)) by (rewrite Hn1, Hres; done).
  assert (Hin : new ∈ db'.(db_attempts))
    by (rewrite Ha'; apply elem_of_app; right; by apply list_elem_of_singleton).
  pose proof (select_unique ar_AttemptID _ _ (xo_attempt_ids _ Hok') Hin) as Hsel. rewrite Hn1' in Hsel.
  destruct (cw_turns _ _ _ _ _ _ _ _ _ _ _ Hw) as (queued&last&Hq&Hlast&Ht').
  set (row' := claimedColumns command.(claim_AttemptID) res.(clres_Attempt).(att_FencingToken) queued last now row).
  assert (Hin' : row' ∈ db'.(db_turns)).
  { rewrite Ht'. apply elem_of_map. exists row. split; [|done]. unfold turn_is.
    by rewrite bool_decide_eq_true_2. }
  pose proof (select_unique tr_TurnID _ _ (xo_turn_ids _ Hok') Hin') as Hsel'. simpl in Hsel'.
  rewrite Hrid in Hsel'.
  assert (Hturn' : toTurn row' = Ok (claimedTurn turn now)).
  { unfold row'. rewrite Hq. pose proof (cw_turn _ _ _ _ _ _ _ _ _ _ _ Hw) as Hturn.
    apply claimed_row_decodes; [done|apply Hw|by apply ClaimAttemptCommand_AttemptID|lia| |done].
    destruct queued; [destruct Hlast as (seq&Hseq&->); by apply (nextSQLSequence_range _ _ Hcol)|].
    apply toTurn_inv in Hturn. rewrite Hlast. lia. }
  unfold resolveClaim, lookupAttemptByID, turn_is. rewrite Hsel, Hatt, Hsel', Hturn'.
  assert (attemptMatchesClaim res.(clres_Attempt) command = true) as ->.
  { rewrite Hres. unfold attemptMatchesClaim. simpl. by rewrite !bool_decide_eq_true_2. }
  assert (claimPluginScopeAllows command.(claim_PluginScope) (claimedTurn turn now).(turn_Plugin) = true)
    as -> by apply Hw.
  assert (turnOwnsAttempt row' res.(clres_Attempt)
    && bool_decide (res.(clres_Attempt).(att_Status) = AttemptStatusRunning) = true) as ->.
  { unfold turnOwnsAttempt, row'. simpl. rewrite Hres. simpl. rewrite Hrid, Z.eqb_refl.
    by rewrite !bool_decide_eq_true_2. }
  rewrite Hnow2. unfold After. apply Z.ltb_lt in Hlive. rewrite Hlive. by rewrite Hres.
Qed.

(** A claim whose commit the driver reported as lost is not lost.  If the
    transaction had committed, the same call answers with the Attempt it
    created, as a replay, while the lease lasts; if it had not, the call fails
    as unavailable and nothing is written. *)
Theorem claim_lost_commit_resolved cfg authority command (t t1 t2 : time) db res db' now2 :
  exec_reachable cfg (t, db) → t ≤ t1 → ClaimAttemptCommand_Validate command = None →
  Forall (λ r, r.(tr_LastEventSequence) ≤ MaxDurableSequence) db.(db_turns) →
  claimAttemptBody cfg authority (Ok t1) command db = Ok (res, db') → res.(clres_Claimed) = true →
  executionNow (Ok t2) = Ok now2 → now2 < res.(clres_Attempt).(att_LeaseExpiresAt) →
  ClaimAttempt cfg authority (mkAttemptEnv background (Ok t1) (TxLost true) (fun db => db) (Ok t2))
    command db
  = (Ok (mkClaimAttemptResult res.(clres_Turn) res.(clres_Attempt) false false true), db')
  ∧ ClaimAttempt cfg authority (mkAttemptEnv background (Ok t1) (TxLost false) (fun db => db) (Ok t2))
      command db
    = (Err ErrStoreUnavailable, db).
Proof.
  intros Hok%exec_reachable_ok _ Hv Hcols Hbody Hcl Hnow2 Hlive. simpl in Hok.
  pose proof Hbody as [(_&_&?)|(row&turn&now&expired&lease&Hw)]%claimAttemptBody_inv; [congruence|].
  pose proof (claim_ok Hok Hw) as Hok'. pose proof (cw_new _ _ _ _ _ _ _ _ _ _ _ Hw) as Hnone.
  assert (Htx : ∀ c, writeTransaction cfg background (TxLost c)
      (claimAttemptBody cfg authority (Ok t1) command) db = (Err driverError, if c then db' else db)).
  { intros c. unfold writeTransaction. simpl. rewrite Hbody. by destruct (cfg_sqlite cfg). }
  assert (Hresolve : resolveClaim (Ok t2) command db'
    = Ok (Some (mkClaimAttemptResult res.(clres_Turn) res.(clres_Attempt) false false true))).
  { apply (claim_resolves t2 now2 Hok Hw Hv); [|done..].
    rewrite Forall_forall in Hcols. apply Hcols, (cw_row _ _ _ _ _ _ _ _ _ _ _ Hw). }
  unfold ClaimAttempt. cbn [first_error background ae_ctx ae_outcome ae_clock ae_between ae_resolveClock].
  rewrite Hv, !Htx, Hresolve. split; [done|]. unfold resolveClaim. by rewrite Hnone.
Qed.

Lemma claim_lost_commit_resolved_witness :
  ClaimAttempt execConfig noAuthority
    (mkAttemptEnv background (Ok (execAt 2)) (TxLost true) (fun db => db) (Ok (execAt 5)))
    claimOne admittedTwo
  = (Ok (mkClaimAttemptResult firstEpoch.(clres_Turn) firstEpoch.(clres_Attempt) false false true),
     claimedOne).
Proof.
  apply (claim_lost_commit_resolved execConfig noAuthority claimOne (execAt 1) (execAt 2) (execAt 5)
    admittedTwo firstEpoch claimedOne (execAt 5) admittedTwo_reachable).
  - by apply execAt_le.
  - vm_compute; reflexivity.
  - repeat constructor; discriminate.
  - vm_compute; reflexivity.
  - reflexivity.
  - vm_compute; reflexivity.
  - reflexivity.
Defined.

(** ** What a page of reclaimable Turns can hide *)

(** A page of actionable work can be empty although actionable work exists:
    the limit is applied before the filter.  In a reachable state in which an
    older Turn only waits for a retry, a Reconciler that asks for one actionable
    Turn is told there is none, while a larger page lists the cancelled one. *)
Theorem reclaim_page_hides_actionable :
  ∃ cfg t db now entry,
    exec_reachable cfg (t, db) ∧ t ≤ now
    ∧ ListReclaimableTurns cfg background (Ok now) (mkReclaimQuery 1 true) db = Ok []
    ∧ ListReclaimableTurns cfg background (Ok now) (mkReclaimQuery 2 true) db = Ok [entry]
    ∧ entry.(recl_Reason) = ReclaimReasonCancellationPending.
Proof.
  eexists execConfig, (execAt 3), cancelledTwo, (execAt 100), _.
  split; [apply cancelledTwo_reachable|]. split; [by apply execAt_le|].
  split; [vm_compute; reflexivity|]. split; [vm_compute; reflexivity|]. reflexivity.
Qed.
