(* ===== verification/PluginScopedStore.v ===== *)
(** * The plugin-scoped execution store: service/agentturn/plugin_scoped_store.go

    A worker is handed a view of the SQL store that puts its own set of plugin
    releases into every claim.  The view keeps a digest of that set and refuses to
    work when the set no longer has it.  The theorems: whatever the caller puts
    into a command, a claim returns only Turns of the set, and [Matches] decides
    whether two sets are the same. *)

From Stdlib Require Import Ascii.
From stdpp Require Import sorting.
From S2P Require Import Prelude GoText GoJson GoDigest AgentContract TurnTypes MemoryStore MemoryStoreFacts Fixtures TurnService ExecutionTypes Settlement SqlDatabase SqlFacts SqlStore SqlExecution SettlementAuthority CommitCommand SqlCommit EpochFacts SqlCommitFacts SqlExecutionFacts ExecutionFixtures.

(** ** The scope and its digest *)

Definition nul : string := String (Ascii.ascii_of_N 0) "".

Definition pluginScopeKey (plugin : EventPluginRef) : string :=
  plugin.(plg_ID) +:+ nul +:+ plugin.(plg_Version) +:+ nul +:+ plugin.(plg_ReleaseDigest).

(** The order of [sort.Slice]. *)
Definition scope_before (a b : EventPluginRef) : Prop := String.le (pluginScopeKey a) (pluginScopeKey b).

#[export] Instance scope_before_dec : RelDecision scope_before.
Proof. unfold RelDecision, scope_before. intros a b. apply _. Defined.

Definition sortScope (scope : list EventPluginRef) : list EventPluginRef := merge_sort scope_before scope.

(** [binary.BigEndian.PutUint64]: the low [n] bytes, the highest first. *)
Fixpoint big_endian (n : nat) (z : Z) : list ascii :=
  match n with
  | O => []
  | S n' => Ascii.ascii_of_N (Z.to_N (Z.shiftr z (8 * Z.of_nat n') mod 256)) :: big_endian n' z
  end.

Definition scope_field (field : string) : list ascii := big_endian 8 (u64 (len field)) ++ chars field.

Definition plugin_payload (plugin : EventPluginRef) : list ascii :=
  scope_field plugin.(plg_ID) ++ scope_field plugin.(plg_Version) ++ scope_field plugin.(plg_ReleaseDigest).

Definition scope_payload (scope : list EventPluginRef) : string := of_chars (flat_map plugin_payload scope).

Definition pluginScopeDigest (scope : list EventPluginRef) : string := sha256_hex (scope_payload scope).

(** ** The view *)

(** [sc_base] is the identity of the SQL store. *)
Record PluginScopedExecutionStore := mkScopedStore {
  sc_base : Z; sc_scope : list EventPluginRef; sc_digest : string }.

Definition NewPluginScopedExecutionStore (base : Z) (scope : list EventPluginRef)
    : result PluginScopedExecutionStore :=
  guard! negb (bool_decide (scope = [])) else ErrPluginScopeMismatch;;
  check! validateClaimPluginScope scope;;
  Ok (mkScopedStore base (sortScope scope) (pluginScopeDigest (sortScope scope))).

Definition intact (store : PluginScopedExecutionStore) : bool :=
  negb (bool_decide (store.(sc_scope) = [])) && bool_decide (validateClaimPluginScope store.(sc_scope) = None)
  && bool_decide (store.(sc_digest) = pluginScopeDigest store.(sc_scope)).

Definition Matches (store : PluginScopedExecutionStore) (base : Z) (scope : list EventPluginRef) : bool :=
  intact store && (store.(sc_base) =? base) && negb (bool_decide (scope = []))
  && bool_decide (validateClaimPluginScope scope = None)
  && bool_decide (store.(sc_digest) = pluginScopeDigest (sortScope scope)).

(** What every method does first. *)
Definition scoped {A} (store : PluginScopedExecutionStore) (call : op Database A) : op Database A := fun db =>
  if intact store then call db else (Err ErrPluginScopeMismatch, db).

Definition Scoped_ClaimNext (cfg : SQLStoreConfig) (authority : ExecutionAuthority) (ctx : context)
    (scanClock : result time) (others : nat → Database → Database) (env : nat → attemptEnv)
    (store : PluginScopedExecutionStore) (command : ClaimNextCommand) : op Database ClaimAttemptResult :=
  scoped store (ClaimNext cfg authority ctx scanClock others env
    (mkClaimNextCommand command.(next_AttemptID) command.(next_WorkerID) command.(next_WorkerBuildDigest)
       command.(next_ScanLimit) store.(sc_scope))).

Definition Scoped_ClaimAttempt (cfg : SQLStoreConfig) (authority : ExecutionAuthority) (env : attemptEnv)
    (store : PluginScopedExecutionStore) (command : ClaimAttemptCommand) : op Database ClaimAttemptResult :=
  scoped store (ClaimAttempt cfg authority env
    (mkClaimAttemptCommand command.(claim_TurnID) command.(claim_AttemptID) command.(claim_WorkerID)
       command.(claim_WorkerBuildDigest) store.(sc_scope))).

Definition Scoped_HeartbeatAttempt (cfg : SQLStoreConfig) (ctx : context) (clock : result time) (outcome : txOutcome)
    (store : PluginScopedExecutionStore) (fence : AttemptFence) : op Database HeartbeatAttemptResult :=
  scoped store (HeartbeatAttempt cfg ctx clock outcome fence).

Definition Scoped_CommitAttempt (cfg : SQLStoreConfig) (env : commitEnv) (store : PluginScopedExecutionStore)
    (command : CommitAttemptCommand) : op Database CommitAttemptResult :=
  scoped store (CommitAttempt cfg env command).

(** ** Sets of releases *)

Lemma scope_loop_spec scope : ∀ seen,
  validateClaimPluginScope_loop seen scope = None ↔
  NoDup scope ∧ (∀ p, p ∈ scope → p ∉ seen)
  ∧ Forall (λ p, EventPluginRef_Validate p = None ∧ validatePluginRef p = None) scope.
Proof.
  induction scope as [|p scope IH]; intros seen; cbn [validateClaimPluginScope_loop].
  - split; [|done]. intros _. split_and!; [apply NoDup_nil_2|intros ? H; by apply not_elem_of_nil in H|constructor].
  - rewrite first_error_None, !Forall_cons, when_None, bool_decide_eq_false, IH, NoDup_cons. split.
    + intros (H1 & H2 & H3 & (H4 & H5 & H6) & _). split_and!; try done; [intros H; by apply (H5 p); [|left]|].
      intros q [->|Hq]%elem_of_cons; [done|]. intros Hs. apply (H5 q); [done|by right].
    + intros ((H1 & H2) & H3 & (H4 & H5) & H6). split_and!; try done; [apply H3; by left|].
      intros q Hq [->|Hs]%elem_of_cons; [done|]. apply (H3 q); [by right|done].
Qed.

Lemma validate_scope_spec scope :
  validateClaimPluginScope scope = None ↔
  Z.of_nat (length scope) ≤ MaxClaimPluginScopes ∧ NoDup scope
  ∧ Forall (λ p, EventPluginRef_Validate p = None ∧ validatePluginRef p = None) scope.
Proof.
  unfold validateClaimPluginScope. rewrite first_error_None, !Forall_cons, when_None, Z.ltb_ge, scope_loop_spec. split.
  - tauto.
  - intros (H1 & H2 & H3). split_and!; try done. intros p _ H. by apply not_elem_of_nil in H.
Qed.

(** A set may be given in any order. *)
Lemma validate_scope_perm s1 s2 :
  s1 ≡ₚ s2 → validateClaimPluginScope s1 = None → validateClaimPluginScope s2 = None.
Proof. intros Hp. rewrite !validate_scope_spec. by rewrite Hp. Qed.

Lemma sortScope_perm scope : sortScope scope ≡ₚ scope.
Proof. apply merge_sort_Permutation. Qed.

#[export] Instance scope_before_total : Total scope_before.
Proof. intros a b. unfold scope_before. apply String.le_total. Qed.
#[export] Instance scope_before_trans : Transitive scope_before.
Proof. intros a b c. unfold scope_before. apply String.le_po. Qed.

(** Releases with distinct keys are sorted in one way. *)
Lemma sortScope_canonical s1 s2 :
  NoDup (map pluginScopeKey s1) → s1 ≡ₚ s2 → sortScope s1 = sortScope s2.
Proof.
  intros Hn Hp. apply (StronglySorted_unique_strong scope_before).
  - intros a b Ha Hb H1 H2. assert (Hk : pluginScopeKey a = pluginScopeKey b) by by apply String.le_po.
    rewrite sortScope_perm in Ha. rewrite sortScope_perm, <- Hp in Hb.
    clear -Hn Hk Ha Hb. induction s1 as [|x l IH]; [by apply not_elem_of_nil in Ha|]. simpl in Hn. apply NoDup_cons in Hn as [Hx Hn].
    apply elem_of_cons in Ha as [->|Ha], Hb as [->|Hb]; [done| | |by apply IH].
    + destruct Hx. rewrite Hk. by apply list_elem_of_fmap_2.
    + destruct Hx. rewrite <- Hk. by apply list_elem_of_fmap_2.
  - apply StronglySorted_merge_sort; apply _.
  - apply StronglySorted_merge_sort; apply _.
  - by rewrite !sortScope_perm.
Qed.

(** ** The digest determines the sorted set *)

Lemma byte_inj a b : 0 ≤ a < 256 → 0 ≤ b < 256 → Ascii.ascii_of_N (Z.to_N a) = Ascii.ascii_of_N (Z.to_N b) → a = b.
Proof. intros Ha Hb H%(f_equal Ascii.N_of_ascii). rewrite !N_ascii_embedding in H by lia. lia. Qed.

Lemma big_endian_length n z : length (big_endian n z) = n.
Proof. induction n; simpl; congruence. Qed.

Lemma big_endian_inj n z z' : big_endian n z = big_endian n z' → z mod 2 ^ (8 * Z.of_nat n) = z' mod 2 ^ (8 * Z.of_nat n).
Proof.
  induction n as [|n IH]; intros H; [by rewrite !Z.mod_1_r|]. simpl in H. injection H as Hb H.
  apply IH in H. apply byte_inj in Hb; [|apply Z.mod_pos_bound; lia..].
  rewrite !Z.shiftr_div_pow2 in Hb by lia.
  replace (8 * Z.of_nat (S n)) with (8 * Z.of_nat n + 8) by lia. rewrite Z.pow_add_r by lia. change (2 ^ 8) with 256.
  rewrite !Z.rem_mul_r by lia. by rewrite H, Hb.
Qed.

Lemma scope_field_inj f g x y :
  len f < 2 ^ 64 → len g < 2 ^ 64 → scope_field f ++ x = scope_field g ++ y → f = g ∧ x = y.
Proof.
  intros Hf Hg H. unfold scope_field in H. rewrite <- !app_assoc in H. apply app_inj_1 in H as [Hl H]; [|by rewrite !big_endian_length].
  apply big_endian_inj in Hl. change (8 * Z.of_nat 8) with 64 in Hl. pose proof (len_nonneg f). pose proof (len_nonneg g).
  unfold u64 in Hl. rewrite !Z.mod_small in Hl by (rewrite ?Z.mod_small; lia). unfold len in Hl. rewrite <- !length_chars in Hl.
  apply app_inj_1 in H as [Hc H]; [|lia]. split; [by apply chars_inj|done].
Qed.

Lemma plugin_lengths p :
  validatePluginRef p = None → len p.(plg_ID) < 2 ^ 64 ∧ len p.(plg_Version) < 2 ^ 64 ∧ len p.(plg_ReleaseDigest) < 2 ^ 64.
Proof.
  unfold validatePluginRef, validateBoundedText, MaxPluginFieldBytes.
  rewrite !first_error_None, !Forall_cons, !first_error_None, !Forall_cons, !when_None, !Z.ltb_ge. lia.
Qed.

Lemma plugin_payload_app p l : plugin_payload p ++ l ≠ [].
Proof.
  intros H%(f_equal length). unfold plugin_payload, scope_field in H. rewrite !length_app, !big_endian_length in H.
  cbn [length] in H. lia.
Qed.

Lemma scope_payload_inj s1 s2 :
  Forall (λ p, validatePluginRef p = None) s1 → Forall (λ p, validatePluginRef p = None) s2 →
  scope_payload s1 = scope_payload s2 → s1 = s2.
Proof.
  intros H1 H2 H%(f_equal chars). unfold scope_payload in H. rewrite !chars_of_chars in H. revert s2 H2 H.
  induction H1 as [|p s1 Hp H1 IH]; intros [|q s2] H2 H; cbn [flat_map] in H;
    [done|by destruct (plugin_payload_app q (flat_map plugin_payload s2))|by destruct (plugin_payload_app p (flat_map plugin_payload s1))|].
  apply Forall_cons in H2 as [Hq H2]. unfold plugin_payload in H. rewrite <- !app_assoc in H.
  destruct (plugin_lengths p Hp) as (P1 & P2 & P3), (plugin_lengths q Hq) as (Q1 & Q2 & Q3).
  apply scope_field_inj in H as [E1 H]; [|done..]. apply scope_field_inj in H as [E2 H]; [|done..].
  apply scope_field_inj in H as [E3 H]; [|done..]. f_equal; [|by apply IH]. destruct p, q. cbn in E1, E2, E3. by rewrite E1, E2, E3.
Qed.

Lemma new_scoped_inv base scope store :
  NewPluginScopedExecutionStore base scope = Ok store →
  scope ≠ [] ∧ validateClaimPluginScope scope = None
  ∧ store = mkScopedStore base (sortScope scope) (pluginScopeDigest (sortScope scope)).
Proof.
  unfold NewPluginScopedExecutionStore. case_bool_decide; [done|]. cbn [negb].
  destruct (validateClaimPluginScope scope) eqn:E; [done|]. intros [= <-]. done.
Qed.

Lemma new_scoped_intact base scope store :
  NewPluginScopedExecutionStore base scope = Ok store → intact store = true.
Proof.
  intros (Hne & Hv & ->)%new_scoped_inv. unfold intact. cbn [sc_scope sc_digest].
  rewrite !andb_true_iff, negb_true_iff, bool_decide_eq_false, !bool_decide_eq_true. split_and!; [| |done].
  - intros E. apply Hne, Permutation_nil. rewrite <- E. apply sortScope_perm.
  - by apply (validate_scope_perm scope); [rewrite sortScope_perm|].
Qed.

(** [Matches] decides equality of scopes.  For a view that was built for a set
    of releases with distinct keys, [Matches] accepts a list exactly when the
    store is the same and the list is a permutation of the set, provided that
    SHA-256 does not send the two payloads to one digest. *)
Theorem scope_matches_decides base scope store base' scope' :
  NewPluginScopedExecutionStore base scope = Ok store → NoDup (map pluginScopeKey scope) →
  (pluginScopeDigest (sortScope scope) = pluginScopeDigest (sortScope scope') →
   scope_payload (sortScope scope) = scope_payload (sortScope scope')) →
  Matches store base' scope' = true ↔ base' = base ∧ scope' ≡ₚ scope.
Proof.
  intros Hnew Hkeys Hhash. pose proof (new_scoped_intact _ _ _ Hnew) as Hint.
  destruct (new_scoped_inv _ _ _ Hnew) as (Hne & Hv & ->). unfold Matches. rewrite Hint. cbn [sc_base sc_digest].
  rewrite !andb_true_iff, negb_true_iff, bool_decide_eq_false, !bool_decide_eq_true, Z.eqb_eq. split.
  - intros ((((_ & ->) & _) & Hv') & Hd). split; [done|]. apply Hhash, scope_payload_inj in Hd.
    + by rewrite <- (sortScope_perm scope'), <- Hd, sortScope_perm.
    + rewrite sortScope_perm. apply validate_scope_spec in Hv as (_ & _ & Hv). eapply Forall_impl; [done|]. by intros ? [_ ?].
    + rewrite sortScope_perm. apply validate_scope_spec in Hv' as (_ & _ & Hv'). eapply Forall_impl; [done|]. by intros ? [_ ?].
  - intros [-> Hp]. split_and!; try done.
    + intros ->. apply Hne. by apply Permutation_nil.
    + by apply (validate_scope_perm scope).
    + by rewrite (sortScope_canonical scope scope').
Qed.

(** ** Claims *)

Lemma claimEpoch_plugin cfg command db row turn expired now res db' :
  claimEpoch cfg command db row turn expired now = Ok (res, db') → res.(clres_Turn).(turn_Plugin) = turn.(turn_Plugin).
Proof.
  unfold claimEpoch. intros H. repeat (case_match; simplify_eq; try done).
Qed.

Lemma claim_in_scope cfg authority env command db res db' :
  ClaimAttempt cfg authority env command db = (Ok res, db') →
  claimPluginScopeAllows command.(claim_PluginScope) res.(clres_Turn).(turn_Plugin) = true.
Proof.
  unfold ClaimAttempt. intros H. destruct (first_error _); [done|].
  destruct (writeTransaction _ _ _ _ _) as [[r|e] db1] eqn:Hw.
  - injection H as <- <-. apply writeTransaction_inv in Hw as [[[? ?] _]|(a & db2 & Hb & [(_ & Hr & _)|(_ & ? & _)])]; [done| |done].
    injection Hr as ->. unfold claimAttemptBody in Hb. destruct (lockTurn _ _) as [row|]; [|done].
    destruct (toTurn row) as [turn|]; [|done]. destruct (claimPluginScopeAllows _ _) eqn:Hp; [|done].
    destruct (lookupAttemptByID _ _) as [existing|].
    + destruct (claimReplay _ _ _ _ _) as [rep|] eqn:Hr; [|done]. injection Hb as <- <-. unfold claimReplay in Hr.
      repeat (case_match; simplify_eq; try done).
    + destruct (executionNow _); [|done]. destruct (claimGuards _ _ _); [done|]. destruct (claimExpired _ _ _); [|done].
      destruct (authorizeTurnReservationExecution _ _ _); [done|]. apply claimEpoch_plugin in Hb. by rewrite Hb.
  - destruct (ae_ctx env 3%nat); [done|]. destruct (resolveClaim _ _ _) as [[replay|]|] eqn:Hr; [|done|done].
    injection H as <- <-. unfold resolveClaim in Hr. repeat (case_match; simplify_eq; try done).
Qed.

Lemma claimNextLoop_in_scope cfg authority others env command candidates : ∀ i db res db',
  claimNextLoop cfg authority others env i command candidates db = (Ok res, db') →
  claimPluginScopeAllows command.(next_PluginScope) res.(clres_Turn).(turn_Plugin) = true.
Proof.
  induction candidates as [|t rest IH]; intros i db res db' H; cbn [claimNextLoop] in H; [done|].
  destruct (ClaimAttempt _ _ _ _ _) as [[r|e] db1] eqn:Hc.
  - injection H as <- <-. by apply claim_in_scope in Hc.
  - destruct (ae_ctx (env i) 4%nat); [done|]. destruct (claimNextSkips e); [by eapply IH|done].
Qed.

Lemma claimNext_in_scope cfg authority ctx clock others env command db res db' :
  ClaimNext cfg authority ctx clock others env command db = (Ok res, db') →
  claimPluginScopeAllows command.(next_PluginScope) res.(clres_Turn).(turn_Plugin) = true.
Proof.
  unfold ClaimNext. intros H. destruct (first_error _); [done|]. destruct (lookupAttemptByID _ _).
  - by apply claim_in_scope in H.
  - destruct (scanClaimableTurns _ _ _ _ _); [|done]. by eapply claimNextLoop_in_scope.
Qed.

Lemma allowed_in_scope base scope store plugin :
  NewPluginScopedExecutionStore base scope = Ok store →
  claimPluginScopeAllows store.(sc_scope) plugin = true → plugin ∈ scope.
Proof.
  intros (Hne & _ & ->)%new_scoped_inv H. cbn [sc_scope] in H. unfold claimPluginScopeAllows in H.
  apply orb_true_iff in H as [H|H].
  - apply bool_decide_eq_true in H. destruct Hne. apply Permutation_nil. rewrite <- H. apply sortScope_perm.
  - apply existsb_exists in H as (p & Hp%list_elem_of_In & He). apply bool_decide_eq_true in He as ->. by rewrite sortScope_perm in Hp.
Qed.

(** C19: A scoped worker only gets Turns of its plugins.  Whatever scope the caller
    puts into the command, and whatever the tables, the clock, other transactions
    and lost commits do, a claim through a view that was built for a set of
    releases returns only Turns of these releases.  A view whose scope was changed
    after it was built, so that its digest is another one, refuses every call and
    changes nothing. *)
Theorem scoped_claims_in_scope base scope store :
  NewPluginScopedExecutionStore base scope = Ok store →
  (∀ cfg authority env command db res db',
     Scoped_ClaimAttempt cfg authority env store command db = (Ok res, db') → res.(clres_Turn).(turn_Plugin) ∈ scope)
  ∧ (∀ cfg authority ctx clock others env command db res db',
       Scoped_ClaimNext cfg authority ctx clock others env store command db = (Ok res, db') →
       res.(clres_Turn).(turn_Plugin) ∈ scope)
  ∧ ∀ other, pluginScopeDigest other ≠ store.(sc_digest) →
      let changed := mkScopedStore store.(sc_base) other store.(sc_digest) in
      (∀ cfg authority env command db, Scoped_ClaimAttempt cfg authority env changed command db = (Err ErrPluginScopeMismatch, db))
      ∧ (∀ cfg authority ctx clock others env command db,
           Scoped_ClaimNext cfg authority ctx clock others env changed command db = (Err ErrPluginScopeMismatch, db))
      ∧ (∀ cfg ctx clock outcome fence db,
           Scoped_HeartbeatAttempt cfg ctx clock outcome changed fence db = (Err ErrPluginScopeMismatch, db))
      ∧ (∀ cfg env command db, Scoped_CommitAttempt cfg env changed command db = (Err ErrPluginScopeMismatch, db)).
Proof.
  intros Hnew. pose proof (new_scoped_intact _ _ _ Hnew) as Hint. split_and!.
  - intros cfg authority env command db res db' H. unfold Scoped_ClaimAttempt, scoped in H. rewrite Hint in H.
    apply claim_in_scope in H. by eapply allowed_in_scope.
  - intros cfg authority ctx clock others env command db res db' H. unfold Scoped_ClaimNext, scoped in H. rewrite Hint in H.
    apply claimNext_in_scope in H. by eapply allowed_in_scope.
  - intros other Hd changed. assert (Hno : intact changed = false).
    { unfold intact, changed. cbn [sc_scope sc_digest]. apply andb_false_iff. right. apply bool_decide_eq_false. congruence. }
    unfold Scoped_ClaimAttempt, Scoped_ClaimNext, Scoped_HeartbeatAttempt, Scoped_CommitAttempt, scoped. by rewrite Hno.
Qed.

(** ** A worker for two releases *)

Definition otherPlugin : EventPluginRef := mkEventPluginRef "audio" "2.0.0" "sha256:def".
Definition demoView : PluginScopedExecutionStore :=
  Eval vm_compute in match NewPluginScopedExecutionStore 1 [demoPlugin; otherPlugin] with
                     | Ok s => s | Err _ => mkScopedStore 0 [] "" end.

Lemma demo_view : NewPluginScopedExecutionStore 1 [demoPlugin; otherPlugin] = Ok demoView.
Proof. vm_compute. reflexivity. Qed.

Lemma scoped_claims_in_scope_witness :
  Scoped_ClaimAttempt execConfig noAuthority (claimEnvAt 2) demoView claimOne admittedTwo = (Ok firstEpoch, claimedOne)
  ∧ firstEpoch.(clres_Turn).(turn_Plugin) ∈ [demoPlugin; otherPlugin].
Proof.
  destruct (scoped_claims_in_scope 1 [demoPlugin; otherPlugin] demoView demo_view) as [H _].
  assert (E : Scoped_ClaimAttempt execConfig noAuthority (claimEnvAt 2) demoView claimOne admittedTwo = (Ok firstEpoch, claimedOne))
    by (vm_compute; reflexivity).
  split; [exact E|exact (H _ _ _ _ _ _ _ E)].
Defined.

Lemma scope_matches_decides_witness :
  Matches demoView 1 [otherPlugin; demoPlugin] = true.
Proof.
  apply (scope_matches_decides 1 [demoPlugin; otherPlugin] demoView 1 [otherPlugin; demoPlugin]).
  - exact demo_view.
  - apply (bool_decide_unpack _). vm_compute. exact I.
  - intros _. vm_compute. reflexivity.
  - split; [reflexivity|]. apply Permutation_swap.
Defined.
