(* ===== verification/SqlStoreFacts.v ===== *)
(** * The event log of the SQL store

    Every transaction either keeps the log, appends the next event of one Turn,
    or admits a Turn with its first event.  From this follow the shape of every
    reachable log and what a run may do to it. *)

From S2P Require Import Prelude GoText GoJson AgentContract TurnTypes MemoryStore MemoryStoreFacts TurnService ExecutionTypes SqlDatabase SqlFacts SqlStore SqlExecution EpochFacts SqlCommitFacts SqlExecutionFacts.

(** ** What a step does to the log *)

Inductive log_change (db db' : Database) : Prop :=
| change_kept : log_kept db db' → log_change db db'
| change_admit id admitted e :
    db'.(db_turns) = db.(db_turns) ++ [turnToSQLRow id admitted 1] →
    existsb (turn_key_taken (turnToSQLRow id admitted 1)) db.(db_turns) = false →
    db'.(db_events) = db.(db_events) ++ [e] →
    e.(er_TurnID) = admitted.(turn_ID) → e.(er_Sequence) = 1 →
    e.(er_EventID) = deterministicEventID admitted.(turn_ID) 1 →
    log_change db db'.

Lemma log_kept_refl db : log_kept db db.
Proof. apply log_quiet; [done|]. apply Forall_Forall2_diag, Forall_true. by repeat split. Qed.

Lemma change_same db : log_change db db.
Proof. apply change_kept, log_kept_refl. Qed.

Lemma eventToSQLRow_inv id event now e :
  eventToSQLRow id event now = Ok e →
  e.(er_TurnID) = event.(ev_TurnID) ∧ e.(er_Sequence) = i64 event.(ev_Sequence)
  ∧ e.(er_EventID) = event.(ev_EventID) ∧ e.(er_EventJSON) = event_column event
  ∧ e.(er_SchemaVersion) = event.(ev_SchemaVersion) ∧ e.(er_EventType) = event.(ev_Type).
Proof.
  unfold eventToSQLRow. intros H. destruct (validateStoredEnvelope event); [done|].
  by destruct (canonicalExecutionTime now); simplify_eq.
Qed.

Lemma turn_write_log db row next last db' :
  turn_write db row next last db' → log_kept db db'.
Proof.
  intros (Hrow&Hid&Ht&Ha&Huniq&e&He&Hev). eapply (log_append _ _ row last e); [done..|].
  rewrite Ht. apply update_rows_Forall2; intros x Hx ->; by repeat split.
Qed.

Lemma admitRows_log db candidate now first initial bind db' :
  buildEvent candidate 1 initial = Ok first ∨ buildEvent (admittedAt candidate now) 1 initial = Ok first →
  admitRows db (admittedAt candidate now) first now bind = Ok db' → log_change db db'.
Proof.
  intros Hb (id&e&Ht&_&He&Hrow&Hk)%admitRows_inv.
  apply eventToSQLRow_inv in Hrow as (Hid&Hseq&Hev&_).
  assert (ev_TurnID first = turn_ID candidate ∧ ev_Sequence first = 1
          ∧ ev_EventID first = deterministicEventID (turn_ID candidate) 1) as (E1&E2&E3).
  { destruct Hb as [Hb|Hb]; apply buildEvent_Ok in Hb as (_&->&->&->&_); done. }
  rewrite E1 in Hid. rewrite E2 in Hseq. rewrite E3 in Hev. by eapply change_admit.
Qed.

(** An update that moves the last sequence of one Turn keeps the others. *)
Lemma log_append_update db db' row last e f :
  row ∈ db.(db_turns) → next_event db row last e → db'.(db_events) = db.(db_events) ++ [e] →
  db'.(db_turns) = update_rows (turn_is row.(tr_TurnID)) f db.(db_turns) →
  (∀ r, same_identity r (f r) ∧ (f r).(tr_LastEventSequence) = last) → log_kept db db'.
Proof.
  intros Hrow Hne He Ht Hf. eapply log_append; [done..|]. rewrite Ht.
  apply update_rows_Forall2; intros r _ Hp; rewrite Hp; [by apply Hf|done].
Qed.

Lemma buildEvent_sequence turn sequence draft event :
  buildEvent turn sequence draft = Ok event → event.(ev_Sequence) = sequence.
Proof. by intros (_&_&?&_)%buildEvent_Ok. Qed.

Lemma commit_log plan s clock db res db' k : commit_write plan s clock db res db' k → log_kept db db'.
Proof.
  intros Hw. destruct (cm_turn _ _ _ _ _ _ _ Hw) as (Hrow&_&Hturn). apply toTurn_inv in Hturn as (Hid&_).
  rewrite <- (commitNext_id _ _ _ _ _ _ _ _ _ (cm_next _ _ _ _ _ _ _ Hw)) in Hid.
  destruct (cm_event _ _ _ _ _ _ _ Hw) as (Hseq&Hb&He&Hk).
  eapply (log_append_update _ _ (ctr_row k)); [done| |apply Hw| |].
  - exists (ctr_sequence k), (ctr_next k), (ctr_draft k), (ctr_event k), (ctr_now k). by split_and!.
  - rewrite <- Hid. apply Hw.
  - intros r. split; [done|]. simpl. by rewrite (buildEvent_sequence _ _ _ _ Hb).
Qed.

Lemma reconcile_log cfg provider s clock command terminal db res db' k :
  retire_write cfg provider s clock command terminal db res db' k → log_kept db db'.
Proof.
  intros Hw. destruct (rw_turn _ _ _ _ _ _ _ _ _ _ Hw) as (Hrow&_&Hturn&_). apply toTurn_inv in Hturn as (Hid&_).
  destruct (rw_event _ _ _ _ _ _ _ _ _ _ Hw) as (Hseq&_&Hb&He&Hk).
  eapply (log_append_update _ _ (rtr_row k)); [done| |apply Hw| |].
  - eexists _, _, _, _, _. split_and!; [done|reflexivity|exact Hid|done..].
  - rewrite <- Hid. apply Hw.
  - intros r. done.
Qed.

Lemma exec_step_log cfg t db t' db' :
  exec_step cfg (t, db) (t', db') → log_change db db'.
Proof.
  intros Hs. inversion Hs as [? ? Hk|? ? ? ? Hle Ht Ha He _ _]; subst;
    [inversion Hk as
    [ctx clock outcome candidate initial first ? ? ? r ? Hle Hck Hv Hb Hw
    |authority ctx clock outcome candidate initial ? ? ? r ? Hle Hck Hv Hw
    |env turnID draft ? ? ? r ? Hle Hck H|env turnID to at_ draft ? ? ? r ? Hle Hck H
    |env p th turnID at_ draft ? ? ? r ? Hle Hck H
    |authority ctx clock outcome command ? ? ? r ? Hle Hck _ Hw
    |ctx clock outcome fence ? ? ? r ? Hle Hck H
    |plan s clock reopened command ctx outcome ? ? ? r ? Hle Hck Hv Hp Hw
    |provider s clock reopened command terminal ctx outcome ? ? ? r ? Hle Hck Hv Hterm Hw];
     subst|].
  - eapply tx_step; [done|apply change_same|]. intros a db1 (now&_&->&H)%admitBody_inv.
    eapply admitRows_log; [by left|done].
  - eapply tx_step; [done|apply change_same|].
    intros a db1 [->|(now&first&bind&_&Hb&H)]%admitWithReservationBody_inv; [apply change_same|].
    eapply admitRows_log; [by right|done].
  - unfold SQLStore_AppendEvent in H. case_match; simplify_eq; [apply change_same|].
    eapply finish_step; [done|apply change_same|].
    intros a db1 (row&turn&last&_&Hw&_)%appendEventBody_inv. by eapply change_kept, turn_write_log.
  - unfold SQLStore_Transition in H. case_match; simplify_eq; [apply change_same|].
    eapply finish_step; [done|apply change_same|].
    intros a db1 [->|(row&turn&now&last&_&Hw&_)]%transitionBody_inv; [apply change_same|].
    by eapply change_kept, turn_write_log.
  - unfold SQLStore_RequestCancel in H. case_match; simplify_eq; [apply change_same|].
    eapply finish_step; [done|apply change_same|].
    intros a db1 [->|(row&turn&now&last&_&Hw&_)]%requestCancelBody_inv; [apply change_same|].
    by eapply change_kept, turn_write_log.
  - eapply tx_step; [done|apply change_same|].
    intros a db1 [(->&_)|(row&turn&now&expired&lease&Hcw)]%claimAttemptBody_inv; [apply change_same|].
    apply change_kept, Hcw.
  - apply HeartbeatAttempt_inv in H as [[-> _]|(res&row&a&now&lease&Hhw&_)]; [apply change_same|].
    rewrite (hw_db _ _ _ _ _ _ _ _ _ _ Hhw). apply change_kept, log_quiet; [done|].
    apply Forall_Forall2_diag, Forall_true. by repeat split.
  - eapply tx_step; [done|apply change_same|].
    intros a db1 [(->&_)|(k&Hcw)]%commitAttemptBody_inv; [apply change_same|].
    by eapply change_kept, commit_log.
  - eapply tx_step; [done|apply change_same|].
    intros a db1 [(->&_)|(k&Hrw)]%reconcileTerminalBody_inv; [apply change_same|].
    by eapply change_kept, reconcile_log.
  - apply change_kept, log_quiet; [done|]. rewrite Ht. apply Forall_Forall2_diag, Forall_true. by repeat split.
Qed.

(** ** The shape of every log *)

Definition turn_events (db : Database) (turnID : string) : list sqlTurnEventRow :=
  List.filter (fun e => bool_decide (e.(er_TurnID) = turnID)) db.(db_events).

Definition row_scope (r : sqlTurnRow) : string * string * string :=
  (r.(tr_PrincipalID), r.(tr_ThreadID), r.(tr_IdempotencyKey)).

(** The stored log of a Turn is numbered 1, 2, ..., up to the row's position. *)
Definition row_log_ok (db : Database) (r : sqlTurnRow) : Prop :=
  1 ≤ r.(tr_LastEventSequence) ≤ MaxDurableSequence
  ∧ map er_Sequence (turn_events db r.(tr_TurnID)) = seqZ 1 r.(tr_LastEventSequence).

Record sql_log_ok (db : Database) : Prop := {
  sl_ids : NoDup (map tr_TurnID db.(db_turns));
  sl_scopes : NoDup (map row_scope db.(db_turns));
  sl_rows : ∀ r, r ∈ db.(db_turns) → row_log_ok db r;
  sl_events : ∀ e, e ∈ db.(db_events) →
    e.(er_EventID) = deterministicEventID e.(er_TurnID) e.(er_Sequence)
    ∧ ∃ r, r ∈ db.(db_turns) ∧ r.(tr_TurnID) = e.(er_TurnID)
}.

Lemma nextSQLSequence_inv last sequence :
  1 ≤ last ≤ MaxDurableSequence → nextSQLSequence last = Ok sequence →
  sequence = last + 1 ∧ i64 sequence = last + 1 ∧ last < MaxDurableSequence.
Proof.
  assert (MaxDurableSequence = 2 ^ 63 - 1) as HM by reflexivity.
  unfold nextSQLSequence. intros Hr H. destruct (negb _) eqn:E1 in H; [|done].
  destruct (negb _) eqn:E2 in H; [|done]. simplify_eq. bool_hyps. rewrite u64_small in * by lia.
  rewrite (i64_small (last + 1)), (u64_small (last + 1)) by lia. split; [done|].
  split; [apply i64_small; lia|lia].
Qed.

Lemma next_event_inv db row last e :
  1 ≤ row.(tr_LastEventSequence) ≤ MaxDurableSequence → next_event db row last e →
  last = row.(tr_LastEventSequence) + 1 ∧ row.(tr_LastEventSequence) < MaxDurableSequence
  ∧ e.(er_TurnID) = row.(tr_TurnID) ∧ e.(er_Sequence) = last
  ∧ e.(er_EventID) = deterministicEventID e.(er_TurnID) e.(er_Sequence).
Proof.
  intros Hr (seq&turn&draft&event&now&Hs&->&Hid&Hb&Hrow&_).
  apply nextSQLSequence_inv in Hs as (->&E&Hlt); [|done].
  apply buildEvent_Ok in Hb as (_&E1&E2&E3&_). apply eventToSQLRow_inv in Hrow as (->&->&->&_).
  rewrite E1, E2, E3, E, Hid. done.
Qed.

Lemma turn_events_snoc db db' e id :
  db'.(db_events) = db.(db_events) ++ [e] →
  turn_events db' id = turn_events db id ++ (if bool_decide (e.(er_TurnID) = id) then [e] else []).
Proof. intros H. unfold turn_events. by rewrite H, List.filter_app. Qed.

Lemma Forall2_map_key {A B} (R : A → A → Prop) (k : A → B) l l' :
  Forall2 R l l' → (∀ x y, R x y → k y = k x) → map k l' = map k l.
Proof. intros H Hk. induction H as [|x y l l' HR _ IH]; simpl; [done|]. by rewrite (Hk _ _ HR), IH. Qed.

Lemma Forall2_elem_r {A} (R : A → A → Prop) l l' y :
  Forall2 R l l' → y ∈ l' → ∃ x, x ∈ l ∧ R x y.
Proof.
  intros H Hy. apply list_elem_of_lookup in Hy as [i Hi].
  destruct (Forall2_lookup_r _ _ _ _ _ H Hi) as (x&Hx&?). eauto using list_elem_of_lookup_2.
Qed.

Lemma Forall2_elem_l {A} (R : A → A → Prop) l l' x :
  Forall2 R l l' → x ∈ l → ∃ y, y ∈ l' ∧ R x y.
Proof.
  intros H Hx. apply list_elem_of_lookup in Hx as [i Hi].
  destruct (Forall2_lookup_l _ _ _ _ _ H Hi) as (y&Hy&?). eauto using list_elem_of_lookup_2.
Qed.

(** A log that keeps its rows keeps its keys. *)
Lemma same_identity_keys (R : sqlTurnRow → sqlTurnRow → Prop) l l' :
  Forall2 R l l' → (∀ r r', R r r' → same_identity r r') →
  map tr_TurnID l' = map tr_TurnID l ∧ map row_scope l' = map row_scope l.
Proof.
  intros H HR. split; (eapply Forall2_map_key; [done|]); intros x y (_&?&?&?&?&_)%HR; [done|].
  unfold row_scope. congruence.
Qed.

Lemma log_kept_ok db db' : sql_log_ok db → log_kept db db' → sql_log_ok db'.
Proof.
  intros [Hids Hsc Hrows Hev] [He HF|row last e Hrow Hnext He HF].
  - destruct (same_identity_keys _ _ _ HF) as [E1 E2]; [by intros ?? [? _]|].
    split; [by rewrite E1|by rewrite E2| |].
    + intros r' Hr'. destruct (Forall2_elem_r _ _ _ _ HF Hr') as (r&Hr&(_&Hid&_)&Hlast).
      unfold row_log_ok, turn_events. rewrite He, Hid, Hlast. by apply Hrows.
    + intros x Hx. rewrite He in Hx. destruct (Hev x Hx) as (?&r&Hr&?). split; [done|].
      destruct (Forall2_elem_l _ _ _ _ HF Hr) as (r'&?&(_&?&_)&_). exists r'. split; [done|congruence].
  - destruct (same_identity_keys _ _ _ HF) as [E1 E2]; [by intros ?? [? _]|].
    destruct (Hrows row Hrow) as [Hrng Hlog].
    destruct (next_event_inv _ _ _ _ Hrng Hnext) as (->&Hlt&Hte&Hse&Hide).
    split; [by rewrite E1|by rewrite E2| |].
    + intros r' Hr'. destruct (Forall2_elem_r _ _ _ _ HF Hr') as (r&Hr&(_&Hid&_)&Hlast).
      unfold row_log_ok. rewrite (turn_events_snoc _ _ _ _ He), Hid, Hlast, Hte.
      unfold turn_is. destruct (decide (tr_TurnID r = tr_TurnID row)) as [E|E].
      * rewrite !bool_decide_eq_true_2 by congruence. split; [lia|].
        rewrite map_app, E, Hlog, seqZ_app by lia. f_equal. rewrite Z.add_comm. simpl. rewrite Hse.
        by rewrite Z.add_comm.
      * rewrite !bool_decide_eq_false_2 by congruence. rewrite app_nil_r. by apply Hrows.
    + intros x Hx. rewrite He in Hx. apply elem_of_app in Hx as [Hx| ->%list_elem_of_singleton].
      * destruct (Hev x Hx) as (?&r&Hr&?). split; [done|].
        destruct (Forall2_elem_l _ _ _ _ HF Hr) as (r'&?&(_&?&_)&_). exists r'. split; [done|congruence].
      * split; [done|].
        destruct (Forall2_elem_l _ _ _ _ HF Hrow) as (r'&?&(_&?&_)&_). exists r'. split; [done|congruence].
Qed.

Lemma log_change_ok db db' : sql_log_ok db → log_change db db' → sql_log_ok db'.
Proof.
  intros Hok [Hkept|id admitted e Ht Hk He Hte Hse Hide]; [by eapply log_kept_ok|].
  destruct Hok as [Hids Hsc Hrows Hev].
  assert (Hfresh : ∀ r, r ∈ db_turns db → tr_TurnID r ≠ turn_ID admitted
                        ∧ row_scope r ≠ row_scope (turnToSQLRow id admitted 1)).
  { intros r Hr. rewrite <- not_true_iff_false, List.existsb_exists in Hk.
    split; intros E; apply Hk; (exists r; split; [by apply list_elem_of_In|]); unfold turn_key_taken; simpl.
    - by rewrite bool_decide_eq_true_2.
    - unfold row_scope in E. simpl in E. injection E as -> -> ->.
      apply orb_true_iff. right. by rewrite !andb_true_iff, !bool_decide_eq_true. }
  split; rewrite ?Ht, ?map_app.
  - apply NoDup_snoc; [done|]. intros (r&E&Hr)%elem_of_map. by destruct (Hfresh r Hr) as [Hne _].
  - apply NoDup_snoc; [done|]. intros (r&E&Hr)%elem_of_map. by destruct (Hfresh r Hr) as [_ Hne].
  - intros r Hr. unfold row_log_ok. rewrite (turn_events_snoc _ _ _ _ He), Hte.
    apply elem_of_app in Hr as [Hr| ->%list_elem_of_singleton].
    + rewrite bool_decide_eq_false_2 by (by destruct (Hfresh r Hr) as [Hne _]; auto).
      rewrite app_nil_r. by apply Hrows.
    + simpl. rewrite bool_decide_eq_true_2 by done. split; [done|].
      assert (turn_events db (turn_ID admitted) = []) as ->.
      { destruct (turn_events db (turn_ID admitted)) as [|x l] eqn:E; [done|exfalso].
        assert (List.In x (turn_events db (turn_ID admitted))) as Hx by (rewrite E; by left).
        apply List.filter_In in Hx as [Hx Hp]. bool_hyps. apply list_elem_of_In in Hx.
        destruct (Hev x Hx) as (_&r&Hr&?). destruct (Hfresh r Hr) as [Hne _]. congruence. }
      simpl. by rewrite Hse.
  - intros x Hx. rewrite He in Hx. apply elem_of_app in Hx as [Hx| ->%list_elem_of_singleton].
    + destruct (Hev x Hx) as (?&r&Hr&?). split; [done|]. exists r. split; [|done].
      apply elem_of_app. by left.
    + rewrite Hte, Hse, Hide. split; [done|]. eexists.
      split; [apply elem_of_app; right; apply list_elem_of_here|done].
Qed.

Lemma exec_run_log cfg s s' : sql_log_ok s.2 → exec_run cfg s s' → sql_log_ok s'.2.
Proof.
  intros Hs H. induction H as [|s s1 s' Hst _ IH]; [done|]. apply IH.
  destruct s as [t db], s1 as [t1 db1]. by eapply log_change_ok, exec_step_log.
Qed.

Lemma exec_reachable_log cfg s : exec_reachable cfg s → sql_log_ok s.2.
Proof.
  intros (t&db&(Ht&_&He&_)&Hrun). eapply exec_run_log; [|done].
  split; simpl; rewrite ?Ht, ?He; try apply NoDup_nil_2; by intros ? ?%elem_of_nil.
Qed.
