(* ===== verification/CommitFixtures.v ===== *)
(** * A concrete history of commits and retirements used by the witnesses

    The worker of the first epoch emits an event with an effect, then completes
    the Turn under a settlement authority; in another history the Turn is
    released, and in a third the reconciler retires the cancelled Turn. *)


From S2P Require Import Prelude GoText GoJson GoDigest GoTime AgentContract TurnTypes MemoryStore MemoryStoreFacts Fixtures TurnService ExecutionTypes Settlement ProviderUsage SettlementUsage SqlDatabase SqlFacts SqlStore SqlExecution EffectOutbox SettlementAuthority SettlementTables SettlementResolution CommitCommand SqlCommit Reconcile EpochFacts SqlCommitFacts SqlExecutionFacts ExecutionFixtures.

(** An authority that accepts everything and may hold for review. *)
Definition demoAuthority : SettlementAuthority :=
  mkSettlementAuthority (fun _ _ => None) (Some (fun _ _ => None)) None false None None.
Definition settling : nat → settlementState := fun _ => mkSettlementState 0 (Some demoAuthority) None false.

Definition commitEnvAt (n : Z) (outcome : txOutcome) : commitEnv :=
  mkCommitEnv background settling (Ok (execAt n)) (Ok (execAt n)) outcome noOthers.

Definition fenceOne : AttemptFence := mkAttemptFence "turn_1" "attempt-1" 1 "worker-1" "build-1".
Definition fenceTwo : AttemptFence := mkAttemptFence "turn_1" "attempt-2" 2 "worker-2" "build-1".

Definition noteDraft : EventDraft := mkEventDraft "plugin.note" [] (json_object [json_field "n" "1"]).
Definition mailDraft : EffectOutboxDraft := mkEffectOutboxDraft "outbox-1" "mail" "mail-1" "{}" (execAt 5).

Definition emitCommand : CommitAttemptCommand :=
  mkCommitAttemptCommand fenceOne "op-1" (Some noteDraft) "" [mailDraft] None.
Definition completeCommand : CommitAttemptCommand :=
  mkCommitAttemptCommand fenceOne "op-2" None TurnStatusCompleted [] None.
Definition failCommand : CommitAttemptCommand :=
  mkCommitAttemptCommand fenceOne "op-2" None TurnStatusFailed [] None.
Definition reconcileCommand : ReconcileCommand :=
  mkReconcileCommand "turn_2" ReclaimReasonCancellationPending "reconciler-1" "build-1".

Ltac plan_of command :=
  let x := eval vm_compute in (planCommit settling command) in
  match x with Ok ?p => exact p end.
Definition emitPlan : commitPlan := ltac:(plan_of emitCommand).
Definition completePlan : commitPlan := ltac:(plan_of completeCommand).
Definition failPlan : commitPlan := ltac:(plan_of failCommand).

Definition emitted : Database :=
  Eval vm_compute in snd (CommitAttempt execConfig (commitEnvAt 5 TxReported) emitCommand cancelledTwo).
Definition completed : Database :=
  Eval vm_compute in snd (CommitAttempt execConfig (commitEnvAt 10 TxReported) completeCommand emitted).
Definition failedHeld : Database :=
  Eval vm_compute in snd (CommitAttempt execConfig (commitEnvAt 10 TxReported) failCommand emitted).
Definition failedReleased : Database :=
  Eval vm_compute in snd (CommitAttempt execConfig (commitEnvAt 10 TxReported) failCommand cancelledTwo).
Definition retiredTwo : Database :=
  Eval vm_compute in snd (ReconcileTerminal execConfig (commitEnvAt 10 TxReported) reconcileCommand completed).

Definition emittedResult : CommitAttemptResult :=
  ltac:(claim_result (CommitAttempt execConfig (commitEnvAt 5 TxReported) emitCommand cancelledTwo)).
Definition completedResult : CommitAttemptResult :=
  ltac:(claim_result (CommitAttempt execConfig (commitEnvAt 10 TxReported) completeCommand emitted)).
Definition retiredResult : ReconcileResult :=
  ltac:(claim_result (ReconcileTerminal execConfig (commitEnvAt 10 TxReported) reconcileCommand completed)).

Example completed_settles : map entry_turn completed.(db_settlement).(st_ledger) = [Some "turn_1"].
Proof. vm_compute. reflexivity. Qed.

Example failed_with_effects_is_held : length failedHeld.(db_settlement).(st_reviews) = 1%nat.
Proof. vm_compute. reflexivity. Qed.

Example failed_without_effects_settles :
  failedReleased.(db_settlement).(st_reviews) = [] ∧ outcome_turns failedReleased = ["turn_1"].
Proof. vm_compute. split; reflexivity. Qed.

Example retired_releases : outcome_turns retiredTwo = ["turn_1"; "turn_2"].
Proof. vm_compute. reflexivity. Qed.

(** A retry of the completed operation replays its receipt. *)
Example complete_replays :
  match CommitAttempt execConfig (commitEnvAt 200 TxReported) completeCommand retiredTwo with
  | (Ok r, db) => r.(cres_Replay) = true ∧ db = retiredTwo
  | _ => False
  end.
Proof. vm_compute. split; reflexivity. Qed.

(** ** The histories as runs *)

Lemma emit_step : exec_step execConfig (execAt 3, cancelledTwo) (execAt 5, emitted).
Proof.
  apply xs_kernel. eapply (xs_commit _ emitPlan settling (Ok (execAt 5)) (Ok (execAt 5)) emitCommand background TxReported);
    [by apply execAt_le|by left|vm_compute; reflexivity..].
Qed.

Lemma complete_step : exec_step execConfig (execAt 5, emitted) (execAt 10, completed).
Proof.
  apply xs_kernel. eapply (xs_commit _ completePlan settling (Ok (execAt 10)) (Ok (execAt 10)) completeCommand background TxReported);
    [by apply execAt_le|by left|vm_compute; reflexivity..].
Qed.

Lemma retireTwo_step : exec_step execConfig (execAt 10, completed) (execAt 10, retiredTwo).
Proof.
  apply xs_kernel. eapply (xs_reconcile _ false settling (Ok (execAt 10)) (Ok (execAt 10)) reconcileCommand TurnStatusStopped
            background TxReported);
    [by apply execAt_le|by left|vm_compute; reflexivity..].
Qed.

Lemma emitted_reachable : exec_reachable execConfig (execAt 5, emitted).
Proof. eapply exec_reachable_step; [apply cancelledTwo_reachable|apply emit_step]. Qed.

Lemma completed_reachable : exec_reachable execConfig (execAt 10, completed).
Proof. eapply exec_reachable_step; [apply emitted_reachable|apply complete_step]. Qed.

Lemma retiredTwo_reachable : exec_reachable execConfig (execAt 10, retiredTwo).
Proof. eapply exec_reachable_step; [apply completed_reachable|apply retireTwo_step]. Qed.

(** ** A concrete metered history used by the witnesses

    A deployment registers one meter release; the store is bound to a provider
    authority.  The executor records one provider receipt and completes its
    Turn, which opens a Review that is priced and finalized; in another history
    a late receipt arrives while the Review is pending.  A store with the older
    usage binding ends in a Review it cannot resolve. *)

Definition someDigest : string := Eval vm_compute in sha256_digest "x".
Definition otherDigest : string := Eval vm_compute in sha256_digest "y".

Ltac computed call :=
  let x := eval vm_compute in call in
  match x with Ok ?d => exact d end.

Definition demoSource : ProviderUsageSourceRegistration :=
  ltac:(computed (NewProviderUsageSourceRegistration
    (mkRegistration "provider" someDigest "source" "1" someDigest "schema" "1" someDigest "hmac" someDigest
       someDigest ""))).

Definition demoRelease : UsageMeterReleaseRecord :=
  ltac:(computed (NewUsageMeterReleaseRecord
    (mkUsageMeterReleaseSpec demoPlugin "policy" "{}" "meter" "1" someDigest [demoSource]) (execAt 0))).

(** Prices one unit per receipt and reserves ten. *)
Definition meterAuthority : SettlementAuthority :=
  mkSettlementAuthority (fun _ _ => None) (Some (fun _ _ => None))
    (Some (fun _ c => Ok (mkResolutionReceipt c.(rac_ResolutionID) c.(rac_DecisionDigest)
             c.(rac_Evidence).(ev_EvidenceID) c.(rac_Evidence).(ev_EvidenceDigest)
             c.(rac_Evidence).(ev_PricingSnapshotDigest) c.(rac_UsedUnits) 10 someDigest)))
    true (Some (fun _ c => Ok (mkMeasureReceipt someDigest (Z.of_nat (length c.(msr_Sources)))))) None.

Definition demoJournal : ProviderUsageJournal := mkProviderUsageJournal 0 0 1.
Definition unbound : settlementState := mkSettlementState 0 None None false.
Definition providerBound : settlementState :=
  snd (BindSettlementReviewProviderUsageAuthority (Some demoJournal) (Some meterAuthority) unbound).
Definition usageBound : settlementState :=
  snd (BindSettlementReviewUsageAuthority (Some meterAuthority) unbound).

Definition resolutionEnvAt (s : settlementState) (n : Z) (outcome : txOutcome) : resolutionEnv :=
  mkResolutionEnv background s (Ok (execAt n)) outcome (fun db => db).
Definition boundEnvAt (s : settlementState) (n : Z) : commitEnv :=
  mkCommitEnv background (fun _ => s) (Ok (execAt n)) (Ok (execAt n)) TxReported noOthers.

Definition deployed : Database :=
  set_settlement cancelledTwo
    (mkSettlementTables [] [] [] [] [] [mkStored 1 demoRelease] []).

Definition demoRecorder : ProviderUsageRecorder :=
  ltac:(computed (ScopeRecorder background (Some demoJournal) demoPlugin demoRelease.(rel_ReleaseID) demoSource
                    deployed)).

Definition receiptCommand (event : string) : AppendAttestedProviderUsageCommand :=
  mkAppendAttested fenceOne someDigest event "{}" someDigest someDigest (execAt 4).

Definition recorded : Database :=
  Eval vm_compute in
    snd (AppendAttested execConfig (resolutionEnvAt providerBound 5 TxReported) demoRecorder
           (receiptCommand someDigest) deployed).
Definition opened : Database :=
  Eval vm_compute in
    snd (CommitAttempt execConfig (boundEnvAt providerBound 10) completeCommand recorded).
Definition lateRecorded : Database :=
  Eval vm_compute in
    snd (AppendAttested execConfig (resolutionEnvAt providerBound 20 TxReported) demoRecorder
           (receiptCommand otherDigest) opened).

Ltac review_of db :=
  let x := eval vm_compute in (st_reviews (db_settlement db)) in
  match x with [mkStored _ ?r] => exact r end.
Definition openedReview : SettlementReviewRecord := ltac:(review_of opened).

Definition captureCommand (r : SettlementReviewRecord) : CaptureSettlementReviewUsageEvidenceCommand :=
  mkCaptureCommand "turn_1" r.(rv_ReviewID) r.(rv_RequestDigest).
Definition captureCall : result CaptureSettlementReviewUsageEvidenceResult * Database :=
  Eval vm_compute in
    CaptureSettlementReviewUsageEvidence execConfig (resolutionEnvAt providerBound 30 TxReported)
      (captureCommand openedReview) opened.
Definition metered : Database := Eval vm_compute in snd captureCall.
Definition meteredResult : CaptureSettlementReviewUsageEvidenceResult := ltac:(claim_result captureCall).

Definition resolveCommand : ResolveSettlementReviewCommand :=
  mkResolveCommand "turn_1" openedReview.(rv_ReviewID) openedReview.(rv_RequestDigest)
    meteredResult.(capr_Evidence).(ev_EvidenceID) meteredResult.(capr_Evidence).(ev_EvidenceDigest) "operator-1".
Definition resolveCall : result ResolveSettlementReviewResult * Database :=
  Eval vm_compute in
    ResolveSettlementReview execConfig (resolutionEnvAt providerBound 40 TxReported) resolveCommand metered.
Definition finalized : Database := Eval vm_compute in snd resolveCall.
Definition finalizedResult : ResolveSettlementReviewResult := ltac:(claim_result resolveCall).

Example metered_units : meteredResult.(capr_Evidence).(ev_UsedUnits) = 1 ∧ meteredResult.(capr_Replay) = false.
Proof. vm_compute. split; reflexivity. Qed.

Example finalized_units :
  finalizedResult.(rsvr_Resolution).(rs_UsedUnits) = 1 ∧ length finalized.(db_settlement).(st_ledger) = 2%nat.
Proof. vm_compute. split; reflexivity. Qed.
