(* ===== verification/SqlLedgerFacts.v ===== *)
(** * Receipts and commercial outcomes along a run

    Only a new commit adds an operation receipt, and only a terminal commit or a
    retirement adds a first commercial outcome, of a Turn it finishes. *)

From S2P Require Import Prelude GoText GoJson AgentContract TurnTypes MemoryStore TurnService ExecutionTypes Settlement SqlDatabase SqlFacts SqlStore SqlExecution EffectOutbox SettlementAuthority SettlementTables CommitCommand SqlCommit Reconcile EpochFacts SqlCommitFacts SqlExecutionFacts ExecutionFixtures SqlExecutionTheorems SqlStoreFacts.

(** ** Transactions that leave both tables alone *)

Definition commercial (db : Database) : list sqlTurnOperationRow * SettlementTables :=
  (db.(db_operations), db.(db_settlement)).

(** Splits the scrutinee of a successful computation. *)
Ltac break_in H :=
  repeat match type of H with
  | (match ?x with _ => _ end) = _ => destruct x eqn:?; try discriminate H
  end.

Lemma insertEvent_commercial db event now db' :
  insertEvent db event now = Ok db' → commercial db' = commercial db.
Proof. by intros (e&->&_)%insertEvent_inv. Qed.

Lemma updateTurnColumns_commercial db id f db' :
  updateTurnColumns db id f = Ok db' → commercial db' = commercial db.
Proof. unfold updateTurnColumns. intros H. break_in H. by injection H as <-. Qed.

Lemma createAttempt_commercial db row db' :
  createAttempt db row = Ok db' → commercial db' = commercial db.
Proof. unfold createAttempt. intros H. break_in H. by injection H as <-. Qed.

Lemma expireAttempt_commercial db expired now : commercial (expireAttempt db expired now) = commercial db.
Proof. by destruct expired. Qed.

Lemma sqlAppend_commercial db row turn draft now last event db' :
  sqlAppend db row turn draft now = Ok (last, event, db') → commercial db' = commercial db.
Proof. by intros (seq&e&_&_&_&->&_)%sqlAppend_inv. Qed.

Lemma admitRows_commercial db admitted first now bind db' :
  admitRows db admitted first now bind = Ok db' → commercial db' = commercial db.
Proof.
  unfold admitRows, createTurn, createEvent. intros H. cbv zeta in H. break_in H. injection H as <-.
  repeat match goal with H : (if _ then _ else _) = Ok _ |- _ => break_in H; injection H as <- end; done.
Qed.

(** Carries [commercial] through the writes of a body. *)
Ltac keep_commercial :=
  repeat match goal with
  | H : updateTurnColumns _ _ _ = Ok _ |- _ => apply updateTurnColumns_commercial in H
  | H : sqlAppend _ _ _ _ _ = Ok _ |- _ => apply sqlAppend_commercial in H
  | H : insertEvent _ _ _ = Ok _ |- _ => apply insertEvent_commercial in H
  | H : createAttempt _ _ = Ok _ |- _ => apply createAttempt_commercial in H
  | H : admitRows _ _ _ _ _ = Ok _ |- _ => apply admitRows_commercial in H
  end; congruence || done.

Lemma admit_commercial clock candidate first db a db' :
  admitBody clock candidate first db = Ok (a, db') → commercial db' = commercial db.
Proof. unfold admitBody. intros H. break_in H. injection H as <- <-. keep_commercial. Qed.

Lemma admit_reserved_commercial clock authority candidate initial db a db' :
  admitWithReservationBody clock authority candidate initial db = Ok (a, db') → commercial db' = commercial db.
Proof.
  intros [->|(now&first&bind&_&_&H)]%admitWithReservationBody_inv; [done|]. by eapply admitRows_commercial.
Qed.

Lemma append_commercial clock turnID draft db a db' :
  appendEventBody clock turnID draft db = Ok (a, db') → commercial db' = commercial db.
Proof. unfold appendEventBody. intros H. break_in H. injection H as <- <-. keep_commercial. Qed.

Lemma transition_commercial clock turnID to draft db a db' :
  transitionBody clock turnID to draft db = Ok (a, db') → commercial db' = commercial db.
Proof. unfold transitionBody. intros H. cbv zeta in H. break_in H; injection H as <- <-; keep_commercial. Qed.

Lemma cancel_commercial clock p th turnID draft db a db' :
  requestCancelBody clock p th turnID draft db = Ok (a, db') → commercial db' = commercial db.
Proof. unfold requestCancelBody. intros H. cbv zeta in H. break_in H; injection H as <- <-; keep_commercial. Qed.

Lemma claim_commercial cfg authority clock command db a db' :
  claimAttemptBody cfg authority clock command db = Ok (a, db') → commercial db' = commercial db.
Proof.
  unfold claimAttemptBody. intros H. break_in H; [injection H as <- <-; done|].
  unfold claimEpoch, claimEvent in H. cbv zeta in H. break_in H. injection H as <- <-.
  match goal with H : (if bool_decide _ then _ else _) = Ok ?w |- _ => break_in H; injection H as <- end.
  all: match goal with H : createAttempt (expireAttempt _ ?e ?n) _ = _ |- _ =>
         pose proof (expireAttempt_commercial db e n) end.
  all: simpl in *; keep_commercial.
Qed.

Lemma heartbeat_commercial cfg clock fence db a db' :
  heartbeatAttemptBody cfg clock fence db = Ok (a, db') → commercial db' = commercial db.
Proof. by intros (row&x&now&lease&[_ _ _ _ _ _ -> _])%heartbeatAttemptBody_inv. Qed.

(** ** What a step adds *)

(** What a transaction of the kernel does to both tables. *)
Inductive kernel_change (cfg : SQLStoreConfig) (db db' : Database) : Prop :=
| kc_same : commercial db' = commercial db → kernel_change cfg db db'
| kc_commit plan s clock res k :
    plan_ok plan → commit_write plan s clock db res db' k → kernel_change cfg db db'
| kc_retire provider s clock command terminal res k :
    TurnStatus_Terminal terminal = true →
    retire_write cfg provider s clock command terminal db res db' k → kernel_change cfg db db'.

Lemma kc_refl cfg db : kernel_change cfg db db.
Proof. by apply kc_same. Qed.

Lemma kernel_step_commercial cfg t db t' db' :
  kernel_step cfg (t, db) (t', db') → kernel_change cfg db db'.
Proof.
  intros Hk. inversion Hk as
    [ctx clock outcome candidate initial first ? ? ? r ? Hle Hck Hv Hb Hw
    |authority ctx clock outcome candidate initial ? ? ? r ? Hle Hck Hv Hw
    |env turnID draft ? ? ? r ? Hle Hck H|env turnID to at_ draft ? ? ? r ? Hle Hck H
    |env p th turnID at_ draft ? ? ? r ? Hle Hck H
    |authority ctx clock outcome command ? ? ? r ? Hle Hck _ Hw
    |ctx clock outcome fence ? ? ? r ? Hle Hck H
    |plan s clock reopened command ctx outcome ? ? ? r ? Hle Hck Hv Hp Hw
    |provider s clock reopened command terminal ctx outcome ? ? ? r ? Hle Hck Hv Hterm Hw]; subst.
  - eapply tx_step; [done|apply kc_refl|]. eauto using kc_same, admit_commercial.
  - eapply tx_step; [done|apply kc_refl|]. eauto using kc_same, admit_reserved_commercial.
  - unfold SQLStore_AppendEvent in H. case_match; simplify_eq; [apply kc_refl|].
    eapply finish_step; [done|apply kc_refl|]. eauto using kc_same, append_commercial.
  - unfold SQLStore_Transition in H. case_match; simplify_eq; [apply kc_refl|].
    eapply finish_step; [done|apply kc_refl|]. eauto using kc_same, transition_commercial.
  - unfold SQLStore_RequestCancel in H. case_match; simplify_eq; [apply kc_refl|].
    eapply finish_step; [done|apply kc_refl|]. eauto using kc_same, cancel_commercial.
  - eapply tx_step; [done|apply kc_refl|]. eauto using kc_same, claim_commercial.
  - apply HeartbeatAttempt_inv in H as [[-> _]|(res&row&a&now&lease&Hhw&_)]; [apply kc_refl|].
    rewrite (hw_db _ _ _ _ _ _ _ _ _ _ Hhw). by apply kc_same.
  - eapply tx_step; [done|apply kc_refl|].
    intros a db1 [(->&_)|(k&Hcw)]%commitAttemptBody_inv; [apply kc_refl|].
    eapply kc_commit; [by eapply plan_ok_intro|done].
  - eapply tx_step; [done|apply kc_refl|].
    intros a db1 [(->&_)|(k&Hrw)]%reconcileTerminalBody_inv; [apply kc_refl|].
    eapply kc_retire; [by eapply terminal_reason|done].
Qed.

Inductive commercial_change (cfg : SQLStoreConfig) (db db' : Database) : Prop :=
| cc_same :
    db'.(db_operations) = db.(db_operations) → outcome_turns db' = outcome_turns db →
    commercial_change cfg db db'
| cc_commit plan s clock res k :
    plan_ok plan → commit_write plan s clock db res db' k → commercial_change cfg db db'
| cc_retire provider s clock command terminal res k :
    TurnStatus_Terminal terminal = true →
    retire_write cfg provider s clock command terminal db res db' k → commercial_change cfg db db'.

Lemma cc_refl cfg db : commercial_change cfg db db.
Proof. by apply cc_same. Qed.

Lemma cc_kept cfg db db' : commercial db' = commercial db → commercial_change cfg db db'.
Proof. intros H. injection H as Ho Hs. apply cc_same; [done|]. unfold outcome_turns. by rewrite Hs. Qed.

Lemma exec_step_commercial cfg t db t' db' :
  exec_step cfg (t, db) (t', db') → commercial_change cfg db db'.
Proof.
  intros Hs. inversion Hs as [? ? Hk|? ? ? ? Hle Ht Ha He Ho Hl]; subst; [|by apply cc_same].
  destruct (kernel_step_commercial _ _ _ _ _ Hk); [by apply cc_kept|by eapply cc_commit|by eapply cc_retire].
Qed.

(** ** Receipts *)

Definition operation_key (r : sqlTurnOperationRow) : string * string := (r.(or_TurnID), r.(or_OperationID)).

Lemma lookupOperationTx_None db turnID operationID :
  lookupOperationTx db turnID operationID = None ↔ (turnID, operationID) ∉ map operation_key db.(db_operations).
Proof.
  unfold lookupOperationTx, select_one. rewrite find_None_iff, Forall_forall. split.
  - intros H (r&Hk&Hr)%elem_of_map. specialize (H r Hr). unfold operation_is, operation_key in *. simplify_eq.
    by rewrite !bool_decide_eq_true_2 in H.
  - intros H r Hr. unfold operation_is. destruct (bool_decide _) eqn:E1, (bool_decide (or_OperationID r = _)) eqn:E2;
      try done. bool_hyps. exfalso. apply H, elem_of_map. exists r. split; [|done]. unfold operation_key. f_equal; by symmetry.
Qed.

Lemma commit_operation_key plan s clock db res db' k :
  commit_write plan s clock db res db' k →
  ∃ row, db'.(db_operations) = db.(db_operations) ++ [row]
    ∧ operation_key row = ((plan_command plan).(commit_Fence).(fence_TurnID), (plan_command plan).(commit_OperationID))
    ∧ row.(or_OperationDigest) = plan.(plan_primary).(cand_Digest)
    ∧ row.(or_AttemptID) = k.(ctr_attempt).(att_ID)
    ∧ row.(or_FencingToken) = i64 k.(ctr_attempt).(att_FencingToken).
Proof.
  intros Hw. eexists. split; [apply (cm_operations _ _ _ _ _ _ _ Hw)|]. split; [|done]. unfold operation_key. simpl.
  rewrite (commitNext_id _ _ _ _ _ _ _ _ _ (cm_next _ _ _ _ _ _ _ Hw)).
  destruct (cm_turn _ _ _ _ _ _ _ Hw) as (_&Hid&(->&_)%toTurn_inv). unfold turn_is in Hid. bool_hyps.
  by rewrite Hid.
Qed.

(** Receipts are only added, each under a new key. *)
Lemma change_operations cfg db db' :
  commercial_change cfg db db' →
  ∃ rows, db'.(db_operations) = db.(db_operations) ++ rows
          ∧ (NoDup (map operation_key db.(db_operations)) → NoDup (map operation_key db'.(db_operations))).
Proof.
  intros [-> _|plan s clock res k _ Hw|provider s clock command terminal res k _ Hw].
  - exists []. by rewrite app_nil_r.
  - destruct (commit_operation_key _ _ _ _ _ _ _ Hw) as (row&->&Hk&_). exists [row]. split; [done|].
    intros Hnd. rewrite map_app. apply NoDup_snoc; [done|]. rewrite Hk.
    apply lookupOperationTx_None, Hw.
  - exists []. rewrite app_nil_r. by rewrite (rw_operations _ _ _ _ _ _ _ _ _ _ Hw).
Qed.

Lemma run_operations cfg s s' :
  exec_run cfg s s' →
  (∃ rows, s'.2.(db_operations) = s.2.(db_operations) ++ rows)
  ∧ (NoDup (map operation_key s.2.(db_operations)) → NoDup (map operation_key s'.2.(db_operations))).
Proof.
  induction 1 as [s|[t db] [t1 db1] s' Hst _ [[rows' IH] Hn]]; simpl in *.
  { split; [exists []; by rewrite app_nil_r|done]. }
  apply exec_step_commercial, change_operations in Hst as (rows&Ho&Hnd).
  split; [|auto]. exists (rows ++ rows'). by rewrite IH, Ho, app_assoc.
Qed.

(** ** Outcomes *)

Lemma outcome_write_ledger st outcome st' :
  outcome_write st outcome st' → st'.(st_ledger) = st.(st_ledger) ++ option_list outcome.
Proof. destruct 1; simpl; by rewrite ?app_nil_r. Qed.

Lemma outcome_write_turns db outcome db' :
  outcome_write db.(db_settlement) outcome db'.(db_settlement) →
  outcome_turns db' = outcome_turns db ++ omap entry_turn (option_list outcome).
Proof. intros H%outcome_write_ledger. unfold outcome_turns. by rewrite H, omap_app. Qed.

Lemma buildReview_turn turn terminal source attemptID fence operationID key evidence now r :
  buildSettlementReviewRecord turn terminal source attemptID fence operationID key evidence now = Ok r ∨
  buildProviderSettlementReviewRecord turn terminal source attemptID fence operationID key evidence now = Ok r →
  r.(rv_TurnID) = turn.(turn_ID).
Proof.
  unfold buildSettlementReviewRecord, buildProviderSettlementReviewRecord. cbv zeta.
  intros [H|H]; [|destruct (bool_decide _) in H; [|done]];
    destruct (SettlementReviewRecord_Validate _) in H; [done| |done|]; by injection H as <-.
Qed.

Lemma commitReview_turn mode next nextAttempt op review now r :
  commitReviewRecord mode next nextAttempt op review now = Ok (Some r) → r.(rv_TurnID) = next.(turn_ID).
Proof.
  unfold commitReviewRecord. destruct review as [[e source]|]; [|done]. cbv zeta. intros H.
  destruct (bool_decide _) in H;
    match type of H with (match ?b with _ => _ end) = _ => destruct b eqn:Hb; [|done] end;
    injection H as <-; eauto using buildReview_turn.
Qed.

Lemma reconcileReview_turn provider next fence evidence now r :
  reconcileReview provider next fence evidence now = Ok (Some r) → r.(rv_TurnID) = next.(turn_ID).
Proof.
  unfold reconcileReview. destruct evidence as [e|]; [|done]. cbv zeta. intros H.
  destruct provider;
    match type of H with (match ?b with _ => _ end) = _ => destruct b eqn:Hb; [|done] end;
    injection H as <-; eauto using buildReview_turn.
Qed.

(** The outcome of a terminal write is about its own Turn. *)
Lemma terminal_outcome_turn s turn c pending openedAt outcome :
  terminal_outcome s turn c pending openedAt outcome → c.(sc_TurnID) = turn.(turn_ID) →
  (∀ r, pending = Some r → r.(rv_TurnID) = turn.(turn_ID)) →
  omap entry_turn (option_list outcome) = [] ∨ omap entry_turn (option_list outcome) = [turn.(turn_ID)].
Proof.
  unfold terminal_outcome. destruct pending as [r|].
  - intros -> _ Hr. right. simpl. by rewrite (Hr r).
  - intros [[_ ->]|[_ ->]] Hc _; [by left|]. right. simpl. by rewrite Hc.
Qed.

Lemma commit_outcome_turns plan s clock db res db' k :
  commit_write plan s clock db res db' k →
  outcome_turns db' = outcome_turns db
  ∨ (plan_command plan).(commit_TerminalStatus) ≠ ""
    ∧ outcome_turns db' = outcome_turns db ++ [k.(ctr_row).(tr_TurnID)].
Proof.
  intros Hw. destruct (cm_settlement _ _ _ _ _ _ _ Hw) as [Ho Ht]. apply outcome_write_turns in Ho. rewrite Ho.
  case_bool_decide as E; [rewrite Ht; left; apply app_nil_r|].
  destruct (cm_turn _ _ _ _ _ _ _ Hw) as (_&_&(Hid&_)%toTurn_inv).
  rewrite <- Hid, <- (commitNext_id _ _ _ _ _ _ _ _ _ (cm_next _ _ _ _ _ _ _ Hw)).
  apply terminal_outcome_turn in Ht as [->| ->]; [left; apply app_nil_r|by right|done|].
  intros r Hr. pose proof (cm_next _ _ _ _ _ _ _ Hw) as Hn.
  apply commitNext_inv in Hn as [(?&_)|(_&_&_&Hrev&_)]; [done|]. rewrite Hr in Hrev.
  by apply commitReview_turn in Hrev.
Qed.

Lemma retire_outcome_turns cfg provider s clock command terminal db res db' k :
  retire_write cfg provider s clock command terminal db res db' k →
  outcome_turns db' = outcome_turns db
  ∨ outcome_turns db' = outcome_turns db ++ [k.(rtr_row).(tr_TurnID)].
Proof.
  intros Hw. destruct (rw_settlement _ _ _ _ _ _ _ _ _ _ Hw) as [Ho Ht]. apply outcome_write_turns in Ho. rewrite Ho.
  destruct (rw_turn _ _ _ _ _ _ _ _ _ _ Hw) as (_&_&(Hid&_)%toTurn_inv&_). rewrite <- Hid.
  apply terminal_outcome_turn in Ht as [->| ->]; [left; apply app_nil_r|by right|done|].
  intros r Hr. pose proof (rw_pending _ _ _ _ _ _ _ _ _ _ Hw) as Hn. rewrite Hr in Hn.
  by apply reconcileReview_turn in Hn.
Qed.

(** Every Turn has at most one first outcome, and only a finished Turn has one. *)
Definition ledger_ok (db : Database) : Prop :=
  NoDup (outcome_turns db)
  ∧ ∀ id, id ∈ outcome_turns db →
      ∃ r, r ∈ db.(db_turns) ∧ r.(tr_TurnID) = id ∧ TurnStatus_Terminal r.(tr_Status) = true.

(** An outcome of a live Turn that the step finishes keeps the invariant. *)
Lemma ledger_ok_add cfg t db db' r :
  exec_ok db → ledger_ok db → step_shape cfg t db db' →
  r ∈ db.(db_turns) → TurnStatus_Terminal r.(tr_Status) = false →
  (∃ r', r' ∈ db'.(db_turns) ∧ r'.(tr_TurnID) = r.(tr_TurnID) ∧ TurnStatus_Terminal r'.(tr_Status) = true) →
  outcome_turns db' = outcome_turns db ++ [r.(tr_TurnID)] → ledger_ok db'.
Proof.
  intros Hok [Hnd Hall] Hsh Hr Hlive Hnew Heq. unfold ledger_ok. rewrite Heq. split.
  - apply NoDup_snoc; [done|]. intros (r'&Hr'&Hid&Hterm)%Hall.
    assert (r' = r) as -> by (eapply (NoDup_key_inj tr_TurnID); [apply Hok|done..]). congruence.
  - intros id [(r1&Hr1&<-&Hterm)%Hall| ->%list_elem_of_singleton]%elem_of_app; [|done].
    destruct (step_shape_turn _ _ _ _ _ Hok Hsh Hr1) as (r'&Hr'&Hid'&_&Ht').
    exists r'. destruct (Ht' Hterm) as (->&_). done.
Qed.

Lemma ledger_ok_keep cfg t db db' :
  exec_ok db → ledger_ok db → step_shape cfg t db db' → outcome_turns db' = outcome_turns db → ledger_ok db'.
Proof.
  intros Hok [Hnd Hall] Hsh Heq. unfold ledger_ok. rewrite Heq. split; [done|]. intros id (r&Hr&<-&Hterm)%Hall.
  destruct (step_shape_turn _ _ _ _ _ Hok Hsh Hr) as (r'&Hr'&Hid'&_&Ht'). exists r'.
  destruct (Ht' Hterm) as (->&_). done.
Qed.

(** The row a commit rewrites. *)
Lemma commit_row plan s clock db res db' k :
  commit_write plan s clock db res db' k →
  committedTurnColumns (plan_command plan).(commit_TerminalStatus) (i64 k.(ctr_event).(ev_Sequence)) k.(ctr_now)
    k.(ctr_row) ∈ db'.(db_turns).
Proof.
  intros Hw. destruct (cm_turn _ _ _ _ _ _ _ Hw) as (Hrow&_&(Hid&_)%toTurn_inv).
  rewrite (cm_turns _ _ _ _ _ _ _ Hw). apply elem_of_map. exists (ctr_row k). split; [|done].
  unfold turn_is. rewrite bool_decide_eq_true_2; [done|].
  by rewrite (commitNext_id _ _ _ _ _ _ _ _ _ (cm_next _ _ _ _ _ _ _ Hw)).
Qed.

Lemma retire_row cfg provider s clock command terminal db res db' k :
  retire_write cfg provider s clock command terminal db res db' k →
  retiredColumns terminal k.(rtr_fence) (i64 k.(rtr_sequence)) k.(rtr_now) k.(rtr_row) ∈ db'.(db_turns).
Proof.
  intros Hw. destruct (rw_turn _ _ _ _ _ _ _ _ _ _ Hw) as (Hrow&_&(Hid&_)%toTurn_inv&_).
  rewrite (rw_turns _ _ _ _ _ _ _ _ _ _ Hw). apply elem_of_map. exists (rtr_row k). split; [|done].
  unfold turn_is. by rewrite bool_decide_eq_true_2.
Qed.

(** The epoch a commit belongs to. *)
Lemma commit_owner plan s clock db res db' k :
  exec_ok db → commit_write plan s clock db res db' k →
  k.(ctr_attemptRow) ∈ db.(db_attempts) ∧ toAttempt k.(ctr_attemptRow) = Ok k.(ctr_attempt)
  ∧ k.(ctr_attemptRow).(ar_TurnID) = k.(ctr_row).(tr_TurnID)
  ∧ k.(ctr_attemptRow).(ar_Status) = AttemptStatusRunning
  ∧ k.(ctr_row).(tr_ActiveAttemptID) = Some k.(ctr_attemptRow).(ar_AttemptID)
  ∧ k.(ctr_attemptRow).(ar_FencingToken) = k.(ctr_row).(tr_FencingToken)
  ∧ TurnStatus_Terminal k.(ctr_row).(tr_Status) = false
  ∧ attemptMatchesFence k.(ctr_attempt) (plan_command plan).(commit_Fence) = true.
Proof.
  intros Hok Hw. destruct (cm_turn _ _ _ _ _ _ _ Hw) as (Hrow&Hid&Hturn). unfold turn_is in Hid. bool_hyps.
  exact (commitAttemptRow_inv _ _ _ _ _ _ Hok Hrow Hid Hturn (cm_owner _ _ _ _ _ _ _ Hw)).
Qed.

Lemma exec_step_ledger cfg t db t' db' :
  exec_ok db → exec_step cfg (t, db) (t', db') → ledger_ok db → ledger_ok db'.
Proof.
  intros Hok Hs Hl. destruct (exec_step_shape _ _ _ _ _ Hok Hs) as [_ Hsh].
  destruct (exec_step_commercial _ _ _ _ _ Hs)
    as [_ Heq|plan s clock res k Hplan Hw|provider s clock command terminal res k Hterm Hw].
  - by eapply ledger_ok_keep.
  - destruct (commit_outcome_turns _ _ _ _ _ _ _ Hw) as [Heq|[Hne Heq]]; [by eapply ledger_ok_keep|].
    destruct (commit_owner _ _ _ _ _ _ _ Hok Hw) as (_&_&_&_&_&_&Hlive&_).
    destruct (cm_turn _ _ _ _ _ _ _ Hw) as (Hrow&_).
    eapply ledger_ok_add; [done..| |done]. eexists. split; [by eapply commit_row|]. split; [done|]. simpl.
    rewrite bool_decide_eq_false_2 by done. by destruct Hplan.
  - destruct (retire_outcome_turns _ _ _ _ _ _ _ _ _ _ Hw) as [Heq|Heq]; [by eapply ledger_ok_keep|].
    destruct (rw_turn _ _ _ _ _ _ _ _ _ _ Hw) as (Hrow&_&(_&Hst&_)%toTurn_inv&Hlive). rewrite Hst in Hlive.
    eapply ledger_ok_add; [done..| |done]. eexists. split; [by eapply retire_row|]. done.
Qed.

Lemma exec_run_ledger cfg s s' : exec_ok s.2 → exec_run cfg s s' → ledger_ok s.2 → ledger_ok s'.2.
Proof.
  intros Hok Hrun. revert Hok. induction Hrun as [s|[t db] [t1 db1] s' Hst Hrun IH]; [done|].
  intros Hok Hl. apply IH; [by eapply exec_step_ok|by eapply exec_step_ledger].
Qed.

Lemma exec_reachable_ledger cfg s : exec_reachable cfg s → ledger_ok s.2.
Proof.
  intros (t&db&(Ht&Ha&_&_&Ho)&Hrun). eapply exec_run_ledger; [|done|].
  - split; simpl; rewrite ?Ht, ?Ha; try apply NoDup_nil_2; by intros ? ?%elem_of_nil.
  - split; simpl; rewrite Ho; [apply NoDup_nil_2|by intros ? ?%elem_of_nil].
Qed.

Lemma exec_reachable_operations cfg s : exec_reachable cfg s → NoDup (map operation_key s.2.(db_operations)).
Proof.
  intros (t&db&(_&_&_&Ho&_)&Hrun). apply run_operations in Hrun as [_ Hnd]. apply Hnd. simpl. rewrite Ho.
  apply NoDup_nil_2.
Qed.
