(* ===== verification/ReviewWrites.v ===== *)
(** * What recording, pricing and finalizing write

    The inversions of [appendAttestedBody], [captureBody] and [resolveBody]:
    either the call replays and the tables are untouched, or the records below
    describe all it wrote. *)

From stdpp Require Import sorting.
From S2P Require Import Prelude GoText GoJson AgentContract TurnTypes MemoryStore ExecutionTypes Settlement ProviderUsage SettlementUsage SqlDatabase SqlFacts SqlStore SqlExecution EffectOutbox SettlementAuthority SettlementTables SettlementResolution EpochFacts SqlLedgerFacts.

(** The columns of the tables outside the settlement tables. *)
Definition same_kernel (db db' : Database) : Prop :=
  db'.(db_turns) = db.(db_turns) ∧ db'.(db_events) = db.(db_events) ∧ db'.(db_attempts) = db.(db_attempts)
  ∧ db'.(db_effects) = db.(db_effects) ∧ db'.(db_operations) = db.(db_operations).

(** ** Rows *)

Lemma existsb_fresh {A} (p : A → bool) l x : existsb p l = false → x ∈ l → p x = false.
Proof.
  intros H Hx. destruct (p x) eqn:E; [|done]. rewrite <- H. symmetry. apply List.existsb_exists. exists x.
  by rewrite <- list_elem_of_In.
Qed.

(** A key that no row has yet keeps a projected key unique. *)
Lemma NoDup_fresh {A B} (k : A → B) (p : A → bool) (l : list A) x :
  NoDup (map k l) → existsb p l = false → (∀ y, k y = k x → p y = true) → NoDup (map k (l ++ [x])).
Proof.
  intros Hnd Hp Hk. rewrite map_app. apply NoDup_snoc; [done|]. intros (y&Hy&Hin)%elem_of_map.
  pose proof (existsb_fresh _ _ _ Hp Hin). rewrite Hk in *; [done|by symmetry].
Qed.

Lemma lookupReview_inv db turnID r :
  lookupSettlementReviewTx db turnID = Ok (Some r) →
  ∃ id, mkStored id r ∈ db.(db_settlement).(st_reviews) ∧ r.(rv_TurnID) = turnID
        ∧ SettlementReviewRecord_Validate r = None.
Proof.
  unfold lookupSettlementReviewTx. intros H. break_in H. injection H as <-.
  match goal with H : select_one _ _ = Some _ |- _ => apply select_one_elem in H as [Hin Hk] end.
  bool_hyps. match goal with s : stored _ |- _ => destruct s as [id r]; exists id; done end.
Qed.

Lemma lookupEvidence_inv db reviewID e :
  lookupSettlementReviewUsageEvidenceTx db reviewID = Ok (Some e) →
  ∃ id, mkStored id e ∈ db.(db_settlement).(st_evidence) ∧ e.(ev_ReviewID) = reviewID
        ∧ SettlementReviewUsageEvidenceRecord_Validate e = None.
Proof.
  unfold lookupSettlementReviewUsageEvidenceTx. intros H. break_in H. injection H as <-.
  match goal with H : select_one _ _ = Some _ |- _ => apply select_one_elem in H as [Hin Hk] end.
  bool_hyps. match goal with s : stored _ |- _ => destruct s as [id r]; exists id; done end.
Qed.

Lemma lookupResolution_inv db reviewID s :
  lookupSettlementReviewResolutionTx db reviewID = Ok (Some s) →
  ∃ id, mkStored id s ∈ db.(db_settlement).(st_resolutions) ∧ s.(rs_ReviewID) = reviewID.
Proof.
  unfold lookupSettlementReviewResolutionTx. intros H. break_in H. injection H as <-.
  match goal with H : select_one _ _ = Some _ |- _ => apply select_one_elem in H as [Hin Hk] end.
  bool_hyps. match goal with s : stored _ |- _ => destruct s as [id r]; exists id; done end.
Qed.

Lemma lookupJournal_inv db provider account event j :
  lookupProviderUsageJournalByEventTx db provider account event = Ok (Some j) →
  ∃ id, mkStored id j ∈ db.(db_settlement).(st_journal)
        ∧ j.(jr_ProviderKey) = provider ∧ j.(jr_ProviderAccountDigest) = account
        ∧ j.(jr_ProviderEventDigest) = event.
Proof.
  unfold lookupProviderUsageJournalByEventTx. intros H. break_in H. injection H as <-.
  match goal with H : select_one _ _ = Some _ |- _ => apply select_one_elem in H as [Hin Hk] end.
  bool_hyps. match goal with s : stored _ |- _ => destruct s as [id r]; exists id; done end.
Qed.

Lemma lockReview_inv db turnID reviewID digest conflict row turn r :
  lockReview db turnID reviewID digest conflict = Ok (row, turn, r) →
  row ∈ db.(db_turns) ∧ toTurn row = Ok turn ∧ turn_is turnID row = true
  ∧ TurnStatus_Terminal turn.(turn_Status) = true
  ∧ lookupSettlementReviewTx db turnID = Ok (Some r) ∧ r.(rv_ReviewID) = reviewID
  ∧ r.(rv_RequestDigest) = digest.
Proof.
  unfold lockReview. intros H. break_in H.
  match goal with H : lockTurn _ _ = Ok _ |- _ => apply lockTurn_inv in H as [? ?] end.
  bool_hyps. injection H as <- <- <-. done.
Qed.

(** The receipts of a Review are all the rows of its Turn up to its fence. *)
Lemma collectProviderUsage_all db review : ∀ rows previous out,
  collectProviderUsage db review previous rows = Ok out → out = rows.
Proof.
  induction rows as [|record rows IH]; intros previous out H; simpl in H; [by injection H as <-|].
  break_in H. injection H as <-. f_equal. by eapply IH.
Qed.

Lemma lookupProviderUsage_inv db review sources :
  lookupSettlementReviewProviderUsageTx db review = Ok sources →
  ∀ j, j ∈ sources ↔ ∃ id, mkStored id j ∈ db.(db_settlement).(st_journal)
                     ∧ j.(jr_TurnID) = review.(rv_TurnID)
                     ∧ i64 j.(jr_FencingToken) ≤ i64 review.(rv_FencingToken).
Proof.
  unfold lookupSettlementReviewProviderUsageTx. intros H j. break_in H. apply collectProviderUsage_all in H as ->.
  rewrite (merge_sort_Permutation receipt_before). rewrite list_elem_of_In, List.filter_In, List.in_map_iff.
  setoid_rewrite <- list_elem_of_In. split.
  - intros (([id x]&<-&Hin)&Hp). bool_hyps. eauto.
  - intros (id&Hin&Ht&Hf). split; [by exists (mkStored id j)|].
    rewrite bool_decide_eq_true_2 by done. by apply Z.leb_le.
Qed.

(** ** Inserts *)

Lemma insertSource_inv db s db' :
  insertSource db s = Ok db' →
  existsb (source_key_taken s) db.(db_settlement).(st_sources) = false
  ∧ db' = set_settlement db (set_sources db.(db_settlement) (snoc_row db.(db_settlement).(st_sources) s)).
Proof. unfold insertSource. cbv zeta. intros H. break_in H. bool_hyps. by injection H as <-. Qed.

Lemma insertSources_inv e : ∀ sources ordinal db db',
  insertSources db e ordinal sources = Ok db' →
  ∃ links, db' = set_settlement db (set_sources db.(db_settlement) (db.(db_settlement).(st_sources) ++ links))
    ∧ map (src_ReceiptID ∘ row_record) links = map jr_ReceiptID sources
    ∧ Forall (λ l, l.(row_record).(src_EvidenceID) = e.(ev_EvidenceID)) links
    ∧ (NoDup (map (src_ReceiptID ∘ row_record) db.(db_settlement).(st_sources)) →
       NoDup (map (src_ReceiptID ∘ row_record) (db.(db_settlement).(st_sources) ++ links))).
Proof.
  induction sources as [|s sources IH]; intros ordinal db db' H; simpl in H.
  { injection H as <-. exists []. rewrite !app_nil_r. split; [by destruct db as [? ? ? ? ? []]|]. auto. }
  destruct (insertSource db _) as [db1|] eqn:Hi; [|done]. apply insertSource_inv in Hi as [Hk ->].
  apply IH in H as (links&->&Hm&Hf&Hnd). clear IH. cbn in Hnd |- *.
  unfold snoc_row in *. eexists (mkStored _ _ :: links). rewrite <- app_assoc. split; [reflexivity|].
  split; [cbn; by rewrite Hm|]. split; [by constructor|].
  rewrite <- app_assoc in Hnd. cbn in Hnd. intros Hold. apply Hnd. eapply NoDup_fresh; [done..|].
  intros [id y] Hy. unfold source_key_taken. cbn in *. by rewrite Hy, bool_decide_eq_true_2.
Qed.

Lemma insertEvidence_inv db e db' :
  insertEvidence db e = Ok db' →
  SettlementReviewUsageEvidenceRecord_Validate e = None
  ∧ existsb (evidence_key_taken e) db.(db_settlement).(st_evidence) = false
  ∧ db' = set_settlement db (set_evidence db.(db_settlement) (snoc_row db.(db_settlement).(st_evidence) e)).
Proof. unfold insertEvidence. cbv zeta. intros H. break_in H. bool_hyps. by injection H as <-. Qed.

Lemma insertResolution_inv db s db' :
  insertResolution db s = Ok db' →
  SettlementReviewResolutionRecord_Validate s = None
  ∧ existsb (resolution_key_taken s) db.(db_settlement).(st_resolutions) = false
  ∧ db' = set_settlement db (set_resolutions db.(db_settlement)
            (snoc_row db.(db_settlement).(st_resolutions) s)).
Proof. unfold insertResolution. cbv zeta. intros H. break_in H. bool_hyps. by injection H as <-. Qed.

(** The rows of the review table after a status change. *)
Definition moved_rows (review : SettlementReviewRecord) (from to : string) (now : time)
    (rows : list (stored SettlementReviewRecord)) : list (stored SettlementReviewRecord) :=
  update_rows (review_in_status review from)
    (fun r => mkStored r.(row_ID) (with_review_status r.(row_record) to now)) rows.

Lemma movedReview_inv db row turn review from to now review' db' :
  movedReview db row turn review from to now = Ok (review', db') →
  rows_matched (review_in_status review from) db.(db_settlement).(st_reviews) = 1%nat
  ∧ review' = with_review_status review to now
  ∧ db' = set_settlement db (set_reviews db.(db_settlement)
            (moved_rows review from to now db.(db_settlement).(st_reviews)))
  ∧ validateTerminalSettlementReviewTx db' row turn review' = None.
Proof.
  unfold movedReview, moveReviewStatus. cbv zeta. intros H.
  destruct (rows_matched _ _ =? 1)%nat eqn:E in H; [|done]. apply Nat.eqb_eq in E. break_in H.
  injection H as <- <-. done.
Qed.

(** ** A new receipt *)

Record append_write (clock : result time) (recorder : ProviderUsageRecorder)
    (command : AppendAttestedProviderUsageCommand) (db : Database) (record : ProviderUsageJournalRecord)
    (db' : Database) : Prop := {
  aw_turn : ∃ row turn arow attempt now,
    row ∈ db.(db_turns) ∧ turn_is command.(aa_Fence).(fence_TurnID) row = true ∧ toTurn row = Ok turn
    ∧ arow ∈ db.(db_attempts) ∧ arow.(ar_TurnID) = row.(tr_TurnID)
    ∧ arow.(ar_FencingToken) = i64 command.(aa_Fence).(fence_FencingToken)
    ∧ toAttempt arow = Ok attempt ∧ executionNow clock = Ok now
    ∧ receiptAllowed db row turn attempt now = None
    ∧ record = newProviderUsageJournalRecord recorder command now;
  aw_valid : ProviderUsageJournalRecord_Validate record = None;
  aw_new : existsb (journal_key_taken record) db.(db_settlement).(st_journal) = false;
  aw_db : db' = set_settlement db (set_journal db.(db_settlement)
                  (snoc_row db.(db_settlement).(st_journal) record))
}.

Lemma lockAttempt_inv db turnID attemptID fence row :
  lockAttempt db turnID attemptID fence = Ok row →
  row ∈ db.(db_attempts) ∧ row.(ar_TurnID) = turnID ∧ row.(ar_AttemptID) = attemptID
  ∧ row.(ar_FencingToken) = fence.
Proof.
  unfold lockAttempt. intros H. break_in H. injection H as <-.
  match goal with H : select_one _ _ = Some _ |- _ => apply select_one_elem in H as [Hin Hk] end.
  bool_hyps. done.
Qed.

Lemma appendAttestedBody_inv clock recorder command db res db' :
  appendAttestedBody clock recorder command db = Ok (res, db') →
  (db' = db ∧ res.(apr_Replay) = true
   ∧ (∃ id, mkStored id res.(apr_Record) ∈ db.(db_settlement).(st_journal)
            ∧ res.(apr_Record).(jr_ProviderKey) = recorder.(rcd_source).(reg_ProviderKey)
            ∧ res.(apr_Record).(jr_ProviderAccountDigest) = recorder.(rcd_source).(reg_ProviderAccountDigest)
            ∧ res.(apr_Record).(jr_ProviderEventDigest) = command.(aa_ProviderEventDigest))
   ∧ providerUsageRecordMatchesAppend res.(apr_Record) recorder command = true)
  ∨ (res.(apr_Replay) = false ∧ append_write clock recorder command db res.(apr_Record) db').
Proof.
  unfold appendAttestedBody. intros H. destruct (appendPrepare _ _ _ _) as [prepared|] eqn:Hp; [|done].
  unfold appendPrepare in Hp. cbv zeta in Hp. break_in Hp; injection Hp as <-; cbn in H.
  - injection H as <- <-. left. split; [done|]. split; [done|].
    match goal with H : lookupProviderUsageJournalByEventTx _ _ _ _ = Ok _ |- _ => apply lookupJournal_inv in H end.
    split; [done|]. cbn.
    match goal with H : replayReceipt _ _ _ _ _ _ ?r = None |- _ => unfold replayReceipt in H;
      destruct (providerUsageRecordMatchesAppend r recorder command) end; done.
  - right. break_in H. injection H as <- <-. split; [done|]. cbn.
    match goal with H : insertJournal _ _ = Ok _ |- _ => unfold insertJournal in H; cbv zeta in H; break_in H;
      injection H as <- end.
    bool_hyps.
    match goal with H : lockTurn _ _ = Ok _ |- _ => apply lockTurn_inv in H as [? ?] end.
    match goal with H : lockAttempt _ _ _ _ = Ok _ |- _ => apply lockAttempt_inv in H as (?&Hat&?&?) end.
    match goal with H : toTurn _ = Ok _ |- _ => pose proof (proj1 (toTurn_inv _ _ H)) as Hid end.
    split; [|done..]. do 5 eexists. split_and!; try done. by rewrite Hat.
Qed.

(** ** A priced Review *)

Record capture_write (clock : result time) (command : CaptureSettlementReviewUsageEvidenceCommand)
    (db : Database) (review : SettlementReviewRecord) (e : SettlementReviewUsageEvidenceRecord)
    (db' : Database) : Prop := {
  cw_turn : ∃ row turn, row ∈ db.(db_turns) ∧ turn_is command.(cap_TurnID) row = true ∧ toTurn row = Ok turn
            ∧ TurnStatus_Terminal turn.(turn_Status) = true
            ∧ validateTerminalSettlementReviewTx db row turn review = None;
  cw_review : lookupSettlementReviewTx db command.(cap_TurnID) = Ok (Some review)
              ∧ review.(rv_ReviewID) = command.(cap_ReviewID)
              ∧ review.(rv_Status) = SettlementReviewStatusPending;
  cw_sources : ∃ sources links,
    lookupSettlementReviewProviderUsageTx db review = Ok sources
    ∧ map (src_ReceiptID ∘ row_record) links = map jr_ReceiptID sources
    ∧ Forall (λ l, l.(row_record).(src_EvidenceID) = e.(ev_EvidenceID)) links
    ∧ (NoDup (map (src_ReceiptID ∘ row_record) db.(db_settlement).(st_sources)) →
       NoDup (map (src_ReceiptID ∘ row_record) db'.(db_settlement).(st_sources)))
    ∧ e.(ev_SourceReceiptCount) = Z.of_nat (length sources)
    ∧ db'.(db_settlement).(st_sources) = db.(db_settlement).(st_sources) ++ links;
  cw_evidence : SettlementReviewUsageEvidenceRecord_Validate e = None
    ∧ existsb (evidence_key_taken e) db.(db_settlement).(st_evidence) = false
    ∧ e.(ev_ReviewID) = review.(rv_ReviewID) ∧ e.(ev_EvidenceTurnID) = review.(rv_TurnID)
    ∧ db'.(db_settlement).(st_evidence) = snoc_row db.(db_settlement).(st_evidence) e;
  cw_status : ∃ now,
    rows_matched (review_in_status review SettlementReviewStatusPending) db.(db_settlement).(st_reviews) = 1%nat
    ∧ db'.(db_settlement).(st_reviews)
      = moved_rows review SettlementReviewStatusPending SettlementReviewStatusMeteredHeld now
          db.(db_settlement).(st_reviews);
  cw_kernel : same_kernel db db'
              ∧ db'.(db_settlement).(st_resolutions) = db.(db_settlement).(st_resolutions)
              ∧ db'.(db_settlement).(st_journal) = db.(db_settlement).(st_journal)
              ∧ db'.(db_settlement).(st_ledger) = db.(db_settlement).(st_ledger)
}.

Lemma captureSources_inv db turn review sources release :
  captureSources db turn review = Ok (sources, release) →
  lookupSettlementReviewProviderUsageTx db review = Ok sources.
Proof.
  unfold captureSources. cbv zeta. intros H.
  destruct (lookupSettlementReviewProviderUsageTx db review) as [out|]; [|done].
  destruct (negb _) in H; [|done]. destruct out as [|first rest]; [break_in H|].
  break_in H. by injection H as <- <-.
Qed.

Lemma captureBody_inv s clock command db res db' :
  captureBody s clock command db = Ok (res, db') →
  (db' = db ∧ res.(capr_Replay) = true)
  ∨ (res.(capr_Replay) = false
     ∧ ∃ review, capture_write clock command db review res.(capr_Evidence) db').
Proof.
  unfold captureBody. intros H. destruct (lockReview _ _ _ _ _) as [[[row turn] review]|] eqn:Hl; [|done].
  destruct (settlementReviewProviderUsageAuthorityLocked s) as [authority|]; [|done].
  destruct (settlementReviewProviderUsageAware review); [|done].
  destruct (validateTerminalSettlementReviewTx db row turn review) eqn:Hv; [done|].
  destruct (bool_decide (_ ∈ _)).
  { left. break_in H. by injection H as <- <-. }
  right. destruct (bool_decide (_ = _)) eqn:Hst in H; [|done]. bool_hyps.
  unfold capturePending in H. cbv zeta in H.
  destruct (captureSources db turn review) as [[sources release]|] eqn:Hs; [|done].
  destruct (MeasureSettlementReviewProviderUsageCommand_Validate _) in H; [done|].
  destruct (measureReview _ _ _) as [receipt|] in H; [|done].
  destruct (sourcesUnchanged _ _ _ _) in H; [done|].
  destruct (reviewTime clock review) as [now|] in H; [|done].
  remember (measuredEvidence review turn release sources receipt now) as e eqn:He.
  destruct (insertEvidence db e) as [db1|] eqn:Hie; [|done].
  apply insertEvidence_inv in Hie as (Hev&Hk&->).
  destruct (insertSources _ e 0 sources) as [db2|] eqn:His; [|done].
  apply insertSources_inv in His as (links&->&Hm&Hf&Hnd).
  destruct (movedReview _ _ _ _ _ _ _) as [[review' db3]|] eqn:Hmv; [|done].
  apply movedReview_inv in Hmv as (Hone&->&->&_). injection H as <- <-. split; [done|]. exists review.
  apply lockReview_inv in Hl as (Hin&Hturn&Hid&Hterm&Hrev&Hrid&_).
  cbn in Hone. cbn [capr_Evidence]. split.
  - eauto 10.
  - done.
  - exists sources, links. split; [by eapply captureSources_inv|]. split; [done|]. split; [done|].
    split; [done|]. split; [by rewrite He|done].
  - split; [done|]. split; [done|]. rewrite He. done.
  - eauto.
  - done.
Qed.

(** ** A finalized Review *)

Record resolve_write (clock : result time) (command : ResolveSettlementReviewCommand) (db : Database)
    (review : SettlementReviewRecord) (e : SettlementReviewUsageEvidenceRecord)
    (s : SettlementReviewResolutionRecord) (c : SettlementReviewResolutionAuthorityCommand)
    (db' : Database) : Prop := {
  vw_turn : ∃ row turn, row ∈ db.(db_turns) ∧ turn_is command.(rsv_TurnID) row = true ∧ toTurn row = Ok turn
            ∧ TurnStatus_Terminal turn.(turn_Status) = true
            ∧ validateTerminalSettlementReviewTx db row turn review = None
            ∧ c = resolutionCommand review e turn command.(rsv_ActorID);
  vw_review : lookupSettlementReviewTx db command.(rsv_TurnID) = Ok (Some review)
              ∧ review.(rv_ReviewID) = command.(rsv_ReviewID)
              ∧ review.(rv_Status) = SettlementReviewStatusMeteredHeld;
  vw_evidence : lookupSettlementReviewUsageEvidenceTx db review.(rv_ReviewID) = Ok (Some e)
                ∧ command.(rsv_EvidenceID) = e.(ev_EvidenceID)
                ∧ command.(rsv_ExpectedEvidenceDigest) = e.(ev_EvidenceDigest);
  vw_resolution : SettlementReviewResolutionRecord_Validate s = None
    ∧ existsb (resolution_key_taken s) db.(db_settlement).(st_resolutions) = false
    ∧ s.(rs_ReviewID) = review.(rv_ReviewID) ∧ s.(rs_UsedUnits) = e.(ev_UsedUnits)
    ∧ s.(rs_DecisionDigest) = settlementReviewResolutionDecisionDigest review e command.(rsv_ActorID)
    ∧ db'.(db_settlement).(st_resolutions) = snoc_row db.(db_settlement).(st_resolutions) s;
  vw_status : ∃ now,
    rows_matched (review_in_status review SettlementReviewStatusMeteredHeld) db.(db_settlement).(st_reviews) = 1%nat
    ∧ db'.(db_settlement).(st_reviews)
      = moved_rows review SettlementReviewStatusMeteredHeld SettlementReviewStatusFinalizedHeld now
          db.(db_settlement).(st_reviews);
  vw_ledger : db'.(db_settlement).(st_ledger) = db.(db_settlement).(st_ledger) ++ [ReviewResolved c];
  vw_kernel : same_kernel db db'
              ∧ db'.(db_settlement).(st_evidence) = db.(db_settlement).(st_evidence)
              ∧ db'.(db_settlement).(st_sources) = db.(db_settlement).(st_sources)
              ∧ db'.(db_settlement).(st_journal) = db.(db_settlement).(st_journal)
}.

Lemma resolveReview_inv authority db c receipt db' :
  resolveReview authority db c = Ok (receipt, db') →
  SettlementReviewResolutionAuthorityReceipt_Validate receipt c = None
  ∧ db' = record_entry db (ReviewResolved c).
Proof.
  unfold resolveReview. intros H. destruct (sa_ResolveReview authority) as [resolve|]; [|done].
  destruct (resolve db c) as [r|e]; [|by destruct e].
  destruct (SettlementReviewResolutionAuthorityReceipt_Validate r c) as [e|] eqn:Hv; [by destruct e|].
  by injection H as <- <-.
Qed.

Lemma resolveBody_inv st clock command db res db' :
  resolveBody st clock command db = Ok (res, db') →
  (db' = db ∧ res.(rsvr_Replay) = true
   ∧ ∃ review e, lookupSettlementReviewTx db command.(rsv_TurnID) = Ok (Some review)
       ∧ review.(rv_ReviewID) = command.(rsv_ReviewID)
       ∧ lookupSettlementReviewUsageEvidenceTx db review.(rv_ReviewID) = Ok (Some e)
       ∧ lookupSettlementReviewResolutionTx db review.(rv_ReviewID) = Ok (Some res.(rsvr_Resolution))
       ∧ res.(rsvr_Resolution).(rs_DecisionDigest)
         = settlementReviewResolutionDecisionDigest review e command.(rsv_ActorID))
  ∨ (res.(rsvr_Replay) = false
     ∧ ∃ review e c, resolve_write clock command db review e res.(rsvr_Resolution) c db').
Proof.
  unfold resolveBody. intros H. destruct (lockReview _ _ _ _ _) as [[[row turn] review]|] eqn:Hl; [|done].
  destruct (settlementReviewResolutionAuthorityLocked st) as [authority|]; [|done].
  destruct (validateTerminalSettlementReviewTx db row turn review) eqn:Hv; [done|].
  destruct (lookupSettlementReviewUsageEvidenceTx _ _) as [[e|]|] eqn:He; [|done..].
  destruct (bool_decide (_ = _) && _) eqn:Hm in H; [|done]. bool_hyps.
  apply lockReview_inv in Hl as (Hin&Hturn&Hid&Hterm&Hrev&Hrid&_).
  destruct (bool_decide (_ = _)) in H.
  { left. destruct (lookupSettlementReviewResolutionTx _ _) as [[s|]|] eqn:Hs; [|done..].
    destruct (bool_decide (_ = _)) eqn:Hd in H; [|done]. bool_hyps. injection H as <- <-. cbn. eauto 10. }
  right. destruct (bool_decide (_ = _)) eqn:Hst in H; [|done]. bool_hyps.
  unfold resolveMetered in H. cbv zeta in H.
  destruct (SettlementReviewResolutionAuthorityCommand_Validate _) in H; [done|].
  destruct (resolveReview _ _ _) as [[receipt db1]|] eqn:Hr; [|done]. apply resolveReview_inv in Hr as [_ ->].
  destruct (reviewTime clock review) as [now|] in H; [|done].
  remember (resolutionRecord review e receipt (rsv_ActorID command) now) as s eqn:Hs.
  destruct (insertResolution _ s) as [db2|] eqn:Hi; [|done]. apply insertResolution_inv in Hi as (Hsv&Hk&->).
  destruct (movedReview _ _ _ _ _ _ _) as [[review' db3]|] eqn:Hmv; [|done].
  apply movedReview_inv in Hmv as (Hone&->&->&_). injection H as <- <-. split; [done|].
  exists review, e, (resolutionCommand review e turn (rsv_ActorID command)).
  cbn in Hone, Hk. cbn [rsvr_Resolution]. split; try done.
  - do 2 eexists. split_and!; done.
  - split; [done|]. split; [done|]. rewrite Hs. done.
  - eauto.
Qed.
