(* ===== verification/ReviewFacts.v ===== *)
(** * Reviews along a run

    A step of the settlement tables is a transaction of the kernel, a delivery,
    a deployed meter release, or one of the three transactions that follow a
    Review.  The invariant ties every Review to its finished Turn, its status to
    the rows it has, and its evidence to the whole journal of its Turn. *)

From S2P Require Import Prelude GoText GoJson AgentContract TurnTypes MemoryStore TurnService ExecutionTypes Settlement ProviderUsage SettlementUsage SqlDatabase SqlFacts SqlStore SqlExecution EffectOutbox SettlementAuthority SettlementTables SettlementResolution CommitCommand SqlCommit Reconcile EpochFacts SqlCommitFacts SqlExecutionFacts ExecutionFixtures SqlExecutionTheorems SqlLedgerFacts ReviewWrites.

Definition set_releases (st : SettlementTables) rows : SettlementTables :=
  mkSettlementTables st.(st_reviews) st.(st_evidence) st.(st_sources) st.(st_resolutions) st.(st_journal)
    rows st.(st_ledger).

Inductive settlement_step (cfg : SQLStoreConfig) : time * Database → time * Database → Prop :=
| ss_kernel s s' : kernel_step cfg s s' → settlement_step cfg s s'
| ss_delivery t t' db rows : t ≤ t' → settlement_step cfg (t, db) (t', set_effects db rows)
| ss_release t t' db rows :
    t ≤ t' → settlement_step cfg (t, db) (t', set_settlement db (set_releases db.(db_settlement) rows))
| ss_append ctx clock outcome recorder command t t' db r db' :
    t ≤ t' → clock_reading t' clock →
    writeTransaction cfg ctx outcome (appendAttestedBody clock recorder command) db = (r, db') →
    settlement_step cfg (t, db) (t', db')
| ss_capture ctx s clock outcome command t t' db r db' :
    t ≤ t' → clock_reading t' clock →
    writeTransaction cfg ctx outcome (captureBody s clock command) db = (r, db') →
    settlement_step cfg (t, db) (t', db')
| ss_resolve ctx s clock outcome command t t' db r db' :
    t ≤ t' → clock_reading t' clock →
    writeTransaction cfg ctx outcome (resolveBody s clock command) db = (r, db') →
    settlement_step cfg (t, db) (t', db').

Definition settlement_run (cfg : SQLStoreConfig) : relation (time * Database) := rtc (settlement_step cfg).

(** Only meter releases are there before the first call. *)
Definition fresh_settlement (db : Database) : Prop :=
  fresh_tables db ∧ ∃ releases, db.(db_settlement) = mkSettlementTables [] [] [] [] [] releases [].

Definition settlement_reachable (cfg : SQLStoreConfig) (s : time * Database) : Prop :=
  ∃ t db, fresh_settlement db ∧ settlement_run cfg (t, db) s.

(** ** The transactions after a Review are steps of the execution tables *)

Lemma same_kernel_outcomes db db' :
  same_kernel db db' → db'.(db_settlement).(st_ledger) = db.(db_settlement).(st_ledger) →
  outcome_turns db' = outcome_turns db.
Proof. intros _ H. unfold outcome_turns. by rewrite H. Qed.

Lemma other_step cfg t t' db db' :
  t ≤ t' → same_kernel db db' → outcome_turns db' = outcome_turns db → exec_step cfg (t, db) (t', db').
Proof. intros Hle (?&?&?&_&?) Ho. by apply xs_other. Qed.

Lemma settlement_step_exec cfg s s' : settlement_step cfg s s' → exec_step cfg s s'.
Proof.
  intros [s1 s2 Hk|t t' db rows Hle|t t' db rows Hle|ctx clock outcome recorder command t t' db r db' Hle _ Hw
    |ctx st clock outcome command t t' db r db' Hle _ Hw|ctx st clock outcome command t t' db r db' Hle _ Hw].
  - by apply xs_kernel.
  - by apply xs_other.
  - by apply xs_other.
  - eapply (tx_step _ _ _ _ (λ db', exec_step cfg (t, db) (t', db'))); [done|by apply other_step|].
    intros a db1 [(->&_)|(_&Ha)]%appendAttestedBody_inv; [by apply other_step|].
    rewrite (aw_db _ _ _ _ _ _ Ha). by apply other_step.
  - eapply (tx_step _ _ _ _ (λ db', exec_step cfg (t, db) (t', db'))); [done|by apply other_step|].
    intros a db1 [(->&_)|(_&review&Hc)]%captureBody_inv; [by apply other_step|].
    destruct (cw_kernel _ _ _ _ _ _ Hc) as (Hk&_&_&Hl).
    apply other_step; [done..|]. by apply same_kernel_outcomes.
  - eapply (tx_step _ _ _ _ (λ db', exec_step cfg (t, db) (t', db'))); [done|by apply other_step|].
    intros a db1 [(->&_)|(_&review&e&c&Hc)]%resolveBody_inv; [by apply other_step|].
    destruct (vw_kernel _ _ _ _ _ _ _ _ Hc) as (Hk&_). apply other_step; [done..|].
    unfold outcome_turns. rewrite (vw_ledger _ _ _ _ _ _ _ _ Hc), omap_app. apply app_nil_r.
Qed.

Lemma settlement_run_exec cfg s s' : settlement_run cfg s s' → exec_run cfg s s'.
Proof.
  induction 1 as [|s1 s2 s3 Hs _ IH]; [reflexivity|].
  eapply rtc_l; [by apply settlement_step_exec|done].
Qed.

Lemma settlement_reachable_exec cfg s : settlement_reachable cfg s → exec_reachable cfg s.
Proof. intros (t&db&[Hf _]&Hrun). exists t, db. split; [done|by apply settlement_run_exec]. Qed.

(** ** The tables as lists of records *)

Definition reviews (db : Database) : list SettlementReviewRecord := map row_record db.(db_settlement).(st_reviews).
Definition evidences (db : Database) : list SettlementReviewUsageEvidenceRecord :=
  map row_record db.(db_settlement).(st_evidence).
Definition sources (db : Database) : list SettlementReviewUsageEvidenceSourceRecord :=
  map row_record db.(db_settlement).(st_sources).
Definition resolutions (db : Database) : list SettlementReviewResolutionRecord :=
  map row_record db.(db_settlement).(st_resolutions).
Definition journal (db : Database) : list ProviderUsageJournalRecord := map row_record db.(db_settlement).(st_journal).

(** The Reviews the authority finalized, with the units it charged. *)
Definition entry_resolved (e : ledgerEntry) : option (string * Z) :=
  match e with
  | ReviewResolved c => Some (c.(rac_Review).(rv_ReviewID), c.(rac_UsedUnits))
  | _ => None
  end.
Definition resolved (db : Database) : list (string * Z) := omap entry_resolved db.(db_settlement).(st_ledger).

Definition provider_event (j : ProviderUsageJournalRecord) : string * string * string :=
  (j.(jr_ProviderKey), j.(jr_ProviderAccountDigest), j.(jr_ProviderEventDigest)).

Lemma map_snoc_row {A B} (f : A → B) (rows : list (stored A)) a :
  map f (map row_record (snoc_row rows a)) = map f (map row_record rows) ++ [f a].
Proof. unfold snoc_row. by rewrite !map_app. Qed.

Lemma elem_of_records {A} (rows : list (stored A)) a :
  a ∈ map row_record rows ↔ ∃ id, mkStored id a ∈ rows.
Proof.
  rewrite elem_of_map. split; [intros ([id x]&->&H); eauto|intros [id H]; by exists (mkStored id a)].
Qed.

(** A Review after its status moved. *)
Definition moved (review : SettlementReviewRecord) (from to : string) (now : time) (r : SettlementReviewRecord)
    : SettlementReviewRecord :=
  if bool_decide (r.(rv_ReviewID) = review.(rv_ReviewID)) && bool_decide (r.(rv_RequestDigest) = review.(rv_RequestDigest))
     && bool_decide (r.(rv_Status) = from)
  then with_review_status r to now else r.

Lemma moved_rows_records review from to now rows :
  map row_record (moved_rows review from to now rows) = map (moved review from to now) (map row_record rows).
Proof.
  unfold moved_rows, update_rows. rewrite !map_map. apply List.map_ext. intros r. unfold review_in_status, moved.
  by destruct (_ && _).
Qed.

Lemma moved_id review from to now r : (moved review from to now r).(rv_ReviewID) = r.(rv_ReviewID).
Proof. unfold moved. by case_match. Qed.
Lemma moved_turn review from to now r : (moved review from to now r).(rv_TurnID) = r.(rv_TurnID).
Proof. unfold moved. by case_match. Qed.
Lemma moved_fence review from to now r : (moved review from to now r).(rv_FencingToken) = r.(rv_FencingToken).
Proof. unfold moved. by case_match. Qed.

Lemma moved_self review from to now :
  review.(rv_Status) = from → moved review from to now review = with_review_status review to now.
Proof. intros H. unfold moved. by rewrite !bool_decide_eq_true_2 by done. Qed.

Lemma moved_other review from to now r :
  r.(rv_ReviewID) ≠ review.(rv_ReviewID) → moved review from to now r = r.
Proof. intros H. unfold moved. by rewrite bool_decide_eq_false_2. Qed.

(** ** The invariant *)

(** The rows a Review has in each status. *)
Definition status_rows (db : Database) (r : SettlementReviewRecord) : Prop :=
  let metered := r.(rv_ReviewID) ∈ map ev_ReviewID (evidences db) in
  let finalized := r.(rv_ReviewID) ∈ map rs_ReviewID (resolutions db) in
  r.(rv_Status) = SettlementReviewStatusPending ∧ ¬ metered ∧ ¬ finalized
  ∨ r.(rv_Status) = SettlementReviewStatusMeteredHeld ∧ metered ∧ ¬ finalized
  ∨ r.(rv_Status) = SettlementReviewStatusFinalizedHeld ∧ metered ∧ finalized.

(** The Turn a Review belongs to is over, in the epoch the Review names. *)
Definition review_turn_over (db : Database) (r : SettlementReviewRecord) : Prop :=
  ∃ t, t ∈ db.(db_turns) ∧ t.(tr_TurnID) = r.(rv_TurnID) ∧ TurnStatus_Terminal t.(tr_Status) = true
       ∧ i64 r.(rv_FencingToken) = t.(tr_FencingToken).

(** The journal of the Turn and the links of the evidence name the same receipts. *)
Definition evidence_complete (db : Database) (e : SettlementReviewUsageEvidenceRecord) : Prop :=
  ∀ receipt, (∃ j, j ∈ journal db ∧ j.(jr_TurnID) = e.(ev_EvidenceTurnID) ∧ j.(jr_ReceiptID) = receipt)
             ↔ (∃ s, s ∈ sources db ∧ s.(src_EvidenceID) = e.(ev_EvidenceID) ∧ s.(src_ReceiptID) = receipt).

(** A finalized Review charges what its evidence measured, within the reserve. *)
Definition resolution_metered (db : Database) (s : SettlementReviewResolutionRecord) : Prop :=
  ∃ e, e ∈ evidences db ∧ e.(ev_ReviewID) = s.(rs_ReviewID) ∧ s.(rs_UsedUnits) = e.(ev_UsedUnits)
       ∧ 1 ≤ s.(rs_UsedUnits) ≤ s.(rs_ReservedUnits).

Definition receipt_epoch (db : Database) (j : ProviderUsageJournalRecord) : Prop :=
  ∃ t, t ∈ db.(db_turns) ∧ t.(tr_TurnID) = j.(jr_TurnID) ∧ i64 j.(jr_FencingToken) ≤ t.(tr_FencingToken).

Record review_ok (db : Database) : Prop := {
  ok_ids : NoDup (map rv_ReviewID (reviews db));
  ok_turns : NoDup (map rv_TurnID (reviews db));
  ok_over : ∀ r, r ∈ reviews db → review_turn_over db r;
  ok_status : ∀ r, r ∈ reviews db → status_rows db r;
  ok_evidence_reviews : NoDup (map ev_ReviewID (evidences db));
  ok_evidence_ids : NoDup (map ev_EvidenceID (evidences db));
  ok_evidence : ∀ e, e ∈ evidences db →
    ∃ r, r ∈ reviews db ∧ r.(rv_ReviewID) = e.(ev_ReviewID) ∧ r.(rv_TurnID) = e.(ev_EvidenceTurnID);
  ok_complete : ∀ e, e ∈ evidences db → evidence_complete db e;
  ok_sources : ∀ s, s ∈ sources db → s.(src_EvidenceID) ∈ map ev_EvidenceID (evidences db);
  ok_receipts : NoDup (map src_ReceiptID (sources db));
  ok_resolution_ids : NoDup (map rs_ReviewID (resolutions db));
  ok_resolution : ∀ s, s ∈ resolutions db → resolution_metered db s;
  ok_journal : ∀ j, j ∈ journal db → receipt_epoch db j;
  ok_events : NoDup (map provider_event (journal db));
  ok_ledger : resolved db = map (λ s, (s.(rs_ReviewID), s.(rs_UsedUnits))) (resolutions db)
}.

(** ** What a step does to the tables *)

(** The rows other than those a change names. *)
Definition same_reviews (db db' : Database) : Prop := reviews db' = reviews db.
Definition same_evidence (db db' : Database) : Prop := evidences db' = evidences db ∧ sources db' = sources db.
Definition same_resolutions (db db' : Database) : Prop := resolutions db' = resolutions db ∧ resolved db' = resolved db.

Inductive review_change (db db' : Database) : Prop :=
| rc_same :
    same_reviews db db' → same_evidence db db' → same_resolutions db db' → journal db' = journal db →
    review_change db db'
| rc_open r :
    reviews db' = reviews db ++ [r] → r.(rv_Status) = SettlementReviewStatusPending →
    r.(rv_ReviewID) ∉ map rv_ReviewID (reviews db) → r.(rv_TurnID) ∉ map rv_TurnID (reviews db) →
    review_turn_over db' r →
    same_evidence db db' → same_resolutions db db' → journal db' = journal db → review_change db db'
| rc_record j :
    journal db' = journal db ++ [j] → provider_event j ∉ map provider_event (journal db) →
    receipt_epoch db j →
    (∀ r, r ∈ reviews db → r.(rv_TurnID) = j.(jr_TurnID) → r.(rv_Status) = SettlementReviewStatusPending) →
    same_reviews db db' → same_evidence db db' → same_resolutions db db' → review_change db db'
| rc_price r e links now :
    r ∈ reviews db → r.(rv_Status) = SettlementReviewStatusPending →
    reviews db' = map (moved r SettlementReviewStatusPending SettlementReviewStatusMeteredHeld now) (reviews db) →
    evidences db' = evidences db ++ [e] → e.(ev_ReviewID) = r.(rv_ReviewID) →
    e.(ev_EvidenceTurnID) = r.(rv_TurnID) → e.(ev_ReviewID) ∉ map ev_ReviewID (evidences db) →
    e.(ev_EvidenceID) ∉ map ev_EvidenceID (evidences db) →
    sources db' = sources db ++ links → (∀ s, s ∈ links → s.(src_EvidenceID) = e.(ev_EvidenceID)) →
    (∀ receipt, receipt ∈ map src_ReceiptID links ↔
       ∃ j, j ∈ journal db ∧ j.(jr_TurnID) = r.(rv_TurnID) ∧ j.(jr_ReceiptID) = receipt) →
    NoDup (map src_ReceiptID (sources db')) →
    same_resolutions db db' → journal db' = journal db → review_change db db'
| rc_finalize r s e now :
    r ∈ reviews db → r.(rv_Status) = SettlementReviewStatusMeteredHeld →
    reviews db' = map (moved r SettlementReviewStatusMeteredHeld SettlementReviewStatusFinalizedHeld now) (reviews db) →
    e ∈ evidences db → e.(ev_ReviewID) = r.(rv_ReviewID) →
    resolutions db' = resolutions db ++ [s] → s.(rs_ReviewID) = r.(rv_ReviewID) →
    s.(rs_ReviewID) ∉ map rs_ReviewID (resolutions db) →
    s.(rs_UsedUnits) = e.(ev_UsedUnits) → 1 ≤ s.(rs_UsedUnits) ≤ s.(rs_ReservedUnits) →
    resolved db' = resolved db ++ [(s.(rs_ReviewID), s.(rs_UsedUnits))] →
    same_evidence db db' → journal db' = journal db → review_change db db'.

(** ** The invariant is kept *)

Definition turns_kept (db db' : Database) : Prop :=
  ∀ t, t ∈ db.(db_turns) → ∃ t', t' ∈ db'.(db_turns) ∧ turn_progress t t'.

Lemma review_turn_over_kept db db' r :
  turns_kept db db' → review_turn_over db r → review_turn_over db' r.
Proof.
  intros Hk (t&Ht&Hid&Hterm&Hf). destruct (Hk t Ht) as (t'&Ht'&Hid'&_&Hover).
  destruct (Hover Hterm) as (Hst&Hf'&_). exists t'. rewrite Hst, Hf'. split; [done|]. split; [congruence|done].
Qed.

Lemma receipt_epoch_kept db db' j : turns_kept db db' → receipt_epoch db j → receipt_epoch db' j.
Proof.
  intros Hk (t&Ht&Hid&Hf). destruct (Hk t Ht) as (t'&Ht'&Hid'&Hf'&_). exists t'. split; [done|].
  split; [congruence|lia].
Qed.

Lemma moved_over db' review from to now r :
  review_turn_over db' r → review_turn_over db' (moved review from to now r).
Proof. unfold review_turn_over. by rewrite moved_turn, moved_fence. Qed.

(** The keys of the moved Reviews. *)
Lemma moved_keys review from to now rs :
  map rv_ReviewID (map (moved review from to now) rs) = map rv_ReviewID rs
  ∧ map rv_TurnID (map (moved review from to now) rs) = map rv_TurnID rs.
Proof.
  rewrite !map_map. split; apply List.map_ext; intros r; [apply moved_id|apply moved_turn].
Qed.

Lemma map_key_snoc {A B} (k : A → B) (l : list A) x : map k (l ++ [x]) = map k l ++ [k x].
Proof. apply map_app. Qed.

(** Evidence stays complete when the journal of its Turn and its links do. *)
Lemma evidence_complete_kept db db' e :
  (∀ j, j.(jr_TurnID) = e.(ev_EvidenceTurnID) → j ∈ journal db' ↔ j ∈ journal db) →
  (∀ s, s.(src_EvidenceID) = e.(ev_EvidenceID) → s ∈ sources db' ↔ s ∈ sources db) →
  evidence_complete db e → evidence_complete db' e.
Proof.
  intros Hj Hs H receipt. split.
  - intros (j&Hin&Ht&Hr). destruct (proj1 (H receipt)) as (s&Hs'&He&Hsr); [exists j; by rewrite <- Hj|].
    exists s. by rewrite Hs.
  - intros (s&Hin&He&Hsr). destruct (proj2 (H receipt)) as (j&Hj'&Ht&Hr); [exists s; by rewrite <- Hs|].
    exists j. by rewrite Hj.
Qed.

Lemma evidence_pending_absent db r e :
  review_ok db → r ∈ reviews db → r.(rv_Status) = SettlementReviewStatusPending →
  e ∈ evidences db → e.(ev_ReviewID) ≠ r.(rv_ReviewID).
Proof.
  intros Hok Hr Hst He Heq. destruct (ok_status _ Hok r Hr) as [(_&Hn&_)|[(Hs&_)|(Hs&_)]];
    [|rewrite Hst in Hs; discriminate Hs..].
  apply Hn. rewrite <- Heq. apply elem_of_map. eauto.
Qed.

(** Two rows of one Review are one row. *)
Lemma review_unique db r1 r2 :
  review_ok db → r1 ∈ reviews db → r2 ∈ reviews db → r1.(rv_ReviewID) = r2.(rv_ReviewID) → r1 = r2.
Proof. intros Hok. apply NoDup_key_inj, Hok. Qed.

Lemma review_of_turn db r1 r2 :
  review_ok db → r1 ∈ reviews db → r2 ∈ reviews db → r1.(rv_TurnID) = r2.(rv_TurnID) → r1 = r2.
Proof. intros Hok. apply NoDup_key_inj, Hok. Qed.

Lemma change_same_ok db db' :
  review_ok db → turns_kept db db' → same_reviews db db' → same_evidence db db' → same_resolutions db db' →
  journal db' = journal db → review_ok db'.
Proof.
  intros [] Hk Hr [He Hs] [Hv Hl] Hj.
  split; unfold same_reviews, status_rows, evidence_complete, resolution_metered in *; rewrite ?Hr, ?He, ?Hs, ?Hv, ?Hl, ?Hj;
    try done.
  - intros r Hin. by eapply review_turn_over_kept, ok_over0.
  - intros j Hin. by eapply receipt_epoch_kept, ok_journal0.
Qed.

Lemma change_open_ok db db' r :
  review_ok db → turns_kept db db' →
  reviews db' = reviews db ++ [r] → r.(rv_Status) = SettlementReviewStatusPending →
  r.(rv_ReviewID) ∉ map rv_ReviewID (reviews db) → r.(rv_TurnID) ∉ map rv_TurnID (reviews db) →
  review_turn_over db' r →
  same_evidence db db' → same_resolutions db db' → journal db' = journal db → review_ok db'.
Proof.
  intros [] Hk Hr Hst Hid Htid Hover [He Hs] [Hv Hl] Hj.
  split; unfold status_rows, evidence_complete, resolution_metered in *; rewrite ?Hr, ?He, ?Hs, ?Hv, ?Hl, ?Hj, ?map_key_snoc;
    try done.
  - by apply NoDup_snoc.
  - by apply NoDup_snoc.
  - intros r' [Hin| ->%list_elem_of_singleton]%elem_of_app; [|done].
    by eapply review_turn_over_kept, ok_over0.
  - intros r' [Hin| ->%list_elem_of_singleton]%elem_of_app; [by apply ok_status0|]. left. split; [done|].
    assert (Hne : r.(rv_ReviewID) ∉ map ev_ReviewID (evidences db)).
    { intros (e&Heq&Hin)%elem_of_map. destruct (ok_evidence0 e Hin) as (r0&Hr0&Hi&_). apply Hid, elem_of_map.
      exists r0. split; [congruence|done]. }
    split; [done|]. intros (s&Heq&Hin)%elem_of_map. destruct (ok_resolution0 s Hin) as (e&Hie&Hx&_).
    apply Hne. rewrite Heq, <- Hx. apply elem_of_map. eauto.
  - intros e Hin. destruct (ok_evidence0 e Hin) as (r0&Hr0&?). exists r0. split; [apply elem_of_app; by left|done].
  - intros j Hin. by eapply receipt_epoch_kept, ok_journal0.
Qed.

Lemma change_record_ok db db' j :
  review_ok db → turns_kept db db' →
  journal db' = journal db ++ [j] → provider_event j ∉ map provider_event (journal db) →
  receipt_epoch db j →
  (∀ r, r ∈ reviews db → r.(rv_TurnID) = j.(jr_TurnID) → r.(rv_Status) = SettlementReviewStatusPending) →
  same_reviews db db' → same_evidence db db' → same_resolutions db db' → review_ok db'.
Proof.
  intros Hok Hk Hj Hev Hep Hpend Hr [He Hs] [Hv Hl]. pose proof Hok as [].
  split; unfold same_reviews, status_rows, resolution_metered in *; rewrite ?Hr, ?He, ?Hs, ?Hv, ?Hl, ?Hj, ?map_key_snoc;
    try done.
  - intros r Hin. by eapply review_turn_over_kept, ok_over0.
  - intros e Hin. apply (evidence_complete_kept db); [|by rewrite Hs|by apply ok_complete0].
    intros j' Hjt. rewrite Hj, elem_of_app, list_elem_of_singleton. split; [|by left]. intros [?| ->]; [done|exfalso].
    destruct (ok_evidence0 e Hin) as (r&Hir&Hid&Ht).
    eapply (evidence_pending_absent db r e); [done..| |done|by symmetry]. apply Hpend; [done|congruence].
  - intros j' [Hin| ->%list_elem_of_singleton]%elem_of_app; [|by eapply receipt_epoch_kept].
    by eapply receipt_epoch_kept, ok_journal0.
  - by apply NoDup_snoc.
Qed.

Lemma change_price_ok db db' r e links now :
  review_ok db → turns_kept db db' →
  r ∈ reviews db → r.(rv_Status) = SettlementReviewStatusPending →
  reviews db' = map (moved r SettlementReviewStatusPending SettlementReviewStatusMeteredHeld now) (reviews db) →
  evidences db' = evidences db ++ [e] → e.(ev_ReviewID) = r.(rv_ReviewID) →
  e.(ev_EvidenceTurnID) = r.(rv_TurnID) → e.(ev_ReviewID) ∉ map ev_ReviewID (evidences db) →
  e.(ev_EvidenceID) ∉ map ev_EvidenceID (evidences db) →
  sources db' = sources db ++ links → (∀ s, s ∈ links → s.(src_EvidenceID) = e.(ev_EvidenceID)) →
  (∀ receipt, receipt ∈ map src_ReceiptID links ↔
     ∃ j, j ∈ journal db ∧ j.(jr_TurnID) = r.(rv_TurnID) ∧ j.(jr_ReceiptID) = receipt) →
  NoDup (map src_ReceiptID (sources db')) →
  same_resolutions db db' → journal db' = journal db → review_ok db'.
Proof.
  intros Hok Hk Hr Hst Hrs He Hei Het Hen Hen' Hs Hlinks Hall Hnd [Hv Hl] Hj. pose proof Hok as [].
  destruct (moved_keys r SettlementReviewStatusPending SettlementReviewStatusMeteredHeld now (reviews db)) as [Hm1 Hm2].
  assert (Hin' : ∀ r0, r0 ∈ reviews db' → ∃ r1, r1 ∈ reviews db ∧
            r0 = moved r SettlementReviewStatusPending SettlementReviewStatusMeteredHeld now r1).
  { intros r0. rewrite Hrs. intros (r1&->&H1)%elem_of_map. eauto. }
  split; rewrite ?Hrs, ?Hm1, ?Hm2, ?He, ?Hv, ?Hl, ?Hj, ?map_key_snoc; try done.
  - intros r0 (r1&->&H1)%elem_of_map. apply moved_over. by eapply review_turn_over_kept, ok_over0.
  - intros r0 (r1&->&H1)%elem_of_map. unfold status_rows. rewrite He, Hv, map_key_snoc, !moved_id, !elem_of_app.
    setoid_rewrite list_elem_of_singleton. rewrite Hei.
    destruct (decide (rv_ReviewID r1 = rv_ReviewID r)) as [Heq|Hne].
    + assert (r1 = r) as -> by (by eapply review_unique). rewrite moved_self by done. right. left.
      split; [done|]. split; [by right|]. destruct (ok_status0 r Hr) as [(_&_&?)|[(Hx&_)|(Hx&_)]]; [done| |];
        rewrite Hst in Hx; discriminate Hx.
    + rewrite moved_other by done. destruct (ok_status0 r1 H1) as [(?&?&?)|[(?&?&?)|(?&?&?)]]; naive_solver.
  - by apply NoDup_snoc.
  - by apply NoDup_snoc.
  - intros e0 [H0| ->%list_elem_of_singleton]%elem_of_app.
    + destruct (ok_evidence0 e0 H0) as (r0&Hr0&?&?). eexists. split; [apply elem_of_map; eauto|].
      by rewrite moved_id, moved_turn.
    + eexists. split; [apply elem_of_map; eauto|]. by rewrite moved_id, moved_turn.
  - intros e0 [H0| ->%list_elem_of_singleton]%elem_of_app.
    + apply (evidence_complete_kept db); [by rewrite Hj| |by apply ok_complete0].
      intros s Hse. rewrite Hs, elem_of_app. split; [|by left]. intros [?|Hx]; [done|]. exfalso.
      apply Hen', elem_of_map. exists e0. split; [|done]. rewrite <- Hse. symmetry. by apply Hlinks.
    + intros receipt. rewrite Hj, Het, <- Hall, elem_of_map. rewrite Hs. setoid_rewrite elem_of_app. split.
      * intros (s&->&Hin). exists s. split; [by right|]. split; [by apply Hlinks|done].
      * intros (s&[Hin|Hin]&Hse&Hsr); [|by exists s]. exfalso. apply Hen'. rewrite <- Hse. by apply ok_sources0.
  - intros s. rewrite Hs. intros [Hin|Hin]%elem_of_app; apply elem_of_app.
    + left. by apply ok_sources0.
    + right. apply list_elem_of_singleton. by apply Hlinks.
  - intros s Hin. destruct (ok_resolution0 s Hin) as (e0&?&?). exists e0. rewrite He. split; [apply elem_of_app; by left|done].
  - intros j Hin. by eapply receipt_epoch_kept, ok_journal0.
Qed.

Lemma change_finalize_ok db db' r s e now :
  review_ok db → turns_kept db db' →
  r ∈ reviews db → r.(rv_Status) = SettlementReviewStatusMeteredHeld →
  reviews db' = map (moved r SettlementReviewStatusMeteredHeld SettlementReviewStatusFinalizedHeld now) (reviews db) →
  e ∈ evidences db → e.(ev_ReviewID) = r.(rv_ReviewID) →
  resolutions db' = resolutions db ++ [s] → s.(rs_ReviewID) = r.(rv_ReviewID) →
  s.(rs_ReviewID) ∉ map rs_ReviewID (resolutions db) →
  s.(rs_UsedUnits) = e.(ev_UsedUnits) → 1 ≤ s.(rs_UsedUnits) ≤ s.(rs_ReservedUnits) →
  resolved db' = resolved db ++ [(s.(rs_ReviewID), s.(rs_UsedUnits))] →
  same_evidence db db' → journal db' = journal db → review_ok db'.
Proof.
  intros Hok Hk Hr Hst Hrs Hein Hei Hv Hsi Hsn Hu Hb Hl [He Hs] Hj. pose proof Hok as [].
  destruct (moved_keys r SettlementReviewStatusMeteredHeld SettlementReviewStatusFinalizedHeld now (reviews db))
    as [Hm1 Hm2].
  split; unfold evidence_complete; rewrite ?Hrs, ?Hm1, ?Hm2, ?He, ?Hs, ?Hv, ?Hl, ?Hj, ?map_key_snoc; try done.
  - intros r0 (r1&->&H1)%elem_of_map. apply moved_over. by eapply review_turn_over_kept, ok_over0.
  - intros r0 (r1&->&H1)%elem_of_map. unfold status_rows. rewrite He, Hv, map_key_snoc, !moved_id, !elem_of_app.
    setoid_rewrite list_elem_of_singleton. rewrite Hsi.
    destruct (decide (rv_ReviewID r1 = rv_ReviewID r)) as [Heq|Hne].
    + assert (r1 = r) as -> by (by eapply review_unique). rewrite moved_self by done. right. right.
      split; [done|]. split; [|by right]. rewrite <- Hei. apply elem_of_map. eauto.
    + rewrite moved_other by done. destruct (ok_status0 r1 H1) as [(?&?&?)|[(?&?&?)|(?&?&?)]]; naive_solver.
  - intros e0 H0. destruct (ok_evidence0 e0 H0) as (r0&Hr0&?&?). eexists. split; [apply elem_of_map; eauto|].
    by rewrite moved_id, moved_turn.
  - by apply NoDup_snoc.
  - intros s0 [Hin| ->%list_elem_of_singleton]%elem_of_app.
    + destruct (ok_resolution0 s0 Hin) as (e0&?&?). exists e0. by rewrite He.
    + exists e. rewrite He. split; [done|]. split; [congruence|done].
  - intros j Hin. by eapply receipt_epoch_kept, ok_journal0.
  - by rewrite ok_ledger0.
Qed.

Lemma review_change_ok db db' :
  review_ok db → turns_kept db db' → review_change db db' → review_ok db'.
Proof.
  intros Hok Hk []; eauto using change_same_ok, change_open_ok, change_record_ok, change_finalize_ok.
  by eapply change_price_ok.
Qed.

(** ** Steps change the tables in one of these ways *)

Lemma buildReview_epoch turn terminal source attemptID fence operationID key evidence now r :
  buildSettlementReviewRecord turn terminal source attemptID fence operationID key evidence now = Ok r ∨
  buildProviderSettlementReviewRecord turn terminal source attemptID fence operationID key evidence now = Ok r →
  r.(rv_FencingToken) = fence ∧ r.(rv_Status) = SettlementReviewStatusPending.
Proof.
  unfold buildSettlementReviewRecord, buildProviderSettlementReviewRecord. cbv zeta.
  intros [H|H]; [|destruct (bool_decide _) in H; [|done]];
    destruct (SettlementReviewRecord_Validate _) in H; [done| |done|]; by injection H as <-.
Qed.

(** The Review a commit opens names the epoch it finishes. *)
Lemma commitReview_epoch mode next nextAttempt op review now r :
  commitReviewRecord mode next nextAttempt op review now = Ok (Some r) →
  r.(rv_FencingToken) = nextAttempt.(att_FencingToken) ∧ r.(rv_Status) = SettlementReviewStatusPending.
Proof.
  unfold commitReviewRecord. destruct review as [[e source]|]; [|done]. cbv zeta. intros H.
  destruct (bool_decide _) in H;
    match type of H with (match ?b with _ => _ end) = _ => destruct b eqn:Hb; [|done] end;
    injection H as <-; eauto using buildReview_epoch.
Qed.

Lemma reconcileReview_epoch provider next fence evidence now r :
  reconcileReview provider next fence evidence now = Ok (Some r) →
  r.(rv_FencingToken) = fence ∧ r.(rv_Status) = SettlementReviewStatusPending.
Proof.
  unfold reconcileReview. destruct evidence as [e|]; [|done]. cbv zeta. intros H.
  destruct provider;
    match type of H with (match ?b with _ => _ end) = _ => destruct b eqn:Hb; [|done] end;
    injection H as <-; eauto using buildReview_epoch.
Qed.

(** An outcome that is not a Review leaves the review tables alone. *)
Lemma outcome_write_change db outcome db' :
  outcome_write db.(db_settlement) outcome db'.(db_settlement) →
  match outcome with
  | Some (HeldForReview h) =>
    h.(hold_Review).(rv_Status) = SettlementReviewStatusPending → review_turn_over db' h.(hold_Review) →
    review_change db db'
  | _ => review_change db db'
  end.
Proof.
  assert (Hsame : ∀ st l, db'.(db_settlement) = set_ledger st l →
            st = db.(db_settlement) → omap entry_resolved l = resolved db → review_change db db').
  { intros st l Hst -> Hl. apply rc_same; unfold same_reviews, same_evidence, same_resolutions, reviews, evidences,
      sources, resolutions, journal, resolved; rewrite Hst; done. }
  remember db'.(db_settlement) as st' eqn:Hst. intros Hw. destruct Hw as [|c Hc|id h Hh Hk].
  - apply (Hsame db.(db_settlement) db.(db_settlement).(st_ledger)); [|done..].
    by destruct (db_settlement db).
  - eapply Hsame; [reflexivity|done|]. unfold resolved. rewrite omap_app. apply app_nil_r.
  - intros Hpend Hover. apply (rc_open _ _ h.(hold_Review)); try done;
      unfold same_evidence, same_resolutions, reviews, evidences, sources, resolutions, journal, resolved;
      rewrite <- ?Hst; cbn; try done.
    + by rewrite map_app.
    + intros (r&Hr&Hin)%elem_of_map. apply elem_of_records in Hin as [i Hin]. apply (existsb_fresh _ _ _ Hk) in Hin.
      unfold review_key_taken in Hin. cbn in Hin. by rewrite bool_decide_eq_true_2 in Hin.
    + intros (r&Hr&Hin)%elem_of_map. apply elem_of_records in Hin as [i Hin]. apply (existsb_fresh _ _ _ Hk) in Hin.
      unfold review_key_taken in Hin. cbn in Hin. rewrite (bool_decide_eq_true_2 (rv_TurnID r = _)) in Hin by done.
      by rewrite orb_true_r in Hin.
    + split; [done|]. rewrite omap_app. apply app_nil_r.
Qed.

Lemma commit_change plan s clock db res db' k :
  exec_ok db → plan_ok plan → commit_write plan s clock db res db' k → review_change db db'.
Proof.
  intros Hok Hplan Hw. destruct (cm_settlement _ _ _ _ _ _ _ Hw) as [Hwr Ho].
  apply outcome_write_change in Hwr.
  case_bool_decide as E; [by rewrite Ho in Hwr|].
  unfold terminal_outcome in Ho. destruct (ctr_pending k) as [r|] eqn:Hp.
  2: { destruct Ho as [[_ Ho]|[_ Ho]]; by rewrite Ho in Hwr. }
  rewrite Ho in Hwr. pose proof (cm_next _ _ _ _ _ _ _ Hw) as Hn.
  apply commitNext_inv in Hn as [(?&_)|(_&Hnext&_&Hrev&_)]; [done|]. rewrite Hp in Hrev.
  destruct (commitReview_epoch _ _ _ _ _ _ _ Hrev) as [Hf Hst]. apply commitReview_turn in Hrev.
  apply Hwr; [done|]. pose proof (commit_row _ _ _ _ _ _ _ Hw) as Hrow.
  destruct (commit_owner _ _ _ _ _ _ _ Hok Hw) as (_&Ha&_&_&_&Haf&_).
  destruct (cm_turn _ _ _ _ _ _ _ Hw) as (Hin&_&(Htid&_)%toTurn_inv).
  destruct (xo_turn _ Hok _ Hin) as (Hrng&_). apply toAttempt_inv in Ha as (_&_&Hat&_).
  eexists. split; [exact Hrow|]. cbn. split_and!.
  - rewrite Hrev, Hnext. cbn. by symmetry.
  - rewrite bool_decide_eq_false_2 by done. by destruct Hplan.
  - rewrite Hf. cbn. rewrite Hat, Haf. assert (MaxDurableSequence = 2 ^ 63 - 1) as HM by reflexivity.
    rewrite u64_small, i64_small; lia.
Qed.

Lemma retire_change cfg provider s clock command terminal db res db' k :
  exec_ok db → TurnStatus_Terminal terminal = true →
  retire_write cfg provider s clock command terminal db res db' k → review_change db db'.
Proof.
  intros Hok Hterm Hw. destruct (rw_settlement _ _ _ _ _ _ _ _ _ _ Hw) as [Hwr Ho].
  apply outcome_write_change in Hwr. pose proof (rw_pending _ _ _ _ _ _ _ _ _ _ Hw) as Hrev.
  unfold terminal_outcome in Ho. destruct (rtr_pending k) as [r|] eqn:Hp.
  2: { destruct Ho as [[_ Ho]|[_ Ho]]; by rewrite Ho in Hwr. }
  rewrite Ho in Hwr. destruct (reconcileReview_epoch _ _ _ _ _ _ Hrev) as [Hf Hst].
  apply reconcileReview_turn in Hrev. apply Hwr; [done|].
  pose proof (retire_row _ _ _ _ _ _ _ _ _ _ Hw) as Hrow.
  destruct (rw_turn _ _ _ _ _ _ _ _ _ _ Hw) as (Hin&_&(Htid&_)%toTurn_inv&_).
  eexists. split; [exact Hrow|]. cbn. split; [|split; [done|by rewrite Hf]].
  rewrite Hrev. cbn. by symmetry.
Qed.

Lemma kernel_step_change cfg t db t' db' :
  exec_ok db → kernel_step cfg (t, db) (t', db') → review_change db db'.
Proof.
  intros Hok [Hc|plan s clock res k Hp Hw|provider s clock command terminal res k Hterm Hw]%kernel_step_commercial.
  - unfold commercial in Hc. injection Hc as _ Hst.
    apply rc_same; unfold same_reviews, same_evidence, same_resolutions, reviews, evidences, sources, resolutions,
      journal, resolved; by rewrite Hst.
  - by eapply commit_change.
  - by eapply retire_change.
Qed.

Lemma change_refl db : review_change db db.
Proof. by apply rc_same. Qed.

Lemma change_settlement db st : st = db.(db_settlement) →
  ∀ db', db'.(db_settlement) = st → review_change db db'.
Proof.
  intros -> db' Hst. apply rc_same; unfold same_reviews, same_evidence, same_resolutions, reviews, evidences, sources,
    resolutions, journal, resolved; by rewrite Hst.
Qed.

Lemma lookupReview_elem db turnID r :
  lookupSettlementReviewTx db turnID = Ok (Some r) → r ∈ reviews db ∧ r.(rv_TurnID) = turnID.
Proof. intros (id&Hin&Ht&_)%lookupReview_inv. split; [apply elem_of_records; eauto|done]. Qed.

(** The Turn row a Review names is the one with its id. *)
Lemma over_row db r row :
  exec_ok db → review_turn_over db r → row ∈ db.(db_turns) → row.(tr_TurnID) = r.(rv_TurnID) →
  TurnStatus_Terminal row.(tr_Status) = true ∧ i64 r.(rv_FencingToken) = row.(tr_FencingToken).
Proof.
  intros Hok (t&Ht&Hid&Hterm&Hf) Hrow Heq.
  assert (t = row) as -> by (eapply (NoDup_key_inj tr_TurnID); [apply Hok|done..|congruence]). done.
Qed.

(** A receipt of a finished Turn is only taken while its Review is pending. *)
Lemma receiptAllowed_pending db row turn attempt now r :
  exec_ok db → review_ok db → row ∈ db.(db_turns) → toTurn row = Ok turn →
  receiptAllowed db row turn attempt now = None → r ∈ reviews db → r.(rv_TurnID) = row.(tr_TurnID) →
  r.(rv_Status) = SettlementReviewStatusPending.
Proof.
  intros Hok Hrok Hrow (Hid&Hst&_)%toTurn_inv Hall Hr Heq.
  destruct (over_row _ _ row Hok (ok_over _ Hrok r Hr) Hrow (eq_sym Heq)) as [Hterm _].
  unfold receiptAllowed in Hall. rewrite Hst, Hterm in Hall.
  rewrite bool_decide_eq_false_2 in Hall by (intros E; rewrite E in Hterm; done).
  destruct (negb (AttemptStatus_Terminal _)); [done|].
  destruct (lookupSettlementReviewTx db (turn_ID turn)) as [[r'|]|] eqn:Hl; [|done..].
  apply lookupReview_elem in Hl as [Hr' Ht']. destruct (_ || _) eqn:E in Hall; [done|]. bool_hyps.
  assert (r = r') as -> by (eapply review_of_turn; [done..|congruence]). done.
Qed.

Lemma append_change clock recorder command db record db' :
  exec_ok db → review_ok db → append_write clock recorder command db record db' → review_change db db'.
Proof.
  intros Hok Hrok [(row&turn&arow&attempt&now&Hrow&Hid&Hturn&Ha&Hat&Haf&Hatt&_&Hall&->) _ Hnew ->].
  unfold turn_is in Hid. bool_hyps. set (j := newProviderUsageJournalRecord recorder command now) in *.
  apply (rc_record _ _ j); try done.
  - unfold journal. cbn. unfold snoc_row. by rewrite map_app.
  - intros (x&Hx&Hin)%elem_of_map. apply elem_of_records in Hin as [i Hin]. apply (existsb_fresh _ _ _ Hnew) in Hin.
    unfold journal_key_taken in Hin. cbn [row_record] in Hin. clearbody j. unfold provider_event in Hx.
    injection Hx as E1 E2 E3. rewrite E1, E2, E3 in Hin.
    apply orb_false_iff in Hin as [_ Hin]. by rewrite !bool_decide_eq_true_2 in Hin.
  - destruct (xo_attempt _ Hok arow Ha) as (_&t&Ht&Hta&Hle&_). exists t. split; [done|].
    change (jr_TurnID j) with (fence_TurnID (aa_Fence command)).
    change (jr_FencingToken j) with (fence_FencingToken (aa_Fence command)). split; [congruence|lia].
  - intros r Hr Heq. eapply receiptAllowed_pending; [done..|].
    change (jr_TurnID j) with (fence_TurnID (aa_Fence command)) in Heq. congruence.
Qed.

Lemma capture_change clock command db review e db' :
  exec_ok db → review_ok db → capture_write clock command db review e db' → review_change db db'.
Proof.
  intros Hok Hrok [_ (Hl&_&Hst) (srcs&links&Hs&Hm&Hf&Hnd&_&Hs') (_&Hk&Hei&Het&He') (now&_&Hr')
    (_&Hres&Hj&Hled)].
  apply lookupReview_elem in Hl as [Hr Ht].
  apply (rc_price _ _ review e (map row_record links) now); try done.
  - unfold reviews. rewrite Hr'. apply moved_rows_records.
  - unfold evidences. rewrite He'. unfold snoc_row. by rewrite map_app.
  - intros (x&Hx&Hin)%elem_of_map. apply elem_of_records in Hin as [i Hin]. apply (existsb_fresh _ _ _ Hk) in Hin.
    unfold evidence_key_taken in Hin. cbn in Hin. rewrite (bool_decide_eq_true_2 (ev_ReviewID x = _)) in Hin by done.
    by rewrite orb_true_r in Hin.
  - intros (x&Hx&Hin)%elem_of_map. apply elem_of_records in Hin as [i Hin]. apply (existsb_fresh _ _ _ Hk) in Hin.
    unfold evidence_key_taken in Hin. cbn in Hin. by rewrite bool_decide_eq_true_2 in Hin.
  - unfold sources. by rewrite Hs', map_app.
  - intros s [i Hin]%elem_of_records. rewrite Forall_forall in Hf. exact (Hf _ Hin).
  - intros receipt. rewrite map_map.
    change (receipt ∈ map (src_ReceiptID ∘ row_record) links ↔
      ∃ j, j ∈ journal db ∧ j.(jr_TurnID) = review.(rv_TurnID) ∧ j.(jr_ReceiptID) = receipt).
    rewrite Hm, elem_of_map. pose proof (lookupProviderUsage_inv _ _ _ Hs) as Hall. split.
    + intros (j&->&Hin). apply Hall in Hin as (id&Hin&?&_). exists j. split; [apply elem_of_records; eauto|done].
    + intros (j&Hin&Hjt&<-). exists j. split; [done|]. apply Hall.
      destruct (ok_journal _ Hrok j Hin) as (t&Htin&Htid&Htf).
      destruct (over_row db review t Hok (ok_over _ Hrok review Hr) Htin) as [_ Hrf]; [congruence|].
      apply elem_of_records in Hin as [id Hin]. exists id. split; [done|]. split; [done|lia].
  - unfold sources. rewrite map_map. apply Hnd. pose proof (ok_receipts _ Hrok) as H. unfold sources in H.
    by rewrite map_map in H.
  - unfold same_resolutions, resolutions, resolved. by rewrite Hres, Hled.
  - unfold journal. by rewrite Hj.
Qed.

Lemma resolution_units s :
  SettlementReviewResolutionRecord_Validate s = None → 1 ≤ s.(rs_UsedUnits) ≤ s.(rs_ReservedUnits).
Proof.
  unfold SettlementReviewResolutionRecord_Validate. rewrite first_error_None, !Forall_cons, !when_None.
  intros (_&_&_&_&_&_&H&_). bool_hyps. lia.
Qed.

Lemma resolve_change clock command db review e s c db' :
  resolve_write clock command db review e s c db' → review_change db db'.
Proof.
  intros [(row&turn&_&_&_&_&_&->) (Hl&_&Hst) (Hle&_) (Hv&Hk&Hsi&Hu&_&Hs') (now&_&Hr') Hled (_&He&Hsrc&Hj)].
  apply lookupReview_elem in Hl as [Hr _]. apply lookupEvidence_inv in Hle as (id&Hin&Hei&_).
  apply (rc_finalize _ _ review s e now); try done.
  - unfold reviews. rewrite Hr'. apply moved_rows_records.
  - apply elem_of_records. eauto.
  - unfold resolutions. rewrite Hs'. unfold snoc_row. by rewrite map_app.
  - intros (x&Hx&Hxin)%elem_of_map. apply elem_of_records in Hxin as [i Hxin]. apply (existsb_fresh _ _ _ Hk) in Hxin.
    unfold resolution_key_taken in Hxin. cbn in Hxin.
    rewrite (bool_decide_eq_true_2 (rs_ReviewID x = _)) in Hxin by done. by rewrite orb_true_r in Hxin.
  - by apply resolution_units.
  - unfold resolved. rewrite Hled, omap_app. cbn. by rewrite Hsi, Hu.
  - unfold same_evidence, evidences, sources. by rewrite He, Hsrc.
  - unfold journal. by rewrite Hj.
Qed.

Lemma settlement_step_change cfg t db t' db' :
  exec_ok db → review_ok db → settlement_step cfg (t, db) (t', db') → review_change db db'.
Proof.
  intros Hok Hrok Hs. inversion Hs as
    [s1 s2 Hk|t1 t2 db1 rows Hle|t1 t2 db1 rows Hle|ctx clock outcome recorder command t1 t2 db1 r db2 Hle _ Hw
    |ctx st clock outcome command t1 t2 db1 r db2 Hle _ Hw|ctx st clock outcome command t1 t2 db1 r db2 Hle _ Hw];
    subst.
  - by eapply kernel_step_change.
  - by eapply change_settlement.
  - apply rc_same; done.
  - eapply tx_step; [done|apply change_refl|].
    intros a db2 [(->&_)|(_&Ha)]%appendAttestedBody_inv; [apply change_refl|by eapply append_change].
  - eapply tx_step; [done|apply change_refl|].
    intros a db2 [(->&_)|(_&review&Hc)]%captureBody_inv; [apply change_refl|by eapply capture_change].
  - eapply tx_step; [done|apply change_refl|].
    intros a db2 [(->&_)|(_&review&e&c&Hc)]%resolveBody_inv; [apply change_refl|by eapply resolve_change].
Qed.

(** ** Runs *)

Lemma settlement_step_ok cfg s s' :
  exec_ok s.2 → review_ok s.2 → settlement_step cfg s s' → exec_ok s'.2 ∧ review_ok s'.2 ∧ review_change s.2 s'.2.
Proof.
  destruct s as [t db], s' as [t' db']. cbn. intros Hok Hrok Hs.
  pose proof (settlement_step_exec _ _ _ Hs) as Hx. destruct (exec_step_shape _ _ _ _ _ Hok Hx) as [_ Hsh].
  pose proof (settlement_step_change _ _ _ _ _ Hok Hrok Hs) as Hc. split; [by eapply step_shape_ok|].
  split; [|done]. eapply review_change_ok; [done| |done]. intros r Hr. by eapply step_shape_turn.
Qed.

Lemma settlement_run_ok cfg s s' :
  settlement_run cfg s s' → exec_ok s.2 → review_ok s.2 → exec_ok s'.2 ∧ review_ok s'.2.
Proof.
  induction 1 as [|s1 s2 s3 Hs _ IH]; [done|]. intros Hok Hrok.
  destruct (settlement_step_ok _ _ _ Hok Hrok Hs) as (?&?&_). by apply IH.
Qed.

Lemma fresh_review_ok db : fresh_settlement db → review_ok db.
Proof.
  intros [_ [releases H]].
  split; unfold reviews, evidences, sources, resolutions, journal, resolved; rewrite H; cbn;
    try apply NoDup_nil_2; try (by intros ? ?%elem_of_nil); done.
Qed.

Lemma settlement_reachable_ok cfg s : settlement_reachable cfg s → exec_ok s.2 ∧ review_ok s.2.
Proof.
  intros Hreach. pose proof (exec_reachable_ok _ _ (settlement_reachable_exec _ _ Hreach)) as Hok.
  split; [done|]. destruct Hreach as (t&db&Hf&Hrun). eapply (settlement_run_ok _ _ _ Hrun); [|by apply fresh_review_ok].
  destruct Hf as [(Ht&Ha&_) _]. split; cbn; rewrite ?Ht, ?Ha; try apply NoDup_nil_2; by intros ? ?%elem_of_nil.
Qed.

Lemma settlement_reachable_step cfg s s' :
  settlement_reachable cfg s → settlement_step cfg s s' → settlement_reachable cfg s'.
Proof. intros (t&db&Hf&Hrun) Hs. exists t, db. split; [done|]. by eapply rtc_r. Qed.

Lemma settlement_reachable_run cfg s s' :
  settlement_reachable cfg s → settlement_run cfg s s' → settlement_reachable cfg s'.
Proof. intros (t&db&Hf&Hrun) Hs. exists t, db. split; [done|]. by etrans. Qed.

(** ** Histories *)

Definition review_rank (status : string) : Z :=
  if bool_decide (status = SettlementReviewStatusPending) then 0
  else if bool_decide (status = SettlementReviewStatusMeteredHeld) then 1 else 2.

(** A later row of a Review: only its status and change time moved, forward. *)
Definition review_later (r r' : SettlementReviewRecord) : Prop :=
  r' = with_review_status r r'.(rv_Status) r'.(rv_UpdatedAt)
  ∧ review_rank r.(rv_Status) ≤ review_rank r'.(rv_Status).

Record review_history (db db' : Database) : Prop := {
  hist_reviews : ∀ r, r ∈ reviews db → ∃ r', r' ∈ reviews db' ∧ review_later r r';
  hist_evidence : evidences db `prefix_of` evidences db';
  hist_sources : sources db `prefix_of` sources db';
  hist_resolutions : resolutions db `prefix_of` resolutions db';
  hist_journal : journal db `prefix_of` journal db';
  hist_ledger : resolved db `prefix_of` resolved db'
}.

Lemma review_later_refl r : review_later r r.
Proof. split; [by destruct r|lia]. Qed.

Lemma review_later_trans r1 r2 r3 : review_later r1 r2 → review_later r2 r3 → review_later r1 r3.
Proof.
  intros [H1 L1] [H2 L2]. split; [|lia]. rewrite H2 at 1. rewrite H1. reflexivity.
Qed.

#[export] Instance review_history_preorder : PreOrder review_history.
Proof.
  split.
  - intros db. split; try reflexivity. intros r Hr. exists r. split; [done|apply review_later_refl].
  - intros db1 db2 db3 [H1 E1 S1 V1 J1 L1] [H2 E2 S2 V2 J2 L2]. split; [|by etrans..].
    intros r Hr. destruct (H1 r Hr) as (r2&Hr2&Hl). destruct (H2 r2 Hr2) as (r3&Hr3&Hl').
    exists r3. split; [done|by eapply review_later_trans].
Qed.

Lemma moved_later review from to now r :
  review_rank from ≤ review_rank to → review_later r (moved review from to now r).
Proof.
  intros Hle. unfold moved. destruct (_ && _) eqn:E; [|apply review_later_refl]. bool_hyps. split; [done|]. cbn. congruence.
Qed.

Lemma moved_history db db' review from to now :
  review_rank from ≤ review_rank to → reviews db' = map (moved review from to now) (reviews db) →
  ∀ r, r ∈ reviews db → ∃ r', r' ∈ reviews db' ∧ review_later r r'.
Proof.
  intros Hle -> r Hr. exists (moved review from to now r). split; [|by apply moved_later].
  apply elem_of_map. eauto.
Qed.

Lemma review_change_history db db' : review_change db db' → review_history db db'.
Proof.
  assert (Hkeep : ∀ l r, reviews db' = reviews db ++ l → r ∈ reviews db → ∃ r', r' ∈ reviews db' ∧ review_later r r').
  { intros l r -> Hr. exists r. split; [apply elem_of_app; by left|apply review_later_refl]. }
  intros [Hr [He Hs] [Hv Hl] Hj|r Hr _ _ _ _ [He Hs] [Hv Hl] Hj|j Hj _ _ _ Hr [He Hs] [Hv Hl]
    |r e links now _ _ Hr He _ _ _ _ Hs _ _ _ [Hv Hl] Hj|r s e now _ _ Hr _ _ Hv _ _ _ _ Hl [He Hs] Hj];
    unfold same_reviews in *; split; rewrite ?He, ?Hs, ?Hv, ?Hl, ?Hj; try (by apply prefix_app_r); try done.
  - intros x. apply (Hkeep []). by rewrite Hr, app_nil_r.
  - intros x. by eapply Hkeep.
  - intros x. apply (Hkeep []). by rewrite Hr, app_nil_r.
  - refine (moved_history _ _ _ _ _ _ _ Hr). vm_compute. discriminate.
  - refine (moved_history _ _ _ _ _ _ _ Hr). vm_compute. discriminate.
Qed.

Lemma settlement_run_history cfg s s' :
  settlement_run cfg s s' → exec_ok s.2 → review_ok s.2 → review_history s.2 s'.2.
Proof.
  induction 1 as [|s1 s2 s3 Hs _ IH]; [reflexivity|]. intros Hok Hrok.
  destruct (settlement_step_ok _ _ _ Hok Hrok Hs) as (Hok'&Hrok'&Hc).
  transitivity s2.2; [by apply review_change_history|by apply IH].
Qed.

Lemma reachable_history cfg s s' :
  settlement_reachable cfg s → settlement_run cfg s s' → review_history s.2 s'.2.
Proof. intros [? ?]%settlement_reachable_ok Hrun. by eapply settlement_run_history. Qed.
