(* ===== verification/SqlStoreTheorems.v ===== *)
(** * What the SQL Turn store guarantees

    The claims about sql_store.go over every interleaving of the transactions of
    the Turn store and the execution store: the stored logs are gap-free and
    only grow, admission is exactly-once, replay returns the requested slice of
    the log, rows and event ids survive the trip through the tables.  The last
    part shows what happens to an event whose stored form is larger than the
    form that was accepted. *)

From Stdlib Require Import Ascii.
From stdpp Require Import sorting.
From S2P Require Import Prelude GoText GoJson AgentContract TurnTypes MemoryStore MemoryStoreFacts MemoryStoreProgress Fixtures TurnService ExecutionTypes SqlDatabase SqlFacts SqlStore SqlExecution EpochFacts SqlCommitFacts SqlExecutionFacts ExecutionFixtures SqlStoreFacts.

(** ** Reading the stored log

    What the statements of [SQLStore.Replay] return on a well-formed log: the
    window, the page of rows and its decoding. *)

(** ** Lists numbered in sequence *)

Lemma filter_and {A} (p q : A → bool) (l : list A) :
  List.filter (fun x => p x && q x) l = List.filter q (List.filter p l).
Proof.
  induction l as [|x l IH]; simpl; [done|]. destruct (p x); simpl; [|done].
  destruct (q x); by rewrite IH.
Qed.

Lemma filter_all {A} (p : A → bool) (l : list A) : (∀ x, x ∈ l → p x = true) → List.filter p l = l.
Proof.
  induction l as [|x l IH]; simpl; intros H; [done|]. rewrite (H x (list_elem_of_here _ _)).
  f_equal. apply IH. intros y Hy. by apply H, list_elem_of_further.
Qed.

Lemma seqZ_bounds m n z : z ∈ seqZ m n → m ≤ z < m + n.
Proof. by rewrite elem_of_seqZ. Qed.

Section Numbered.
Context (l : list sqlTurnEventRow).

Lemma numbered_elem m n e : map er_Sequence l = seqZ m n → e ∈ l → m ≤ e.(er_Sequence) < m + n.
Proof. intros H He. apply elem_of_seqZ. rewrite <- H. apply elem_of_map. eauto. Qed.

Lemma numbered_length m n : map er_Sequence l = seqZ m n → 0 ≤ n → Z.of_nat (length l) = n.
Proof. intros H Hn. rewrite <- (length_map er_Sequence l), H, length_seqZ. lia. Qed.

End Numbered.

(** The rows after a position are a suffix. *)
Lemma numbered_after l : ∀ m n k,
  map er_Sequence l = seqZ m n → m - 1 ≤ k →
  List.filter (fun e => k <? e.(er_Sequence)) l = drop (Z.to_nat (k - (m - 1))) l.
Proof.
  induction l as [|e l IH]; intros m n k H Hk; simpl; [by rewrite drop_nil|].
  destruct (decide (0 < n)) as [Hn|Hn]; [|by rewrite seqZ_nil in H by lia].
  rewrite seqZ_cons in H by lia. injection H as He H. rewrite He.
  destruct (Z.ltb_spec k m).
  - replace (Z.to_nat (k - (m - 1))) with 0%nat by lia. rewrite drop_0. f_equal.
    apply filter_all. intros x Hx. apply Z.ltb_lt. pose proof (numbered_elem _ _ _ _ H Hx). lia.
  - rewrite (IH (Z.succ m) (Z.pred n) k H) by lia.
    replace (Z.to_nat (k - (m - 1))) with (S (Z.to_nat (k - (Z.succ m - 1)))) by lia. done.
Qed.

Lemma numbered_drop l m n k :
  map er_Sequence l = seqZ m n → 0 ≤ k ≤ n →
  map er_Sequence (drop (Z.to_nat k) l) = seqZ (m + k) (n - k).
Proof.
  intros H Hk. rewrite <- skipn_map, H.
  replace n with (k + (n - k)) at 1 by lia. rewrite seqZ_app by lia.
  apply drop_app_length'. rewrite length_seqZ. lia.
Qed.

Lemma numbered_take l m n k :
  map er_Sequence l = seqZ m n → 0 ≤ k → 0 ≤ n →
  map er_Sequence (take (Z.to_nat k) l) = seqZ m (Z.min k n).
Proof.
  intros H Hk Hn. rewrite <- firstn_map, H. destruct (decide (k ≤ n)).
  - replace n with (k + (n - k)) at 1 by lia. rewrite seqZ_app by lia.
    rewrite take_app_length' by (rewrite length_seqZ; lia). f_equal. lia.
  - rewrite take_ge by (rewrite length_seqZ; lia). f_equal. lia.
Qed.

(** ORDER BY sequence leaves a numbered log as it is. *)
Lemma numbered_sorted l : ∀ m n, map er_Sequence l = seqZ m n → StronglySorted event_before l.
Proof.
  induction l as [|e l IH]; intros m n H; [constructor|].
  destruct (decide (0 < n)) as [Hn|Hn]; [|by simpl in H; rewrite seqZ_nil in H by lia].
  simpl in H. rewrite seqZ_cons in H by lia. injection H as He H.
  constructor; [by eapply IH|]. apply Forall_forall. intros x Hx.
  pose proof (numbered_elem _ _ _ _ H Hx). unfold event_before. lia.
Qed.

Lemma numbered_inj l m n x y :
  map er_Sequence l = seqZ m n → x ∈ l → y ∈ l → x.(er_Sequence) = y.(er_Sequence) → x = y.
Proof.
  intros H. apply (NoDup_key_inj er_Sequence). rewrite H. apply NoDup_seqZ.
Qed.

#[export] Instance event_before_total : Total event_before.
Proof. intros a b. unfold event_before. lia. Qed.
#[export] Instance event_before_trans : Transitive event_before.
Proof. intros a b c. unfold event_before. lia. Qed.

Lemma numbered_merge_sort l m n : map er_Sequence l = seqZ m n → merge_sort event_before l = l.
Proof.
  intros H. apply (StronglySorted_unique_strong event_before).
  - intros x y Hx Hy Hxy Hyx. unfold event_before in *.
    rewrite (merge_sort_Permutation event_before l) in Hx. eapply numbered_inj; [done..|lia].
  - apply StronglySorted_merge_sort; apply _.
  - by eapply numbered_sorted.
  - apply merge_sort_Permutation.
Qed.

(** ** The window *)

Section Log.
Context {db : Database} {r : sqlTurnRow}.
Context (Hlog : row_log_ok db r).

Let log : list sqlTurnEventRow := turn_events db r.(tr_TurnID).
Let last : Z := r.(tr_LastEventSequence).

Lemma visible_log : List.filter (visible_event r) db.(db_events) = log.
Proof.
  unfold visible_event. rewrite filter_and. fold (turn_events db (tr_TurnID r)). apply filter_all.
  intros e He. destruct Hlog as [_ Hmap]. apply Z.leb_le. pose proof (numbered_elem _ _ _ _ Hmap He). lia.
Qed.

Lemma foldr_min_first z (l : list Z) : Forall (Z.le z) l → foldr Z.min z l = z.
Proof.
  induction l as [|x l IH]; simpl; [done|]. intros [Hx Hl]%Forall_cons. rewrite IH by done. lia.
Qed.

Lemma min_log : min_sequence log = Some 1.
Proof.
  destruct Hlog as [Hrng Hmap]. fold log last in Hmap. destruct log as [|e rest] eqn:E.
  { simpl in Hmap. rewrite seqZ_cons in Hmap by (unfold last; lia). done. }
  simpl in Hmap. rewrite seqZ_cons in Hmap by (unfold last; lia). injection Hmap as He Hmap.
  simpl. f_equal. rewrite He, foldr_min_first; [done|]. rewrite Hmap. apply Forall_forall.
  intros z Hz%seqZ_bounds. lia.
Qed.

Lemma loadReplayWindow_log : loadReplayWindow db r = Ok (mkReplayWindow 1 last).
Proof.
  assert (MaxDurableSequence = 2 ^ 63 - 1) as HM by reflexivity.
  destruct Hlog as [Hrng _]. fold last in Hrng.
  unfold loadReplayWindow. fold last. rewrite visible_log, min_log.
  rewrite (proj2 (Z.ltb_ge last 1)) by lia. rewrite !u64_small by lia.
  rewrite (proj2 (Z.ltb_ge MaxDurableSequence last)) by lia. simpl.
  rewrite (proj2 (Z.ltb_ge MaxDurableSequence last)) by lia.
  unfold ReplayWindow_Validate, ReplayWindow_Empty. simpl.
  rewrite (proj2 (Z.eqb_neq last 0)), (proj2 (Z.ltb_ge last 1)) by lia. done.
Qed.

(** The rows of a page. *)
Lemma page_rows after :
  0 ≤ after ≤ last →
  merge_sort event_before
    (List.filter (fun e => visible_event r e && (i64 after <? e.(er_Sequence))) db.(db_events))
  = drop (Z.to_nat after) log.
Proof.
  assert (MaxDurableSequence = 2 ^ 63 - 1) as HM by reflexivity.
  intros Ha. destruct Hlog as [Hrng Hmap]. fold log last in Hrng, Hmap.
  rewrite i64_small by lia. rewrite filter_and, visible_log, (numbered_after log 1 last) by (done || lia).
  replace (after - (1 - 1)) with after by lia.
  eapply numbered_merge_sort, numbered_drop; [exact Hmap|exact Ha].
Qed.

End Log.

(** ** Decoding *)

Lemma toEnvelope_inv turn row event :
  toEnvelope turn row = Ok event →
  1 ≤ row.(er_Sequence) ∧ event.(ev_Sequence) = u64 row.(er_Sequence)
  ∧ event.(ev_EventID) = deterministicEventID turn.(turn_ID) event.(ev_Sequence).
Proof.
  unfold toEnvelope. intros H. destruct (negb _) eqn:E1 in H; [|done].
  destruct (er_EventJSON row) as [e|]; [|done]. case_match eqn:E2; [|done].
  destruct (validateStoredEnvelope e); simplify_eq. by bool_hyps.
Qed.

Lemma decodePage_numbered turn latest rows : ∀ previous n seen,
  map er_Sequence rows = seqZ (previous + 1) n → 0 ≤ previous → previous + n ≤ latest →
  latest ≤ MaxDurableSequence →
  (∀ id, id ∈ seen → ∃ m, m ≤ previous ∧ id = deterministicEventID turn.(turn_ID) m) →
  Forall (λ row, ∃ e, toEnvelope turn row = Ok e) rows →
  ∃ events, decodePage turn latest previous seen rows = Ok events
    ∧ Forall2 (λ row e, toEnvelope turn row = Ok e) rows events
    ∧ map ev_Sequence events = seqZ (previous + 1) n.
Proof.
  assert (MaxDurableSequence = 2 ^ 63 - 1) as HM by reflexivity.
  induction rows as [|row rows IH]; intros previous n seen Hmap Hp Hl HL Hseen Hdec; simpl.
  { exists []. by split_and!. }
  destruct (decide (0 < n)) as [Hn|Hn]; [|by simpl in Hmap; rewrite seqZ_nil in Hmap by lia].
  simpl in Hmap. rewrite seqZ_cons in Hmap by lia. injection Hmap as Hrow Hmap.
  apply Forall_cons in Hdec as [[e He] Hdec]. rewrite He.
  destruct (toEnvelope_inv _ _ _ He) as (_&Hseq&Hid). rewrite Hrow, u64_small in Hseq by lia.
  rewrite Hseq, (proj2 (Z.leb_gt (previous + 1) previous)), (proj2 (Z.ltb_ge latest (previous + 1))) by lia.
  rewrite Hid, bool_decide_eq_false_2; simpl.
  2: { intros (m&Hm&E%deterministicEventID_inj)%Hseen. lia. }
  destruct (IH (previous + 1) (Z.pred n) ({[deterministicEventID (turn_ID turn) (ev_Sequence e)]} ∪ seen))
    as (events&Hd&HF&Hs); [by rewrite Hmap; f_equal; lia|lia..| |done|].
  { intros id [->%elem_of_singleton|Hin]%elem_of_union; [exists (previous + 1); split; [lia|congruence]|].
    destruct (Hseen id Hin) as (m&?&?). exists m. split; [lia|done]. }
  rewrite Hd. exists (e :: events). split; [done|]. split; [by constructor|].
  simpl. rewrite Hs, Hseq, (seqZ_cons (previous + 1) n) by lia. do 2 f_equal; lia.
Qed.

(** ** What the SQL Turn store guarantees

    The claims about sql_store.go over every interleaving of the transactions of
    the Turn store and the execution store: the stored logs are gap-free and
    only grow, admission is exactly-once, replay returns the requested slice of
    the log, rows and event ids survive the trip through the tables.  The last
    part shows what happens to an event whose stored form is larger than the
    form that was accepted. *)

(** ** Rows and Turns *)

Lemma toTurn_identity row turn :
  toTurn row = Ok turn →
  turn.(turn_ID) = row.(tr_TurnID) ∧ turn.(turn_PrincipalID) = row.(tr_PrincipalID)
  ∧ turn.(turn_ThreadID) = row.(tr_ThreadID) ∧ turn.(turn_IdempotencyKey) = row.(tr_IdempotencyKey)
  ∧ turn.(turn_CommandDigest) = row.(tr_CommandDigest) ∧ Turn_Validate turn = None.
Proof.
  unfold toTurn. intros H. do 3 (destruct (negb _) in H; [|done]).
  destruct (tr_PluginSnapshotJSON row) in H; [|done].
  destruct (Turn_Validate _) eqn:? in H; [done|]. by simplify_eq/=.
Qed.

Lemma select_one_unique {A} (p : A → bool) l x :
  x ∈ l → p x = true → (∀ y, y ∈ l → p y = true → y = x) → select_one p l = Some x.
Proof.
  intros Hx Hp Huniq. destruct (select_one p l) as [y|] eqn:E.
  - apply select_one_elem in E as [Hy Hpy]. by rewrite (Huniq y Hy Hpy).
  - apply find_None_iff in E. rewrite Forall_forall in E. specialize (E x Hx). congruence.
Qed.

Lemma owned_row db r :
  sql_log_ok db → r ∈ db.(db_turns) →
  select_one (turn_owned_by r.(tr_TurnID) r.(tr_PrincipalID) r.(tr_ThreadID)) db.(db_turns) = Some r.
Proof.
  intros Hok Hr. apply select_one_unique; [done| |].
  - unfold turn_owned_by. by rewrite !bool_decide_eq_true_2.
  - intros y Hy Hp. unfold turn_owned_by in Hp. bool_hyps.
    by apply (NoDup_key_inj tr_TurnID _ _ _ (sl_ids _ Hok)).
Qed.

Lemma owned_lookup_valid row turn :
  toTurn row = Ok turn →
  validateOwnedStorageLookup row.(tr_PrincipalID) row.(tr_ThreadID) row.(tr_TurnID) = None.
Proof.
  intros (<-&<-&<-&_&_&Hv)%toTurn_identity. unfold Turn_Validate in Hv. apply first_error_None in Hv.
  rewrite !Forall_cons in Hv. destruct Hv as (?&?&?&_).
  unfold validateOwnedStorageLookup. rewrite first_error_None. by rewrite !Forall_cons.
Qed.

(** ** The claims about the log *)

(** C31: In every reachable state of the tables the log of every Turn is complete:
    its events are numbered 1, 2, ... up to the position its row records, in the
    order they were inserted, each with the deterministic id of its number; every
    event belongs to a stored Turn, and no two Turns share an id or an
    idempotency scope. *)
Theorem sql_log_invariant cfg t db :
  exec_reachable cfg (t, db) →
  (∀ r, r ∈ db.(db_turns) →
     1 ≤ r.(tr_LastEventSequence) ≤ MaxDurableSequence
     ∧ map er_Sequence (turn_events db r.(tr_TurnID)) = seqZ 1 r.(tr_LastEventSequence))
  ∧ (∀ e, e ∈ db.(db_events) →
       e.(er_EventID) = deterministicEventID e.(er_TurnID) e.(er_Sequence)
       ∧ ∃ r, r ∈ db.(db_turns) ∧ r.(tr_TurnID) = e.(er_TurnID))
  ∧ NoDup (map tr_TurnID db.(db_turns)) ∧ NoDup (map row_scope db.(db_turns)).
Proof.
  intros [Hids Hsc Hrows Hev]%exec_reachable_log. by split_and!.
Qed.

Lemma sql_log_invariant_witness :
  exec_reachable execConfig (execAt 3, cancelledTwo)
  ∧ map er_Sequence (turn_events cancelledTwo "turn_1") = [1; 2].
Proof.
  split; [apply cancelledTwo_reachable|].
  destruct (sql_log_invariant execConfig (execAt 3) cancelledTwo cancelledTwo_reachable) as [H _].
  refine (proj2 (H (match db_turns cancelledTwo with r :: _ => r | [] => claimedRow end) _)).
  apply list_elem_of_here.
Defined.

Lemma log_change_history db db' :
  sql_log_ok db → log_change db db' →
  (∃ new, db'.(db_events) = db.(db_events) ++ new)
  ∧ ∀ r, r ∈ db.(db_turns) → ∃ r', r' ∈ db'.(db_turns) ∧ same_identity r r'
      ∧ r.(tr_LastEventSequence) ≤ r'.(tr_LastEventSequence).
Proof.
  intros Hok [[He HF|row last e Hrow Hnext He HF]|id admitted e Ht _ He _ _ _].
  - split; [exists []; by rewrite app_nil_r|]. intros r Hr.
    destruct (Forall2_elem_l _ _ _ _ HF Hr) as (r'&Hr'&Hsame&Hlast). exists r'. split_and!; [done..|lia].
  - split; [by eauto|]. intros r Hr.
    destruct (Forall2_elem_l _ _ _ _ HF Hr) as (r'&Hr'&Hsame&Hlast). exists r'. split_and!; [done..|].
    destruct (turn_is _ _) eqn:Hp in Hlast; [|lia]. unfold turn_is in Hp. bool_hyps.
    destruct (sl_rows _ Hok row Hrow) as [Hrng _].
    rewrite (NoDup_key_inj tr_TurnID _ r row (sl_ids _ Hok) Hr Hrow Hp).
    apply next_event_inv in Hnext as (->&_); [|done]. lia.
  - split; [by eauto|]. intros r Hr. exists r. rewrite Ht. split; [apply elem_of_app; by left|].
    by repeat split.
Qed.

Lemma run_history cfg s s' :
  sql_log_ok s.2 → exec_run cfg s s' →
  (∃ new, s'.2.(db_events) = s.2.(db_events) ++ new)
  ∧ ∀ r, r ∈ s.2.(db_turns) → ∃ r', r' ∈ s'.2.(db_turns) ∧ same_identity r r'
      ∧ r.(tr_LastEventSequence) ≤ r'.(tr_LastEventSequence).
Proof.
  intros Hok H. revert Hok. induction H as [s|s s1 s' Hst _ IH]; intros Hok.
  { split; [exists []; by rewrite app_nil_r|]. intros r Hr. exists r. by repeat split. }
  destruct s as [t db], s1 as [t1 db1]. apply exec_step_log in Hst. simpl in *.
  destruct (log_change_history _ _ Hok Hst) as [[n1 E1] H1].
  destruct IH as [[n2 E2] H2]; [by eapply log_change_ok|].
  split; [exists (n1 ++ n2); by rewrite E2, E1, app_assoc|]. intros r Hr.
  destruct (H1 r Hr) as (r1&Hr1&Hid1&?). destruct (H2 r1 Hr1) as (r'&Hr'&Hid2&?).
  exists r'. split; [done|]. split; [|lia]. unfold same_identity in *. intuition congruence.
Qed.

(** Stored history is never rewritten.  Along any run, with any lost commits,
    the event table only grows at its end, no Turn disappears, and a Turn keeps
    its id, owner, idempotency key, digest, plugin and creation time while its
    log position never moves back. *)
Theorem sql_log_history cfg s s' :
  exec_reachable cfg s → exec_run cfg s s' →
  (∃ new, s'.2.(db_events) = s.2.(db_events) ++ new)
  ∧ ∀ r, r ∈ s.2.(db_turns) → ∃ r', r' ∈ s'.2.(db_turns) ∧ same_identity r r'
      ∧ r.(tr_LastEventSequence) ≤ r'.(tr_LastEventSequence).
Proof. intros Hok%exec_reachable_log. by apply run_history. Qed.

Lemma sql_log_history_witness :
  exec_reachable execConfig (execAt 1, admittedTwo)
  ∧ exec_run execConfig (execAt 1, admittedTwo) (execAt 2, claimedOne)
  ∧ ∃ new, claimedOne.(db_events) = admittedTwo.(db_events) ++ new.
Proof.
  assert (exec_run execConfig (execAt 1, admittedTwo) (execAt 2, claimedOne)) as Hrun
    by (apply rtc_once, claimOne_step).
  split; [apply admittedTwo_reachable|]. split; [exact Hrun|].
  exact (proj1 (sql_log_history execConfig _ _ admittedTwo_reachable Hrun)).
Defined.

(** ** Replay *)

Lemma page_query_valid after limit :
  after ≤ MaxDurableSequence → 1 ≤ limit ≤ 1000 →
  ReplayQuery_Validate (mkReplayQuery (mkReplayCursor "" (Some after)) limit) = None.
Proof.
  intros Ha Hl. unfold ReplayQuery_Validate, ReplayCursor_Validate. simpl.
  rewrite (proj2 (Z.leb_gt limit 0)), (proj2 (Z.ltb_ge 1000 limit)),
    (proj2 (Z.ltb_ge MaxDurableSequence after)) by lia. done.
Qed.

(** Replaying a stored Turn by sequence returns exactly the requested slice of
    its log.  If every stored event of the Turn decodes, the owner asking for at
    most [limit] events after position [after] gets the events numbered
    [after + 1], [after + 2], ..., the whole remainder if it fits, with HasMore
    set exactly when it does not, and the window of the complete log. *)
Theorem sql_replay_slice cfg t db r turn after limit :
  exec_reachable cfg (t, db) → r ∈ db.(db_turns) → toTurn r = Ok turn →
  Forall (λ e, ∃ event, toEnvelope turn e = Ok event) (turn_events db r.(tr_TurnID)) →
  0 ≤ after ≤ r.(tr_LastEventSequence) → 1 ≤ limit ≤ 1000 →
  ∃ events,
    SQLStore_Replay background r.(tr_PrincipalID) r.(tr_ThreadID) r.(tr_TurnID)
      (mkReplayQuery (mkReplayCursor "" (Some after)) limit) db
    = Ok {| rec_Turn := turn; rec_AfterSequence := after;
            rec_Window := mkReplayWindow 1 r.(tr_LastEventSequence); rec_Events := events;
            rec_HasMore := limit <? r.(tr_LastEventSequence) - after |}
    ∧ map ev_Sequence events = seqZ (after + 1) (Z.min limit (r.(tr_LastEventSequence) - after))
    ∧ Forall2 (λ e event, toEnvelope turn e = Ok event)
        (take (Z.to_nat limit) (drop (Z.to_nat after) (turn_events db r.(tr_TurnID)))) events.
Proof.
  intros Hok%exec_reachable_log Hr Hturn Hdec Ha Hl. simpl in Hok.
  pose proof (sl_rows _ Hok r Hr) as Hrow. pose proof Hrow as [Hrng Hmap].
  set (last := tr_LastEventSequence r) in *. set (log := turn_events db (tr_TurnID r)) in *.
  set (rest := drop (Z.to_nat after) log).
  assert (map er_Sequence rest = seqZ (1 + after) (last - after)) as Hrest by (by apply numbered_drop).
  assert (Hlen : Z.of_nat (length rest) = last - after) by (eapply numbered_length; [exact Hrest|lia]).
  assert (Hpage : map er_Sequence (take (Z.to_nat limit) rest) = seqZ (after + 1) (Z.min limit (last - after))).
  { rewrite (numbered_take _ _ _ _ Hrest) by lia. by rewrite Z.add_comm. }
  destruct (decodePage_numbered turn last (take (Z.to_nat limit) rest) after
    (Z.min limit (last - after)) ∅ Hpage) as (events&Hd&HF&Hs); [lia..|set_solver| |].
  { apply Forall_take, Forall_drop, Hdec. }
  exists events. split; [|done].
  unfold SQLStore_Replay. rewrite (page_query_valid after limit) by lia.
  rewrite (owned_lookup_valid _ _ Hturn). cbn [first_error background].
  unfold sqlReplayBody. rewrite (owned_row _ _ Hok Hr), Hturn, (loadReplayWindow_log Hrow).
  fold last. unfold sqlResolveCursor. cbn [qry_Cursor cur_LastEventID cur_AfterSequence qry_Limit default from_option].
  change (id after) with after.
  rewrite bool_decide_eq_true_2 by done. cbn [bool_decide is_Some]. rewrite bool_decide_eq_true_2 by eauto.
  cbn [win_LatestSequence win_OldestSequence andb]. rewrite (proj2 (Z.ltb_ge last after)) by lia.
  change (u64 (1 - 1)) with 0. rewrite (proj2 (Z.ltb_ge after 0)) by lia. cbn [negb].
  rewrite (page_rows Hrow) by (fold last; lia). fold log rest.
  assert (Hmore : (limit <? Z.of_nat (length (take (Z.to_nat (limit + 1)) rest))) = (limit <? last - after)).
  { rewrite length_take. apply eq_true_iff_eq. rewrite !Z.ltb_lt. lia. }
  rewrite Hmore.
  assert ((if limit <? last - after then take (Z.to_nat limit) (take (Z.to_nat (limit + 1)) rest)
           else take (Z.to_nat (limit + 1)) rest) = take (Z.to_nat limit) rest) as ->.
  { destruct (Z.ltb_spec limit (last - after)); [rewrite take_take; f_equal; lia|].
    rewrite !take_ge by lia. done. }
  by rewrite Hd.
Qed.

Lemma sql_replay_slice_witness :
  ∃ events,
    SQLStore_Replay background "user-1" "thread-1" "turn_1"
      (mkReplayQuery (mkReplayCursor "" (Some 0)) 1) claimedOne
    = Ok {| rec_Turn := claimedTurnOne; rec_AfterSequence := 0; rec_Window := mkReplayWindow 1 2;
            rec_Events := events; rec_HasMore := true |}
    ∧ map ev_Sequence events = [1].
Proof.
  destruct (sql_replay_slice execConfig (execAt 2) claimedOne claimedRow claimedTurnOne 0 1
    claimedOne_reachable) as (events&Hreplay&Hs&_).
  - apply list_elem_of_here.
  - vm_compute. reflexivity.
  - repeat constructor; eexists; vm_compute; reflexivity.
  - split; vm_compute; discriminate.
  - split; vm_compute; discriminate.
  - exists events. split; [exact Hreplay|exact Hs].
Defined.

(** ** Event ids *)

(** C38: Event ids are parsed exactly as they are printed: a string parses, for a
    Turn, to a sequence if and only if it is the deterministic id of that
    sequence of that Turn, so no two spellings name one event. *)
Theorem event_id_roundtrip turnID id n :
  parseDeterministicEventID turnID id = Some n
  ↔ id = deterministicEventID turnID n ∧ 1 ≤ n < 2 ^ 63.
Proof.
  unfold parseDeterministicEventID, deterministicEventID. split.
  - intros H. destruct (HasPrefix id (turnID +:+ ":")) eqn:Hp; [|done].
    apply HasPrefix_split in Hp as [raw ->]. simpl negb in H. cbv iota in H.
    rewrite substring_suffix in H. case_match eqn:Hraw; [done|]. bool_hyps.
    destruct (ParseUint63 raw) as [m|] eqn:Hm; [|done].
    destruct (Z.eqb_spec m 0) as [|Hm0]; simplify_eq.
    unfold ParseUint63 in Hm. rewrite bool_decide_eq_false_2 in Hm by done.
    destruct (parse_digits 0 raw) as [v|] eqn:Hv; [|done]. simpl in Hm.
    destruct (Z.ltb_spec v (2 ^ 63)); simplify_eq.
    destruct raw as [|c s]; [done|].
    assert (c ≠ "0"%char) as Hc.
    { intros ->. destruct s as [|c s]; [by injection Hv as <-|].
      match goal with H : _ && _ = false |- _ => apply andb_false_iff in H as [H|H] end; bool_hyps; [|done].
      unfold len in *. simpl in *. lia. }
    rewrite (parse_digits_canonical _ _ _ Hc Hv). rewrite string_app_assoc. split; [done|].
    pose proof (parse_digits_length _ _ _ Hc Hv).
    pose proof (Z.pow_pos_nonneg 10 (len s) ltac:(lia) ltac:(unfold len; lia)). lia.
  - intros [-> Hn]. rewrite <- string_app_assoc, HasPrefix_app. simpl negb. cbv iota.
    rewrite substring_suffix. destruct (FormatInt_head n) as (c&s&E&Hc); [lia|].
    rewrite bool_decide_eq_false_2 by (by rewrite E). rewrite (bool_decide_eq_false_2 (head _ = _)).
    2: { rewrite E. simpl. congruence. }
    rewrite andb_false_r. simpl orb. cbv iota. rewrite ParseUint63_FormatInt by lia.
    by destruct (Z.eqb_spec n 0); [lia|].
Qed.

(** ** Turn rows *)

(** Strings that survive a JSON column: no byte outside valid UTF-8. *)
Definition json_stable (s : string) : Prop := json_string_column s = s.

Lemma row_of_turn id turn last :
  Turn_Validate turn = None → 1 ≤ last ≤ MaxDurableSequence →
  json_stable turn.(turn_Plugin).(plg_ID) → json_stable turn.(turn_Plugin).(plg_Version) →
  json_stable turn.(turn_Plugin).(plg_ReleaseDigest) →
  toTurn (turnToSQLRow id turn last) = Ok turn.
Proof.
  assert (MaxDurableSequence = 2 ^ 63 - 1) as HM by reflexivity.
  intros Hv Hl H1 H2 H3. unfold toTurn. simpl. unfold json_stable in *.
  rewrite H1, H2, H3. rewrite i64_small, u64_small by lia.
  rewrite (proj2 (Z.ltb_ge last 1)), (proj2 (Z.ltb_ge MaxDurableSequence last)) by lia. simpl.
  destruct turn as [? ? ? ? ? [] ? ? ? ? ? ?]; simpl in *. by rewrite Hv.
Qed.

(** A valid Turn whose plugin reference is valid UTF-8 is stored and read back
    unchanged, whatever row id it gets and wherever its log stands. *)
Theorem sql_turn_roundtrip id turn last :
  Turn_Validate turn = None → 1 ≤ last ≤ MaxDurableSequence →
  json_stable turn.(turn_Plugin).(plg_ID) → json_stable turn.(turn_Plugin).(plg_Version) →
  json_stable turn.(turn_Plugin).(plg_ReleaseDigest) →
  toTurn (turnToSQLRow id turn last) = Ok turn.
Proof. apply row_of_turn. Qed.

Lemma sql_turn_roundtrip_witness : toTurn (turnToSQLRow 7 demoTurn 3) = Ok demoTurn.
Proof.
  apply sql_turn_roundtrip; [vm_compute; reflexivity|split; vm_compute; discriminate|
    vm_compute; reflexivity..].
Defined.

(** ** Admission *)

(** What a successful admission leaves behind: a row of the Turn it answered. *)
Definition admitted_row (db : Database) (candidate answered : Turn) : Prop :=
  ∃ r, r ∈ db.(db_turns) ∧ r.(tr_TurnID) = answered.(turn_ID) ∧ row_scope r = scopeOf candidate
       ∧ r.(tr_CommandDigest) = candidate.(turn_CommandDigest)
       ∧ answered.(turn_CommandDigest) = candidate.(turn_CommandDigest).

Lemma lookup_admitted db candidate existing record :
  lookupIdempotency db candidate = Ok (Some existing) →
  classifyIdempotentAdmission existing candidate = Ok record →
  record = mkAdmissionRecord existing false ∧ admitted_row db candidate existing.
Proof.
  unfold lookupIdempotency, classifyIdempotentAdmission. intros H Hc.
  destruct (select_one _ _) as [row|] eqn:Hs; [|done]. apply select_one_elem in Hs as [Hrow Hp].
  destruct (toTurn row) as [turn|] eqn:Ht; [|done]. case_match; simplify_eq. bool_hyps.
  case_match eqn:Hd; simplify_eq. bool_hyps. split; [done|]. exists row.
  apply toTurn_identity in Ht as (?&?&?&?&Hdig&_). split; [done|]. split; [done|].
  unfold turn_in_scope in Hp. bool_hyps.
  split; [unfold row_scope, scopeOf; f_equal; [f_equal|]; done|]. split; congruence.
Qed.

Lemma admitRows_admitted db candidate now first bind db' :
  admitRows db (admittedAt candidate now) first now bind = Ok db' →
  admitted_row db' candidate (admittedAt candidate now).
Proof.
  intros (id&e&Ht&_)%admitRows_inv. exists (turnToSQLRow id (admittedAt candidate now) 1).
  rewrite Ht. split; [apply elem_of_app; right; apply list_elem_of_here|done].
Qed.

Lemma SQLStore_Admit_recorded cfg env candidate initial db record db' :
  SQLStore_Admit cfg env candidate initial db = (Ok record, db') →
  admitted_row db' candidate record.(arec_Turn).
Proof.
  unfold SQLStore_Admit. intros H. destruct (admitChecks _ _ _); [done|].
  destruct (lookupIdempotency db candidate) as [[existing|]|] eqn:Hl; [| |done].
  { injection H as Hc <-. destruct (lookup_admitted _ _ _ _ Hl Hc) as [-> ?]. done. }
  destruct (buildEvent _ _ _) as [first|]; [|done].
  destruct (writeTransaction _ _ _ _ _) as [[admitted|txErr] db1] eqn:Hw.
  - simplify_eq/=. apply writeTransaction_inv in Hw as [[[e ?] _]|(a&db2&Hb&[(_&?&->)|(_&?&_)])]; [done| |done].
    simplify_eq. apply admitBody_inv in Hb as (now&_&->&Hr). by eapply admitRows_admitted.
  - destruct (se_ctx env 3%nat); [done|].
    destruct (lookupIdempotency (se_others env 1%nat db1) candidate) as [[existing|]|] eqn:Hl2; [| |done].
    + injection H as Hc <-. destruct (lookup_admitted _ _ _ _ Hl2 Hc) as [-> ?]. done.
    + by destruct (lookupTurnByID _ _) as [[?|]|].
Qed.

Lemma lookup_row db candidate r :
  sql_log_ok db → r ∈ db.(db_turns) → row_scope r = scopeOf candidate →
  lookupIdempotency db candidate
  = match toTurn r with Ok turn => Ok (Some turn) | Err _ => Err ErrStoreIntegrity end.
Proof.
  intros Hok Hr Hsc. unfold lookupIdempotency. unfold row_scope, scopeOf in Hsc. injection Hsc as E1 E2 E3.
  rewrite (select_one_unique _ _ r); [|done| |].
  - destruct (toTurn r) as [turn|] eqn:Ht; [|done]. apply toTurn_identity in Ht as (_&?&?&?&_&_).
    rewrite bool_decide_eq_true_2; [done|]. unfold scopeOf. congruence.
  - unfold turn_in_scope. by rewrite !bool_decide_eq_true_2.
  - intros y Hy Hp. unfold turn_in_scope in Hp. bool_hyps.
    apply (NoDup_key_inj row_scope _ _ _ (sl_scopes _ Hok)); [done..|]. unfold row_scope. congruence.
Qed.

(** C32: Admission is exactly-once per idempotency scope.  Once a call has answered
    with a Turn, whatever else runs before, between and after its statements and
    whether or not its own commit was reported lost, every later admission in the
    same scope writes nothing: with the same digest it answers the same Turn as a
    replay, with another digest it is refused as a conflict, and it fails as an
    integrity error only if the stored row no longer decodes. *)
Theorem sql_admit_exactly_once cfg env candidate initial db record (t1 t2 : time) db1 db2
    env' candidate' initial' answer db3 :
  SQLStore_Admit cfg env candidate initial db = (Ok record, db1) →
  exec_reachable cfg (t1, db1) → exec_run cfg (t1, db1) (t2, db2) →
  scopeOf candidate' = scopeOf candidate → admitChecks env'.(se_ctx) candidate' initial' = None →
  SQLStore_Admit cfg env' candidate' initial' db2 = (answer, db3) →
  db3 = db2 ∧
  ∃ r, r ∈ db2.(db_turns) ∧ r.(tr_TurnID) = record.(arec_Turn).(turn_ID)
    ∧ answer = match toTurn r with
               | Err _ => Err ErrStoreIntegrity
               | Ok turn =>
                 if bool_decide (candidate'.(turn_CommandDigest) = candidate.(turn_CommandDigest))
                 then Ok (mkAdmissionRecord turn false) else Err ErrIdempotencyConflict
               end.
Proof.
  intros (r1&Hr1&Hid&Hsc&Hdig&_)%SQLStore_Admit_recorded Hreach Hrun Hscope Hv H.
  pose proof (exec_reachable_log _ _ Hreach) as Hok. simpl in Hok.
  destruct (run_history _ (t1, db1) _ Hok Hrun) as [_ Hrows]. destruct (Hrows r1 Hr1) as (r&Hr&Hsame&_). simpl in *.
  pose proof (exec_run_log _ (t1, db1) _ Hok Hrun) as Hok2. simpl in Hok2.
  destruct Hsame as (_&Hid'&Hp&Hth&Hik&Hd&_).
  unfold SQLStore_Admit in H. rewrite Hv in H.
  rewrite (lookup_row db2 candidate' r Hok2 Hr) in H.
  2: { rewrite Hscope, <- Hsc. unfold row_scope. congruence. }
  destruct (toTurn r) as [turn|] eqn:Ht; simplify_eq/=.
  - unfold classifyIdempotentAdmission. split; [done|]. exists r. rewrite Ht. split; [done|].
    split; [congruence|]. apply toTurn_identity in Ht as (_&_&_&_&E&_).
    rewrite E, Hd, Hdig. repeat case_bool_decide; congruence.
  - split; [done|]. exists r. rewrite Ht. split; [done|]. split; [congruence|done].
Qed.

Lemma sql_admit_exactly_once_witness :
  ∃ record,
    SQLStore_Admit execConfig (sqlEnv 0) demoTurn demoDraft emptyTables = (Ok record, admittedOne)
    ∧ SQLStore_Admit execConfig (sqlEnv 5) demoTurn demoDraft claimedOne
      = (Ok (mkAdmissionRecord claimedTurnOne false), claimedOne).
Proof.
  destruct (SQLStore_Admit execConfig (sqlEnv 0) demoTurn demoDraft emptyTables) as [answer dbA] eqn:E.
  destruct answer as [record|]; [|vm_compute in E; discriminate E].
  assert (dbA = admittedOne) as -> by (vm_compute in E; injection E as _ <-; reflexivity).
  exists record. split; [reflexivity|].
  destruct (SQLStore_Admit execConfig (sqlEnv 5) demoTurn demoDraft claimedOne) as [answer db3] eqn:E5.
  assert (exec_reachable execConfig (execAt 0, admittedOne)) as Hreach.
  { exists (execAt 0), emptyTables. split; [by repeat split|]. apply rtc_once, admitOne_step. }
  assert (exec_run execConfig (execAt 0, admittedOne) (execAt 2, claimedOne)) as Hrun.
  { eapply rtc_l; [apply admitTwo_step|]. apply rtc_once, claimOne_step. }
  destruct (sql_admit_exactly_once execConfig (sqlEnv 0) demoTurn demoDraft emptyTables record
    (execAt 0) (execAt 2) admittedOne claimedOne (sqlEnv 5) demoTurn demoDraft answer db3 E Hreach Hrun
    eq_refl ltac:(vm_compute; reflexivity) E5) as (->&r&_).
  vm_compute in E5. injection E5 as <-. reflexivity.
Defined.

(** ** An accepted event that cannot be read back *)

(** A JSON string of angle brackets. *)
Definition angles (n : nat) : string :=
  of_chars (ascii_of_nat 34 :: repeat (ascii_of_nat 60) n ++ [ascii_of_nat 34]).
Definition angleEvent (n : nat) : EventEnvelope :=
  {| ev_SchemaVersion := EventEnvelopeSchemaVersion; ev_FrameKind := EventFrameEvent;
     ev_EventID := deterministicEventID "turn_1" 1; ev_TurnID := "turn_1"; ev_Sequence := 1;
     ev_Plugin := demoPlugin; ev_Type := "image.progress"; ev_Visibility := EventVisibilityUser;
     ev_ResourceRefs := []; ev_Data := angles n |}.

(** Each bracket inside a string becomes six bytes. *)
Lemma compact_angles n :
  length (compact_chars true false (repeat (ascii_of_nat 60) n ++ [ascii_of_nat 34])) = (6 * n + 1)%nat.
Proof.
  induction n as [|n IH]; [reflexivity|]. rewrite Nat.mul_succ_r.
  change (length (escape_u "0" "0" "3" "c"
    ++ compact_chars true false (repeat (ascii_of_nat 60) n ++ [ascii_of_nat 34])) = (6 * n + 6 + 1)%nat).
  rewrite length_app, IH. change (length (escape_u "0" "0" "3" "c")) with 6%nat. lia.
Qed.

Lemma compact_quote l : compact_chars false false (ascii_of_nat 34 :: l) = ascii_of_nat 34 :: compact_chars true false l.
Proof. by destruct l as [|? [|? ?]]. Qed.

Lemma angles_grow n : len (json_compact (angles n)) = 6 * Z.of_nat n + 2.
Proof.
  unfold json_compact, angles, len. rewrite chars_of_chars, compact_quote, <- length_chars, chars_of_chars.
  cbn [length]. rewrite compact_angles. lia.
Qed.

Lemma oversized_data_invalid d : MaxEventDataBytes < len d.(draft_Data) → is_Some (EventDraft_Validate d).
Proof.
  intros H. apply not_eq_None_Some. unfold EventDraft_Validate. rewrite first_error_None. cbn [app].
  rewrite !Forall_cons, !when_None.
  intros (_&_&Hx&_). apply Z.ltb_ge in Hx. lia.
Qed.

(** An event whose stored form is larger than the limit is not read back. *)
Lemma oversized_row_unreadable turn id event now row :
  eventToSQLRow id event now = Ok row → MaxEventDataBytes < len (json_compact event.(ev_Data)) →
  toEnvelope turn row = Err ErrStoreIntegrity.
Proof.
  intros Hrow Hlen. unfold eventToSQLRow in Hrow.
  destruct (validateStoredEnvelope event); [done|]. destruct (canonicalExecutionTime now); [|done].
  injection Hrow as <-. unfold toEnvelope. cbn [er_EventJSON er_Sequence]. destruct (negb _); [|done].
  unfold event_column. destruct (_ && _); [|done].
  destruct (validateStoredEnvelope _) eqn:Hv; [done|]. exfalso. unfold validateStoredEnvelope in Hv.
  rewrite first_error_None, !Forall_cons, !when_None in Hv. destruct Hv as (_&_&Hd&_).
  apply bool_decide_eq_false in Hd. apply Hd. by apply oversized_data_invalid.
Qed.

Lemma angle_event_valid : validateStoredEnvelope (angleEvent (400 * 500)) = None.
Proof. vm_compute. reflexivity. Qed.

(** The store accepts an event of about 200 kB whose row it refuses to read: every
    replay of the Turn that reaches it fails. *)
Theorem escaped_event_unreadable :
  ∃ event row, eventToSQLRow 1 event execClock = Ok row ∧ toEnvelope demoTurn row = Err ErrStoreIntegrity.
Proof.
  pose proof angle_event_valid as Hv. pose proof (angles_grow (400 * 500)) as Hlen.
  rewrite Nat2Z.inj_mul in Hlen. change (angles (400 * 500)) with (ev_Data (angleEvent (400 * 500))) in Hlen.
  revert Hv Hlen. generalize (angleEvent (400 * 500)). intros event Hv Hlen. exists event.
  assert (∃ row, eventToSQLRow 1 event execClock = Ok row) as [row Hrow].
  { unfold eventToSQLRow. rewrite Hv. by eexists. }
  exists row. split; [done|]. eapply oversized_row_unreadable; [done|]. rewrite Hlen. reflexivity.
Qed.
