(* ===== verification/SqlCommitTheorems.v ===== *)
(** * What committing promises

    An operation is committed once and only by the live epoch: its receipt
    answers every later call, and a fence left behind never writes again. *)

From S2P Require Import Prelude GoText GoJson AgentContract TurnTypes MemoryStore TurnService ExecutionTypes Settlement SqlDatabase SqlFacts SqlStore SqlExecution EffectOutbox SettlementAuthority SettlementTables CommitCommand SqlCommit Reconcile EpochFacts SqlCommitFacts SqlExecutionFacts ExecutionFixtures SqlExecutionTheorems SqlStoreFacts CommitFixtures SqlLedgerFacts.

(** ** The call and its transaction *)

Lemma hydrate_replay s db row turn operation command mode r :
  hydrateOperationResult s db row turn operation command mode = Ok r →
  r.(cres_Replay) = true ∧ r.(cres_OperationDigest) = operation.(or_OperationDigest).
Proof. unfold hydrateOperationResult. intros H. cbv zeta in H. break_in H. by injection H as <-. Qed.

Lemma replayOperation_inv s db row turn operation plan r :
  replayOperation s db row turn operation plan = Ok r →
  r.(cres_Replay) = true ∧ r.(cres_OperationDigest) = operation.(or_OperationDigest)
  ∧ ∃ c, c ∈ plan_candidates plan ∧ operationMatchesCommand operation c.(cand_Command) c.(cand_Digest) = true.
Proof.
  unfold replayOperation, selectOperationReplayCandidate. intros H.
  destruct (List.find _ _) as [c|] eqn:Hc; [|done]. apply select_one_elem in Hc as [Hin Hp].
  destruct (hydrateOperationResult _ _ _ _ _ _ _) as [x|] eqn:Hh; [|done].
  destruct (attemptMatchesFence _ _); [|done]. injection H as <-.
  apply hydrate_replay in Hh as [? ?]. bool_hyps. eauto 10.
Qed.

Lemma commitFailed_replay env plan e db r db' :
  commitFailed env plan e db = (Ok r, db') → r.(cres_Replay) = true.
Proof.
  unfold commitFailed. cbv zeta. intros H. destruct (cme_ctx env 3%nat); [done|].
  destruct (resolveOperation _ _ _) as [[x|]|] eqn:Hr; [| |done].
  - injection H as <- <-. unfold resolveOperation in Hr. cbv zeta in Hr. break_in Hr.
    injection Hr as <-. match goal with H : replayOperation _ _ _ _ _ _ = _ |- _ => by apply replayOperation_inv in H as [? _] end.
  - by repeat case_match.
Qed.

(** A call that answered without a replay wrote, in its own transaction. *)
Lemma CommitAttempt_new cfg env command db res db' :
  CommitAttempt cfg env command db = (Ok res, db') → res.(cres_Replay) = false →
  CommitAttemptCommand_Validate command = None
  ∧ ∃ plan k, planCommit env.(cme_settlement) command = Ok plan
      ∧ commit_write plan env.(cme_settlement) env.(cme_clock) db res db' k
      ∧ writeTransaction cfg env.(cme_ctx) env.(cme_outcome)
          (commitAttemptBody plan env.(cme_settlement) env.(cme_clock) env.(cme_reopened)) db = (Ok res, db').
Proof.
  unfold CommitAttempt. intros H Hr. destruct (first_error _) eqn:Hv in H; [done|].
  rewrite first_error_None, !Forall_cons in Hv. destruct Hv as (_&Hv&_). split; [done|].
  destruct (planCommit _ _) as [plan|]; [|done]. exists plan.
  destruct (writeTransaction _ _ _ _ _) as [[a|e] db1] eqn:Hw.
  2: { apply commitFailed_replay in H. congruence. }
  injection H as -> ->. pose proof Hw as Hw'.
  apply writeTransaction_inv in Hw' as [[[? ?] _]|(a&db1&Hb&[(_&Hra&->)|(_&?&_)])]; [done| |done]. injection Hra as <-.
  apply commitAttemptBody_inv in Hb as [(_&row&turn&operation&_&_&_&Hrep)|(k&Hk)]; [|eauto].
  apply replayOperation_inv in Hrep as [? _]. congruence.
Qed.

Lemma CommitAttempt_step cfg env command t t' db res db' :
  CommitAttempt cfg env command db = (Ok res, db') → res.(cres_Replay) = false →
  t ≤ t' → clock_reading t' env.(cme_clock) → exec_step cfg (t, db) (t', db').
Proof.
  intros H Hr Ht Hck. destruct (CommitAttempt_new _ _ _ _ _ _ H Hr) as (Hv&plan&k&Hp&_&Hw).
  apply xs_kernel. by eapply xs_commit.
Qed.

(** ** An operation is committed once *)

Lemma lookupOperation_stays cfg s s' row :
  exec_run cfg s s' → NoDup (map operation_key s.2.(db_operations)) → row ∈ s.2.(db_operations) →
  lookupOperationTx s'.2 row.(or_TurnID) row.(or_OperationID) = Some row.
Proof.
  intros Hrun Hnd Hrow. apply run_operations in Hrun as [[rows Ho] Hnd']. specialize (Hnd' Hnd).
  destruct (lookupOperationTx _ _ _) as [x|] eqn:Hx.
  - apply select_one_elem in Hx as [Hin Hp]. unfold operation_is in Hp. bool_hyps. f_equal.
    eapply (NoDup_key_inj operation_key); [exact Hnd'|done|rewrite Ho; apply elem_of_app; by left|].
    unfold operation_key. congruence.
  - apply lookupOperationTx_None in Hx. destruct Hx. apply elem_of_map. exists row. split; [done|].
    rewrite Ho. apply elem_of_app. by left.
Qed.

(** With its receipt in the tables, a commit writes nothing. *)
Lemma receipt_blocks_commit cfg env command db r db' row :
  (∀ n x, env.(cme_between) n x = x) →
  lookupOperationTx db command.(commit_Fence).(fence_TurnID) command.(commit_OperationID) = Some row →
  CommitAttempt cfg env command db = (r, db') →
  db' = db ∧ ∀ res, r = Ok res → res.(cres_Replay) = true ∧ res.(cres_OperationDigest) = row.(or_OperationDigest).
Proof.
  intros Hquiet Hop. unfold CommitAttempt. intros H. destruct (first_error _); [by simplify_eq|].
  destruct (planCommit _ _) as [plan|] eqn:Hp; [|by simplify_eq].
  destruct (plan_command_inv _ _ _ Hp) as (_&Hf&Ho). rewrite <- Hf, <- Ho in Hop.
  destruct (writeTransaction _ _ _ _ _) as [[a|e] db1] eqn:Hw.
  - injection H as <- <-.
    apply writeTransaction_inv in Hw as [[[? ?] _]|(b&db2&Hb&[(_&Hra&->)|(_&?&_)])]; [done| |done]. injection Hra as <-.
    apply commitAttemptBody_inv in Hb as [(->&tr&turn&operation&_&_&Hl&Hrep)|(k&Hk)].
    + split; [done|]. intros res [= <-]. apply replayOperation_inv in Hrep as (?&->&_). by simplify_eq.
    + pose proof (cm_new _ _ _ _ _ _ _ Hk). congruence.
  - assert (db1 = db) as ->.
    { apply writeTransaction_inv in Hw as [[_ ->]|(b&db2&Hb&[(_&?&_)|(_&_&->)])]; [done|done|].
      apply commitAttemptBody_inv in Hb as [(->&_)|(k&Hk)]; [done|].
      pose proof (cm_new _ _ _ _ _ _ _ Hk). congruence. }
    unfold commitFailed in H. cbv zeta in H. rewrite !Hquiet in H.
    destruct (cme_ctx env 3%nat); [by simplify_eq|].
    unfold resolveOperation in H. cbv zeta in H. fold (plan_command plan) in H. rewrite Hop in H.
    destruct (lockTurn _ _) as [tr|]; [|by simplify_eq]. destruct (toTurn tr) as [turn|]; [|by simplify_eq].
    destruct (replayOperation _ _ _ _ _ _) as [x|] eqn:Hrep; simplify_eq; [|done].
    split; [done|]. intros res [= <-]. by apply replayOperation_inv in Hrep as (?&?&_).
Qed.

(** C1: an operation is committed exactly once.  After a CommitAttempt wrote the
    operation of a Turn, and whatever the store did since, another CommitAttempt
    of the same operation changes no table, whatever its digest, fence, clock
    and transaction outcome, and when it answers it replays the first receipt. *)
Theorem commit_exactly_once cfg env command (t t1 t2 : time) db res db1 db2 env' command' r db3 :
  exec_reachable cfg (t, db) → CommitAttempt cfg env command db = (Ok res, db1) →
  res.(cres_Replay) = false → exec_run cfg (t1, db1) (t2, db2) →
  command'.(commit_Fence).(fence_TurnID) = command.(commit_Fence).(fence_TurnID) →
  command'.(commit_OperationID) = command.(commit_OperationID) →
  (∀ n x, env'.(cme_between) n x = x) →
  CommitAttempt cfg env' command' db2 = (r, db3) →
  db3 = db2 ∧ ∀ res', r = Ok res' →
    res'.(cres_Replay) = true ∧ res'.(cres_OperationDigest) = res.(cres_OperationDigest).
Proof.
  intros Hreach H Hrep Hrun Hturn Hop Hquiet H'.
  destruct (CommitAttempt_new _ _ _ _ _ _ H Hrep) as (_&plan&k&Hp&Hw&_).
  destruct (plan_command_inv _ _ _ Hp) as (_&Hf&Ho).
  destruct (commit_operation_key _ _ _ _ _ _ _ Hw) as (row&Hops&Hk&Hd&_).
  apply exec_reachable_operations in Hreach. simpl in Hreach.
  assert (Hnd : NoDup (map operation_key db1.(db_operations))).
  { rewrite Hops, map_app. apply NoDup_snoc; [done|]. rewrite Hk.
    apply lookupOperationTx_None, Hw. }
  assert (Hl : lookupOperationTx db2 row.(or_TurnID) row.(or_OperationID) = Some row).
  { apply (lookupOperation_stays _ _ _ _ Hrun Hnd). simpl. rewrite Hops. apply elem_of_app. right. by left. }
  injection Hk as Hk1 Hk2. rewrite Hk1, Hk2, Hf, Ho, <- Hturn, <- Hop in Hl.
  destruct (receipt_blocks_commit _ _ _ _ _ _ _ Hquiet Hl H') as [-> Hres]. split; [done|].
  intros res' Hr. destruct (Hres res' Hr) as [? ->]. split; [done|].
  destruct (cm_result _ _ _ _ _ _ _ Hw) as (_&_&->&_). done.
Qed.

Lemma commit_exactly_once_witness :
  match CommitAttempt execConfig (commitEnvAt 200 TxReported) completeCommand retiredTwo with
  | (r, db3) => db3 = retiredTwo ∧ ∀ res', r = Ok res' → res'.(cres_Replay) = true
  end.
Proof.
  destruct (CommitAttempt execConfig (commitEnvAt 200 TxReported) completeCommand retiredTwo) as [r db3] eqn:E.
  destruct (commit_exactly_once execConfig (commitEnvAt 10 TxReported) completeCommand (execAt 5) (execAt 10)
    (execAt 10) emitted completedResult completed retiredTwo (commitEnvAt 200 TxReported) completeCommand r db3)
    as [-> H].
  - apply emitted_reachable.
  - vm_compute. reflexivity.
  - reflexivity.
  - apply rtc_once, retireTwo_step.
  - reflexivity.
  - reflexivity.
  - reflexivity.
  - exact E.
  - split; [reflexivity|]. intros res' Hr. exact (proj1 (H res' Hr)).
Defined.

(** C3: only the live epoch commits.  A CommitAttempt that writes holds the
    Turn's current fence: the Turn is not finished and points to the Attempt of
    the command in the epoch of the command, that Attempt is running for this
    worker, its lease has not lapsed at the database time of the call, and a
    cancelled Turn only accepts stopping. *)
Theorem commit_live_epoch cfg env command (t t' : time) db res db' :
  exec_reachable cfg (t, db) → CommitAttempt cfg env command db = (Ok res, db') →
  res.(cres_Replay) = false → clock_reading t' env.(cme_clock) →
  ∃ r a now, r ∈ db.(db_turns) ∧ a ∈ db.(db_attempts) ∧ canonicalExecutionTime t' = Ok now
    ∧ r.(tr_TurnID) = command.(commit_Fence).(fence_TurnID)
    ∧ TurnStatus_Terminal r.(tr_Status) = false
    ∧ r.(tr_ActiveAttemptID) = Some command.(commit_Fence).(fence_AttemptID)
    ∧ u64 r.(tr_FencingToken) = command.(commit_Fence).(fence_FencingToken)
    ∧ a.(ar_TurnID) = r.(tr_TurnID) ∧ a.(ar_AttemptID) = command.(commit_Fence).(fence_AttemptID)
    ∧ a.(ar_FencingToken) = r.(tr_FencingToken) ∧ a.(ar_Status) = AttemptStatusRunning
    ∧ a.(ar_WorkerID) = command.(commit_Fence).(fence_WorkerID)
    ∧ now < a.(ar_LeaseExpiresAt)
    ∧ (r.(tr_CancelRequestedAt) = None ∨ command.(commit_TerminalStatus) = TurnStatusStopped).
Proof.
  intros Hreach H Hrep Hck. pose proof (exec_reachable_ok _ _ Hreach) as Hok. simpl in Hok.
  destruct (CommitAttempt_new _ _ _ _ _ _ H Hrep) as (_&plan&k&Hp&Hw&_).
  destruct (plan_command_inv _ _ _ Hp) as (Hs&Hf&_).
  destruct (commit_owner _ _ _ _ _ _ _ Hok Hw) as (Ha&Hatt&Hat&Har&Hact&Htok&Hlive&Hm).
  destruct (cm_turn _ _ _ _ _ _ _ Hw) as (Hrow&Hid&Hturn). unfold turn_is in Hid.
  apply toTurn_inv in Hturn as (_&_&Hcan&_). apply toAttempt_inv in Hatt as (E1&E2&E3&E4&E5&_&E7&_).
  pose proof (cm_now _ _ _ _ _ _ _ Hw) as Hn. unfold commitNow, After in Hn. rewrite Hs in Hn.
  destruct (executionNow (cme_clock env)) as [now|] eqn:Hnow; [|done].
  destruct (now <? _) eqn:Hlease; [|done]. destruct (negb _) in Hn; [|done].
  destruct (negb _) eqn:Hc in Hn; [|done]. rewrite Hf in *. unfold attemptMatchesFence in Hm. bool_hyps.
  exists (ctr_row k), (ctr_attemptRow k), now. apply (executionNow_reading t') in Hnow; [|done].
  apply andb_false_iff in Hc. split_and!; try done; try congruence; try lia.
  destruct Hc as [Hc|Hc]; bool_hyps; [left|by right]. rewrite <- Hcan. destruct (turn_CancelRequestedAt _); [|done].
  destruct Hc. eauto.
Qed.

Lemma commit_live_epoch_witness :
  ∃ r, r ∈ emitted.(db_turns) ∧ r.(tr_ActiveAttemptID) = Some "attempt-1" ∧ u64 r.(tr_FencingToken) = 1.
Proof.
  destruct (commit_live_epoch execConfig (commitEnvAt 10 TxReported) completeCommand (execAt 5) (execAt 10)
    emitted completedResult completed) as (r&a&now&Hr&_&_&_&_&Hact&Htok&_).
  - apply emitted_reachable.
  - vm_compute. reflexivity.
  - reflexivity.
  - by left.
  - exists r. auto.
Defined.

(** A fence that was left behind never writes again.  Once the Turn is in a
    later epoch than the command's or is finished, no CommitAttempt of that
    epoch writes, whatever the store does in between. *)
Theorem commit_stale_epoch_fenced cfg env command (t t2 t' : time) db db2 res db' r :
  exec_reachable cfg (t, db) → r ∈ db.(db_turns) →
  r.(tr_TurnID) = command.(commit_Fence).(fence_TurnID) →
  command.(commit_Fence).(fence_FencingToken) < r.(tr_FencingToken) ∨ TurnStatus_Terminal r.(tr_Status) = true →
  exec_run cfg (t, db) (t2, db2) → clock_reading t' env.(cme_clock) →
  CommitAttempt cfg env command db2 = (Ok res, db') → res.(cres_Replay) = true.
Proof.
  intros Hreach Hr Hid Hstale Hrun Hck H. destruct (cres_Replay res) eqn:Hrep; [done|exfalso].
  pose proof (exec_reachable_ok _ _ Hreach) as Hok. simpl in Hok.
  assert (exec_reachable cfg (t2, db2)) as Hreach2.
  { destruct Hreach as (t0&db0&Hfresh&Hrun0). exists t0, db0. split; [done|]. by etrans. }
  pose proof (exec_reachable_ok _ _ Hreach2) as Hok2. simpl in Hok2.
  destruct (exec_run_turn cfg (t, db) (t2, db2) r Hok Hrun Hr) as (_&r2&Hr2&Hid2&Hle&Hterm). simpl in *.
  destruct (CommitAttempt_new _ _ _ _ _ _ H Hrep) as (_&plan&k&Hp&Hw&_).
  destruct (plan_command_inv _ _ _ Hp) as (_&Hf&_).
  destruct (commit_owner _ _ _ _ _ _ _ Hok2 Hw) as (Ha&Hatt&Hat&Har&Hact&Htok&Hlive&Hm).
  destruct (cm_turn _ _ _ _ _ _ _ Hw) as (Hrow&Hidk&_). unfold turn_is in Hidk.
  apply toAttempt_inv in Hatt as (_&_&E3&_). rewrite Hf in *. unfold attemptMatchesFence in Hm. bool_hyps.
  assert (r2 = ctr_row k) as -> by (eapply (NoDup_key_inj tr_TurnID); [apply Hok2|done..|congruence]).
  destruct Hstale as [Hlt|Ht].
  - destruct (xo_turn _ Hok2 _ Hrow) as (Hrng&_).
    assert (u64 (ar_FencingToken (ctr_attemptRow k)) = tr_FencingToken (ctr_row k)).
    { rewrite Htok. unfold u64. apply Z.mod_small. assert (MaxDurableSequence = 2 ^ 63 - 1) by reflexivity. lia. }
    lia.
  - destruct (Hterm Ht) as (E&_). rewrite E in Hlive. congruence.
Qed.

Lemma commit_stale_epoch_fenced_witness :
  ∃ res, fst (CommitAttempt execConfig (commitEnvAt 200 TxReported) completeCommand retiredTwo) = Ok res
         ∧ res.(cres_Replay) = true.
Proof.
  destruct (CommitAttempt execConfig (commitEnvAt 200 TxReported) completeCommand retiredTwo) as [answer db'] eqn:E.
  destruct answer as [res|]; [|vm_compute in E; discriminate E]. exists res. split; [reflexivity|].
  pose (r := ltac:(first_row (db_turns completed)) : sqlTurnRow).
  apply (commit_stale_epoch_fenced execConfig (commitEnvAt 200 TxReported) completeCommand (execAt 10) (execAt 10)
    (execAt 200) completed retiredTwo res db' r).
  - apply completed_reachable.
  - left.
  - reflexivity.
  - right. reflexivity.
  - apply rtc_once, retireTwo_step.
  - by left.
  - exact E.
Defined.
