(* ===== verification/SettlementTheorems.v ===== *)
(** * What settling and retiring promise

    A Turn has at most one commercial outcome, written with its terminal state;
    nothing is released while its usage is unknown; a Review holds every effect;
    the reconciler only retires Turns without a live executor. *)

From S2P Require Import Prelude GoText GoJson AgentContract TurnTypes MemoryStore TurnService ExecutionTypes Settlement SqlDatabase SqlFacts SqlStore SqlExecution EffectOutbox SettlementAuthority SettlementTables CommitCommand SqlCommit Reconcile EpochFacts SqlCommitFacts SqlExecutionFacts ExecutionFixtures SqlExecutionTheorems SqlStoreFacts CommitFixtures SqlLedgerFacts SqlCommitTheorems.

(** ** Commercial outcomes *)

(** C4: a Turn has at most one commercial outcome, and only once it is
    finished.  In every reachable store the ledger settles or holds each Turn at
    most once, and every Turn it names is in a terminal state. *)
Theorem turn_outcome_at_most_once cfg t db :
  exec_reachable cfg (t, db) →
  NoDup (outcome_turns db)
  ∧ ∀ id, id ∈ outcome_turns db →
      ∃ r, r ∈ db.(db_turns) ∧ r.(tr_TurnID) = id ∧ TurnStatus_Terminal r.(tr_Status) = true.
Proof. intros H. exact (exec_reachable_ledger _ _ H). Qed.

Lemma turn_outcome_at_most_once_witness :
  exec_reachable execConfig (execAt 10, retiredTwo) ∧ outcome_turns retiredTwo = ["turn_1"; "turn_2"]
  ∧ NoDup (outcome_turns retiredTwo).
Proof.
  split; [apply retiredTwo_reachable|]. split; [reflexivity|].
  apply (turn_outcome_at_most_once execConfig (execAt 10) retiredTwo). apply retiredTwo_reachable.
Defined.

(** With an authority, a terminal write has an outcome. *)
Lemma terminal_outcome_exists s turn c pending openedAt outcome :
  terminal_outcome s turn c pending openedAt outcome → is_Some (s 5%nat).(ss_settlement) →
  is_Some outcome.
Proof. unfold terminal_outcome. destruct pending; [intros ->; eauto|]. intros [[E _]|[_ ->]]; [rewrite E; by intros []|eauto]. Qed.

Lemma outcome_turns_exact st e st' outcome :
  outcome_write st (Some e) st' → outcome = Some e → is_Some (entry_turn e).
Proof. intros H _. inversion H; subst; simpl; eauto. Qed.

Lemma outcome_count db db' id :
  outcome_turns db' = outcome_turns db ++ [id] → NoDup (outcome_turns db') → id ∉ outcome_turns db.
Proof. intros E H. rewrite E in H. apply NoDup_app in H as (_&Hd&_). intros Hin. apply (Hd id Hin). by left. Qed.

(** C26: the terminal commit.  A CommitAttempt that finishes a Turn under an
    installed authority writes, in one transaction, the terminal status and the
    end of its Attempt, one more event, one receipt, and the only commercial
    outcome the Turn ever gets: it had none before. *)
Theorem commit_terminal_outcome cfg env command (t t' : time) db res db' :
  exec_reachable cfg (t, db) → t ≤ t' → clock_reading t' env.(cme_clock) →
  CommitAttempt cfg env command db = (Ok res, db') → res.(cres_Replay) = false →
  command.(commit_TerminalStatus) ≠ "" → is_Some (env.(cme_settlement) 5%nat).(ss_settlement) →
  let id := command.(commit_Fence).(fence_TurnID) in
  (∃ r, r ∈ db'.(db_turns) ∧ r.(tr_TurnID) = id ∧ r.(tr_Status) = command.(commit_TerminalStatus)
        ∧ r.(tr_ActiveAttemptID) = None ∧ is_Some r.(tr_FinishedAt))
  ∧ (∀ a, a ∈ db'.(db_attempts) → a.(ar_TurnID) = id → a.(ar_Status) ≠ AttemptStatusRunning)
  ∧ length db'.(db_events) = S (length db.(db_events))
  ∧ length db'.(db_operations) = S (length db.(db_operations))
  ∧ outcome_turns db' = outcome_turns db ++ [id] ∧ id ∉ outcome_turns db.
Proof.
  intros Hreach Hle Hck H Hrep Hterm Hauth id. pose proof (exec_reachable_ok _ _ Hreach) as Hok. simpl in Hok.
  assert (exec_reachable cfg (t', db')) as Hreach'.
  { eapply exec_reachable_step; [done|]. by eapply CommitAttempt_step. }
  destruct (CommitAttempt_new _ _ _ _ _ _ H Hrep) as (Hv&plan&k&Hp&Hw&_).
  pose proof (plan_ok_intro _ _ _ Hv Hp) as Hplan. destruct (plan_command_inv _ _ _ Hp) as (Hs&Hf&_).
  destruct (cm_turn _ _ _ _ _ _ _ Hw) as (Hrow&Hid&_). unfold turn_is in Hid. bool_hyps.
  assert (Hrid : tr_TurnID (ctr_row k) = id) by (unfold id; congruence).
  pose proof (commit_row _ _ _ _ _ _ _ Hw) as Hr'. rewrite Hs in Hr'.
  assert (Hactive : tr_ActiveAttemptID (committedTurnColumns (commit_TerminalStatus command)
            (i64 (ev_Sequence (ctr_event k))) (ctr_now k) (ctr_row k)) = None).
  { simpl. by rewrite bool_decide_eq_false_2. }
  assert (Hout : outcome_turns db' = outcome_turns db ++ [id]).
  { destruct (commit_outcome_turns _ _ _ _ _ _ _ Hw) as [E|[_ E]]; [|by rewrite E, Hrid].
    destruct (cm_settlement _ _ _ _ _ _ _ Hw) as [Hwr Ho]. rewrite Hs, bool_decide_eq_false_2 in Ho by done.
    destruct (terminal_outcome_exists _ _ _ _ _ _ Ho Hauth) as [e He]. pose proof Hwr as Hwr'.
    rewrite He in Hwr'. destruct (outcome_turns_exact _ _ _ _ Hwr' eq_refl) as [tid Htid].
    apply outcome_write_turns in Hwr. rewrite He in Hwr. simpl in Hwr. rewrite Htid, E in Hwr.
    apply (f_equal length) in Hwr. rewrite length_app in Hwr. simpl in Hwr. lia. }
  split_and!.
  - eexists. split; [exact Hr'|]. simpl. rewrite bool_decide_eq_false_2 by done. eauto.
  - intros a Ha Hat Hrun. pose proof (exec_reachable_ok _ _ Hreach') as Hok'.
    destruct (xo_attempt _ Hok' a Ha) as (_&r&Hr&Hra&_&Hown). destruct (Hown Hrun) as [E _].
    assert (r = committedTurnColumns (commit_TerminalStatus command) (i64 (ev_Sequence (ctr_event k))) (ctr_now k)
                  (ctr_row k)) as -> by (eapply (NoDup_key_inj tr_TurnID); [apply Hok'|done..|simpl; congruence]).
    congruence.
  - rewrite (cm_events _ _ _ _ _ _ _ Hw), length_app. simpl. lia.
  - rewrite (cm_operations _ _ _ _ _ _ _ Hw), length_app. simpl. lia.
  - done.
  - eapply outcome_count; [done|]. apply (exec_reachable_ledger _ _ Hreach').
Qed.

Lemma commit_terminal_outcome_witness :
  outcome_turns completed = outcome_turns emitted ++ ["turn_1"] ∧ "turn_1" ∉ outcome_turns emitted.
Proof.
  destruct (commit_terminal_outcome execConfig (commitEnvAt 10 TxReported) completeCommand (execAt 5) (execAt 10)
    emitted completedResult completed) as (_&_&_&_&H1&H2).
  - apply emitted_reachable.
  - by apply execAt_le.
  - by left.
  - vm_compute. reflexivity.
  - reflexivity.
  - discriminate.
  - by eexists.
  - split; [exact H1|exact H2].
Defined.

(** ** Releases and Reviews *)

(** Nothing of the Turn is in the receipts or in the outbox. *)
Definition no_durable_work (db : Database) (turnID : TurnID) : Prop :=
  (∀ o, o ∈ db.(db_operations) → o.(or_TurnID) ≠ turnID) ∧ (∀ e, e ∈ db.(db_effects) → e.(fx_TurnID) ≠ turnID).

Lemma count_rows_zero {A} (p : A → bool) rows : ¬ 0 < count_rows p rows → ∀ x, x ∈ rows → p x = false.
Proof.
  unfold count_rows. intros H x Hx. destruct (p x) eqn:E; [|done]. destruct H.
  assert (x ∈ List.filter p rows) as Hin by (apply list_elem_of_In, filter_In; split; [by apply list_elem_of_In|done]).
  destruct (List.filter p rows); [by apply elem_of_nil in Hin|simpl; lia].
Qed.

Lemma unambiguous_release db turnID n e :
  inspectAmbiguousRelease db turnID n = Ok e → ambiguous e = false → no_durable_work db turnID ∧ n ≤ 0.
Proof.
  unfold inspectAmbiguousRelease, ambiguous. intros H Ha. destruct (negb _); [|done]. simplify_eq/=.
  apply orb_false_iff in Ha as [Ha H3]. apply orb_false_iff in Ha as [H1 H2].
  apply Z.ltb_ge in H1, H2, H3. split; [|lia]. split.
  - intros o Ho E. assert (¬ 0 < count_rows (fun r => bool_decide (or_TurnID r = turnID)) (db_operations db)) as Hc by lia.
    pose proof (count_rows_zero _ _ Hc o Ho) as Hf. simpl in Hf. by rewrite bool_decide_eq_true_2 in Hf.
  - intros x Hx E. assert (¬ 0 < count_rows (fun r => bool_decide (fx_TurnID r = turnID)) (db_effects db)) as Hc by lia.
    pose proof (count_rows_zero _ _ Hc x Hx) as Hf. simpl in Hf. by rewrite bool_decide_eq_true_2 in Hf.
Qed.

(** A normalized terminal command carries a settled intent. *)
Definition settlement_resolved (n : CommitAttemptCommand) : Prop :=
  n.(commit_TerminalStatus) = "" ∨
  ∃ request, n.(commit_Settlement) = Some request ∧ SettlementIntent_Valid request.(sreq_Intent) = true.

Lemma resolve_valid r status : SettlementIntent_Valid (SettlementRequest_resolve r status) = true.
Proof.
  unfold SettlementRequest_resolve, DefaultSettlementIntent.
  destruct (SettlementIntent_Valid (sreq_Intent r)) eqn:E; [done|]. by case_bool_decide.
Qed.

Lemma normalized_resolved command terminalization version n :
  normalizeCommitCommandWithVersion command terminalization version = Ok n → settlement_resolved (fst n).
Proof.
  unfold normalizeCommitCommandWithVersion. intros H. destruct (version_admits _ _ _); [|done].
  destruct (normalizeEffects _); [|done]. injection H as <-. unfold settlement_resolved. simpl.
  case_bool_decide; [by left|right]. eexists. split; [done|]. apply resolve_valid.
Qed.

Lemma plan_resolved s command plan :
  planCommit s command = Ok plan → plan.(plan_mode) = operationTerminalizationLegacy →
  settlement_resolved (plan_command plan).
Proof.
  unfold planCommit. intros H Hm. destruct (normalizeCommitCommand command) as [v2|] eqn:H2; [|done].
  apply normalized_resolved in H2. cbv zeta in H.
  destruct (bool_decide _); [by injection H as <-|].
  destruct (providerUsageTerminalization _ _) as [[t|]|]; [| |done].
  - unfold planProviderCommit in H. cbv zeta in H. break_in H; by injection H as <-.
  - destruct (negb _); [by injection H as <-|].
    destruct (completedUsageTerminalization _) as [[t|]|]; [| |done]; [|by injection H as <-].
    break_in H. by injection H as <-.
Qed.

Lemma plan_effects s command plan :
  planCommit s command = Ok plan → length (plan_command plan).(commit_Effects) = length command.(commit_Effects).
Proof.
  assert (∀ l l', normalizeEffects l = Ok l' → length l' = length l) as Hn.
  { induction l as [|d l IH]; simpl; intros l' H; [by injection H as <-|]. break_in H. injection H as <-.
    simpl. f_equal. auto. }
  assert (∀ c t v n, normalizeCommitCommandWithVersion c t v = Ok n →
            length (fst n).(commit_Effects) = length c.(commit_Effects)) as Hv.
  { unfold normalizeCommitCommandWithVersion. intros c t v n H. destruct (version_admits _ _ _); [|done].
    destruct (normalizeEffects _) eqn:E; [|done]. injection H as <-. simpl. auto. }
  unfold planCommit. intros H. destruct (normalizeCommitCommand command) as [v2|] eqn:H2; [|done].
  apply Hv in H2. cbv zeta in H. destruct (bool_decide _); [by injection H as <-|].
  destruct (providerUsageTerminalization _ _) as [[t|]|]; [| |done].
  - unfold planProviderCommit in H. destruct (normalizeProviderUsageCommitCommand _ _) as [v4|] eqn:H4; [|done].
    assert (length (fst v4).(commit_Effects) = length command.(commit_Effects)) as E4.
    { unfold normalizeProviderUsageCommitCommand in H4. break_in H4. by apply Hv in H4. }
    cbv zeta in H. break_in H; by injection H as <-.
  - destruct (negb _); [by injection H as <-|].
    destruct (completedUsageTerminalization _) as [[t|]|]; [| |done]; [|by injection H as <-].
    destruct (normalizeCompletedUsageCommitCommand _ _) as [v3|] eqn:H3; [|done]. injection H as <-. simpl.
    unfold normalizeCompletedUsageCommitCommand in H3. break_in H3. by apply Hv in H3.
Qed.

(** C23: nothing is released blindly.  When a terminal commit settles its Turn
    with a release, under a settlement state that does not change during the
    call, then neither an earlier operation nor this one left durable work: the
    Turn has no receipt and no effect in the tables, and the command has none. *)
Theorem commit_no_blind_release cfg env command db res db' c :
  CommitAttempt cfg env command db = (Ok res, db') → res.(cres_Replay) = false →
  (∀ i, env.(cme_settlement) i = env.(cme_settlement) 0%nat) →
  db'.(db_settlement).(st_ledger) = db.(db_settlement).(st_ledger) ++ [Settled c] →
  c.(sc_Intent) = SettlementIntentRelease →
  no_durable_work db command.(commit_Fence).(fence_TurnID) ∧ command.(commit_Effects) = [].
Proof.
  intros H Hrep Hstable Hledger Hrel. destruct (CommitAttempt_new _ _ _ _ _ _ H Hrep) as (_&plan&k&Hp&Hw&_).
  destruct (plan_command_inv _ _ _ Hp) as (Hs&Hf&_). pose proof (plan_effects _ _ _ Hp) as Hlen.
  destruct (cm_settlement _ _ _ _ _ _ _ Hw) as [Hwr Ho]. apply outcome_write_ledger in Hwr.
  rewrite Hledger in Hwr. apply app_inv_head in Hwr.
  case_bool_decide as E; [rewrite Ho in Hwr; done|].
  pose proof (cm_next _ _ _ _ _ _ _ Hw) as Hn. apply commitNext_inv in Hn as [(?&_)|(_&Hnext&_&Hrev&_)]; [done|].
  unfold terminal_outcome in Ho. destruct (ctr_pending k) as [r|]; [rewrite Ho in Hwr; done|].
  destruct Ho as [[_ Ho]|[(a & db0 & Ha & _) Ho]]; rewrite Ho in Hwr; [done|]. injection Hwr as Hc.
  pose proof (cm_review _ _ _ _ _ _ _ Hw) as Hr. unfold commitReviewRecord in Hrev.
  destruct (ctr_review k) as [[e source]|]; [by break_in Hrev|]. unfold commitReviewEvidence in Hr. cbv zeta in Hr.
  destruct (plan_mode plan) eqn:Hmode; [|by break_in Hr..].
  destruct (plan_resolved _ _ _ Hp Hmode) as [?|(request&Hreq&Hvalid)]; [done|].
  assert (Hrelease : command_releases (plan_command plan) = true).
  { unfold command_releases. rewrite bool_decide_eq_false_2 by done. simpl. rewrite Hreq. simpl.
    rewrite Hc in Hrel. simpl in Hrel. unfold resolvedSettlement, SettlementRequest_resolve in Hrel. rewrite Hreq in Hrel.
    simpl in Hrel. rewrite Hvalid in Hrel. by apply bool_decide_eq_true_2. }
  assert (Hhas : hasSettlementAuthority (cme_settlement env 3%nat) = true).
  { unfold hasSettlementAuthority. apply bool_decide_eq_true_2. rewrite Hstable, <- (Hstable 5%nat), Ha. eauto. }
  rewrite Hhas, Hrelease in Hr. simpl in Hr.
  destruct (inspectAmbiguousRelease _ _ _) as [e|] eqn:Hi; [|done].
  destruct (ambiguous e) eqn:Hamb; [by break_in Hr|].
  destruct (unambiguous_release _ _ _ _ Hi Hamb) as [Hno Hle].
  destruct (cm_turn _ _ _ _ _ _ _ Hw) as (_&Hid&(Htid&_)%toTurn_inv). unfold turn_is in Hid. bool_hyps.
  rewrite Htid, Hid, Hf in Hno. split; [done|]. destruct (commit_Effects command); [done|]. simpl in *. lia.
Qed.

Definition releasedResult : CommitAttemptResult :=
  ltac:(claim_result (CommitAttempt execConfig (commitEnvAt 10 TxReported) failCommand cancelledTwo)).

Lemma commit_no_blind_release_witness : no_durable_work cancelledTwo "turn_1".
Proof.
  pose (c := ltac:(let x := eval vm_compute in (st_ledger (db_settlement failedReleased)) in
                   match x with [Settled ?c] => exact c end) : SettlementCommand).
  apply (commit_no_blind_release execConfig (commitEnvAt 10 TxReported) failCommand cancelledTwo releasedResult
    failedReleased c).
  - vm_compute. reflexivity.
  - reflexivity.
  - reflexivity.
  - reflexivity.
  - reflexivity.
Defined.

(** Holding rewrites exactly the effects of the Turn that could still go out. *)
Lemma held_effects effects rows turnID r now e :
  e ∈ committed_effects effects rows turnID (Some r) now → e.(fx_TurnID) = turnID →
  e.(fx_Status) ≠ EffectStatusPending ∧ e.(fx_Status) ≠ EffectStatusDelivering.
Proof.
  unfold committed_effects, update_rows. intros (x&->&Hx)%elem_of_map Hid. unfold effect_holdable in *.
  destruct (bool_decide (fx_TurnID x = turnID)) eqn:E1; [|simpl in Hid; by bool_hyps].
  destruct (bool_decide (fx_Status x ∈ _)) eqn:E2; [done|]. simpl. bool_hyps. set_solver.
Qed.

Lemma review_blocks_claim cfg clock turnID outboxID owner topics db a db' :
  (∃ row, row ∈ db.(db_settlement).(st_reviews) ∧ row.(row_record).(rv_TurnID) = turnID) →
  claimEffectBody cfg clock turnID outboxID owner topics db = Ok (a, db') → a = None ∧ db' = db.
Proof.
  intros (row&Hin&Hid). unfold claimEffectBody. intros H. destruct (lockTurn _ _); [|done].
  unfold lookupSettlementReviewTx in H. destruct (select_one _ _) as [row'|] eqn:Hs.
  - destruct (SettlementReviewRecord_Validate _); [done|]. cbv zeta in H. simpl in H.
    destruct (lockEffect _ _) as [x|[]]; try done; try (by simplify_eq). break_in H; by simplify_eq.
  - unfold select_one in Hs. rewrite find_None_iff, Forall_forall in Hs. specialize (Hs row Hin). simpl in Hs.
    by rewrite bool_decide_eq_true_2 in Hs.
Qed.

(** A Review holds every effect of its Turn.  When a commit opens a Review,
    the Turn is left without an effect that is pending or being delivered, the
    effects of other Turns are untouched, and no dispatcher can claim an effect
    of the Turn from the resulting tables. *)
Theorem review_holds_effects cfg env command db res db' hold :
  CommitAttempt cfg env command db = (Ok res, db') → res.(cres_Replay) = false →
  db'.(db_settlement).(st_ledger) = db.(db_settlement).(st_ledger) ++ [HeldForReview hold] →
  let id := command.(commit_Fence).(fence_TurnID) in
  (∀ e, e ∈ db'.(db_effects) → e.(fx_TurnID) = id →
        e.(fx_Status) ≠ EffectStatusPending ∧ e.(fx_Status) ≠ EffectStatusDelivering)
  ∧ (∀ e, e ∈ db.(db_effects) → e.(fx_TurnID) ≠ id → e ∈ db'.(db_effects))
  ∧ ∀ clock outboxID owner topics d db'',
      claimEffectBody cfg clock id outboxID owner topics db' ≠ Ok (Some d, db'').
Proof.
  intros H Hrep Hledger id. destruct (CommitAttempt_new _ _ _ _ _ _ H Hrep) as (_&plan&k&Hp&Hw&_).
  destruct (plan_command_inv _ _ _ Hp) as (_&Hf&_).
  destruct (cm_turn _ _ _ _ _ _ _ Hw) as (_&Hid&(Htid&_)%toTurn_inv). unfold turn_is in Hid. bool_hyps.
  assert (Hnid : turn_ID (ctr_next k) = id).
  { unfold id. rewrite (commitNext_id _ _ _ _ _ _ _ _ _ (cm_next _ _ _ _ _ _ _ Hw)). congruence. }
  destruct (cm_settlement _ _ _ _ _ _ _ Hw) as [Hwr Ho]. pose proof (outcome_write_ledger _ _ _ Hwr) as Hl.
  rewrite Hledger in Hl. apply app_inv_head in Hl.
  case_bool_decide as E; [rewrite Ho in Hl; done|]. pose proof (cm_effects _ _ _ _ _ _ _ Hw) as He.
  pose proof (cm_next _ _ _ _ _ _ _ Hw) as Hn. apply commitNext_inv in Hn as [(?&_)|(_&_&_&Hrev&_)]; [done|].
  unfold terminal_outcome in Ho. destruct (ctr_pending k) as [r|].
  2: { destruct Ho as [[_ Ho]|[_ Ho]]; rewrite Ho in Hl; done. }
  apply commitReview_turn in Hrev. rewrite He, Hnid. split_and!.
  - intros e. apply held_effects.
  - intros e Hin Hne. unfold committed_effects, update_rows. apply elem_of_map. exists e.
    split; [|apply elem_of_app; by left]. unfold effect_holdable. by rewrite bool_decide_eq_false_2.
  - intros clock outboxID owner topics d db'' Hc. apply review_blocks_claim in Hc as [? _]; [done|].
    rewrite Ho in Hwr. inversion Hwr as [| |rid h Hv1 Hv2 E1 E2]; subst. simpl.
    eexists. split; [apply elem_of_app; right; by left|]. simpl. by rewrite Hrev, Hnid.
Qed.

Definition heldResult : CommitAttemptResult :=
  ltac:(claim_result (CommitAttempt execConfig (commitEnvAt 10 TxReported) failCommand emitted)).

Lemma review_holds_effects_witness :
  length failedHeld.(db_effects) = 1%nat
  ∧ ∀ e, e ∈ failedHeld.(db_effects) → e.(fx_TurnID) = "turn_1" → e.(fx_Status) ≠ EffectStatusPending.
Proof.
  pose (h := ltac:(let x := eval vm_compute in (st_ledger (db_settlement failedHeld)) in
                   match x with [HeldForReview ?h] => exact h end) : SettlementReviewHoldCommand).
  destruct (review_holds_effects execConfig (commitEnvAt 10 TxReported) failCommand emitted heldResult failedHeld h)
    as (H&_&_).
  - vm_compute. reflexivity.
  - reflexivity.
  - reflexivity.
  - split; [reflexivity|]. intros e He Hid. exact (proj1 (H e He Hid)).
Defined.

(** ** The reconciler *)

Lemma ReconcileTerminal_changed cfg env command db res db' :
  ReconcileTerminal cfg env command db = (Ok res, db') → res.(rec_Changed) = true →
  ReconcileCommand_Validate command = None
  ∧ ∃ provider terminal k,
      ReclaimReason_TerminalStatus command.(rcmd_Reason) = Some terminal
      ∧ retire_write cfg provider env.(cme_settlement) env.(cme_clock) command terminal db res db' k
      ∧ writeTransaction cfg env.(cme_ctx) env.(cme_outcome)
          (reconcileTerminalBody cfg provider env.(cme_settlement) env.(cme_clock) env.(cme_reopened)
             command terminal) db = (Ok res, db').
Proof.
  unfold ReconcileTerminal. intros H Hc. destruct (first_error _) eqn:Hv in H; [done|].
  rewrite first_error_None, !Forall_cons in Hv. destruct Hv as (_&Hv&_). split; [done|].
  destruct (ReclaimReason_TerminalStatus _) as [terminal|]; [|done].
  destruct (providerUsageTerminalization _ _) as [p|]; [|done].
  destruct (writeTransaction _ _ _ _ _) as [[a|e] db1] eqn:Hw; [|done]. injection H as -> ->.
  pose proof Hw as Hw'.
  apply writeTransaction_inv in Hw' as [[[? ?] _]|(a&db1&Hb&[(_&Hra&->)|(_&?&_)])]; [done| |done]. injection Hra as <-.
  apply reconcileTerminalBody_inv in Hb as [(_&?&_)|(k&Hk)]; [congruence|eauto 10].
Qed.

(** The reconciler only retires Turns without a live executor.  A
    ReconcileTerminal that changes a Turn found it unfinished and either
    unclaimed or with an active Attempt whose lease had lapsed at the database
    time; it leaves the Turn terminal with the status its reason stands for and
    the next fence, without an active or running Attempt. *)
Theorem reconcile_retires_idle cfg env command (t t' : time) db res db' :
  exec_reachable cfg (t, db) → t ≤ t' → clock_reading t' env.(cme_clock) →
  ReconcileTerminal cfg env command db = (Ok res, db') → res.(rec_Changed) = true →
  ∃ r now, r ∈ db.(db_turns) ∧ r.(tr_TurnID) = command.(rcmd_TurnID)
    ∧ canonicalExecutionTime t' = Ok now ∧ TurnStatus_Terminal r.(tr_Status) = false
    ∧ (r.(tr_ActiveAttemptID) = None
       ∨ ∃ a, a ∈ db.(db_attempts) ∧ a.(ar_TurnID) = r.(tr_TurnID)
              ∧ r.(tr_ActiveAttemptID) = Some a.(ar_AttemptID) ∧ a.(ar_LeaseExpiresAt) ≤ now)
    ∧ (∃ r', r' ∈ db'.(db_turns) ∧ r'.(tr_TurnID) = command.(rcmd_TurnID)
             ∧ Some r'.(tr_Status) = ReclaimReason_TerminalStatus command.(rcmd_Reason)
             ∧ r'.(tr_FencingToken) = r.(tr_FencingToken) + 1 ∧ r'.(tr_ActiveAttemptID) = None)
    ∧ ∀ a, a ∈ db'.(db_attempts) → a.(ar_TurnID) = command.(rcmd_TurnID) → a.(ar_Status) ≠ AttemptStatusRunning.
Proof.
  intros Hreach Hle Hck H Hc. pose proof (exec_reachable_ok _ _ Hreach) as Hok. simpl in Hok.
  destruct (ReconcileTerminal_changed _ _ _ _ _ _ H Hc) as (Hv&provider&terminal&k&Hterm&Hw&Htx).
  assert (exec_reachable cfg (t', db')) as Hreach'.
  { eapply exec_reachable_step; [done|]. apply xs_kernel. by eapply xs_reconcile. }
  pose proof (exec_reachable_ok _ _ Hreach') as Hok'. simpl in Hok'.
  destruct (rw_turn _ _ _ _ _ _ _ _ _ _ Hw) as (Hrow&Hid&Hturn&Hlive). unfold turn_is in Hid. bool_hyps.
  apply toTurn_inv in Hturn as (_&Hst&_). rewrite Hst in Hlive.
  destruct (reconcileGuards_inv _ _ _ _ _ _ _ _ _ _ (rw_guards _ _ _ _ _ _ _ _ _ _ Hw)) as (He&Hor&_).
  destruct (xo_turn _ Hok _ Hrow) as (Hrng&_).
  destruct (nextExecutionFence_inv _ _ (proj2 Hrng) (rw_fence _ _ _ _ _ _ _ _ _ _ Hw)) as (_&Hfence&_).
  pose proof (retire_row _ _ _ _ _ _ _ _ _ _ Hw) as Hr'.
  exists (rtr_row k), (rtr_now k). split_and!; try done.
  - eapply executionNow_reading; [done|apply Hw].
  - destruct Hor as [|[e Hexp]]; [by left|right]. rewrite Hexp in He.
    apply expiredActiveAttempt_inv in He as (?&?&?&_&_&?). eauto 10.
  - eexists. split; [exact Hr'|]. simpl. rewrite Hterm. done.
  - intros a Ha Hat Hrun. destruct (xo_attempt _ Hok' a Ha) as (_&r&Hr&Hra&_&Hown). destruct (Hown Hrun) as [E _].
    assert (r = retiredColumns terminal (rtr_fence k) (i64 (rtr_sequence k)) (rtr_now k) (rtr_row k)) as ->
      by (eapply (NoDup_key_inj tr_TurnID); [apply Hok'|done..|simpl; congruence]).
    done.
Qed.

Lemma reconcile_retires_idle_witness :
  ∃ r', r' ∈ retiredTwo.(db_turns) ∧ r'.(tr_TurnID) = "turn_2" ∧ Some r'.(tr_Status) = Some TurnStatusStopped.
Proof.
  destruct (reconcile_retires_idle execConfig (commitEnvAt 10 TxReported) reconcileCommand (execAt 10) (execAt 10)
    completed retiredResult retiredTwo) as (r&now&_&_&_&_&_&(r'&H1&H2&H3&_)&_).
  - apply completed_reachable.
  - by apply execAt_le.
  - by left.
  - vm_compute. reflexivity.
  - reflexivity.
  - exists r'. split; [exact H1|]. split; [exact H2|exact H3].
Defined.

(** A retirement is not a blind release either.  When a retirement settles
    its Turn instead of opening a Review, under a settlement state that does not
    change during the call, the Turn has no receipt and no effect in the
    tables, and what it settles is a release of nothing used. *)
Theorem reconcile_no_blind_release cfg env command db res db' c :
  ReconcileTerminal cfg env command db = (Ok res, db') → res.(rec_Changed) = true →
  (∀ i, env.(cme_settlement) i = env.(cme_settlement) 0%nat) →
  db'.(db_settlement).(st_ledger) = db.(db_settlement).(st_ledger) ++ [Settled c] →
  no_durable_work db command.(rcmd_TurnID) ∧ c.(sc_TurnID) = command.(rcmd_TurnID)
  ∧ c.(sc_Intent) = SettlementIntentRelease ∧ c.(sc_UsedUnits) = 0.
Proof.
  intros H Hc Hstable Hledger.
  destruct (ReconcileTerminal_changed _ _ _ _ _ _ H Hc) as (_&provider&terminal&k&Hterm&Hw&_).
  destruct (rw_turn _ _ _ _ _ _ _ _ _ _ Hw) as (_&Hid&(Htid&_)%toTurn_inv&_). unfold turn_is in Hid. bool_hyps.
  destruct (rw_settlement _ _ _ _ _ _ _ _ _ _ Hw) as [Hwr Ho]. apply outcome_write_ledger in Hwr.
  rewrite Hledger in Hwr. apply app_inv_head in Hwr. pose proof (rw_pending _ _ _ _ _ _ _ _ _ _ Hw) as Hp.
  unfold terminal_outcome in Ho. destruct (rtr_pending k) as [r|]; [rewrite Ho in Hwr; done|].
  destruct Ho as [[_ Ho]|[(a & db0 & Ha & _) Ho]]; rewrite Ho in Hwr; [done|]. injection Hwr as ->.
  split; [|split; [simpl; congruence|done]].
  pose proof (rw_evidence _ _ _ _ _ _ _ _ _ _ Hw) as He. unfold reconcileReview in Hp.
  destruct (rtr_evidence k) as [e|]; [by break_in Hp|]. unfold reconcileEvidence in He.
  destruct provider; [by break_in He|].
  assert (Hhas : hasSettlementAuthority (cme_settlement env 3%nat) = true).
  { unfold hasSettlementAuthority. apply bool_decide_eq_true_2. rewrite Hstable, <- (Hstable 5%nat), Ha. eauto. }
  rewrite Hhas in He. destruct (inspectAmbiguousRelease _ _ _) as [e|] eqn:Hi; [|done].
  destruct (ambiguous e) eqn:Hamb; [by break_in He|].
  destruct (unambiguous_release _ _ _ _ Hi Hamb) as [Hno _]. by rewrite Htid, Hid in Hno.
Qed.

Lemma reconcile_no_blind_release_witness : no_durable_work completed "turn_2".
Proof.
  pose (c := ltac:(let x := eval vm_compute in (st_ledger (db_settlement retiredTwo)) in
                   match x with [_; Settled ?c] => exact c end) : SettlementCommand).
  apply (reconcile_no_blind_release execConfig (commitEnvAt 10 TxReported) reconcileCommand completed retiredResult
    retiredTwo c).
  - vm_compute. reflexivity.
  - reflexivity.
  - reflexivity.
  - reflexivity.
Defined.
