(* ===== verification/SettlementResolutionTheorems.v ===== *)
(** * Reviews are metered and finalized once

    The theorems on the life of a Review: what ties it to its Turn and its
    receipts, how it moves, that its charge is what the meter measured, and that
    repeated calls replay. *)


From S2P Require Import Prelude GoText GoJson AgentContract TurnTypes MemoryStore MemoryStoreFacts Fixtures TurnService ExecutionTypes Settlement ProviderUsage SettlementUsage SqlDatabase SqlFacts SqlStore SqlExecution EffectOutbox SettlementAuthority SettlementTables SettlementResolution CommitCommand SqlCommit Reconcile EpochFacts SqlCommitFacts SqlExecutionFacts ExecutionFixtures SqlExecutionTheorems CommitFixtures SqlLedgerFacts ReviewWrites ReviewFacts.

(** ** The metered history as a run

    The three calls that follow a Review as steps of the settlement tables, and
    the concrete history of [CommitFixtures] as a run of them. *)

(** ** The calls as steps *)

Lemma resolutionTransaction_Ok {A} cfg env checks (body : Database → result (A * Database)) db r db' :
  resolutionTransaction cfg env checks body db = (Ok r, db') →
  writeTransaction cfg env.(rse_ctx) env.(rse_outcome) body db = (Ok r, db') ∧ body db = Ok (r, db').
Proof.
  unfold resolutionTransaction. destruct (first_error _); [done|].
  destruct (writeTransaction _ _ _ _ _) as [[a|e] db1] eqn:Hw; [|done]. intros [= -> ->]. split; [done|].
  by apply writeTransaction_inv in Hw as [[[? ?] _]|(a&db1&Hb&[(_&[= <-]&->)|(_&?&_)])].
Qed.

(** What any outcome of a call can leave behind. *)
Lemma resolutionTransaction_db {A} cfg env checks (body : Database → result (A * Database)) (P : Database → Prop)
    db r db' :
  resolutionTransaction cfg env checks body db = (r, db') → P db →
  (∀ a db1, body db = Ok (a, db1) → P db1) → P db'.
Proof.
  unfold resolutionTransaction. destruct (first_error _); [by intros [= <- <-]|].
  intros H HP Hb. destruct (writeTransaction _ _ _ _ _) as [[a|e] db1] eqn:Hw; injection H as <- <-;
    by eapply tx_step.
Qed.

Lemma Capture_step cfg env command (t t' : time) db r db' :
  CaptureSettlementReviewUsageEvidence cfg env command db = (Ok r, db') → t ≤ t' →
  clock_reading t' env.(rse_clock) → settlement_step cfg (t, db) (t', db').
Proof. intros [H _]%resolutionTransaction_Ok Ht Hck. by eapply ss_capture. Qed.

Lemma Resolve_step cfg env command (t t' : time) db r db' :
  ResolveSettlementReview cfg env command db = (Ok r, db') → t ≤ t' →
  clock_reading t' env.(rse_clock) → settlement_step cfg (t, db) (t', db').
Proof. intros [H _]%resolutionTransaction_Ok Ht Hck. by eapply ss_resolve. Qed.

(** ** The metered history as a run *)

Lemma cancelledTwo_settlement : settlement_reachable execConfig (execAt 3, cancelledTwo).
Proof.
  exists (execAt 0), emptyTables. split; [split; [done|by exists []]|].
  eapply rtc_l; [apply ss_kernel, admitOne_kernel|]. eapply rtc_l; [apply ss_kernel, admitTwo_kernel|].
  eapply rtc_l; [apply ss_kernel, claimOne_kernel|]. apply rtc_once, ss_kernel, cancelTwo_kernel.
Qed.

Lemma deployed_settlement : settlement_reachable execConfig (execAt 3, deployed).
Proof.
  eapply settlement_reachable_step; [apply cancelledTwo_settlement|].
  apply (ss_release _ (execAt 3) (execAt 3) cancelledTwo [mkStored 1 demoRelease]). done.
Qed.

Lemma record_step : settlement_step execConfig (execAt 3, deployed) (execAt 5, recorded).
Proof.
  eapply (ss_append _ background (Ok (execAt 5)) TxReported demoRecorder (receiptCommand someDigest));
    [by apply execAt_le|by left|vm_compute; reflexivity].
Qed.

Lemma recorded_settlement : settlement_reachable execConfig (execAt 5, recorded).
Proof. eapply settlement_reachable_step; [apply deployed_settlement|apply record_step]. Qed.

Definition boundPlan : commitPlan :=
  ltac:(let x := eval vm_compute in (planCommit (fun _ => providerBound) completeCommand) in
        match x with Ok ?p => exact p end).

Lemma open_step : settlement_step execConfig (execAt 5, recorded) (execAt 10, opened).
Proof.
  apply ss_kernel.
  eapply (xs_commit _ boundPlan (fun _ => providerBound) (Ok (execAt 10)) (Ok (execAt 10)) completeCommand
            background TxReported); [by apply execAt_le|by left|vm_compute; reflexivity..].
Qed.

Lemma opened_settlement : settlement_reachable execConfig (execAt 10, opened).
Proof. eapply settlement_reachable_step; [apply recorded_settlement|apply open_step]. Qed.

Lemma capture_call :
  CaptureSettlementReviewUsageEvidence execConfig (resolutionEnvAt providerBound 30 TxReported)
    (captureCommand openedReview) opened = (Ok meteredResult, metered).
Proof. vm_compute. reflexivity. Qed.

Lemma capture_step : settlement_step execConfig (execAt 10, opened) (execAt 30, metered).
Proof. eapply Capture_step; [apply capture_call|by apply execAt_le|by left]. Qed.

Lemma metered_settlement : settlement_reachable execConfig (execAt 30, metered).
Proof. eapply settlement_reachable_step; [apply opened_settlement|apply capture_step]. Qed.

Lemma resolve_call :
  ResolveSettlementReview execConfig (resolutionEnvAt providerBound 40 TxReported) resolveCommand metered
  = (Ok finalizedResult, finalized).
Proof. vm_compute. reflexivity. Qed.

Lemma resolve_step : settlement_step execConfig (execAt 30, metered) (execAt 40, finalized).
Proof. eapply Resolve_step; [apply resolve_call|by apply execAt_le|by left]. Qed.

Lemma finalized_settlement : settlement_reachable execConfig (execAt 40, finalized).
Proof. eapply settlement_reachable_step; [apply metered_settlement|apply resolve_step]. Qed.

(** ** Reviews are metered and finalized once

    The theorems on the life of a Review: what ties it to its Turn and its
    receipts, how it moves, that its charge is what the meter measured, and that
    repeated calls replay. *)

(** ** The life of a Review *)

(** C21: in every reachable state a Turn has at most one Review; each Review
    belongs to a finished Turn in the epoch it names; it is pending exactly when
    it has neither evidence nor resolution, metered exactly when it has evidence
    only, and finalized exactly when it has both. *)
Theorem review_lifecycle cfg (t : time) db :
  settlement_reachable cfg (t, db) →
  NoDup (map rv_TurnID (reviews db)) ∧ ∀ r, r ∈ reviews db → review_turn_over db r ∧ status_rows db r.
Proof. intros [_ []]%settlement_reachable_ok. split; [done|]. intros r Hr. auto. Qed.

Lemma review_lifecycle_witness :
  ∃ r, r ∈ reviews finalized ∧ r.(rv_Status) = SettlementReviewStatusFinalizedHeld ∧ status_rows finalized r.
Proof.
  eexists. split; [vm_compute; left|]. split; [reflexivity|].
  apply (review_lifecycle execConfig (execAt 40)); [apply finalized_settlement|vm_compute; left].
Defined.

(** Along every run a Review keeps its identity and its evidence of what was
    unsettled; its status only moves forward, from pending over metered to
    finalized; and the journal, the evidence with its links, the resolutions and
    the accepted charges only grow at their ends. *)
Theorem review_history_kept cfg (t t' : time) db db' :
  settlement_reachable cfg (t, db) → settlement_run cfg (t, db) (t', db') → review_history db db'.
Proof. apply reachable_history. Qed.

Lemma review_history_kept_witness : review_history recorded finalized ∧ reviews opened ≠ reviews finalized.
Proof.
  split; [|vm_compute; discriminate].
  apply (review_history_kept execConfig (execAt 5) (execAt 40)); [apply recorded_settlement|].
  eapply rtc_l; [apply open_step|]. eapply rtc_l; [apply capture_step|]. apply rtc_once, resolve_step.
Defined.

(** C22: pricing misses no receipt and counts none twice.  In every reachable
    state the links of an evidence name exactly the receipts the journal holds
    for its Turn, including those that arrived after the Review was opened and
    before it was priced; no receipt is linked by two evidences, or twice by
    one. *)
Theorem metering_complete cfg (t : time) db :
  settlement_reachable cfg (t, db) →
  NoDup (map src_ReceiptID (sources db))
  ∧ ∀ e, e ∈ evidences db →
      evidence_complete db e
      ∧ ∃ r, r ∈ reviews db ∧ r.(rv_ReviewID) = e.(ev_ReviewID) ∧ r.(rv_TurnID) = e.(ev_EvidenceTurnID).
Proof. intros [_ []]%settlement_reachable_ok. split; [done|]. intros e He. auto. Qed.

Lemma metering_complete_witness :
  length (sources metered) = 1%nat ∧ evidence_complete metered meteredResult.(capr_Evidence).
Proof.
  split; [vm_compute; reflexivity|].
  apply (metering_complete execConfig (execAt 30)); [apply metered_settlement|vm_compute; left].
Defined.

(** C25: the authority finalizes a Review at most once, and charges what its
    evidence measured: every accepted finalization belongs to a Review that is
    finalized, its units are those of the evidence of that Review, at least one
    and within the units the authority had reserved. *)
Theorem review_charged_once cfg (t : time) db :
  settlement_reachable cfg (t, db) →
  NoDup (map fst (resolved db))
  ∧ ∀ id units, (id, units) ∈ resolved db →
      ∃ r e s, r ∈ reviews db ∧ r.(rv_ReviewID) = id ∧ r.(rv_Status) = SettlementReviewStatusFinalizedHeld
        ∧ e ∈ evidences db ∧ e.(ev_ReviewID) = id ∧ e.(ev_UsedUnits) = units
        ∧ s ∈ resolutions db ∧ s.(rs_ReviewID) = id ∧ s.(rs_UsedUnits) = units
        ∧ 1 ≤ units ≤ s.(rs_ReservedUnits).
Proof.
  intros [_ Hok]%settlement_reachable_ok. cbn in Hok. split.
  { rewrite (ok_ledger _ Hok), map_map. exact (ok_resolution_ids _ Hok). }
  intros id units Hin. rewrite (ok_ledger _ Hok) in Hin. apply elem_of_map in Hin as (s&[= -> ->]&Hs).
  destruct (ok_resolution _ Hok s Hs) as (e&He&Hei&Hu&Hb). destruct (ok_evidence _ Hok e He) as (r&Hr&Hri&_).
  exists r, e, s. split; [done|]. split; [congruence|]. split; [|done].
  destruct (ok_status _ Hok r Hr) as [(_&_&Hn)|[(_&_&Hn)|(?&_)]]; [| |done];
    (exfalso; apply Hn, elem_of_map; exists s; split; [congruence|done]).
Qed.

Lemma review_charged_once_witness :
  ∃ s, s ∈ resolutions finalized ∧ 1 ≤ 1 ≤ s.(rs_ReservedUnits).
Proof.
  destruct (review_charged_once execConfig (execAt 40) finalized) as [_ H]; [apply finalized_settlement|].
  destruct (H openedReview.(rv_ReviewID) 1) as (r&e&s&_&_&_&_&_&_&Hs&_&_&Hb); [vm_compute; left|].
  exists s. split; [exact Hs|exact Hb].
Defined.

(** ** A provider event is recorded once *)

Definition append_event (recorder : ProviderUsageRecorder) (command : AppendAttestedProviderUsageCommand)
    : string * string * string :=
  (recorder.(rcd_source).(reg_ProviderKey), recorder.(rcd_source).(reg_ProviderAccountDigest),
   command.(aa_ProviderEventDigest)).

(** The row of an event is the one the lookup finds. *)
Lemma event_row db provider account event j j' :
  review_ok db → j ∈ journal db → provider_event j = (provider, account, event) →
  lookupProviderUsageJournalByEventTx db provider account event = Ok (Some j') → j' = j.
Proof.
  intros Hok Hj He (id&Hin&Hp&Ha&Hd)%lookupJournal_inv.
  eapply (NoDup_key_inj provider_event); [apply Hok|apply elem_of_records; by exists id|done|].
  rewrite He. unfold provider_event. congruence.
Qed.

Lemma recorded_blocks_append clock recorder command db j res db' :
  review_ok db → j ∈ journal db → provider_event j = append_event recorder command →
  appendAttestedBody clock recorder command db = Ok (res, db') → db' = db ∧ res = mkAppendResult j true.
Proof.
  intros Hok Hj He [(->&Hr&(id&Hin&Hp&Ha&Hd)&_)|(_&Hw)]%appendAttestedBody_inv.
  - split; [done|]. destruct res as [record replay]. cbn in *. subst replay. f_equal.
    eapply (NoDup_key_inj provider_event); [apply Hok|apply elem_of_records; by exists id|done|].
    rewrite He. unfold provider_event, append_event. congruence.
  - exfalso. destruct (aw_turn _ _ _ _ _ _ Hw) as (_&_&_&_&now&_&_&_&_&_&_&_&_&_&Hrec).
    apply elem_of_records in Hj as [id Hj]. pose proof (existsb_fresh _ _ _ (aw_new _ _ _ _ _ _ Hw) Hj) as Hk.
    unfold provider_event, append_event in He. injection He as E1 E2 E3.
    unfold journal_key_taken in Hk. cbn [row_record] in Hk. rewrite Hrec in Hk. cbn in Hk.
    apply orb_false_iff in Hk as [_ Hk]. rewrite E1, E2, E3 in Hk. by rewrite !bool_decide_eq_true_2 in Hk.
Qed.

Lemma AppendAttested_recorded cfg env recorder command db r db' j :
  review_ok db → j ∈ journal db → provider_event j = append_event recorder command →
  (∀ x, env.(rse_between) x = x) → AppendAttested cfg env recorder command db = (r, db') →
  db' = db ∧ ∀ res, r = Ok res → res = mkAppendResult j true.
Proof.
  intros Hok Hj He Hquiet. unfold AppendAttested. destruct (first_error _); [by intros [= <- <-]|].
  assert (Hb : ∀ a db1, appendAttestedBody (rse_clock env) recorder command db = Ok (a, db1) →
                 db1 = db ∧ a = mkAppendResult j true) by (intros a db1; by apply recorded_blocks_append).
  destruct (writeTransaction _ _ _ _ _) as [[a|e] db1] eqn:Hw.
  - intros [= <- <-]. apply writeTransaction_inv in Hw as [[[? ?] _]|(a'&db2&Hx&[(_&[= <-]&->)|(_&?&_)])]; [done| |done].
    apply Hb in Hx as [-> ->]. split; [done|]. by intros res [= <-].
  - assert (db1 = db) as -> by (eapply (tx_step _ _ _ _ (λ x, x = db)); [done..|]; intros ? ? ?%Hb; naive_solver).
    unfold appendFailed. destruct (append_sentinel e); [by intros [= <- <-]|].
    destruct (negb _); [by intros [= <- <-]|]. cbv zeta. rewrite Hquiet.
    destruct (rse_ctx env 3%nat); [by intros [= <- <-]|].
    destruct (lookupProviderUsageJournalByEventTx _ _ _ _) as [[existing|]|] eqn:Hl; [|by intros [= <- <-]..].
    destruct (providerUsageRecordMatchesAppend _ _ _); intros [= <- <-]; [|done]. split; [done|].
    intros res [= <-]. f_equal. by eapply event_row.
Qed.

(** A call that answered left its record in the journal. *)
Lemma AppendAttested_journal cfg env recorder command db res db' :
  (∀ x, env.(rse_between) x = x) → AppendAttested cfg env recorder command db = (Ok res, db') →
  res.(apr_Record) ∈ journal db' ∧ provider_event res.(apr_Record) = append_event recorder command.
Proof.
  intros Hquiet. unfold AppendAttested. destruct (first_error _); [done|].
  destruct (writeTransaction _ _ _ _ _) as [[a|e] db1] eqn:Hw.
  - intros [= -> ->]. apply writeTransaction_inv in Hw as [[[? ?] _]|(a&db2&Hb&[(_&[= <-]&->)|(_&?&_)])]; [done| |done].
    apply appendAttestedBody_inv in Hb as [(->&_&(id&Hin&Hp&Ha&Hd)&_)|(_&Hw)].
    + split; [apply elem_of_records; by exists id|]. unfold provider_event, append_event. congruence.
    + destruct (aw_turn _ _ _ _ _ _ Hw) as (_&_&_&_&now&_&_&_&_&_&_&_&_&_&Hrec).
      split; [|by rewrite Hrec]. rewrite (aw_db _ _ _ _ _ _ Hw). unfold journal. cbn. unfold snoc_row.
      rewrite map_app. apply elem_of_app. right. by left.
  - unfold appendFailed. destruct (append_sentinel e); [done|]. destruct (negb _); [done|]. cbv zeta.
    rewrite Hquiet. destruct (rse_ctx env 3%nat); [done|].
    destruct (lookupProviderUsageJournalByEventTx _ _ _ _) as [[existing|]|] eqn:Hl; [|done..].
    destruct (providerUsageRecordMatchesAppend _ _ _); [|done]. intros [= <- <-].
    apply lookupJournal_inv in Hl as (id&Hin&Hp&Ha&Hd). split; [apply elem_of_records; by exists id|].
    unfold provider_event, append_event. cbn. congruence.
Qed.

(** The tables an AppendAttested leaves are reachable. *)
Lemma AppendAttested_step cfg env recorder command (t t' : time) db r db' :
  (∀ x, env.(rse_between) x = x) → t ≤ t' → clock_reading t' env.(rse_clock) →
  AppendAttested cfg env recorder command db = (r, db') → settlement_run cfg (t, db) (t', db').
Proof.
  intros Hquiet Ht Hck. unfold AppendAttested. destruct (first_error _).
  { intros [= <- <-]. apply rtc_once.
    pose proof (ss_delivery cfg t t' db db.(db_effects) Ht) as Hs. by destruct db. }
  destruct (writeTransaction _ _ _ _ _) as [[a|e] db1] eqn:Hw.
  { intros [= <- <-]. apply rtc_once. by eapply ss_append. }
  unfold appendFailed. cbv zeta. rewrite Hquiet. intros H. assert (db' = db1) as -> by (repeat case_match; by simplify_eq).
  apply rtc_once. by eapply ss_append.
Qed.

(** A provider event enters the journal exactly once.  After an
    AppendAttested answered for an event of a provider account, and whatever the
    store did since, another AppendAttested of that event changes no table,
    whatever its recorder, receipt, clock and transaction outcome; when it
    answers it replays the first record. *)
Theorem receipt_exactly_once cfg env recorder command (t t1 t2 : time) db res db1 db2 env' recorder' command' r db3 :
  settlement_reachable cfg (t, db) → t ≤ t1 → clock_reading t1 env.(rse_clock) →
  (∀ x, env.(rse_between) x = x) → (∀ x, env'.(rse_between) x = x) →
  AppendAttested cfg env recorder command db = (Ok res, db1) →
  settlement_run cfg (t1, db1) (t2, db2) →
  append_event recorder' command' = append_event recorder command →
  AppendAttested cfg env' recorder' command' db2 = (r, db3) →
  db3 = db2 ∧ ∀ res', r = Ok res' → res' = mkAppendResult res.(apr_Record) true.
Proof.
  intros Hreach Ht Hck Hq Hq' H Hrun He H'.
  destruct (AppendAttested_journal _ _ _ _ _ _ _ Hq H) as [Hin Hev].
  assert (Hreach1 : settlement_reachable cfg (t1, db1)).
  { eapply settlement_reachable_run; [done|]. exact (AppendAttested_step _ _ _ _ _ _ _ _ _ Hq Ht Hck H). }
  pose proof (reachable_history _ _ _ Hreach1 Hrun) as Hh.
  destruct (settlement_reachable_ok _ _ (settlement_reachable_run _ _ _ Hreach1 Hrun)) as [_ Hok].
  eapply (AppendAttested_recorded _ _ _ _ _ _ _ res.(apr_Record)); [exact Hok| |rewrite Hev; symmetry; exact He|exact Hq'|exact H'].
  eapply elem_of_prefix; [exact Hin|apply Hh].
Qed.

Lemma receipt_exactly_once_witness :
  match AppendAttested execConfig (resolutionEnvAt providerBound 50 TxReported) demoRecorder
          (receiptCommand someDigest) opened with
  | (r, db3) => db3 = opened ∧ ∀ res', r = Ok res' → res'.(apr_Replay) = true
  end.
Proof.
  destruct (AppendAttested execConfig (resolutionEnvAt providerBound 50 TxReported) demoRecorder
              (receiptCommand someDigest) opened) as [r db3] eqn:E.
  pose (res := ltac:(claim_result (AppendAttested execConfig (resolutionEnvAt providerBound 5 TxReported) demoRecorder
           (receiptCommand someDigest) deployed)) : AppendAttestedProviderUsageResult).
  destruct (receipt_exactly_once execConfig (resolutionEnvAt providerBound 5 TxReported) demoRecorder
    (receiptCommand someDigest) (execAt 3) (execAt 5) (execAt 10) deployed res recorded opened
    (resolutionEnvAt providerBound 50 TxReported) demoRecorder (receiptCommand someDigest) r db3) as [-> H].
  - apply deployed_settlement.
  - by apply execAt_le.
  - by left.
  - reflexivity.
  - reflexivity.
  - vm_compute. reflexivity.
  - apply rtc_once, open_step.
  - reflexivity.
  - exact E.
  - split; [reflexivity|]. intros res' Hr. by rewrite (H res' Hr).
Defined.

(** ** A Review is finalized once *)

Lemma resolution_row db reviewID s s' :
  review_ok db → s ∈ resolutions db → s.(rs_ReviewID) = reviewID →
  lookupSettlementReviewResolutionTx db reviewID = Ok (Some s') → s' = s.
Proof.
  intros Hok Hs He (id&Hin&Hr)%lookupResolution_inv.
  eapply (NoDup_key_inj rs_ReviewID); [apply Hok|apply elem_of_records; by exists id|done|congruence].
Qed.

Lemma resolved_blocks_resolve st clock command db s res db' :
  review_ok db → s ∈ resolutions db → s.(rs_ReviewID) = command.(rsv_ReviewID) →
  resolveBody st clock command db = Ok (res, db') →
  db' = db ∧ res.(rsvr_Resolution) = s ∧ res.(rsvr_Replay) = true.
Proof.
  intros Hok Hs He [(->&Hr&review&e&_&Hid&_&Hl&_)|(_&review&e&c&Hw)]%resolveBody_inv.
  - split; [done|]. split; [|done]. rewrite Hid in Hl. by eapply resolution_row.
  - exfalso. destruct (vw_resolution _ _ _ _ _ _ _ _ Hw) as (_&Hk&Hrid&_).
    destruct (vw_review _ _ _ _ _ _ _ _ Hw) as (_&Hid&_).
    apply elem_of_records in Hs as [id Hs]. apply (existsb_fresh _ _ _ Hk) in Hs.
    unfold resolution_key_taken in Hs. cbn [row_record] in Hs. bool_hyps. congruence.
Qed.

Lemma resolveBody_resolution st clock command db res db' :
  resolveBody st clock command db = Ok (res, db') →
  res.(rsvr_Resolution) ∈ resolutions db' ∧ res.(rsvr_Resolution).(rs_ReviewID) = command.(rsv_ReviewID).
Proof.
  intros [(->&_&review&e&_&Hid&_&Hl&_)|(_&review&e&c&Hw)]%resolveBody_inv.
  - apply lookupResolution_inv in Hl as (id&Hin&Hr). split; [apply elem_of_records; by exists id|congruence].
  - destruct (vw_resolution _ _ _ _ _ _ _ _ Hw) as (_&_&Hrid&_&_&Hs).
    destruct (vw_review _ _ _ _ _ _ _ _ Hw) as (_&Hid&_). split; [|congruence].
    unfold resolutions. rewrite Hs. unfold snoc_row. rewrite map_app. apply elem_of_app. right. by left.
Qed.

(** C24: a Review is finalized exactly once.  After a ResolveSettlementReview
    answered, and whatever the store did since, another one for that Review
    changes no table and asks the authority for nothing, whatever its actor,
    binding, clock and transaction outcome; when it answers it replays the first
    resolution. *)
Theorem resolve_exactly_once cfg env command (t t1 t2 : time) db res db1 db2 env' command' r db3 :
  settlement_reachable cfg (t, db) → t ≤ t1 → clock_reading t1 env.(rse_clock) →
  ResolveSettlementReview cfg env command db = (Ok res, db1) →
  settlement_run cfg (t1, db1) (t2, db2) →
  command'.(rsv_ReviewID) = command.(rsv_ReviewID) →
  ResolveSettlementReview cfg env' command' db2 = (r, db3) →
  db3 = db2 ∧ ∀ res', r = Ok res' →
    res'.(rsvr_Resolution) = res.(rsvr_Resolution) ∧ res'.(rsvr_Replay) = true.
Proof.
  intros Hreach Ht Hck H Hrun He H'.
  assert (Hreach1 : settlement_reachable cfg (t1, db1)).
  { eapply settlement_reachable_step; [done|]. exact (Resolve_step _ _ _ _ _ _ _ _ H Ht Hck). }
  pose proof (reachable_history _ _ _ Hreach1 Hrun) as Hh.
  destruct (settlement_reachable_ok _ _ (settlement_reachable_run _ _ _ Hreach1 Hrun)) as [_ Hok].
  apply resolutionTransaction_Ok in H as [_ H]. apply resolveBody_resolution in H as [Hin Hid].
  assert (Hin2 : res.(rsvr_Resolution) ∈ resolutions db2) by (eapply elem_of_prefix; [exact Hin|apply Hh]).
  assert (Hb : ∀ a db', resolveBody env'.(rse_settlement) env'.(rse_clock) command' db2 = Ok (a, db') →
    db' = db2 ∧ a.(rsvr_Resolution) = res.(rsvr_Resolution) ∧ a.(rsvr_Replay) = true).
  { intros a db' Hb. eapply resolved_blocks_resolve; [exact Hok|exact Hin2|rewrite Hid; symmetry; exact He|exact Hb]. }
  split; [eapply (resolutionTransaction_db _ _ _ _ (λ x, x = db2)); [exact H'|done|]; intros ? ? ?%Hb; naive_solver|].
  intros res' ->. apply resolutionTransaction_Ok in H' as [_ H']. exact (proj2 (Hb _ _ H')).
Qed.

Lemma resolve_exactly_once_witness :
  match ResolveSettlementReview execConfig (resolutionEnvAt providerBound 50 TxReported) resolveCommand finalized with
  | (r, db3) => db3 = finalized ∧ ∀ res', r = Ok res' → res'.(rsvr_Replay) = true
  end.
Proof.
  destruct (ResolveSettlementReview execConfig (resolutionEnvAt providerBound 50 TxReported) resolveCommand finalized)
    as [r db3] eqn:E.
  destruct (resolve_exactly_once execConfig (resolutionEnvAt providerBound 40 TxReported) resolveCommand (execAt 30)
    (execAt 40) (execAt 40) metered finalizedResult finalized finalized
    (resolutionEnvAt providerBound 50 TxReported) resolveCommand r db3) as [-> H].
  - apply metered_settlement.
  - by apply execAt_le.
  - by left.
  - apply resolve_call.
  - apply rtc_refl.
  - reflexivity.
  - exact E.
  - split; [reflexivity|]. intros res' Hr. exact (proj2 (H res' Hr)).
Defined.

(** ** Reviews of the older usage binding *)

Lemma provenance_aware db review e out :
  validateSettlementReviewUsageProvenanceTx db review e = Ok out → settlementReviewProviderUsageAware review = true.
Proof. unfold validateSettlementReviewUsageProvenanceTx. intros H. break_in H; bool_hyps; done. Qed.

(** A Review with evidence passes the checks only with provider provenance. *)
Lemma evidence_aware db row turn review e :
  validateTerminalSettlementReviewTx db row turn review = None →
  lookupSettlementReviewUsageEvidenceTx db review.(rv_ReviewID) = Ok (Some e) →
  settlementReviewProviderUsageAware review = true.
Proof.
  intros Hv He. unfold validateTerminalSettlementReviewTx in Hv.
  destruct (validateSettlementReviewResolutionStateTx db review) as [o|] eqn:Hs.
  2: { match type of Hv with (match ?x with _ => _ end) = _ => destruct x eqn:Hx; [|done] end. by break_in Hx. }
  unfold validateSettlementReviewResolutionStateTx in Hs.
  destruct (SettlementReviewRecord_Validate review); [done|].
  destruct (lookupSettlementReviewResolutionTx _ _) as [resolution|]; [|done]. rewrite He in Hs. clear Hv.
  destruct (bool_decide (_ = SettlementReviewStatusPending)); [by rewrite andb_false_r in Hs|].
  destruct (bool_decide (_ = _)); destruct resolution; try done;
    destruct (_ && _) in Hs; try done;
    destruct (validateSettlementReviewUsageProvenanceTx _ _ _) eqn:Hp; try done; by eapply provenance_aware.
Qed.

Lemma resolveBody_aware st clock command db res db' :
  resolveBody st clock command db = Ok (res, db') →
  ∃ review, lookupSettlementReviewTx db command.(rsv_TurnID) = Ok (Some review)
            ∧ settlementReviewProviderUsageAware review = true.
Proof.
  unfold resolveBody. intros H. destruct (lockReview _ _ _ _ _) as [[[row turn] review]|] eqn:Hl; [|done].
  apply lockReview_inv in Hl as (_&_&_&_&Hl&_). destruct (settlementReviewResolutionAuthorityLocked st); [|done].
  destruct (validateTerminalSettlementReviewTx _ _ _ _) eqn:Hv; [done|].
  destruct (lookupSettlementReviewUsageEvidenceTx _ _) as [[e|]|] eqn:He; [|done..].
  exists review. split; [done|]. by eapply evidence_aware.
Qed.

Lemma captureBody_aware s clock command db res db' :
  captureBody s clock command db = Ok (res, db') →
  ∃ review, lookupSettlementReviewTx db command.(cap_TurnID) = Ok (Some review)
            ∧ settlementReviewProviderUsageAware review = true.
Proof.
  unfold captureBody. intros H. destruct (lockReview _ _ _ _ _) as [[[row turn] review]|] eqn:Hl; [|done].
  apply lockReview_inv in Hl as (_&_&_&_&Hl&_). destruct (settlementReviewProviderUsageAuthorityLocked s); [|done].
  destruct (settlementReviewProviderUsageAware review) eqn:Ha; [|done]. eauto.
Qed.

(** A Review without provider provenance can be neither priced nor
    finalized.  On any tables, also with evidence recorded by an earlier
    release, both calls for its Turn fail and change nothing; the Reviews a
    store opens under the older usage binding are of that kind, although that
    binding is documented to resolve its existing evidence. *)
Theorem legacy_review_unresolvable cfg env db review :
  lookupSettlementReviewTx db review.(rv_TurnID) = Ok (Some review) →
  settlementReviewProviderUsageAware review = false →
  (∀ command r db', command.(cap_TurnID) = review.(rv_TurnID) →
     CaptureSettlementReviewUsageEvidence cfg env command db = (r, db') → db' = db ∧ ∃ e, r = Err e)
  ∧ (∀ command r db', command.(rsv_TurnID) = review.(rv_TurnID) →
       ResolveSettlementReview cfg env command db = (r, db') → db' = db ∧ ∃ e, r = Err e).
Proof.
  intros Hl Ha. split; intros command r db' Ht H; (split;
    [eapply (resolutionTransaction_db _ _ _ _ (λ x, x = db)); [exact H|done|]; intros ? ? Hb
    |destruct r as [res|e]; [|by exists e]; apply resolutionTransaction_Ok in H as [_ Hb]]); exfalso.
  1,2: apply captureBody_aware in Hb as (review'&Hl'&Ha').
  3,4: apply resolveBody_aware in Hb as (review'&Hl'&Ha').
  all: rewrite Ht, Hl in Hl'; congruence.
Qed.

Definition legacyOpened : Database :=
  Eval vm_compute in snd (CommitAttempt execConfig (boundEnvAt usageBound 10) completeCommand deployed).
Definition legacyReview : SettlementReviewRecord := ltac:(review_of legacyOpened).

Lemma legacy_review_unresolvable_witness :
  fst (ResolveSettlementReview execConfig (resolutionEnvAt usageBound 40 TxReported)
         (mkResolveCommand "turn_1" legacyReview.(rv_ReviewID) legacyReview.(rv_RequestDigest) "e" someDigest "op")
         legacyOpened) ≠ Ok finalizedResult.
Proof.
  destruct (ResolveSettlementReview execConfig _ _ legacyOpened) as [r db'] eqn:E. simpl.
  destruct (legacy_review_unresolvable execConfig (resolutionEnvAt usageBound 40 TxReported) legacyOpened legacyReview)
    as [_ H]; [vm_compute; reflexivity..|].
  apply H in E as [_ [e ->]]; [discriminate|reflexivity].
Defined.
