(* ===== verification/EffectOutboxFacts.v ===== *)
(** * Runs of the effect outbox

    A step is one transaction that writes the outbox table, with the database
    clock it ran at: a claim, a completion, an operation's insert, a settlement
    review's hold, or a transaction that leaves the table alone.  The section
    on rows says what one step may do to one row; the rest lifts that to runs. *)

From S2P Require Import Prelude GoText GoJson AgentContract TurnTypes MemoryStore TurnService ExecutionTypes SqlDatabase SqlFacts EffectOutbox.

Inductive outbox_step : time * Database → time * Database → Prop :=
| os_claim cfg ctx clock outcome id owner topics t t' db r db' :
    t ≤ t' → clock_reading t' clock →
    validatePrintableASCII owner MaxWorkerIDBytes = None →
    claimEffect cfg ctx clock outcome id owner topics db = (r, db') →
    outbox_step (t, db) (t', db')
| os_complete cfg ctx clock outcome command t t' db r db' :
    t ≤ t' → clock_reading t' clock →
    CompleteEffect cfg ctx clock outcome command db = (r, db') →
    outbox_step (t, db) (t', db')
| os_enqueue attempt operationID ordinal draft t t' now db row rec db' :
    t ≤ t' → executionNow (Ok t') = Ok now →
    buildEffectOutboxRow attempt operationID ordinal draft now = Ok (row, rec) →
    insertEffect db row = Ok db' →
    outbox_step (t, db) (t', db')
| os_hold turnID t t' now db :
    t ≤ t' → executionNow (Ok t') = Ok now →
    outbox_step (t, db) (t', holdTurnEffectsForReview db turnID now)
| os_other t t' db db' :
    t ≤ t' → db'.(db_effects) = db.(db_effects) →
    outbox_step (t, db) (t', db').

Definition outbox_run : relation (time * Database) := rtc outbox_step.

Definition outbox_reachable (s : time * Database) : Prop :=
  ∃ t db, db.(db_effects) = [] ∧ outbox_run (t, db) s.

Definition effectIn (db : Database) (id : string) : option sqlEffectOutboxRow :=
  select_one (effect_is id) db.(db_effects).

(** ** What a step does to one row *)

Definition claimable_at (now : time) (r : sqlEffectOutboxRow) : Prop :=
  r.(fx_Status) = EffectStatusPending ∧ r.(fx_AvailableAt) ≤ now
  ∨ r.(fx_Status) = EffectStatusDelivering ∧ ∃ l, r.(fx_LeaseExpiresAt) = Some l ∧ l ≤ now.

Inductive effect_change (t : time) (r : sqlEffectOutboxRow) : sqlEffectOutboxRow → Prop :=
| ec_same : effect_change t r r
| ec_claim cfg owner now :
    canonicalExecutionTime t = Ok now →
    validatePrintableASCII owner MaxWorkerIDBytes = None →
    claimable_at now r →
    effect_counters_ok (claimedEffect r owner (now + effectLeaseTTL cfg) now) = true →
    effect_change t r (claimedEffect r owner (now + effectLeaseTTL cfg) now)
| ec_complete cfg report now r' answer :
    canonicalExecutionTime t = Ok now →
    r.(fx_Status) = EffectStatusDelivering →
    DeliveryReport_Validate report = None →
    resolveEffectCompletion cfg r report now = Ok (r', answer) →
    effect_change t r r'
| ec_hold now :
    canonicalExecutionTime t = Ok now →
    r.(fx_Status) ∈ [EffectStatusPending; EffectStatusDelivering] →
    effect_change t r (heldEffect now r).

#[export] Hint Constructors effect_change : go.

Definition same_effect (r r' : sqlEffectOutboxRow) : Prop :=
  r'.(fx_ID) = r.(fx_ID) ∧ r'.(fx_OutboxID) = r.(fx_OutboxID) ∧ r'.(fx_TurnID) = r.(fx_TurnID)
  ∧ r'.(fx_AttemptID) = r.(fx_AttemptID) ∧ r'.(fx_TurnFencingToken) = r.(fx_TurnFencingToken)
  ∧ r'.(fx_OperationID) = r.(fx_OperationID) ∧ r'.(fx_Ordinal) = r.(fx_Ordinal)
  ∧ r'.(fx_Topic) = r.(fx_Topic) ∧ r'.(fx_DedupeKey) = r.(fx_DedupeKey)
  ∧ r'.(fx_PayloadJSON) = r.(fx_PayloadJSON) ∧ r'.(fx_CreatedAt) = r.(fx_CreatedAt).

Lemma resolveEffectCompletion_inv cfg r report now r' answer :
  resolveEffectCompletion cfg r report now = Ok (r', answer) →
  ∃ status available code delivered dead,
    r' = completedEffect r status available code delivered dead now
    ∧ answer.(cer_OutboxID) = r.(fx_OutboxID) ∧ answer.(cer_Status) = status
    ∧ answer.(cer_DeliveryAttempts) = r.(fx_DeliveryAttempts) ∧ answer.(cer_Replay) = false
    ∧ answer.(cer_LastErrorCode) = default "" code
    ∧ (code = None ∨ code = Some report.(rep_ErrorCode) ∧ report.(rep_ErrorCode) ≠ "")
    ∧ (status = EffectStatusDelivered ∧ delivered = Some now ∧ dead = r.(fx_DeadLetteredAt)
       ∨ status = EffectStatusDeadLetter ∧ delivered = r.(fx_DeliveredAt) ∧ dead = Some now
       ∨ status = EffectStatusPending ∧ delivered = r.(fx_DeliveredAt)
         ∧ dead = r.(fx_DeadLetteredAt)
         ∧ available = now + effectRetryDelay r.(fx_DeliveryAttempts) report.(rep_RetryAfter)
         ∧ answer.(cer_AvailableAt) = available
         ∧ r.(fx_DeliveryAttempts) < maxDeliveryAttemptsBudget cfg).
Proof.
  assert (Hcode : ∀ c, c = (if bool_decide (report.(rep_ErrorCode) = "") then None
                            else Some report.(rep_ErrorCode)) →
    report.(rep_ErrorCode) = default "" c
    ∧ (c = None ∨ c = Some report.(rep_ErrorCode) ∧ report.(rep_ErrorCode) ≠ "")).
  { intros c ->. case_bool_decide; simpl; auto. }
  destruct (Hcode _ eq_refl) as [Hdef Hor]. unfold resolveEffectCompletion. intros H.
  repeat case_match; simplify_eq; bool_hyps;
    repeat eexists; simpl; eauto 10 with lia.
Qed.

Lemma effect_change_same t r r' : effect_change t r r' → same_effect r r'.
Proof.
  destruct 1 as [|cfg owner now|cfg report now r' answer _ _ _ H|now]; try (by repeat split).
  apply resolveEffectCompletion_inv in H as (?&?&?&?&?&->&_). by repeat split.
Qed.

(** ** What a step does to the table *)

(** An update by primary key of a row read from the table. *)
Lemma updateEffectColumns_Forall2 (R : sqlEffectOutboxRow → sqlEffectOutboxRow → Prop) db row f db' :
  row ∈ db.(db_effects) → updateEffectColumns db row.(fx_ID) f = Ok db' →
  R row (f row) → (∀ x, R x x) →
  ∃ l, db' = set_effects db l ∧ Forall2 R db.(db_effects) l
       ∧ l = update_rows (fun r => r.(fx_ID) =? row.(fx_ID)) f db.(db_effects).
Proof.
  unfold updateEffectColumns. intros Hrow H HR Hrefl.
  case_match eqn:E; simplify_eq. apply Nat.eqb_eq in E.
  eexists; split; [reflexivity|]. split; [|reflexivity].
  apply update_rows_Forall2; [|by auto].
  intros x Hx Hp. by rewrite (rows_matched_unique _ _ x row E Hx Hrow Hp (Z.eqb_refl _)).
Qed.

(** A claim that writes leases the row it found, or is given no row. *)
Lemma claimEffectBody_inv cfg clock turnID id owner topics db a db' :
  claimEffectBody cfg clock turnID id owner topics db = Ok (a, db') →
  a = None ∧ db' = db
  ∨ ∃ row now, effectIn db id = Some row ∧ row.(fx_TurnID) = turnID
      ∧ effectTopicScopeAllows topics row.(fx_Topic) = true
      ∧ executionNow clock = Ok now ∧ claimable_at now row
      ∧ lookupSettlementReviewTx db turnID = Ok None
      ∧ effect_counters_ok (claimedEffect row owner (now + effectLeaseTTL cfg) now) = true
      ∧ updateEffectColumns db row.(fx_ID)
          (fun r => claimedEffect r owner (now + effectLeaseTTL cfg) now) = Ok db'
      ∧ a = Some (deliveryOf row owner (now + effectLeaseTTL cfg)).
Proof.
  unfold claimEffectBody, lockEffect, effectIn. intros H.
  destruct (lockTurn _ _); [|done]. destruct (lookupSettlementReviewTx db turnID) as [found|]; [|done].
  destruct (select_one _ _) as [row|] eqn:Hrow; [|naive_solver].
  case_bool_decide; [|done]. destruct (effectTopicScopeAllows _ _) eqn:Hscope; [|done].
  destruct (executionNow clock) as [now|] eqn:Hnow; [|done].
  destruct (EffectStatus_Valid _); [|done].
  destruct found as [review|]; simpl in H; [repeat case_match; naive_solver|].
  case_match eqn:Hdue; [|naive_solver].
  destruct (effect_counters_ok _) eqn:Hc; [|done].
  destruct (updateEffectColumns _ _ _) eqn:Hu; simplify_eq.
  right. exists row, now. repeat split; auto.
  unfold claimable_at, After in *. apply orb_true_iff in Hdue as [Hd|Hd]; bool_hyps; [by left|].
  right. split; [done|]. destruct (fx_LeaseExpiresAt row) as [l|]; [|done]; simpl in *.
  bool_hyps. eauto.
Qed.

Lemma claimEffect_inv cfg ctx clock outcome id owner topics db r db' :
  claimEffect cfg ctx clock outcome id owner topics db = (r, db') →
  db' = db ∧ (∀ d, r ≠ Ok (Some d))
  ∨ ∃ row now, effectIn db id = Some row
      ∧ effectTopicScopeAllows topics row.(fx_Topic) = true
      ∧ executionNow clock = Ok now ∧ claimable_at now row
      ∧ lookupSettlementReviewTx db row.(fx_TurnID) = Ok None
      ∧ effect_counters_ok (claimedEffect row owner (now + effectLeaseTTL cfg) now) = true
      ∧ updateEffectColumns db row.(fx_ID)
          (fun r => claimedEffect r owner (now + effectLeaseTTL cfg) now) = Ok db'
      ∧ (outcome = TxReported ∧ r = Ok (Some (deliveryOf row owner (now + effectLeaseTTL cfg)))
         ∨ outcome = TxLost true ∧ r = Err driverError).
Proof.
  unfold claimEffect. intros H.
  repeat case_match; simplify_eq; try (left; naive_solver).
  apply writeTransaction_inv in H as [[[e ->] ->]|(a&db1&Hb&Ho)]; [left; naive_solver|].
  apply claimEffectBody_inv in Hb as [[-> ->]|(row&now&Hrow&Ht&Hs&Hn&Hc&Hrev&Hok&Hu&->)].
  - left. naive_solver.
  - right. exists row, now. rewrite <- Ht in *. naive_solver.
Qed.

Lemma completeEffectBody_inv cfg clock command db a db' :
  completeEffectBody cfg clock command db = Ok (a, db') →
  ∃ row, effectIn db command.(cmp_Fence).(ef_OutboxID) = Some row
    ∧ row.(fx_DispatchFencingToken) = command.(cmp_Fence).(ef_DispatchToken)
    ∧ (EffectStatus_Terminal row.(fx_Status) = true ∧ a = effectResultFromRow row true ∧ db' = db
       ∨ row.(fx_Status) = EffectStatusDelivering
         ∧ row.(fx_LeaseOwnerID) = Some command.(cmp_Fence).(ef_LeaseOwnerID)
         ∧ ∃ now r', executionNow clock = Ok now
             ∧ resolveEffectCompletion cfg row command.(cmp_Report) now = Ok (r', a)
             ∧ updateEffectColumns db row.(fx_ID) (fun _ => r') = Ok db').
Proof.
  unfold completeEffectBody, lockEffect, effectIn. intros H.
  destruct (select_one _ _) as [row|]; [|done]. exists row. split; [done|].
  destruct (EffectStatus_Valid _); [|done]. destruct (_ =? _) eqn:Ht; [|done].
  split; [by bool_hyps|].
  destruct (EffectStatus_Terminal _); [left; naive_solver|right].
  case_match eqn:Hl; [|done]. bool_hyps.
  destruct (executionNow clock) as [now|] eqn:Hn; [|done].
  destruct (resolveEffectCompletion _ _ _ _) as [[r' ans]|] eqn:Hr; [|done]. simpl in *.
  destruct (updateEffectColumns _ _ _) eqn:Hu; simplify_eq. naive_solver.
Qed.

Lemma CompleteEffect_inv cfg ctx clock outcome command db r db' :
  CompleteEffect cfg ctx clock outcome command db = (r, db') →
  (∃ e, r = Err e) ∧ db' = db
  ∨ CompleteEffectCommand_Validate command = None
    ∧ ∃ a, completeEffectBody cfg clock command db = Ok (a, db')
        ∧ (outcome = TxReported ∧ r = Ok a ∨ outcome = TxLost true ∧ r = Err ErrStoreUnavailable).
Proof.
  unfold CompleteEffect. intros H. case_match eqn:Hv; [naive_solver|].
  simpl in Hv. destruct (ctx 0%nat); [done|].
  destruct (CompleteEffectCommand_Validate command) eqn:HV; [done|].
  destruct (writeTransaction _ _ _ _ _) as [w dbw] eqn:Hw.
  apply writeTransaction_inv in Hw as [[[e ->] ->]|(a&db1&Hb&[(->&->&->)|(->&->&->)])];
    simplify_eq; [left; eauto|right..]; naive_solver.
Qed.

(** ** One step of the table *)

(** A row an operation has just inserted. *)
Definition fresh_effect (t : time) (r : sqlEffectOutboxRow) : Prop :=
  r.(fx_Status) = EffectStatusPending ∧ r.(fx_DeliveryAttempts) = 0
  ∧ r.(fx_DispatchFencingToken) = 0 ∧ validEffectOutboxState r = true
  ∧ (validatePrintableASCII r.(fx_OutboxID) MaxEffectOutboxIDBytes = None
     ∧ validatePathSegment r.(fx_TurnID) MaxTurnIDBytes = None)
  ∧ ∃ now, canonicalExecutionTime t = Ok now ∧ r.(fx_CreatedAt) = now.

Lemma buildEffectOutboxRow_fresh t now attempt op ordinal draft row rec id :
  canonicalExecutionTime t = Ok now →
  buildEffectOutboxRow attempt op ordinal draft now = Ok (row, rec) →
  fresh_effect t (with_effect_id row id).
Proof.
  unfold buildEffectOutboxRow. intros Ht H.
  destruct (negb _); [|done]. destruct (canonicalExecutionTime (edraft_AvailableAt draft)); [|done].
  destruct (toEffectRecord _) eqn:Hr; simplify_eq.
  unfold toEffectRecord in Hr. case_match eqn:Hv; [done|]. do 2 (case_match; [|done]).
  autorewrite with go in Hv. rewrite !Forall_cons in Hv. destruct Hv as (?&?&_).
  repeat split; eauto.
Qed.

(** What a step adds to the table. *)
Definition fresh_rows (t : time) (old news : list sqlEffectOutboxRow) : Prop :=
  news = [] ∨ ∃ r, news = [r] ∧ fresh_effect t r ∧ existsb (effect_key_taken r) old = false
                   ∧ r.(fx_ID) = next_id fx_ID old.

Lemma outbox_step_rows t db t' db' :
  outbox_step (t, db) (t', db') →
  t ≤ t' ∧ ∃ l news, db'.(db_effects) = l ++ news
    ∧ Forall2 (effect_change t') db.(db_effects) l ∧ fresh_rows t' db.(db_effects) news.
Proof.
  unfold fresh_rows.
  assert (Hrefl : ∀ t l, Forall2 (effect_change t) l l).
  { intros. apply Forall_Forall2_diag, Forall_true. constructor. }
  intros Hs. inversion Hs as
    [cfg ctx clock outcome id owner topics ? ? ? r ? Hle Hck Howner Hc
    |cfg ctx clock outcome command ? ? ? r ? Hle Hck Hc
    |attempt op ordinal draft ? ? now ? row rec ? Hle Hnow Hb Hi
    |turnID ? ? now ? Hle Hnow|? ? ? ? Hle Heq]; subst; (split; [done|]).
  - apply claimEffect_inv in Hc as [[-> _]|(row&now&Hrow&_&Hn&Hcl&_&Hok&Hu&_)].
    { exists (db_effects db), []. rewrite app_nil_r. auto. }
    apply select_one_elem in Hrow as [Hrow _]. eapply executionNow_reading in Hn; [|done].
    eapply (updateEffectColumns_Forall2 (effect_change t')) in Hu as (l&->&HF&_);
      [|done|by econstructor|by constructor].
    exists l, []. rewrite app_nil_r. auto.
  - apply CompleteEffect_inv in Hc as [[_ ->]|(Hv&a&Hb&_)].
    { exists (db_effects db), []. rewrite app_nil_r. auto. }
    apply completeEffectBody_inv in Hb as (row&Hrow&_&[(_&_&->)|(Hst&_&now&r'&Hn&Hr&Hu)]).
    { exists (db_effects db), []. rewrite app_nil_r. auto. }
    apply select_one_elem in Hrow as [Hrow _]. eapply executionNow_reading in Hn; [|done].
    unfold CompleteEffectCommand_Validate in Hv. autorewrite with go in Hv.
    rewrite !Forall_cons in Hv. destruct Hv as (_&Hrep&_).
    eapply (updateEffectColumns_Forall2 (effect_change t')) in Hu as (l&->&HF&_);
      [|done|by econstructor|by constructor].
    exists l, []. rewrite app_nil_r. auto.
  - unfold insertEffect in Hi. case_match; simplify_eq/=. bool_hyps.
    eexists _, [_]. split; [done|]. split; [done|]. right. eexists.
    split; [done|]. split; [by eapply buildEffectOutboxRow_fresh|done].
  - exists (db_effects (holdTurnEffectsForReview db turnID now)), []. rewrite app_nil_r.
    split; [done|]. split; [|by left]. apply update_rows_Forall2; [|constructor].
    intros x _ Hp. unfold effect_holdable in Hp. bool_hyps. by constructor.
  - rewrite Heq. exists (db_effects db), []. rewrite app_nil_r. auto.
Qed.

Lemma outbox_step_row t db t' db' id r :
  outbox_step (t, db) (t', db') → effectIn db id = Some r →
  t ≤ t' ∧ ∃ r', effectIn db' id = Some r' ∧ effect_change t' r r'.
Proof.
  intros [Hle (l&news&Hdb'&HF&_)]%outbox_step_rows Hr. split; [done|].
  unfold effectIn. rewrite Hdb'. eapply select_one_Forall2; [done| |done].
  intros x y Hxy%effect_change_same. unfold effect_is. destruct Hxy as (_&->&_). done.
Qed.

(** ** The invariant of a row *)

Record effect_ok (t : time) (r : sqlEffectOutboxRow) : Prop := {
  eo_state : validEffectOutboxState r = true;
  eo_counters : r.(fx_DispatchFencingToken) = r.(fx_DeliveryAttempts);
  eo_range : 0 ≤ r.(fx_DeliveryAttempts) < 2 ^ 63;
  eo_created : r.(fx_CreatedAt) ≤ t - t mod 1000;
  eo_names : validatePrintableASCII r.(fx_OutboxID) MaxEffectOutboxIDBytes = None
             ∧ validatePathSegment r.(fx_TurnID) MaxTurnIDBytes = None
}.

Lemma effectLeaseTTL_pos cfg : 0 < effectLeaseTTL cfg.
Proof. unfold effectLeaseTTL. case_match; bool_hyps; [done|lia]. Qed.


Definition effect_status_spec (r : sqlEffectOutboxRow) : Prop :=
  let no_lease := r.(fx_LeaseOwnerID) = None ∧ r.(fx_LeaseExpiresAt) = None in
  let counted := 1 ≤ r.(fx_DeliveryAttempts) ∧ 1 ≤ r.(fx_DispatchFencingToken) in
  r.(fx_Status) = EffectStatusPending
    ∧ no_lease ∧ r.(fx_DeliveredAt) = None ∧ r.(fx_DeadLetteredAt) = None
  ∨ r.(fx_Status) = EffectStatusDelivering
    ∧ (is_Some r.(fx_LeaseOwnerID) ∧ is_Some r.(fx_LeaseExpiresAt)) ∧ counted
    ∧ r.(fx_DeliveredAt) = None ∧ r.(fx_DeadLetteredAt) = None
  ∨ r.(fx_Status) = EffectStatusDelivered
    ∧ no_lease ∧ counted ∧ is_Some r.(fx_DeliveredAt) ∧ r.(fx_DeadLetteredAt) = None
  ∨ r.(fx_Status) = EffectStatusDeadLetter
    ∧ no_lease ∧ counted ∧ r.(fx_DeliveredAt) = None ∧ is_Some r.(fx_DeadLetteredAt)
  ∨ r.(fx_Status) = EffectStatusReviewHold
    ∧ no_lease ∧ r.(fx_DeliveredAt) = None ∧ r.(fx_DeadLetteredAt) = None.

Record effect_state_spec (r : sqlEffectOutboxRow) : Prop := {
  es_counters : 0 ≤ r.(fx_DeliveryAttempts) ∧ 0 ≤ r.(fx_DispatchFencingToken);
  es_created : r.(fx_CreatedAt) ≠ 0 ∧ r.(fx_UpdatedAt) ≠ 0;
  es_updated : r.(fx_CreatedAt) ≤ r.(fx_UpdatedAt);
  es_owner : ∀ o, r.(fx_LeaseOwnerID) = Some o → validatePrintableASCII o MaxWorkerIDBytes = None;
  es_code : ∀ c, r.(fx_LastErrorCode) = Some c →
            validatePrintableASCII c MaxEffectErrorCodeBytes = None;
  es_lease : ∀ l, r.(fx_LeaseExpiresAt) = Some l → r.(fx_UpdatedAt) < l;
  es_delivered : ∀ d, r.(fx_DeliveredAt) = Some d → r.(fx_CreatedAt) ≤ d;
  es_dead : ∀ d, r.(fx_DeadLetteredAt) = Some d → r.(fx_CreatedAt) ≤ d;
  es_status : effect_status_spec r
}.

Lemma not_is_Some_None {A} (o : option A) : bool_decide (is_Some o) = false ↔ o = None.
Proof. rewrite bool_decide_eq_false. symmetry. apply eq_None_not_Some. Qed.

Lemma effect_status_spec_iff r :
  (let no_lease := bool_decide (r.(fx_LeaseOwnerID) = None)
                   && bool_decide (r.(fx_LeaseExpiresAt) = None) in
   let leased := bool_decide (is_Some r.(fx_LeaseOwnerID))
                 && bool_decide (is_Some r.(fx_LeaseExpiresAt)) in
   let counted := (1 <=? r.(fx_DeliveryAttempts)) && (1 <=? r.(fx_DispatchFencingToken)) in
   let delivered := bool_decide (is_Some r.(fx_DeliveredAt)) in
   let dead := bool_decide (is_Some r.(fx_DeadLetteredAt)) in
   if bool_decide (r.(fx_Status) = EffectStatusPending) then
     no_lease && negb delivered && negb dead
   else if bool_decide (r.(fx_Status) = EffectStatusDelivering) then
     leased && counted && negb delivered && negb dead
   else if bool_decide (r.(fx_Status) = EffectStatusDelivered) then
     no_lease && counted && delivered && negb dead
   else if bool_decide (r.(fx_Status) = EffectStatusDeadLetter) then
     no_lease && counted && negb delivered && dead
   else if bool_decide (r.(fx_Status) = EffectStatusReviewHold) then
     no_lease && negb delivered && negb dead
   else false) = true ↔ effect_status_spec r.
Proof.
  unfold effect_status_spec. cbv zeta.
  case_bool_decide as H1; [|case_bool_decide as H2; [|case_bool_decide as H3;
    [|case_bool_decide as H4; [|case_bool_decide as H5]]]];
    rewrite ?andb_true_iff, ?negb_true_iff, ?not_is_Some_None, ?bool_decide_eq_true, ?Z.leb_le;
    try rewrite H1; try rewrite H2; try rewrite H3; try rewrite H4; try rewrite H5;
    unfold EffectStatusPending, EffectStatusDelivering, EffectStatusDelivered,
      EffectStatusDeadLetter, EffectStatusReviewHold in *; intuition congruence.
Qed.

Lemma effect_state_spec_iff r : validEffectOutboxState r = true ↔ effect_state_spec r.
Proof.
  unfold validEffectOutboxState. cbv zeta. split.
  - intros H.
    destruct (_ || _) eqn:E0; [discriminate|]. do 5 (destruct (holds_at _ _) eqn:? in H; [discriminate|]).
    apply effect_status_spec_iff in H. unfold IsZero, Before, After in *. bool_hyps.
    repeat match goal with H : holds_at _ _ = false |- _ => rewrite holds_at_false in H end.
    split; try done.
    all: intros x Hx; match goal with H : ∀ y, _ = Some y → ?P |- _ => specialize (H x Hx) end;
      try (by apply not_is_Some_None); bool_hyps; lia.
  - intros [[] [] ? Ho Hc Hl Hd Hx Hs]. unfold IsZero, Before, After.
    case_match eqn:E0.
    { exfalso. rewrite !orb_true_iff, !Z.ltb_lt, !Z.eqb_eq in E0. lia. }
    do 5 (case_match eqn:E; [exfalso; apply holds_at_true in E as (x&E&E');
      rewrite ?bool_decide_eq_true, ?negb_true_iff, ?Z.ltb_lt, ?Z.ltb_ge in E';
      first [ apply Ho in E | apply Hc in E | apply Hl in E | apply Hd in E | apply Hx in E ];
      rewrite ?E in E'; (lia || by destruct E') | clear E]).
    by apply effect_status_spec_iff.
Qed.

Lemma DeliveryReport_Validate_code r :
  DeliveryReport_Validate r = None → r.(rep_ErrorCode) ≠ "" →
  validatePrintableASCII r.(rep_ErrorCode) MaxEffectErrorCodeBytes = None.
Proof.
  unfold DeliveryReport_Validate. intros H Hne. autorewrite with go in H.
  rewrite !Forall_cons in H. destruct H as (_&H&_). by case_bool_decide.
Qed.

(** Under one dispatch token a row goes from leased to waiting to finished. *)
Definition effect_phase (r : sqlEffectOutboxRow) : nat :=
  if bool_decide (r.(fx_Status) = EffectStatusDelivering) then 0
  else if bool_decide (r.(fx_Status) = EffectStatusPending) then 1 else 2.

(** No transaction changes such a row. *)
Definition effect_frozen (r : sqlEffectOutboxRow) : Prop :=
  r.(fx_Status) ∈ [EffectStatusDelivered; EffectStatusDeadLetter; EffectStatusReviewHold].

Record effect_order (r r' : sqlEffectOutboxRow) : Prop := {
  ord_same : same_effect r r';
  ord_token : r.(fx_DispatchFencingToken) ≤ r'.(fx_DispatchFencingToken);
  ord_frozen : effect_frozen r → r' = r;
  ord_phase : r'.(fx_DispatchFencingToken) = r.(fx_DispatchFencingToken) →
              (effect_phase r < effect_phase r')%nat ∨ r' = r;
  ord_waiting : r'.(fx_DispatchFencingToken) = r.(fx_DispatchFencingToken) →
                r.(fx_Status) = EffectStatusPending →
                r' = r ∨ r'.(fx_Status) = EffectStatusReviewHold
}.

#[export] Instance effect_order_preorder : PreOrder effect_order.
Proof.
  split.
  - intros r. split; [by repeat split|lia|done|by right|by left].
  - intros r1 r2 r3 [S1 T1 F1 P1 W1] [S2 T2 F2 P2 W2]. split.
    + unfold same_effect in *. intuition congruence.
    + lia.
    + intros H. specialize (F1 H) as ->. by apply F2.
    + intros Heq. destruct P1 as [?| ->]; [lia| |by apply P2; lia].
      destruct P2 as [?| ->]; [lia|left; lia|by left].
    + intros Heq Hp. destruct W1 as [->|Hh]; [lia|done|by apply W2|].
      right. rewrite F2; [done|]. unfold effect_frozen. set_solver.
Qed.

Lemma claimable_status now r : claimable_at now r →
  r.(fx_Status) = EffectStatusPending ∨ r.(fx_Status) = EffectStatusDelivering.
Proof. unfold claimable_at. tauto. Qed.

Lemma not_frozen r s : r.(fx_Status) = s → s = EffectStatusPending ∨ s = EffectStatusDelivering →
  ~ effect_frozen r.
Proof.
  unfold effect_frozen. by intros -> [->| ->]; apply (bool_decide_eq_false_1 _).
Qed.

(** A row that is not terminal has neither outcome. *)
Lemma effect_open_fields r :
  effect_status_spec r → r.(fx_Status) = EffectStatusPending ∨ r.(fx_Status) = EffectStatusDelivering →
  r.(fx_DeliveredAt) = None ∧ r.(fx_DeadLetteredAt) = None.
Proof.
  unfold effect_status_spec. cbv zeta.
  intros [(_&_&?&?)|[(_&_&_&?&?)|[(->&_)|[(->&_)|(_&_&?&?)]]]] [E|E];
    split; first [done|discriminate E].
Qed.

Lemma effect_delivering_fields r :
  effect_status_spec r → r.(fx_Status) = EffectStatusDelivering →
  1 ≤ r.(fx_DeliveryAttempts) ∧ 1 ≤ r.(fx_DispatchFencingToken).
Proof.
  unfold effect_status_spec. cbv zeta.
  intros [(->&_)|[(_&_&?&_)|[(->&_)|[(->&_)|(->&_)]]]] E; first [done|discriminate E].
Qed.

Lemma claimed_ok t t' r cfg owner now :
  effect_ok t r → t ≤ t' → canonicalExecutionTime t' = Ok now →
  validatePrintableASCII owner MaxWorkerIDBytes = None → claimable_at now r →
  effect_counters_ok (claimedEffect r owner (now + effectLeaseTTL cfg) now) = true →
  effect_ok t' (claimedEffect r owner (now + effectLeaseTTL cfg) now)
  ∧ effect_order r (claimedEffect r owner (now + effectLeaseTTL cfg) now)
  ∧ i64 (r.(fx_DispatchFencingToken) + 1) = r.(fx_DispatchFencingToken) + 1.
Proof.
  intros [Hst Hcnt Hrng Hcr Hnm] Hle [Hnow ?]%canonicalExecutionTime_Ok Howner Hcl Hok.
  pose proof (micros_mono _ _ Hle). apply effect_state_spec_iff in Hst as [Hc2 Hcr2 ? ? ? ? ? ? Hss].
  unfold effect_counters_ok in Hok; simpl in Hok. bool_hyps. rewrite Hcnt in *.
  destruct (i64_succ_nonneg (fx_DeliveryAttempts r)) as [E ?]; [lia..|].
  pose proof (effectLeaseTTL_pos cfg). apply claimable_status in Hcl.
  destruct (effect_open_fields _ Hss Hcl) as [Hd1 Hd2]. split; [|split; [|done]].
  - split; simpl; [|by rewrite Hcnt|lia|lia|done].
    apply effect_state_spec_iff. split; simpl; rewrite ?Hcnt, ?Hd1, ?Hd2; try done; try lia.
    + by intros ? [= <-].
    + intros ? [= <-]. lia.
    + right; left. simpl. rewrite Hcnt, Hd1, Hd2. repeat split; eauto; lia.
  - split; simpl; rewrite ?Hcnt; [done|lia| |lia|lia].
    intros Hf. by apply (not_frozen r _ eq_refl Hcl) in Hf.
Qed.

Lemma completed_ok t t' r cfg report now r' answer :
  effect_ok t r → t ≤ t' → canonicalExecutionTime t' = Ok now →
  r.(fx_Status) = EffectStatusDelivering → DeliveryReport_Validate report = None →
  resolveEffectCompletion cfg r report now = Ok (r', answer) →
  effect_ok t' r' ∧ effect_order r r'.
Proof.
  intros [Hst Hcnt Hrng Hcr Hnm] Hle [Hnow ?]%canonicalExecutionTime_Ok Hs Hrep Hres.
  pose proof (micros_mono _ _ Hle). apply effect_state_spec_iff in Hst as [? ? ? ? ? ? ? ? Hss].
  destruct (effect_open_fields _ Hss (or_intror Hs)) as [Hd1 Hd2].
  destruct (effect_delivering_fields _ Hss Hs) as [? ?].
  apply resolveEffectCompletion_inv in Hres
    as (status&available&code&delivered&dead&->&_&_&_&_&_&Hc&Hcase). rewrite Hd1, Hd2 in Hcase.
  split.
  - split; simpl; [|done|lia|lia|done]. apply effect_state_spec_iff.
    split; simpl; try done; try lia.
    + intros c ->. destruct Hc as [?|[[= ->] Hne]]; [done|]. by apply DeliveryReport_Validate_code.
    + intros d ->. destruct Hcase as [(_&[= ->]&_)|[(_&?&_)|(_&?&_)]]; [lia|done..].
    + intros d ->. destruct Hcase as [(_&_&?)|[(_&_&[= ->])|(_&_&?&_)]]; [done|lia|done].
    + unfold effect_status_spec; simpl.
      destruct Hcase as [(->&->&->)|[(->&->&->)|(->&->&->&_)]];
        [right; right; left|right; right; right; left|left]; repeat split; eauto.
  - split; simpl; [done|lia| | |by rewrite Hs].
    + intros Hf. by apply (not_frozen r _ Hs) in Hf; [|right].
    + intros _. left. unfold effect_phase; simpl. rewrite Hs.
      destruct Hcase as [(->&_)|[(->&_)|(->&_)]]; vm_compute; lia.
Qed.

Lemma held_ok t t' r now :
  effect_ok t r → t ≤ t' → canonicalExecutionTime t' = Ok now →
  r.(fx_Status) ∈ [EffectStatusPending; EffectStatusDelivering] →
  effect_ok t' (heldEffect now r) ∧ effect_order r (heldEffect now r).
Proof.
  intros [Hst Hcnt Hrng Hcr Hnm] Hle [Hnow ?]%canonicalExecutionTime_Ok Hs.
  pose proof (micros_mono _ _ Hle). apply effect_state_spec_iff in Hst as [? ? ? ? ? ? ? ? Hss].
  assert (Hs' : fx_Status r = EffectStatusPending ∨ fx_Status r = EffectStatusDelivering) by set_solver.
  destruct (effect_open_fields _ Hss Hs') as [Hd1 Hd2]. split.
  - split; simpl; [|done|lia|lia|done]. apply effect_state_spec_iff.
    split; simpl; rewrite ?Hd1, ?Hd2; try done; try (case_match; lia).
    unfold effect_status_spec; simpl. rewrite Hd1, Hd2. repeat right. done.
  - split; simpl; [done|lia| | |by right].
    + intros Hf. by apply (not_frozen r _ eq_refl Hs') in Hf.
    + intros _. left. unfold effect_phase; simpl. destruct Hs' as [-> | ->]; vm_compute; lia.
Qed.

Lemma effect_change_ok t t' r r' :
  effect_ok t r → t ≤ t' → effect_change t' r r' → effect_ok t' r' ∧ effect_order r r'.
Proof.
  intros Hok Hle [|cfg owner now Hnow Howner Hcl Hc|cfg report now ? answer Hnow Hs Hrep Hres
                 |now Hnow Hs].
  - pose proof (micros_mono _ _ Hle). destruct Hok. split; [split; auto; lia|reflexivity].
  - by destruct (claimed_ok t t' r cfg owner now) as (?&?&_).
  - by eapply completed_ok.
  - by eapply held_ok.
Qed.

(** ** Runs *)

Record outbox_ok (s : time * Database) : Prop := {
  oo_rows : Forall (effect_ok s.1) s.2.(db_effects);
  oo_ids : NoDup (map fx_ID s.2.(db_effects));
  oo_outbox_ids : NoDup (map fx_OutboxID s.2.(db_effects));
  oo_dedupe : NoDup (map (λ r, (r.(fx_Topic), r.(fx_DedupeKey))) s.2.(db_effects))
}.

Lemma key_fresh {B} (k : sqlEffectOutboxRow → B) r rows :
  (∀ x, k x = k r → effect_key_taken r x = true) →
  existsb (effect_key_taken r) rows = false → k r ∉ map k rows.
Proof.
  intros Hk He Hin. apply list_elem_of_In, List.in_map_iff in Hin as (x&Hx&Hin).
  rewrite <- not_true_iff_false, List.existsb_exists in He. naive_solver.
Qed.

Lemma fresh_effect_ok t r : fresh_effect t r → effect_ok t r.
Proof.
  intros (_&Ha&Htok&Hv&Hnm&now&[Hn _]%canonicalExecutionTime_Ok&Hc).
  split; [done|congruence|rewrite Ha; lia|lia|done].
Qed.

Lemma Forall2_map_eq {A B} (R : A → A → Prop) (k : A → B) l l' :
  (∀ x y, R x y → k y = k x) → Forall2 R l l' → map k l' = map k l.
Proof. intros HR. induction 1; simpl; f_equal; auto. Qed.

Lemma outbox_step_ok s s' : outbox_ok s → outbox_step s s' → outbox_ok s'.
Proof.
  destruct s as [t db], s' as [t' db'].
  intros [Hrows Hids Hob Hdd] [Hle (l&news&Hdb'&HF&Hnew)]%outbox_step_rows; simpl in *.
  assert (Hl : Forall (effect_ok t') l).
  { clear -Hrows HF Hle. induction HF as [|x y ? ? Hxy ? IH]; [constructor|].
    apply Forall_cons in Hrows as [Hx Hrows]. constructor; [|by apply IH].
    by apply (effect_change_ok t t' x y). }
  assert (Hk : ∀ B (k : _ → B), (∀ x y, same_effect x y → k y = k x) → map k l = map k (db_effects db)).
  { intros B k Hk. eapply Forall2_map_eq; [|done]. intros x y ?%effect_change_same. auto. }
  split; simpl; rewrite Hdb'.
  1: apply Forall_app; split; [done|].
  1: destruct Hnew as [->|(r&->&Hf&_)]; [constructor|by apply Forall_singleton, fresh_effect_ok].
  all: rewrite map_app, Hk by (intros x y (?&?&?&?&?&?&?&?&?&_); simpl; congruence).
  all: destruct Hnew as [->|(r&->&Hf&Hkey&Hid)]; [by rewrite app_nil_r|].
  all: apply NoDup_snoc; [done|].
  1: rewrite Hid; apply next_id_fresh.
  - apply (key_fresh fx_OutboxID); [|done]. unfold effect_key_taken. intros x ->.
    by rewrite bool_decide_eq_true_2.
  - apply (key_fresh (λ r, (fx_Topic r, fx_DedupeKey r))); [|done]. unfold effect_key_taken.
    intros x [= -> ->]. rewrite (bool_decide_eq_true_2 (fx_Topic r = _)) by done.
    rewrite (bool_decide_eq_true_2 (fx_DedupeKey r = _)) by done. by rewrite orb_true_r.
Qed.

Lemma outbox_run_ok s s' : outbox_ok s → outbox_run s s' → outbox_ok s'.
Proof. intros Hs H. induction H; eauto using outbox_step_ok. Qed.

Lemma outbox_reachable_ok s : outbox_reachable s → outbox_ok s.
Proof.
  intros (t&db&Hdb&Hrun). eapply outbox_run_ok; [|done].
  split; simpl; rewrite Hdb; constructor.
Qed.

Lemma outbox_ok_row s id r : outbox_ok s → effectIn s.2 id = Some r → effect_ok s.1 r.
Proof.
  intros [Hrows _ _ _] [Hr _]%select_one_elem. rewrite Forall_forall in Hrows. auto.
Qed.

(** A row present at one state of a run is present, and ordered, at every later one. *)
Lemma outbox_run_row s s' id r :
  outbox_ok s → outbox_run s s' → effectIn s.2 id = Some r →
  s.1 ≤ s'.1 ∧ ∃ r', effectIn s'.2 id = Some r' ∧ effect_order r r'.
Proof.
  intros Hs Hrun. revert r Hs. induction Hrun as [s|[t db] [t1 db1] s' Hst Hrun IH]; intros r Hs Hr.
  { split; [lia|]. exists r. split; [done|reflexivity]. }
  destruct (outbox_step_row _ _ _ _ _ _ Hst Hr) as [Hle (r1&Hr1&Hch)].
  destruct (effect_change_ok t t1 r r1) as [_ Ho1]; [by apply (outbox_ok_row _ _ _ Hs Hr)|done|done|].
  destruct (IH r1) as [Hle' (r'&Hr'&Ho2)]; [by eapply outbox_step_ok|done|].
  simpl in *. split; [lia|]. exists r'. split; [done|]. by trans r1.
Qed.

(** ** Reading back what a transaction wrote *)

Lemma updateEffect_effectIn db id row f db' :
  effectIn db id = Some row → updateEffectColumns db row.(fx_ID) f = Ok db' →
  (f row).(fx_OutboxID) = row.(fx_OutboxID) →
  effectIn db' id = Some (f row).
Proof.
  intros Hin Hu Hf. pose proof Hin as [Hrow _]%select_one_elem.
  unfold updateEffectColumns in Hu. case_match eqn:E; simplify_eq. apply Nat.eqb_eq in E.
  set (R := λ x y : sqlEffectOutboxRow, y.(fx_OutboxID) = x.(fx_OutboxID) ∧ (x = row → y = f row)).
  assert (HF : Forall2 R (db_effects db)
     (update_rows (fun r => r.(fx_ID) =? row.(fx_ID)) f (db_effects db))).
  { apply update_rows_Forall2; intros x Hx Hp.
    - rewrite (rows_matched_unique _ _ x row E Hx Hrow Hp (Z.eqb_refl _)). by split.
    - split; [done|]. intros ->. by rewrite Z.eqb_refl in Hp. }
  destruct (select_one_Forall2 R (effect_is id) _ _ [] HF) with (x := row) as (y&Hy&_&Hyf); [|done|].
  - intros x y [Hxy _]. unfold effect_is. by rewrite Hxy.
  - rewrite app_nil_r in Hy. unfold effectIn. simpl. by rewrite Hy, Hyf.
Qed.

(** A granted claim: the row before it, the row after it and the delivery. *)
Lemma claimEffect_claimed cfg ctx clock outcome id owner topics t t1 db d db1 :
  outbox_ok (t, db) → t ≤ t1 → clock_reading t1 clock →
  validatePrintableASCII owner MaxWorkerIDBytes = None →
  claimEffect cfg ctx clock outcome id owner topics db = (Ok (Some d), db1) →
  ∃ row now, effectIn db id = Some row ∧ canonicalExecutionTime t1 = Ok now
    ∧ claimable_at now row
    ∧ effectTopicScopeAllows topics row.(fx_Topic) = true
    ∧ d = deliveryOf row owner (now + effectLeaseTTL cfg)
    ∧ i64 (row.(fx_DispatchFencingToken) + 1) = row.(fx_DispatchFencingToken) + 1
    ∧ outbox_ok (t1, db1)
    ∧ effectIn db1 id = Some (claimedEffect row owner (now + effectLeaseTTL cfg) now).
Proof.
  intros Hok Hle Hck Ho Hc.
  assert (Hok1 : outbox_ok (t1, db1)) by (eapply outbox_step_ok; [done|by econstructor]).
  apply claimEffect_inv in Hc as [[_ H]|(row&now&Hrow&Hsc&Hn&Hcl&_&Hcnt&Hu&[[_ [= ->]]|[_ ?]])];
    [by destruct (H d)| |done].
  eapply executionNow_reading in Hn; [|done].
  pose proof (outbox_ok_row _ _ _ Hok Hrow) as Hrok.
  destruct (claimed_ok t t1 row cfg owner now) as (_&_&Hi); [done..|].
  exists row, now. repeat (split; [done|]).
  by apply (updateEffect_effectIn db id row
           (fun r => claimedEffect r owner (now + effectLeaseTTL cfg) now)).
Qed.
