(* ===== verification/EffectOutboxProgress.v ===== *)
(** * The effect outbox makes progress

    The retry delay in closed form, the outcome of every completion of a leased
    row, and the exact batch a claim hands out. *)

From stdpp Require Import sorting.
From Stdlib Require Import Ascii.
From S2P Require Import Prelude GoText GoJson AgentContract TurnTypes MemoryStore MemoryStoreFacts Fixtures TurnService ExecutionTypes SqlDatabase SqlFacts EffectOutbox EffectOutboxFacts.

(** ** A concrete outbox used by the witnesses

    One Turn whose operation committed one effect: queued, leased, completed for
    a retry, leased again after the backoff and delivered.  Each state is
    computed by the operations. *)

(** A day in 2025, in nanoseconds since Go's zero time. *)
Definition demoClock : time := 63890000000 * second.

Definition demoConfig : SQLStoreConfig := mkSQLStoreConfig false (60 * second) 5 (30 * second) 5.

Definition demoAttempt : TurnAttempt :=
  mkTurnAttempt "attempt-1" "turn_1" 1 AttemptStatusRunning "worker-1" "build-1"
    (demoClock + 60 * second) demoClock demoClock None demoClock demoClock.

Definition demoEffect : EffectOutboxDraft :=
  mkEffectOutboxDraft "effect-1" "image.publish" "publish:turn_1" demoData demoClock.

Definition demoTables : Database :=
  mkDatabase
    [turnToSQLRow 1 (mkTurn "turn_1" "user-1" "thread-1" "key-1" "digest-1" demoPlugin
       TurnStatusQueued None demoClock demoClock None None) 1] [] [] [] [] noSettlement.

Definition enqueue (db : Database) : Database :=
  match buildEffectOutboxRow demoAttempt "operation-1" 0 demoEffect demoClock with
  | Ok (row, _) => match insertEffect db row with Ok db' => db' | Err _ => db end
  | Err _ => db
  end.

Definition demoQueued : Database := Eval vm_compute in enqueue demoTables.

Definition claimAt (t : time) (owner : string) : op Database (option EffectDelivery) :=
  claimEffect demoConfig background (Ok t) TxReported "effect-1" owner ["image.publish"].

Definition reportAt (t : time) (token : Z) (owner : string) (report : DeliveryReport)
    : op Database CompleteEffectResult :=
  CompleteEffect demoConfig background (Ok t) TxReported
    (mkCompleteEffectCommand (mkEffectDispatchFence "effect-1" token owner) report).

Definition retryReport : DeliveryReport := mkDeliveryReport DeliveryOutcomeRetry "rate_limited" 0 false.
Definition deliveredReport : DeliveryReport := mkDeliveryReport DeliveryOutcomeDelivered "" 0 false.

Definition demoLeased : Database := Eval vm_compute in snd (claimAt (demoClock + second) "dispatcher-1" demoQueued).
Definition demoWaiting : Database :=
  Eval vm_compute in snd (reportAt (demoClock + 2 * second) 1 "dispatcher-1" retryReport demoLeased).
Definition demoLeasedAgain : Database :=
  Eval vm_compute in snd (claimAt (demoClock + 4 * second) "dispatcher-2" demoWaiting).
Definition demoDelivered : Database :=
  Eval vm_compute in snd (reportAt (demoClock + 5 * second) 2 "dispatcher-2" deliveredReport demoLeasedAgain).

(** The two deliveries handed out. *)
Ltac granted call :=
  let x := eval vm_compute in (fst call) in
  match x with Ok (Some ?d) => exact d end.
Definition demoLease : EffectDelivery :=
  ltac:(granted (claimAt (demoClock + second) "dispatcher-1" demoQueued)).
Definition demoLeaseAgain : EffectDelivery :=
  ltac:(granted (claimAt (demoClock + 4 * second) "dispatcher-2" demoWaiting)).

(** The row of the effect in each state. *)
Ltac effect_row db :=
  let x := eval vm_compute in (effectIn db "effect-1") in
  match x with Some ?r => exact r end.
Definition demoQueuedRow : sqlEffectOutboxRow := ltac:(effect_row demoQueued).
Definition demoLeasedRow : sqlEffectOutboxRow := ltac:(effect_row demoLeased).

Lemma demoQueued_reachable : outbox_reachable (demoClock, demoQueued).
Proof.
  exists demoClock, demoTables. split; [done|]. apply rtc_once.
  eapply (os_enqueue demoAttempt "operation-1" 0 demoEffect _ _ demoClock);
    [lia|vm_compute; reflexivity..].
Qed.

Lemma demo_claim_step : outbox_step (demoClock, demoQueued) (demoClock + second, demoLeased).
Proof.
  eapply (os_claim demoConfig background _ TxReported "effect-1" "dispatcher-1" ["image.publish"]);
    [unfold second; lia|by left|vm_compute; reflexivity..].
Qed.

Lemma demo_retry_step :
  outbox_step (demoClock + second, demoLeased) (demoClock + 2 * second, demoWaiting).
Proof.
  eapply (os_complete demoConfig background _ TxReported
    (mkCompleteEffectCommand (mkEffectDispatchFence "effect-1" 1 "dispatcher-1") retryReport));
    [unfold second; lia|by left|vm_compute; reflexivity..].
Qed.

Lemma demo_claim_again_step :
  outbox_step (demoClock + 2 * second, demoWaiting) (demoClock + 4 * second, demoLeasedAgain).
Proof.
  eapply (os_claim demoConfig background _ TxReported "effect-1" "dispatcher-2" ["image.publish"]);
    [unfold second; lia|by left|vm_compute; reflexivity..].
Qed.

Lemma demo_deliver_step :
  outbox_step (demoClock + 4 * second, demoLeasedAgain) (demoClock + 5 * second, demoDelivered).
Proof.
  eapply (os_complete demoConfig background _ TxReported
    (mkCompleteEffectCommand (mkEffectDispatchFence "effect-1" 2 "dispatcher-2") deliveredReport));
    [unfold second; lia|by left|vm_compute; reflexivity..].
Qed.

Lemma outbox_reachable_step s s' : outbox_reachable s → outbox_step s s' → outbox_reachable s'.
Proof. intros (t&db&Hdb&Hrun) Hs. exists t, db. split; [done|]. by eapply rtc_r. Qed.

Lemma demoLeased_reachable : outbox_reachable (demoClock + second, demoLeased).
Proof. eapply outbox_reachable_step; [apply demoQueued_reachable|apply demo_claim_step]. Qed.

Lemma demoWaiting_reachable : outbox_reachable (demoClock + 2 * second, demoWaiting).
Proof. eapply outbox_reachable_step; [apply demoLeased_reachable|apply demo_retry_step]. Qed.

Lemma demoLeasedAgain_reachable : outbox_reachable (demoClock + 4 * second, demoLeasedAgain).
Proof. eapply outbox_reachable_step; [apply demoWaiting_reachable|apply demo_claim_again_step]. Qed.

Lemma demoDelivered_reachable : outbox_reachable (demoClock + 5 * second, demoDelivered).
Proof. eapply outbox_reachable_step; [apply demoLeasedAgain_reachable|apply demo_deliver_step]. Qed.

#[export] Hint Resolve demoQueued_reachable demoLeased_reachable demoWaiting_reachable
  demoLeasedAgain_reachable demoDelivered_reachable : go.

(** ** The effect outbox makes progress

    The retry delay in closed form, the outcome of every completion of a leased
    row, and the exact batch a claim hands out. *)

(** ** The retry delay *)

Lemma doubleDelay_min n d :
  0 < d → d < 2 * MaxEffectRetryBackoff →
  0 < doubleDelay n d
  ∧ Z.min (doubleDelay n d) MaxEffectRetryBackoff = Z.min (d * 2 ^ Z.of_nat n) MaxEffectRetryBackoff.
Proof.
  assert (HM : MaxEffectRetryBackoff = 300000000000) by reflexivity.
  revert d. induction n as [|n IH]; intros d Hd Hd2.
  { simpl doubleDelay. rewrite Z.mul_1_r. done. }
  cbn [doubleDelay]. rewrite Nat2Z.inj_succ, Z.pow_succ_r by lia.
  pose proof (Z.pow_pos_nonneg 2 (Z.of_nat n) ltac:(lia) ltac:(lia)).
  case_match; bool_hyps.
  - rewrite i64_small by lia. destruct (IH (d * 2)) as [? E]; [lia..|]. split; [done|].
    rewrite E. f_equal. lia.
  - split; [done|]. rewrite !Z.min_r; nia.
Qed.

(** The delay before the [a]-th redelivery is the doubled one-second backoff
    capped at five minutes, or the provider's hint if that is longer: it is at
    least one second, never above the cap, never shorter than the hint, and it
    does not shrink as attempts accumulate. *)
Theorem effect_retry_delay_spec a hint :
  1 ≤ a → 0 ≤ hint ≤ MaxEffectRetryBackoff →
  effectRetryDelay a hint
    = Z.max hint (Z.min (DefaultEffectRetryBackoff * 2 ^ (a - 1)) MaxEffectRetryBackoff)
  ∧ DefaultEffectRetryBackoff ≤ effectRetryDelay a hint ≤ MaxEffectRetryBackoff
  ∧ hint ≤ effectRetryDelay a hint
  ∧ effectRetryDelay a hint ≤ effectRetryDelay (a + 1) hint.
Proof.
  assert (HM : MaxEffectRetryBackoff = 300000000000) by reflexivity.
  assert (HD : DefaultEffectRetryBackoff = 1000000000) by reflexivity.
  assert (Hmain : ∀ b, 1 ≤ b → 0 ≤ hint ≤ MaxEffectRetryBackoff → effectRetryDelay b hint
    = Z.max hint (Z.min (DefaultEffectRetryBackoff * 2 ^ (b - 1)) MaxEffectRetryBackoff)).
  { intros b Hb Hh. unfold effectRetryDelay.
    destruct (doubleDelay_min (Z.to_nat (b - 1)) DefaultEffectRetryBackoff) as [Hpos E]; [lia..|].
    rewrite Z2Nat.id in E by lia. rewrite <- E. repeat (case_match; bool_hyps; try lia). }
  intros Ha Hh. pose proof (Hmain a Ha Hh) as E. pose proof (Hmain (a + 1) ltac:(lia) Hh) as E1.
  replace (a + 1 - 1) with (Z.succ (a - 1)) in E1 by lia. rewrite Z.pow_succ_r in E1 by lia.
  pose proof (Z.pow_pos_nonneg 2 (a - 1) ltac:(lia) ltac:(lia)).
  split; [done|]. rewrite E, E1. lia.
Qed.

Lemma effect_retry_delay_spec_witness :
  (1 ≤ 4 ∧ 0 ≤ 3 * second ≤ MaxEffectRetryBackoff) ∧ effectRetryDelay 4 (3 * second) = 8 * second.
Proof.
  split; [by vm_compute|].
  by rewrite (proj1 (effect_retry_delay_spec 4 (3 * second) ltac:(lia) ltac:(by vm_compute))).
Defined.

(** ** Updates succeed *)

Lemma rows_matched_key {A} (k : A → Z) (l : list A) x :
  NoDup (map k l) → x ∈ l → rows_matched (fun r => k r =? k x) l = 1%nat.
Proof.
  unfold rows_matched. induction l as [|y l IH]; simpl; [by intros _ ?%elem_of_nil|].
  intros [Hy Hl]%NoDup_cons [->|Hx]%elem_of_cons.
  - rewrite Z.eqb_refl. simpl. f_equal. apply length_zero_iff_nil.
    destruct (List.filter _ l) as [|z f] eqn:E; [done|exfalso].
    assert (List.In z (List.filter (fun r => k r =? k y) l)) as Hz by (rewrite E; by left).
    apply List.filter_In in Hz as [Hz Hk]. bool_hyps. apply Hy. rewrite <- Hk.
    apply list_elem_of_In, List.in_map, Hz.
  - assert (k y =? k x = false) as ->.
    { apply Z.eqb_neq. intros E. apply Hy. rewrite E. apply list_elem_of_In, List.in_map.
      by apply list_elem_of_In. }
    by apply IH.
Qed.

Lemma updateEffectColumns_succeeds s id row f :
  outbox_ok s → effectIn s.2 id = Some row →
  updateEffectColumns s.2 row.(fx_ID) f
  = Ok (set_effects s.2 (update_rows (fun r => r.(fx_ID) =? row.(fx_ID)) f s.2.(db_effects))).
Proof.
  intros [_ Hids _ _] [Hr _]%select_one_elem. unfold updateEffectColumns.
  by rewrite (rows_matched_key fx_ID _ row Hids Hr).
Qed.

(** An update of one row leaves every other effect as it was. *)
Lemma updateEffect_frame s id id' row f :
  outbox_ok s → effectIn s.2 id = Some row → (f row).(fx_OutboxID) = row.(fx_OutboxID) → id' ≠ id →
  effectIn (set_effects s.2 (update_rows (fun r => r.(fx_ID) =? row.(fx_ID)) f s.2.(db_effects))) id'
  = effectIn s.2 id'.
Proof.
  intros Hs Hin Hf Hne. pose proof Hin as [Hr Hid]%select_one_elem.
  unfold effect_is in Hid. bool_hyps. unfold effectIn. simpl.
  pose proof (rows_matched_key fx_ID _ row (oo_ids _ Hs) Hr) as E.
  assert (Hall : ∀ x, x ∈ db_effects s.2 → fx_ID x =? fx_ID row = true → x = row).
  { intros x Hx Hp. exact (rows_matched_unique _ _ x row E Hx Hr Hp (Z.eqb_refl _)). }
  clear E Hs Hin Hr. induction (db_effects s.2) as [|x l IH]; simpl; [done|].
  unfold select_one, effect_is in *. simpl.
  assert (IH' := IH (λ y Hy, Hall y (list_elem_of_further _ _ _ Hy))).
  destruct (fx_ID x =? fx_ID row) eqn:Ex.
  - rewrite (Hall x (list_elem_of_here _ _) Ex), Hf, Hid.
    rewrite bool_decide_eq_false_2 by done. exact IH'.
  - case_bool_decide; [done|exact IH'].
Qed.

Lemma background_live (b : bool) : (if b then background 2%nat else None) = None.
Proof. by destruct b. Qed.

(** ** Completing a leased row *)

(** The status a report leads to, by attempts used and budget. *)
Definition outcome_status (budget attempts : Z) (r : DeliveryReport) : EffectStatus :=
  if bool_decide (r.(rep_Outcome) = DeliveryOutcomeDelivered) then EffectStatusDelivered
  else if bool_decide (r.(rep_Outcome) = DeliveryOutcomePermanent) then EffectStatusDeadLetter
  else if (attempts <? budget)
          && (bool_decide (r.(rep_Outcome) = DeliveryOutcomeRetry) || r.(rep_IdempotentRetrySafe))
  then EffectStatusPending else EffectStatusDeadLetter.

Lemma resolveEffectCompletion_status cfg row report now :
  DeliveryReport_Validate report = None →
  ∃ r' a, resolveEffectCompletion cfg row report now = Ok (r', a)
    ∧ a.(cer_Status) = outcome_status (maxDeliveryAttemptsBudget cfg) row.(fx_DeliveryAttempts) report.
Proof.
  unfold DeliveryReport_Validate. intros H. autorewrite with go in H. rewrite !Forall_cons in H.
  destruct H as (Hv&_). apply when_None, negb_false_iff in Hv. unfold DeliveryOutcome_Valid in Hv.
  bool_hyps. unfold resolveEffectCompletion, outcome_status. rewrite Z.ltb_antisym.
  case_bool_decide as H1; [eauto|]. case_bool_decide as H2; [eauto|].
  case_bool_decide as H3; simpl.
  { rewrite andb_true_r. destruct (_ <=? _); simpl; eauto. }
  rewrite (bool_decide_eq_true_2 (_ = DeliveryOutcomeUnknown)) by set_solver.
  destruct (rep_IdempotentRetrySafe report), (_ <=? _); simpl; eauto.
Qed.

(** The completion of a leased row, in any well-formed outbox. *)
Lemma completeEffect_leased cfg (t t1 now : time) db id r owner report :
  outbox_ok (t, db) → canonicalExecutionTime t1 = Ok now →
  effectIn db id = Some r → r.(fx_Status) = EffectStatusDelivering →
  r.(fx_LeaseOwnerID) = Some owner → DeliveryReport_Validate report = None →
  ∃ a db1 r1,
    CompleteEffect cfg background (Ok t1) TxReported
      (mkCompleteEffectCommand (mkEffectDispatchFence id r.(fx_DispatchFencingToken) owner) report) db
      = (Ok a, db1)
    ∧ effectIn db1 id = Some r1
    ∧ r1.(fx_Status) = outcome_status (maxDeliveryAttemptsBudget cfg) r.(fx_DeliveryAttempts) report
    ∧ a.(cer_Status) = r1.(fx_Status) ∧ a.(cer_Replay) = false
    ∧ r1.(fx_LeaseOwnerID) = None ∧ r1.(fx_LeaseExpiresAt) = None
    ∧ (r1.(fx_Status) = EffectStatusPending →
       r1.(fx_AvailableAt) = now + effectRetryDelay r.(fx_DeliveryAttempts) report.(rep_RetryAfter))
    ∧ ∀ id', id' ≠ id → effectIn db1 id' = effectIn db id'.
Proof.
  intros Hs Hnow Hin Hst Hown Hrep.
  pose proof (outbox_ok_row _ _ _ Hs Hin) as [Hok _ _ _ [Hname _]]. simpl in *.
  apply effect_state_spec_iff in Hok as [_ _ _ Ho _ _ _ _ Hss].
  destruct (effect_delivering_fields _ Hss Hst) as [_ Htok].
  assert (Hid : fx_OutboxID r = id).
  { apply select_one_elem in Hin as [_ H]. unfold effect_is in H. by bool_hyps. }
  destruct (resolveEffectCompletion_status cfg r report now Hrep) as (r1&a&Hres&Hstatus).
  pose proof (resolveEffectCompletion_inv _ _ _ _ _ _ Hres)
    as (status&av&code&dl&dd&->&_&Ha&_&Hreplay&_&_&Hcase).
  set (done_row := completedEffect r status av code dl dd now) in *.
  exists a, (set_effects db (update_rows (fun x => x.(fx_ID) =? r.(fx_ID)) (fun _ => done_row) db.(db_effects))),
    done_row.
  pose proof (updateEffectColumns_succeeds (t, db) id r (fun _ => done_row) Hs Hin) as Hu. simpl in Hu.
  split; [|split; [|split; [|split; [|split; [|split; [|split; [|split]]]]]]]; try done.
  - unfold CompleteEffect, CompleteEffectCommand_Validate, EffectDispatchFence_Validate. simpl.
    rewrite <- Hid at 1. rewrite Hname. rewrite (proj2 (Z.ltb_ge _ _) Htok). simpl.
    rewrite (Ho _ Hown), Hrep. unfold writeTransaction. rewrite background_live. simpl.
    unfold completeEffectBody, lockEffect. simpl. unfold effectIn in Hin. rewrite Hin.
    rewrite Z.eqb_refl, Hst, Hown. simpl. rewrite bool_decide_eq_true_2 by done.
    rewrite Hnow, Hres. simpl. by rewrite Hu.
  - by eapply (updateEffect_effectIn db id r (fun _ => done_row)).
  - unfold done_row. simpl. congruence.
  - intros Hp. unfold done_row in *. simpl in *. destruct Hcase as [(->&_)|[(->&_)|(_&_&_&->&_)]]; done.
  - intros id' Hne. by apply (updateEffect_frame (t, db) id id' r).
Qed.

(** A completion that presents the fence of a leased row always resolves it,
    and to exactly one outcome: delivered; dead-lettered on a permanent failure,
    on an ambiguous one that is not safe to repeat, or when the delivery budget
    is spent; otherwise pending again after the retry delay.  The lease is gone
    and no other row changes. *)
Theorem complete_effect_outcome cfg (t t1 now : time) db id r owner report :
  outbox_reachable (t, db) → t ≤ t1 → canonicalExecutionTime t1 = Ok now →
  effectIn db id = Some r → r.(fx_Status) = EffectStatusDelivering →
  r.(fx_LeaseOwnerID) = Some owner → DeliveryReport_Validate report = None →
  ∃ a db1 r1,
    CompleteEffect cfg background (Ok t1) TxReported
      (mkCompleteEffectCommand (mkEffectDispatchFence id r.(fx_DispatchFencingToken) owner) report) db
      = (Ok a, db1)
    ∧ effectIn db1 id = Some r1
    ∧ r1.(fx_Status) = outcome_status (maxDeliveryAttemptsBudget cfg) r.(fx_DeliveryAttempts) report
    ∧ a.(cer_Status) = r1.(fx_Status) ∧ a.(cer_Replay) = false
    ∧ r1.(fx_LeaseOwnerID) = None ∧ r1.(fx_LeaseExpiresAt) = None
    ∧ (r1.(fx_Status) = EffectStatusPending →
       r1.(fx_AvailableAt) = now + effectRetryDelay r.(fx_DeliveryAttempts) report.(rep_RetryAfter))
    ∧ ∀ id', id' ≠ id → effectIn db1 id' = effectIn db id'.
Proof. intros Hs%outbox_reachable_ok _. by apply (completeEffect_leased cfg t). Qed.

Lemma complete_effect_outcome_witness :
  ∃ a db1 r1,
    reportAt (demoClock + 2 * second) 1 "dispatcher-1" retryReport demoLeased = (Ok a, db1)
    ∧ effectIn db1 "effect-1" = Some r1 ∧ r1.(fx_Status) = EffectStatusPending.
Proof.
  destruct (complete_effect_outcome demoConfig (demoClock + second) (demoClock + 2 * second)
    (demoClock + 2 * second) demoLeased "effect-1" demoLeasedRow "dispatcher-1" retryReport demoLeased_reachable)
    as (a&db1&r1&H1&H2&H3&_).
  - unfold second; lia.
  - vm_compute; reflexivity.
  - vm_compute; reflexivity.
  - reflexivity.
  - reflexivity.
  - vm_compute; reflexivity.
  - exists a, db1, r1. split; [exact H1|]. split; [exact H2|exact H3].
Defined.

(** ** Claiming a batch *)

(** The Turn of an effect can be locked, is not under review, and the dispatch
    counter has room. *)
Definition deliverable (db : Database) (r : sqlEffectOutboxRow) : Prop :=
  (∃ turn, lockTurn db (turn_is r.(fx_TurnID)) = Ok turn)
  ∧ lookupSettlementReviewTx db r.(fx_TurnID) = Ok None
  ∧ r.(fx_DeliveryAttempts) + 1 < 2 ^ 63.

Lemma effect_due_iff now r : effect_due now r = true ↔ claimable_at now r.
Proof.
  unfold effect_due, claimable_at. rewrite orb_true_iff, !andb_true_iff, !bool_decide_eq_true.
  rewrite Z.leb_le, holds_at_true. setoid_rewrite Z.leb_le. done.
Qed.

Lemma effect_status_valid r : effect_status_spec r → EffectStatus_Valid r.(fx_Status) = true.
Proof.
  unfold effect_status_spec, EffectStatus_Valid. intros H. apply bool_decide_eq_true. set_solver.
Qed.

Lemma claimEffect_succeeds cfg t t1 now db r owner topics :
  outbox_ok (t, db) → canonicalExecutionTime t1 = Ok now →
  effectIn db r.(fx_OutboxID) = Some r → claimable_at now r → deliverable db r →
  effectTopicScopeAllows topics r.(fx_Topic) = true →
  claimEffect cfg background (Ok t1) TxReported r.(fx_OutboxID) owner topics db
  = (Ok (Some (deliveryOf r owner (now + effectLeaseTTL cfg))),
     set_effects db (update_rows (fun x => x.(fx_ID) =? r.(fx_ID))
       (fun x => claimedEffect x owner (now + effectLeaseTTL cfg) now) db.(db_effects))).
Proof.
  intros Hs Hnow Hin Hcl ((turn&Hturn)&Hrev&Hroom) Hsc.
  pose proof (outbox_ok_row _ _ _ Hs Hin) as [Hok Hcnt Hrng _ [_ Hpath]].
  apply effect_state_spec_iff in Hok as [_ _ _ _ _ _ _ _ Hss].
  pose proof (updateEffectColumns_succeeds (t, db) _ r
    (fun x => claimedEffect x owner (now + effectLeaseTTL cfg) now) Hs Hin) as Hu. simpl in Hu.
  unfold claimEffect. unfold effectIn in Hin. rewrite Hin, Hpath.
  unfold writeTransaction. rewrite background_live. simpl.
  unfold claimEffectBody, lockEffect. rewrite Hturn, Hrev, Hin, Hsc. simpl.
  rewrite bool_decide_eq_true_2 by done. rewrite Hnow, (effect_status_valid _ Hss).
  apply effect_due_iff in Hcl. unfold effect_due in Hcl. unfold After.
  rewrite <- Z.leb_antisym.
  replace (holds_at (fx_LeaseExpiresAt r) (fun l => negb (now <? l)))
    with (holds_at (fx_LeaseExpiresAt r) (fun l => l <=? now))
    by (destruct (fx_LeaseExpiresAt r); simpl; [apply Z.leb_antisym|done]).
  rewrite Hcl.
  assert (effect_counters_ok (claimedEffect r owner (now + effectLeaseTTL cfg) now) = true) as ->.
  { unfold effect_counters_ok. simpl. rewrite Hcnt, !i64_small by lia.
    apply andb_true_iff. rewrite !Z.leb_le. lia. }
  by rewrite Hu.
Qed.

Lemma outbox_later t t' db : outbox_ok (t, db) → t ≤ t' → outbox_ok (t', db).
Proof. intros Hs Hle. eapply outbox_step_ok; [exact Hs|]. by apply os_other. Qed.

(** The environment in which nothing else runs. *)
Definition alone (t : time) : nat → claimEnv :=
  fun _ => mkClaimEnv (fun db => db) background (Ok t) TxReported.

Lemma claimEffectsLoop_all cfg t1 now owner topics rs : ∀ t db i deliveries,
  outbox_ok (t, db) → t ≤ t1 → canonicalExecutionTime t1 = Ok now →
  validatePrintableASCII owner MaxWorkerIDBytes = None →
  NoDup (map fx_OutboxID rs) →
  Forall (λ r, effectIn db r.(fx_OutboxID) = Some r ∧ claimable_at now r ∧ deliverable db r
               ∧ effectTopicScopeAllows topics r.(fx_Topic) = true) rs →
  ∃ db', claimEffectsLoop cfg (alone t1) i owner topics (map fx_OutboxID rs) deliveries db
         = (deliveries ++ map (λ r, deliveryOf r owner (now + effectLeaseTTL cfg)) rs, None, db')
    ∧ outbox_ok (t1, db')
    ∧ (∀ id, id ∉ map fx_OutboxID rs → effectIn db' id = effectIn db id)
    ∧ ∀ r, r ∈ rs → effectIn db' r.(fx_OutboxID)
                    = Some (claimedEffect r owner (now + effectLeaseTTL cfg) now).
Proof.
  induction rs as [|r rs IH]; intros t db i deliveries Hs Hle Hnow Ho Hnd Hall; simpl.
  { exists db. rewrite app_nil_r. split; [done|]. split; [by eapply outbox_later|].
    split; [done|]. by intros r ?%elem_of_nil. }
  apply NoDup_cons in Hnd as [Hr Hnd]. apply Forall_cons in Hall as [(Hin&Hcl&Hdel&Hsc) Hall].
  pose proof (claimEffect_succeeds cfg t t1 now db r owner topics Hs Hnow Hin Hcl Hdel Hsc) as Hc.
  rewrite Hc.
  assert (Hs1 : outbox_ok (t1, set_effects db (update_rows (fun x => x.(fx_ID) =? r.(fx_ID))
       (fun x => claimedEffect x owner (now + effectLeaseTTL cfg) now) db.(db_effects)))).
  { eapply outbox_step_ok; [exact Hs|]. eapply os_claim; [done|by left|done|exact Hc]. }
  destruct (IH t1 _ (S i) (deliveries ++ [deliveryOf r owner (now + effectLeaseTTL cfg)]) Hs1)
    as (db'&Hdb'&Hs'&Hout&Hrows); [lia|done..| |].
  - rewrite Forall_forall in *. intros x Hx. destruct (Hall x Hx) as (Hix&?&?&?).
    split; [|done].
    rewrite (updateEffect_frame (t, db) (fx_OutboxID r) _ r
               (fun x => claimedEffect x owner (now + effectLeaseTTL cfg) now)); [done..|].
    intros E. apply Hr. rewrite <- E. apply list_elem_of_In, List.in_map. by apply list_elem_of_In.
  - exists db'. rewrite Hdb', <- app_assoc. split; [done|]. split; [done|]. split.
    + intros id [Hid1 Hid2]%not_elem_of_cons. rewrite Hout by done.
      by apply (updateEffect_frame (t, db) (fx_OutboxID r) _ r
                  (fun x => claimedEffect x owner (now + effectLeaseTTL cfg) now)).
    + intros x [->|Hx]%elem_of_cons; [|by apply Hrows]. rewrite Hout by done.
      exact (updateEffect_effectIn db (fx_OutboxID r) r
               (fun x => claimedEffect x owner (now + effectLeaseTTL cfg) now) _ Hin
               (updateEffectColumns_succeeds (t, db) _ r _ Hs Hin) eq_refl).
Qed.

#[export] Instance effect_before_total : Total effect_before.
Proof. intros a b. unfold effect_before. lia. Qed.

#[export] Instance effect_before_trans : Transitive effect_before.
Proof. intros a b c. unfold effect_before. lia. Qed.

Lemma NoDup_map_effectIn db r :
  NoDup (map fx_OutboxID db.(db_effects)) → r ∈ db.(db_effects) →
  effectIn db r.(fx_OutboxID) = Some r.
Proof.
  unfold effectIn, select_one, effect_is. induction (db_effects db) as [|x l IH]; simpl.
  { by intros _ ?%elem_of_nil. }
  intros [Hx Hnd]%NoDup_cons [->|Hr]%elem_of_cons; [by rewrite bool_decide_eq_true_2|].
  rewrite bool_decide_eq_false_2; [auto|]. intros E. apply Hx. rewrite E.
  apply list_elem_of_In, List.in_map. by apply list_elem_of_In.
Qed.

Definition due_effects (now : time) (topics : list string) (db : Database) : list sqlEffectOutboxRow :=
  List.filter (fun r => effect_due now r && effectTopicScopeAllows topics r.(fx_Topic)) db.(db_effects).

Lemma ClaimEffectsCommand_limit_pos c : 1 ≤ ClaimEffectsCommand_limit c.
Proof. unfold ClaimEffectsCommand_limit. case_match; bool_hyps; [done|lia]. Qed.

Lemma NoDup_map_sub {A B} (k : A → B) (p : A → bool) (l : list A) :
  NoDup (map k l) → NoDup (map k (List.filter p l)).
Proof.
  induction l as [|x l IH]; simpl; [constructor|]. intros [Hx Hl]%NoDup_cons.
  destruct (p x); simpl; [|auto]. constructor; [|auto]. intros Hin. apply Hx.
  apply list_elem_of_In, List.in_map_iff in Hin as (y&<-&[Hy _]%List.filter_In).
  apply list_elem_of_In, List.in_map, Hy.
Qed.

Lemma ClaimEffectsCommand_owner c :
  ClaimEffectsCommand_Validate c = None → validatePrintableASCII c.(ce_LeaseOwnerID) MaxWorkerIDBytes = None.
Proof.
  unfold ClaimEffectsCommand_Validate. intros H. apply first_error_None in H.
  rewrite !Forall_app, !Forall_cons in H. tauto.
Qed.

(** The batch of a scan: the oldest due effects, up to the limit. *)
Definition due_batch (now : time) (command : ClaimEffectsCommand) (db : Database)
    : list sqlEffectOutboxRow :=
  take (Z.to_nat (ClaimEffectsCommand_limit command))
    (merge_sort effect_before (due_effects now command.(ce_Topics) db)).

Lemma due_effects_elem now topics db r :
  r ∈ due_effects now topics db →
  r ∈ db.(db_effects) ∧ claimable_at now r ∧ effectTopicScopeAllows topics r.(fx_Topic) = true.
Proof.
  intros Hr. apply list_elem_of_In, List.filter_In in Hr as [Hr Hp]. bool_hyps.
  rewrite <- effect_due_iff. by rewrite list_elem_of_In.
Qed.

Lemma due_batch_elem now command db r :
  r ∈ due_batch now command db → r ∈ due_effects now command.(ce_Topics) db.
Proof.
  intros Hr. rewrite <- (merge_sort_Permutation effect_before).
  by eapply elem_of_take in Hr as (?&?%list_elem_of_lookup_2&_).
Qed.

Lemma due_batch_NoDup s now command :
  outbox_ok s → NoDup (map fx_OutboxID (due_batch now command s.2)).
Proof.
  intros Hs. unfold due_batch. set (limit := Z.to_nat _). set (sorted := merge_sort _ _).
  assert (NoDup (map fx_OutboxID sorted)) as Hnd.
  { unfold sorted. rewrite (Permutation_map fx_OutboxID (merge_sort_Permutation _ _)).
    apply NoDup_map_sub, (oo_outbox_ids _ Hs). }
  rewrite <- (take_drop limit sorted), map_app in Hnd. by apply NoDup_app in Hnd as [? _].
Qed.

Lemma scan_due_batch (t t1 now : time) command db :
  outbox_ok (t, db) → canonicalExecutionTime t1 = Ok now →
  scanClaimableEffects (Ok t1) command db = Ok (map fx_OutboxID (due_batch now command db)).
Proof.
  intros Hs Hnow. unfold scanClaimableEffects. simpl. rewrite Hnow.
  fold (due_effects now (ce_Topics command) db). fold (due_batch now command db).
  rewrite (proj2 (List.forallb_forall _ _)); [done|].
  intros x (r&<-&Hr)%List.in_map_iff. apply bool_decide_eq_true.
  apply list_elem_of_In, due_batch_elem, due_effects_elem in Hr as [Hin _].
  pose proof (oo_rows _ Hs) as HF. rewrite Forall_forall in HF. apply (HF r Hin).
Qed.

(** An undisturbed claim hands out the due batch and leases its rows. *)
Lemma claimEffects_alone cfg (t t1 now : time) command db :
  outbox_ok (t, db) → t ≤ t1 → canonicalExecutionTime t1 = Ok now →
  ClaimEffectsCommand_Validate command = None →
  Forall (deliverable db) (due_effects now command.(ce_Topics) db) →
  ∃ db',
    ClaimEffects cfg background (Ok t1) (alone t1) command db
    = (map (λ r, deliveryOf r command.(ce_LeaseOwnerID) (now + effectLeaseTTL cfg)) (due_batch now command db),
       when (bool_decide (due_batch now command db = [])) ErrNoClaimableEffects, db')
    ∧ outbox_ok (t1, db')
    ∧ (∀ id, id ∉ map fx_OutboxID (due_batch now command db) → effectIn db' id = effectIn db id)
    ∧ (due_batch now command db = [] → db' = db)
    ∧ ∀ r, r ∈ due_batch now command db →
        effectIn db' r.(fx_OutboxID)
        = Some (claimedEffect r command.(ce_LeaseOwnerID) (now + effectLeaseTTL cfg) now).
Proof.
  intros Hs Hle Hnow Hv Hdel.
  assert (Hall : Forall (λ r, effectIn db r.(fx_OutboxID) = Some r ∧ claimable_at now r
     ∧ deliverable db r ∧ effectTopicScopeAllows command.(ce_Topics) r.(fx_Topic) = true)
     (due_batch now command db)).
  { rewrite Forall_forall in *. intros r Hr%due_batch_elem.
    destruct (due_effects_elem _ _ _ _ Hr) as (Hin&?&?). split; [|auto].
    apply NoDup_map_effectIn; [apply (oo_outbox_ids _ Hs)|done]. }
  destruct (claimEffectsLoop_all cfg t1 now (ce_LeaseOwnerID command) (ce_Topics command)
              (due_batch now command db) t db 0 [] Hs Hle Hnow
              (ClaimEffectsCommand_owner _ Hv) (due_batch_NoDup (t, db) now command Hs) Hall)
    as (db'&Hdb'&Hs'&Hout&Hrows).
  exists db'. unfold ClaimEffects. cbn [first_error background].
  rewrite Hv, (scan_due_batch t t1 now command db Hs Hnow), Hdb'.
  split; [|split; [done|split; [done|split; [|done]]]].
  - by destruct (due_batch now command db).
  - intros E. rewrite E in Hdb'. simpl in Hdb'. congruence.
Qed.

(** With no concurrent dispatcher, a claim hands out exactly the due effects
    of the dispatcher's topics, oldest first, up to the batch limit: every one
    handed out was due, none that is due and left behind should have come
    before one handed out, and an empty outbox answers ErrNoClaimableEffects
    and writes nothing. *)
Theorem claim_effects_batch cfg (t t1 now : time) command db :
  outbox_reachable (t, db) → t ≤ t1 → canonicalExecutionTime t1 = Ok now →
  ClaimEffectsCommand_Validate command = None →
  Forall (deliverable db) (due_effects now command.(ce_Topics) db) →
  (due_effects now command.(ce_Topics) db = [] →
   ClaimEffects cfg background (Ok t1) (alone t1) command db = ([], Some ErrNoClaimableEffects, db))
  ∧ (due_effects now command.(ce_Topics) db ≠ [] →
     ∃ batch rest db',
       Permutation (due_effects now command.(ce_Topics) db) (batch ++ rest)
       ∧ length batch = Nat.min (Z.to_nat (ClaimEffectsCommand_limit command))
                          (length (due_effects now command.(ce_Topics) db))
       ∧ (∀ r r', r ∈ batch → r' ∈ rest → effect_before r r')
       ∧ ClaimEffects cfg background (Ok t1) (alone t1) command db
         = (map (λ r, deliveryOf r command.(ce_LeaseOwnerID) (now + effectLeaseTTL cfg)) batch, None, db')).
Proof.
  intros Hs%outbox_reachable_ok Hle Hnow Hv Hdel.
  pose proof (ClaimEffectsCommand_limit_pos command) as Hlim.
  pose proof (merge_sort_Permutation effect_before (due_effects now (ce_Topics command) db)) as Hperm.
  destruct (claimEffects_alone cfg t t1 now command db Hs Hle Hnow Hv Hdel) as (db'&Hc&_&_&Hnone&_).
  unfold due_batch in Hc, Hnone. set (sorted := merge_sort _ _) in *. set (limit := Z.to_nat _) in *. split.
  - intros Hnil. assert (sorted = []) as E by (unfold sorted; by rewrite Hnil).
    rewrite E, take_nil in Hc, Hnone. by rewrite Hc, Hnone.
  - intros Hne. exists (take limit sorted), (drop limit sorted), db'.
    rewrite take_drop. split; [by rewrite Hperm|]. split; [by rewrite length_take, <- Hperm|]. split.
    + intros r r' Hr Hr'. eapply (StronglySorted_app_1_elem_of effect_before); [|done..].
      rewrite take_drop. apply StronglySorted_merge_sort; apply _.
    + rewrite Hc. case_bool_decide as E; [|done]. exfalso. apply (f_equal length) in E.
      rewrite length_take, Hperm in E. destruct (due_effects _ _ _); [done|]. simpl in E. lia.
Qed.

Lemma claim_effects_batch_witness :
  ∃ d db', ClaimEffects demoConfig background (Ok (demoClock + second)) (alone (demoClock + second))
    (mkClaimEffectsCommand "dispatcher-1" 0 ["image.publish"]) demoQueued = ([d], None, db').
Proof.
  destruct (claim_effects_batch demoConfig demoClock (demoClock + second) (demoClock + second)
    (mkClaimEffectsCommand "dispatcher-1" 0 ["image.publish"]) demoQueued demoQueued_reachable)
    as [_ H].
  - unfold second; lia.
  - vm_compute; reflexivity.
  - vm_compute; reflexivity.
  - cbn [ce_Topics]. assert (due_effects (demoClock + second) ["image.publish"] demoQueued = [demoQueuedRow]) as ->
      by (vm_compute; reflexivity).
    apply Forall_singleton. split; [|split].
    + eexists. vm_compute. reflexivity.
    + vm_compute. reflexivity.
    + vm_compute. reflexivity.
  - destruct H as (batch&rest&db'&_&Hlen&_&Hc); [discriminate|].
    destruct batch as [|r [|]]; [discriminate Hlen| |discriminate Hlen].
    eexists _, db'. exact Hc.
Defined.
