(* ===== verification/EffectOutboxTheorems.v ===== *)
(** * What the effect outbox promises

    Every row stays in a valid state, keeps its identity and its provider
    deduplication key, and freezes once it is delivered, dead-lettered or held.
    A dispatch token names one lease: its holder completes the row at most once
    and only if nobody else touched it, and two leases of one row overlap only
    when the first was completed. *)

From S2P Require Import Prelude GoText GoJson AgentContract TurnTypes MemoryStore TurnService ExecutionTypes SqlDatabase SqlFacts EffectOutbox EffectOutboxFacts EffectOutboxProgress.

(** ** The claims *)

(** In every reachable state every row of the outbox passes the store's own
    state check, its dispatch token equals its delivery count and stays in the
    range of the column, and no two rows share a primary key, an outbox id or a
    provider deduplication key. *)
Theorem outbox_invariant t db :
  outbox_reachable (t, db) →
  Forall (λ r, validEffectOutboxState r = true
               ∧ r.(fx_DispatchFencingToken) = r.(fx_DeliveryAttempts)
               ∧ 0 ≤ r.(fx_DeliveryAttempts) < 2 ^ 63) db.(db_effects)
  ∧ NoDup (map fx_ID db.(db_effects))
  ∧ NoDup (map fx_OutboxID db.(db_effects))
  ∧ NoDup (map (λ r, (r.(fx_Topic), r.(fx_DedupeKey))) db.(db_effects)).
Proof.
  intros [Hrows ? ? ?]%outbox_reachable_ok. simpl in *. split; [|done].
  eapply Forall_impl; [exact Hrows|]. by intros r [? ? ? _ _].
Qed.

Lemma outbox_invariant_witness :
  outbox_reachable (demoClock + second, demoLeased)
  ∧ NoDup (map fx_OutboxID demoLeased.(db_effects)).
Proof.
  split; [apply demoLeased_reachable|].
  apply (outbox_invariant (demoClock + second) demoLeased demoLeased_reachable).
Defined.

(** Along any run of claims, completions, inserts and review holds, with any
    driver outcome, a row is never lost, keeps its Turn, operation, topic,
    deduplication key and payload, its dispatch token and delivery count never
    decrease, and a delivered, dead-lettered or held row never changes again. *)
Theorem outbox_history s s' id r :
  outbox_reachable s → outbox_run s s' → effectIn s.2 id = Some r →
  ∃ r', effectIn s'.2 id = Some r' ∧ same_effect r r'
    ∧ r.(fx_DispatchFencingToken) ≤ r'.(fx_DispatchFencingToken)
    ∧ r.(fx_DeliveryAttempts) ≤ r'.(fx_DeliveryAttempts)
    ∧ (EffectStatus_Terminal r.(fx_Status) = true ∨ r.(fx_Status) = EffectStatusReviewHold → r' = r).
Proof.
  intros Hs%outbox_reachable_ok Hrun Hr.
  destruct (outbox_run_row _ _ _ _ Hs Hrun Hr) as [_ (r'&Hr'&[Hsame Htok Hfr _ _])].
  pose proof (eo_counters _ _ (outbox_ok_row _ _ _ Hs Hr)).
  pose proof (eo_counters _ _ (outbox_ok_row _ _ _ (outbox_run_ok _ _ Hs Hrun) Hr')).
  exists r'. split; [done|]. split; [done|]. split; [done|]. split; [lia|].
  intros Ht. apply Hfr. unfold effect_frozen, EffectStatus_Terminal in *.
  rewrite orb_true_iff, !bool_decide_eq_true in Ht. set_solver.
Qed.

Lemma outbox_history_witness :
  ∃ r r', effectIn demoQueued "effect-1" = Some r ∧ effectIn demoLeased "effect-1" = Some r'
          ∧ same_effect r r' ∧ r.(fx_DeliveryAttempts) ≤ r'.(fx_DeliveryAttempts).
Proof.
  destruct (outbox_history (demoClock, demoQueued) (demoClock + second, demoLeased) "effect-1"
    demoQueuedRow
    demoQueued_reachable (rtc_once _ _ demo_claim_step) eq_refl) as (r'&Hr'&Hsame&_&Ha&_).
  eexists _, r'. split; [reflexivity|]. done.
Defined.

(** A dispatch token authorises one write.  Once a completion under a token
    has written, even if its commit was reported lost, no later completion under
    that token writes; it is answered by a replay of the terminal outcome or by
    an error. *)
Theorem outbox_completion_once cfg ctx clock outcome command t t1 db r1 db1
    cfg' ctx' clock' outcome' command' t2 db2 r2 db3 :
  outbox_reachable (t, db) → t ≤ t1 → clock_reading t1 clock →
  CompleteEffect cfg ctx clock outcome command db = (r1, db1) → db1 ≠ db →
  outbox_run (t1, db1) (t2, db2) →
  command'.(cmp_Fence).(ef_OutboxID) = command.(cmp_Fence).(ef_OutboxID) →
  command'.(cmp_Fence).(ef_DispatchToken) = command.(cmp_Fence).(ef_DispatchToken) →
  CompleteEffect cfg' ctx' clock' outcome' command' db2 = (r2, db3) →
  db3 = db2 ∧ (∀ a, r2 = Ok a →
    a.(cer_Replay) = true ∧ EffectStatus_Terminal a.(cer_Status) = true
    ∧ (∀ a1, r1 = Ok a1 → a1.(cer_Replay) = false ∧ a.(cer_Status) = a1.(cer_Status)
                          ∧ a.(cer_DeliveryAttempts) = a1.(cer_DeliveryAttempts)
                          ∧ a.(cer_LastErrorCode) = a1.(cer_LastErrorCode))).
Proof.
  intros Hs%outbox_reachable_ok Hle Hck Hc1 Hne Hrun Hid Htok Hc2.
  assert (Hs1 : outbox_ok (t1, db1)) by (eapply outbox_step_ok; [done|by econstructor]).
  apply CompleteEffect_inv in Hc1 as [[_ ?]|(_&a1&Hb1&Hr1)]; [done|].
  apply completeEffectBody_inv in Hb1
    as (row&Hrow&Hrt&[(_&_&?)|(Hst&Hown&now&row1&Hn&Hres&Hu)]); [done|].
  apply resolveEffectCompletion_inv in Hres
    as (status&av&code&dl&dd&->&Ha1&Ha2&Ha3&Ha4&Ha5&_&Hcase).
  pose proof (updateEffect_effectIn _ _ _ _ _ Hrow Hu) as Hin1.
  destruct (outbox_run_row _ _ (ef_OutboxID (cmp_Fence command)) (completedEffect row status av code dl dd now) Hs1 Hrun)
    as [_ (r'&Hr'&[Hsame _ Hfr Hph Hwt])].
  { by apply Hin1. }
  apply CompleteEffect_inv in Hc2 as [[[e ->] ->]|(_&a2&Hb2&Hr2)]; [by split|].
  apply completeEffectBody_inv in Hb2 as (row2&Hrow2&Hrt2&Hcase2).
  rewrite Hid in Hrow2. simpl in Hr'. rewrite Hr' in Hrow2. injection Hrow2 as <-.
  assert (Hnotdel : fx_Status r' ≠ EffectStatusDelivering).
  { intros Hd. destruct Hph as [Hlt| ->]; [simpl; congruence| |].
    - unfold effect_phase in Hlt. rewrite Hd in Hlt. simpl in Hlt. lia.
    - simpl in Hd. destruct Hcase as [(->&_)|[(->&_)|(->&_)]]; discriminate Hd. }
  destruct Hcase2 as [(Hterm&->&->)|(?&_)]; [|done]. split; [done|].
  intros a Ha. destruct Hr2 as [[_ ->]|[_ ->]]; [|done]. injection Ha as <-. simpl.
  split; [done|]. split; [done|]. intros a1' ->. destruct Hr1 as [[_ [= <-]]|[_ ?]]; [|done].
  rewrite Ha2, Ha3, Ha4, Ha5.
  destruct Hcase as [(->&_)|[(->&_)|(->&_)]].
  - rewrite Hfr by (unfold effect_frozen; set_solver). done.
  - rewrite Hfr by (unfold effect_frozen; set_solver). done.
  - exfalso. destruct Hwt as [->|Hh]; [simpl; congruence|done|done|].
    by rewrite Hh in Hterm.
Qed.

Lemma outbox_completion_once_witness :
  fst (reportAt (demoClock + 6 * second) 2 "dispatcher-2" retryReport demoDelivered)
    = Ok (mkCompleteEffectResult "effect-1" EffectStatusDelivered 2 (demoClock + 3 * second) "" true)
  ∧ snd (reportAt (demoClock + 6 * second) 2 "dispatcher-2" retryReport demoDelivered) = demoDelivered.
Proof.
  split; [vm_compute; reflexivity|].
  eapply (outbox_completion_once demoConfig background (Ok (demoClock + 5 * second)) TxReported
    (mkCompleteEffectCommand (mkEffectDispatchFence "effect-1" 2 "dispatcher-2") deliveredReport)
    (demoClock + 4 * second) (demoClock + 5 * second) demoLeasedAgain _ demoDelivered
    demoConfig background (Ok (demoClock + 6 * second)) TxReported
    (mkCompleteEffectCommand (mkEffectDispatchFence "effect-1" 2 "dispatcher-2") retryReport)
    (demoClock + 5 * second) demoDelivered).
  - apply demoLeasedAgain_reachable.
  - unfold second; lia.
  - by left.
  - vm_compute; reflexivity.
  - discriminate.
  - apply rtc_refl.
  - reflexivity.
  - reflexivity.
  - apply surjective_pairing.
Defined.

(** A dispatcher that completes a delivery under its fence completes the very
    row it leased: if the answer is not a replay, nothing touched the row between
    the claim and the completion.  If any later claim of the effect committed in
    between, the completion is refused with ErrEffectFenced and writes nothing. *)
Theorem outbox_fence_exclusive cfg ctx clock outcome id owner topics t t1 db d db1
    cfg' ctx' clock' outcome' report t2 db2 :
  outbox_reachable (t, db) → t ≤ t1 → clock_reading t1 clock →
  validatePrintableASCII owner MaxWorkerIDBytes = None →
  claimEffect cfg ctx clock outcome id owner topics db = (Ok (Some d), db1) →
  outbox_run (t1, db1) (t2, db2) →
  (∀ a db3,
    CompleteEffect cfg' ctx' clock' outcome' (mkCompleteEffectCommand d.(del_Fence) report) db2
      = (Ok a, db3) → a.(cer_Replay) = false →
    effectIn db2 id = effectIn db1 id
    ∧ ∃ r, effectIn db2 id = Some r ∧ r.(fx_Status) = EffectStatusDelivering
           ∧ r.(fx_LeaseOwnerID) = Some owner ∧ r.(fx_LeaseExpiresAt) = Some d.(del_LeaseExpiresAt))
  ∧ (∀ r2, effectIn db2 id = Some r2 →
      r2.(fx_DispatchFencingToken) ≠ d.(del_Fence).(ef_DispatchToken) →
      CompleteEffectCommand_Validate (mkCompleteEffectCommand d.(del_Fence) report) = None →
      CompleteEffect cfg' background clock' outcome' (mkCompleteEffectCommand d.(del_Fence) report) db2
        = (Err ErrEffectFenced, db2)).
Proof.
  intros Hs%outbox_reachable_ok Hle Hck Ho Hcl Hrun.
  destruct (claimEffect_claimed _ _ _ _ _ _ _ _ _ _ _ _ Hs Hle Hck Ho Hcl)
    as (row&now&Hrow&Hnow&_&_&->&Hi&Hs1&Hin1).
  assert (Hid : row.(fx_OutboxID) = id).
  { apply select_one_elem in Hrow as [_ Hrow]. unfold effect_is in Hrow. by bool_hyps. }
  destruct (outbox_run_row _ _ _ _ Hs1 Hrun Hin1) as [_ (r2&Hr2&[_ _ _ Hph _])].
  simpl in Hr2. split.
  - intros a db3 Hc Hrep. apply CompleteEffect_inv in Hc as [[[e ?] _]|(_&a'&Hb&Hr)]; [done|].
    destruct Hr as [[_ [= <-]]|[_ ?]]; [|done].
    apply completeEffectBody_inv in Hb as (row2&Hrow2&Hrt2&Hcase); simpl in *.
    rewrite Hid, Hr2 in Hrow2. injection Hrow2 as <-.
    destruct Hcase as [(_&->&_)|(Hdel&Hown&_)]; [done|].
    destruct Hph as [Hlt| ->]; [done| |].
    { unfold effect_phase in Hlt. rewrite Hdel in Hlt. simpl in Hlt. lia. }
    rewrite Hr2, Hin1. split; [done|]. by eexists.
  - intros r2' Hr2' Hne Hv. simpl in *. rewrite Hr2 in Hr2'. injection Hr2' as <-.
    pose proof (outbox_ok_row (t2, db2) _ _ (outbox_run_ok _ _ Hs1 Hrun) Hr2) as [Hst _ _ _ _].
    unfold CompleteEffect. simpl. rewrite Hv. unfold writeTransaction, background. simpl.
    replace (if cfg_sqlite cfg' then None else None) with (@None error) by by destruct (cfg_sqlite cfg').
    unfold completeEffectBody, lockEffect. simpl. unfold effectIn in Hr2. rewrite Hid, Hr2.
    apply Z.eqb_neq in Hne. rewrite Hne.
    assert (EffectStatus_Valid (fx_Status r2) = true) as ->.
    { apply effect_state_spec_iff in Hst as [_ _ _ _ _ _ _ _ Hss].
      unfold EffectStatus_Valid, effect_status_spec in *. apply bool_decide_eq_true. set_solver. }
    done.
Qed.

(** The first holder reports after a second dispatcher took the effect over. *)
Lemma outbox_fence_exclusive_witness :
  CompleteEffect demoConfig background (Ok (demoClock + 5 * second)) TxReported
    (mkCompleteEffectCommand demoLease.(del_Fence) deliveredReport) demoLeasedAgain
  = (Err ErrEffectFenced, demoLeasedAgain).
Proof.
  eapply (outbox_fence_exclusive demoConfig background (Ok (demoClock + second)) TxReported
    "effect-1" "dispatcher-1" ["image.publish"] demoClock (demoClock + second) demoQueued demoLease
    demoLeased demoConfig background _ TxReported deliveredReport (demoClock + 4 * second)
    demoLeasedAgain).
  - apply demoQueued_reachable.
  - unfold second; lia.
  - by left.
  - vm_compute; reflexivity.
  - vm_compute; reflexivity.
  - eapply rtc_l; [apply demo_retry_step|]. apply rtc_once, demo_claim_again_step.
  - vm_compute; reflexivity.
  - discriminate.
  - vm_compute; reflexivity.
Defined.

Lemma effect_change_token t t' r r' :
  effect_ok t r → t ≤ t' → effect_change t' r r' →
  r'.(fx_DispatchFencingToken) = r.(fx_DispatchFencingToken)
  ∨ ∃ now, canonicalExecutionTime t' = Ok now ∧ claimable_at now r.
Proof.
  intros Hok Hle [|cfg owner now Hnow Howner Hcl Hc|cfg report now ? answer Hnow Hs Hrep Hres
                 |now Hnow Hs]; [by left|by eauto| |by left].
  apply resolveEffectCompletion_inv in Hres as (?&?&?&?&?&->&_). by left.
Qed.

(** How a lease can end: until its row is completed for a retry, a new token is
    issued only once the lease has lapsed. *)
Lemma lease_track s1 s2 id r1 L :
  outbox_ok s1 → outbox_run s1 s2 → effectIn s1.2 id = Some r1 →
  r1.(fx_Status) = EffectStatusDelivering → r1.(fx_LeaseExpiresAt) = Some L →
  ∃ r2, effectIn s2.2 id = Some r2 ∧ effect_order r1 r2
    ∧ (r2.(fx_DispatchFencingToken) = r1.(fx_DispatchFencingToken)
       ∨ L ≤ s2.1 - s2.1 mod 1000
       ∨ ∃ sm rm, outbox_run s1 sm ∧ outbox_run sm s2 ∧ effectIn sm.2 id = Some rm
           ∧ rm.(fx_DispatchFencingToken) = r1.(fx_DispatchFencingToken)
           ∧ rm.(fx_Status) = EffectStatusPending).
Proof.
  intros Hs Hrun Hr1 Hst HL. revert s2 Hrun. apply rtc_ind_r.
  { exists r1. split; [done|]. split; [reflexivity|by left]. }
  intros s2 s3 Hrun Hstep (r2&Hr2&Hord&Hcase).
  destruct s2 as [t2 db2], s3 as [t3 db3]. simpl in *.
  destruct (outbox_step_row _ _ _ _ _ _ Hstep Hr2) as [Hle (r3&Hr3&Hch)].
  pose proof (outbox_ok_row (t2, db2) _ _ (outbox_run_ok _ _ Hs Hrun) Hr2) as Hok2.
  destruct (effect_change_ok _ _ _ _ Hok2 Hle Hch) as [_ Hord3].
  exists r3. split; [done|]. split; [by trans r2|].
  destruct Hcase as [Htok|[Hlap|(sm&rm&H1&H2&Hm)]].
  - destruct (effect_change_token _ _ _ _ Hok2 Hle Hch) as [H3|(now&Hnow&Hcl)]; [left; congruence|].
    right. apply canonicalExecutionTime_Ok in Hnow as [-> _].
    destruct Hcl as [[Hp _]|[Hd (l&Hl&Hle2)]].
    + right. exists (t2, db2), r2. split; [done|]. split; [by apply rtc_once|]. done.
    + left. destruct (ord_phase _ _ Hord Htok) as [Hlt| ->]; [|congruence].
      unfold effect_phase in Hlt. rewrite Hd in Hlt. simpl in Hlt. lia.
  - right; left. pose proof (micros_mono _ _ Hle). lia.
  - right; right. exists sm, rm. split; [done|]. split; [by eapply rtc_r|]. done.
Qed.

(** Two leases of one effect never overlap unless the first was given up: a
    second claim carries a larger token and delivery count, and it is granted
    either at a time when the first lease has lapsed, or after the first holder
    completed the delivery for a retry. *)
Theorem outbox_lease_exclusive cfg ctx clock outcome id owner topics t t1 db d db1
    cfg' ctx' clock' outcome' owner' topics' t2 t3 db2 d' db3 :
  outbox_reachable (t, db) → t ≤ t1 → clock_reading t1 clock →
  validatePrintableASCII owner MaxWorkerIDBytes = None →
  claimEffect cfg ctx clock outcome id owner topics db = (Ok (Some d), db1) →
  outbox_run (t1, db1) (t2, db2) → t2 ≤ t3 → clock_reading t3 clock' →
  validatePrintableASCII owner' MaxWorkerIDBytes = None →
  claimEffect cfg' ctx' clock' outcome' id owner' topics' db2 = (Ok (Some d'), db3) →
  d.(del_Fence).(ef_DispatchToken) < d'.(del_Fence).(ef_DispatchToken)
  ∧ d.(del_DeliveryAttempts) < d'.(del_DeliveryAttempts)
  ∧ d'.(del_DedupeKey) = d.(del_DedupeKey) ∧ d'.(del_Payload) = d.(del_Payload)
  ∧ (d.(del_LeaseExpiresAt) ≤ t3
     ∨ ∃ sm rm, outbox_run (t1, db1) sm ∧ outbox_run sm (t2, db2) ∧ effectIn sm.2 id = Some rm
         ∧ rm.(fx_DispatchFencingToken) = d.(del_Fence).(ef_DispatchToken)
         ∧ rm.(fx_Status) = EffectStatusPending).
Proof.
  intros Hs%outbox_reachable_ok Hle Hck Ho Hcl Hrun Hle' Hck' Ho' Hcl'.
  destruct (claimEffect_claimed _ _ _ _ _ _ _ _ _ _ _ _ Hs Hle Hck Ho Hcl)
    as (row&now&Hrow&Hnow&_&_&->&Hi&Hs1&Hin1).
  pose proof (outbox_run_ok _ _ Hs1 Hrun) as Hs2.
  destruct (claimEffect_claimed _ _ _ _ _ _ _ _ _ _ _ _ Hs2 Hle' Hck' Ho' Hcl')
    as (row2&now2&Hrow2&Hnow2&Hcl2&_&->&Hi2&_&_).
  destruct (lease_track (t1, db1) (t2, db2) id _ _ Hs1 Hrun Hin1 eq_refl eq_refl)
    as (r2&Hr2&Hord&Hcase). simpl in *. rewrite Hrow2 in Hr2. injection Hr2 as <-.
  pose proof (eo_counters _ _ (outbox_ok_row _ _ _ Hs1 Hin1)) as Hc1.
  pose proof (eo_counters _ _ (outbox_ok_row (t2, db2) _ _ Hs2 Hrow2)) as Hc2.
  destruct Hord as [Hsame Htok _ Hph _]. simpl in *.
  destruct Hsame as (_&_&_&_&_&_&_&_&Hdk&Hpl&_). simpl in *.
  rewrite Hi2. split; [lia|]. split; [rewrite <- Hc1, <- Hc2, Hi2; lia|].
  split; [done|]. split; [done|].
  apply canonicalExecutionTime_Ok in Hnow2 as [-> _].
  assert (0 ≤ t3 mod 1000) by (apply Z.mod_pos_bound; lia).
  pose proof (micros_mono _ _ Hle').
  destruct Hcase as [Heq|[Hlap|(sm&rm&Hm)]]; [|left; lia|right; eauto].
  destruct Hcl2 as [[Hp _]|[Hd (l&Hl&Hle2)]].
  - right. exists (t2, db2), row2. split; [done|]. split; [reflexivity|done].
  - left. destruct (Hph Heq) as [Hlt| ->]; [|simpl in Hl; injection Hl as <-; lia].
    unfold effect_phase in Hlt. rewrite Hd in Hlt. simpl in Hlt. lia.
Qed.

Lemma outbox_lease_exclusive_witness :
  demoLease.(del_DeliveryAttempts) < demoLeaseAgain.(del_DeliveryAttempts)
  ∧ demoLeaseAgain.(del_DedupeKey) = demoLease.(del_DedupeKey).
Proof.
  destruct (outbox_lease_exclusive demoConfig background (Ok (demoClock + second)) TxReported
    "effect-1" "dispatcher-1" ["image.publish"] demoClock (demoClock + second) demoQueued demoLease
    demoLeased demoConfig background (Ok (demoClock + 4 * second)) TxReported "dispatcher-2"
    ["image.publish"] (demoClock + 2 * second) (demoClock + 4 * second) demoWaiting demoLeaseAgain
    demoLeasedAgain) as (_&H1&H2&_).
  - apply demoQueued_reachable.
  - unfold second; lia.
  - by left.
  - vm_compute; reflexivity.
  - vm_compute; reflexivity.
  - apply rtc_once, demo_retry_step.
  - unfold second; lia.
  - by left.
  - vm_compute; reflexivity.
  - vm_compute; reflexivity.
  - split; [exact H1|exact H2].
Defined.
