(* ===== verification/EffectDispatcher.v ===== *)
(** * The effect dispatcher: effect_dispatcher.go, admission_gate.go

    One dispatcher claims a batch of effects and delivers it row by row.  The
    provider behind the [Deliverer] interface is a parameter: the answer it
    gives to each call.  What other processes commit while a delivery is in
    flight, the clocks and the transaction outcomes are the environment. *)

From S2P Require Import Prelude GoText GoJson AgentContract TurnTypes MemoryStore TurnService ExecutionTypes SqlDatabase EffectOutbox.

(** ** The admission gate *)

Record AdmissionGate := mkAdmissionGate { gate_closed : bool }.

Definition NewAdmissionGate : AdmissionGate := mkAdmissionGate false.

(** A component holds a pointer to a gate, which may be nil. *)
Definition Gate_Open (gate : option AdmissionGate) : bool :=
  match gate with Some g => negb g.(gate_closed) | None => false end.

Definition Gate_Acquire (gate : option AdmissionGate) : validation :=
  match gate with
  | None => None
  | Some g => when g.(gate_closed) ErrAdmissionClosed
  end.

Definition Gate_Close (gate : option AdmissionGate) : option AdmissionGate :=
  match gate with Some _ => Some (mkAdmissionGate true) | None => None end.

(** ** Options *)

Definition DefaultEffectDeliveryTimeout : Z := 15 * second.
Definition DefaultWorkerIdleBackoff : Z := second.
Definition MaxWorkerIdleBackoff : Z := minute.

Record EffectDispatcherOptions := mkEffectDispatcherOptions {
  edo_LeaseOwnerID : string;
  edo_BatchLimit : Z;
  edo_Topics : list string;
  edo_IdleBackoff : Z;
  edo_DeliveryTimeout : Z
}.

Definition EffectDispatcherOptions_applyDefaults (o : EffectDispatcherOptions) : EffectDispatcherOptions :=
  {| edo_LeaseOwnerID := o.(edo_LeaseOwnerID);
     edo_BatchLimit := o.(edo_BatchLimit);
     edo_Topics := o.(edo_Topics);
     edo_IdleBackoff := if o.(edo_IdleBackoff) <=? 0 then DefaultWorkerIdleBackoff
                        else o.(edo_IdleBackoff);
     edo_DeliveryTimeout := if o.(edo_DeliveryTimeout) <=? 0 then DefaultEffectDeliveryTimeout
                            else o.(edo_DeliveryTimeout) |}.

Definition claimCommand (o : EffectDispatcherOptions) : ClaimEffectsCommand :=
  mkClaimEffectsCommand o.(edo_LeaseOwnerID) o.(edo_BatchLimit) o.(edo_Topics).

Definition EffectDispatcherOptions_Validate (o : EffectDispatcherOptions) : validation :=
  first_error
    [ ClaimEffectsCommand_Validate (claimCommand o);
      when ((o.(edo_IdleBackoff) <=? 0) || (MaxWorkerIdleBackoff <? o.(edo_IdleBackoff)))
        (ErrText "idleBackoff out of range");
      when ((o.(edo_DeliveryTimeout) <=? 0) || (DefaultEffectLeaseTTL <=? o.(edo_DeliveryTimeout)))
        (ErrText "deliveryTimeout out of range") ].

Record EffectDispatcher := mkEffectDispatcher {
  ed_options : EffectDispatcherOptions;
  ed_admission : option AdmissionGate
}.

(** The store and the deliverer are given by their presence. *)
Definition NewEffectDispatcher (hasStore hasDeliverer : bool) (options : EffectDispatcherOptions)
    (gate : option AdmissionGate) : result EffectDispatcher :=
  guard! hasStore && hasDeliverer
    else ErrText "effect dispatcher requires an outbox store and a deliverer";;
  let options := EffectDispatcherOptions_applyDefaults options in
  check! EffectDispatcherOptions_Validate options;;
  Ok (mkEffectDispatcher options gate).

(** ** Delivering *)

Record EffectDispatchFailure := mkEffectDispatchFailure {
  edf_OutboxID : string;
  edf_Topic : string;
  edf_Err : error
}.

Record EffectDispatchReport := mkEffectDispatchReport {
  edr_Claimed : Z;
  edr_Delivered : Z;
  edr_Retried : Z;
  edr_DeadLettered : Z;
  edr_Failures : list EffectDispatchFailure
}.

Definition emptyReport : EffectDispatchReport := mkEffectDispatchReport 0 0 0 0 [].

(** [Deliver] on the i-th delivery of a batch: the report and the error it
    returns. *)
Definition Deliverer : Type := nat → EffectDelivery → DeliveryReport * validation.

(** The report that is recorded for what the deliverer returned. *)
Definition recordedReport (answer : DeliveryReport * validation) : DeliveryReport :=
  let report :=
    match snd answer with
    | Some _ => mkDeliveryReport DeliveryOutcomeUnknown "deliverer_error" 0
                  (fst answer).(rep_IdempotentRetrySafe)
    | None => fst answer
    end in
  match DeliveryReport_Validate report with
  | Some _ => mkDeliveryReport DeliveryOutcomeUnknown "invalid_report" 0 false
  | None => report
  end.

(** What one delivery meets: its context (the first check is the loop's, the
    rest are the completion's), what others commit while it is in flight, and
    the clock and outcome of the completing transaction. *)
Record deliveryEnv := mkDeliveryEnv {
  denv_ctx : context;
  denv_others : Database → Database;
  denv_clock : result time;
  denv_outcome : txOutcome
}.

Definition dispatch (cfg : SQLStoreConfig) (env : deliveryEnv) (answer : DeliveryReport * validation)
    (delivery : EffectDelivery) : op Database CompleteEffectResult := fun db =>
  CompleteEffect cfg (fun n => env.(denv_ctx) (S n)) env.(denv_clock) env.(denv_outcome)
    (mkCompleteEffectCommand delivery.(del_Fence) (recordedReport answer))
    (env.(denv_others) db).

(** The counter a result's status adds to. *)
Definition countResult (status : EffectStatus) (r : EffectDispatchReport) : EffectDispatchReport :=
  if bool_decide (status = EffectStatusDelivered) then
    mkEffectDispatchReport r.(edr_Claimed) (r.(edr_Delivered) + 1) r.(edr_Retried)
      r.(edr_DeadLettered) r.(edr_Failures)
  else if bool_decide (status = EffectStatusPending) then
    mkEffectDispatchReport r.(edr_Claimed) r.(edr_Delivered) (r.(edr_Retried) + 1)
      r.(edr_DeadLettered) r.(edr_Failures)
  else if bool_decide (status = EffectStatusDeadLetter) then
    mkEffectDispatchReport r.(edr_Claimed) r.(edr_Delivered) r.(edr_Retried)
      (r.(edr_DeadLettered) + 1) r.(edr_Failures)
  else r.

Definition countFailure (d : EffectDelivery) (e : error) (r : EffectDispatchReport)
    : EffectDispatchReport :=
  mkEffectDispatchReport r.(edr_Claimed) r.(edr_Delivered) r.(edr_Retried) r.(edr_DeadLettered)
    (r.(edr_Failures) ++ [mkEffectDispatchFailure d.(del_OutboxID) d.(del_Topic) e]).

Fixpoint dispatchLoop (cfg : SQLStoreConfig) (deliver : Deliverer) (env : nat → deliveryEnv) (i : nat)
    (deliveries : list EffectDelivery) (report : EffectDispatchReport) (db : Database)
    : EffectDispatchReport * validation * Database :=
  match deliveries with
  | [] => (report, None, db)
  | delivery :: rest =>
    match (env i).(denv_ctx) 0%nat with
    | Some e => (report, Some e, db)
    | None =>
      match dispatch cfg (env i) (deliver i delivery) delivery db with
      | (Err e, db') => dispatchLoop cfg deliver env (S i) rest (countFailure delivery e report) db'
      | (Ok result, db') =>
        dispatchLoop cfg deliver env (S i) rest (countResult result.(cer_Status) report) db'
      end
    end
  end.

(** [DispatchOnce]; [claimCtx], [scanClock] and [claims] are what its
    [ClaimEffects] call meets. *)
Definition DispatchOnce (cfg : SQLStoreConfig) (d : EffectDispatcher) (deliver : Deliverer)
    (ctx claimCtx : context) (scanClock : result time) (claims : nat → claimEnv)
    (env : nat → deliveryEnv) (db : Database) : EffectDispatchReport * validation * Database :=
  match first_error [ctx 0%nat; Gate_Acquire d.(ed_admission)] with
  | Some e => (emptyReport, Some e, db)
  | None =>
    match ClaimEffects cfg claimCtx scanClock claims (claimCommand d.(ed_options)) db with
    | (_, Some e, db') => (emptyReport, Some e, db')
    | (deliveries, None, db') =>
      dispatchLoop cfg deliver env 0 deliveries
        (mkEffectDispatchReport (Z.of_nat (length deliveries)) 0 0 0 []) db'
    end
  end.

(** ** The scheduler loop *)

(** What [RunWithPulse] does after one [DispatchOnce]. *)
Inductive runAction : Type :=
| RunAgain
| RunSleep (duration : Z)
| RunReturn (e : error)
| RunAwaitShutdown.

Definition runDecision (o : EffectDispatcherOptions) (ctxAfter : validation)
    (report : EffectDispatchReport) (err : validation) : runAction :=
  match err with
  | None => if ClaimEffectsCommand_limit (claimCommand o) <=? report.(edr_Claimed)
            then RunAgain else RunSleep o.(edo_IdleBackoff)
  | Some ErrNoClaimableEffects => RunSleep o.(edo_IdleBackoff)
  | Some ErrAdmissionClosed => RunAwaitShutdown
  | Some _ => match ctxAfter with
              | Some e => RunReturn e
              | None => RunSleep o.(edo_IdleBackoff)
              end
  end.

(** Whether the observer is told of it. *)
Definition runObserves (err : validation) : bool :=
  match err with
  | Some ErrNoClaimableEffects | Some ErrAdmissionClosed => false
  | _ => true
  end.

(** One turn of the scheduler: the context at the top of the loop, one
    [DispatchOnce], the context it is asked for after a failure, and what the
    wait that follows returns. *)
Record runEnv := mkRunEnv {
  re_top : validation;
  re_dispatch : Database → EffectDispatchReport * validation * Database;
  re_after : validation;
  re_wait : validation
}.

(** [RunWithPulse] over the turns its environment gives it: the observed
    reports, the error it returned if it returned, and the tables. *)
Fixpoint RunWithPulse (o : EffectDispatcherOptions) (turns : list runEnv) (db : Database)
    : list (EffectDispatchReport * validation) * validation * Database :=
  match turns with
  | [] => ([], None, db)
  | turn :: rest =>
    match turn.(re_top) with
    | Some e => ([], Some e, db)
    | None =>
      let '(report, err, db') := turn.(re_dispatch) db in
      let seen := if runObserves err then [(report, err)] else [] in
      let continue := let '(tail, final, db'') := RunWithPulse o rest db' in (seen ++ tail, final, db'') in
      match runDecision o turn.(re_after) report err with
      | RunAgain => continue
      | RunReturn e => (seen, Some e, db')
      | RunSleep _ => match turn.(re_wait) with Some e => (seen, Some e, db') | None => continue end
      | RunAwaitShutdown =>
        (seen, match turn.(re_after) with Some e => Some e | None => turn.(re_wait) end, db')
      end
    end
  end.
