(* ===== verification/EffectDispatcherTheorems.v ===== *)
(** * What the effect dispatcher guarantees

    An undisturbed pass settles its whole batch, each effect as its provider
    answered; an ambiguous delivery is never repeated unless the provider said
    that is safe; a closed gate stops the next pass before it writes.  The last
    part shows that a pass may deliver an effect whose lease has lapsed. *)

From S2P Require Import Prelude GoText GoJson AgentContract TurnTypes MemoryStore MemoryStoreFacts Fixtures TurnService ExecutionTypes SqlDatabase SqlFacts EffectOutbox EffectOutboxFacts EffectOutboxProgress EffectDispatcher.

(** ** The recorded report *)

Lemma recordedReport_valid answer : DeliveryReport_Validate (recordedReport answer) = None.
Proof.
  unfold recordedReport. set (report := match snd answer with Some _ => _ | None => _ end).
  by destruct (DeliveryReport_Validate report) eqn:E.
Qed.

Lemma countResult_settled s r :
  s ∈ [EffectStatusDelivered; EffectStatusPending; EffectStatusDeadLetter] →
  let r' := countResult s r in
  r'.(edr_Claimed) = r.(edr_Claimed) ∧ r'.(edr_Failures) = r.(edr_Failures)
  ∧ r'.(edr_Delivered) + r'.(edr_Retried) + r'.(edr_DeadLettered)
    = r.(edr_Delivered) + r.(edr_Retried) + r.(edr_DeadLettered) + 1.
Proof.
  intros Hs. unfold countResult.
  repeat case_bool_decide; simpl; try (split_and!; [done|done|lia]). set_solver.
Qed.

Lemma outcome_status_settled budget n report :
  outcome_status budget n report
    ∈ [EffectStatusDelivered; EffectStatusPending; EffectStatusDeadLetter].
Proof. unfold outcome_status. repeat case_match; set_solver. Qed.

(** ** An undisturbed pass *)

(** Nothing else runs while the batch is delivered; [times i] is the database
    clock of the i-th completion. *)
Definition undisturbed (times : nat → time) : nat → deliveryEnv :=
  fun i => mkDeliveryEnv background (fun db => db) (Ok (times i)) TxReported.

Section Pass.
Context (cfg : SQLStoreConfig) (deliver : Deliverer) (times : nat → time).
Context (owner : string) (lease now : time).
Hypothesis Hmono : ∀ i, times i ≤ times (S i).
Hypothesis Hreadable : ∀ i, ∃ n, canonicalExecutionTime (times i) = Ok n.

Let leased (r : sqlEffectOutboxRow) : sqlEffectOutboxRow := claimedEffect r owner lease now.
Let handed (r : sqlEffectOutboxRow) : EffectDelivery := deliveryOf r owner lease.

(** The status the i-th delivery leads to. *)
Definition settled_status (i : nat) (r : sqlEffectOutboxRow) : EffectStatus :=
  outcome_status (maxDeliveryAttemptsBudget cfg) (leased r).(fx_DeliveryAttempts)
    (recordedReport (deliver i (handed r))).

Lemma dispatch_leased t db i r :
  outbox_ok (t, db) → effectIn db r.(fx_OutboxID) = Some (leased r) →
  ∃ a db1 r1,
    dispatch cfg (undisturbed times i) (deliver i (handed r)) (handed r) db = (Ok a, db1)
    ∧ a.(cer_Status) = settled_status i r
    ∧ effectIn db1 r.(fx_OutboxID) = Some r1 ∧ r1.(fx_Status) = settled_status i r
    ∧ ∀ id, id ≠ r.(fx_OutboxID) → effectIn db1 id = effectIn db id.
Proof.
  intros Hs Hin. destruct (Hreadable i) as [n Hn].
  destruct (completeEffect_leased cfg t (times i) n db (fx_OutboxID r) (leased r) owner
    (recordedReport (deliver i (handed r))) Hs Hn Hin eq_refl eq_refl (recordedReport_valid _))
    as (a&db1&r1&Hc&Hr1&Hst&Ha&_&_&_&_&Hframe).
  exists a, db1, r1. split; [exact Hc|]. split; [by rewrite Ha|]. done.
Qed.

Lemma dispatchLoop_settles rs : ∀ t db i report,
  outbox_ok (t, db) → t ≤ times i → NoDup (map fx_OutboxID rs) →
  (∀ r, r ∈ rs → effectIn db r.(fx_OutboxID) = Some (leased r)) →
  ∃ report' db',
    dispatchLoop cfg deliver (undisturbed times) i (map handed rs) report db = (report', None, db')
    ∧ report'.(edr_Claimed) = report.(edr_Claimed) ∧ report'.(edr_Failures) = report.(edr_Failures)
    ∧ report'.(edr_Delivered) + report'.(edr_Retried) + report'.(edr_DeadLettered)
      = report.(edr_Delivered) + report.(edr_Retried) + report.(edr_DeadLettered) + Z.of_nat (length rs)
    ∧ (∀ id, id ∉ map fx_OutboxID rs → effectIn db' id = effectIn db id)
    ∧ ∀ j r, rs !! j = Some r → ∃ r', effectIn db' r.(fx_OutboxID) = Some r'
                                      ∧ r'.(fx_Status) = settled_status (i + j) r.
Proof.
  induction rs as [|r rs IH]; intros t db i report Hs Hle Hnd Hin; cbn [map dispatchLoop length].
  { exists report, db. split_and!; [done..|lia|done|]. intros j r Hj. by rewrite lookup_nil in Hj. }
  cbn [map] in Hnd. apply NoDup_cons in Hnd as [Hr Hnd].
  destruct (dispatch_leased t db i r Hs (Hin r (list_elem_of_here _ _))) as (a&db1&r1&Hd&Ha&Hr1&Hst&Hframe).
  rewrite Hd. cbn [undisturbed denv_ctx background].
  assert (Hs1 : outbox_ok (times i, db1)).
  { eapply outbox_step_ok; [exact Hs|]. eapply os_complete; [exact Hle|by left|exact Hd]. }
  destruct (IH (times i) db1 (S i) (countResult (cer_Status a) report) Hs1 (Hmono i) Hnd)
    as (report'&db'&Hloop&Hcl&Hf&Hsum&Hout&Hall).
  { intros x Hx. rewrite Hframe; [by apply Hin, list_elem_of_further|].
    intros E. apply Hr. rewrite <- E. apply list_elem_of_In, List.in_map. by apply list_elem_of_In. }
  destruct (countResult_settled (cer_Status a) report) as (Hc1&Hc2&Hc3).
  { rewrite Ha. apply outcome_status_settled. }
  exists report', db'. split; [exact Hloop|]. split; [congruence|]. split; [congruence|].
  split; [rewrite Hsum, Hc3; lia|]. split.
  - intros id [? ?]%not_elem_of_cons. rewrite Hout, Hframe by done. done.
  - intros [|j] x Hx; simpl in Hx.
    + simplify_eq. exists r1. rewrite Hout by done. by rewrite Nat.add_0_r.
    + destruct (Hall j x Hx) as (r'&?&?). exists r'. by rewrite Nat.add_succ_r.
Qed.

End Pass.

(** ** The claims *)

(** An undisturbed pass of the dispatcher settles its whole batch.  The batch
    is the oldest due effects of its topics up to its limit; every one of them
    is delivered, re-queued or dead-lettered exactly as the report recorded for
    the provider's answer and the remaining budget demand, the counters of the
    pass add up to the batch, and there are no failures. *)
Theorem dispatch_once_settles cfg d deliver (t t1 now : time) times db :
  let command := claimCommand d.(ed_options) in
  let batch := due_batch now command db in
  outbox_reachable (t, db) → t ≤ t1 → canonicalExecutionTime t1 = Ok now →
  EffectDispatcherOptions_Validate d.(ed_options) = None → Gate_Acquire d.(ed_admission) = None →
  Forall (deliverable db) (due_effects now command.(ce_Topics) db) → batch ≠ [] →
  t1 ≤ times 0%nat → (∀ i, times i ≤ times (S i)) →
  (∀ i, ∃ n, canonicalExecutionTime (times i) = Ok n) →
  ∃ report db',
    DispatchOnce cfg d deliver background background (Ok t1) (alone t1) (undisturbed times) db
      = (report, None, db')
    ∧ report.(edr_Claimed) = Z.of_nat (length batch) ∧ report.(edr_Failures) = []
    ∧ report.(edr_Delivered) + report.(edr_Retried) + report.(edr_DeadLettered) = report.(edr_Claimed)
    ∧ ∀ i r, batch !! i = Some r →
        ∃ r', effectIn db' r.(fx_OutboxID) = Some r'
          ∧ r'.(fx_Status)
            = settled_status cfg deliver d.(ed_options).(edo_LeaseOwnerID) (now + effectLeaseTTL cfg) now i r.
Proof.
  intros command batch Hs%outbox_reachable_ok Hle Hnow Hv Hgate Hdel Hne Ht0 Hmono Hread.
  assert (ClaimEffectsCommand_Validate command = None) as Hcmd.
  { unfold EffectDispatcherOptions_Validate in Hv. apply first_error_None in Hv.
    by apply Forall_cons in Hv as [? _]. }
  destruct (claimEffects_alone cfg t t1 now command db Hs Hle Hnow Hcmd Hdel)
    as (db1&Hc&Hs1&_&_&Hrows).
  destruct (dispatchLoop_settles cfg deliver times (ce_LeaseOwnerID command) (now + effectLeaseTTL cfg) now
    Hmono Hread batch t1 db1 0 (mkEffectDispatchReport (Z.of_nat (length batch)) 0 0 0 []) Hs1 Ht0
    (due_batch_NoDup (t, db) now command Hs) Hrows) as (report&db'&Hloop&Hcl&Hf&Hsum&_&Hall).
  exists report, db'. unfold DispatchOnce. cbn [first_error background]. rewrite Hgate.
  unfold command in Hc. rewrite Hc. fold command batch.
  rewrite bool_decide_eq_false_2 by done. cbn [when]. rewrite length_map.
  split; [exact Hloop|]. split; [done|]. split; [done|].
  split; [|exact Hall]. rewrite Hsum, Hcl. simpl. lia.
Qed.

Definition demoDispatcher : EffectDispatcher :=
  mkEffectDispatcher
    (EffectDispatcherOptions_applyDefaults
       (mkEffectDispatcherOptions "dispatcher-1" 0 ["image.publish"] 0 0))
    (Some NewAdmissionGate).

Definition rateLimited : Deliverer := fun _ _ => (retryReport, None).

Lemma dispatch_once_settles_witness :
  ∃ report db' r',
    DispatchOnce demoConfig demoDispatcher rateLimited background background (Ok (demoClock + second))
      (alone (demoClock + second)) (undisturbed (fun _ => demoClock + 2 * second)) demoQueued
      = (report, None, db')
    ∧ report.(edr_Claimed) = 1 ∧ effectIn db' "effect-1" = Some r' ∧ r'.(fx_Status) = EffectStatusPending.
Proof.
  assert (due_batch (demoClock + second) (claimCommand demoDispatcher.(ed_options)) demoQueued = [demoQueuedRow])
    as Hb by (vm_compute; reflexivity).
  destruct (dispatch_once_settles demoConfig demoDispatcher rateLimited demoClock (demoClock + second)
    (demoClock + second) (fun _ => demoClock + 2 * second) demoQueued demoQueued_reachable)
    as (report&db'&Hd&Hcl&_&_&Hall).
  - unfold second; lia.
  - vm_compute; reflexivity.
  - vm_compute; reflexivity.
  - reflexivity.
  - assert (due_effects (demoClock + second) (ce_Topics (claimCommand demoDispatcher.(ed_options))) demoQueued
      = [demoQueuedRow]) as -> by (vm_compute; reflexivity).
    apply Forall_singleton. split; [eexists; vm_compute; reflexivity|]. split; vm_compute; reflexivity.
  - rewrite Hb. discriminate.
  - unfold second; lia.
  - intros _. reflexivity.
  - intros _. eexists. vm_compute. reflexivity.
  - rewrite Hb in Hcl, Hall. destruct (Hall 0%nat demoQueuedRow eq_refl) as (r'&Hr'&Hst).
    exists report, db', r'. split; [exact Hd|]. split; [exact Hcl|]. split; [exact Hr'|]. exact Hst.
Defined.

(** A delivery whose outcome is not known is never repeated on a guess.
    Whatever other processes do, if the deliverer returned an error, reported an
    unknown outcome or returned a report that does not validate, without saying
    that repeating is safe, then a completion that is recorded dead-letters the
    effect: it is neither re-queued nor marked delivered. *)
Theorem dispatch_never_guesses cfg env answer delivery db a db' :
  (snd answer ≠ None ∨ (fst answer).(rep_Outcome) = DeliveryOutcomeUnknown
   ∨ DeliveryReport_Validate (fst answer) ≠ None) →
  (fst answer).(rep_IdempotentRetrySafe) = false →
  dispatch cfg env answer delivery db = (Ok a, db') → a.(cer_Replay) = false →
  a.(cer_Status) = EffectStatusDeadLetter
  ∧ ∃ r, effectIn db' delivery.(del_Fence).(ef_OutboxID) = Some r
         ∧ r.(fx_Status) = EffectStatusDeadLetter ∧ r.(fx_DeadLetteredAt) ≠ None.
Proof.
  intros Hamb Hsafe Hd Hreplay.
  assert ((recordedReport answer).(rep_Outcome) = DeliveryOutcomeUnknown
          ∧ (recordedReport answer).(rep_IdempotentRetrySafe) = false) as [Hout Hno].
  { unfold recordedReport. destruct answer as [report [e|]]; simpl in *.
    - rewrite Hsafe. by vm_compute.
    - destruct (DeliveryReport_Validate report) eqn:E; [done|]. destruct Hamb as [?|[?|?]]; done. }
  apply CompleteEffect_inv in Hd as [[[e ?] _]|(_&a'&Hb&[[_ Hr]|[_ ?]])]; [done| |done].
  injection Hr as <-. apply completeEffectBody_inv in Hb
    as (row&Hin&_&[(_&->&_)|(_&_&now&r'&_&Hres&Hu)]); [done|]. simpl in *.
  unfold resolveEffectCompletion in Hres. rewrite Hout, Hno in Hres.
  cbn [DeliveryOutcomeUnknown DeliveryOutcomeDelivered] in Hres.
  repeat (rewrite bool_decide_eq_false_2 in Hres by done).
  rewrite bool_decide_eq_true_2 in Hres by done. injection Hres as <- <-.
  split; [done|]. eexists. split; [by eapply (updateEffect_effectIn _ _ _ (fun _ => _))|]. done.
Qed.

Definition demoAmbiguous : DeliveryReport * validation :=
  (mkDeliveryReport DeliveryOutcomeDelivered "" 0 false, Some (ErrText "connection reset")).

Lemma dispatch_never_guesses_witness :
  ∃ a db', dispatch demoConfig (undisturbed (fun _ => demoClock + 2 * second) 0) demoAmbiguous demoLease demoLeased
             = (Ok a, db')
    ∧ a.(cer_Status) = EffectStatusDeadLetter.
Proof.
  destruct (dispatch demoConfig (undisturbed (fun _ => demoClock + 2 * second) 0) demoAmbiguous demoLease demoLeased)
    as [[a|e] db'] eqn:E; [|vm_compute in E; discriminate E].
  exists a, db'. split; [reflexivity|].
  refine (proj1 (dispatch_never_guesses demoConfig _ demoAmbiguous demoLease demoLeased a db' _ _ E _)).
  - left. discriminate.
  - reflexivity.
  - vm_compute in E. injection E as <- _. reflexivity.
Defined.

(** ** A delivery can outlive its lease *)

Definition secondEffect : EffectOutboxDraft :=
  mkEffectOutboxDraft "effect-2" "image.publish" "publish:turn_1:second" demoData demoClock.

Definition enqueueSecond (db : Database) : Database :=
  match buildEffectOutboxRow demoAttempt "operation-1" 1 secondEffect demoClock with
  | Ok (row, _) => match insertEffect db row with Ok db' => db' | Err _ => db end
  | Err _ => db
  end.

Definition twoQueued : Database := Eval vm_compute in enqueueSecond demoQueued.

Lemma twoQueued_reachable : outbox_reachable (demoClock, twoQueued).
Proof.
  eapply outbox_reachable_step; [apply demoQueued_reachable|].
  eapply (os_enqueue demoAttempt "operation-1" 1 secondEffect _ _ demoClock);
    [lia|vm_compute; reflexivity..].
Qed.

Definition slowDispatcher : EffectDispatcher :=
  mkEffectDispatcher
    (mkEffectDispatcherOptions "dispatcher-1" 2 ["image.publish"] second (29 * second)) None.

(** Bounding one delivery below the default lease does not keep two
    dispatchers from delivering one effect at the same time: a batch is leased at
    once and delivered one by one.  With valid options and the default lease, a
    first delivery that takes less than its timeout leaves the second effect's
    lease to lapse while its own delivery, also within its timeout, is in flight;
    another dispatcher leases and delivers the same effect meanwhile, and the
    first one's completion is fenced off only afterwards. *)
Theorem dispatch_leases_overlap :
  ∃ cfg d (t t1 t2 t3 t4 : time) db d1 d2 db1 a1 db2 d2' db3,
    let timeout := d.(ed_options).(edo_DeliveryTimeout) in
    let during (tc : time) := undisturbed (fun _ => tc) 0 in
    outbox_reachable (t, db) ∧ t ≤ t1
    ∧ EffectDispatcherOptions_Validate d.(ed_options) = None
    ∧ effectLeaseTTL cfg = DefaultEffectLeaseTTL
    ∧ (t1 < t2 ≤ t1 + timeout ∧ t2 < t3 < t4 ∧ t4 ≤ t2 + timeout)
    ∧ ClaimEffects cfg background (Ok t1) (alone t1) (claimCommand d.(ed_options)) db
      = ([d1; d2], None, db1)
    ∧ dispatch cfg (during t2) (deliveredReport, None) d1 db1 = (Ok a1, db2)
    ∧ claimEffect cfg background (Ok t3) TxReported d2.(del_OutboxID) "dispatcher-2"
        d.(ed_options).(edo_Topics) db2 = (Ok (Some d2'), db3)
    ∧ d2'.(del_DedupeKey) = d2.(del_DedupeKey) ∧ d2'.(del_Payload) = d2.(del_Payload)
    ∧ dispatch cfg (during t4) (deliveredReport, None) d2 db3 = (Err ErrEffectFenced, db3).
Proof.
  exists demoConfig, slowDispatcher, demoClock, (demoClock + second), (demoClock + 30 * second),
    (demoClock + 31 * second), (demoClock + 59 * second), twoQueued.
  do 7 eexists. cbn zeta.
  split; [apply twoQueued_reachable|]. split; [unfold second; lia|].
  split; [vm_compute; reflexivity|]. split; [vm_compute; reflexivity|].
  split; [unfold slowDispatcher, second; simpl; lia|].
  split; [vm_compute; reflexivity|]. split; [vm_compute; reflexivity|].
  split; [vm_compute; reflexivity|]. split; [reflexivity|]. split; [reflexivity|].
  vm_compute. reflexivity.
Qed.
