(* ===== verification/ReconcilerPass.v ===== *)
(** * The reconciler: ReconcileOnce and its schedule (service/agentturn/reconcile.go)

    One bounded pass lists the Turns without a live executor that a retirement can
    help, and retires them one by one; the schedule repeats passes.  The theorem:
    a pass counts every candidate once, retires only what it listed, for the
    reason it listed, and is a sequence of kernel steps, so that every theorem on
    reachable tables holds across passes. *)

From S2P Require Import Prelude GoText AgentContract TurnTypes MemoryStore MemoryStoreFacts Fixtures TurnService ExecutionTypes Settlement SqlDatabase SqlFacts SqlStore SqlExecution EffectOutbox SettlementAuthority CommitCommand SqlCommit Reconcile EpochFacts SqlCommitFacts SqlExecutionFacts ExecutionFixtures CommitFixtures SettlementTheorems EffectDispatcher.

(** ** Options *)

Definition DefaultReconcileInterval : Z := 30 * second.
Definition MaxReconcileInterval : Z := 3600 * second.

(** The jitter of the pause is a floating point number without a part in what a
    pass does; it is left out. *)
Record ReconcilerOptions := mkReconcilerOptions {
  rop_ReconcilerID : string;
  rop_ReconcilerBuildDigest : string;
  rop_BatchLimit : Z;
  rop_Interval : Z
}.

Definition ReconcilerOptions_applyDefaults (o : ReconcilerOptions) : ReconcilerOptions :=
  mkReconcilerOptions o.(rop_ReconcilerID) o.(rop_ReconcilerBuildDigest) o.(rop_BatchLimit)
    (if o.(rop_Interval) <=? 0 then DefaultReconcileInterval else o.(rop_Interval)).

Definition batch_query (o : ReconcilerOptions) : ReclaimQuery := mkReclaimQuery o.(rop_BatchLimit) true.

Definition ReconcilerOptions_Validate (o : ReconcilerOptions) : validation :=
  first_error
    [ validatePrintableASCII o.(rop_ReconcilerID) MaxWorkerIDBytes;
      validatePrintableASCII o.(rop_ReconcilerBuildDigest) MaxWorkerBuildDigestBytes;
      when ((o.(rop_Interval) <=? 0) || (MaxReconcileInterval <? o.(rop_Interval))) (ErrText "interval out of range");
      ReclaimQuery_Validate (batch_query o) ].

(** The scanner and the store are given by their presence. *)
Definition NewReconciler (hasScanner hasStore : bool) (o : ReconcilerOptions) : result ReconcilerOptions :=
  guard! hasScanner && hasStore else ErrText "reconciler requires a scanner and a reconcile store";;
  let o := ReconcilerOptions_applyDefaults o in
  check! ReconcilerOptions_Validate o;;
  Ok o.

(** ** One pass *)

Record ReconcileFailure := mkReconcileFailure {
  rcf_TurnID : TurnID;
  rcf_Reason : ReclaimReason;
  rcf_Err : error
}.

Record ReconcileReport := mkReconcileReport {
  rrp_Scanned : Z;
  rrp_Retired : list ReconcileResult;
  rrp_Skipped : Z;
  rrp_Failures : list ReconcileFailure
}.

Definition emptyReconcileReport : ReconcileReport := mkReconcileReport 0 [] 0 [].

(** The errors of a Turn that recovered between the scan and its retirement. *)
Definition reconcileSkips (e : error) : bool :=
  match e with
  | ErrReconcilePrecondition | ErrTurnTerminal | ErrTurnNotFound | ErrCancellationNotRequested => true
  | _ => false
  end.

Definition countRetirement (candidate : ReclaimableTurn) (r : result ReconcileResult) (report : ReconcileReport)
    : ReconcileReport :=
  let skip := mkReconcileReport report.(rrp_Scanned) report.(rrp_Retired) (report.(rrp_Skipped) + 1) report.(rrp_Failures) in
  match r with
  | Ok res =>
    if res.(rec_Changed)
    then mkReconcileReport report.(rrp_Scanned) (report.(rrp_Retired) ++ [res]) report.(rrp_Skipped) report.(rrp_Failures)
    else skip
  | Err e =>
    if reconcileSkips e then skip
    else mkReconcileReport report.(rrp_Scanned) report.(rrp_Retired) report.(rrp_Skipped)
           (report.(rrp_Failures) ++ [mkReconcileFailure candidate.(recl_TurnID) candidate.(recl_Reason) e])
  end.

Definition retirement (o : ReconcilerOptions) (candidate : ReclaimableTurn) : ReconcileCommand :=
  mkReconcileCommand candidate.(recl_TurnID) candidate.(recl_Reason) o.(rop_ReconcilerID) o.(rop_ReconcilerBuildDigest).

(** What the i-th candidate meets: the context, the gate as it stands then, what
    others committed before, and the call. *)
Record retireEnv := mkRetireEnv {
  rte_ctx : validation;
  rte_gate : option AdmissionGate;
  rte_others : Database → Database;
  rte_call : commitEnv
}.

Fixpoint reconcileLoop (cfg : SQLStoreConfig) (o : ReconcilerOptions) (env : nat → retireEnv) (i : nat)
    (candidates : list ReclaimableTurn) (report : ReconcileReport) (db : Database)
    : ReconcileReport * validation * Database :=
  match candidates with
  | [] => (report, None, db)
  | candidate :: rest =>
    match first_error [(env i).(rte_ctx); Gate_Acquire (env i).(rte_gate)] with
    | Some e => (report, Some e, db)
    | None =>
      let '(r, db') := ReconcileTerminal cfg (env i).(rte_call) (retirement o candidate) ((env i).(rte_others) db) in
      reconcileLoop cfg o env (S i) rest (countRetirement candidate r report) db'
    end
  end.

Definition ReconcileOnce (cfg : SQLStoreConfig) (o : ReconcilerOptions) (top : validation) (scanCtx : context)
    (scanClock : result time) (env : nat → retireEnv) (db : Database) : ReconcileReport * validation * Database :=
  match top with
  | Some e => (emptyReconcileReport, Some e, db)
  | None =>
    match ListReclaimableTurns cfg scanCtx scanClock (batch_query o) db with
    | Err e => (emptyReconcileReport, Some e, db)
    | Ok candidates =>
      reconcileLoop cfg o env 0 candidates (mkReconcileReport (Z.of_nat (length candidates)) [] 0 []) db
    end
  end.

(** ** The schedule *)

Definition batchLimit (o : ReconcilerOptions) : Z := ReclaimQuery_limit (batch_query o).

(** What [RunWithPulse] does after a pass; [ctxAfter] is the context when it is
    asked for again. *)
Definition reconcileDecision (o : ReconcilerOptions) (ctxAfter : validation) (report : ReconcileReport)
    (err : validation) : runAction :=
  match err with
  | None => if (batchLimit o <=? report.(rrp_Scanned)) && (0 <? report.(rrp_Scanned))
            then RunAgain else RunSleep o.(rop_Interval)
  | Some ErrAdmissionClosed => RunAwaitShutdown
  | Some _ => match ctxAfter with Some e => RunReturn e | None => RunSleep o.(rop_Interval) end
  end.

Definition reconcileObserves (err : validation) : bool :=
  match err with Some ErrAdmissionClosed => false | _ => true end.

Record scheduleEnv := mkScheduleEnv {
  sch_top : validation;
  sch_pass : Database → ReconcileReport * validation * Database;
  sch_after : validation;
  sch_wait : validation
}.

Fixpoint Reconciler_RunWithPulse (o : ReconcilerOptions) (turns : list scheduleEnv) (db : Database)
    : list (ReconcileReport * validation) * validation * Database :=
  match turns with
  | [] => ([], None, db)
  | turn :: rest =>
    match turn.(sch_top) with
    | Some e => ([], Some e, db)
    | None =>
      let '(report, err, db') := turn.(sch_pass) db in
      let seen := if reconcileObserves err then [(report, err)] else [] in
      let continue := let '(tail, final, db'') := Reconciler_RunWithPulse o rest db' in (seen ++ tail, final, db'') in
      match reconcileDecision o turn.(sch_after) report err with
      | RunAgain => continue
      | RunReturn e => (seen, Some e, db')
      | RunSleep _ => match turn.(sch_wait) with Some e => (seen, Some e, db') | None => continue end
      | RunAwaitShutdown =>
        (seen, match turn.(sch_after) with Some e => Some e | None => turn.(sch_wait) end, db')
      end
    end
  end.

(** ** What a pass does *)

Definition handled (report : ReconcileReport) : Z :=
  Z.of_nat (length report.(rrp_Retired)) + report.(rrp_Skipped) + Z.of_nat (length report.(rrp_Failures)).

Lemma countRetirement_spec candidate r report :
  handled (countRetirement candidate r report) = handled report + 1
  ∧ (countRetirement candidate r report).(rrp_Scanned) = report.(rrp_Scanned)
  ∧ (∀ res, res ∈ (countRetirement candidate r report).(rrp_Retired) →
       res ∈ report.(rrp_Retired) ∨ (r = Ok res ∧ res.(rec_Changed) = true))
  ∧ (∀ f, f ∈ (countRetirement candidate r report).(rrp_Failures) →
       f ∈ report.(rrp_Failures)
       ∨ (r = Err f.(rcf_Err) ∧ f.(rcf_TurnID) = candidate.(recl_TurnID) ∧ reconcileSkips f.(rcf_Err) = false)).
Proof.
  unfold countRetirement, handled. destruct r as [res|e].
  - destruct (rec_Changed res) eqn:Hc; simpl; rewrite ?length_app; simpl; split_and!; try lia; try by left.
    intros x [?| ->%list_elem_of_singleton]%elem_of_app; [by left|by right].
  - destruct (reconcileSkips e) eqn:Hs; simpl; rewrite ?length_app; simpl; split_and!; try lia; try by left.
    intros x [?| ->%list_elem_of_singleton]%elem_of_app; [by left|by right].
Qed.

Lemma reconcile_call_step cfg env command t t' db r db' :
  exec_reachable cfg (t, db) → t ≤ t' → clock_reading t' env.(cme_clock) →
  ReconcileTerminal cfg env command db = (r, db') → exec_reachable cfg (t', db') ∨ db' = db.
Proof.
  intros Hr Hle Hck H. unfold ReconcileTerminal in H. destruct (first_error _) eqn:Hv in H; [right; by injection H as _ <-|].
  rewrite first_error_None, !Forall_cons in Hv. destruct Hv as (_ & Hv & _).
  destruct (ReclaimReason_TerminalStatus _) as [terminal|] eqn:Ht; [|right; by injection H as _ <-].
  destruct (providerUsageTerminalization _ _) as [p|]; [|right; by injection H as _ <-].
  destruct (writeTransaction _ _ _ _ _) as [a db1] eqn:Hw. left.
  assert (db' = db1) as -> by (destruct a; by injection H as _ <-).
  eapply exec_reachable_step; [done|]. apply xs_kernel. by eapply xs_reconcile.
Qed.

Section Pass.
Context (cfg : SQLStoreConfig) (o : ReconcilerOptions) (env : nat → retireEnv) (tick : nat → time).

(** The clock of the database does not go back, every call reads it, and what
    others do keeps the tables reachable. *)
Context (Htick : ∀ i, tick i ≤ tick (S i)) (Hclock : ∀ i, clock_reading (tick i) (env i).(rte_call).(cme_clock)).
Context (Hothers : ∀ i t db, exec_reachable cfg (t, db) → t ≤ tick i →
  ∃ t1, t1 ≤ tick i ∧ exec_reachable cfg (t1, (env i).(rte_others) db)).

(** One retirement of a pass: the tables it met and left. *)
Definition retired_by (listed : list ReclaimableTurn) (res : ReconcileResult) : Prop :=
  ∃ c i t db db', c ∈ listed ∧ exec_reachable cfg (t, db) ∧ t ≤ tick i
    ∧ ReconcileTerminal cfg (env i).(rte_call) (retirement o c) db = (Ok res, db') ∧ res.(rec_Changed) = true.

Lemma reconcileLoop_spec listed : ∀ candidates i report t db report' err db',
  (∀ c, c ∈ candidates → c ∈ listed) → exec_reachable cfg (t, db) → t ≤ tick i →
  reconcileLoop cfg o env i candidates report db = (report', err, db') →
  (∃ j t', t' ≤ tick j ∧ exec_reachable cfg (t', db'))
  ∧ report'.(rrp_Scanned) = report.(rrp_Scanned)
  ∧ handled report ≤ handled report' ≤ handled report + Z.of_nat (length candidates)
  ∧ (err = None → handled report' = handled report + Z.of_nat (length candidates))
  ∧ (∀ res, res ∈ report'.(rrp_Retired) → res ∈ report.(rrp_Retired) ∨ retired_by listed res)
  ∧ ((∀ j, is_Some (Gate_Acquire (env j).(rte_gate))) → report' = report ∧ db' = db).
Proof.
  induction candidates as [|c rest IH]; intros i report t db report' err db' Hin Hr Ht E; cbn [reconcileLoop] in E.
  { injection E as <- <- <-. split_and!; try done; try (simpl; lia); eauto. }
  destruct (first_error _) eqn:Hg.
  { injection E as <- <- <-. split_and!; try done; try (simpl; lia); eauto. }
  rewrite first_error_None, !Forall_cons in Hg. destruct Hg as (_ & Hg & _).
  destruct (ReconcileTerminal _ _ _ _) as [r db1] eqn:Ec. destruct (Hothers i t db Hr Ht) as (t1 & Ht1 & Hr1).
  assert (Hreach : ∃ t2, t2 ≤ tick (S i) ∧ exec_reachable cfg (t2, db1)).
  { pose proof (Htick i) as Hm. destruct (reconcile_call_step _ _ _ _ (tick i) _ _ _ Hr1 Ht1 (Hclock i) Ec) as [?| ->].
    - by exists (tick i).
    - exists t1. split; [lia|done]. }
  destruct Hreach as (t2 & Ht2 & Hr2). destruct (countRetirement_spec c r report) as (Hh & Hsc & Hret & _).
  destruct (IH (S i) _ t2 db1 report' err db' ltac:(intros; apply Hin; by right) Hr2 Ht2 E) as (H1 & H2 & H3 & H4 & H5 & _).
  rewrite Hh in H3, H4. split_and!; [done|congruence|simpl; lia|simpl; lia|intros He; specialize (H4 He); simpl; lia| |].
  - intros res [Hres|?]%H5; [|by right]. apply Hret in Hres as [?|[-> Hch]]; [by left|]. right.
    exists c, i, t1, ((env i).(rte_others) db), db1. split_and!; try done. apply Hin. by left.
  - intros Hclosed. destruct (Hclosed i) as [e He]. congruence.
Qed.
End Pass.

Lemma reclaimEntries_length query budget db rows : ∀ entries,
  reclaimEntries query budget db rows = Ok entries → (length entries ≤ length rows)%nat.
Proof.
  induction rows as [|t rows IH]; intros entries E; cbn [reclaimEntries] in E; [by injection E as <-|].
  destruct (toReclaimableTurn _ _ _) as [entry|]; [|done]. destruct (reclaimEntries _ _ _ _) as [es|]; [|done].
  specialize (IH es eq_refl). destruct (_ && _); injection E as <-; simpl; lia.
Qed.

Lemma scan_limit cfg ctx clock query db entries :
  ListReclaimableTurns cfg ctx clock query db = Ok entries →
  Z.of_nat (length entries) ≤ ReclaimQuery_limit query ≤ MaxReclaimScanLimit.
Proof.
  unfold ListReclaimableTurns. intros E. destruct (first_error _) eqn:Hv; [done|].
  rewrite first_error_None, !Forall_cons in Hv. destruct Hv as (_ & Hv & _). unfold ReclaimQuery_Validate in Hv.
  rewrite when_None, orb_false_iff, !Z.ltb_ge in Hv.
  destruct (executionNow clock); [|done]. destruct (turnAttemptBudget cfg); [|done].
  destruct (reclaimEntries _ _ _ _) as [es|] eqn:Ee; [|done]. injection E as <-. apply reclaimEntries_length in Ee.
  rewrite length_take in Ee. unfold ReclaimQuery_limit, DefaultReclaimScanLimit, MaxReclaimScanLimit in *.
  destruct (Z.leb_spec (rq_Limit query) 0); lia.
Qed.

(** C37: One pass of the reconciler.  With a database clock that does not go back
    and other transactions that are kernel steps, a pass keeps the tables
    reachable, lists at most its batch, counts every listed Turn at most once and,
    when it ends without an error, exactly once: one failing Turn never stops it.
    Every Turn it reports as retired was listed, was unfinished and without a live
    executor in the tables the retirement met, and was left in the terminal
    status of the reason it was listed for, in the next epoch.  While the gate is
    closed a pass changes nothing. *)
Theorem reconcile_pass_sound cfg o scanCtx scanClock env tick t db report err db' :
  (∀ i, tick i ≤ tick (S i)) → (∀ i, clock_reading (tick i) (env i).(rte_call).(cme_clock)) →
  (∀ i t db, exec_reachable cfg (t, db) → t ≤ tick i → ∃ t1, t1 ≤ tick i ∧ exec_reachable cfg (t1, (env i).(rte_others) db)) →
  exec_reachable cfg (t, db) → t ≤ tick 0%nat →
  ReconcileOnce cfg o None scanCtx scanClock env db = (report, err, db') →
  (∃ t', exec_reachable cfg (t', db'))
  ∧ handled report ≤ report.(rrp_Scanned) ≤ MaxReclaimScanLimit
  ∧ (err = None → handled report = report.(rrp_Scanned))
  ∧ ((∀ i, is_Some (Gate_Acquire (env i).(rte_gate))) → report.(rrp_Retired) = [] ∧ db' = db)
  ∧ ∀ res, res ∈ report.(rrp_Retired) →
      ∃ c i dbi dbi' r r' now,
        (∃ listed, ListReclaimableTurns cfg scanCtx scanClock (batch_query o) db = Ok listed ∧ c ∈ listed)
        ∧ ReconcileTerminal cfg (env i).(rte_call) (retirement o c) dbi = (Ok res, dbi')
        ∧ canonicalExecutionTime (tick i) = Ok now
        ∧ r ∈ dbi.(db_turns) ∧ r.(tr_TurnID) = c.(recl_TurnID) ∧ TurnStatus_Terminal r.(tr_Status) = false
        ∧ (r.(tr_ActiveAttemptID) = None
           ∨ ∃ a, a ∈ dbi.(db_attempts) ∧ a.(ar_TurnID) = r.(tr_TurnID)
                  ∧ r.(tr_ActiveAttemptID) = Some a.(ar_AttemptID) ∧ a.(ar_LeaseExpiresAt) ≤ now)
        ∧ r' ∈ dbi'.(db_turns) ∧ r'.(tr_TurnID) = c.(recl_TurnID)
        ∧ Some r'.(tr_Status) = ReclaimReason_TerminalStatus c.(recl_Reason)
        ∧ r'.(tr_FencingToken) = r.(tr_FencingToken) + 1 ∧ r'.(tr_ActiveAttemptID) = None.
Proof.
  intros Htick Hclock Hothers Hr Ht E. unfold ReconcileOnce in E.
  destruct (ListReclaimableTurns cfg scanCtx scanClock (batch_query o) db) as [listed|] eqn:Es.
  2: { injection E as <- <- <-. unfold handled, MaxReclaimScanLimit. simpl. split_and!; try done; [by exists t|].
       intros res Hres. by apply not_elem_of_nil in Hres. }
  pose proof (scan_limit _ _ _ _ _ _ Es) as [Hl Hm].
  destruct (reconcileLoop_spec cfg o env tick Htick Hclock Hothers listed listed 0 _ t db report err db'
    ltac:(done) Hr Ht E) as ((_ & t' & _ & Hr') & Hsc & Hh & Hall & Hret & Hclosed).
  assert (Hz : handled (mkReconcileReport (Z.of_nat (length listed)) [] 0 []) = 0) by done. rewrite Hz in Hh, Hall. simpl in Hsc.
  rewrite Hsc. split_and!; [by exists t'|lia|lia|intros He; specialize (Hall He); lia| |].
  - intros [-> ->]%Hclosed. done.
  - intros res [Hres|(c & i & ti & dbi & dbi' & Hc & Hri & Hti & Hcall & Hch)]%Hret; [by apply not_elem_of_nil in Hres|].
    destruct (reconcile_retires_idle cfg (rte_call (env i)) (retirement o c) ti (tick i) dbi res dbi' Hri Hti (Hclock i) Hcall Hch)
      as (r & now & H1 & H2 & H3 & H4 & H5 & (r' & H6 & H7 & H8 & H9 & H10) & _).
    exists c, i, dbi, dbi', r, r', now. split; [by exists listed|]. split_and!; done.
Qed.

(** ** A pass on the cancelled Turn of the concrete history *)

Definition demoReconciler : ReconcilerOptions :=
  mkReconcilerOptions reconcileCommand.(rcmd_ReconcilerID) reconcileCommand.(rcmd_ReconcilerBuildDigest) 0 (30 * second).
Definition quietRetire (n : Z) : nat → retireEnv :=
  λ _, mkRetireEnv None (Some NewAdmissionGate) (λ db, db) (commitEnvAt n TxReported).
Definition retiredReport : ReconcileReport := mkReconcileReport 1 [retiredResult] 0 [].

Lemma quiet_reconcile :
  ReconcileOnce execConfig demoReconciler None background (Ok (execAt 10)) (quietRetire 10) completed
  = (retiredReport, None, retiredTwo).
Proof. vm_compute. reflexivity. Qed.

Lemma reconcile_pass_sound_witness :
  handled retiredReport = 1
  ∧ ∃ c dbi dbi' r', ReconcileTerminal execConfig (commitEnvAt 10 TxReported) (retirement demoReconciler c) dbi
                     = (Ok retiredResult, dbi')
      ∧ r' ∈ dbi'.(db_turns) ∧ r'.(tr_TurnID) = c.(recl_TurnID) ∧ r'.(tr_ActiveAttemptID) = None.
Proof.
  destruct (reconcile_pass_sound execConfig demoReconciler background (Ok (execAt 10)) (quietRetire 10) (λ _, execAt 10)
    (execAt 10) completed retiredReport None retiredTwo) as (_ & _ & Hall & _ & Hret).
  - intros i. lia.
  - intros i. by left.
  - intros i t db Hr Ht. by exists t.
  - apply completed_reachable.
  - lia.
  - exact quiet_reconcile.
  - split; [by apply Hall|].
    destruct (Hret retiredResult) as (c & i & dbi & dbi' & r & r' & now & _ & Hcall & _ & _ & _ & _ & _ & H1 & H2 & _ & _ & H3);
      [by left|].
    exists c, dbi, dbi', r'. split_and!; assumption.
Defined.
