(* ===== verification/EventStream.v ===== *)
(** * Replay-to-live observation: service/agentturn/event_stream.go

    A [TurnSubscription] is one observer's position in a Turn's log.  The
    stream is written against [ReplayReader], the narrow read interface; its
    promises are [ReplayReaderLaws].  The subscription's mutex makes [pop],
    [finished] and the two halves of [advance] (capture the cursor, merge the
    page) atomic; the replay between them is not, so concurrent calls of
    [Next] may interleave there.  The broker only shortens waits. *)

From S2P Require Import Prelude GoText GoJson AgentContract TurnTypes MemoryStore MemoryStoreFacts MemoryStoreProgress TurnService.

(** ** The broker *)

(** Channels are numbered in order of creation; a channel of capacity one
    either holds a signal or not. *)
Record TurnEventBroker := mkTurnEventBroker {
  brk_waiters : gmap TurnID (list nat);
  brk_pending : gset nat;
  brk_next : nat
}.

Definition NewTurnEventBroker : TurnEventBroker := mkTurnEventBroker ∅ ∅ 0.

Definition Watch (turnID : TurnID) (b : TurnEventBroker) : nat * TurnEventBroker :=
  let signal := b.(brk_next) in
  (signal,
   mkTurnEventBroker (<[turnID := default [] (b.(brk_waiters) !! turnID) ++ [signal]]> b.(brk_waiters))
     b.(brk_pending) (S signal)).

(** The release function [Watch] returns. *)
Definition Release (turnID : TurnID) (signal : nat) (b : TurnEventBroker) : TurnEventBroker :=
  let remaining :=
    filter (fun candidate => candidate ≠ signal) (default [] (b.(brk_waiters) !! turnID)) in
  mkTurnEventBroker
    (if bool_decide (remaining = []) then delete turnID b.(brk_waiters)
     else <[turnID := remaining]> b.(brk_waiters))
    b.(brk_pending) b.(brk_next).

Definition NotifyTurnEvent (turnID : TurnID) (b : TurnEventBroker) : TurnEventBroker :=
  mkTurnEventBroker b.(brk_waiters)
    (list_to_set (default [] (b.(brk_waiters) !! turnID)) ∪ b.(brk_pending)) b.(brk_next).

(** [<-signal] in the select of [Next]. *)
Definition Receive (signal : nat) (b : TurnEventBroker) : option TurnEventBroker :=
  if bool_decide (signal ∈ b.(brk_pending))
  then Some (mkTurnEventBroker b.(brk_waiters) (b.(brk_pending) ∖ {[signal]}) b.(brk_next))
  else None.

(** ** Options *)

Definition DefaultStreamPollInterval : Z := 250 * 10 ^ 6.
Definition MaxStreamPollInterval : Z := 10 * 10 ^ 9.
Definition DefaultStreamPageLimit : Z := 64.

Record EventStreamOptions := mkEventStreamOptions {
  opt_PollInterval : Z;
  opt_PageLimit : Z
}.

Definition applyDefaults (o : EventStreamOptions) : EventStreamOptions :=
  mkEventStreamOptions
    (if o.(opt_PollInterval) <=? 0 then DefaultStreamPollInterval else o.(opt_PollInterval))
    (if o.(opt_PageLimit) <=? 0 then DefaultStreamPageLimit else o.(opt_PageLimit)).

Definition EventStreamOptions_Validate (o : EventStreamOptions) : validation :=
  first_error
    [ when ((o.(opt_PollInterval) <=? 0) || (MaxStreamPollInterval <? o.(opt_PollInterval)))
        (ErrText "pollInterval out of range");
      ReplayQuery_Validate (mkReplayQuery (mkReplayCursor "" None) o.(opt_PageLimit)) ].

Definition NewTurnEventStream (hasReader : bool) (o : EventStreamOptions)
    : result EventStreamOptions :=
  guard! hasReader else ErrText "turn event stream requires a replay reader";;
  let o' := applyDefaults o in
  check! EventStreamOptions_Validate o';;
  Ok o'.

(** ** The reader interface *)

Class ReplayReader (S : Type) : Type :=
  reader_Replay : context → PrincipalID → ThreadID → TurnID → ReplayQuery → op S ReplayRecord.

(** ** Subscriptions *)

Record TurnSubscription := mkTurnSubscription {
  sub_principalID : PrincipalID;
  sub_threadID : ThreadID;
  sub_turnID : TurnID;
  sub_cursor : Sequence;
  sub_buffered : list EventEnvelope;
  sub_latest : Sequence;
  sub_terminal : bool
}.

(** [pop]: drop buffered events at or below the cursor, hand out the next. *)
Fixpoint pop_loop (cursor : Sequence) (buffered : list EventEnvelope)
    : option EventEnvelope * Sequence * list EventEnvelope :=
  match buffered with
  | [] => (None, cursor, [])
  | event :: rest =>
    if event.(ev_Sequence) <=? cursor then pop_loop cursor rest
    else (Some event, event.(ev_Sequence), rest)
  end.

Definition pop (sub : TurnSubscription) : option EventEnvelope * TurnSubscription :=
  let '(event, cursor, rest) := pop_loop sub.(sub_cursor) sub.(sub_buffered) in
  (event, mkTurnSubscription sub.(sub_principalID) sub.(sub_threadID) sub.(sub_turnID)
            cursor rest sub.(sub_latest) sub.(sub_terminal)).

Definition finished (sub : TurnSubscription) : bool :=
  sub.(sub_terminal) && bool_decide (sub.(sub_buffered) = [])
  && (sub.(sub_latest) <=? sub.(sub_cursor)).

Definition Cursor (sub : TurnSubscription) : Sequence := sub.(sub_cursor).

(** [advance] reads with the captured cursor and then merges the page. *)
Definition advanceQuery (limit : Z) (after : Sequence) : ReplayQuery :=
  mkReplayQuery (mkReplayCursor "" (Some after)) limit.

Definition advanceMerge (record : ReplayRecord) (sub : TurnSubscription)
    : bool * TurnSubscription :=
  (negb (bool_decide (record.(rec_Events) = [])),
   mkTurnSubscription sub.(sub_principalID) sub.(sub_threadID) sub.(sub_turnID)
     sub.(sub_cursor) (sub.(sub_buffered) ++ record.(rec_Events))
     record.(rec_Window).(win_LatestSequence)
     (TurnStatus_Terminal record.(rec_Turn).(turn_Status))).

(** What one iteration of the loop of [Next] does. *)
Inductive iteration : Type :=
| IterReturn (r : result EventEnvelope)
| IterContinue
| IterWait.

(** What one iteration observes: the context's checks, whether the
    subscription is closed, the store it replays from and how its wait ends. *)
Record iterEnv (S : Type) := mkIterEnv {
  ie_ctx : context;
  ie_closed : bool;
  ie_store : S;
  ie_done : validation
}.
Arguments mkIterEnv {S} _ _ _ _.
Arguments ie_ctx {S} _.
Arguments ie_closed {S} _.
Arguments ie_store {S} _.
Arguments ie_done {S} _.

Section Stream.
Context {S : Type} `{ReplayReader S}.
Variable options : EventStreamOptions.

Definition advance (ctx : context) (s : S) (sub : TurnSubscription)
    : result bool * TurnSubscription :=
  let after := sub.(sub_cursor) in
  match fst (reader_Replay ctx sub.(sub_principalID) sub.(sub_threadID) sub.(sub_turnID)
               (advanceQuery options.(opt_PageLimit) after) s) with
  | Err e => (Err e, sub)
  | Ok record => let '(more, sub') := advanceMerge record sub in (Ok more, sub')
  end.

Definition Subscribe (ctx : context) (command : AttachCommand) (s : S)
    : result TurnSubscription :=
  check! ctx 0%nat;;
  check! AttachCommand_Validate command;;
  let turnID := command.(attach_Request).(areq_TurnID) in
  match fst (reader_Replay (ctx_after 1 ctx) command.(attach_PrincipalID)
               command.(attach_ThreadID) turnID
               (mkReplayQuery command.(attach_Request).(areq_Cursor) options.(opt_PageLimit)) s) with
  | Err e => Err e
  | Ok first =>
    Ok (mkTurnSubscription command.(attach_PrincipalID) command.(attach_ThreadID) turnID
          first.(rec_AfterSequence) first.(rec_Events)
          first.(rec_Window).(win_LatestSequence)
          (TurnStatus_Terminal first.(rec_Turn).(turn_Status)))
  end.

Definition nextIteration (env : iterEnv S) (sub : TurnSubscription)
    : iteration * TurnSubscription :=
  if env.(ie_closed) then (IterReturn (Err ErrSubscriptionClosed), sub)
  else match env.(ie_ctx) 0%nat with
  | Some e => (IterReturn (Err e), sub)
  | None =>
    match pop sub with
    | (Some event, sub1) => (IterReturn (Ok event), sub1)
    | (None, sub1) =>
      if finished sub1 then (IterReturn (Err ErrEOF), sub1)
      else match advance (ctx_after 1 env.(ie_ctx)) env.(ie_store) sub1 with
           | (Err e, sub2) => (IterReturn (Err e), sub2)
           | (Ok true, sub2) => (IterContinue, sub2)
           | (Ok false, sub2) => (IterWait, sub2)
           end
    end
  end.

(** [Next] over the environments its iterations meet; [None] is a call still
    blocked when they run out. *)
Fixpoint Next (envs : list (iterEnv S)) (sub : TurnSubscription)
    : option (result EventEnvelope) * TurnSubscription :=
  match envs with
  | [] => (None, sub)
  | env :: rest =>
    match nextIteration env sub with
    | (IterReturn r, sub') => (Some r, sub')
    | (IterContinue, sub') => Next rest sub'
    | (IterWait, sub') =>
      match env.(ie_done) with
      | Some e => (Some (Err e), sub')
      | None => Next rest sub'
      end
    end
  end.
End Stream.

(** ** What the stream relies on *)

Class ReplayReaderLaws (S : Type) `{ReplayReader S} : Type := {
  (* the Turn and log a principal sees, and how other calls change the store *)
  reader_view : S → PrincipalID → ThreadID → TurnID → option (Turn * list EventEnvelope);
  reader_step : S → S → Prop;
  reader_ok : S → Prop;
  rr_ok : ∀ s s', reader_ok s → reader_step s s' → reader_ok s';
  rr_append : ∀ s s' p th id t evs, reader_ok s → reader_step s s' →
    reader_view s p th id = Some (t, evs) →
    ∃ t' suffix, reader_view s' p th id = Some (t', evs ++ suffix)
      ∧ (TurnStatus_Terminal t.(turn_Status) = true → t' = t ∧ suffix = []);
  rr_numbered : ∀ s p th id t evs i e, reader_ok s → reader_view s p th id = Some (t, evs) →
    evs !! i = Some e → e.(ev_Sequence) = Z.of_nat i + 1;
  rr_bounded : ∀ s p th id t evs, reader_ok s → reader_view s p th id = Some (t, evs) →
    Z.of_nat (length evs) ≤ MaxDurableSequence;
  rr_replay_Ok : ∀ ctx s p th id q r s', reader_ok s →
    reader_Replay ctx p th id q s = (Ok r, s') →
    holds_at q.(qry_Cursor).(cur_AfterSequence) (fun a => a <? 0) = false →
    s' = s ∧ ∃ t evs, reader_view s p th id = Some (t, evs)
      ∧ 0 ≤ r.(rec_AfterSequence) ≤ Z.of_nat (length evs)
      ∧ (q.(qry_Cursor).(cur_LastEventID) = "" →
         r.(rec_AfterSequence) = default 0 q.(qry_Cursor).(cur_AfterSequence))
      ∧ r.(rec_Turn) = t ∧ r.(rec_Window).(win_LatestSequence) = Z.of_nat (length evs)
      ∧ r.(rec_Events) = page_of r.(rec_AfterSequence) q.(qry_Limit) evs;
  rr_replay_total : ∀ s p th id t evs a limit, reader_ok s →
    reader_view s p th id = Some (t, evs) → 0 ≤ a ≤ Z.of_nat (length evs) → 1 ≤ limit ≤ 1000 →
    ∃ r, reader_Replay background p th id (advanceQuery limit a) s = (Ok r, s)
}.
