(* ===== verification/EventStreamFacts.v ===== *)
(** * Replay-to-live observation: the delivery invariant

    The observer, the store and any number of concurrent [Next] calls as a
    step relation, and the invariant that makes delivery exactly-once and in
    order whatever the interleaving. *)

From S2P Require Import Prelude GoText GoJson AgentContract TurnTypes MemoryStore MemoryStoreFacts MemoryStoreProgress TurnService EventStream.

(** An [advance] in flight: the cursor it captured, or the page it read. *)
Inductive fetch : Type :=
| Captured (after : Sequence)
| Fetched (record : ReplayRecord).

Record observed (S : Type) := mkObserved {
  obs_store : S;
  obs_sub : TurnSubscription;
  obs_fetches : list fetch;
  obs_delivered : list EventEnvelope
}.
Arguments mkObserved {S} _ _ _ _.
Arguments obs_store {S} _.
Arguments obs_sub {S} _.
Arguments obs_fetches {S} _.
Arguments obs_delivered {S} _.

(** ** Buffers without gaps

    Each buffered event is at most one past everything before it, counting the
    cursor: duplicates may occur, holes may not. *)
Fixpoint covered (c : Sequence) (buffer : list EventEnvelope) : Prop :=
  match buffer with
  | [] => True
  | e :: rest => e.(ev_Sequence) ≤ c + 1 ∧ covered (Z.max c e.(ev_Sequence)) rest
  end.

Definition in_log (evs : list EventEnvelope) (e : EventEnvelope) : Prop :=
  1 ≤ e.(ev_Sequence) ∧ evs !! Z.to_nat (e.(ev_Sequence) - 1) = Some e.

Lemma covered_mono c c' b : c ≤ c' → covered c b → covered c' b.
Proof.
  revert c c'. induction b as [|e b IH]; intros c c' Hc; [done|]. simpl.
  intros [H1 H2]. split; [lia|]. eapply IH; [|done]. lia.
Qed.

Lemma covered_app c b1 b2 : covered c b1 → covered c b2 → covered c (b1 ++ b2).
Proof.
  revert c. induction b1 as [|e b1 IH]; intros c; [done|]. simpl.
  intros [H1 H2] H3. split; [done|]. apply IH; [done|]. eapply covered_mono; [|done]. lia.
Qed.

Lemma covered_run c a es :
  (∀ i e, es !! i = Some e → e.(ev_Sequence) = a + Z.of_nat i + 1) → a ≤ c → covered c es.
Proof.
  revert c a. induction es as [|e es IH]; intros c a Hn Hc; [done|]. simpl.
  pose proof (Hn 0%nat e eq_refl). split; [lia|]. apply (IH _ (a + 1)); [|lia].
  intros i e' He'. pose proof (Hn (S i) e' He'). lia.
Qed.

Lemma in_log_app evs sf e : in_log evs e → in_log (evs ++ sf) e.
Proof. intros [? H]. split; [done|]. by apply lookup_app_l_Some. Qed.

Lemma pop_loop_spec c b e c' b' :
  covered c b → pop_loop c b = (e, c', b') →
  covered c' b' ∧ (∀ P, Forall P b → Forall P b')
  ∧ match e with
    | Some ev => ev.(ev_Sequence) = c + 1 ∧ c' = c + 1 ∧ ev ∈ b
    | None => c' = c ∧ b' = []
    end.
Proof.
  revert c. induction b as [|x b IH]; intros c Hc Hp; simpl in *; [by simplify_eq|].
  destruct Hc as [Hx Hc]. destruct (Z.leb_spec x.(ev_Sequence) c).
  - rewrite Z.max_l in Hc by lia. destruct (IH c Hc Hp) as (H1 & H2 & H3).
    split_and!; [done|by intros P [_ ?]%Forall_cons; auto|].
    destruct e; [|done]. destruct H3 as (?&?&?). split_and!; try done. by right.
  - simplify_eq. rewrite Z.max_r in Hc by lia. split_and!; [done|by intros P [_ ?]%Forall_cons|lia|lia|].
    by left.
Qed.

Section Delivery.
Context {S : Type} `{ReplayReaderLaws S}.
Variable limit : Z.
Variable principalID : PrincipalID.
Variable threadID : ThreadID.
Variable turnID : TurnID.

(** Store calls by anyone, a [pop], and the three phases of an [advance] in
    flight, in any order. *)
Inductive observe_step (o : observed S) : observed S → Prop :=
| obs_store_step s' :
    reader_step o.(obs_store) s' →
    observe_step o (mkObserved s' o.(obs_sub) o.(obs_fetches) o.(obs_delivered))
| obs_pop event sub' :
    pop o.(obs_sub) = (event, sub') →
    observe_step o (mkObserved o.(obs_store) sub' o.(obs_fetches)
                      (o.(obs_delivered) ++ match event with Some e => [e] | None => [] end))
| obs_capture :
    observe_step o (mkObserved o.(obs_store) o.(obs_sub)
                      (o.(obs_fetches) ++ [Captured o.(obs_sub).(sub_cursor)])
                      o.(obs_delivered))
| obs_read i after ctx record s' :
    o.(obs_fetches) !! i = Some (Captured after) →
    reader_Replay ctx principalID threadID turnID (advanceQuery limit after) o.(obs_store)
      = (Ok record, s') →
    observe_step o (mkObserved s' o.(obs_sub) (<[i := Fetched record]> o.(obs_fetches))
                      o.(obs_delivered))
| obs_abandon i :
    observe_step o (mkObserved o.(obs_store) o.(obs_sub) (delete i o.(obs_fetches))
                      o.(obs_delivered))
| obs_merge i record :
    o.(obs_fetches) !! i = Some (Fetched record) →
    observe_step o (mkObserved o.(obs_store) (snd (advanceMerge record o.(obs_sub)))
                      (delete i o.(obs_fetches)) o.(obs_delivered)).

(** What a page in flight may contain. *)
Definition page_ok (t : Turn) (evs : list EventEnvelope) (cursor : Sequence)
    (events : list EventEnvelope) (latest : Sequence) (terminal : bool) : Prop :=
  covered cursor events ∧ Forall (in_log evs) events
  ∧ (terminal = true →
     TurnStatus_Terminal t.(turn_Status) = true ∧ latest = Z.of_nat (length evs)).

Definition fetch_ok (t : Turn) (evs : list EventEnvelope) (cursor : Sequence) (f : fetch) : Prop :=
  match f with
  | Captured after => 0 ≤ after ≤ cursor
  | Fetched r => page_ok t evs cursor r.(rec_Events) r.(rec_Window).(win_LatestSequence)
                   (TurnStatus_Terminal r.(rec_Turn).(turn_Status))
  end.

Record observed_ok (start : Sequence) (t : Turn) (evs : list EventEnvelope) (o : observed S)
    : Prop := {
  oo_store : reader_ok o.(obs_store);
  oo_view : reader_view o.(obs_store) principalID threadID turnID = Some (t, evs);
  oo_range : 0 ≤ start ≤ o.(obs_sub).(sub_cursor)
             ∧ o.(obs_sub).(sub_cursor) ≤ Z.of_nat (length evs);
  oo_delivered : o.(obs_delivered)
    = take (Z.to_nat (o.(obs_sub).(sub_cursor) - start)) (drop (Z.to_nat start) evs);
  oo_buffer : page_ok t evs o.(obs_sub).(sub_cursor) o.(obs_sub).(sub_buffered)
                o.(obs_sub).(sub_latest) o.(obs_sub).(sub_terminal);
  oo_fetches : Forall (fetch_ok t evs o.(obs_sub).(sub_cursor)) o.(obs_fetches)
}.

(** ** Monotonicity of the page conditions *)

Lemma page_ok_grow t evs t' sf c es latest terminal :
  (TurnStatus_Terminal t.(turn_Status) = true → t' = t ∧ sf = []) →
  page_ok t evs c es latest terminal → page_ok t' (evs ++ sf) c es latest terminal.
Proof.
  intros Hterm (Hc & Hf & He). split_and!; [done| |].
  - eapply Forall_impl; [done|]. intros. by apply in_log_app.
  - intros Ht. destruct (He Ht) as [H1 H2]. destruct (Hterm H1) as [-> ->].
    by rewrite app_nil_r.
Qed.

Lemma page_ok_cursor t evs c c' es latest terminal :
  c ≤ c' → page_ok t evs c es latest terminal → page_ok t evs c' es latest terminal.
Proof. intros Hc (H1 & H2 & H3). split_and!; eauto using covered_mono. Qed.

Lemma fetch_ok_cursor t evs c c' f : c ≤ c' → fetch_ok t evs c f → fetch_ok t evs c' f.
Proof. intros Hc. destruct f; simpl; [lia|]. by apply page_ok_cursor. Qed.

Lemma numbered_in_log s t evs e i :
  reader_ok s → reader_view s principalID threadID turnID = Some (t, evs) →
  evs !! i = Some e → in_log evs e.
Proof.
  intros Hok Hv He. pose proof (rr_numbered _ _ _ _ _ _ _ _ Hok Hv He) as Hs.
  unfold in_log. rewrite Hs. split; [lia|]. by replace (Z.to_nat _) with i by lia.
Qed.

(** A page read now satisfies the conditions for any cursor it started below. *)
Lemma read_page_ok s ctx q r s' t evs c :
  reader_ok s → reader_view s principalID threadID turnID = Some (t, evs) →
  reader_Replay ctx principalID threadID turnID q s = (Ok r, s') →
  holds_at q.(qry_Cursor).(cur_AfterSequence) (fun a => a <? 0) = false →
  r.(rec_AfterSequence) ≤ c →
  s' = s ∧ page_ok t evs c r.(rec_Events) r.(rec_Window).(win_LatestSequence)
             (TurnStatus_Terminal r.(rec_Turn).(turn_Status)).
Proof.
  intros Hok Hv Hr Hq Hc.
  destruct (rr_replay_Ok _ _ _ _ _ _ _ _ Hok Hr Hq)
    as (-> & t' & evs' & Hv' & Ha & _ & Ht & Hl & Hp). simplify_eq.
  split; [done|]. rewrite Hp.
  assert (Hsl : ∀ i e, page_of (rec_AfterSequence r) (qry_Limit q) evs !! i = Some e →
    evs !! (Z.to_nat (rec_AfterSequence r) + i)%nat = Some e).
  { intros i e. unfold page_of, log_after. rewrite lookup_take_Some, lookup_drop. tauto. }
  split_and!; [| |by rewrite Hl].
  - apply (covered_run _ (rec_AfterSequence r)); [|done]. intros i e He%Hsl.
    rewrite (rr_numbered _ _ _ _ _ _ _ _ Hok Hv He). lia.
  - apply Forall_lookup. intros i e He%Hsl. by eapply numbered_in_log.
Qed.

(** ** Every step preserves the invariant *)

Lemma observe_store_ok start t evs o s' :
  observed_ok start t evs o → reader_step o.(obs_store) s' →
  ∃ t' sf, observed_ok start t' (evs ++ sf)
             (mkObserved s' o.(obs_sub) o.(obs_fetches) o.(obs_delivered)).
Proof.
  intros [Hok Hv Hr Hd Hb Hf] Hs.
  destruct (rr_append _ _ _ _ _ _ _ Hok Hs Hv) as (t' & sf & Hv' & Ht).
  exists t', sf. split; simpl; try done.
  - by eapply rr_ok.
  - rewrite length_app. lia.
  - rewrite drop_app_le, take_app_le; [done|rewrite length_drop; lia|lia].
  - by eapply page_ok_grow.
  - eapply Forall_impl; [done|]. intros [a|r]; simpl; [done|]. by apply page_ok_grow.
Qed.

Lemma observe_pop_ok start t evs o event sub' :
  observed_ok start t evs o → pop o.(obs_sub) = (event, sub') →
  observed_ok start t evs (mkObserved o.(obs_store) sub' o.(obs_fetches)
    (o.(obs_delivered) ++ match event with Some e => [e] | None => [] end)).
Proof.
  intros [Hok Hv Hr Hd (Hc & Hin & Hterm) Hf] Hpop. unfold pop in Hpop.
  destruct (pop_loop _ _) as [[ev c'] b'] eqn:Hl. simplify_eq.
  destruct (pop_loop_spec _ _ _ _ _ Hc Hl) as (Hc' & Hfa & Hev).
  destruct event as [e|].
  - destruct Hev as (Hs & -> & Hmem). rewrite Forall_forall in Hin.
    destruct (Hin e Hmem) as [_ Hlk]. rewrite Hs in Hlk.
    replace (Z.to_nat _) with (Z.to_nat (obs_sub o).(sub_cursor)) in Hlk by lia.
    pose proof (lookup_lt_Some _ _ _ Hlk).
    split; simpl; try done; [lia| | |].
    + rewrite Hd. replace (Z.to_nat (sub_cursor (obs_sub o) + 1 - start))
        with (Datatypes.S (Z.to_nat (sub_cursor (obs_sub o) - start))) by lia.
      symmetry. apply take_S_r. rewrite lookup_drop. rewrite <- Hlk. f_equal. lia.
    + split_and!; [done| |done]. apply Hfa. by apply Forall_forall.
    + eapply Forall_impl; [done|]. intros f. apply fetch_ok_cursor. lia.
  - destruct Hev as [-> ->]. rewrite app_nil_r. by split.
Qed.

Lemma observe_step_ok start t evs o o' :
  observed_ok start t evs o → observe_step o o' →
  ∃ t' sf, observed_ok start t' (evs ++ sf) o'.
Proof.
  intros Hoo Hs.
  destruct Hs as [s' Hs|event sub' Hp| |i a ctx r s' Hi Hr|i|i r Hi].
  { by eapply observe_store_ok. }
  all: exists t, []; rewrite app_nil_r.
  { by apply observe_pop_ok. }
  all: destruct Hoo as [Hok Hv Hrg Hd Hb Hf].
  - split; simpl; try done. apply Forall_app. split; [done|]. constructor; [|done]. simpl. lia.
  - pose proof (Forall_lookup_1 _ _ _ _ Hf Hi) as Ha. simpl in Ha.
    assert (Hq : holds_at (cur_AfterSequence (qry_Cursor (advanceQuery limit a)))
                   (fun a => a <? 0) = false) by (simpl; apply Z.ltb_ge; lia).
    destruct (rr_replay_Ok _ _ _ _ _ _ _ _ Hok Hr Hq) as (_ & _ & _ & _ & _ & Haft & _).
    destruct (read_page_ok _ _ _ _ _ _ _ (sub_cursor (obs_sub o)) Hok Hv Hr Hq) as [-> Hpo].
    { rewrite Haft by done. simpl. lia. }
    split; simpl; try done. by apply Forall_insert.
  - split; simpl; try done. by apply Forall_delete.
  - pose proof (Forall_lookup_1 _ _ _ _ Hf Hi) as (H1 & H2 & H3).
    destruct Hb as (Hb1 & Hb2 & _).
    split; simpl; try done; [|by apply Forall_delete].
    split_and!; [by apply covered_app|by apply Forall_app|done].
Qed.

Lemma observe_run_ok start t evs o o' :
  observed_ok start t evs o → rtc observe_step o o' →
  ∃ t' sf, observed_ok start t' (evs ++ sf) o'.
Proof.
  intros Hoo Hrun. revert t evs Hoo.
  induction Hrun as [|o1 o2 o3 H12 _ IH]; intros t evs Hoo.
  { exists t, []. by rewrite app_nil_r. }
  destruct (observe_step_ok _ _ _ _ _ Hoo H12) as (t2 & sf2 & Hoo2).
  destruct (IH t2 _ Hoo2) as (t3 & sf3 & Hoo3).
  exists t3, (sf2 ++ sf3). by rewrite app_assoc.
Qed.

(** ** The end of the stream *)

Lemma delivered_all start t evs o :
  observed_ok start t evs o → Z.of_nat (length evs) ≤ o.(obs_sub).(sub_cursor) →
  o.(obs_delivered) = drop (Z.to_nat start) evs.
Proof.
  intros Hoo Hc. rewrite (oo_delivered _ _ _ _ Hoo). apply take_ge. rewrite length_drop.
  pose proof (oo_range _ _ _ _ Hoo). lia.
Qed.

Lemma finished_complete start t evs o :
  observed_ok start t evs o → finished o.(obs_sub) = true →
  TurnStatus_Terminal t.(turn_Status) = true ∧ o.(obs_delivered) = drop (Z.to_nat start) evs.
Proof.
  intros Hoo Hfin. unfold finished in Hfin. bool_hyps.
  destruct (oo_buffer _ _ _ _ Hoo) as (_ & _ & He). destruct (He ltac:(done)) as [Ht Hl].
  split; [done|]. eapply delivered_all; [done|]. lia.
Qed.

(** The log of a terminal Turn no longer grows, and the cursor never moves
    back. *)
Lemma terminal_run start t evs o o' :
  observed_ok start t evs o → TurnStatus_Terminal t.(turn_Status) = true →
  rtc observe_step o o' →
  observed_ok start t evs o' ∧ o.(obs_sub).(sub_cursor) ≤ o'.(obs_sub).(sub_cursor).
Proof.
  intros Hoo Hterm Hrun. induction Hrun as [o|o1 o2 o3 H12 _ IH]; [done|].
  destruct (observe_step_ok _ _ _ _ _ Hoo H12) as (t2 & sf & Hoo2).
  assert (t2 = t ∧ sf = []) as [-> ->].
  { pose proof (oo_view _ _ _ _ Hoo) as Hv. pose proof (oo_view _ _ _ _ Hoo2) as Hv2.
    destruct H12 as [s' Hs| | |i a ctx r s' Hi Hr| |]; simpl in *;
      try (rewrite Hv2 in Hv; injection Hv as <- Happ;
           rewrite <- (app_nil_r evs) in Happ at 2; by apply app_inv_head in Happ).
    - destruct (rr_append _ _ _ _ _ _ _ (oo_store _ _ _ _ Hoo) Hs Hv) as (t' & sf' & Hv' & He).
      destruct (He Hterm) as [-> ->]. rewrite Hv2 in Hv'. injection Hv' as -> Happ.
      split; [done|]. by apply app_inv_head in Happ.
    - pose proof (Forall_lookup_1 _ _ _ _ (oo_fetches _ _ _ _ Hoo) Hi) as Ha. simpl in Ha.
      assert (s' = obs_store o1) as ->.
      { eapply rr_replay_Ok; [apply Hoo|apply Hr|simpl; apply Z.ltb_ge; lia]. }
      rewrite Hv2 in Hv. injection Hv as <- Happ.
      rewrite <- (app_nil_r evs) in Happ at 2. by apply app_inv_head in Happ. }
  rewrite app_nil_r in Hoo2. destruct (IH Hoo2) as [Hoo3 Hle]. split; [done|].
  etrans; [|done]. destruct H12 as [|ev sub' Hp| | | |]; simpl; try done.
  unfold pop in Hp. destruct (pop_loop _ _) as [[e' c'] b'] eqn:Hl. simplify_eq/=.
  destruct (pop_loop_spec _ _ _ _ _ (proj1 (oo_buffer _ _ _ _ Hoo)) Hl) as (_ & _ & Hev).
  destruct ev; lia.
Qed.
End Delivery.
