(* ===== verification/TurnServiceTheorems.v ===== *)
(** * The Turn service: theorems

    The service's promises proved against the store interface, their instance
    on [MemoryStore], and the consistency of the event log the service writes
    with the Turn it describes. *)

From S2P Require Import Prelude GoText GoJson AgentContract TurnTypes MemoryStore MemoryStoreFacts Fixtures TurnService MemoryStoreProgress.

Definition demoCommand : StartCommand :=
  mkStartCommand "user-1" (mkStartRequest "thread-1" "key-1") "digest-1" demoPlugin.
Definition demoEnv : ServiceEnv := mkServiceEnv (Ok "turn_1") 100.
Definition demoRetryEnv : ServiceEnv := mkServiceEnv (Ok "turn_2") 900.
Definition demoStarted : MemoryStore :=
  Eval vm_compute in snd (Service_Start background demoEnv demoCommand NewMemoryStore).

(** Starting a Turn is exactly-once over any store that keeps the
    interface's promises.  After a successful start and any further store
    calls, starting again with the same principal, thread, key and digest (any
    minted id, any time) returns the first start's TurnID and stream URL,
    marked as an idempotent replay, and writes nothing. *)
Theorem service_start_exactly_once {S} `{TurnStoreLaws S} ctx env command s r s1 s2 env' command' c' :
  store_ok s → Service_Start ctx env command s = (Ok r, s1) → rtc store_step s1 s2 →
  startPrepare background env' command' = Ok c' →
  command'.(start_PrincipalID) = command.(start_PrincipalID) →
  command'.(start_Request) = command.(start_Request) →
  command'.(start_CommandDigest) = command.(start_CommandDigest) →
  ∃ r', Service_Start background env' command' s2 = (Ok r', s2)
    ∧ r'.(sres_IdempotentReplay) = true ∧ r'.(sres_Admission) = r.(sres_Admission).
Proof.
  intros Hok Hs Hrun Hp' Hpr Hreq Hdig.
  destruct (Start_Ok _ _ _ _ _ _ Hok Hs) as (c & rec & Hp & Ha & Hr).
  apply startPrepare_Ok in Hp as (_ & _ & Hsc & Hd & _).
  pose proof Hp' as (Hv' & Hl' & Hsc' & Hd' & _)%startPrepare_Ok.
  destruct (law_admit _ _ _ _ _ _ Hok Ha) as (Hst & Hscr & Hdr & _).
  pose proof (Admit_ok _ _ _ _ _ _ Hok Ha) as Hok1.
  destruct (run_ok _ _ Hok1 Hrun) as [Hok2 Hkeep].
  destruct (Hkeep _ _ Hst) as (t & Ht & Hid & Hsct & Hdt).
  exists (mkStartResult (sres_Admission r) t true). split; [|done].
  unfold Service_Start, start. rewrite Hp'.
  change (ctx_after 1 background) with background.
  rewrite (law_admit_replay c' _ s2 _ t Hok2 Ht); try done; [|congruence].
  rewrite bool_decide_eq_true_2 by congruence.
  rewrite startFinish_total by (by eapply law_turn). simpl. do 2 f_equal.
  rewrite Hr. unfold startAdmission. rewrite Hid.
  by rewrite (scopeOf_thread _ _ Hsct).
Qed.

Lemma service_start_exactly_once_witness :
  ∃ r', Service_Start background demoRetryEnv demoCommand demoStarted = (Ok r', demoStarted)
    ∧ r'.(sres_Admission).(adm_TurnID) = "turn_1".
Proof.
  destruct (service_start_exactly_once background demoEnv demoCommand NewMemoryStore
    (mkStartResult
       (mkStartAdmissionResult "turn_1" "/api/v1/agent/threads/thread-1/turns/turn_1/stream")
       demoTurn false)
    demoStarted demoStarted demoRetryEnv demoCommand
    (startCandidate demoCommand "turn_2" 900)) as (r' & H & _ & Ha).
  - apply new_store_wf.
  - vm_compute. reflexivity.
  - apply rtc_refl.
  - vm_compute. reflexivity.
  - reflexivity.
  - reflexivity.
  - reflexivity.
  - exists r'. split; [exact H|]. rewrite Ha. reflexivity.
Defined.

(** A start that reports an error has committed nothing: every failure,
    including one after the store has answered, leaves the store as it was, so
    a client never holds an error for a Turn that exists because of that call. *)
Theorem service_start_error_writes_nothing {S} `{TurnStoreLaws S} ctx env command s e s' :
  store_ok s → Service_Start ctx env command s = (Err e, s') → s' = s.
Proof.
  unfold Service_Start, start. intros Hok Hs.
  destruct (startPrepare _ _ _) as [c|] eqn:Hp; [|congruence].
  destruct (store_Admit _ _ _ _) as [[rec|e'] s1] eqn:Ha.
  - destruct (law_admit _ _ _ _ _ _ Hok Ha) as (Hst & _).
    destruct (law_turn _ _ _ (Admit_ok _ _ _ _ _ _ Hok Ha) Hst) as [_ Hv].
    by rewrite startFinish_total in Hs.
  - simplify_eq. by eapply law_admit_failed.
Qed.

Lemma service_start_error_writes_nothing_witness :
  snd (Service_Start background (mkServiceEnv (Ok "turn_9") 0) demoCommand demoStarted) = demoStarted.
Proof.
  apply (service_start_error_writes_nothing background (mkServiceEnv (Ok "turn_9") 0)
    demoCommand demoStarted (ErrText "durable turn clock returned zero time")).
  - apply (run_wf NewMemoryStore); [|apply new_store_wf]. apply rtc_once.
    apply (mstep_admit _ background (startCandidate demoCommand "turn_1" 100)
      (statusEvent TurnStatusQueued false) (Ok (mkAdmissionRecord demoTurn true))).
    vm_compute. reflexivity.
  - vm_compute. reflexivity.
Defined.

(** ** The log tells the status

    What an observer reconstructs from the events alone. *)

Definition turnStatuses : list TurnStatus :=
  [TurnStatusQueued; TurnStatusRunning; TurnStatusCompleted; TurnStatusStopped;
   TurnStatusFailed; TurnStatusTimeout].

Definition envelopeStatus (e : EventEnvelope) : option TurnStatus :=
  if bool_decide (e.(ev_Type) = EventCoreTurnStatus) then
    head (filter (fun st => e.(ev_Data) ∈ [statusEventData st false; statusEventData st true])
            turnStatuses)
  else None.

Definition eventCancels (e : EventEnvelope) : bool :=
  bool_decide (e.(ev_Type) = EventCoreTurnStatus)
  && bool_decide (e.(ev_Data) = draft_Data cancelRequestedEvent).

Definition logStatus (evs : list EventEnvelope) : option TurnStatus := last (omap envelopeStatus evs).
Definition logCancelled (evs : list EventEnvelope) : bool := existsb eventCancels evs.

(** One call of the service on a memory store. *)
Inductive service_step (s : MemoryStore) : MemoryStore → Prop :=
| svc_start ctx env command r s' : Service_Start ctx env command s = (r, s') → service_step s s'
| svc_status ctx req r s' : Service_Status ctx req s = (r, s') → service_step s s'
| svc_attach ctx lim cmd r s' : Service_Attach ctx lim cmd s = (r, s') → service_step s s'
| svc_append ctx id d r s' : Service_AppendDomainEvent ctx id d s = (r, s') → service_step s s'
| svc_transition ctx env id to r s' :
    Service_Transition ctx env id to s = (r, s') → service_step s s'
| svc_cancel ctx env cmd r s' : Service_Cancel ctx env cmd s = (r, s') → service_step s s'.

Definition log_describes (t : Turn) (evs : list EventEnvelope) : Prop :=
  logStatus evs = Some t.(turn_Status)
  ∧ (logCancelled evs = true ↔ is_Some t.(turn_CancelRequestedAt)).

Definition logs_describe (s : MemoryStore) : Prop :=
  ∀ id t evs, s.(ms_turns) !! id = Some t → s.(ms_events) !! id = Some evs → log_describes t evs.

Lemma logStatus_snoc evs e :
  logStatus (evs ++ [e]) = match envelopeStatus e with Some st => Some st | None => logStatus evs end.
Proof.
  unfold logStatus. rewrite omap_app. simpl. destruct (envelopeStatus e); simpl.
  - by rewrite last_snoc.
  - by rewrite app_nil_r.
Qed.

Lemma logCancelled_snoc evs e : logCancelled (evs ++ [e]) = logCancelled evs || eventCancels e.
Proof. unfold logCancelled. rewrite existsb_app. simpl. by rewrite orb_false_r. Qed.

(** The kernel's own drafts read back. *)
Definition from_draft (e : EventEnvelope) (d : EventDraft) : Prop :=
  e.(ev_Type) = d.(draft_Type) ∧ e.(ev_Data) = d.(draft_Data).

Lemma buildEvent_draft t n d e : buildEvent t n d = Ok e → from_draft e d.
Proof. unfold buildEvent. intros. repeat case_match; by simplify_eq/=. Qed.

Lemma nextEventLocked_draft s t d e : nextEventLocked s t d = Ok e → from_draft e d.
Proof.
  unfold nextEventLocked. intros. repeat case_match; simplify_eq; eauto using buildEvent_draft.
Qed.

Lemma eventStatus_status e st b :
  TurnStatus_Valid st = true → from_draft e (statusEvent st b) →
  envelopeStatus e = Some st ∧ eventCancels e = false.
Proof.
  rewrite TurnStatus_Valid_cases, TurnStatus_Terminal_cases. intros Hst [Ht Hd].
  unfold envelopeStatus, eventCancels. rewrite Ht, Hd.
  destruct_or! Hst; subst; destruct b; vm_compute; split; reflexivity.
Qed.

Lemma eventStatus_cancel e :
  from_draft e cancelRequestedEvent → envelopeStatus e = None ∧ eventCancels e = true.
Proof.
  intros [Ht Hd]. unfold envelopeStatus, eventCancels. rewrite Ht, Hd. vm_compute. by split.
Qed.

Lemma eventStatus_domain e d :
  HasPrefix d.(draft_Type) "core." = false → from_draft e d →
  envelopeStatus e = None ∧ eventCancels e = false.
Proof.
  intros Hp [Ht _]. assert (Hne : ev_Type e ≠ EventCoreTurnStatus).
  { intros Heq. rewrite <- Ht, Heq in Hp. done. }
  unfold envelopeStatus, eventCancels. by rewrite bool_decide_eq_false_2.
Qed.

(** Appending an event and rewriting the Turn keeps the description. *)
Lemma write_describes s id t t' e :
  logs_describe s → s.(ms_turns) !! id = Some t → store_wf s →
  (∀ evs, log_describes t evs → log_describes t' (evs ++ [e])) →
  logs_describe (appendLocked (writeTurn s id t') id e).
Proof.
  intros Hd Ht Hwf Hstep id' u evs. simpl. rewrite !lookup_insert. case_decide; [subst|by apply Hd].
  intros [= <-] [= <-]. destruct (wf_log s Hwf id' t Ht) as (evs & Hevs & _).
  rewrite Hevs. simpl. apply Hstep. by eapply Hd.
Qed.

Lemma Service_Start_describes ctx env command s r s' :
  store_wf s → logs_describe s → Service_Start ctx env command s = (Ok r, s') → logs_describe s'.
Proof.
  intros Hwf Hd Hs. destruct (Start_Ok (S:=MemoryStore) (H0:=MemoryStore_TurnStoreLaws) _ _ _ _ _ _ Hwf Hs) as (c & rec & Hp & Ha & _).
  apply startPrepare_Ok in Hp as (_ & Hl & _).
  apply Admit_Ok in Ha as (_ & _ & [(id & _ & -> & _)|(e & _ & _ & He & _ & ->)]); [done|].
  intros id t evs. simpl. rewrite !lookup_insert. case_decide; [|by apply Hd].
  intros [= <-] [= <-]. apply buildEvent_draft, eventStatus_status in He as [Hst Hc]; [|done].
  unfold admissionLifecycle in Hl. bool_hyps. split.
  - unfold logStatus. simpl. rewrite Hst. simpl. congruence.
  - unfold logCancelled. simpl. rewrite Hc. split; [done|].
    intros Hx. apply is_Some_iff_not_None in Hx. congruence.
Qed.

Lemma Service_AppendDomainEvent_describes ctx id d s r s' :
  store_wf s → logs_describe s → Service_AppendDomainEvent ctx id d s = (Ok r, s') →
  logs_describe s'.
Proof.
  unfold Service_AppendDomainEvent. intros Hwf Hd Hs.
  destruct (first_error _) eqn:Hf; [done|].
  rewrite first_error_None, !Forall_cons, when_None in Hf. destruct Hf as (_ & _ & Hp & _).
  apply AppendEvent_Ok in Hs as (t & Ht & _ & He & ->).
  apply nextEventLocked_draft in He. destruct (eventStatus_domain _ _ Hp He) as [H1 H2].
  rewrite <- (writeTurn_id s id t Ht). eapply write_describes; [done..|].
  intros evs [Hs Hc]. split; [by rewrite logStatus_snoc, H1|].
  by rewrite logCancelled_snoc, H2, orb_false_r.
Qed.

Lemma Service_Transition_describes ctx env id to s r s' :
  store_wf s → logs_describe s → Service_Transition ctx env id to s = (Ok r, s') →
  logs_describe s'.
Proof.
  unfold Service_Transition. intros Hwf Hd Hs.
  destruct (first_error _) eqn:Hf; [done|].
  rewrite first_error_None, !Forall_cons, when_None in Hf. destruct Hf as (_ & Hv & _).
  bool_hyps. apply Transition_Ok in Hs as (t & Ht & [(_ & -> & _)|(e & _ & _ & _ & _ & He & _ & ->)]);
    [done|].
  apply nextEventLocked_draft, eventStatus_status in He as [H1 H2]; [|done].
  eapply write_describes; [done..|]. intros evs [Hs Hc]. split; simpl.
  - by rewrite logStatus_snoc, H1.
  - by rewrite logCancelled_snoc, H2, orb_false_r.
Qed.

Lemma Service_Cancel_describes ctx env cmd s r s' :
  store_wf s → logs_describe s → Service_Cancel ctx env cmd s = (Ok r, s') → logs_describe s'.
Proof.
  unfold Service_Cancel. intros Hwf Hd Hs. destruct (CancelCommand_Validate cmd); [done|].
  apply RequestCancel_Ok in Hs
    as (t & (Ht & _)%ownedTurn_Some & [(_ & -> & _)|(e & _ & _ & _ & He & _ & ->)]); [done|].
  apply nextEventLocked_draft, eventStatus_cancel in He as [H1 H2].
  eapply write_describes; [done..|]. intros evs [Hs Hc]. split; simpl.
  - by rewrite logStatus_snoc, H1.
  - rewrite logCancelled_snoc, H2, orb_true_r. split; eauto.
Qed.

(** Every service call is at most one store call, and a failing one writes
    nothing. *)
Lemma service_step_store s s' : service_step s s' → s' = s ∨ mstep s s'.
Proof.
  destruct 1 as [ctx env cmd r s' H|ctx req r s' H|ctx lim cmd r s' H|ctx id d r s' H
                |ctx env id to r s' H|ctx env cmd r s' H].
  - unfold Service_Start, start in H. destruct (startPrepare _ _ _); [|left; congruence].
    destruct (store_Admit _ _ _ _) as [[?|?] ?] eqn:Ha; simplify_eq; right; by eapply mstep_admit.
  - unfold Service_Status in H. case_match; simplify_eq; [by left|right; by eapply mstep_get].
  - unfold Service_Attach in H. case_match; simplify_eq; [by left|right; by eapply mstep_replay].
  - unfold Service_AppendDomainEvent in H.
    case_match; simplify_eq; [by left|right; by eapply mstep_append].
  - unfold Service_Transition in H.
    case_match; simplify_eq; [by left|right; by eapply mstep_transition].
  - unfold Service_Cancel in H. case_match; simplify_eq; [by left|right; by eapply mstep_cancel].
Qed.

Lemma service_step_describes s s' :
  store_wf s → logs_describe s → service_step s s' → logs_describe s'.
Proof.
  intros Hwf Hd. destruct 1 as [ctx env cmd [r|e] s' H|ctx req r s' H|ctx lim cmd r s' H
    |ctx id d [r|e] s' H|ctx env id to [r|e] s' H|ctx env cmd [r|e] s' H].
  - eauto using Service_Start_describes.
  - unfold Service_Start, start in H. destruct (startPrepare _ _ _); [|by simplify_eq].
    destruct (store_Admit _ _ _ _) as [[rec|?] ?] eqn:Ha; simplify_eq.
    + destruct (@law_admit MemoryStore _ MemoryStore_TurnStoreLaws _ _ _ _ _ _ Hwf Ha) as (Hst & _).
      destruct (@law_turn MemoryStore _ MemoryStore_TurnStoreLaws _ _ _ (@Admit_ok MemoryStore _ MemoryStore_TurnStoreLaws _ _ _ _ _ _ Hwf Ha) Hst) as [_ Hv].
      by rewrite startFinish_total in H.
    + simpl in Ha. by failed Ha.
  - unfold Service_Status in H. case_match; simplify_eq; [done|].
    by apply GetOwned_state in H as ->.
  - unfold Service_Attach in H. case_match; simplify_eq; [done|].
    by apply Replay_state in H as ->.
  - eauto using Service_AppendDomainEvent_describes.
  - unfold Service_AppendDomainEvent in H. case_match; simplify_eq; [done|].
    simpl in H. by failed H.
  - eauto using Service_Transition_describes.
  - unfold Service_Transition in H. case_match; simplify_eq; [done|]. simpl in H. by failed H.
  - eauto using Service_Cancel_describes.
  - unfold Service_Cancel in H. case_match; simplify_eq; [done|]. simpl in H. by failed H.
Qed.

Lemma service_run_describes s :
  rtc service_step NewMemoryStore s → store_wf s ∧ logs_describe s.
Proof.
  assert (H0 : store_wf NewMemoryStore ∧ logs_describe NewMemoryStore).
  { split; [apply new_store_wf|]. intros id t evs H. simpl in H. by rewrite lookup_empty in H. }
  induction 1 as [|s1 s2 s3 H12 _ IH]; [done|]. apply IH. destruct H0 as [Hwf Hd].
  split; [|by eapply service_step_describes].
  destruct (service_step_store _ _ H12) as [->|Hm]; [done|]. by eapply mstep_wf.
Qed.


Definition demoServiceCancelled : MemoryStore :=
  Eval vm_compute in
    snd (Service_Cancel background (mkServiceEnv (Ok "x") 300)
           (mkCancelCommand "user-1" "thread-1" (mkCancelRequest "turn_1")) demoStarted).

