(* ===== verification/EventStreamTheorems.v ===== *)
(** * Replay-to-live observation: theorems

    Exactly-once in-order delivery and end of stream under every interleaving,
    what [Next] returns, and that [MemoryStore] is a reader the stream can rely
    on. *)

From S2P Require Import Prelude GoText GoJson AgentContract TurnTypes MemoryStore MemoryStoreFacts MemoryStoreProgress Fixtures TurnService EventStream EventStreamFacts.

(** ** MemoryStore as a reader *)

#[export] Instance MemoryStore_ReplayReader : ReplayReader MemoryStore := Replay.

Lemma Replay_Ok ctx p th id q s r s' :
  Replay ctx p th id q s = (Ok r, s') →
  Replay background p th id q s = (Ok r, s')
  ∧ ReplayQuery_Validate q = None
  ∧ ∃ t after, ownedTurn s p th id = Some t
    ∧ resolveCursor (default [] (s.(ms_events) !! id)) q.(qry_Cursor) = Ok after.
Proof.
  unfold Replay. rewrite !atomic_Ok. intros Hr. change (background 0%nat) with (@None error).
  destruct (ctx 0%nat); [done|]. split; [done|].
  destruct (ReplayQuery_Validate q); [done|]. split; [done|].
  destruct (ownedTurn s p th id) as [t|]; [|done].
  destruct (resolveCursor _ _) as [after|]; [|done]. by exists t, after.
Qed.

Lemma resolveCursor_nonneg t evs c after :
  log_ok t evs → holds_at c.(cur_AfterSequence) (fun a => a <? 0) = false →
  resolveCursor evs c = Ok after →
  0 ≤ after ∧ (c.(cur_LastEventID) = "" → after = default 0 c.(cur_AfterSequence)).
Proof.
  unfold resolveCursor. rewrite holds_at_false. intros Hlog Ha Hc.
  assert (0 ≤ default 0 c.(cur_AfterSequence)).
  { destruct (cur_AfterSequence c) eqn:E; [|done]. apply Z.ltb_ge. simpl. by apply Ha. }
  case_bool_decide; [by simplify_eq|]. destruct (list_find _ _) as [[i e]|]; [|done].
  simplify_eq. split; [|done]. case_match; bool_hyps; lia.
Qed.

(** The Turn and log the principal sees. *)
Definition memory_view (s : MemoryStore) (p : PrincipalID) (th : ThreadID) (id : TurnID)
    : option (Turn * list EventEnvelope) :=
  t ← ownedTurn s p th id; evs ← s.(ms_events) !! id; Some (t, evs).

Lemma memory_view_Some s p th id t evs :
  memory_view s p th id = Some (t, evs) ↔
  ownedTurn s p th id = Some t ∧ s.(ms_events) !! id = Some evs.
Proof.
  unfold memory_view. rewrite bind_Some. setoid_rewrite bind_Some. naive_solver.
Qed.

Lemma memory_view_log s p th id t evs :
  store_wf s → memory_view s p th id = Some (t, evs) →
  evs ≠ [] ∧ log_ok t evs ∧ Z.of_nat (length evs) ≤ MaxDurableSequence.
Proof.
  intros Hwf [(Ht & _)%ownedTurn_Some Hevs]%memory_view_Some.
  destruct (wf_log s Hwf id t Ht) as (evs' & Hevs' & ? & ? & _ & ?). by simplify_eq.
Qed.

Lemma memory_view_step s s' p th id t evs :
  mstep s s' → memory_view s p th id = Some (t, evs) →
  ∃ t' suffix, memory_view s' p th id = Some (t', evs ++ suffix)
    ∧ (TurnStatus_Terminal t.(turn_Status) = true → t' = t ∧ suffix = []).
Proof.
  intros Hs [(Ht & Hp & Hth)%ownedTurn_Some Hevs]%memory_view_Some.
  destruct (mstep_evolves _ _ Hs _ _ _ Ht Hevs) as (t' & sf & Ht' & Hev & Hevs' & Hterm).
  exists t', sf. split.
  - apply memory_view_Some. split; [|done]. apply ownedTurn_Some.
    destruct Hev as ((_ & Hsc & _) & _). unfold scopeOf in Hsc. split_and!; congruence.
  - intros Hx. split; [|auto]. by apply Hev.
Qed.

Lemma memory_replay_Ok ctx s p th id q r s' :
  store_wf s → Replay ctx p th id q s = (Ok r, s') →
  holds_at q.(qry_Cursor).(cur_AfterSequence) (fun a => a <? 0) = false →
  s' = s ∧ ∃ t evs, memory_view s p th id = Some (t, evs)
    ∧ 0 ≤ r.(rec_AfterSequence) ≤ Z.of_nat (length evs)
    ∧ (q.(qry_Cursor).(cur_LastEventID) = "" →
       r.(rec_AfterSequence) = default 0 q.(qry_Cursor).(cur_AfterSequence))
    ∧ r.(rec_Turn) = t ∧ r.(rec_Window).(win_LatestSequence) = Z.of_nat (length evs)
    ∧ r.(rec_Events) = page_of r.(rec_AfterSequence) q.(qry_Limit) evs.
Proof.
  intros Hwf (Hr & Hq & t & after & Hown & Hcur)%Replay_Ok Hneg.
  pose proof Hown as (Ht & _)%ownedTurn_Some.
  destruct (wf_log s Hwf id t Ht) as (evs & Hevs & _ & Hlog & _).
  rewrite Hevs in Hcur. simpl in Hcur.
  destruct (resolveCursor_nonneg _ _ _ _ Hlog Hneg Hcur) as [Ha Hdef].
  rewrite (Replay_resolved s p th id q t evs after) in Hr by done.
  unfold replay_answer in Hr. destruct (Z.leb_spec after (Z.of_nat (length evs))); simplify_eq.
  split; [done|]. exists t, evs. simpl. split_and!; try done. by apply memory_view_Some.
Qed.

Lemma memory_replay_total s p th id t evs a limit :
  store_wf s → memory_view s p th id = Some (t, evs) → 0 ≤ a ≤ Z.of_nat (length evs) →
  1 ≤ limit ≤ 1000 → ∃ r, Replay background p th id (advanceQuery limit a) s = (Ok r, s).
Proof.
  intros Hwf Hv Ha Hl. destruct (memory_view_log _ _ _ _ _ _ Hwf Hv) as (_ & _ & Hmax).
  apply memory_view_Some in Hv as [Hown Hevs].
  rewrite (Replay_resolved s p th id _ t evs a); try done; [|..|lia].
  - unfold replay_answer. destruct (Z.leb_spec a (Z.of_nat (length evs))); [eauto|lia].
  - apply ReplayQuery_Validate_sequence; [done|]. intros ? [= <-]. lia.
Qed.

#[export] Program Instance MemoryStore_ReplayReaderLaws : ReplayReaderLaws MemoryStore := {|
  reader_view := memory_view;
  reader_step := mstep;
  reader_ok := store_wf
|}.
Next Obligation. intros. by eapply mstep_wf. Qed.
Next Obligation. intros. by eapply memory_view_step. Qed.
Next Obligation.
  intros s p th id t evs i e Hwf Hv He. destruct (memory_view_log _ _ _ _ _ _ Hwf Hv) as (_ & Hl & _).
  by destruct (Hl i e He) as (_ & _ & ? & _).
Qed.
Next Obligation. intros. by eapply memory_view_log. Qed.
Next Obligation. intros. by eapply memory_replay_Ok. Qed.
Next Obligation. intros. by eapply memory_replay_total. Qed.

(** ** From Subscribe on *)

Section Subscribed.
Context {S : Type} `{ReplayReaderLaws S}.
Variable options : EventStreamOptions.

(** The cursor of an attach request is a [uint64]. *)
Definition unsigned_cursor (command : AttachCommand) : Prop :=
  holds_at command.(attach_Request).(areq_Cursor).(cur_AfterSequence) (fun a => a <? 0) = false.

Lemma Subscribe_ok ctx command (s : S) sub :
  reader_ok s → unsigned_cursor command → Subscribe options ctx command s = Ok sub →
  ∃ t evs, observed_ok sub.(sub_principalID) sub.(sub_threadID) sub.(sub_turnID)
             sub.(sub_cursor) t evs (mkObserved s sub [] []).
Proof.
  unfold Subscribe. intros Hok Hu Hs. destruct (ctx 0%nat); [done|].
  destruct (AttachCommand_Validate command); [done|].
  destruct (reader_Replay _ _ _ _ _ s) as [[r|e] s'] eqn:Hr; [|done]. simpl in Hs.
  destruct (rr_replay_Ok _ _ _ _ _ _ _ _ Hok Hr Hu) as (_ & t & evs & Hv & Hrange & _).
  destruct (read_page_ok _ _ _ _ _ _ _ _ _ _ (rec_AfterSequence r) Hok Hv Hr Hu ltac:(lia)) as [_ Hp].
  simplify_eq. exists t, evs. split; simpl; try done; [lia|].
  by rewrite Z.sub_diag.
Qed.

(** ** What one call of [Next] returns *)

Lemma page_of_lookup after lim (evs : list EventEnvelope) :
  0 < lim → head (page_of after lim evs) = evs !! Z.to_nat after.
Proof.
  intros Hl. unfold page_of, log_after.
  replace (Z.to_nat lim) with (Datatypes.S (Z.to_nat (lim - 1))) by lia.
  rewrite <- (Nat.add_0_r (Z.to_nat after)), <- lookup_drop, Nat.add_0_r.
  by destruct (drop (Z.to_nat after) evs).
Qed.

(** An environment in which nothing interrupts the observer. *)
Definition quiet (s : S) : iterEnv S := mkIterEnv background false s None.

(** A drained subscription reads one page forward. *)
Lemma advance_drained p th id start t evs (o : observed S) :
  observed_ok p th id start t evs o → 1 ≤ options.(opt_PageLimit) ≤ 1000 →
  let sub := mkTurnSubscription p th id (sub_cursor (obs_sub o)) []
               (sub_latest (obs_sub o)) (sub_terminal (obs_sub o)) in
  advance options background (obs_store o) sub =
    (Ok (bool_decide (is_Some (evs !! Z.to_nat (sub_cursor (obs_sub o))))),
     mkTurnSubscription p th id (sub_cursor (obs_sub o))
       (page_of (sub_cursor (obs_sub o)) options.(opt_PageLimit) evs)
       (Z.of_nat (length evs)) (TurnStatus_Terminal t.(turn_Status))).
Proof.
  intros [Hok Hv Hr _ _ _] Hlim sub. unfold advance. simpl.
  destruct (rr_replay_total _ _ _ _ _ _ (sub_cursor (obs_sub o)) _ Hok Hv ltac:(lia) Hlim)
    as [r Hrep].
  rewrite Hrep. simpl.
  destruct (rr_replay_Ok _ _ _ _ _ _ _ _ Hok Hrep) as (_ & t' & evs' & Hv' & _ & Ha & Ht & Hl & Hp);
    [simpl; apply Z.ltb_ge; lia|]. simplify_eq. rewrite Ha in Hp by done. simpl in Hp.
  rewrite Hp, Hl. do 2 f_equal. rewrite <- (page_of_lookup _ (opt_PageLimit options)) by lia.
  destruct (page_of _ _ evs); [by rewrite bool_decide_eq_true_2, bool_decide_eq_false_2 by
    (try done; by intros [])|].
  rewrite bool_decide_eq_false_2, bool_decide_eq_true_2 by (try done; simpl; eauto). done.
Qed.

Lemma pop_loop_head c e rest :
  e.(ev_Sequence) = c + 1 → pop_loop c (e :: rest) = (Some e, c + 1, rest).
Proof. intros Hs. simpl. rewrite Hs. by destruct (Z.leb_spec (c + 1) c); [lia|]. Qed.

Definition same_observer (sub sub' : TurnSubscription) : Prop :=
  sub'.(sub_principalID) = sub.(sub_principalID) ∧ sub'.(sub_threadID) = sub.(sub_threadID)
  ∧ sub'.(sub_turnID) = sub.(sub_turnID).

Lemma observe_run_observer lim p th id (o o' : observed S) :
  rtc (observe_step lim p th id) o o' → same_observer (obs_sub o) (obs_sub o').
Proof.
  induction 1 as [|o1 o2 o3 H12 _ (IH1 & IH2 & IH3)]; [done|].
  destruct H12 as [| event sub' Hp | | | |]; try done. simpl in *.
  unfold pop in Hp. destruct (pop_loop _ _) as [[? ?] ?]. by simplify_eq/=.
Qed.

(** The answer an observer of log [evs] at [cursor] should get. *)
Definition next_answer (t : Turn) (evs : list EventEnvelope) (cursor : Sequence)
    : option (result EventEnvelope) :=
  match evs !! Z.to_nat cursor with
  | Some e => Some (Ok e)
  | None => if TurnStatus_Terminal t.(turn_Status) then Some (Err ErrEOF) else None
  end.

(** A drained subscription that has just read an empty page. *)
Lemma nextIteration_caught_up start t evs (o : observed S) :
  let sub := obs_sub o in
  observed_ok sub.(sub_principalID) sub.(sub_threadID) sub.(sub_turnID) start t evs o →
  1 ≤ options.(opt_PageLimit) ≤ 1000 → evs !! Z.to_nat sub.(sub_cursor) = None →
  fst (Next options [quiet (obs_store o)]
    (mkTurnSubscription sub.(sub_principalID) sub.(sub_threadID) sub.(sub_turnID)
       sub.(sub_cursor) [] (Z.of_nat (length evs)) (TurnStatus_Terminal t.(turn_Status))))
  = next_answer t evs sub.(sub_cursor).
Proof.
  intros sub Hoo Hlim Hnone. pose proof (oo_range _ _ _ _ _ _ _ Hoo).
  pose proof (lookup_ge_None_1 _ _ Hnone).
  unfold next_answer. rewrite Hnone. simpl. unfold nextIteration, pop. simpl.
  unfold finished. simpl.
  rewrite (proj2 (Z.leb_le (Z.of_nat (length evs)) (sub_cursor sub))) by (unfold sub in *; lia).
  destruct (TurnStatus_Terminal t.(turn_Status)) eqn:Hterm; simpl; [done|].
  change (ctx_after 1 background) with background.
  pose proof (advance_drained (sub_principalID sub) (sub_threadID sub) (sub_turnID sub) start t evs
    (mkObserved (obs_store o)
       (mkTurnSubscription sub.(sub_principalID) sub.(sub_threadID) sub.(sub_turnID)
          sub.(sub_cursor) [] (Z.of_nat (length evs)) false) [] (obs_delivered o))) as Hadv.
  simpl in Hadv. unfold sub in *. rewrite Hadv; [|destruct Hoo; by split|done].
  rewrite Hnone, bool_decide_eq_false_2 by (by intros []). done.
Qed.

Lemma Next_answer start t evs (o : observed S) :
  let sub := obs_sub o in
  observed_ok sub.(sub_principalID) sub.(sub_threadID) sub.(sub_turnID) start t evs o →
  1 ≤ options.(opt_PageLimit) ≤ 1000 →
  fst (Next options [quiet (obs_store o); quiet (obs_store o)] sub)
  = next_answer t evs sub.(sub_cursor).
Proof.
  intros sub Hoo Hlim. subst sub. pose proof Hoo as [Hok Hv Hr _ (Hc & Hin & Hterm) _].
  cbn [Next]. unfold nextIteration at 1. cbn [quiet ie_closed ie_ctx ie_store ie_done].
  change (background 0%nat) with (@None error).
  unfold pop. destruct (pop_loop _ _) as [[ev c'] b'] eqn:Hl.
  destruct (pop_loop_spec _ _ _ _ _ Hc Hl) as (_ & _ & Hev).
  destruct ev as [e|]; [|destruct Hev as [-> ->]].
  { destruct Hev as (Hs & _ & Hmem). rewrite Forall_forall in Hin.
    destruct (Hin e Hmem) as [_ Hlk]. rewrite Hs in Hlk. unfold next_answer.
    rewrite Z.add_simpl_r in Hlk.
    by rewrite Hlk. }
  destruct (finished _) eqn:Hfin.
  { unfold finished in Hfin. simpl in Hfin. bool_hyps.
    destruct (Hterm ltac:(done)) as [Ht Hlat]. unfold next_answer.
    rewrite lookup_ge_None_2 by lia. by rewrite Ht. }
  change (ctx_after 1 background) with background.
  rewrite (advance_drained _ _ _ _ _ _ _ Hoo Hlim).
  destruct (evs !! Z.to_nat (sub_cursor (obs_sub o))) as [e|] eqn:Hlk.
  - rewrite bool_decide_eq_true_2 by eauto. unfold next_answer. rewrite Hlk.
    pose proof (page_of_lookup (sub_cursor (obs_sub o)) (opt_PageLimit options) evs ltac:(lia)) as Hp.
    rewrite Hlk in Hp. destruct (page_of _ _ evs) as [|x rest]; [done|]. simplify_eq/=.
    unfold nextIteration, pop. cbn -[pop_loop]. rewrite pop_loop_head; [done|].
    rewrite (rr_numbered _ _ _ _ _ _ _ _ Hok Hv Hlk). lia.
  - rewrite bool_decide_eq_false_2 by (by intros []).
    pose proof (page_of_lookup (sub_cursor (obs_sub o)) (opt_PageLimit options) evs ltac:(lia)) as Hp.
    rewrite Hlk in Hp. destruct (page_of _ _ evs); [|done].
    by apply nextIteration_caught_up with (start := start).
Qed.
End Subscribed.

(** ** The stream's promises *)

(** C34: an observer sees every event exactly once and in order, with no gap at
    the seam between stored history and live output.  From [Subscribe] on, and
    under any interleaving of store calls and of concurrent [Next] calls (their
    replays overlapping, being abandoned or merging late), what has been handed
    out is exactly the contiguous slice of the durable log from the
    subscription's start to its cursor. *)
Theorem stream_exactly_once {S} `{ReplayReaderLaws S} options ctx command s sub lim o :
  reader_ok s → unsigned_cursor command → Subscribe options ctx command s = Ok sub →
  rtc (observe_step lim sub.(sub_principalID) sub.(sub_threadID) sub.(sub_turnID))
    (mkObserved s sub [] []) o →
  ∃ t evs,
    reader_view (obs_store o) sub.(sub_principalID) sub.(sub_threadID) sub.(sub_turnID)
      = Some (t, evs)
    ∧ sub.(sub_cursor) ≤ Cursor (obs_sub o) ≤ Z.of_nat (length evs)
    ∧ obs_delivered o = take (Z.to_nat (Cursor (obs_sub o) - sub.(sub_cursor)))
                          (drop (Z.to_nat sub.(sub_cursor)) evs).
Proof.
  intros Hok Hu Hs Hrun. destruct (Subscribe_ok _ _ _ _ _ Hok Hu Hs) as (t & evs & Hoo).
  destruct (observe_run_ok _ _ _ _ _ _ _ _ _ Hoo Hrun) as (t' & sf & [_ Hv Hr Hd _ _]).
  exists t', (evs ++ sf). unfold Cursor. split_and!; [done|lia|lia|done].
Qed.

Definition demoAttach (after : Sequence) : AttachCommand :=
  mkAttachCommand "user-1" "thread-1"
    (mkAttachRequest "turn_1" (mkReplayCursor "" (Some after))).
Definition demoOptions : EventStreamOptions := mkEventStreamOptions DefaultStreamPollInterval 2.
Definition demoSub : TurnSubscription :=
  mkTurnSubscription "user-1" "thread-1" "turn_1" 1
    (drop 1 (eventsIn demoRunning "turn_1")) 2 false.

Lemma stream_exactly_once_witness :
  ∃ t evs, memory_view demoRunning "user-1" "thread-1" "turn_1" = Some (t, evs)
    ∧ (1 ≤ 2 ≤ Z.of_nat (length evs)) ∧ drop 1 (eventsIn demoRunning "turn_1") = take 1 (drop 1 evs).
Proof.
  destruct (stream_exactly_once demoOptions background (demoAttach 1) demoRunning demoSub 2
    (mkObserved demoRunning (snd (pop demoSub)) [] (drop 1 (eventsIn demoRunning "turn_1"))))
    as (t & evs & Hv & Hr & Hd).
  - apply reachable_wf. auto with go.
  - reflexivity.
  - vm_compute. reflexivity.
  - apply rtc_once. apply (obs_pop _ _ _ _ (mkObserved demoRunning demoSub [] []) _ _
      (surjective_pairing (pop demoSub))).
  - exists t, evs. split; [exact Hv|]. split; [exact Hr|exact Hd].
Defined.

(** End of stream is never premature and is final.  When a subscription
    reports [finished] (the only way [Next] returns [io.EOF]), the Turn is
    terminal, every event of the log after the start has been handed out, and
    no continuation of the run delivers anything more. *)
Theorem stream_end_is_complete {S} `{ReplayReaderLaws S} options ctx command s sub lim o o' :
  reader_ok s → unsigned_cursor command → Subscribe options ctx command s = Ok sub →
  rtc (observe_step lim sub.(sub_principalID) sub.(sub_threadID) sub.(sub_turnID))
    (mkObserved s sub [] []) o →
  finished (obs_sub o) = true →
  rtc (observe_step lim sub.(sub_principalID) sub.(sub_threadID) sub.(sub_turnID)) o o' →
  ∃ t evs,
    reader_view (obs_store o') sub.(sub_principalID) sub.(sub_threadID) sub.(sub_turnID)
      = Some (t, evs)
    ∧ TurnStatus_Terminal t.(turn_Status) = true
    ∧ obs_delivered o = drop (Z.to_nat sub.(sub_cursor)) evs
    ∧ obs_delivered o' = obs_delivered o.
Proof.
  intros Hok Hu Hs Hrun Hfin Hrun'.
  destruct (Subscribe_ok _ _ _ _ _ Hok Hu Hs) as (t0 & evs0 & Hoo0).
  destruct (observe_run_ok _ _ _ _ _ _ _ _ _ Hoo0 Hrun) as (t & sf & Hoo).
  destruct (finished_complete _ _ _ _ _ _ _ Hoo Hfin) as (Hterm & Hd).
  destruct (terminal_run _ _ _ _ _ _ _ _ _ Hoo Hterm Hrun') as [Hoo' Hc].
  exists t, (evs0 ++ sf). split_and!; [apply Hoo'|done|done|].
  rewrite Hd. apply (delivered_all _ _ _ _ _ _ _ Hoo').
  unfold finished in Hfin. bool_hyps. destruct (oo_buffer _ _ _ _ _ _ _ Hoo) as (_ & _ & He).
  destruct (He ltac:(done)) as [_ Hl]. lia.
Qed.

Definition demoEndSub : TurnSubscription :=
  mkTurnSubscription "user-1" "thread-1" "turn_1" 5 [] 5 true.

Lemma stream_end_is_complete_witness :
  ∃ t evs, memory_view demoStopped "user-1" "thread-1" "turn_1" = Some (t, evs)
    ∧ TurnStatus_Terminal t.(turn_Status) = true.
Proof.
  destruct (stream_end_is_complete demoOptions background (demoAttach 5) demoStopped demoEndSub 2
    (mkObserved demoStopped demoEndSub [] []) (mkObserved demoStopped demoEndSub [] []))
    as (t & evs & Hv & Ht & _).
  - apply reachable_wf. auto with go.
  - reflexivity.
  - vm_compute. reflexivity.
  - apply rtc_refl.
  - vm_compute. reflexivity.
  - apply rtc_refl.
  - exists t, evs. split; [exact Hv|exact Ht].
Defined.

(** C40: [Next] never blocks while an event is due and never invents one.  At
    any point of a run, an undisturbed [Next] answers within two iterations of
    its loop: the log's next event after the cursor when there is one,
    [io.EOF] when there is none and the Turn is terminal, and otherwise it is
    still waiting. *)
Theorem stream_next_answers {S} `{ReplayReaderLaws S} options ctx command s sub lim o :
  reader_ok s → unsigned_cursor command → Subscribe options ctx command s = Ok sub →
  1 ≤ options.(opt_PageLimit) ≤ 1000 →
  rtc (observe_step lim sub.(sub_principalID) sub.(sub_threadID) sub.(sub_turnID))
    (mkObserved s sub [] []) o →
  ∃ t evs,
    reader_view (obs_store o) sub.(sub_principalID) sub.(sub_threadID) sub.(sub_turnID)
      = Some (t, evs)
    ∧ fst (Next options [quiet (obs_store o); quiet (obs_store o)] (obs_sub o))
      = match evs !! Z.to_nat (Cursor (obs_sub o)) with
        | Some e => Some (Ok e)
        | None => if TurnStatus_Terminal t.(turn_Status) then Some (Err ErrEOF) else None
        end.
Proof.
  intros Hok Hu Hs Hlim Hrun. destruct (Subscribe_ok _ _ _ _ _ Hok Hu Hs) as (t0 & evs0 & Hoo0).
  destruct (observe_run_ok _ _ _ _ _ _ _ _ _ Hoo0 Hrun) as (t & sf & Hoo).
  exists t, (evs0 ++ sf). split; [apply Hoo|].
  destruct (observe_run_observer _ _ _ _ _ _ Hrun) as (H1 & H2 & H3). simpl in *.
  eapply (Next_answer _ (sub_cursor sub)); [|done]. by rewrite H1, H2, H3.
Qed.

Lemma stream_next_answers_witness :
  ∃ t evs, memory_view demoRunning "user-1" "thread-1" "turn_1" = Some (t, evs)
    ∧ fst (Next demoOptions [quiet demoRunning; quiet demoRunning] demoSub)
      = match evs !! 1%nat with
        | Some e => Some (Ok e)
        | None => if TurnStatus_Terminal t.(turn_Status) then Some (Err ErrEOF) else None
        end.
Proof.
  destruct (stream_next_answers demoOptions background (demoAttach 1) demoRunning demoSub 2
    (mkObserved demoRunning demoSub [] [])) as (t & evs & Hv & Hn).
  - apply reachable_wf. auto with go.
  - reflexivity.
  - vm_compute. reflexivity.
  - split; discriminate.
  - apply rtc_refl.
  - exists t, evs. split; [exact Hv|exact Hn].
Defined.

(** ** Wake-ups *)

(** Calls of anyone but the waiter that holds channel [signal]. *)
Inductive broker_step (signal : nat) (b : TurnEventBroker) : TurnEventBroker → Prop :=
| brk_watch id : broker_step signal b (snd (Watch id b))
| brk_release id other : other ≠ signal → broker_step signal b (Release id other b)
| brk_notify id : broker_step signal b (NotifyTurnEvent id b)
| brk_receive other b' : other ≠ signal → Receive other b = Some b' → broker_step signal b b'.

Definition waiting (id : TurnID) (signal : nat) (b : TurnEventBroker) : Prop :=
  signal ∈ default [] (b.(brk_waiters) !! id).

Lemma waiting_step id signal b b' :
  broker_step signal b b' → waiting id signal b → waiting id signal b'.
Proof.
  unfold waiting. destruct 1 as [id'|id' other Hne|id'|other b' Hne Hr]; simpl; [| |done|].
  - rewrite lookup_insert. case_decide; [subst|done]. simpl. set_solver.
  - intros Hw. destruct (decide (id' = id)) as [->|Hid].
    + assert (signal ∈ filter (fun c => c ≠ other) (default [] (brk_waiters b !! id)))
        by (apply list_elem_of_filter; auto).
      case_bool_decide as Hnil; [rewrite Hnil in *; set_solver|].
      by rewrite lookup_insert_eq.
    + case_bool_decide; [by rewrite lookup_delete_ne|by rewrite lookup_insert_ne].
  - unfold Receive in Hr. case_bool_decide; by simplify_eq/=.
Qed.

Lemma pending_step signal b b' :
  broker_step signal b b' → signal ∈ b.(brk_pending) → signal ∈ b'.(brk_pending).
Proof.
  destruct 1 as [id'|id' other Hne|id'|other b' Hne Hr]; simpl; [done|done|set_solver|].
  unfold Receive in Hr. case_bool_decide; simplify_eq/=. set_solver.
Qed.

(** No wake-up is lost.  Once [Watch] has registered an observer, whatever
    other observers register, release, receive or are notified of, an event
    published for the Turn leaves a signal in the observer's channel until the
    observer itself takes it: a commit landing between its read and its wait
    ends the wait at once. *)
Theorem broker_no_lost_wakeup id b signal b1 b2 b3 :
  Watch id b = (signal, b1) → rtc (broker_step signal) b1 b2 →
  rtc (broker_step signal) (NotifyTurnEvent id b2) b3 →
  ∃ b4, Receive signal b3 = Some b4.
Proof.
  intros Hw H12 H23.
  assert (Hwait : waiting id signal b2).
  { assert (H1 : waiting id signal b1).
    { unfold Watch in Hw. simplify_eq. unfold waiting. simpl. rewrite lookup_insert_eq. set_solver. }
    clear Hw H23. induction H12 as [|x y z Hxy _ IH]; eauto using waiting_step. }
  assert (Hpend : signal ∈ (NotifyTurnEvent id b2).(brk_pending)).
  { simpl. apply elem_of_union_l, elem_of_list_to_set. exact Hwait. }
  clear H12 Hwait. unfold Receive. rewrite bool_decide_eq_true_2; [eauto|].
  induction H23 as [|x y z Hxy _ IH]; eauto using pending_step.
Qed.

Lemma broker_no_lost_wakeup_witness :
  ∃ b4, Receive 0 (Release "turn_1" 7 (NotifyTurnEvent "turn_1"
                     (snd (Watch "turn_1" NewTurnEventBroker)))) = Some b4.
Proof.
  apply (broker_no_lost_wakeup "turn_1" NewTurnEventBroker 0 (snd (Watch "turn_1" NewTurnEventBroker))
    (snd (Watch "turn_1" NewTurnEventBroker))).
  - reflexivity.
  - apply rtc_refl.
  - apply rtc_once. constructor. discriminate.
Defined.
