(* ===== verification/SubscriptionCycle.v ===== *)
(** * Subscription cycles

    The calendar part of service/account/credits_pack_service.go:
    [addCalendarMonthsClamped] and [subscriptionCycleBounds], with what they use
    of package time.  All times are in UTC. *)

From stdpp Require Import sorting.
From S2P Require Import Prelude GoText GoJson GoTime AgentContract TurnTypes.

Definition day_ns : Z := 86400 * second_ns.

Definition days_before_year (y : Z) : Z := 365 * (y - 1) + (y - 1) / 4 - (y - 1) / 100 + (y - 1) / 400.

Fixpoint days_before_month (lengths : list Z) (m : nat) : Z :=
  match m, lengths with
  | S m, n :: rest => n + days_before_month rest m
  | _, _ => 0
  end.

(** The day number of [time.Date(year, month, day, ...)]: months outside 1..12
    carry into the year, days outside the month into the neighbouring ones. *)
Definition date_days (year month day : Z) : Z :=
  let y := year + (month - 1) / 12 in
  days_before_year y + days_before_month (month_lengths y) (Z.to_nat ((month - 1) mod 12)) + (day - 1).

(** [t.Date()] and [t.Clock()] with the nanoseconds. *)
Definition date_of (t : time) : civil_date := civil (t / day_ns).
Definition clock_of (t : time) : Z := t mod day_ns.

Definition addCalendarMonthsClamped (anchor : time) (months : Z) : time :=
  let date := date_of anchor in
  let targetFirst := civil (date_days date.(cd_Year) (date.(cd_Month) + months) 1) in
  let lastDay := (civil (date_days targetFirst.(cd_Year) (targetFirst.(cd_Month) + 1) 0)).(cd_Day) in
  let day := if lastDay <? date.(cd_Day) then lastDay else date.(cd_Day) in
  date_days targetFirst.(cd_Year) targetFirst.(cd_Month) day * day_ns + clock_of anchor.

Definition subscriptionCycleBounds (start now : time) : result (time * time) :=
  guard! negb (IsZero start) else ErrText "subscription cycle anchor is required";;
  guard! negb (Before now start) else ErrText "subscription cycle anchor is after database time";;
  let months := ((date_of now).(cd_Year) - (date_of start).(cd_Year)) * 12
                + ((date_of now).(cd_Month) - (date_of start).(cd_Month)) in
  let cycleStart := addCalendarMonthsClamped start months in
  let months := if After cycleStart now then months - 1 else months in
  let cycleStart := addCalendarMonthsClamped start months in
  Ok (cycleStart, addCalendarMonthsClamped start (months + 1)).

(** ["cycle:" + cycleStart.UTC().Format("20060102T150405.000000000Z")]. *)
Definition cycleSourceID (cycleStart : time) : string :=
  let date := date_of cycleStart in
  let s := clock_of cycleStart / second_ns in
  "cycle:" +:+ pad_int 4 date.(cd_Year) +:+ pad_int 2 date.(cd_Month) +:+ pad_int 2 date.(cd_Day) +:+ "T"
  +:+ pad_int 2 (s / 3600) +:+ pad_int 2 (s / 60 mod 60) +:+ pad_int 2 (s mod 60)
  +:+ "." +:+ pad_int 9 (cycleStart mod second_ns) +:+ "Z".
