(* ===== verification/CreditTables.v ===== *)
(** * Credit ledger: tables, statements and the database clock

    The rows of model/credits_pack.go, model/credit_reservation.go,
    model/credit_reservation_allocation.go and the columns of model/user.go,
    model/order.go, model/canvas.go and model/generation_task.go that the credit
    services read.  A nullable text column holds the empty string for NULL, as it
    does once scanned into the struct; a nullable time or integer is an [option].
    The columns created_at and updated_at are kept only where code reads them.
    Credit amounts are integers: the guards of the services keep them inside the
    INT and BIGINT columns. *)

From stdpp Require Import sorting.
From S2P Require Import Prelude GoText TurnTypes ExecutionTypes.

(** ** Rows *)

Record CreditsPack := mkCreditsPack {
  cp_Id : Z; cp_UID : Z; cp_SourceType : string; cp_SourceID : string;
  cp_CreditsTotal : Z; cp_CreditsUsed : Z; cp_ExpiresAt : option time; cp_Remark : string }.

Definition CreditsSourceSubscription : string := "subscription".
Definition CreditsSourcePurchase : string := "purchase".
Definition CreditsSourceBonus : string := "bonus".
Definition CreditsSourceLegacy : string := "legacy".

Record CreditReservation := mkCreditReservation {
  cr_Id : Z; cr_CreatedAt : time;
  cr_UID : Z; cr_Tool : string; cr_IdempotencyKey : string; cr_RequestDigest : string;
  cr_QuoteID : string; cr_Reserved : Z; cr_Used : Z; cr_Status : string;
  cr_ExpiresAt : time; cr_FinalizedAt : option time; cr_ReleasedAt : option time; cr_Remark : string;
  cr_HoldReviewID : string; cr_HoldSettlementKey : string; cr_HoldRequestDigest : string;
  cr_ReviewHeldAt : option time;
  cr_RefundTargetStatus : string; cr_RefundTargetUsed : option Z; cr_RefundDue : Z;
  cr_RefundAttempts : Z; cr_NextRefundAt : option time; cr_LastRefundErrorCode : string;
  cr_StateChangedAt : option time; cr_StateVersion : Z; cr_ProjectID : Z }.

Definition StatusReserved : string := "reserved".
Definition StatusReviewHold : string := "review_hold".
Definition StatusRefundPending : string := "refund_pending".
Definition StatusFinalized : string := "finalized".
Definition StatusReleased : string := "released".
Definition StatusExpired : string := "expired".

Definition status_is (r : CreditReservation) (s : string) : bool := bool_decide (r.(cr_Status) = s).

Definition IsTerminal (r : CreditReservation) : bool :=
  status_is r StatusFinalized || status_is r StatusReleased || status_is r StatusExpired.
Definition IsHeld (r : CreditReservation) : bool := status_is r StatusReviewHold.
Definition IsRefundPending (r : CreditReservation) : bool := status_is r StatusRefundPending.
Definition IsActiveDebited (r : CreditReservation) : bool :=
  status_is r StatusReserved || IsHeld r || IsRefundPending r.

Record CreditReservationAllocation := mkAllocation {
  ca_Id : Z; ca_ReservationID : Z; ca_PackID : Z; ca_Credits : Z }.

Record User := mkUser {
  us_Id : Z; us_Member : Z; us_MemberStartTime : time; us_MemberEndTime : time;
  us_MemberSubscription : string }.

Record Order := mkOrder {
  od_Id : Z; od_UID : Z; od_OrderType : string; od_Status : string; od_ProductID : string;
  od_PayTime : time; od_SubscriptionID : string; od_CreditsAmount : Z }.

Record CanvasProject := mkCanvasProject {
  pj_Id : Z; pj_UID : Z; pj_DeletedAt : option time;
  pj_BudgetCreditsCap : option Z; pj_BudgetCreditsUsed : Z }.

Record GenerationTask := mkGenerationTask { gt_TaskID : string; gt_UID : Z; gt_Status : Z }.
Definition TaskStatusPending : Z := 0.
Definition TaskStatusProcessing : Z := 1.

(** [lg_bound] holds the column reservation_id of
    w_agent_turn_reservation_binding, the only one the sweeper reads. *)
Record Ledger := mkLedger {
  lg_users : list User;
  lg_orders : list Order;
  lg_projects : list CanvasProject;
  lg_packs : list CreditsPack;
  lg_reservations : list CreditReservation;
  lg_allocations : list CreditReservationAllocation;
  lg_tasks : list GenerationTask;
  lg_bound : list Z }.

Definition empty_ledger : Ledger := mkLedger [] [] [] [] [] [] [] [].

Definition set_projects (db : Ledger) (rows : list CanvasProject) : Ledger :=
  mkLedger db.(lg_users) db.(lg_orders) rows db.(lg_packs) db.(lg_reservations) db.(lg_allocations)
    db.(lg_tasks) db.(lg_bound).
Definition set_packs (db : Ledger) (rows : list CreditsPack) : Ledger :=
  mkLedger db.(lg_users) db.(lg_orders) db.(lg_projects) rows db.(lg_reservations) db.(lg_allocations)
    db.(lg_tasks) db.(lg_bound).
Definition set_reservations (db : Ledger) (rows : list CreditReservation) : Ledger :=
  mkLedger db.(lg_users) db.(lg_orders) db.(lg_projects) db.(lg_packs) rows db.(lg_allocations)
    db.(lg_tasks) db.(lg_bound).
Definition set_allocations (db : Ledger) (rows : list CreditReservationAllocation) : Ledger :=
  mkLedger db.(lg_users) db.(lg_orders) db.(lg_projects) db.(lg_packs) db.(lg_reservations) rows
    db.(lg_tasks) db.(lg_bound).

(** ** Statements *)

(** The statements of one transaction, named after what they do: a statement may
    fail for reasons of the database alone. *)
Inductive ledger_statement :=
| StInsertReservation | StFindReservation | StLockReservation
| StHoldReservation | StQueueRefund | StRefundFailed | StMarkTerminal | StExtendReservation
| StSavepoint | StRollbackTo
| StChargeBudget | StCountProject | StLockProject | StRefundBudget | StSetBudgetCap
| StLockUser | StReadUser | StReadOrder | StReadAnchorOrder | StLockUserPacks | StReadCyclePack | StReadActivePacks
| StInsertPack | StUpsertPack | StRevokePacks | StClipPacks | StSumPacks | StSumReservations
| StLockPacks | StDebitPack (id : Z) | StRefundPack (id : Z)
| StLockParent | StReadAllocations | StLockAllocations | StInsertAllocations
| StLockTask | StScanReservations | StScanUsers.

(** What a transaction sees of the outside: the n-th reading of the database
    clock, the clock of the process, the statements that fail, and the plans of
    the configuration (monthly credits and credits of a plan). *)
Record ledger_env := mkLedgerEnv {
  le_now : nat → result time;
  le_wall : time;
  le_fault : ledger_statement → validation;
  le_plans : string → option (Z * Z) }.

(** Ids come from AUTO_INCREMENT columns; the numbers lost by transactions that
    rolled back are not represented. *)
Definition fresh_row_id (ids : list Z) : Z := 1 + foldr Z.max 0 ids.

(** [ORDER BY], with the comparison as a boolean. *)
Definition order_by {A} (leb : A → A → bool) (rows : list A) : list A :=
  merge_sort (λ a b, Is_true (leb a b)) rows.

Definition where_ {A} (p : A → bool) (rows : list A) : list A := List.filter p rows.
Definition first_row {A} (p : A → bool) (rows : list A) : option A := List.find p rows.
Definition update_where {A} (p : A → bool) (f : A → A) (rows : list A) : list A :=
  map (λ r, if p r then f r else r) rows.
Definition affected {A} (p : A → bool) (rows : list A) : Z := Z.of_nat (length (where_ p rows)).

(** [First(&row).Error] when the row must be there. *)
Definition found {A} (row : option A) : result A :=
  match row with Some r => Ok r | None => Err ErrRecordNotFound end.

Definition sum_by {A} (f : A → Z) (l : list A) : Z := foldr (λ x s, f x + s) 0 l.
#[global] Arguments sum_by {A} f l : simpl never.
