(* ===== verification/CreditsPack.v ===== *)
(** * Credit packs: service/account/credits_pack_service.go

    Granting, debiting and refunding packs, inside a transaction of the caller.
    A function returns the new tables or the error; the caller decides what is
    rolled back. *)

From Stdlib Require Import Ascii.
From stdpp Require Import sorting.
From S2P Require Import Prelude GoText GoDigest GoTime AgentContract TurnTypes ExecutionTypes CreditTables SubscriptionCycle.

(** ** Sorting and lookups *)

Definition pack_is (id : Z) (p : CreditsPack) : bool := p.(cp_Id) =? id.
Definition pack_id_le (a b : CreditsPack) : bool := a.(cp_Id) <=? b.(cp_Id).

Definition pack_source_is (uid : Z) (sourceType sourceID : string) (p : CreditsPack) : bool :=
  (p.(cp_UID) =? uid) && bool_decide (p.(cp_SourceType) = sourceType) && bool_decide (p.(cp_SourceID) = sourceID).

Definition set_used (p : CreditsPack) (used : Z) : CreditsPack :=
  mkCreditsPack p.(cp_Id) p.(cp_UID) p.(cp_SourceType) p.(cp_SourceID) p.(cp_CreditsTotal) used
    p.(cp_ExpiresAt) p.(cp_Remark).

(** The allocation priority: packs that expire first, then by id; the
    comparison [sort.Slice] is given. *)
Definition allocation_less (left right : CreditsPack) : bool :=
  match left.(cp_ExpiresAt), right.(cp_ExpiresAt) with
  | None, Some _ => false
  | Some _, None => true
  | Some l, Some r => if negb (l =? r) then Before l r else left.(cp_Id) <? right.(cp_Id)
  | None, None => left.(cp_Id) <? right.(cp_Id)
  end.

Definition unexpired (now : time) (expires : option time) : bool :=
  match expires with None => true | Some t => After t now end.

Definition insert_pack (db : Ledger) (uid : Z) (sourceType sourceID : string) (credits : Z)
    (expiresAt : option time) (remark : string) : Ledger :=
  set_packs db (db.(lg_packs) ++
    [mkCreditsPack (fresh_row_id (map cp_Id db.(lg_packs))) uid sourceType sourceID credits 0 expiresAt remark]).

(** ** Subscription entitlement *)

Definition MEMBER_SUBSCRIPTION_FREE : Z := 1.
Definition ORDER_TYPE_MEMBER : string := "member".
Definition STATUS_COMPLETE : string := "COMPLETE".

(** [strings.ToLower] as far as a search for ASCII text can see it: the ASCII
    letters, and the two other letters whose lower case is ASCII (the dotted
    capital I and the Kelvin sign).  No other rune maps to ASCII. *)
Fixpoint lower_chars (l : list ascii) : list ascii :=
  match l with
  | [] => []
  | c :: rest =>
    let b := code c in
    match rest with
    | d :: rest2 =>
      if (b =? 0xC4) && (code d =? 0xB0) then "i"%char :: lower_chars rest2
      else match rest2 with
           | e :: rest3 =>
             if (b =? 0xE2) && (code d =? 0x84) && (code e =? 0xAA) then "k"%char :: lower_chars rest3
             else (if (65 <=? b) && (b <=? 90) then ascii_of_N (Z.to_N (b + 32)) else c) :: lower_chars rest
           | [] => (if (65 <=? b) && (b <=? 90) then ascii_of_N (Z.to_N (b + 32)) else c) :: lower_chars rest
           end
    | [] => [if (65 <=? b) && (b <=? 90) then ascii_of_N (Z.to_N (b + 32)) else c]
    end
  end.
Definition ToLower (s : string) : string := of_chars (lower_chars (chars s)).

(** [strings.Contains]. *)
Fixpoint Contains (s substr : string) : bool :=
  HasPrefix s substr || match s with String _ rest => Contains rest substr | EmptyString => false end.

Definition isDeferredMonthlyCreditsPlan (planKey : string) : bool :=
  let planKey := ToLower (TrimSpace planKey) in
  Contains planKey "annual" || Contains planKey "yearly" || Contains planKey "lifetime".

Definition isSubscriptionUserActive (user : User) (now : time) : bool :=
  if user.(us_Member) <=? MEMBER_SUBSCRIPTION_FREE then false
  else IsZero user.(us_MemberEndTime) || After user.(us_MemberEndTime) now.

(** [pay_time DESC, id DESC] and [pay_time ASC, id ASC]. *)
Definition latest_first (a b : Order) : bool :=
  if a.(od_PayTime) =? b.(od_PayTime) then b.(od_Id) <=? a.(od_Id) else b.(od_PayTime) <? a.(od_PayTime).
Definition earliest_first (a b : Order) : bool :=
  if a.(od_PayTime) =? b.(od_PayTime) then a.(od_Id) <=? b.(od_Id) else a.(od_PayTime) <? b.(od_PayTime).

(** [strings.TrimPrefix(strings.TrimSpace(s), "canceled_")]. *)
Definition external_subscription (s : string) : string :=
  let s := TrimSpace s in
  if HasPrefix s "canceled_" then String.substring 9 (String.length s - 9) s else s.

Definition set_start (u : User) (t : time) : User :=
  mkUser u.(us_Id) u.(us_Member) t u.(us_MemberEndTime) u.(us_MemberSubscription).

Section Packs.
Context (env : ledger_env).

Definition getPlanCredits (planKey : string) : Z :=
  match env.(le_plans) planKey with
  | None => 0
  | Some (monthly, credits) => if 0 <? monthly then monthly else credits
  end.

Definition lockCreditsOwnerUserTx (db : Ledger) (uid : Z) : result User :=
  check! env.(le_fault) StLockUser;;
  found (first_row (λ u, u.(us_Id) =? uid) db.(lg_users)).

Definition lockExistingCreditsPacksTx (db : Ledger) (uid : Z) : validation := env.(le_fault) StLockUserPacks.

Definition isSubscriptionCreditsActiveTx (db : Ledger) (uid : Z) (now : time) : bool :=
  match env.(le_fault) StReadUser, first_row (λ u, u.(us_Id) =? uid) db.(lg_users) with
  | None, Some user => isSubscriptionUserActive user now
  | _, _ => false
  end.

Definition resolveActivePlanForUserTx (db : Ledger) (user : User) (uid : Z) (now : time)
    : result (User * string * Z) :=
  if user.(us_Member) <=? MEMBER_SUBSCRIPTION_FREE then Ok (user, "", 0)
  else if negb (IsZero user.(us_MemberEndTime)) && negb (After user.(us_MemberEndTime) now) then Ok (user, "", 0)
  else
    check! env.(le_fault) StReadOrder;;
    match head (order_by latest_first (where_ (λ o, (o.(od_UID) =? uid)
             && bool_decide (o.(od_OrderType) = ORDER_TYPE_MEMBER) && bool_decide (o.(od_Status) = STATUS_COMPLETE)
             && negb (bool_decide (o.(od_ProductID) = "free"))) db.(lg_orders))) with
    | None => Ok (user, "", 0)
    | Some order =>
      let planKey := TrimSpace order.(od_ProductID) in
      let credits := if (order.(od_CreditsAmount) <=? 0) && negb (bool_decide (planKey = ""))
                     then getPlanCredits planKey else order.(od_CreditsAmount) in
      guard! negb (isDeferredMonthlyCreditsPlan planKey && (credits <=? 0))
        else ErrText "positive deferred subscription credits are not frozen";;
      if bool_decide (planKey = "") || negb (isDeferredMonthlyCreditsPlan planKey)
         || negb (IsZero user.(us_MemberStartTime))
      then Ok (user, planKey, credits)
      else
        let external := external_subscription user.(us_MemberSubscription) in
        check! env.(le_fault) StReadAnchorOrder;;
        match head (order_by earliest_first (where_ (λ o, (o.(od_UID) =? uid)
                 && bool_decide (o.(od_OrderType) = ORDER_TYPE_MEMBER) && bool_decide (o.(od_Status) = STATUS_COMPLETE)
                 && bool_decide (o.(od_ProductID) = planKey) && negb (IsZero o.(od_PayTime))
                 && (bool_decide (external = "") || bool_decide (o.(od_SubscriptionID) = external)))
                 db.(lg_orders))) with
        | None => Err ErrRecordNotFound
        | Some anchor =>
          guard! negb (IsZero anchor.(od_PayTime) || After anchor.(od_PayTime) now)
            else ErrText "deferred subscription cycle anchor is invalid";;
          Ok (set_start user anchor.(od_PayTime), planKey, credits)
        end
    end.

(** A subscription pack that may stand for the current cycle. *)
Definition checkCyclePack (p : CreditsPack) (cycleEnd : time) : validation :=
  if (p.(cp_CreditsTotal) <=? 0) || (p.(cp_CreditsUsed) <? 0) || (p.(cp_CreditsTotal) <? p.(cp_CreditsUsed))
     || bool_decide (p.(cp_ExpiresAt) = None)
  then Some (ErrText "subscription cycle Pack is internally invalid")
  else when (holds_at p.(cp_ExpiresAt) (λ t, After t cycleEnd))
         (ErrText "subscription cycle Pack overlaps the next cycle").

Definition ensureCurrentSubscriptionCreditsForUserTx (db : Ledger) (user : User) (uid : Z)
    (planKey : string) (credits : Z) (now : time) : result Ledger :=
  if user.(us_Member) <=? MEMBER_SUBSCRIPTION_FREE then Ok db
  else if negb (IsZero user.(us_MemberEndTime)) && negb (After user.(us_MemberEndTime) now) then Ok db
  else if bool_decide (planKey = "") || negb (isDeferredMonthlyCreditsPlan planKey) then Ok db
  else
    guard! (0 <? credits) else ErrText "positive deferred subscription credits are not frozen";;
    try! (cycleStart, cycleEnd) := subscriptionCycleBounds user.(us_MemberStartTime) now in
    if negb (IsZero user.(us_MemberEndTime)) && negb (After user.(us_MemberEndTime) cycleStart) then Ok db
    else
      let sourceID := cycleSourceID cycleStart in
      check! env.(le_fault) StReadCyclePack;;
      match first_row (pack_source_is uid CreditsSourceSubscription sourceID) db.(lg_packs) with
      | Some currentPack => check! checkCyclePack currentPack cycleEnd;; Ok db
      | None =>
        check! env.(le_fault) StReadActivePacks;;
        match order_by pack_id_le (where_ (λ p, (p.(cp_UID) =? uid)
                 && bool_decide (p.(cp_SourceType) = CreditsSourceSubscription)
                 && holds_at p.(cp_ExpiresAt) (λ t, After t cycleStart)) db.(lg_packs)) with
        | [] =>
          check! env.(le_fault) StInsertPack;;
          Ok (insert_pack db uid CreditsSourceSubscription sourceID credits (Some cycleEnd)
                ("subscription credits (" +:+ planKey +:+ ")"))
        | [active] => check! checkCyclePack active cycleEnd;; Ok db
        | _ => Err (ErrText "user has multiple active subscription Packs")
        end
      end.

Definition ensureCurrentSubscriptionCreditsTx (db : Ledger) (uid : Z) (now : time) : result Ledger :=
  try! user := lockCreditsOwnerUserTx db uid in
  try! (user, planKey, credits) := resolveActivePlanForUserTx db user uid now in
  check! lockExistingCreditsPacksTx db uid;;
  ensureCurrentSubscriptionCreditsForUserTx db user uid planKey credits now.

(** ** Grants *)

Definition CreatePackTx (db : Ledger) (uid : Z) (sourceType sourceID : string) (credits : Z)
    (expiresAt : option time) (remark : string) : result Ledger :=
  if credits <=? 0 then Ok db
  else
    check! env.(le_fault) StInsertPack;;
    guard! negb (existsb (pack_source_is uid sourceType sourceID) db.(lg_packs))
      else ErrText "duplicate entry for uk_w_credits_pack_source_identity";;
    Ok (insert_pack db uid sourceType sourceID credits expiresAt remark).

(** [CASE WHEN remark = '' THEN ? ELSE CONCAT(remark, ';', ?) END]. *)
Definition append_remark (old new : string) : string :=
  if bool_decide (old = "") then new else old +:+ ";" +:+ new.

Definition AddToPackTx (db : Ledger) (uid : Z) (sourceType sourceID : string) (credits : Z)
    (expiresAt : option time) (remark : string) : result Ledger :=
  if credits <=? 0 then Ok db
  else
    check! env.(le_fault) StUpsertPack;;
    if existsb (pack_source_is uid sourceType sourceID) db.(lg_packs)
    then Ok (set_packs db (update_where (pack_source_is uid sourceType sourceID)
           (λ p, mkCreditsPack p.(cp_Id) p.(cp_UID) p.(cp_SourceType) p.(cp_SourceID)
                   (p.(cp_CreditsTotal) + credits) p.(cp_CreditsUsed)
                   (match expiresAt with Some t => Some t | None => p.(cp_ExpiresAt) end)
                   (if bool_decide (remark = "") then p.(cp_Remark) else append_remark p.(cp_Remark) remark))
           db.(lg_packs)))
    else Ok (insert_pack db uid sourceType sourceID credits expiresAt remark).

Definition subscriptionCyclePackSourceID (planKey grantKey : string) : result string :=
  let planKey := TrimSpace planKey in
  let grantKey := TrimSpace grantKey in
  guard! negb (bool_decide (planKey = "") || bool_decide (grantKey = ""))
    else ErrText "subscription cycle plan and grant key are required";;
  Ok ("sub:" +:+ String.substring 0 60 (sha256_hex (hash_parts [planKey; grantKey]))).

Definition createSubscriptionCyclePackTx (db : Ledger) (uid : Z) (planKey grantKey : string) (credits : Z)
    (expiresAt : option time) (remark : string) : result Ledger :=
  guard! (0 <? uid) else ErrText "create subscription cycle Pack: invalid uid";;
  if credits <=? 0 then Ok db
  else
    try! sourceID := subscriptionCyclePackSourceID planKey grantKey in
    check! env.(le_fault) StReadCyclePack;;
    match first_row (pack_source_is uid CreditsSourceSubscription sourceID) db.(lg_packs) with
    | Some existing =>
      guard! negb (negb (existing.(cp_CreditsTotal) =? credits) || (existing.(cp_CreditsUsed) <? 0)
                   || (existing.(cp_CreditsTotal) <? existing.(cp_CreditsUsed)))
        else ErrText "subscription grant Pack conflicts with frozen allowance";;
      Ok db
    | None => CreatePackTx db uid CreditsSourceSubscription sourceID credits expiresAt remark
    end.

(** Revoking keeps what was spent: the total drops to the used credits. *)
Definition RevokeOrderCreditsTx (db : Ledger) (orderNo : string) : result Ledger :=
  if bool_decide (TrimSpace orderNo = "") then Ok db
  else
    check! env.(le_fault) StRevokePacks;;
    Ok (set_packs db (update_where (λ p, bool_decide (p.(cp_SourceID) = orderNo)
             && (bool_decide (p.(cp_SourceType) = CreditsSourcePurchase)
                 || bool_decide (p.(cp_SourceType) = CreditsSourceBonus)))
           (λ p, mkCreditsPack p.(cp_Id) p.(cp_UID) p.(cp_SourceType) p.(cp_SourceID)
                   p.(cp_CreditsUsed) p.(cp_CreditsUsed) (Some env.(le_wall))
                   (append_remark p.(cp_Remark) "order refunded")) db.(lg_packs))).

Definition ClipSubscriptionCreditsTx (db : Ledger) (uid : Z) (cutoff : time) : result Ledger :=
  check! env.(le_fault) StClipPacks;;
  Ok (set_packs db (update_where (λ p, (p.(cp_UID) =? uid)
           && bool_decide (p.(cp_SourceType) = CreditsSourceSubscription) && unexpired cutoff p.(cp_ExpiresAt))
         (λ p, mkCreditsPack p.(cp_Id) p.(cp_UID) p.(cp_SourceType) p.(cp_SourceID)
                 p.(cp_CreditsTotal) p.(cp_CreditsUsed) (Some cutoff) p.(cp_Remark)) db.(lg_packs))).

(** ** Balances *)

Definition spendable (uid : Z) (now : time) (subscriptionActive : bool) (p : CreditsPack) : bool :=
  (p.(cp_UID) =? uid) && negb (bool_decide (p.(cp_SourceType) = CreditsSourceLegacy))
  && unexpired now p.(cp_ExpiresAt)
  && (subscriptionActive || negb (bool_decide (p.(cp_SourceType) = CreditsSourceSubscription))).

Definition balanceSumWithSubscriptionActiveTx (db : Ledger) (uid : Z) (now : time) (subscriptionActive : bool)
    : result (Z * Z) :=
  check! env.(le_fault) StSumPacks;;
  let rows := where_ (spendable uid now subscriptionActive) db.(lg_packs) in
  Ok (sum_by cp_CreditsTotal rows, sum_by cp_CreditsUsed rows).

Definition balanceSumTx (db : Ledger) (uid : Z) (now : time) : result (Z * Z) :=
  balanceSumWithSubscriptionActiveTx db uid now (isSubscriptionCreditsActiveTx db uid now).

Definition balance_triple (total used : Z) : Z * Z * Z :=
  (total, used, if total - used <? 0 then 0 else total - used).

Definition GetBalanceTx (db : Ledger) (uid : Z) : result (Z * Z * Z) :=
  try! (total, used) := balanceSumTx db uid env.(le_wall) in Ok (balance_triple total used).

Definition GetBalanceForUserTx (db : Ledger) (user : User) : result (Z * Z * Z) :=
  try! (total, used) := balanceSumWithSubscriptionActiveTx db user.(us_Id) env.(le_wall)
                          (isSubscriptionUserActive user env.(le_wall)) in
  Ok (balance_triple total used).

Definition GetReservedPendingTx (db : Ledger) (uid : Z) : result Z :=
  check! env.(le_fault) StSumReservations;;
  let pending := sum_by cr_Reserved (where_ (λ r, (r.(cr_UID) =? uid)
                   && (status_is r StatusReserved || status_is r StatusReviewHold
                       || status_is r StatusRefundPending)) db.(lg_reservations)) in
  Ok (if pending <? 0 then 0 else pending).

(** ** Debits *)

Record creditsPackAllocation := mkPackAllocation { al_PackID : Z; al_Credits : Z; al_Priority : Z }.

(** The allocation loop: [allocations] is what earlier packs gave. *)
Fixpoint debit_packs (db : Ledger) (packs : list CreditsPack) (remaining : Z)
    (allocations : list creditsPackAllocation) : result (Z * list creditsPackAllocation * Ledger) :=
  match packs with
  | [] => Ok (remaining, allocations, db)
  | pack :: rest =>
    let available := pack.(cp_CreditsTotal) - pack.(cp_CreditsUsed) in
    if available <=? 0 then debit_packs db rest remaining allocations
    else
      let use := if remaining <? available then remaining else available in
      check! env.(le_fault) (StDebitPack pack.(cp_Id));;
      let guarded := λ p, pack_is pack.(cp_Id) p && (p.(cp_CreditsUsed) + use <=? p.(cp_CreditsTotal)) in
      guard! negb (affected guarded db.(lg_packs) =? 0) else ErrInsufficientCredits;;
      let db := set_packs db (update_where guarded (λ p, set_used p (p.(cp_CreditsUsed) + use)) db.(lg_packs)) in
      let allocations := allocations ++ [mkPackAllocation pack.(cp_Id) use (Z.of_nat (length allocations))] in
      if remaining - use =? 0 then Ok (0, allocations, db)
      else debit_packs db rest (remaining - use) allocations
  end.

Definition ReserveCreditsDetailedAtTx (db : Ledger) (uid cost : Z) (now : time)
    : result (list creditsPackAllocation * Ledger) :=
  if cost <=? 0 then Ok ([], db)
  else
    try! db := ensureCurrentSubscriptionCreditsTx db uid now in
    check! env.(le_fault) StLockPacks;;
    let active := isSubscriptionCreditsActiveTx db uid now in
    let packs := order_by pack_id_le
                   (where_ (λ p, spendable uid now active p && (p.(cp_CreditsUsed) <? p.(cp_CreditsTotal)))
                      db.(lg_packs)) in
    let allocationPacks := order_by (λ a b, negb (allocation_less b a)) packs in
    try! (remaining, allocations, db) := debit_packs db allocationPacks cost [] in
    guard! negb (0 <? remaining) else ErrInsufficientCredits;;
    Ok (allocations, db).

(** ** Refunds *)

Record refundAllocationPlan := mkRefundPlan {
  rp_allocationByPack : list (Z * Z);
  rp_refundByPack : list (Z * Z);
  rp_packIDs : list Z }.

(** A Go map from pack ids to credits, as an association list. *)
Definition map_get (m : list (Z * Z)) (k : Z) : Z :=
  match List.find (λ kv, fst kv =? k) m with Some (_, v) => v | None => 0 end.
Definition map_has (m : list (Z * Z)) (k : Z) : bool := existsb (λ kv, fst kv =? k) m.

Definition max_int : Z := 2 ^ 63 - 1.

(** The first loop: every row is checked and summed. *)
Fixpoint collect_allocations (reservationID : Z) (rows : list CreditReservationAllocation)
    (byPack : list (Z * Z)) (total : Z) : result (list (Z * Z) * Z) :=
  match rows with
  | [] => Ok (byPack, total)
  | a :: rest =>
    guard! (a.(ca_ReservationID) =? reservationID)
      else RefundIntegrityError ErrCreditsRefundAllocationInvalid reservationID a.(ca_PackID);;
    guard! negb (a.(ca_PackID) =? 0)
      else RefundIntegrityError ErrCreditsRefundAllocationInvalid reservationID 0;;
    guard! (0 <? a.(ca_Credits))
      else RefundIntegrityError ErrCreditsRefundAllocationInvalid reservationID a.(ca_PackID);;
    guard! negb (map_has byPack a.(ca_PackID))
      else RefundIntegrityError ErrCreditsRefundAllocationInvalid reservationID a.(ca_PackID);;
    guard! negb (max_int - a.(ca_Credits) <? total)
      else RefundIntegrityError ErrCreditsRefundAllocationInvalid reservationID a.(ca_PackID);;
    collect_allocations reservationID rest (byPack ++ [(a.(ca_PackID), a.(ca_Credits))])
      (total + a.(ca_Credits))
  end.

(** The second loop, from the last allocation to the first. *)
Fixpoint refund_lifo (rows : list CreditReservationAllocation) (remaining : Z) : list (Z * Z) * Z :=
  match rows with
  | [] => ([], remaining)
  | a :: rest =>
    if 0 <? remaining then
      let refund := if remaining <? a.(ca_Credits) then remaining else a.(ca_Credits) in
      let '(refunds, unfunded) := refund_lifo rest (remaining - refund) in
      ((a.(ca_PackID), refund) :: refunds, unfunded)
    else ([], remaining)
  end.

Definition buildRefundAllocationPlan (reservationID : Z) (allocations : list CreditReservationAllocation)
    (expectedReserved refundCredits : Z) (checkExpectedReserved : bool) : result refundAllocationPlan :=
  try! (byPack, allocationTotal) := collect_allocations reservationID allocations [] 0 in
  guard! negb (checkExpectedReserved && negb (allocationTotal =? expectedReserved))
    else RefundIntegrityError ErrCreditsRefundAllocationIncomplete reservationID 0;;
  guard! negb (allocationTotal <? refundCredits)
    else RefundIntegrityError ErrCreditsRefundAllocationIncomplete reservationID 0;;
  let '(refunds, remaining) := refund_lifo (rev allocations) refundCredits in
  guard! (remaining =? 0) else RefundIntegrityError ErrCreditsRefundAllocationIncomplete reservationID 0;;
  Ok (mkRefundPlan byPack refunds (order_by Z.leb (map fst byPack))).

Definition sameRefundAllocationRows (left right : list CreditReservationAllocation) : bool :=
  (length left =? length right)%nat
  && forallb (λ ab : CreditReservationAllocation * CreditReservationAllocation,
       ((fst ab).(ca_Id) =? (snd ab).(ca_Id)) && ((fst ab).(ca_ReservationID) =? (snd ab).(ca_ReservationID))
       && ((fst ab).(ca_PackID) =? (snd ab).(ca_PackID)) && ((fst ab).(ca_Credits) =? (snd ab).(ca_Credits)))
     (combine left right).

Definition samePackIDs (left right : list Z) : bool :=
  (length left =? length right)%nat
  && forallb (λ ab : Z * Z, fst ab =? snd ab) (combine left right).

(** The integrity checks of every locked pack, before the first write. *)
Fixpoint check_packs (reservationID expectedUID : Z) (check : bool) (byPack : list (Z * Z))
    (packs : list CreditsPack) (packIDs : list Z) : validation :=
  match packs, packIDs with
  | pack :: packs, id :: ids =>
    if negb (pack.(cp_Id) =? id)
    then Some (RefundIntegrityError ErrCreditsRefundPackInvariant reservationID id)
    else if check && negb (pack.(cp_UID) =? expectedUID)
    then Some (RefundIntegrityError ErrCreditsRefundPackInvariant reservationID pack.(cp_Id))
    else if (pack.(cp_CreditsUsed) <? 0) || (pack.(cp_CreditsTotal) <? pack.(cp_CreditsUsed))
    then Some (RefundIntegrityError ErrCreditsRefundPackInvariant reservationID pack.(cp_Id))
    else if pack.(cp_CreditsUsed) <? map_get byPack pack.(cp_Id)
    then Some (RefundIntegrityError ErrCreditsRefundPackInvariant reservationID pack.(cp_Id))
    else check_packs reservationID expectedUID check byPack packs ids
  | _, _ => None
  end.

Fixpoint refund_packs (db : Ledger) (reservationID : Z) (refunds : list (Z * Z)) (packs : list CreditsPack)
    : result Ledger :=
  match packs with
  | [] => Ok db
  | pack :: rest =>
    let refund := map_get refunds pack.(cp_Id) in
    if refund =? 0 then refund_packs db reservationID refunds rest
    else
      check! env.(le_fault) (StRefundPack pack.(cp_Id));;
      let guarded := λ p, pack_is pack.(cp_Id) p && (refund <=? p.(cp_CreditsUsed)) in
      guard! (affected guarded db.(lg_packs) =? 1)
        else RefundIntegrityError ErrCreditsRefundPackInvariant reservationID pack.(cp_Id);;
      refund_packs
        (set_packs db (update_where guarded (λ p, set_used p (p.(cp_CreditsUsed) - refund)) db.(lg_packs)))
        reservationID refunds rest
  end.

Definition allocation_of (reservationID : Z) (a : CreditReservationAllocation) : bool :=
  a.(ca_ReservationID) =? reservationID.

(** [Where("reservation_id = ?").Order("id ASC")]. *)
Definition allocations_of (db : Ledger) (reservationID : Z) : list CreditReservationAllocation :=
  order_by (λ a b, a.(ca_Id) <=? b.(ca_Id)) (where_ (allocation_of reservationID) db.(lg_allocations)).

(** Both reads of the allocations see the same rows: the transaction holds the
    lock of their reservation. *)
Definition refundAllocationsTx (db : Ledger) (reservationID expectedUID expectedReserved refundCredits : Z)
    (check : bool) : result Ledger :=
  if refundCredits =? 0 then Ok db
  else
    guard! negb (reservationID =? 0)
      else RefundIntegrityError ErrCreditsRefundAllocationInvalid reservationID 0;;
    guard! negb (refundCredits <? 0)
      else RefundIntegrityError ErrCreditsRefundAllocationInvalid reservationID 0;;
    guard! negb (check && ((expectedUID <=? 0) || (expectedReserved <=? 0) || (expectedReserved <? refundCredits)))
      else RefundIntegrityError ErrCreditsRefundAllocationInvalid reservationID 0;;
    check! env.(le_fault) StLockParent;;
    try! parent := found (first_row (λ r, r.(cr_Id) =? reservationID) db.(lg_reservations)) in
    guard! negb (check && (negb (parent.(cr_UID) =? expectedUID) || negb (parent.(cr_Reserved) =? expectedReserved)))
      else RefundIntegrityError ErrCreditsRefundAllocationInvalid reservationID 0;;
    check! env.(le_fault) StReadAllocations;;
    let allocationSnapshot := allocations_of db reservationID in
    guard! negb (length allocationSnapshot =? 0)%nat
      else RefundIntegrityError ErrCreditsRefundAllocationIncomplete reservationID 0;;
    try! snapshotPlan := buildRefundAllocationPlan reservationID allocationSnapshot expectedReserved
                           refundCredits check in
    check! env.(le_fault) StLockPacks;;
    let packs := order_by pack_id_le
                   (where_ (λ p, existsb (Z.eqb p.(cp_Id)) snapshotPlan.(rp_packIDs)) db.(lg_packs)) in
    check! env.(le_fault) StLockAllocations;;
    let allocations := allocations_of db reservationID in
    guard! sameRefundAllocationRows allocationSnapshot allocations
      else RefundIntegrityError ErrCreditsRefundAllocationInvalid reservationID 0;;
    try! plan := buildRefundAllocationPlan reservationID allocations expectedReserved refundCredits check in
    guard! samePackIDs snapshotPlan.(rp_packIDs) plan.(rp_packIDs)
      else RefundIntegrityError ErrCreditsRefundAllocationInvalid reservationID 0;;
    guard! (length packs =? length plan.(rp_packIDs))%nat
      else RefundIntegrityError ErrCreditsRefundPackInvariant reservationID 0;;
    check! check_packs reservationID expectedUID check plan.(rp_allocationByPack) packs plan.(rp_packIDs);;
    refund_packs db reservationID plan.(rp_refundByPack) packs.

Definition RefundAllocationsTx (db : Ledger) (reservationID credits : Z) : result Ledger :=
  refundAllocationsTx db reservationID 0 0 credits false.

Definition RefundAllocationsCheckedTx (db : Ledger) (reservationID expectedUID expectedReserved refundCredits : Z)
    : result Ledger :=
  refundAllocationsTx db reservationID expectedUID expectedReserved refundCredits true.
End Packs.
