(* ===== verification/ProjectBudget.v ===== *)
(** * Project budgets: service/project/repository.go

    The statements on the budget of a project row.  A project that was deleted
    keeps its row; refunds still reach it. *)

From stdpp Require Import sorting.
From S2P Require Import Prelude GoText AgentContract TurnTypes ExecutionTypes CreditTables.

Definition project_of (id uid : Z) (p : CanvasProject) : bool := (p.(pj_Id) =? id) && (p.(pj_UID) =? uid).
Definition live_project (id uid : Z) (p : CanvasProject) : bool :=
  project_of id uid p && bool_decide (p.(pj_DeletedAt) = None).

Definition add_spent (credits : Z) (p : CanvasProject) : CanvasProject :=
  mkCanvasProject p.(pj_Id) p.(pj_UID) p.(pj_DeletedAt) p.(pj_BudgetCreditsCap)
    (p.(pj_BudgetCreditsUsed) + credits).

Definition within_cap (credits : Z) (p : CanvasProject) : bool :=
  match p.(pj_BudgetCreditsCap) with
  | None => true
  | Some cap => p.(pj_BudgetCreditsUsed) + credits <=? cap
  end.

Record BudgetStatus := mkBudgetStatus {
  bs_Cap : option Z; bs_Used : Z; bs_Remaining : Z; bs_Exceeded : bool }.

Section Budget.
Context (env : ledger_env).

Definition GetBudgetStatusForOwner (db : Ledger) (id uid : Z) : result BudgetStatus :=
  guard! negb ((id =? 0) || (uid =? 0)) else ErrRecordNotFound;;
  check! env.(le_fault) StLockProject;;
  try! p := found (first_row (live_project id uid) db.(lg_projects)) in
  Ok (match p.(pj_BudgetCreditsCap) with
      | None => mkBudgetStatus None p.(pj_BudgetCreditsUsed) (-1) false
      | Some cap => mkBudgetStatus (Some cap) p.(pj_BudgetCreditsUsed) (cap - p.(pj_BudgetCreditsUsed))
                      (cap <? p.(pj_BudgetCreditsUsed))
      end).

Definition SetBudgetCapForOwner (db : Ledger) (id uid : Z) (cap : option Z) : result Ledger :=
  guard! negb ((uid =? 0) || (id =? 0)) else ErrRecordNotFound;;
  guard! negb (holds_at cap (λ c, c <? 0)) else ErrText "project budget cap must be >= 0";;
  check! env.(le_fault) StSetBudgetCap;;
  guard! negb (affected (live_project id uid) db.(lg_projects) =? 0) else ErrRecordNotFound;;
  Ok (set_projects db (update_where (live_project id uid)
        (λ p, mkCanvasProject p.(pj_Id) p.(pj_UID) p.(pj_DeletedAt) cap p.(pj_BudgetCreditsUsed))
        db.(lg_projects))).

Definition AddBudgetSpent (db : Ledger) (id uid credits : Z) : result Ledger :=
  guard! negb ((uid =? 0) || (id =? 0)) else ErrRecordNotFound;;
  if credits =? 0 then Ok db
  else if credits <? 0 then
    check! env.(le_fault) StChargeBudget;;
    Ok (set_projects db (update_where (λ p, live_project id uid p && (0 <=? p.(pj_BudgetCreditsUsed) + credits))
          (add_spent credits) db.(lg_projects)))
  else
    check! env.(le_fault) StChargeBudget;;
    let chargeable := λ p, live_project id uid p && within_cap credits p in
    if affected chargeable db.(lg_projects) =? 1
    then Ok (set_projects db (update_where chargeable (add_spent credits) db.(lg_projects)))
    else
      check! env.(le_fault) StCountProject;;
      if affected (live_project id uid) db.(lg_projects) =? 0 then Err ErrRecordNotFound
      else Err ErrBudgetExceeded.

Definition RefundBudgetSpentExact (db : Ledger) (id uid credits : Z) : result Ledger :=
  guard! negb ((id =? 0) || (uid =? 0)) else ErrRecordNotFound;;
  guard! negb (credits <? 0) else ErrText "refund credits must be non-negative";;
  if credits =? 0 then Ok db
  else
    check! env.(le_fault) StLockProject;;
    try! locked := found (first_row (project_of id uid) db.(lg_projects)) in
    guard! negb (locked.(pj_BudgetCreditsUsed) <? credits) else ErrBudgetRefundInvariant;;
    check! env.(le_fault) StRefundBudget;;
    let guarded := λ p, project_of id uid p && (credits <=? p.(pj_BudgetCreditsUsed)) in
    guard! (affected guarded db.(lg_projects) =? 1) else ErrBudgetRefundInvariant;;
    Ok (set_projects db (update_where guarded (add_spent (- credits)) db.(lg_projects))).
End Budget.
