(* ===== verification/CreditReservation.v ===== *)
(** * Credit reservations: service/account/credit_reservation_service.go

    Reserve, the review hold, finalize, release, the refund attempt with its
    savepoint, the lookups and the sweeper.  Every function runs in a transaction
    of its caller and returns the new tables or an error; with an error the
    caller rolls back.  The struct a function holds and the row in the table are
    kept apart, as in the source. *)

From Stdlib Require Import Ascii.
From stdpp Require Import sorting.
From S2P Require Import Prelude GoText GoDigest GoTime AgentContract TurnTypes ExecutionTypes CreditTables SubscriptionCycle CreditsPack ProjectBudget.

(** ** Constants and requests *)

Definition hour : Z := 60 * minute.
Definition defaultReservationTTL : Z := 10 * minute.
Definition processingReservationExtension : Z := 30 * minute.
Definition maxReservationToolBytes : Z := 64.
Definition maxReservationKeyBytes : Z := 128.
Definition maxReservationQuoteIDBytes : Z := 128.
Definition maxReservationReviewIDBytes : Z := 256.
Definition maxReservationSettlementBytes : Z := 256.
Definition maxReservationSchemaInt : Z := 2 ^ 31 - 1.
Definition reservationReviewDigestBytes : Z := 71.
Definition maxRefundBackoff : Z := hour.

Record ReservationRequest := mkReservationRequest {
  rq_UID : Z; rq_Tool : string; rq_IdempotencyKey : string; rq_QuoteID : string;
  rq_Reserved : Z; rq_TTL : Z; rq_Remark : string; rq_ProjectID : Z }.

Record ReservationResult := mkReservationResult {
  rr_Reservation : CreditReservation; rr_Created : bool }.

Record ReservationReviewHold := mkReviewHold {
  rh_ReviewID : string; rh_SettlementKey : string; rh_RequestDigest : string }.

Definition validateReservationText (value : string) (maxBytes : Z) : validation :=
  first_error
    [ when (bool_decide (TrimSpace value = "")) (ErrText "is required");
      when (maxBytes <? len value) (ErrText "exceeds bytes") ].

Definition ReservationReviewHold_validate (hold : ReservationReviewHold) : validation :=
  first_error
    [ validateReservationText hold.(rh_ReviewID) maxReservationReviewIDBytes;
      validateReservationText hold.(rh_SettlementKey) maxReservationSettlementBytes;
      when (negb ((len hold.(rh_RequestDigest) =? reservationReviewDigestBytes)
                  && HasPrefix hold.(rh_RequestDigest) "sha256:"))
        (ErrText "requestDigest must use canonical sha256:<lowercase-hex>");
      when (negb (forallb hex_char (chars (String.substring 7 (String.length hold.(rh_RequestDigest) - 7)
                                             hold.(rh_RequestDigest)))))
        (ErrText "requestDigest must use canonical sha256:<lowercase-hex>") ].

Definition normalizedReservationTTL (ttl : Z) : Z := if ttl <=? 0 then defaultReservationTTL else ttl.

Definition CanonicalReservationRequestDigest (req : ReservationRequest) : result string :=
  guard! negb ((req.(rq_UID) <=? 0) || (maxReservationSchemaInt <? req.(rq_UID))) else ErrText "invalid uid";;
  guard! negb (req.(rq_Reserved) <? 0) else ErrText "reserved must be non-negative";;
  guard! negb (maxReservationSchemaInt <? req.(rq_Reserved))
    else ErrText "reserved exceeds signed INT schema boundary";;
  guard! negb (maxReservationSchemaInt <? req.(rq_ProjectID))
    else ErrText "projectId exceeds signed INT schema boundary";;
  check! validateReservationText req.(rq_Tool) maxReservationToolBytes;;
  check! validateReservationText req.(rq_IdempotencyKey) maxReservationKeyBytes;;
  guard! negb (maxReservationQuoteIDBytes <? len req.(rq_QuoteID)) else ErrText "quoteId exceeds bytes";;
  Ok (sha256_hex (hash_parts
    [ "workmax-credit-reservation-v1"; FormatInt req.(rq_UID); req.(rq_Tool); req.(rq_IdempotencyKey);
      req.(rq_QuoteID); FormatInt req.(rq_Reserved); FormatInt req.(rq_ProjectID) ])).

(** ** Rows *)

Definition reservation_is (id : Z) (r : CreditReservation) : bool := r.(cr_Id) =? id.
Definition reservation_key_is (uid : Z) (key : string) (r : CreditReservation) : bool :=
  (r.(cr_UID) =? uid) && bool_decide (r.(cr_IdempotencyKey) = key).

Definition update_reservation (db : Ledger) (id : Z) (f : CreditReservation → CreditReservation) : Ledger :=
  set_reservations db (update_where (reservation_is id) f db.(lg_reservations)).

(** Replace the lifecycle columns; the request columns never change. *)
Definition with_state (r : CreditReservation) (used : Z) (status : string) (expires : time)
    (finalized released : option time) (hold : ReservationReviewHold) (held : option time)
    (target : string) (targetUsed : option Z) (due attempts : Z) (next : option time) (code : string)
    (changed : option time) (version : Z) : CreditReservation :=
  mkCreditReservation r.(cr_Id) r.(cr_CreatedAt) r.(cr_UID) r.(cr_Tool) r.(cr_IdempotencyKey)
    r.(cr_RequestDigest) r.(cr_QuoteID) r.(cr_Reserved) used status expires finalized released r.(cr_Remark)
    hold.(rh_ReviewID) hold.(rh_SettlementKey) hold.(rh_RequestDigest) held target targetUsed due attempts
    next code changed version r.(cr_ProjectID).

Definition hold_of (r : CreditReservation) : ReservationReviewHold :=
  mkReviewHold r.(cr_HoldReviewID) r.(cr_HoldSettlementKey) r.(cr_HoldRequestDigest).

(** The columns each UPDATE sets, on the row in the table. *)
Definition hold_columns (hold : ReservationReviewHold) (now : time) (r : CreditReservation) : CreditReservation :=
  with_state r r.(cr_Used) StatusReviewHold r.(cr_ExpiresAt) r.(cr_FinalizedAt) r.(cr_ReleasedAt)
    hold (Some now) r.(cr_RefundTargetStatus) r.(cr_RefundTargetUsed) r.(cr_RefundDue)
    r.(cr_RefundAttempts) r.(cr_NextRefundAt) r.(cr_LastRefundErrorCode) (Some now) (r.(cr_StateVersion) + 1).

Definition extend_columns (now : time) (r : CreditReservation) : CreditReservation :=
  with_state r r.(cr_Used) r.(cr_Status) (now + processingReservationExtension) r.(cr_FinalizedAt)
    r.(cr_ReleasedAt) (hold_of r) r.(cr_ReviewHeldAt) r.(cr_RefundTargetStatus)
    r.(cr_RefundTargetUsed) r.(cr_RefundDue) r.(cr_RefundAttempts) r.(cr_NextRefundAt)
    r.(cr_LastRefundErrorCode) (Some now) (r.(cr_StateVersion) + 1).

Definition queue_columns (target : string) (targetUsed refund : Z) (now : time) (r : CreditReservation)
    : CreditReservation :=
  with_state r r.(cr_Used) StatusRefundPending r.(cr_ExpiresAt) r.(cr_FinalizedAt) r.(cr_ReleasedAt)
    (hold_of r) r.(cr_ReviewHeldAt) target (Some targetUsed) refund r.(cr_RefundAttempts) (Some now) ""
    (Some now) (r.(cr_StateVersion) + 1).

Definition failed_columns (attempts : Z) (next : time) (code : string) (now : time) (r : CreditReservation)
    : CreditReservation :=
  with_state r r.(cr_Used) r.(cr_Status) r.(cr_ExpiresAt) r.(cr_FinalizedAt) r.(cr_ReleasedAt)
    (hold_of r) r.(cr_ReviewHeldAt) r.(cr_RefundTargetStatus) r.(cr_RefundTargetUsed) r.(cr_RefundDue)
    attempts (Some next) code (Some now) (r.(cr_StateVersion) + 1).

Definition terminal_columns (status : string) (used : Z) (now : time) (r : CreditReservation)
    : CreditReservation :=
  with_state r used status r.(cr_ExpiresAt)
    (if bool_decide (status = StatusFinalized) then Some now else r.(cr_FinalizedAt))
    (if bool_decide (status = StatusFinalized) then r.(cr_ReleasedAt) else Some now)
    (hold_of r) r.(cr_ReviewHeldAt) "" None 0 r.(cr_RefundAttempts) None ""
    (Some now) (r.(cr_StateVersion) + 1).

Definition reservationHoldMatches (r : CreditReservation) (hold : ReservationReviewHold) : bool :=
  bool_decide (r.(cr_HoldReviewID) = hold.(rh_ReviewID))
  && bool_decide (r.(cr_HoldSettlementKey) = hold.(rh_SettlementKey))
  && bool_decide (r.(cr_HoldRequestDigest) = hold.(rh_RequestDigest)).

Definition reservationHasHoldBinding (r : CreditReservation) : bool :=
  negb (bool_decide (r.(cr_HoldReviewID) = "")) || negb (bool_decide (r.(cr_HoldSettlementKey) = ""))
  || negb (bool_decide (r.(cr_HoldRequestDigest) = "")) || negb (bool_decide (r.(cr_ReviewHeldAt) = None)).

Definition enforceReservationHold (r : CreditReservation) (hold : option ReservationReviewHold) : validation :=
  if negb (reservationHasHoldBinding r)
  then match hold with Some _ => Some ErrReservationReviewConflict | None => None end
  else match hold with
       | None => Some ErrReservationReviewPending
       | Some hold => when (negb (reservationHoldMatches r hold)) ErrReservationReviewConflict
       end.

Definition reservationTerminalError (status : string) : error :=
  if bool_decide (status = StatusFinalized) then ErrReservationAlreadyFinalized
  else if bool_decide (status = StatusReleased) then ErrReservationAlreadyReleased
  else if bool_decide (status = StatusExpired) then ErrReservationExpired
  else ErrReservationSettlementConflict.

Definition refundIntentMatches (r : CreditReservation) (target : string) (targetUsed : Z) : bool :=
  bool_decide (r.(cr_RefundTargetStatus) = target) && bool_decide (r.(cr_RefundTargetUsed) = Some targetUsed)
  && (r.(cr_RefundDue) =? r.(cr_Reserved) - targetUsed).

Definition reservationReplayMatches (existing : CreditReservation) (req : ReservationRequest) (digest : string)
    : bool :=
  if negb (bool_decide (existing.(cr_RequestDigest) = "")) then bool_decide (existing.(cr_RequestDigest) = digest)
  else (existing.(cr_UID) =? req.(rq_UID)) && bool_decide (existing.(cr_Tool) = req.(rq_Tool))
       && bool_decide (existing.(cr_IdempotencyKey) = req.(rq_IdempotencyKey))
       && bool_decide (existing.(cr_QuoteID) = req.(rq_QuoteID))
       && (existing.(cr_Reserved) =? req.(rq_Reserved)) && (existing.(cr_ProjectID) =? req.(rq_ProjectID)).

(** ** Retry policy *)

(** The shift is at most 6, so the product stays inside an int64. *)
Definition refundRetryBackoff (attempt : Z) : Z :=
  let attempt := if attempt <? 1 then 1 else attempt in
  let shift := if 6 <? attempt - 1 then 6 else attempt - 1 in
  let backoff := minute * Z.shiftl 1 shift in
  if maxRefundBackoff <? backoff then maxRefundBackoff else backoff.

Definition classifyReservationRefundError (err : error) : string :=
  match err with
  | ErrBudgetRefundInvariant | ErrRecordNotFound => "project_invariant"
  | RefundIntegrityError ErrCreditsRefundAllocationInvalid _ _ => "allocation_invalid"
  | RefundIntegrityError ErrCreditsRefundAllocationIncomplete _ _ => "allocation_incomplete"
  | RefundIntegrityError ErrCreditsRefundPackInvariant _ _ => "pack_invariant"
  | _ => "database_error"
  end.

Section Reservations.
Context (env : ledger_env).

Definition lockReservation (db : Ledger) (reservationID : Z) : result CreditReservation :=
  guard! negb (reservationID =? 0) else ErrRecordNotFound;;
  check! env.(le_fault) StLockReservation;;
  found (first_row (reservation_is reservationID) db.(lg_reservations)).

(** ** Admission *)

Definition new_reservation (id : Z) (now : time) (req : ReservationRequest) (digest : string)
    : CreditReservation :=
  mkCreditReservation id now req.(rq_UID) req.(rq_Tool) req.(rq_IdempotencyKey) digest req.(rq_QuoteID)
    req.(rq_Reserved) 0 StatusReserved (now + normalizedReservationTTL req.(rq_TTL)) None None req.(rq_Remark)
    "" "" "" None "" None 0 0 None "" (Some now) 1 req.(rq_ProjectID).

(** The allocation rows of one reservation, with consecutive ids. *)
Fixpoint allocation_rows (id reservationID : Z) (allocations : list creditsPackAllocation)
    : list CreditReservationAllocation :=
  match allocations with
  | [] => []
  | a :: rest => mkAllocation id reservationID a.(al_PackID) a.(al_Credits)
                 :: allocation_rows (id + 1) reservationID rest
  end.

Definition Reserve (db : Ledger) (req : ReservationRequest) : result (ReservationResult * Ledger) :=
  try! digest := CanonicalReservationRequestDigest req in
  try! now := env.(le_now) 0%nat in
  let id := fresh_row_id (map cr_Id db.(lg_reservations)) in
  let reservation := new_reservation id now req digest in
  check! env.(le_fault) StInsertReservation;;
  if existsb (reservation_key_is req.(rq_UID) req.(rq_IdempotencyKey)) db.(lg_reservations) then
    match env.(le_fault) StFindReservation,
          first_row (reservation_key_is req.(rq_UID) req.(rq_IdempotencyKey)) db.(lg_reservations) with
    | None, Some existing =>
      guard! reservationReplayMatches existing req digest else ErrReservationReplayConflict;;
      Ok (mkReservationResult existing false, db)
    | _, _ => Err (ErrText "duplicate entry for idx_reservation_uid_key")
    end
  else
    let db := set_reservations db (db.(lg_reservations) ++ [reservation]) in
    try! db := (if (0 <? req.(rq_ProjectID)) && (0 <? req.(rq_Reserved))
                then AddBudgetSpent env db req.(rq_ProjectID) req.(rq_UID) req.(rq_Reserved)
                else Ok db) in
    try! (allocations, db) := (if 0 <? req.(rq_Reserved)
                               then ReserveCreditsDetailedAtTx env db req.(rq_UID) req.(rq_Reserved) now
                               else Ok ([], db)) in
    if (length allocations =? 0)%nat then Ok (mkReservationResult reservation true, db)
    else
      check! env.(le_fault) StInsertAllocations;;
      Ok (mkReservationResult reservation true,
          set_allocations db (db.(lg_allocations) ++
            allocation_rows (fresh_row_id (map ca_Id db.(lg_allocations))) id allocations)).

(** ** Review holds *)

Definition holdForReview (db : Ledger) (reservationID : Z) (hold : ReservationReviewHold)
    (requireUnexpired : bool) : result Ledger :=
  check! ReservationReviewHold_validate hold;;
  try! reservation := lockReservation db reservationID in
  if reservationHasHoldBinding reservation then
    (if reservationHoldMatches reservation hold then Ok db else Err ErrReservationReviewConflict)
  else if status_is reservation StatusRefundPending then Err ErrReservationSettlementConflict
  else if IsTerminal reservation then Err (reservationTerminalError reservation.(cr_Status))
  else
    guard! status_is reservation StatusReserved else ErrReservationSettlementConflict;;
    try! now := env.(le_now) 0%nat in
    guard! negb (requireUnexpired && negb (After reservation.(cr_ExpiresAt) now)) else ErrReservationTTLExpired;;
    check! env.(le_fault) StHoldReservation;;
    guard! negb (existsb (λ r, bool_decide (r.(cr_HoldSettlementKey) = hold.(rh_SettlementKey)))
                   db.(lg_reservations))
      else ErrText "duplicate entry for uk_w_credit_reservation_hold_settlement";;
    Ok (update_reservation db reservation.(cr_Id) (hold_columns hold now)).

Definition HoldForReview (db : Ledger) (id : Z) (hold : ReservationReviewHold) : result Ledger :=
  holdForReview db id hold true.
Definition HoldForReviewAfterTurnAuthorization (db : Ledger) (id : Z) (hold : ReservationReviewHold)
    : result Ledger :=
  holdForReview db id hold false.

(** ** Refunds *)

Definition known_terminal (status : string) : bool :=
  bool_decide (status = StatusFinalized) || bool_decide (status = StatusReleased)
  || bool_decide (status = StatusExpired).

(** Returns the struct the caller goes on with, and the tables. *)
Definition queueRefundLocked (db : Ledger) (reservation : CreditReservation) (target : string)
    (targetUsed refund : Z) (now : time) : result (CreditReservation * Ledger) :=
  guard! negb ((refund <=? 0) || (targetUsed <? 0) || (reservation.(cr_Reserved) <? targetUsed)
               || negb (refund =? reservation.(cr_Reserved) - targetUsed))
    else ErrReservationSettlementConflict;;
  guard! known_terminal target else ErrReservationSettlementConflict;;
  guard! negb ((bool_decide (target = StatusReleased) || bool_decide (target = StatusExpired))
               && negb (targetUsed =? 0))
    else ErrReservationSettlementConflict;;
  check! env.(le_fault) StQueueRefund;;
  Ok (with_state reservation reservation.(cr_Used) StatusRefundPending reservation.(cr_ExpiresAt)
        reservation.(cr_FinalizedAt) reservation.(cr_ReleasedAt) (hold_of reservation)
        reservation.(cr_ReviewHeldAt) target (Some targetUsed) refund reservation.(cr_RefundAttempts)
        (Some now) "" reservation.(cr_StateChangedAt) reservation.(cr_StateVersion),
      update_reservation db reservation.(cr_Id) (queue_columns target targetUsed refund now)).

Definition markReservationTerminal (db : Ledger) (reservation : CreditReservation) (status : string) (used : Z)
    (now : time) : result (CreditReservation * Ledger) :=
  guard! known_terminal status else ErrReservationSettlementConflict;;
  check! env.(le_fault) StMarkTerminal;;
  Ok (with_state reservation used status reservation.(cr_ExpiresAt) reservation.(cr_FinalizedAt)
        reservation.(cr_ReleasedAt) (hold_of reservation) reservation.(cr_ReviewHeldAt) "" None 0
        reservation.(cr_RefundAttempts) None "" reservation.(cr_StateChangedAt) reservation.(cr_StateVersion),
      update_reservation db reservation.(cr_Id) (terminal_columns status used now)).

Definition refundFinancialRowsLocked (db : Ledger) (reservation : CreditReservation) : result Ledger :=
  try! db := (if 0 <? reservation.(cr_ProjectID)
              then RefundBudgetSpentExact env db reservation.(cr_ProjectID) reservation.(cr_UID)
                     reservation.(cr_RefundDue)
              else Ok db) in
  RefundAllocationsCheckedTx env db reservation.(cr_Id) reservation.(cr_UID) reservation.(cr_Reserved)
    reservation.(cr_RefundDue).

(** With a failed refund, [RollbackTo] restores the tables of the savepoint:
    the attempt continues from [db]. *)
Definition attemptPendingRefundLocked (db : Ledger) (reservation : CreditReservation) (now : time)
    : result (CreditReservation * Ledger) :=
  match reservation.(cr_RefundTargetUsed) with
  | None => Err ErrReservationSettlementConflict
  | Some targetUsed =>
    guard! negb (negb (status_is reservation StatusRefundPending) || (reservation.(cr_RefundDue) <=? 0)
                 || negb (refundIntentMatches reservation reservation.(cr_RefundTargetStatus) targetUsed))
      else ErrReservationSettlementConflict;;
    check! env.(le_fault) StSavepoint;;
    match refundFinancialRowsLocked db reservation with
    | Err refundErr =>
      check! env.(le_fault) StRollbackTo;;
      let attempts := u64 (reservation.(cr_RefundAttempts) + 1) in
      let next := now + refundRetryBackoff attempts in
      let code := classifyReservationRefundError refundErr in
      check! env.(le_fault) StRefundFailed;;
      Ok (with_state reservation reservation.(cr_Used) reservation.(cr_Status) reservation.(cr_ExpiresAt)
            reservation.(cr_FinalizedAt) reservation.(cr_ReleasedAt) (hold_of reservation)
            reservation.(cr_ReviewHeldAt) reservation.(cr_RefundTargetStatus)
            reservation.(cr_RefundTargetUsed) reservation.(cr_RefundDue) attempts (Some next) code
            reservation.(cr_StateChangedAt) reservation.(cr_StateVersion),
          update_reservation db reservation.(cr_Id) (failed_columns attempts next code now))
    | Ok db => markReservationTerminal db reservation reservation.(cr_RefundTargetStatus) targetUsed now
    end
  end.

(** [reservation.NextRefundAt != nil && reservation.NextRefundAt.After(now)]. *)
Definition backing_off (r : CreditReservation) (now : time) : bool :=
  holds_at r.(cr_NextRefundAt) (λ t, After t now).

(** ** Settlement *)

Definition tables {A} (r : result (A * Ledger)) : result Ledger :=
  match r with Ok (_, db) => Ok db | Err e => Err e end.

Definition finalize (db : Ledger) (reservationID used : Z) (hold : option ReservationReviewHold)
    (requireUnexpired : bool) : result Ledger :=
  guard! negb (used <? 0) else ErrText "used must be non-negative";;
  try! reservation := lockReservation db reservationID in
  check! enforceReservationHold reservation hold;;
  guard! negb (reservation.(cr_Reserved) <? used) else ErrText "used exceeds reserved";;
  if status_is reservation StatusFinalized then
    (if reservation.(cr_Used) =? used then Ok db else Err ErrReservationSettlementConflict)
  else if status_is reservation StatusReleased then Err ErrReservationAlreadyReleased
  else if status_is reservation StatusExpired then Err ErrReservationExpired
  else if status_is reservation StatusRefundPending then
    guard! refundIntentMatches reservation StatusFinalized used else ErrReservationSettlementConflict;;
    try! now := env.(le_now) 0%nat in
    if backing_off reservation now then Ok db
    else tables (attemptPendingRefundLocked db reservation now)
  else
    guard! status_is reservation StatusReserved || status_is reservation StatusReviewHold
      else ErrReservationSettlementConflict;;
    try! _ := (if requireUnexpired && status_is reservation StatusReserved
               then try! now := env.(le_now) 0%nat in
                    guard! After reservation.(cr_ExpiresAt) now else ErrReservationTTLExpired;; Ok tt
               else Ok tt) in
    try! now := env.(le_now) 1%nat in
    let refund := reservation.(cr_Reserved) - used in
    if refund =? 0 then tables (markReservationTerminal db reservation StatusFinalized used now)
    else
      try! (reservation, db) := queueRefundLocked db reservation StatusFinalized used refund now in
      tables (attemptPendingRefundLocked db reservation now).

Definition Finalize (db : Ledger) (id used : Z) : result Ledger := finalize db id used None true.
Definition FinalizeAfterTurnAuthorization (db : Ledger) (id used : Z) : result Ledger :=
  finalize db id used None false.
Definition FinalizeReview (db : Ledger) (id : Z) (hold : ReservationReviewHold) (used : Z) : result Ledger :=
  check! ReservationReviewHold_validate hold;; finalize db id used (Some hold) false.

Definition release (db : Ledger) (reservationID : Z) (hold : option ReservationReviewHold) : result Ledger :=
  try! reservation := lockReservation db reservationID in
  check! enforceReservationHold reservation hold;;
  if status_is reservation StatusReleased then Ok db
  else if status_is reservation StatusFinalized then Err ErrReservationAlreadyFinalized
  else if status_is reservation StatusExpired then Err ErrReservationExpired
  else if status_is reservation StatusRefundPending then
    guard! refundIntentMatches reservation StatusReleased 0 else ErrReservationSettlementConflict;;
    try! now := env.(le_now) 0%nat in
    if backing_off reservation now then Ok db
    else tables (attemptPendingRefundLocked db reservation now)
  else
    guard! status_is reservation StatusReserved || status_is reservation StatusReviewHold
      else ErrReservationSettlementConflict;;
    try! now := env.(le_now) 0%nat in
    if reservation.(cr_Reserved) =? 0
    then tables (markReservationTerminal db reservation StatusReleased 0 now)
    else
      try! (reservation, db) := queueRefundLocked db reservation StatusReleased 0 reservation.(cr_Reserved) now in
      tables (attemptPendingRefundLocked db reservation now).

Definition Release (db : Ledger) (id : Z) : result Ledger := release db id None.
Definition ReleaseReview (db : Ledger) (id : Z) (hold : ReservationReviewHold) : result Ledger :=
  check! ReservationReviewHold_validate hold;; release db id (Some hold).

(** ** Snapshots *)

(** [reservationSettlementSnapshot] copies the columns; the snapshot is a value
    of its own, so the row itself models it. *)
Record ReservationSettlementSnapshot := mkSettlementSnapshot {
  ss_ReservationID : Z; ss_UID : Z; ss_Tool : string; ss_IdempotencyKey : string;
  ss_RequestDigest : string; ss_QuoteID : string; ss_ProjectID : Z;
  ss_Status : string; ss_Reserved : Z; ss_Used : Z;
  ss_HoldReviewID : string; ss_HoldSettlementKey : string; ss_HoldRequestDigest : string;
  ss_ReviewHeldAt : option time;
  ss_RefundTargetStatus : string; ss_RefundTargetUsed : option Z; ss_RefundDue : Z;
  ss_RefundAttempts : Z; ss_NextRefundAt : option time; ss_LastRefundErrorCode : string;
  ss_ExpiresAt : time; ss_FinalizedAt : option time; ss_ReleasedAt : option time;
  ss_StateChangedAt : option time; ss_StateVersion : Z }.

Definition reservationSettlementSnapshot (r : CreditReservation) : ReservationSettlementSnapshot :=
  mkSettlementSnapshot r.(cr_Id) r.(cr_UID) r.(cr_Tool) r.(cr_IdempotencyKey) r.(cr_RequestDigest)
    r.(cr_QuoteID) r.(cr_ProjectID) r.(cr_Status) r.(cr_Reserved) r.(cr_Used)
    r.(cr_HoldReviewID) r.(cr_HoldSettlementKey) r.(cr_HoldRequestDigest) r.(cr_ReviewHeldAt)
    r.(cr_RefundTargetStatus) r.(cr_RefundTargetUsed) r.(cr_RefundDue) r.(cr_RefundAttempts)
    r.(cr_NextRefundAt) r.(cr_LastRefundErrorCode) r.(cr_ExpiresAt) r.(cr_FinalizedAt) r.(cr_ReleasedAt)
    r.(cr_StateChangedAt) r.(cr_StateVersion).

Definition LockSettlementSnapshot (db : Ledger) (reservationID : Z) : result ReservationSettlementSnapshot :=
  try! reservation := lockReservation db reservationID in Ok (reservationSettlementSnapshot reservation).

(** The [...WithResult] variants: the transition, then the snapshot of the row. *)
Definition with_result (r : result Ledger) (reservationID : Z)
    : result (ReservationSettlementSnapshot * Ledger) :=
  try! db := r in
  try! snapshot := LockSettlementSnapshot db reservationID in
  Ok (snapshot, db).

Definition HoldForReviewWithResult (db : Ledger) (id : Z) (hold : ReservationReviewHold) :=
  with_result (HoldForReview db id hold) id.
Definition HoldForReviewAfterTurnAuthorizationWithResult (db : Ledger) (id : Z) (hold : ReservationReviewHold) :=
  with_result (HoldForReviewAfterTurnAuthorization db id hold) id.
Definition FinalizeWithResult (db : Ledger) (id used : Z) := with_result (Finalize db id used) id.
Definition FinalizeAfterTurnAuthorizationWithResult (db : Ledger) (id used : Z) :=
  with_result (FinalizeAfterTurnAuthorization db id used) id.
Definition FinalizeReviewWithResult (db : Ledger) (id : Z) (hold : ReservationReviewHold) (used : Z) :=
  with_result (FinalizeReview db id hold used) id.
Definition ReleaseWithResult (db : Ledger) (id : Z) := with_result (Release db id) id.
Definition ReleaseReviewWithResult (db : Ledger) (id : Z) (hold : ReservationReviewHold) :=
  with_result (ReleaseReview db id hold) id.

(** ** Lookups *)

Definition FindActive (db : Ledger) (uid : Z) (key : string) : result (option CreditReservation) :=
  try! now := env.(le_now) 0%nat in
  check! env.(le_fault) StFindReservation;;
  Ok (first_row (λ r, reservation_key_is uid key r
        && ((status_is r StatusReserved && After r.(cr_ExpiresAt) now) || status_is r StatusReviewHold))
        db.(lg_reservations)).

Definition FindForSettlement (db : Ledger) (uid : Z) (key : string) : result (option CreditReservation) :=
  if (uid <=? 0) || bool_decide (TrimSpace key = "") then Ok None
  else
    check! env.(le_fault) StFindReservation;;
    Ok (first_row (reservation_key_is uid key) db.(lg_reservations)).

(** ** The sweeper *)

Inductive reservationSweepOutcome :=
| reservationSweepSkipped | reservationSweepExtended | reservationSweepTerminal | reservationSweepRefundPending.

Definition task_running (db : Ledger) (candidate : CreditReservation) : bool :=
  match first_row (λ t, (t.(gt_UID) =? candidate.(cr_UID))
                        && bool_decide (t.(gt_TaskID) = candidate.(cr_IdempotencyKey))) db.(lg_tasks) with
  | Some task => (task.(gt_Status) =? TaskStatusPending) || (task.(gt_Status) =? TaskStatusProcessing)
  | None => false
  end.

(** The transaction of one candidate. *)
Definition sweep_body (db : Ledger) (candidate : CreditReservation) (cutoff : time)
    : result (reservationSweepOutcome * Ledger) :=
  check! env.(le_fault) StLockTask;;
  try! reservation := lockReservation db candidate.(cr_Id) in
  try! now := env.(le_now) 1%nat in
  if status_is reservation StatusReviewHold then Ok (reservationSweepSkipped, db)
  else if status_is reservation StatusRefundPending then
    (if backing_off reservation now then Ok (reservationSweepSkipped, db)
     else
       let before := reservation.(cr_RefundAttempts) in
       try! (reservation, db) := attemptPendingRefundLocked db reservation now in
       Ok (if before <? reservation.(cr_RefundAttempts) then reservationSweepRefundPending
           else reservationSweepTerminal, db))
  else if negb (status_is reservation StatusReserved) then Ok (reservationSweepSkipped, db)
  else if negb (Before reservation.(cr_ExpiresAt) cutoff) then Ok (reservationSweepSkipped, db)
  else if task_running db candidate then
    check! env.(le_fault) StExtendReservation;;
    Ok (reservationSweepExtended,
        update_reservation db reservation.(cr_Id) (extend_columns now))
  else if reservation.(cr_Reserved) =? 0 then
    try! (_, db) := markReservationTerminal db reservation StatusExpired 0 now in
    Ok (reservationSweepTerminal, db)
  else
    try! (reservation, db) := queueRefundLocked db reservation StatusExpired 0 reservation.(cr_Reserved) now in
    try! (reservation, db) := attemptPendingRefundLocked db reservation now in
    Ok (if status_is reservation StatusRefundPending then reservationSweepRefundPending
        else reservationSweepTerminal, db).

Definition sweepable (db : Ledger) (cutoff now : time) (r : CreditReservation) : bool :=
  ((status_is r StatusReserved && Before r.(cr_ExpiresAt) cutoff)
   || (status_is r StatusRefundPending && match r.(cr_NextRefundAt) with None => true | Some t => t <=? now end))
  && negb (existsb (Z.eqb r.(cr_Id)) db.(lg_bound)).

(** [CASE WHEN status = 'refund_pending' THEN 0 ELSE 1 END, expires_at, id]. *)
Definition sweep_order (a b : CreditReservation) : bool :=
  let rank r := if status_is r StatusRefundPending then 0 else 1 in
  if negb (rank a =? rank b) then rank a <? rank b
  else if negb (a.(cr_ExpiresAt) =? b.(cr_ExpiresAt)) then a.(cr_ExpiresAt) <? b.(cr_ExpiresAt)
  else a.(cr_Id) <=? b.(cr_Id).

Definition sweep_candidates (db : Ledger) (batchSize : Z) (safetyMargin : Z)
    : result (time * list CreditReservation) :=
  let batchSize := if batchSize <=? 0 then 200 else batchSize in
  try! now := env.(le_now) 0%nat in
  let cutoff := now - safetyMargin in
  check! env.(le_fault) StScanReservations;;
  Ok (cutoff, take (Z.to_nat batchSize) (order_by sweep_order (where_ (sweepable db cutoff now)
                db.(lg_reservations)))).

Definition count_sweep (outcome : reservationSweepOutcome) (counts : Z * Z) : Z * Z :=
  match outcome with
  | reservationSweepTerminal | reservationSweepExtended => (fst counts + 1, snd counts)
  | reservationSweepRefundPending => (fst counts, snd counts + 1)
  | reservationSweepSkipped => counts
  end.
End Reservations.

(** [sweepOne] with what the transaction sees; it rolls back on an error. *)
Definition sweepOne (env : ledger_env) (db : Ledger) (candidate : CreditReservation) (cutoff : time)
    : result reservationSweepOutcome * Ledger :=
  atomic (λ db, sweep_body env db candidate cutoff) db.

(** The loop over the candidates.  [envs] is what the transaction of the i-th
    candidate sees and [others] what other transactions do before it. *)
Fixpoint sweep_loop (envs : nat → ledger_env) (others : nat → Ledger → Ledger) (cutoff : time) (i : nat)
    (rows : list CreditReservation) (db : Ledger) (counts : Z * Z) : (Z * Z) * Ledger :=
  match rows with
  | [] => (counts, db)
  | candidate :: rest =>
    let '(r, db) := sweepOne (envs i) (others i db) candidate cutoff in
    let counts := match r with
                  | Err _ => (fst counts, snd counts + 1)
                  | Ok outcome => count_sweep outcome counts
                  end in
    sweep_loop envs others cutoff (S i) rest db counts
  end.

Definition SweepExpiredReservations (env : ledger_env) (envs : nat → ledger_env)
    (others : nat → Ledger → Ledger) (db : Ledger) (batchSize safetyMargin : Z) : result (Z * Z) * Ledger :=
  match sweep_candidates env db batchSize safetyMargin with
  | Err e => (Err e, db)
  | Ok (cutoff, rows) =>
    let '(counts, db) := sweep_loop envs others cutoff 0 rows db (0, 0) in (Ok counts, db)
  end.
