(* ===== verification/CreditChecks.v ===== *)
(** * The CHECK constraints of the credit tables

    service/agentturn/mysql_schema.go lists the constraints the database must
    carry for the credit tables; they are written here as predicates on rows.
    [lifecycle_time] is stated but depends on the clock never going back. *)

From Stdlib Require Import Ascii.
From S2P Require Import Prelude GoText GoDigest AgentContract TurnTypes ExecutionTypes CreditTables.

Definition chk_credits_used_bounds (p : CreditsPack) : bool :=
  (0 <=? p.(cp_CreditsUsed)) && (p.(cp_CreditsUsed) <=? p.(cp_CreditsTotal)).

Definition chk_w_global_project_budget_credits (p : CanvasProject) : bool :=
  match p.(pj_BudgetCreditsCap) with None => true | Some cap => 0 <=? cap end && (0 <=? p.(pj_BudgetCreditsUsed)).

Definition chk_allocation_credits (a : CreditReservationAllocation) : bool := 0 <? a.(ca_Credits).

(** The empty string stands for NULL. *)
Definition is_null (s : string) : bool := bool_decide (s = "").
Definition is_null_time (t : option time) : bool := bool_decide (t = None).

Definition chk_status (r : CreditReservation) : bool :=
  status_is r StatusReserved || status_is r StatusReviewHold || status_is r StatusRefundPending
  || status_is r StatusFinalized || status_is r StatusReleased || status_is r StatusExpired.

Definition chk_amounts (r : CreditReservation) : bool :=
  (0 <=? r.(cr_Reserved)) && (0 <=? r.(cr_Used)) && (r.(cr_Used) <=? r.(cr_Reserved))
  && (status_is r StatusFinalized || (r.(cr_Used) =? 0))
  && (0 <=? r.(cr_RefundDue)) && (r.(cr_RefundDue) <=? r.(cr_Reserved)).

Definition lower_hex_text (s : string) : bool := forallb hex_char (chars s).

Definition chk_digests (r : CreditReservation) : bool :=
  (is_null r.(cr_RequestDigest)
   || ((len r.(cr_RequestDigest) =? 64) && lower_hex_text r.(cr_RequestDigest)))
  && (is_null r.(cr_HoldRequestDigest)
      || ((len r.(cr_HoldRequestDigest) =? 71) && HasPrefix r.(cr_HoldRequestDigest) "sha256:"
          && lower_hex_text (String.substring 7 (String.length r.(cr_HoldRequestDigest) - 7)
                               r.(cr_HoldRequestDigest)))).

Definition bounded_code (s : string) (max : Z) : bool := is_null s || ((1 <=? len s) && (len s <=? max)).
Definition chk_bounded_codes (r : CreditReservation) : bool :=
  bounded_code r.(cr_HoldReviewID) 256 && bounded_code r.(cr_HoldSettlementKey) 256
  && bounded_code r.(cr_LastRefundErrorCode) 64.

Definition hold_absent (r : CreditReservation) : bool :=
  is_null r.(cr_HoldReviewID) && is_null r.(cr_HoldSettlementKey) && is_null r.(cr_HoldRequestDigest)
  && is_null_time r.(cr_ReviewHeldAt).
Definition hold_present (r : CreditReservation) : bool :=
  negb (is_null r.(cr_HoldReviewID)) && negb (is_null r.(cr_HoldSettlementKey))
  && negb (is_null r.(cr_HoldRequestDigest)) && negb (is_null_time r.(cr_ReviewHeldAt)).

Definition chk_hold_tuple (r : CreditReservation) : bool := hold_absent r || hold_present r.
Definition chk_review_state (r : CreditReservation) : bool :=
  (negb (status_is r StatusReserved) || hold_absent r) && (negb (status_is r StatusReviewHold) || hold_present r).

Definition chk_refund_tuple (r : CreditReservation) : bool :=
  (status_is r StatusRefundPending
   && (bool_decide (r.(cr_RefundTargetStatus) = StatusFinalized)
       || bool_decide (r.(cr_RefundTargetStatus) = StatusReleased)
       || bool_decide (r.(cr_RefundTargetStatus) = StatusExpired))
   && holds_at r.(cr_RefundTargetUsed) (λ used, (0 <=? used) && (used <=? r.(cr_Reserved))
        && (0 <? r.(cr_RefundDue)) && (r.(cr_RefundDue) =? r.(cr_Reserved) - used)
        && (bool_decide (r.(cr_RefundTargetStatus) = StatusFinalized) || (used =? 0)))
   && negb (is_null_time r.(cr_NextRefundAt)))
  || (negb (status_is r StatusRefundPending) && is_null r.(cr_RefundTargetStatus)
      && bool_decide (r.(cr_RefundTargetUsed) = None) && (r.(cr_RefundDue) =? 0)
      && is_null_time r.(cr_NextRefundAt)).

Definition chk_status_time (r : CreditReservation) : bool :=
  ((status_is r StatusReserved || status_is r StatusReviewHold || status_is r StatusRefundPending)
   && is_null_time r.(cr_FinalizedAt) && is_null_time r.(cr_ReleasedAt))
  || (status_is r StatusFinalized && negb (is_null_time r.(cr_FinalizedAt)) && is_null_time r.(cr_ReleasedAt))
  || ((status_is r StatusReleased || status_is r StatusExpired)
      && is_null_time r.(cr_FinalizedAt) && negb (is_null_time r.(cr_ReleasedAt))).

Definition refund_error_codes : list string :=
  ["project_invariant"; "allocation_invalid"; "allocation_incomplete"; "pack_invariant"; "database_error"].

Definition chk_refund_error_code (r : CreditReservation) : bool :=
  is_null r.(cr_LastRefundErrorCode)
  || (status_is r StatusRefundPending
      && existsb (λ code, bool_decide (r.(cr_LastRefundErrorCode) = code)) refund_error_codes).

Definition chk_lifecycle_time (r : CreditReservation) : bool :=
  match r.(cr_ReviewHeldAt) with None => true | Some t => r.(cr_CreatedAt) <=? t end
  && match r.(cr_StateChangedAt) with None => true | Some t => r.(cr_CreatedAt) <=? t end.

(** Every constraint of w_credit_reservation that a row satisfies at any time. *)
Definition reservation_checks (r : CreditReservation) : bool :=
  chk_status r && chk_amounts r && chk_digests r && chk_bounded_codes r && chk_hold_tuple r
  && chk_review_state r && chk_refund_tuple r && chk_status_time r && chk_refund_error_code r.
