(* ===== verification/CreditPackFacts.v ===== *)
(** * Credit packs: what a debit and a refund do to the tables

    [shift_used] adds an amount to the used credits of every pack.  A debit is a
    shift by what [taken] gives, the reference for the allocation loop; a refund
    is a shift back, from the last allocation to the first, so that the first
    [keep] credits of the allocations stay debited ([kept]). *)

From stdpp Require Import sorting.
From S2P Require Import Prelude GoText GoDigest GoTime AgentContract TurnTypes ExecutionTypes SubscriptionCycle CreditTables CreditsPack.

(** ** Credit ledger tables: sums, updates and order

    Lemmas on the statements of [CreditTables] that every proof about the ledger
    uses: sums under an update of one row, fresh ids, and sorting. *)

(** ** Sums *)

Lemma sum_by_app {A} (f : A → Z) l k : sum_by f (l ++ k) = sum_by f l + sum_by f k.
Proof. induction l as [|x l IH]; simpl; [unfold sum_by at 2; simpl; lia|]. unfold sum_by in *. simpl. lia. Qed.

Lemma sum_by_cons {A} (f : A → Z) x l : sum_by f (x :: l) = f x + sum_by f l.
Proof. reflexivity. Qed.

Lemma sum_by_ext {A} (f g : A → Z) l : (∀ x, x ∈ l → f x = g x) → sum_by f l = sum_by g l.
Proof.
  induction l as [|x l IH]; intros H; [done|]. rewrite !sum_by_cons, IH, (H x); [done|left|].
  intros y Hy. apply H. by right.
Qed.

Lemma sum_by_nonneg {A} (f : A → Z) l : (∀ x, x ∈ l → 0 ≤ f x) → 0 ≤ sum_by f l.
Proof.
  induction l as [|x l IH]; intros H; [done|]. rewrite sum_by_cons.
  specialize (H x ltac:(left)) as Hx. assert (0 ≤ sum_by f l); [|lia]. apply IH. intros y ?. apply H. by right.
Qed.

Lemma sum_by_zero {A} (f : A → Z) l : (∀ x, x ∈ l → f x = 0) → sum_by f l = 0.
Proof. intros H. rewrite (sum_by_ext f (λ _, 0) l H). induction l; [done|]. by rewrite sum_by_cons, IHl; [|set_solver]. Qed.

Lemma sum_by_add {A} (f g : A → Z) l : sum_by (λ x, f x + g x) l = sum_by f l + sum_by g l.
Proof. induction l; [done|]. rewrite !sum_by_cons, IHl. lia. Qed.

Lemma sum_by_elem {A} (f : A → Z) l x :
  x ∈ l → (∀ y, y ∈ l → 0 ≤ f y) → f x ≤ sum_by f l.
Proof.
  induction 1 as [x l|x y l Hx IH]; intros H; rewrite sum_by_cons.
  - assert (0 ≤ sum_by f l); [|lia]. apply sum_by_nonneg. intros z ?. apply H. by right.
  - assert (f x ≤ sum_by f l) by (apply IH; intros z ?; apply H; by right). specialize (H y ltac:(left)). lia.
Qed.

Lemma sum_by_filter {A} (f : A → Z) (p : A → bool) l :
  sum_by f (where_ p l) = sum_by (λ x, if p x then f x else 0) l.
Proof. unfold where_. induction l as [|x l IH]; [done|]. simpl List.filter. rewrite sum_by_cons, <- IH. by destruct (p x). Qed.

Lemma sum_by_perm {A} (f : A → Z) l k : l ≡ₚ k → sum_by f l = sum_by f k.
Proof. induction 1; rewrite ?sum_by_cons in *; lia. Qed.

Lemma sum_by_swap {A B} (f : A → B → Z) l k :
  sum_by (λ x, sum_by (f x) k) l = sum_by (λ y, sum_by (λ x, f x y) l) k.
Proof.
  induction l as [|x l IH]; [symmetry; by apply sum_by_zero|].
  rewrite sum_by_cons, IH, <- sum_by_add. by apply sum_by_ext.
Qed.

(** A sum where only one key contributes. *)
Lemma sum_by_single {A} (key : A → Z) (v : A → Z) l x :
  NoDup (map key l) → x ∈ l → sum_by (λ y, if key y =? key x then v y else 0) l = v x.
Proof.
  induction l as [|y l IH]; intros Hn Hx; [by apply not_elem_of_nil in Hx|].
  simpl in Hn. apply NoDup_cons in Hn as [Hy Hn]. rewrite sum_by_cons.
  apply elem_of_cons in Hx as [->|Hx].
  - rewrite Z.eqb_refl, sum_by_zero; [lia|]. intros z Hz. case_match; [|done].
    bool_hyps. destruct Hy. rewrite <- H. by apply list_elem_of_fmap_2.
  - rewrite IH; [|done|done]. case_match; [|lia]. bool_hyps. destruct Hy. rewrite H. by apply list_elem_of_fmap_2.
Qed.

Lemma where_nil {A} (p : A → bool) l : (∀ x, x ∈ l → p x = false) → List.filter p l = [].
Proof.
  induction l as [|x l IH]; intros H; [done|]. simpl. rewrite (H x) by left. apply IH. intros y ?. apply H. by right.
Qed.

(** ** Updates of keyed rows *)

Lemma elem_update_where {A} (p : A → bool) f l y :
  y ∈ update_where p f l ↔ ∃ x, x ∈ l ∧ y = if p x then f x else x.
Proof. unfold update_where. rewrite list_elem_of_fmap. split; intros (x & ? & ?); by exists x. Qed.

Section Keyed.
Context {A : Type} (key : A → Z).

Definition has_key (k : Z) (x : A) : bool := key x =? k.

Lemma update_where_keys {B} (g : A → B) (p : A → bool) f l :
  (∀ x, x ∈ l → p x = true → g (f x) = g x) → map g (update_where p f l) = map g l.
Proof.
  intros H. unfold update_where. rewrite map_map. apply map_ext_in. intros x Hx%list_elem_of_In.
  destruct (p x) eqn:Hp; [|done]. by apply H.
Qed.

Lemma keyed_unique l x y : NoDup (map key l) → x ∈ l → y ∈ l → key x = key y → x = y.
Proof.
  induction l as [|z l IH]; intros Hn Hx Hy He; [by apply not_elem_of_nil in Hx|].
  simpl in Hn. apply NoDup_cons in Hn as [Hz Hn].
  apply elem_of_cons in Hx, Hy. destruct Hx as [->|Hx], Hy as [->|Hy]; auto.
  - destruct Hz. rewrite He. by apply list_elem_of_fmap_2.
  - destruct Hz. rewrite <- He. by apply list_elem_of_fmap_2.
Qed.

Lemma update_where_id (p : A → bool) f l : (∀ x, x ∈ l → p x = true → f x = x) → update_where p f l = l.
Proof.
  intros H. unfold update_where. rewrite <- (map_id l) at 2. apply map_ext_in. intros x Hx%list_elem_of_In.
  destruct (p x) eqn:?; auto.
Qed.

Lemma sum_by_update (v : A → Z) f l x :
  NoDup (map key l) → x ∈ l →
  sum_by v (update_where (has_key (key x)) f l) = sum_by v l - v x + v (f x).
Proof.
  intros Hn. unfold update_where, has_key. induction l as [|y l IH]; intros Hx; [by apply not_elem_of_nil in Hx|].
  simpl in Hn. apply NoDup_cons in Hn as [Hy Hn]. simpl map. rewrite !sum_by_cons.
  apply elem_of_cons in Hx as [->|Hx].
  - rewrite Z.eqb_refl. pose proof (update_where_id (λ z, key z =? key y) f l) as Hid.
    unfold update_where in Hid. rewrite Hid; [lia|]. intros z Hz He. bool_hyps. destruct Hy.
    rewrite <- He. by apply list_elem_of_fmap_2.
  - rewrite IH by done. case_match; [|lia]. bool_hyps. destruct Hy. rewrite H. by apply list_elem_of_fmap_2.
Qed.

Lemma first_row_Some (p : A → bool) l x : first_row p l = Some x → x ∈ l ∧ p x = true.
Proof. intros H. apply List.find_some in H as [?%list_elem_of_In ?]. done. Qed.

Lemma first_row_key l x : NoDup (map key l) → x ∈ l → first_row (has_key (key x)) l = Some x.
Proof.
  intros Hn Hx. destruct (first_row (has_key (key x)) l) as [y|] eqn:E.
  - apply first_row_Some in E as [Hy Hk]. unfold has_key in Hk. bool_hyps. f_equal. by apply (keyed_unique l).
  - eapply List.find_none in E; [|by apply list_elem_of_In]. unfold has_key in E. bool_hyps. done.
Qed.

(** At most one row has a key, so an update guarded by a key touches that row. *)
Lemma affected_keyed (p : A → bool) l x :
  NoDup (map key l) → x ∈ l →
  affected (λ y, has_key (key x) y && p y) l = if p x then 1 else 0.
Proof.
  intros Hn Hx. unfold affected, where_. induction l as [|y l IH]; [by apply not_elem_of_nil in Hx|].
  simpl in Hn. apply NoDup_cons in Hn as [Hy Hn]. simpl. unfold has_key at 1.
  apply elem_of_cons in Hx as [->|Hx].
  - rewrite Z.eqb_refl. simpl. assert (List.filter (λ z, has_key (key y) z && p z) l = []) as E.
    { apply where_nil. intros z Hz. unfold has_key. destruct (key z =? key y) eqn:Hk; [|done].
      bool_hyps. destruct Hy. rewrite <- Hk. by apply list_elem_of_fmap_2. }
    destruct (p y); simpl; by rewrite E.
  - destruct (key y =? key x) eqn:Hk; simpl; [|by apply IH].
    bool_hyps. destruct Hy. rewrite Hk. by apply list_elem_of_fmap_2.
Qed.

Lemma affected_none (p : A → bool) l : (∀ x, x ∈ l → p x = false) → affected p l = 0.
Proof.
  intros H. unfold affected, where_. replace (List.filter p l) with (@nil A); [done|].
  symmetry. by apply where_nil.
Qed.
End Keyed.

Lemma affected_0 {A} (p : A → bool) l x : affected p l = 0 → x ∈ l → p x = false.
Proof.
  unfold affected, where_. intros H Hx. destruct (p x) eqn:Hp; [|done].
  destruct (List.filter p l) eqn:E; [|simpl in H; lia].
  assert (In x (List.filter p l)) as Hin by (apply filter_In; by rewrite <- list_elem_of_In).
  by rewrite E in Hin.
Qed.

(** ** Fresh ids *)

Lemma next_id_gt ids x : x ∈ ids → x < fresh_row_id ids.
Proof. unfold fresh_row_id. induction 1; simpl; lia. Qed.

Lemma next_id_pos ids : 0 < fresh_row_id ids.
Proof. unfold fresh_row_id. assert (0 ≤ foldr Z.max 0 ids); [induction ids; simpl; lia|lia]. Qed.

Lemma fresh_row_id_fresh ids : fresh_row_id ids ∉ ids.
Proof. intros H%next_id_gt. lia. Qed.

(** ** Order *)

Lemma order_by_perm {A} (leb : A → A → bool) l : order_by leb l ≡ₚ l.
Proof. apply merge_sort_Permutation. Qed.

Lemma elem_order_by {A} (leb : A → A → bool) l x : x ∈ order_by leb l ↔ x ∈ l.
Proof. by rewrite order_by_perm. Qed.

Lemma elem_where {A} (p : A → bool) l x : x ∈ where_ p l ↔ x ∈ l ∧ p x = true.
Proof. unfold where_. by rewrite !list_elem_of_In, filter_In. Qed.

Lemma order_by_sorted {A} (leb : A → A → bool) l :
  (∀ a b, leb a b = true ∨ leb b a = true) → Sorted (λ a b, Is_true (leb a b)) (order_by leb l).
Proof. intros H. apply Sorted_merge_sort. intros a b. destruct (H a b) as [->| ->]; [by left|by right]. Qed.

Lemma order_by_key {A} (key : A → Z) l :
  StronglySorted Z.le (map key (order_by (λ a b, key a <=? key b) l)).
Proof.
  apply Sorted_StronglySorted; [intros ???; lia|].
  assert (Hs : Sorted (λ a b, Is_true (key a <=? key b)) (order_by (λ a b, key a <=? key b) l)).
  { apply order_by_sorted. intros a b. rewrite !Z.leb_le. lia. }
  induction Hs as [|a k Hs IH Hh]; [constructor|]. simpl. constructor; [done|].
  destruct Hh as [|b k Hb]; constructor. apply Is_true_true in Hb. by apply Z.leb_le.
Qed.

(** Sorting a list whose keys already increase leaves it alone. *)
Lemma order_by_ascending {A} (key : A → Z) l :
  StronglySorted Z.lt (map key l) → order_by (λ a b, key a <=? key b) l = l.
Proof.
  intros Hs. set (R := λ a b : A, Is_true (key a <=? key b)).
  assert (HR : ∀ a b, R a b ↔ key a ≤ key b) by (intros; unfold R; rewrite Is_true_true; apply Z.leb_le).
  assert (Transitive R) by (intros a b c; rewrite !HR; lia).
  assert (HL : StronglySorted R l).
  { clear -Hs HR. induction l as [|x l IH]; [constructor|]. simpl in Hs. inversion Hs as [|? ? Hl Hx]; subst.
    constructor; [by apply IH|]. apply Forall_forall. intros y Hy. rewrite HR.
    eapply Forall_forall in Hx; [|by apply list_elem_of_fmap_2]. lia. }
  assert (HS : StronglySorted R (order_by (λ a b, key a <=? key b) l)).
  { apply Sorted_StronglySorted; [done|]. apply order_by_sorted. intros a b. rewrite !Z.leb_le. lia. }
  assert (HP := order_by_perm (λ a b, key a <=? key b) l).
  assert (Hn : NoDup (map key l)).
  { clear -Hs. induction l as [|x l IH]; [constructor|]. simpl in *. inversion Hs as [|? ? Hl Hx]; subst.
    apply NoDup_cons. split; [|by apply IH]. intros Hin. eapply Forall_forall in Hx; [|done]. lia. }
  revert HS HP. generalize (order_by (λ a b, key a <=? key b) l). clear Hs. revert Hn HL.
  induction l as [|x l IH]; intros Hn HL k HS HP.
  - by apply Permutation_nil_r in HP.
  - destruct k as [|y k]; [by apply Permutation_nil_l in HP|].
    assert (y = x) as ->.
    { inversion HL as [|? ? HL' Hx]; subst. inversion HS as [|? ? HS' Hy]; subst.
      apply (keyed_unique key (x :: l)); [done| |left|].
      - rewrite <- HP. left.
      - assert (Hxy : x = y ∨ x ∈ k) by (rewrite <- elem_of_cons, HP; left).
        assert (Hyx : y = x ∨ y ∈ l) by (rewrite <- elem_of_cons, <- HP; left).
        destruct Hxy as [Hxy|Hxk]; [by rewrite Hxy|]. destruct Hyx as [Hyx|Hyl]; [by rewrite Hyx|].
        eapply Forall_forall in Hx; [|done]. eapply Forall_forall in Hy; [|done].
        apply HR in Hx. apply HR in Hy. lia. }
    f_equal. apply IH.
    + by apply NoDup_cons in Hn as [_ ?].
    + by inversion HL.
    + by inversion HS.
    + by apply Permutation_cons_inv in HP.
Qed.

Lemma NoDup_where {A B} (g : A → B) (p : A → bool) l : NoDup (map g l) → NoDup (map g (where_ p l)).
Proof.
  unfold where_. induction l as [|x l IH]; intros H; [done|]. simpl in *. apply NoDup_cons in H as [Hx Hl].
  destruct (p x); simpl; [|by apply IH]. apply NoDup_cons. split; [|by apply IH].
  intros (y & Hy & ?)%list_elem_of_fmap. destruct Hx. rewrite Hy. apply list_elem_of_fmap_2.
  by apply (elem_where p l y).
Qed.

#[export] Hint Rewrite @sum_by_cons @sum_by_app : go.

(** ** Credit packs: what a debit and a refund do to the tables

    [shift_used] adds an amount to the used credits of every pack.  A debit is a
    shift by what [taken] gives, the reference for the allocation loop; a refund
    is a shift back, from the last allocation to the first, so that the first
    [keep] credits of the allocations stay debited ([kept]). *)

(** ** Shifting the used credits *)

Definition shift_used (d : Z → Z) (packs : list CreditsPack) : list CreditsPack :=
  map (λ p, set_used p (p.(cp_CreditsUsed) + d p.(cp_Id))) packs.

Lemma set_used_same p : set_used p (p.(cp_CreditsUsed) + 0) = p.
Proof. destruct p. unfold set_used. simpl. f_equal. lia. Qed.

Lemma shift_used_ext d e packs :
  (∀ p, p ∈ packs → d p.(cp_Id) = e p.(cp_Id)) → shift_used d packs = shift_used e packs.
Proof. intros H. apply map_ext_in. intros p ?%list_elem_of_In. by rewrite H. Qed.

Lemma shift_used_0 d packs : (∀ p, p ∈ packs → d p.(cp_Id) = 0) → shift_used d packs = packs.
Proof.
  intros H. unfold shift_used. rewrite <- (map_id packs) at 2. apply map_ext_in. intros p ?%list_elem_of_In.
  rewrite H by done. apply set_used_same.
Qed.

Lemma shift_used_comp d e packs : shift_used e (shift_used d packs) = shift_used (λ i, d i + e i) packs.
Proof.
  unfold shift_used. rewrite map_map. apply map_ext. intros p. unfold set_used. simpl. f_equal. lia.
Qed.

Lemma shift_used_ids d packs : map cp_Id (shift_used d packs) = map cp_Id packs.
Proof. unfold shift_used. by rewrite map_map. Qed.

Lemma elem_shift_used d packs q :
  q ∈ shift_used d packs ↔ ∃ p, p ∈ packs ∧ q = set_used p (p.(cp_CreditsUsed) + d p.(cp_Id)).
Proof. unfold shift_used. rewrite list_elem_of_fmap. naive_solver. Qed.

Lemma elem_shift_same d packs p : p ∈ packs → d p.(cp_Id) = 0 → p ∈ shift_used d packs.
Proof. intros Hp Hd. apply elem_shift_used. exists p. split; [done|]. by rewrite Hd, set_used_same. Qed.

(** A guarded update of one pack whose guard holds. *)
Lemma guarded_update packs pack (g : CreditsPack → bool) c :
  NoDup (map cp_Id packs) → pack ∈ packs → g pack = true →
  update_where (λ p, pack_is pack.(cp_Id) p && g p) (λ p, set_used p (p.(cp_CreditsUsed) + c)) packs
  = shift_used (λ i, if i =? pack.(cp_Id) then c else 0) packs.
Proof.
  intros Hn Hp Hg. unfold update_where, shift_used. apply map_ext_in. intros p Hin%list_elem_of_In.
  unfold pack_is. destruct (p.(cp_Id) =? pack.(cp_Id)) eqn:E; simpl; [|by rewrite set_used_same].
  apply Z.eqb_eq in E. assert (p = pack) as -> by by apply (keyed_unique cp_Id packs). by rewrite Hg.
Qed.

Lemma affected_pack packs pack (g : CreditsPack → bool) :
  NoDup (map cp_Id packs) → pack ∈ packs →
  affected (λ p, pack_is pack.(cp_Id) p && g p) packs = if g pack then 1 else 0.
Proof. intros Hn Hp. apply (affected_keyed cp_Id g packs pack Hn Hp). Qed.

(** ** Debits *)

Definition available (p : CreditsPack) : Z := Z.max 0 (p.(cp_CreditsTotal) - p.(cp_CreditsUsed)).

(** What a cost takes from the pack [i]: the packs pay in their order, each as
    much as it has. *)
Fixpoint taken (i : Z) (packs : list CreditsPack) (cost : Z) : Z :=
  match packs with
  | [] => 0
  | p :: rest =>
    let use := Z.min (available p) cost in
    (if p.(cp_Id) =? i then use else 0) + taken i rest (cost - use)
  end.

Definition credits_of (i : Z) (l : list creditsPackAllocation) : Z :=
  sum_by (λ a, if a.(al_PackID) =? i then a.(al_Credits) else 0) l.

Lemma taken_0 i packs : taken i packs 0 = 0.
Proof.
  induction packs as [|p packs IH]; simpl; [done|]. unfold available.
  replace (Z.min _ 0) with 0 by lia. rewrite Z.sub_0_r, IH. by case_match.
Qed.

Lemma taken_nonneg i packs : ∀ cost, 0 ≤ cost → 0 ≤ taken i packs cost.
Proof.
  induction packs as [|p packs IH]; intros cost Hc; simpl; [lia|].
  assert (0 ≤ taken i packs (cost - Z.min (available p) cost)) by (apply IH; lia).
  assert (0 ≤ available p) by (unfold available; lia). case_match; lia.
Qed.

Lemma taken_other i packs : (∀ p, p ∈ packs → p.(cp_Id) ≠ i) → ∀ cost, taken i packs cost = 0.
Proof.
  induction packs as [|p packs IH]; intros H cost; simpl; [done|].
  rewrite IH by (intros q ?; apply H; by right). specialize (H p ltac:(left)).
  destruct (Z.eqb_spec (cp_Id p) i); [done|lia].
Qed.

(** A pack never pays more than it has. *)
Lemma taken_available packs p : ∀ cost,
  NoDup (map cp_Id packs) → p ∈ packs → 0 ≤ cost → taken p.(cp_Id) packs cost ≤ available p.
Proof.
  induction packs as [|q packs IH]; intros cost Hn Hp Hc; [by apply not_elem_of_nil in Hp|].
  simpl in *. apply NoDup_cons in Hn as [Hq Hn]. apply elem_of_cons in Hp as [->|Hp].
  - rewrite Z.eqb_refl, taken_other; [lia|]. intros r Hr He. destruct Hq. rewrite <- He. by apply list_elem_of_fmap_2.
  - destruct (Z.eqb_spec (cp_Id q) (cp_Id p)) as [He|_].
    + destruct Hq. rewrite He. by apply list_elem_of_fmap_2.
    + rewrite Z.add_0_l. apply IH; [done|done|]. unfold available. lia.
Qed.

(** The used credits of the packs that pay grow by the cost they could cover. *)
Lemma taken_sum packs : ∀ cost, NoDup (map cp_Id packs) → 0 ≤ cost →
  sum_by (λ p, taken p.(cp_Id) packs cost) packs = Z.min cost (sum_by available packs).
Proof.
  induction packs as [|q packs IH]; intros cost Hn Hc; simpl; [unfold sum_by; simpl; lia|].
  simpl in Hn. apply NoDup_cons in Hn as [Hq Hn]. rewrite !sum_by_cons. rewrite Z.eqb_refl.
  rewrite (taken_other (cp_Id q) packs).
  2: { intros r Hr He. destruct Hq. rewrite <- He. by apply list_elem_of_fmap_2. }
  rewrite (sum_by_ext _ (λ p, taken p.(cp_Id) packs (cost - Z.min (available q) cost))).
  2: { intros p Hp. destruct (Z.eqb_spec (cp_Id q) (cp_Id p)) as [He|_]; [|lia].
       destruct Hq. rewrite He. by apply list_elem_of_fmap_2. }
  rewrite IH; [|done|lia].
  assert (0 ≤ sum_by available packs) by (apply sum_by_nonneg; intros; unfold available; lia).
  assert (0 ≤ available q) by (unfold available; lia). lia.
Qed.

Lemma set_packs_set_packs db a b : set_packs (set_packs db a) b = set_packs db b.
Proof. reflexivity. Qed.

Lemma set_packs_same db : set_packs db db.(lg_packs) = db.
Proof. by destruct db. Qed.

Lemma credits_of_cons i a l :
  credits_of i (a :: l) = (if a.(al_PackID) =? i then a.(al_Credits) else 0) + credits_of i l.
Proof. reflexivity. Qed.

(** One round of the allocation loop, with the guarded update as a shift. *)
Lemma debit_packs_head env db pack packs remaining allocs :
  NoDup (map cp_Id db.(lg_packs)) → pack ∈ db.(lg_packs) → 0 < remaining →
  let use := Z.min (available pack) remaining in
  let db' := set_packs db (shift_used (λ i, if pack.(cp_Id) =? i then use else 0) db.(lg_packs)) in
  let allocs' := allocs ++ [mkPackAllocation pack.(cp_Id) use (Z.of_nat (length allocs))] in
  debit_packs env db (pack :: packs) remaining allocs =
    if use =? 0 then debit_packs env db packs remaining allocs
    else check! env.(le_fault) (StDebitPack pack.(cp_Id));;
         if remaining - use =? 0 then Ok (0, allocs', db')
         else debit_packs env db' packs (remaining - use) allocs'.
Proof.
  intros Hdb Hin Hr use db' allocs'. simpl.
  destruct (Z.leb_spec (cp_CreditsTotal pack - cp_CreditsUsed pack) 0) as [Hav|Hav].
  { assert (use = 0) as -> by (unfold use, available; lia). done. }
  assert (Hu : (if remaining <? cp_CreditsTotal pack - cp_CreditsUsed pack then remaining
                else cp_CreditsTotal pack - cp_CreditsUsed pack) = use).
  { unfold use, available. destruct (Z.ltb_spec remaining (cp_CreditsTotal pack - cp_CreditsUsed pack)); lia. }
  rewrite Hu. destruct (Z.eqb_spec use 0) as [H0|_]; [unfold use, available in H0; lia|].
  destruct (le_fault env (StDebitPack (cp_Id pack))); [done|].
  assert (Hg : (cp_CreditsUsed pack + use <=? cp_CreditsTotal pack) = true).
  { apply Z.leb_le. unfold use, available. lia. }
  rewrite (affected_pack (lg_packs db) pack (λ p, cp_CreditsUsed p + use <=? cp_CreditsTotal p)) by done.
  rewrite Hg. simpl.
  rewrite (guarded_update (lg_packs db) pack (λ p, cp_CreditsUsed p + use <=? cp_CreditsTotal p)) by done.
  rewrite (shift_used_ext _ (λ i, if cp_Id pack =? i then use else 0)); [done|].
  intros p _. by rewrite Z.eqb_sym.
Qed.

(** The rest of the packs is not touched by a round. *)
Lemma rest_untouched packs pack (rows : list CreditsPack) c :
  NoDup (map cp_Id (pack :: packs)) → (∀ p, p ∈ pack :: packs → p ∈ rows) →
  ∀ p, p ∈ packs → p ∈ shift_used (λ i, if pack.(cp_Id) =? i then c else 0) rows.
Proof.
  intros Hn Hin p Hp. simpl in Hn. apply NoDup_cons in Hn as [Hx _].
  apply elem_shift_same; [apply Hin; by right|].
  destruct (Z.eqb_spec (cp_Id pack) (cp_Id p)) as [He|_]; [|done].
  destruct Hx. rewrite He. by apply list_elem_of_fmap_2.
Qed.

(** The allocation loop is [taken]: what it writes and what it returns. *)
Lemma debit_packs_spec env packs : ∀ db remaining allocs r,
  NoDup (map cp_Id packs) → NoDup (map cp_Id db.(lg_packs)) →
  (∀ p, p ∈ packs → p ∈ db.(lg_packs)) → 0 < remaining →
  debit_packs env db packs remaining allocs = Ok r →
  ∃ new, r = (remaining - Z.min remaining (sum_by available packs), allocs ++ new,
              set_packs db (shift_used (λ i, taken i packs remaining) db.(lg_packs)))
    ∧ (∀ i, credits_of i new = taken i packs remaining)
    ∧ sum_by al_Credits new = Z.min remaining (sum_by available packs)
    ∧ NoDup (map al_PackID new)
    ∧ (∀ a, a ∈ new → 0 < a.(al_Credits) ∧ ∃ p, p ∈ packs ∧ a.(al_PackID) = p.(cp_Id)).
Proof.
  induction packs as [|pack packs IH]; intros db remaining allocs r Hn Hdb Hin Hr E.
  - injection E as <-. exists []. rewrite app_nil_r, shift_used_0, set_packs_same by done.
    unfold sum_by; simpl. split_and!; [do 2 f_equal; lia|done|lia|constructor|by intros ? ?%not_elem_of_nil].
  - rewrite debit_packs_head in E; [|done|apply Hin; left|done]. cbv zeta in E.
    assert (Hrest := rest_untouched packs pack (lg_packs db) (Z.min (available pack) remaining) Hn Hin).
    simpl in Hn. apply NoDup_cons in Hn as [Hp Hn].
    assert (0 ≤ sum_by available packs) by (apply sum_by_nonneg; intros; unfold available; lia).
    assert (0 ≤ available pack) by (unfold available; lia).
    rewrite sum_by_cons. simpl taken. set (use := Z.min (available pack) remaining) in *.
    destruct (Z.eqb_spec use 0) as [Hz|Hz].
    { assert (Ha : available pack = 0) by lia. rewrite Hz, Ha, Z.sub_0_r.
      apply IH in E as (new & -> & Hc & Hs & Hnd & Hel); [|done|done|intros; apply Hin; by right|done].
      exists new. split_and!; [|intros i; rewrite Hc; by case_match|done|done|].
      - do 2 f_equal. apply shift_used_ext. intros p _. by case_match.
      - intros a Ha'. destruct (Hel a Ha') as (? & p & ? & ?). split; [done|]. exists p. split; [by right|done]. }
    destruct (le_fault env (StDebitPack (cp_Id pack))); [done|].
    set (a := mkPackAllocation pack.(cp_Id) use (Z.of_nat (length allocs))) in *.
    assert (Hab : ∀ b, b = a → 0 < al_Credits b ∧ ∃ p, p ∈ pack :: packs ∧ al_PackID b = cp_Id p).
    { intros b ->. split; [simpl; lia|]. exists pack. split; [left|done]. }
    destruct (Z.eqb_spec (remaining - use) 0) as [Hdone|Hdone].
    + injection E as <-. exists [a]. rewrite Hdone. split_and!.
      * do 2 f_equal; [f_equal; lia|]. apply shift_used_ext. intros p _. by rewrite taken_0, Z.add_0_r.
      * intros i. by rewrite credits_of_cons, taken_0.
      * rewrite sum_by_cons. change (sum_by al_Credits []) with 0. simpl. lia.
      * apply NoDup_singleton.
      * intros b ->%list_elem_of_singleton. by apply Hab.
    + apply IH in E as (new & -> & Hc & Hs & Hnd & Hel); [|done|by simpl; rewrite shift_used_ids|done|lia].
      simpl lg_packs. rewrite set_packs_set_packs, shift_used_comp. exists (a :: new).
      rewrite <- app_assoc. split_and!.
      * do 2 f_equal. lia.
      * intros i. by rewrite credits_of_cons, Hc.
      * rewrite sum_by_cons. simpl al_Credits. lia.
      * simpl. apply NoDup_cons. split; [|done]. intros (b & Hb & Hbin)%list_elem_of_fmap.
        destruct (Hel b Hbin) as (_ & p & Hpin & He). destruct Hp. rewrite Hb, He. by apply list_elem_of_fmap_2.
      * intros b [Hb|Hb]%elem_of_cons; [by apply Hab|].
        destruct (Hel b Hb) as (? & p & ? & ?). split; [done|]. exists p. split; [by right|done].
Qed.

(** Without a fault of the database the loop answers. *)
Lemma debit_packs_total env packs : ∀ db remaining allocs,
  (∀ p, p ∈ packs → env.(le_fault) (StDebitPack p.(cp_Id)) = None) →
  NoDup (map cp_Id packs) → NoDup (map cp_Id db.(lg_packs)) →
  (∀ p, p ∈ packs → p ∈ db.(lg_packs)) → 0 < remaining →
  is_Ok (debit_packs env db packs remaining allocs).
Proof.
  induction packs as [|pack packs IH]; intros db remaining allocs Hf Hn Hdb Hin Hr; [by eexists|].
  rewrite debit_packs_head; [|done|apply Hin; left|done]. cbv zeta. rewrite (Hf pack) by left.
  assert (Hrest := rest_untouched packs pack (lg_packs db) (Z.min (available pack) remaining) Hn Hin).
  simpl in Hn. apply NoDup_cons in Hn as [_ Hn].
  case_match; [|case_match; [by eexists|]].
  - apply IH; try done; intros p ?; [apply Hf|apply Hin]; by right.
  - bool_hyps. apply IH; try done; [intros p ?; apply Hf; by right|by simpl; rewrite shift_used_ids|lia].
Qed.
