(* ===== verification/CreditRefundFacts.v ===== *)
(** * Refunds of allocations

    The refund plan against its reference [kept], and the whole of
    [refundAllocationsTx] on tables whose allocations are sound: it writes exactly
    what the reference says, and fails only when a statement of the database
    fails. *)

From stdpp Require Import sorting.
From S2P Require Import Prelude GoText GoDigest GoTime AgentContract TurnTypes ExecutionTypes CreditTables SubscriptionCycle CreditsPack CreditPackFacts.

(** ** What stays debited *)

Definition allocated (i : Z) (a : CreditReservationAllocation) : Z :=
  if a.(ca_PackID) =? i then a.(ca_Credits) else 0.

(** The credits of pack [i] when the first [keep] credits of the allocations
    stay debited. *)
Fixpoint kept (i : Z) (rows : list CreditReservationAllocation) (keep : Z) : Z :=
  match rows with
  | [] => 0
  | a :: rest =>
    let k := Z.min a.(ca_Credits) keep in
    (if a.(ca_PackID) =? i then k else 0) + kept i rest (keep - k)
  end.

Definition positive_credits (rows : list CreditReservationAllocation) : Prop :=
  Forall (λ a, 0 < a.(ca_Credits)) rows.

Lemma total_nonneg rows : positive_credits rows → 0 ≤ sum_by ca_Credits rows.
Proof. intros H. apply sum_by_nonneg. intros a Ha. eapply Forall_forall in H; [|done]. lia. Qed.

Lemma kept_app i xs ys : ∀ keep, positive_credits xs → 0 ≤ keep →
  kept i (xs ++ ys) keep = kept i xs keep + kept i ys (keep - Z.min (sum_by ca_Credits xs) keep).
Proof.
  induction xs as [|a xs IH]; intros keep Hp Hk.
  - simpl. change (sum_by ca_Credits []) with 0. replace (keep - Z.min 0 keep) with keep by lia. lia.
  - apply Forall_cons in Hp as [Ha Hp]. pose proof (total_nonneg xs Hp). simpl. rewrite IH; [|done|lia].
    rewrite sum_by_cons, Z.add_assoc. f_equal. f_equal. lia.
Qed.

Lemma kept_all i rows keep :
  positive_credits rows → sum_by ca_Credits rows ≤ keep → kept i rows keep = sum_by (allocated i) rows.
Proof.
  intros Hp. revert keep. induction Hp as [|a rows Ha Hp IH]; intros keep Hk; [done|].
  rewrite sum_by_cons in Hk. pose proof (total_nonneg rows Hp). simpl. rewrite IH by lia.
  rewrite sum_by_cons. unfold allocated at 2. case_match; lia.
Qed.

Lemma kept_0 i rows : positive_credits rows → kept i rows 0 = 0.
Proof.
  induction 1 as [|a rows Ha Hp IH]; [done|]. simpl. replace (Z.min _ 0) with 0 by lia.
  rewrite Z.sub_0_r, IH. by case_match.
Qed.

Lemma kept_mono i rows : ∀ k k', 0 ≤ k ≤ k' → positive_credits rows → kept i rows k ≤ kept i rows k'.
Proof.
  induction rows as [|a rows IH]; intros k k' Hk Hp; [done|]. apply Forall_cons in Hp as [Ha Hp]. simpl.
  assert (kept i rows (k - Z.min (ca_Credits a) k) ≤ kept i rows (k' - Z.min (ca_Credits a) k'))
    by (apply IH; [lia|done]).
  case_match; lia.
Qed.

Lemma kept_nonneg i rows k : 0 ≤ k → positive_credits rows → 0 ≤ kept i rows k.
Proof. intros. rewrite <- (kept_0 i rows) by done. apply kept_mono; [lia|done]. Qed.

Lemma kept_other i rows : (∀ a, a ∈ rows → a.(ca_PackID) ≠ i) → ∀ k, kept i rows k = 0.
Proof.
  induction rows as [|a rows IH]; intros H k; [done|]. simpl.
  rewrite IH by (intros b ?; apply H; by right). specialize (H a ltac:(left)).
  destruct (Z.eqb_spec (ca_PackID a) i); [done|lia].
Qed.

Lemma kept_le i rows k :
  0 ≤ k → positive_credits rows → kept i rows k ≤ sum_by (allocated i) rows.
Proof.
  intros Hk Hp. rewrite <- (kept_all i rows (Z.max k (sum_by ca_Credits rows))) by (done || lia).
  apply kept_mono; [lia|done].
Qed.

(** Over packs that contain every allocation, the kept credits add up. *)
Lemma kept_sum rows : ∀ (ids : list Z) k, NoDup ids → (∀ a, a ∈ rows → a.(ca_PackID) ∈ ids) →
  0 ≤ k → positive_credits rows →
  sum_by (λ i, kept i rows k) ids = Z.min k (sum_by ca_Credits rows).
Proof.
  induction rows as [|a rows IH]; intros ids k Hn Hin Hk Hp.
  - simpl. rewrite sum_by_zero by done. change (sum_by ca_Credits []) with 0. lia.
  - apply Forall_cons in Hp as [Ha Hp]. pose proof (total_nonneg rows Hp). rewrite sum_by_cons. simpl.
    rewrite sum_by_add, IH; [|done|intros b ?; apply Hin; by right|lia|done].
    rewrite (sum_by_ext _ (λ i, if i =? ca_PackID a then Z.min (ca_Credits a) k else 0)).
    + rewrite (sum_by_single (λ i, i) (λ _, Z.min (ca_Credits a) k) ids (ca_PackID a)).
      * lia.
      * by rewrite map_id.
      * apply Hin. left.
    + intros i _. by rewrite Z.eqb_sym.
Qed.

(** ** The plan *)

Definition amount (i : Z) (l : list (Z * Z)) : Z := sum_by (λ kv, if fst kv =? i then snd kv else 0) l.

Lemma amount_cons i kv l : amount i (kv :: l) = (if fst kv =? i then snd kv else 0) + amount i l.
Proof. reflexivity. Qed.

Lemma amount_absent i l : i ∉ map fst l → amount i l = 0.
Proof.
  intros H. apply sum_by_zero. intros kv Hkv. destruct (Z.eqb_spec (fst kv) i) as [<-|]; [|done].
  destruct H. by apply list_elem_of_fmap_2.
Qed.

Lemma map_get_amount l i : NoDup (map fst l) → map_get l i = amount i l.
Proof.
  induction l as [|[k v] l IH]; intros Hn; [done|]. simpl in Hn. apply NoDup_cons in Hn as [Hk Hn].
  rewrite amount_cons. unfold map_get in *. simpl. destruct (Z.eqb_spec k i) as [->|].
  - rewrite amount_absent by done. lia.
  - rewrite IH by done. lia.
Qed.

(** The refunds, last allocation first, leave exactly the first credits. *)
Lemma refund_lifo_spec rows : ∀ due,
  positive_credits rows → NoDup (map ca_PackID rows) → 0 ≤ due ≤ sum_by ca_Credits rows →
  ∃ refunds, refund_lifo (rev rows) due = (refunds, 0) ∧ NoDup (map fst refunds)
    ∧ (∀ i, i ∈ map fst refunds → i ∈ map ca_PackID rows)
    ∧ ∀ i, amount i refunds = kept i rows (sum_by ca_Credits rows) - kept i rows (sum_by ca_Credits rows - due).
Proof.
  induction rows as [|a rows IH] using rev_ind; intros due Hp Hn Hd.
  - change (sum_by ca_Credits []) with 0 in Hd. exists []. assert (due = 0) as -> by lia.
    split_and!; [done|constructor|by intros ? ?%not_elem_of_nil|done].
  - apply Forall_app in Hp as [Hp Ha]. apply Forall_cons in Ha as [Ha _]. rewrite map_app in Hn.
    apply NoDup_app in Hn as (Hn & Hna & _). pose proof (total_nonneg rows Hp) as Ht.
    rewrite sum_by_app in *. change (sum_by ca_Credits [a]) with (ca_Credits a + 0) in *.
    rewrite rev_app_distr. simpl refund_lifo. destruct (Z.ltb_spec 0 due) as [Hd0|Hd0].
    + set (refund := if due <? ca_Credits a then due else ca_Credits a).
      assert (Hr : refund = Z.min due (ca_Credits a))
        by (unfold refund; destruct (Z.ltb_spec due (ca_Credits a)); lia).
      clearbody refund. destruct (IH (due - refund)) as (refunds & -> & Hnd & Hsub & Ham); [done|done|lia|].
      exists ((ca_PackID a, refund) :: refunds).
      assert (Hna' : ca_PackID a ∉ map fst refunds).
      { intros Hin%Hsub. apply (Hna _ Hin). by left. }
      split_and!; [done| | |].
      * simpl. by apply NoDup_cons.
      * intros i. simpl. rewrite elem_of_cons, map_app, elem_of_app. intros [->|Hi].
        -- right. simpl. left.
        -- left. by apply Hsub.
      * intros i. rewrite amount_cons, Ham, !kept_app by (done || lia). simpl.
        rewrite (kept_all i rows (sum_by ca_Credits rows + (ca_Credits a + 0))) by (done || lia).
        rewrite (kept_all i rows (sum_by ca_Credits rows)) by (done || lia).
        replace (kept i rows (sum_by ca_Credits rows - (due - refund)))
          with (kept i rows (sum_by ca_Credits rows + (ca_Credits a + 0) - due)).
        -- case_match; lia.
        -- destruct (Z.le_gt_cases due (ca_Credits a)).
           ++ rewrite !kept_all; [done|done|lia|done|lia].
           ++ f_equal. lia.
    + assert (due = 0) as -> by lia. exists []. split_and!; [done|constructor|by intros ? ?%not_elem_of_nil|].
      intros i. rewrite Z.sub_0_r. unfold amount. change (sum_by _ []) with 0. lia.
Qed.

(** The allocations of one reservation, as [buildRefundAllocationPlan] wants
    them. *)
Record allocations_ok (reservationID : Z) (rows : list CreditReservationAllocation) : Prop := {
  ao_rows : Forall (λ a, a.(ca_ReservationID) = reservationID ∧ a.(ca_PackID) ≠ 0 ∧ 0 < a.(ca_Credits)) rows;
  ao_packs : NoDup (map ca_PackID rows);
  ao_total : sum_by ca_Credits rows ≤ max_int }.

Lemma allocations_positive id rows : allocations_ok id rows → positive_credits rows.
Proof. intros [H _ _]. eapply Forall_impl; [done|]. naive_solver. Qed.

Lemma collect_allocations_ok id rows : ∀ byPack total,
  Forall (λ a, a.(ca_ReservationID) = id ∧ a.(ca_PackID) ≠ 0 ∧ 0 < a.(ca_Credits)) rows →
  NoDup (map fst byPack ++ map ca_PackID rows) → total + sum_by ca_Credits rows ≤ max_int →
  collect_allocations id rows byPack total =
    Ok (byPack ++ map (λ a, (a.(ca_PackID), a.(ca_Credits))) rows, total + sum_by ca_Credits rows).
Proof.
  induction rows as [|a rows IH]; intros byPack total Hf Hn Ht.
  - simpl. rewrite app_nil_r. change (sum_by ca_Credits []) with 0. by rewrite Z.add_0_r.
  - apply Forall_cons in Hf as [(Hid & Hpk & Hc) Hf]. rewrite sum_by_cons in *.
    assert (0 ≤ sum_by ca_Credits rows).
    { apply sum_by_nonneg. intros b Hb. eapply Forall_forall in Hf; [|done]. lia. }
    simpl. rewrite Hid, Z.eqb_refl. apply Z.eqb_neq in Hpk. rewrite Hpk. simpl.
    destruct (Z.ltb_spec 0 (ca_Credits a)); [|lia].
    assert (Hh : map_has byPack (ca_PackID a) = false).
    { unfold map_has. apply not_true_is_false. rewrite existsb_exists. intros (kv & Hkv & He).
      apply Z.eqb_eq in He. apply NoDup_app in Hn as (_ & Hn & _). apply (Hn (ca_PackID a)); [|left].
      rewrite <- He. apply list_elem_of_fmap_2. by apply list_elem_of_In. }
    rewrite Hh. simpl. destruct (Z.ltb_spec (max_int - ca_Credits a) total); [lia|]. simpl.
    rewrite IH; [|done| |lia].
    + rewrite <- app_assoc. simpl. do 2 f_equal. lia.
    + rewrite map_app, <- app_assoc. done.
Qed.

(** The plan of a sound allocation set. *)
Lemma plan_ok id rows reserved due :
  allocations_ok id rows → sum_by ca_Credits rows = reserved → 0 < due ≤ reserved →
  ∃ plan, buildRefundAllocationPlan id rows reserved due true = Ok plan
    ∧ plan.(rp_packIDs) = order_by Z.leb (map ca_PackID rows)
    ∧ (∀ i, map_get plan.(rp_allocationByPack) i = sum_by (allocated i) rows)
    ∧ (∀ i, map_get plan.(rp_refundByPack) i = kept i rows reserved - kept i rows (reserved - due)).
Proof.
  intros Hok Ht Hd. pose proof (allocations_positive _ _ Hok) as Hp. destruct Hok as [Hf Hn Hm].
  unfold buildRefundAllocationPlan.
  rewrite collect_allocations_ok; [|done|done|lia]. rewrite Ht, Z.add_0_l, Z.eqb_refl. simpl.
  destruct (Z.ltb_spec reserved due); [lia|]. simpl.
  destruct (refund_lifo_spec rows due) as (refunds & -> & Hnd & _ & Ham); [done|done|lia|].
  simpl. eexists. split; [done|]. simpl.
  assert (Hmap : map fst (map (λ a, (ca_PackID a, ca_Credits a)) rows) = map ca_PackID rows) by by rewrite map_map.
  rewrite Hmap. split_and!; [done| |].
  - intros i. rewrite map_get_amount by by rewrite Hmap. unfold amount.
    clear. induction rows as [|a rows IH]; [done|]. simpl. rewrite !sum_by_cons, IH. done.
  - intros i. rewrite map_get_amount by done. by rewrite Ham, Ht.
Qed.

(** ** The writes *)

(** A result whose only errors are those of the database. *)
Definition only_faults (env : ledger_env) {A} (r : result A) (P : A → Prop) : Prop :=
  match r with
  | Ok a => P a
  | Err e => ∃ st, env.(le_fault) st = Some e
  end.

Lemma refund_packs_head env db id refunds pack packs :
  NoDup (map cp_Id db.(lg_packs)) → pack ∈ db.(lg_packs) →
  map_get refunds pack.(cp_Id) ≤ pack.(cp_CreditsUsed) →
  let refund := map_get refunds pack.(cp_Id) in
  refund_packs env db id refunds (pack :: packs) =
    if refund =? 0 then refund_packs env db id refunds packs
    else check! env.(le_fault) (StRefundPack pack.(cp_Id));;
         refund_packs env
           (set_packs db (shift_used (λ i, if pack.(cp_Id) =? i then - refund else 0) db.(lg_packs)))
           id refunds packs.
Proof.
  intros Hn Hp Hle refund. simpl. fold refund. destruct (refund =? 0); [done|].
  destruct (le_fault env (StRefundPack (cp_Id pack))); [done|].
  assert (Hg : (refund <=? cp_CreditsUsed pack) = true) by by apply Z.leb_le.
  rewrite (affected_pack (lg_packs db) pack (λ p, refund <=? cp_CreditsUsed p)), Hg by done. simpl.
  pose proof (guarded_update (lg_packs db) pack (λ p, refund <=? cp_CreditsUsed p) (- refund) Hn Hp Hg) as Hu.
  unfold Z.sub. rewrite Hu. rewrite (shift_used_ext _ (λ i, if cp_Id pack =? i then - refund else 0)); [done|].
  intros p _. by rewrite Z.eqb_sym.
Qed.

Lemma refund_packs_spec env id refunds packs : ∀ db,
  NoDup (map cp_Id packs) → NoDup (map cp_Id db.(lg_packs)) → (∀ p, p ∈ packs → p ∈ db.(lg_packs)) →
  (∀ p, p ∈ packs → map_get refunds p.(cp_Id) ≤ p.(cp_CreditsUsed)) →
  only_faults env (refund_packs env db id refunds packs) (λ db',
    db' = set_packs db (shift_used
      (λ i, if existsb (Z.eqb i) (map cp_Id packs) then - map_get refunds i else 0) db.(lg_packs))).
Proof.
  induction packs as [|pack packs IH]; intros db Hn Hdb Hin Hle.
  - simpl. by rewrite shift_used_0, set_packs_same.
  - rewrite refund_packs_head; [|done|apply Hin; left|apply Hle; left]. cbv zeta.
    assert (Hrest := rest_untouched packs pack (lg_packs db) (- map_get refunds (cp_Id pack)) Hn Hin).
    simpl in Hn. apply NoDup_cons in Hn as [Hp Hn].
    assert (Hne : existsb (Z.eqb (cp_Id pack)) (map cp_Id packs) = false).
    { apply not_true_is_false. rewrite existsb_exists. intros (x & Hx & He). apply Z.eqb_eq in He as <-.
      destruct Hp. by apply list_elem_of_In. }
    destruct (Z.eqb_spec (map_get refunds (cp_Id pack)) 0) as [H0|H0].
    + specialize (IH db Hn Hdb ltac:(intros; apply Hin; by right) ltac:(intros; apply Hle; by right)).
      destruct (refund_packs _ _ _ _ packs); simpl in IH |- *; [|done]. rewrite IH. f_equal.
      apply shift_used_ext. intros p _. destruct (Z.eqb_spec (cp_Id p) (cp_Id pack)) as [->|]; simpl; [|done].
      rewrite Hne, H0. done.
    + destruct (le_fault env (StRefundPack (cp_Id pack))) eqn:Hf; [by eexists|].
      specialize (IH (set_packs db (shift_used (λ i, if cp_Id pack =? i then - map_get refunds (cp_Id pack) else 0)
                    (lg_packs db))) Hn ltac:(by simpl; rewrite shift_used_ids) Hrest
                    ltac:(intros; apply Hle; by right)).
      destruct (refund_packs _ _ _ _ packs); simpl in IH |- *; [|done]. rewrite IH, set_packs_set_packs, shift_used_comp.
      f_equal. apply shift_used_ext. intros p _. rewrite (Z.eqb_sym (cp_Id pack)).
      destruct (Z.eqb_spec (cp_Id p) (cp_Id pack)) as [->|]; simpl; [rewrite Hne; lia|done].
Qed.

(** The packs locked for a refund are those of the plan, in its order. *)
Lemma locked_packs (packs : list CreditsPack) (ids : list Z) :
  NoDup (map cp_Id packs) → NoDup ids → (∀ i, i ∈ ids → ∃ p, p ∈ packs ∧ p.(cp_Id) = i) →
  map cp_Id (order_by pack_id_le (where_ (λ p, existsb (Z.eqb p.(cp_Id)) (order_by Z.leb ids)) packs))
  = order_by Z.leb ids.
Proof.
  intros Hp Hi Hex. apply (StronglySorted_unique Z.le).
  - apply (order_by_key cp_Id).
  - rewrite <- (map_id (order_by Z.leb ids)). apply (order_by_key (λ i, i)).
  - apply NoDup_Permutation.
    + rewrite order_by_perm. by apply NoDup_where.
    + by rewrite order_by_perm.
    + intros i. rewrite list_elem_of_fmap. setoid_rewrite elem_order_by. setoid_rewrite elem_where. split.
      * intros (p & -> & _ & Hb). apply existsb_exists in Hb as (x & Hx & He).
        apply Z.eqb_eq in He as ->. by apply (elem_order_by Z.leb), list_elem_of_In.
      * intros Hin. destruct (Hex i Hin) as (p & Hpin & <-). exists p. split_and!; [done|done|].
        apply existsb_exists. exists (cp_Id p). split; [|apply Z.eqb_refl].
        apply list_elem_of_In. by apply elem_order_by.
Qed.

Lemma check_packs_None id uid byPack packs :
  (∀ p, p ∈ packs → p.(cp_UID) = uid ∧ 0 ≤ p.(cp_CreditsUsed) ≤ p.(cp_CreditsTotal)
                    ∧ map_get byPack p.(cp_Id) ≤ p.(cp_CreditsUsed)) →
  check_packs id uid true byPack packs (map cp_Id packs) = None.
Proof.
  induction packs as [|p packs IH]; intros H; [done|]. simpl. rewrite Z.eqb_refl. simpl.
  destruct (H p ltac:(left)) as (-> & Hb & Hg). rewrite Z.eqb_refl. simpl.
  destruct (Z.ltb_spec (cp_CreditsUsed p) 0); [lia|]. destruct (Z.ltb_spec (cp_CreditsTotal p) (cp_CreditsUsed p)); [lia|].
  simpl. destruct (Z.ltb_spec (cp_CreditsUsed p) (map_get byPack (cp_Id p))); [lia|].
  apply IH. intros q ?. apply H. by right.
Qed.

Lemma sameRefundAllocationRows_refl rows : sameRefundAllocationRows rows rows = true.
Proof.
  unfold sameRefundAllocationRows. rewrite Nat.eqb_refl. simpl.
  induction rows; simpl; [done|]. by rewrite !Z.eqb_refl, IHrows.
Qed.

Lemma samePackIDs_refl ids : samePackIDs ids ids = true.
Proof. unfold samePackIDs. rewrite Nat.eqb_refl. simpl. induction ids; simpl; [done|]. by rewrite Z.eqb_refl. Qed.

(** What a refund needs to find: the reservation, its allocations, and packs
    that still carry them. *)
Record refundable (db : Ledger) (r : CreditReservation) : Prop := {
  rf_row : r ∈ db.(lg_reservations);
  rf_ids : NoDup (map cr_Id db.(lg_reservations));
  rf_id : 0 < r.(cr_Id);
  rf_uid : 0 < r.(cr_UID);
  rf_allocations : allocations_ok r.(cr_Id) (allocations_of db r.(cr_Id));
  rf_total : sum_by ca_Credits (allocations_of db r.(cr_Id)) = r.(cr_Reserved);
  rf_packs : NoDup (map cp_Id db.(lg_packs));
  rf_own : ∀ a, a ∈ allocations_of db r.(cr_Id) → ∃ p, p ∈ db.(lg_packs) ∧ p.(cp_Id) = a.(ca_PackID)
             ∧ p.(cp_UID) = r.(cr_UID) ∧ 0 ≤ p.(cp_CreditsUsed) ≤ p.(cp_CreditsTotal)
             ∧ a.(ca_Credits) ≤ p.(cp_CreditsUsed) }.

Lemma allocated_single rows a :
  NoDup (map ca_PackID rows) → a ∈ rows → sum_by (allocated a.(ca_PackID)) rows = a.(ca_Credits).
Proof. intros Hn Ha. apply (sum_by_single ca_PackID ca_Credits rows a Hn Ha). Qed.

Section Refundable.
Context (env : ledger_env) (db : Ledger) (r : CreditReservation) (due : Z).
Context (Href : refundable db r) (Hdue : 0 < due ≤ r.(cr_Reserved)).

Let rows := allocations_of db r.(cr_Id).
Let ids := order_by Z.leb (map ca_PackID rows).
Let packs := order_by pack_id_le (where_ (λ p, existsb (Z.eqb p.(cp_Id)) ids) db.(lg_packs)).

Lemma refund_positive : positive_credits rows.
Proof. apply (allocations_positive r.(cr_Id)), Href. Qed.

Lemma refund_ids : map cp_Id packs = ids.
Proof.
  apply locked_packs; [apply Href|apply (ao_packs _ _ (rf_allocations _ _ Href))|].
  intros i (a & -> & Ha)%list_elem_of_fmap. destruct (rf_own _ _ Href a Ha) as (p & ? & ? & _). by exists p.
Qed.

Lemma refund_packs_in p : p ∈ packs → p ∈ db.(lg_packs) ∧ p.(cp_Id) ∈ map ca_PackID rows.
Proof.
  intros Hp. split.
  - by apply elem_order_by, elem_where in Hp as [? _].
  - rewrite <- (elem_order_by Z.leb). fold ids. rewrite <- refund_ids. by apply list_elem_of_fmap_2.
Qed.

Lemma refund_packs_own p : p ∈ packs →
  p.(cp_UID) = r.(cr_UID) ∧ 0 ≤ p.(cp_CreditsUsed) ≤ p.(cp_CreditsTotal)
  ∧ sum_by (allocated p.(cp_Id)) rows ≤ p.(cp_CreditsUsed).
Proof.
  intros [Hp (a & Hpa & Ha)%list_elem_of_fmap]%refund_packs_in.
  destruct (rf_own _ _ Href a Ha) as (q & Hq & Hqa & Hu & Hb & Hc).
  assert (q = p) as -> by (apply (keyed_unique cp_Id (lg_packs db)); [apply Href|done|done|congruence]).
  rewrite Hpa, allocated_single; [done|apply (ao_packs _ _ (rf_allocations _ _ Href))|done].
Qed.

(** The writes of a plan that refunds [due]. *)
Lemma refund_writes refunds :
  (∀ i, map_get refunds i = kept i rows r.(cr_Reserved) - kept i rows (r.(cr_Reserved) - due)) →
  only_faults env (refund_packs env db r.(cr_Id) refunds packs) (λ db',
    db' = set_packs db (shift_used (λ i, kept i rows (r.(cr_Reserved) - due) - kept i rows r.(cr_Reserved))
            db.(lg_packs))).
Proof.
  intros Hget. pose proof refund_positive as Hpos. pose proof (rf_total _ _ Href) as Htot. fold rows in Htot.
  pose proof (refund_packs_spec env (cr_Id r) refunds packs db) as Hspec.
  ospecialize* Hspec.
  - rewrite refund_ids. unfold ids. rewrite order_by_perm. apply (ao_packs _ _ (rf_allocations _ _ Href)).
  - apply Href.
  - by intros p [? _]%refund_packs_in.
  - intros p Hp. rewrite Hget. destruct (refund_packs_own p Hp) as (_ & _ & Hle).
    rewrite <- (kept_all _ _ (cr_Reserved r)) in Hle by (done || lia).
    pose proof (kept_nonneg (cp_Id p) rows (cr_Reserved r - due) ltac:(lia) Hpos). lia.
  - destruct (refund_packs env db _ refunds packs); simpl in Hspec |- *; [|done].
    rewrite Hspec. f_equal. apply shift_used_ext. intros p _. rewrite Hget.
    destruct (existsb (Z.eqb (cp_Id p)) (map cp_Id packs)) eqn:Hb; [lia|].
    assert (Hno : ∀ a, a ∈ rows → ca_PackID a ≠ cp_Id p).
    { intros b Hbin He. apply not_true_iff_false in Hb. destruct Hb. apply existsb_exists. exists (cp_Id p).
      split; [|apply Z.eqb_refl]. apply list_elem_of_In. rewrite refund_ids. unfold ids.
      rewrite elem_order_by, <- He. by apply list_elem_of_fmap_2. }
    rewrite !kept_other by done. lia.
Qed.

(** The refund of a reservation's allocations. *)
Lemma refund_allocations_spec :
  only_faults env
    (RefundAllocationsCheckedTx env db r.(cr_Id) r.(cr_UID) r.(cr_Reserved) due) (λ db',
    db' = set_packs db (shift_used (λ i, kept i rows (r.(cr_Reserved) - due) - kept i rows r.(cr_Reserved))
            db.(lg_packs))).
Proof.
  pose proof (rf_id _ _ Href). pose proof (rf_uid _ _ Href). pose proof (rf_total _ _ Href) as Htot. fold rows in Htot.
  unfold RefundAllocationsCheckedTx, refundAllocationsTx. fold rows.
  destruct (Z.eqb_spec due 0); [lia|]. destruct (Z.eqb_spec (cr_Id r) 0); [lia|]. simpl.
  destruct (Z.ltb_spec due 0); [lia|]. simpl. destruct (Z.leb_spec (cr_UID r) 0); [lia|].
  destruct (Z.leb_spec (cr_Reserved r) 0); [lia|]. destruct (Z.ltb_spec (cr_Reserved r) due); [lia|]. simpl.
  destruct (le_fault env StLockParent) eqn:Hf; [by eexists|].
  pose proof (first_row_key cr_Id (lg_reservations db) r (rf_ids _ _ Href) (rf_row _ _ Href)) as Hfirst.
  unfold has_key in Hfirst. rewrite Hfirst. simpl. rewrite !Z.eqb_refl. simpl.
  destruct (le_fault env StReadAllocations) eqn:Hf2; [by eexists|].
  destruct (Nat.eqb_spec (length rows) 0) as [Hz|_].
  { apply nil_length_inv in Hz. rewrite Hz in Htot. change (sum_by ca_Credits []) with 0 in Htot. lia. }
  simpl. destruct (plan_ok (cr_Id r) rows (cr_Reserved r) due) as (plan & -> & Hpids & Halloc & Hget);
    [apply Href|done|done|].
  simpl. destruct (le_fault env StLockPacks) eqn:Hf3; [by eexists|].
  destruct (le_fault env StLockAllocations) eqn:Hf4; [by eexists|].
  rewrite sameRefundAllocationRows_refl. simpl. rewrite samePackIDs_refl, Hpids. simpl.
  fold ids. fold packs. rewrite <- refund_ids, length_map, Nat.eqb_refl.
  rewrite check_packs_None; [by apply refund_writes|].
  intros p Hp. rewrite Halloc. by apply refund_packs_own.
Qed.
End Refundable.
