(* ===== verification/CreditLedgerFacts.v ===== *)
(** * The ledger invariant

    [ledger_ok]: every reservation is covered by allocations on packs of its
    owner, and the used credits of a pack, and of a project, are exactly what the
    reservations hold there.  [transition] is a move of one row with the money it
    returns. *)

From Stdlib Require Import Ascii.
From stdpp Require Import sorting.
From S2P Require Import Prelude GoText GoDigest GoTime AgentContract TurnTypes ExecutionTypes SubscriptionCycle CreditTables CreditsPack ProjectBudget CreditReservation CreditChecks CreditPackFacts CreditRefundFacts.

(** ** The life of a reservation row

    [row_move] lists what a transaction may do to one reservation; [row_state]
    says what the columns of a reservation look like in each status.  Moves keep
    [row_state], never touch the request columns, and never raise the credits the
    reservation holds. *)

(** ** Columns by status *)

Definition refund_cleared (r : CreditReservation) : Prop :=
  r.(cr_RefundTargetStatus) = "" ∧ r.(cr_RefundTargetUsed) = None ∧ r.(cr_RefundDue) = 0
  ∧ r.(cr_NextRefundAt) = None ∧ r.(cr_LastRefundErrorCode) = "".

Definition open_times (r : CreditReservation) : Prop := r.(cr_FinalizedAt) = None ∧ r.(cr_ReleasedAt) = None.

Definition hold_none (r : CreditReservation) : Prop :=
  hold_of r = mkReviewHold "" "" "" ∧ r.(cr_ReviewHeldAt) = None.
Definition hold_some (r : CreditReservation) : Prop :=
  ReservationReviewHold_validate (hold_of r) = None ∧ is_Some r.(cr_ReviewHeldAt).

Definition terminal_times (r : CreditReservation) : Prop :=
  (r.(cr_Status) = StatusFinalized ∧ is_Some r.(cr_FinalizedAt) ∧ r.(cr_ReleasedAt) = None)
  ∨ ((r.(cr_Status) = StatusReleased ∨ r.(cr_Status) = StatusExpired)
     ∧ r.(cr_FinalizedAt) = None ∧ is_Some r.(cr_ReleasedAt)).

Inductive row_state (r : CreditReservation) : Prop :=
| rs_reserved : r.(cr_Status) = StatusReserved → hold_none r → r.(cr_Used) = 0 → refund_cleared r →
    open_times r → row_state r
| rs_held : r.(cr_Status) = StatusReviewHold → hold_some r → r.(cr_Used) = 0 → refund_cleared r →
    open_times r → row_state r
| rs_pending used : r.(cr_Status) = StatusRefundPending → hold_none r ∨ hold_some r → r.(cr_Used) = 0 →
    known_terminal r.(cr_RefundTargetStatus) = true → r.(cr_RefundTargetUsed) = Some used →
    0 ≤ used < r.(cr_Reserved) → r.(cr_RefundDue) = r.(cr_Reserved) - used →
    (r.(cr_RefundTargetStatus) = StatusFinalized ∨ used = 0) → is_Some r.(cr_NextRefundAt) →
    (r.(cr_LastRefundErrorCode) = "" ∨ r.(cr_LastRefundErrorCode) ∈ refund_error_codes) →
    open_times r → row_state r
| rs_closed : known_terminal r.(cr_Status) = true → hold_none r ∨ hold_some r →
    0 ≤ r.(cr_Used) ≤ r.(cr_Reserved) → (r.(cr_Status) = StatusFinalized ∨ r.(cr_Used) = 0) →
    refund_cleared r → terminal_times r → row_state r.

Record reservation_ok (r : CreditReservation) : Prop := {
  ro_id : 0 < r.(cr_Id);
  ro_uid : 0 < r.(cr_UID);
  ro_reserved : 0 ≤ r.(cr_Reserved) ≤ maxReservationSchemaInt;
  ro_digest : len r.(cr_RequestDigest) = 64 ∧ lower_hex_text r.(cr_RequestDigest) = true;
  ro_state : row_state r }.

(** Two different statuses of the same row. *)
Ltac clash :=
  exfalso;
  match goal with
  | H : cr_Status ?r = _, H' : cr_Status ?r = _ |- _ => rewrite H in H'; discriminate H'
  | H : cr_Status ?r = _, H' : known_terminal (cr_Status ?r) = _ |- _ => rewrite H in H'; discriminate H'
  end.

(** ** Moves *)

Definition open_status (r : CreditReservation) : Prop :=
  r.(cr_Status) = StatusReserved ∨ r.(cr_Status) = StatusReviewHold.

Definition next_attempt (r : CreditReservation) : Z := u64 (r.(cr_RefundAttempts) + 1).

Inductive row_move (r : CreditReservation) : CreditReservation → Prop :=
| mv_hold hold now : r.(cr_Status) = StatusReserved → ReservationReviewHold_validate hold = None →
    row_move r (hold_columns hold now r)
| mv_extend now : r.(cr_Status) = StatusReserved → row_move r (extend_columns now r)
| mv_queue target used now : open_status r → known_terminal target = true → 0 ≤ used < r.(cr_Reserved) →
    (target = StatusFinalized ∨ used = 0) →
    row_move r (queue_columns target used (r.(cr_Reserved) - used) now r)
| mv_retry code now : r.(cr_Status) = StatusRefundPending → code ∈ refund_error_codes →
    row_move r (failed_columns (next_attempt r) (now + refundRetryBackoff (next_attempt r)) code now r)
| mv_refunded used now : r.(cr_Status) = StatusRefundPending → r.(cr_RefundTargetUsed) = Some used →
    row_move r (terminal_columns r.(cr_RefundTargetStatus) used now r)
| mv_close status now : open_status r → known_terminal status = true →
    (status = StatusFinalized ∨ r.(cr_Reserved) = 0) →
    row_move r (terminal_columns status r.(cr_Reserved) now r).

(** The request of a reservation: the columns no move writes. *)
Definition request_of (r : CreditReservation) :=
  (r.(cr_Id), r.(cr_CreatedAt), r.(cr_UID), r.(cr_Tool), r.(cr_IdempotencyKey), r.(cr_RequestDigest),
   r.(cr_QuoteID), r.(cr_Reserved), r.(cr_Remark), r.(cr_ProjectID)).

Lemma row_move_request r r' : row_move r r' → request_of r' = request_of r.
Proof. by destruct 1. Qed.

(** The credits a reservation holds: all it reserved until it is settled, then
    what was used. *)
Definition held_units (r : CreditReservation) : Z := if IsActiveDebited r then r.(cr_Reserved) else r.(cr_Used).

Lemma active_held r :
  r.(cr_Status) = StatusReserved ∨ r.(cr_Status) = StatusReviewHold ∨ r.(cr_Status) = StatusRefundPending →
  held_units r = r.(cr_Reserved).
Proof. unfold held_units, IsActiveDebited, IsHeld, IsRefundPending, status_is. by intros [->|[->| ->]]. Qed.

Lemma known_terminal_cases s :
  known_terminal s = true → s = StatusFinalized ∨ s = StatusReleased ∨ s = StatusExpired.
Proof. unfold known_terminal. rewrite !orb_true_iff, !bool_decide_eq_true. tauto. Qed.

Lemma closed_held r : known_terminal r.(cr_Status) = true → held_units r = r.(cr_Used).
Proof.
  unfold held_units, IsActiveDebited, IsHeld, IsRefundPending, status_is.
  by intros [->|[->| ->]]%known_terminal_cases.
Qed.

Lemma held_bounds r : reservation_ok r → 0 ≤ held_units r ≤ r.(cr_Reserved).
Proof.
  intros [_ _ Hr _ []]; [rewrite active_held by auto|rewrite active_held by auto|
    rewrite active_held by auto|rewrite closed_held by done]; lia.
Qed.

Lemma row_state_open r : row_state r → open_status r →
  (hold_none r ∨ hold_some r) ∧ r.(cr_Used) = 0 ∧ refund_cleared r ∧ open_times r.
Proof.
  intros Hs Ho. destruct Hs as [ | | | Hk]; [naive_solver|naive_solver| |].
  - destruct Ho; clash.
  - destruct Ho; clash.
Qed.

Lemma row_state_pending r : row_state r → r.(cr_Status) = StatusRefundPending → ∃ used,
  (hold_none r ∨ hold_some r) ∧ r.(cr_Used) = 0 ∧ known_terminal r.(cr_RefundTargetStatus) = true
  ∧ r.(cr_RefundTargetUsed) = Some used ∧ 0 ≤ used < r.(cr_Reserved)
  ∧ r.(cr_RefundDue) = r.(cr_Reserved) - used ∧ (r.(cr_RefundTargetStatus) = StatusFinalized ∨ used = 0)
  ∧ open_times r.
Proof.
  intros Hs Hp. destruct Hs as [ | |used|Hk]; [clash|clash|naive_solver|clash].
Qed.

Lemma terminal_columns_times status used now r :
  open_times r → known_terminal status = true → terminal_times (terminal_columns status used now r).
Proof.
  intros [Hf Hr] [->|[->| ->]]%known_terminal_cases; unfold terminal_times; simpl; rewrite ?Hf, ?Hr;
    [left|right|right]; naive_solver.
Qed.

Lemma terminal_columns_state status used now r :
  (hold_none r ∨ hold_some r) → open_times r → known_terminal status = true →
  0 ≤ used ≤ r.(cr_Reserved) → (status = StatusFinalized ∨ used = 0) →
  row_state (terminal_columns status used now r).
Proof.
  intros Hh Ho Hk Hu Hz. apply rs_closed; try done. by apply terminal_columns_times.
Qed.

Lemma row_move_state r r' : reservation_ok r → row_move r r' → row_state r'.
Proof.
  intros [_ _ Hres _ Hs]. destruct 1 as [hold now Hst Hv|now Hst|target used now Ho Hk Hu Ht
    |code now Hst Hc|used now Hst Hu|status now Ho Hk Hz].
  - destruct (row_state_open r Hs ltac:(by left)) as (_ & ? & ? & ?).
    by destruct hold; apply rs_held.
  - destruct Hs as [ | | |Hk]; [by apply rs_reserved|clash|clash|clash].
  - destruct (row_state_open r Hs Ho) as (? & ? & ? & ?). apply (rs_pending _ used); try done; by left.
  - destruct Hs as [ | |used|Hk]; [clash|clash| |clash].
    apply (rs_pending _ used); try done; by right.
  - destruct (row_state_pending r Hs Hst) as (u & ? & ? & ? & ? & ? & ? & ? & ?).
    assert (u = used) as -> by congruence. apply terminal_columns_state; try done. lia.
  - destruct (row_state_open r Hs Ho) as (? & ? & ? & ?). apply terminal_columns_state; try done. lia.
Qed.

Lemma row_move_ok r r' : reservation_ok r → row_move r r' → reservation_ok r'.
Proof.
  intros Hok Hm. pose proof (row_move_state r r' Hok Hm) as Hs. apply row_move_request in Hm.
  injection Hm as E1 _ E2 _ _ E3 _ E4 _ _. destruct Hok. split; [congruence|congruence|congruence| |done].
  by rewrite E3.
Qed.

Lemma row_move_held r r' : reservation_ok r → row_move r r' → 0 ≤ held_units r' ≤ held_units r.
Proof.
  intros Hok Hm. pose proof (held_bounds r' (row_move_ok r r' Hok Hm)) as Hb.
  assert (Hres : cr_Reserved r' = cr_Reserved r) by (apply row_move_request in Hm; by injection Hm).
  rewrite (active_held r); [lia|]. destruct Hm as [| |? ? ? [] | | |? ? []]; auto.
Qed.

(** A move changes what the row holds only when it settles the row. *)
Lemma row_move_held_same r r' :
  reservation_ok r → row_move r r' → known_terminal r'.(cr_Status) = false → held_units r' = held_units r.
Proof.
  intros Hok Hm Ht. destruct Hm as [hold now Hst|now Hst|target used now Ho|code now Hst|used now Hst Hu|status now Ho Hk].
  - rewrite !active_held; auto.
  - rewrite !active_held; auto.
  - rewrite !active_held; auto. destruct Ho; auto.
  - rewrite !active_held; auto.
  - destruct (row_state_pending r (ro_state r Hok) Hst) as (u & _ & _ & Hk & _). simpl in Ht. congruence.
  - simpl in Ht. congruence.
Qed.

(** ** The ledger invariant

    [ledger_ok]: every reservation is covered by allocations on packs of its
    owner, and the used credits of a pack, and of a project, are exactly what the
    reservations hold there.  [transition] is a move of one row with the money it
    returns. *)

(** ** Debts *)

Definition pack_debt (db : Ledger) (i : Z) : Z :=
  sum_by (λ r, kept i (allocations_of db r.(cr_Id)) (held_units r)) db.(lg_reservations).

Definition project_debt (db : Ledger) (i : Z) : Z :=
  sum_by (λ r, if r.(cr_ProjectID) =? i then held_units r else 0) db.(lg_reservations).

Definition owner_key (r : CreditReservation) : Z * string := (r.(cr_UID), r.(cr_IdempotencyKey)).

Record ledger_ok (db : Ledger) : Prop := {
  lo_packs : NoDup (map cp_Id db.(lg_packs));
  lo_pack_pos : ∀ p, p ∈ db.(lg_packs) → 0 < p.(cp_Id);
  lo_projects : NoDup (map pj_Id db.(lg_projects));
  lo_project_pos : ∀ j, j ∈ db.(lg_projects) → 0 < j.(pj_Id);
  lo_reservations : NoDup (map cr_Id db.(lg_reservations));
  lo_keys : NoDup (map owner_key db.(lg_reservations));
  lo_rows : ∀ r, r ∈ db.(lg_reservations) → reservation_ok r;
  lo_allocation_ids : StronglySorted Z.lt (map ca_Id db.(lg_allocations));
  lo_parent : ∀ a, a ∈ db.(lg_allocations) → a.(ca_ReservationID) ∈ map cr_Id db.(lg_reservations);
  lo_allocations : ∀ r, r ∈ db.(lg_reservations) →
    allocations_ok r.(cr_Id) (allocations_of db r.(cr_Id))
    ∧ sum_by ca_Credits (allocations_of db r.(cr_Id)) = r.(cr_Reserved);
  lo_owner : ∀ r a, r ∈ db.(lg_reservations) → a ∈ allocations_of db r.(cr_Id) →
    ∃ p, p ∈ db.(lg_packs) ∧ p.(cp_Id) = a.(ca_PackID) ∧ p.(cp_UID) = r.(cr_UID);
  lo_project : ∀ r, r ∈ db.(lg_reservations) → 0 < r.(cr_ProjectID) → 0 < r.(cr_Reserved) →
    ∃ j, j ∈ db.(lg_projects) ∧ j.(pj_Id) = r.(cr_ProjectID) ∧ j.(pj_UID) = r.(cr_UID);
  lo_used : ∀ p, p ∈ db.(lg_packs) → p.(cp_CreditsUsed) = pack_debt db p.(cp_Id);
  lo_bound : ∀ p, p ∈ db.(lg_packs) → p.(cp_CreditsUsed) ≤ p.(cp_CreditsTotal);
  lo_budget : ∀ j, j ∈ db.(lg_projects) → j.(pj_BudgetCreditsUsed) = project_debt db j.(pj_Id) }.

Lemma empty_ledger_ok : ledger_ok empty_ledger.
Proof.
  split; simpl; try constructor; try (by intros ? ?%not_elem_of_nil); try (by intros ? ? ?%not_elem_of_nil);
    by apply not_elem_of_nil in H.
Qed.

Lemma allocations_positive_of db r :
  ledger_ok db → r ∈ db.(lg_reservations) → positive_credits (allocations_of db r.(cr_Id)).
Proof. intros Hok Hr. apply (allocations_positive r.(cr_Id)), (lo_allocations db Hok r Hr). Qed.

(** One reservation's share of a pack is at most what the pack has used. *)
Lemma share_le db r i :
  ledger_ok db → r ∈ db.(lg_reservations) →
  kept i (allocations_of db r.(cr_Id)) (held_units r) ≤ pack_debt db i.
Proof.
  intros Hok Hr. apply (sum_by_elem (λ r, kept i (allocations_of db r.(cr_Id)) (held_units r))); [done|].
  intros x Hx. apply kept_nonneg; [apply (held_bounds x), (lo_rows db Hok x Hx)|by apply allocations_positive_of].
Qed.

Lemma project_share_le db r :
  ledger_ok db → r ∈ db.(lg_reservations) → held_units r ≤ project_debt db r.(cr_ProjectID).
Proof.
  intros Hok Hr. unfold project_debt.
  transitivity (if cr_ProjectID r =? cr_ProjectID r then held_units r else 0); [by rewrite Z.eqb_refl|].
  apply (sum_by_elem (λ x, if cr_ProjectID x =? cr_ProjectID r then held_units x else 0)); [done|].
  intros x Hx. pose proof (held_bounds x (lo_rows db Hok x Hx)). case_match; lia.
Qed.

Lemma pack_debt_nonneg db i : ledger_ok db → 0 ≤ pack_debt db i.
Proof.
  intros Hok. apply sum_by_nonneg. intros r Hr.
  apply kept_nonneg; [apply (held_bounds r), (lo_rows db Hok r Hr)|by apply allocations_positive_of].
Qed.

(** An open or pending reservation can be refunded. *)
Lemma active_refundable db r :
  ledger_ok db → r ∈ db.(lg_reservations) → held_units r = r.(cr_Reserved) → refundable db r.
Proof.
  intros Hok Hr Hh. pose proof (lo_rows db Hok r Hr) as [? ? ? _ _].
  pose proof (lo_allocations db Hok r Hr) as [Hall Htot].
  split; try done; [apply Hok|apply Hok|].
  intros a Ha. destruct (lo_owner db Hok r a Hr Ha) as (p & Hp & Hid & Hu).
  exists p. split_and!; try done.
  - rewrite (lo_used db Hok p Hp). by apply pack_debt_nonneg.
  - by apply (lo_bound db Hok).
  - rewrite (lo_used db Hok p Hp), <- (allocated_single (allocations_of db (cr_Id r)) a), <- Hid;
      [|apply Hall|done].
    rewrite <- (kept_all (cp_Id p) _ (held_units r)); [by apply share_le| |lia].
    by apply allocations_positive_of.
Qed.

(** ** Moves with their money *)

Lemma request_fields x y : request_of x = request_of y →
  x.(cr_Id) = y.(cr_Id) ∧ x.(cr_UID) = y.(cr_UID) ∧ x.(cr_IdempotencyKey) = y.(cr_IdempotencyKey)
  ∧ x.(cr_Reserved) = y.(cr_Reserved) ∧ x.(cr_ProjectID) = y.(cr_ProjectID).
Proof. intros H. by injection H. Qed.

Definition shift_budget (d : Z → Z) (projects : list CanvasProject) : list CanvasProject :=
  map (λ j, add_spent (d j.(pj_Id)) j) projects.

Lemma shift_budget_ext d e projects :
  (∀ j, j ∈ projects → d j.(pj_Id) = e j.(pj_Id)) → shift_budget d projects = shift_budget e projects.
Proof. intros H. apply map_ext_in. intros j Hj%list_elem_of_In. by rewrite H. Qed.

Lemma shift_budget_0 d projects : (∀ j, j ∈ projects → d j.(pj_Id) = 0) → shift_budget d projects = projects.
Proof.
  intros H. unfold shift_budget. rewrite <- (map_id projects) at 2. apply map_ext_in. intros j Hj%list_elem_of_In.
  rewrite H by done. destruct j. unfold add_spent. simpl. f_equal. lia.
Qed.

Definition transition (db : Ledger) (r : CreditReservation) (f : CreditReservation → CreditReservation) : Ledger :=
  let rows := allocations_of db r.(cr_Id) in
  update_reservation
    (set_packs
       (set_projects db (shift_budget (λ i, if r.(cr_ProjectID) =? i then held_units (f r) - held_units r else 0)
          db.(lg_projects)))
       (shift_used (λ i, kept i rows (held_units (f r)) - kept i rows (held_units r)) db.(lg_packs)))
    r.(cr_Id) f.

(** Without money, a transition only writes the row. *)
Lemma transition_row db r f :
  held_units (f r) = held_units r → transition db r f = update_reservation db r.(cr_Id) f.
Proof.
  intros H. unfold transition. rewrite H. rewrite shift_budget_0; [|intros j _; case_match; lia].
  rewrite shift_used_0; [by destruct db|intros; lia].
Qed.

Section Transition.
Context (db : Ledger) (r : CreditReservation) (f : CreditReservation → CreditReservation).
Context (Hok : ledger_ok db) (Hr : r ∈ db.(lg_reservations)) (Hreq : request_of (f r) = request_of r).
Context (Hrow : reservation_ok (f r)) (Hheld : held_units (f r) ≤ held_units r).

Lemma transition_elem x :
  x ∈ (transition db r f).(lg_reservations) →
  (x = f r ∨ (x ∈ db.(lg_reservations) ∧ x.(cr_Id) ≠ r.(cr_Id))).
Proof.
  simpl. rewrite elem_update_where. intros (y & Hy & ->). unfold reservation_is.
  destruct (Z.eqb_spec (cr_Id y) (cr_Id r)) as [He|]; [|by right].
  left. f_equal. by apply (keyed_unique cr_Id db.(lg_reservations)); [apply Hok| | |].
Qed.

(** Columns of the request agree before and after, for every row. *)
Lemma transition_request x :
  x ∈ (transition db r f).(lg_reservations) → ∃ y, y ∈ db.(lg_reservations) ∧ request_of x = request_of y.
Proof. intros [->|[Hx _]]%transition_elem; [by exists r|by exists x]. Qed.

Lemma transition_map {B} (g : CreditReservation → B) :
  (∀ x y, request_of x = request_of y → g x = g y) →
  map g (transition db r f).(lg_reservations) = map g db.(lg_reservations).
Proof.
  intros Hg. simpl. apply update_where_keys. intros x Hx Hp. unfold reservation_is in Hp. bool_hyps.
  apply Hg. assert (x = r) as -> by (by apply (keyed_unique cr_Id db.(lg_reservations)); [apply Hok| | |]). done.
Qed.

Lemma transition_sum (v : CreditReservation → Z) :
  sum_by v (transition db r f).(lg_reservations) = sum_by v db.(lg_reservations) - v r + v (f r).
Proof. apply (sum_by_update cr_Id v f); [apply Hok|done]. Qed.

Lemma transition_ok : ledger_ok (transition db r f).
Proof.
  destruct (request_fields _ _ Hreq) as (Eid & Euid & Ekey & Eres & Eprj). split.
  - simpl. rewrite shift_used_ids. apply Hok.
  - simpl. intros p (q & Hq & ->)%elem_shift_used. by apply (lo_pack_pos db Hok q).
  - simpl. unfold shift_budget. rewrite map_map. apply Hok.
  - simpl. intros j (k & -> & Hk)%list_elem_of_fmap. by apply (lo_project_pos db Hok k).
  - rewrite transition_map; [apply Hok|]. by intros x y (? & _)%request_fields.
  - rewrite transition_map; [apply Hok|]. intros x y (_ & ? & ? & _)%request_fields. unfold owner_key. congruence.
  - intros x [->|[Hx _]]%transition_elem; [done|by apply (lo_rows db Hok)].
  - apply Hok.
  - intros a Ha. rewrite transition_map; [by apply (lo_parent db Hok)|]. by intros x y (? & _)%request_fields.
  - intros x (y & Hy & (-> & _ & _ & -> & _)%request_fields)%transition_request. by apply (lo_allocations db Hok).
  - intros x a (y & Hy & (-> & -> & _)%request_fields)%transition_request Ha.
    destruct (lo_owner db Hok y a Hy Ha) as (p & Hp & ? & ?).
    eexists. split; [apply elem_shift_used; by exists p|done].
  - intros x (y & Hy & (_ & -> & _ & -> & ->)%request_fields)%transition_request ? ?.
    destruct (lo_project db Hok y Hy) as (j & Hj & ? & ?); [done|done|].
    eexists. split; [by apply list_elem_of_fmap_2|done].
  - intros p (q & Hq & ->)%elem_shift_used. simpl cp_CreditsUsed. simpl cp_Id. unfold pack_debt.
    rewrite transition_sum. rewrite (lo_used db Hok q Hq). unfold pack_debt.
    change (allocations_of (transition db r f)) with (allocations_of db). rewrite Eid. lia.
  - intros p (q & Hq & ->)%elem_shift_used. simpl. pose proof (lo_bound db Hok q Hq).
    pose proof (held_bounds (f r) Hrow). pose proof (allocations_positive_of db r Hok Hr) as Hpos.
    pose proof (kept_mono (cp_Id q) _ (held_units (f r)) (held_units r) ltac:(lia) Hpos). lia.
  - intros j (k & -> & Hk)%list_elem_of_fmap. simpl. rewrite (lo_budget db Hok k Hk). unfold project_debt.
    rewrite transition_sum, Eprj. case_match; lia.
Qed.
End Transition.
