(* ===== verification/CreditOperationFacts.v ===== *)
(** * Operations of the reservation service as moves

    Every settlement operation that succeeds is a sequence of [ledger_move]s of
    its reservation; a refund attempt that meets no fault of the database ends in
    the target it was queued for. *)

From Stdlib Require Import Ascii.
From stdpp Require Import sorting.
From S2P Require Import Prelude GoText GoDigest GoTime AgentContract TurnTypes ExecutionTypes CreditTables SubscriptionCycle CreditsPack ProjectBudget CreditReservation CreditChecks CreditPackFacts CreditRefundFacts CreditLedgerFacts.

Inductive ledger_move (id : Z) (db : Ledger) : Ledger → Prop :=
| lm_move r f : r ∈ db.(lg_reservations) → r.(cr_Id) = id → row_move r (f r) →
    ledger_move id db (transition db r f).

Lemma ledger_move_ok id db db' : ledger_ok db → ledger_move id db db' → ledger_ok db'.
Proof.
  intros Hok [r f Hr _ Hm]. pose proof (lo_rows db Hok r Hr) as Hrow. apply transition_ok; try done.
  - by apply row_move_request.
  - by apply (row_move_ok r).
  - by apply (row_move_held r).
Qed.

Lemma ledger_moves_ok id db db' : ledger_ok db → rtc (ledger_move id) db db' → ledger_ok db'.
Proof. intros Hok H. induction H; [done|]. eauto using ledger_move_ok. Qed.

(** The row a move leaves behind. *)
Lemma transition_row_of db r f :
  r ∈ db.(lg_reservations) → f r ∈ (transition db r f).(lg_reservations).
Proof.
  intros Hr. simpl. apply elem_update_where. exists r. split; [done|]. unfold reservation_is. by rewrite Z.eqb_refl.
Qed.

(** ** Struct and row *)

(** The struct of a function and the row agree on every column but the two
    stamps, which the code does not copy back. *)
Definition unstamped (r : CreditReservation) : CreditReservation :=
  with_state r r.(cr_Used) r.(cr_Status) r.(cr_ExpiresAt) r.(cr_FinalizedAt) r.(cr_ReleasedAt) (hold_of r)
    r.(cr_ReviewHeldAt) r.(cr_RefundTargetStatus) r.(cr_RefundTargetUsed) r.(cr_RefundDue)
    r.(cr_RefundAttempts) r.(cr_NextRefundAt) r.(cr_LastRefundErrorCode) None 0.

Definition agrees (m r : CreditReservation) : Prop := unstamped m = unstamped r.

Record same_columns (m r : CreditReservation) : Prop := {
  sc_id : m.(cr_Id) = r.(cr_Id);
  sc_uid : m.(cr_UID) = r.(cr_UID);
  sc_reserved : m.(cr_Reserved) = r.(cr_Reserved);
  sc_project : m.(cr_ProjectID) = r.(cr_ProjectID);
  sc_status : m.(cr_Status) = r.(cr_Status);
  sc_target : m.(cr_RefundTargetStatus) = r.(cr_RefundTargetStatus);
  sc_targetUsed : m.(cr_RefundTargetUsed) = r.(cr_RefundTargetUsed);
  sc_due : m.(cr_RefundDue) = r.(cr_RefundDue);
  sc_attempts : m.(cr_RefundAttempts) = r.(cr_RefundAttempts) }.

Lemma agrees_columns m r : agrees m r → same_columns m r.
Proof. intros H. unfold agrees, unstamped, with_state in H. injection H. intros. by split. Qed.

(** ** Money *)

Lemma refund_budget_spec env db r due :
  ledger_ok db → r ∈ db.(lg_reservations) → held_units r = r.(cr_Reserved) →
  0 < r.(cr_ProjectID) → 0 < due ≤ r.(cr_Reserved) →
  only_faults env (RefundBudgetSpentExact env db r.(cr_ProjectID) r.(cr_UID) due) (λ db',
    db' = set_projects db (shift_budget (λ i, if r.(cr_ProjectID) =? i then - due else 0) db.(lg_projects))).
Proof.
  intros Hok Hr Hh Hp Hd. pose proof (lo_rows db Hok r Hr) as [_ Hu _ _ _].
  destruct (lo_project db Hok r Hr) as (j & Hj & Hjid & Hju); [done|lia|].
  assert (Hone : ∀ k, k ∈ lg_projects db → project_of (cr_ProjectID r) (cr_UID r) k = true → k = j).
  { intros k Hk He. unfold project_of in He. bool_hyps.
    apply (keyed_unique pj_Id (lg_projects db)); [apply Hok|done|done|congruence]. }
  assert (Hle : due ≤ pj_BudgetCreditsUsed j).
  { rewrite (lo_budget db Hok j Hj), Hjid. pose proof (project_share_le db r Hok Hr). lia. }
  assert (Hpo : ∀ k, project_of (cr_ProjectID r) (cr_UID r) k = has_key pj_Id (pj_Id j) k && (pj_UID k =? cr_UID r)).
  { intros k. unfold project_of, has_key. by rewrite Hjid. }
  unfold RefundBudgetSpentExact. destruct (Z.eqb_spec (cr_ProjectID r) 0); [lia|].
  destruct (Z.eqb_spec (cr_UID r) 0); [lia|]. simpl. destruct (Z.ltb_spec due 0); [lia|]. simpl.
  destruct (Z.eqb_spec due 0); [lia|]. destruct (le_fault env StLockProject) eqn:Hf; [by eexists|].
  destruct (first_row _ (lg_projects db)) as [locked|] eqn:El; simpl.
  2: { eapply List.find_none in El; [|by apply list_elem_of_In]. exfalso. rewrite Hpo in El.
       unfold has_key in El. rewrite Z.eqb_refl, Hju, Z.eqb_refl in El. done. }
  apply first_row_Some in El as [Hl He]. assert (locked = j) as -> by by apply Hone.
  destruct (Z.ltb_spec (pj_BudgetCreditsUsed j) due); [lia|]. simpl.
  destruct (le_fault env StRefundBudget) eqn:Hf2; [by eexists|].
  pose proof (affected_keyed pj_Id (λ k, (pj_UID k =? cr_UID r) && (due <=? pj_BudgetCreditsUsed k))
                (lg_projects db) j (lo_projects db Hok) Hj) as Haff.
  cbv beta in Haff. rewrite Hju, Z.eqb_refl in Haff. destruct (Z.leb_spec due (pj_BudgetCreditsUsed j)); [simpl in Haff|lia].
  replace (affected _ (lg_projects db)) with 1.
  2: { rewrite <- Haff. unfold affected, where_. do 2 f_equal. apply List.filter_ext. intros k.
       by rewrite Hpo, andb_assoc. }
  simpl. f_equal. unfold update_where, shift_budget. apply map_ext_in. intros k Hk%list_elem_of_In.
  destruct (Z.eqb_spec (cr_ProjectID r) (pj_Id k)) as [He2|Hne].
  - assert (k = j) as -> by (apply (keyed_unique pj_Id (lg_projects db)); [apply Hok|done|done|congruence]).
    unfold project_of. rewrite <- He2, Z.eqb_refl, Hju, Z.eqb_refl. simpl.
    destruct (Z.leb_spec due (pj_BudgetCreditsUsed j)); [done|lia].
  - unfold project_of. destruct (Z.eqb_spec (pj_Id k) (cr_ProjectID r)); [congruence|].
    simpl. destruct k. unfold add_spent. simpl. f_equal. lia.
Qed.

Lemma refundable_projects db js r : refundable db r → refundable (set_projects db js) r.
Proof. by intros []. Qed.

(** The money of a refund is the money of the transition to the target. *)
Lemma refund_rows_spec env db m r used :
  ledger_ok db → r ∈ db.(lg_reservations) → agrees m r →
  r.(cr_Status) = StatusRefundPending → r.(cr_RefundTargetUsed) = Some used →
  only_faults env (refundFinancialRowsLocked env db m) (λ db', ∀ now,
    update_reservation db' r.(cr_Id) (terminal_columns r.(cr_RefundTargetStatus) used now)
    = transition db r (terminal_columns r.(cr_RefundTargetStatus) used now)).
Proof.
  intros Hok Hr Ha Hst Hused. pose proof (agrees_columns m r Ha) as [Eid Euid Eres Eprj _ _ _ Edue _].
  destruct (row_state_pending r (ro_state r (lo_rows db Hok r Hr)) Hst)
    as (u & _ & _ & Hk & Hu & Hrange & Hdue & _ & _). assert (u = used) as -> by congruence.
  assert (Hh : held_units r = cr_Reserved r) by (apply active_held; auto).
  assert (Hh' : ∀ now, held_units (terminal_columns (cr_RefundTargetStatus r) used now r) = used)
    by (intros now; by rewrite closed_held).
  assert (Hd : 0 < cr_RefundDue r ≤ cr_Reserved r) by lia.
  unfold refundFinancialRowsLocked. rewrite Eid, Euid, Eres, Eprj, Edue.
  set (budget := λ i, if cr_ProjectID r =? i then used - cr_Reserved r else 0).
  assert (Hbud : only_faults env (if 0 <? cr_ProjectID r
             then RefundBudgetSpentExact env db (cr_ProjectID r) (cr_UID r) (cr_RefundDue r) else Ok db)
             (λ db1, db1 = set_projects db (shift_budget budget (lg_projects db)))).
  { destruct (Z.ltb_spec 0 (cr_ProjectID r)).
    - pose proof (refund_budget_spec env db r (cr_RefundDue r)) as Hb.
      destruct (RefundBudgetSpentExact _ _ _ _ _); simpl in Hb |- *; [|by apply Hb].
      rewrite Hb by done. f_equal. apply shift_budget_ext. intros j _. unfold budget. case_match; lia.
    - simpl. rewrite shift_budget_0; [by destruct db|]. intros j Hj. unfold budget.
      pose proof (lo_project_pos db Hok j Hj). destruct (Z.eqb_spec (cr_ProjectID r) (pj_Id j)); [lia|done]. }
  destruct (if 0 <? cr_ProjectID r then _ else _) as [db1|e]; simpl in Hbud |- *; [|done]. subst db1.
  pose proof (refund_allocations_spec env (set_projects db (shift_budget budget (lg_projects db))) r
                (cr_RefundDue r) (refundable_projects _ _ _ (active_refundable db r Hok Hr Hh)) Hd) as Hp.
  destruct (RefundAllocationsCheckedTx _ _ _ _ _ _); simpl in Hp |- *; [|done].
  intros now. rewrite Hp. unfold transition. rewrite Hh', Hh, Hdue.
  replace (cr_Reserved r - (cr_Reserved r - used)) with used by lia. reflexivity.
Qed.

(** ** Refund attempts *)

Lemma classify_code e : classifyReservationRefundError e ∈ refund_error_codes.
Proof. unfold classifyReservationRefundError, refund_error_codes. repeat case_match; set_solver. Qed.

(** The review a row is held for. *)
Definition same_hold (r r' : CreditReservation) : Prop :=
  hold_of r' = hold_of r ∧ r'.(cr_ReviewHeldAt) = r.(cr_ReviewHeldAt).

(** A refund attempt moves the row once.  Either the refund is done and the row
    is in its target, or the database failed and the row waits for the next try;
    the struct shows the new status and the number of attempts. *)
Definition attempted (env : ledger_env) (db : Ledger) (r : CreditReservation) (now : time)
    (res : CreditReservation * Ledger) : Prop :=
  ∃ f, row_move r (f r) ∧ snd res = transition db r f ∧ same_hold r (f r)
    ∧ (fst res).(cr_Status) = (f r).(cr_Status) ∧ (fst res).(cr_RefundAttempts) = (f r).(cr_RefundAttempts)
    ∧ (f r = terminal_columns r.(cr_RefundTargetStatus) (r.(cr_Reserved) - r.(cr_RefundDue)) now r
       ∨ ((f r).(cr_Status) = StatusRefundPending ∧ (f r).(cr_RefundAttempts) = next_attempt r
          ∧ ∃ st e, env.(le_fault) st = Some e)).

Lemma attempt_spec env db m r now :
  ledger_ok db → r ∈ db.(lg_reservations) → agrees m r → r.(cr_Status) = StatusRefundPending →
  only_faults env (attemptPendingRefundLocked env db m now) (attempted env db r now).
Proof.
  intros Hok Hr Ha Hst. pose proof (agrees_columns m r Ha) as [Eid _ Eres _ Est Etg Etu Edue Eatt].
  destruct (row_state_pending r (ro_state r (lo_rows db Hok r Hr)) Hst)
    as (u & _ & _ & Hk & Hu & Hrange & Hdue & _ & _).
  unfold attemptPendingRefundLocked, status_is, refundIntentMatches.
  rewrite Etu, Hu, Est, Hst, Etg, Edue, Eres, Hdue, Eatt, !bool_decide_true, Z.eqb_refl by done. simpl.
  destruct (Z.leb_spec (cr_Reserved r - u) 0); [lia|]. simpl.
  destruct (le_fault env StSavepoint) eqn:Hf; [by eexists|].
  pose proof (refund_rows_spec env db m r u Hok Hr Ha Hst Hu) as Hrefund.
  destruct (refundFinancialRowsLocked env db m) as [db1|e]; simpl in Hrefund.
  - unfold markReservationTerminal. rewrite Hk. destruct (le_fault env StMarkTerminal) eqn:Hf2; [by eexists|].
    exists (terminal_columns (cr_RefundTargetStatus r) u now). simpl. rewrite Eid. split_and!; try done.
    + by apply mv_refunded.
    + left. f_equal. lia.
  - destruct (le_fault env StRollbackTo) eqn:Hf2; [by eexists|].
    destruct (le_fault env StRefundFailed) eqn:Hf3; [by eexists|]. fold (next_attempt r).
    exists (failed_columns (next_attempt r) (now + refundRetryBackoff (next_attempt r))
              (classifyReservationRefundError e) now).
    assert (Hm : row_move r (failed_columns (next_attempt r) (now + refundRetryBackoff (next_attempt r))
                   (classifyReservationRefundError e) now r)) by (apply mv_retry; [done|apply classify_code]).
    rewrite transition_row by (apply row_move_held_same; [by apply (lo_rows db Hok)|done|simpl; by rewrite Hst]).
    simpl. rewrite Eid, ?Hst. split_and!; try done. right. split_and!; [done|done|naive_solver].
Qed.

(** The row of a refund just queued. *)
Lemma queued_row db r target used now :
  let f := queue_columns target used (r.(cr_Reserved) - used) now in
  ledger_ok db → r ∈ db.(lg_reservations) → open_status r → known_terminal target = true →
  0 ≤ used < r.(cr_Reserved) → (target = StatusFinalized ∨ used = 0) →
  ledger_move r.(cr_Id) db (update_reservation db r.(cr_Id) f)
  ∧ f r ∈ (update_reservation db r.(cr_Id) f).(lg_reservations).
Proof.
  intros f Hok Hr Ho Hk Hu Hz. assert (Hm : row_move r (f r)) by by apply mv_queue.
  assert (Heq : update_reservation db (cr_Id r) f = transition db r f).
  { rewrite transition_row; [done|]. by apply row_move_held_same; [apply (lo_rows db Hok)| |]. }
  rewrite Heq. split; [by apply lm_move|by apply transition_row_of].
Qed.

(** Queueing a refund and trying it at once. *)
Lemma queue_attempt_moves env db r target used refund now m db1 res :
  ledger_ok db → r ∈ db.(lg_reservations) → open_status r →
  queueRefundLocked env db r target used refund now = Ok (m, db1) →
  attemptPendingRefundLocked env db1 m now = Ok res →
  rtc (ledger_move r.(cr_Id)) db (snd res)
  ∧ ∃ r1, r1 ∈ db1.(lg_reservations) ∧ ledger_ok db1 ∧ r1 = queue_columns target used refund now r
      ∧ attempted env db1 r1 now res.
Proof.
  intros Hok Hr Ho Hq Hat. unfold queueRefundLocked in Hq.
  destruct (negb _) eqn:Hg1 in Hq; [|done]. destruct (known_terminal target) eqn:Hk; [|done].
  destruct (negb _) eqn:Hg2 in Hq; [|done]. destruct (le_fault env StQueueRefund) eqn:Hf; [done|].
  injection Hq as <- <-. bool_hyps. subst refund.
  assert (Hz : target = StatusFinalized ∨ used = 0).
  { apply known_terminal_cases in Hk as [->|Hk]; [by left|right].
    apply andb_false_iff in Hg2 as [Hg2|Hg2]; bool_hyps; [|done]. naive_solver. }
  set (f := queue_columns target used (cr_Reserved r - used) now).
  destruct (queued_row db r target used now Hok Hr Ho Hk ltac:(lia) Hz) as [Hmv Hr1]. fold f in Hmv, Hr1.
  pose proof (ledger_move_ok _ _ _ Hok Hmv) as Hok1.
  fold f in Hat. match type of Hat with attemptPendingRefundLocked _ _ ?m _ = _ =>
    pose proof (attempt_spec env _ m (f r) now Hok1 Hr1 eq_refl eq_refl) as Hspec end.
  rewrite Hat in Hspec. simpl in Hspec. split; [|by exists (f r)].
  destruct Hspec as (g & Hg & Hdb & _ & _). rewrite Hdb. eapply rtc_l; [done|]. apply rtc_once. by apply lm_move.
Qed.

(** Closing a reservation that has nothing to refund. *)
Lemma close_move env db r status now m db1 :
  ledger_ok db → r ∈ db.(lg_reservations) → open_status r →
  (status = StatusFinalized ∨ r.(cr_Reserved) = 0) →
  markReservationTerminal env db r status r.(cr_Reserved) now = Ok (m, db1) →
  db1 = transition db r (terminal_columns status r.(cr_Reserved) now) ∧ ledger_move r.(cr_Id) db db1.
Proof.
  intros Hok Hr Ho Hs E. unfold markReservationTerminal in E. destruct (known_terminal status) eqn:Hk; [|done].
  destruct (le_fault env StMarkTerminal); [done|]. injection E as <- <-.
  assert (Hm : row_move r (terminal_columns status (cr_Reserved r) now r)) by by apply mv_close.
  rewrite <- transition_row.
  - split; [done|]. by apply lm_move.
  - rewrite closed_held by done. rewrite active_held; [done|]. destruct Ho; auto.
Qed.

(** ** Settlements *)

Lemma lockReservation_Ok env db id r :
  lockReservation env db id = Ok r → r ∈ db.(lg_reservations) ∧ r.(cr_Id) = id.
Proof.
  unfold lockReservation. intros E. destruct (negb (id =? 0)); [|done].
  destruct (le_fault env StLockReservation); [done|]. destruct (first_row _ _) as [x|] eqn:Ef; [|done].
  injection E as <-. apply first_row_Some in Ef as [? Hi]. unfold reservation_is in Hi. by bool_hyps.
Qed.

Lemma lock_row env db r :
  ledger_ok db → r ∈ db.(lg_reservations) → env.(le_fault) StLockReservation = None →
  lockReservation env db r.(cr_Id) = Ok r.
Proof.
  intros Hok Hr Hf. unfold lockReservation. pose proof (ro_id r (lo_rows db Hok r Hr)).
  destruct (Z.eqb_spec (cr_Id r) 0); [lia|]. simpl. rewrite Hf.
  by rewrite (first_row_key cr_Id (lg_reservations db) r (lo_reservations db Hok) Hr : first_row (reservation_is _) _ = _).
Qed.

(** The row carries the outcome [target] with [used] credits, done or queued. *)
Definition settled_as (target : string) (used : Z) (r : CreditReservation) : Prop :=
  (r.(cr_Status) = target ∧ r.(cr_Used) = used)
  ∨ (r.(cr_Status) = StatusRefundPending ∧ r.(cr_RefundTargetStatus) = target
     ∧ r.(cr_RefundTargetUsed) = Some used).

(** A settlement: moves of the row to an outcome.  The outcome stays queued only
    when the database failed, or, with [late], when the retry is not due yet and
    nothing was written. *)
Definition settles (env : ledger_env) (late : bool) (db : Ledger) (id : Z) (target : string) (used : Z)
    (db' : Ledger) : Prop :=
  rtc (ledger_move id) db db'
  ∧ ∃ r', r' ∈ db'.(lg_reservations) ∧ r'.(cr_Id) = id ∧ settled_as target used r'
      ∧ (∀ r, r ∈ db.(lg_reservations) → r.(cr_Id) = id → same_hold r r')
      ∧ (r'.(cr_Status) = target ∨ (late = true ∧ db' = db) ∨ ∃ st e, env.(le_fault) st = Some e).

(** The hold of the row with this id, given the row itself. *)
Lemma same_hold_of db r r' : ledger_ok db → r ∈ db.(lg_reservations) → same_hold r r' →
  ∀ x, x ∈ db.(lg_reservations) → x.(cr_Id) = r.(cr_Id) → same_hold x r'.
Proof.
  intros Hok Hr Hh x Hx He.
  assert (x = r) as -> by (apply (keyed_unique cr_Id (lg_reservations db)); [apply Hok|done|done|done]). done.
Qed.

Lemma settles_late env db id target used db' : settles env false db id target used db' → settles env true db id target used db'.
Proof. intros (Hm & r' & ? & ? & ? & ? & Hc). split; [done|]. exists r'. split_and!; try done. naive_solver. Qed.

(** A move from a pending row to a pending row keeps the target. *)
Lemma pending_target r r' :
  row_state r → r.(cr_Status) = StatusRefundPending → row_move r r' → r'.(cr_Status) = StatusRefundPending →
  r'.(cr_RefundTargetStatus) = r.(cr_RefundTargetStatus) ∧ r'.(cr_RefundTargetUsed) = r.(cr_RefundTargetUsed).
Proof.
  intros Hs Hst Hm Hp. destruct (row_state_pending r Hs Hst) as (u & _ & _ & Hk & _).
  destruct Hm as [| |? ? ? Ho| |u0 now0|? ? Ho]; try clash; try done.
  - destruct Ho; clash.
  - simpl in Hp. by rewrite Hp in Hk.
  - destruct Ho; clash.
Qed.

Lemma attempted_settles env db r now target used res :
  ledger_ok db → r ∈ db.(lg_reservations) → r.(cr_Status) = StatusRefundPending →
  r.(cr_RefundTargetStatus) = target → r.(cr_RefundTargetUsed) = Some used →
  attempted env db r now res → settles env false db r.(cr_Id) target used (snd res).
Proof.
  intros Hok Hr Hst Ht Hu (f & Hm & -> & Hh & _ & _ & Hcase). pose proof (ro_state r (lo_rows db Hok r Hr)) as Hs.
  split; [by apply rtc_once, lm_move|]. exists (f r). split_and!.
  - by apply transition_row_of.
  - apply row_move_request in Hm. by injection Hm.
  - destruct (row_state_pending r Hs Hst) as (u & _ & _ & _ & Hu' & _ & Hdue & _). destruct Hcase as [->|(Hp & _)].
    + left. simpl. split; [done|]. assert (u = used) by congruence. lia.
    + right. destruct (pending_target r (f r) Hs Hst Hm Hp) as [-> ->]. done.
  - by apply same_hold_of.
  - destruct Hcase as [->|(_ & _ & Hf)]; [by left|by right; right].
Qed.

(** A pending refund with the matching intent. *)
Lemma pending_settles env db r now target used db' :
  ledger_ok db → r ∈ db.(lg_reservations) → r.(cr_Status) = StatusRefundPending →
  refundIntentMatches r target used = true →
  (if backing_off r now then Ok db else tables (attemptPendingRefundLocked env db r now)) = Ok db' →
  settles env (backing_off r now) db r.(cr_Id) target used db'.
Proof.
  intros Hok Hr Hst Hi E. unfold refundIntentMatches in Hi. bool_hyps. destruct (backing_off r now).
  - injection E as <-. split; [apply rtc_refl|]. exists r. split_and!; auto; [by right|by apply same_hold_of].
  - pose proof (attempt_spec env db r r now Hok Hr eq_refl Hst) as Hspec.
    destruct (attemptPendingRefundLocked env db r now) as [res|]; [|done]. simpl in Hspec, E.
    replace db' with (snd res) by (destruct res; by injection E). by apply (attempted_settles env db r now).
Qed.

(** An open reservation settled for [used] of its credits. *)
Lemma open_settles env db r now target used db' :
  ledger_ok db → r ∈ db.(lg_reservations) → open_status r → (target = StatusFinalized ∨ used = 0) →
  (if r.(cr_Reserved) - used =? 0 then tables (markReservationTerminal env db r target used now)
   else try! (m, db1) := queueRefundLocked env db r target used (r.(cr_Reserved) - used) now in
        tables (attemptPendingRefundLocked env db1 m now)) = Ok db' →
  settles env false db r.(cr_Id) target used db'.
Proof.
  intros Hok Hr Ho Ht E. destruct (Z.eqb_spec (cr_Reserved r - used) 0) as [Hz|Hz].
  - assert (used = cr_Reserved r) as -> by lia.
    destruct (markReservationTerminal _ _ _ _ _ _) as [[m db1]|] eqn:Em; [|done]. injection E as <-.
    destruct (close_move env db r target now m db1 Hok Hr Ho) as [-> Hmv]; [|done|].
    { destruct Ht; auto. }
    split; [by apply rtc_once|]. exists (terminal_columns target (cr_Reserved r) now r).
    split_and!; [by apply transition_row_of|done|by left|by apply (same_hold_of db r)|by left].
  - destruct (queueRefundLocked _ _ _ _ _ _ _) as [[m db1]|] eqn:Eq; [|done].
    destruct (attemptPendingRefundLocked env db1 m now) as [res|] eqn:Ea; [|done].
    destruct (queue_attempt_moves env db r target used _ now m db1 res Hok Hr Ho Eq Ea)
      as (Hmoves & r1 & Hr1 & Hok1 & -> & Hat).
    replace db' with (snd res) by (destruct res; by injection E).
    destruct (attempted_settles env db1 _ now target used res Hok1 Hr1 eq_refl eq_refl eq_refl Hat)
      as (_ & r' & ? & ? & ? & Hh & ?).
    split; [done|]. exists r'. split_and!; try done; [|naive_solver].
    apply same_hold_of; [done|done|]. by apply (Hh _ Hr1).
Qed.

Lemma status_is_true r s : status_is r s = true → r.(cr_Status) = s.
Proof. unfold status_is. intros. by bool_hyps. Qed.

Lemma open_status_of r :
  (status_is r StatusReserved || status_is r StatusReviewHold) = true → open_status r.
Proof. intros [?|?]%orb_true_iff; [left|right]; by apply status_is_true. Qed.

(** finalize: the outcome is a charge of exactly [used] credits. *)
Lemma finalize_settles env db id used hold b db' :
  ledger_ok db → finalize env db id used hold b = Ok db' →
  0 ≤ used ∧ settles env true db id StatusFinalized used db'.
Proof.
  intros Hok E. unfold finalize in E. destruct (Z.ltb_spec used 0) as [|Hu]; [done|]. split; [done|]. simpl in E.
  destruct (lockReservation env db id) as [r|] eqn:El; [|done]. apply lockReservation_Ok in El as [Hr <-].
  destruct (enforceReservationHold r hold); [done|]. destruct (negb (cr_Reserved r <? used)); [|done].
  destruct (status_is r StatusFinalized) eqn:Hf.
  { apply status_is_true in Hf. destruct (Z.eqb_spec (cr_Used r) used); [|done]. injection E as <-.
    split; [apply rtc_refl|]. exists r. split_and!; [done|done|by left|by apply same_hold_of|by left]. }
  destruct (status_is r StatusReleased); [done|]. destruct (status_is r StatusExpired); [done|].
  destruct (status_is r StatusRefundPending) eqn:Hp.
  { apply status_is_true in Hp. destruct (refundIntentMatches r StatusFinalized used) eqn:Hi; [|done].
    destruct (le_now env 0) as [now|]; [|done]. pose proof (pending_settles env db r now _ _ db' Hok Hr Hp Hi E).
    destruct (backing_off r now); [done|by apply settles_late]. }
  destruct (_ || _) eqn:Ho; [|done]. apply open_status_of in Ho.
  destruct (if b && _ then _ else _); [|done]. destruct (le_now env 1) as [now|]; [|done].
  apply settles_late. apply (open_settles env db r now); auto.
Qed.

(** release: the outcome is a full refund. *)
Lemma release_settles env db id hold db' :
  ledger_ok db → release env db id hold = Ok db' → settles env true db id StatusReleased 0 db'.
Proof.
  intros Hok E. unfold release in E.
  destruct (lockReservation env db id) as [r|] eqn:El; [|done]. apply lockReservation_Ok in El as [Hr <-].
  destruct (enforceReservationHold r hold); [done|].
  destruct (status_is r StatusReleased) eqn:Hf.
  { apply status_is_true in Hf. injection E as <-. split; [apply rtc_refl|]. exists r. split_and!; [done|done| |by apply same_hold_of|by left].
    left. split; [done|]. destruct (ro_state r (lo_rows db Hok r Hr)) as [| | |_ _ _ [?|?]]; try done. clash. }
  destruct (status_is r StatusFinalized); [done|]. destruct (status_is r StatusExpired); [done|].
  destruct (status_is r StatusRefundPending) eqn:Hp.
  { apply status_is_true in Hp. destruct (refundIntentMatches r StatusReleased 0) eqn:Hi; [|done].
    destruct (le_now env 0) as [now|]; [|done]. pose proof (pending_settles env db r now _ _ db' Hok Hr Hp Hi E).
    destruct (backing_off r now); [done|by apply settles_late]. }
  destruct (_ || _) eqn:Ho; [|done]. apply open_status_of in Ho.
  destruct (le_now env 0) as [now|]; [|done].
  apply settles_late. apply (open_settles env db r now); auto. rewrite Z.sub_0_r. done.
Qed.

(** holdForReview: a replay of the same hold, or the move into review. *)
Lemma hold_moves env db id hold b db' :
  ledger_ok db → holdForReview env db id hold b = Ok db' →
  rtc (ledger_move id) db db' ∧ ∃ r', r' ∈ db'.(lg_reservations) ∧ r'.(cr_Id) = id ∧ hold_of r' = hold
    ∧ (db' = db ∨ r'.(cr_Status) = StatusReviewHold).
Proof.
  intros Hok E. unfold holdForReview in E. destruct (ReservationReviewHold_validate hold) eqn:Hv; [done|].
  destruct (lockReservation env db id) as [r|] eqn:El; [|done]. apply lockReservation_Ok in El as [Hr <-].
  destruct (reservationHasHoldBinding r) eqn:Hb.
  { destruct (reservationHoldMatches r hold) eqn:Hm; [|done]. injection E as <-. split; [apply rtc_refl|].
    exists r. split_and!; auto. unfold reservationHoldMatches in Hm. bool_hyps. destruct hold. unfold hold_of.
    simpl in *. congruence. }
  destruct (status_is r StatusRefundPending); [done|]. destruct (IsTerminal r); [done|].
  destruct (status_is r StatusReserved) eqn:Hs; [|done]. apply status_is_true in Hs.
  destruct (le_now env 0) as [now|]; [|done]. destruct (negb (b && _)); [|done].
  destruct (le_fault env StHoldReservation); [done|]. destruct (negb (existsb _ _)); [|done]. injection E as <-.
  assert (Hm : row_move r (hold_columns hold now r)) by by apply mv_hold.
  rewrite <- transition_row by (apply row_move_held_same; [by apply (lo_rows db Hok)|done|done]).
  split; [by apply rtc_once, lm_move|]. exists (hold_columns hold now r).
  split_and!; [by apply transition_row_of|done|by destruct hold|by right].
Qed.

(** The sweeper's transaction. *)
Lemma sweep_moves env db candidate cutoff outcome db' :
  ledger_ok db → sweep_body env db candidate cutoff = Ok (outcome, db') →
  rtc (ledger_move candidate.(cr_Id)) db db'
  ∧ ∃ r, r ∈ db.(lg_reservations) ∧ r.(cr_Id) = candidate.(cr_Id)
      ∧ (r.(cr_Status) = StatusReserved ∨ r.(cr_Status) = StatusRefundPending ∨ db' = db).
Proof.
  intros Hok E. unfold sweep_body in E. destruct (le_fault env StLockTask); [done|].
  destruct (lockReservation env db _) as [r|] eqn:El; [|done]. apply lockReservation_Ok in El as [Hr Hid].
  rewrite <- Hid. destruct (le_now env 1) as [now|]; [|done].
  assert (Hskip : Ok (reservationSweepSkipped, db) = Ok (outcome, db') →
    rtc (ledger_move (cr_Id r)) db db' ∧ ∃ r0, r0 ∈ lg_reservations db ∧ cr_Id r0 = cr_Id r
      ∧ (cr_Status r0 = StatusReserved ∨ cr_Status r0 = StatusRefundPending ∨ db' = db)).
  { intros [= _ <-]. split; [apply rtc_refl|]. exists r. auto. }
  destruct (status_is r StatusReviewHold); [by apply Hskip|].
  destruct (status_is r StatusRefundPending) eqn:Hp.
  { apply status_is_true in Hp. destruct (backing_off r now); [by apply Hskip|].
    pose proof (attempt_spec env db r r now Hok Hr eq_refl Hp) as Hspec.
    destruct (attemptPendingRefundLocked env db r now) as [[m db1]|]; [|done]. injection E as _ <-.
    destruct Hspec as (f & Hm & Hdb & _). simpl in Hdb. subst db1. split; [by apply rtc_once, lm_move|].
    exists r. auto. }
  destruct (status_is r StatusReserved) eqn:Hs; simpl in E; [|by apply Hskip]. apply status_is_true in Hs.
  destruct (Before _ _); simpl in E; [|by apply Hskip].
  split; [|exists r; auto]. destruct (task_running db candidate).
  { destruct (le_fault env StExtendReservation); [done|]. injection E as _ <-.
    assert (Hm : row_move r (extend_columns now r)) by by apply mv_extend.
    rewrite <- transition_row; [by apply rtc_once, lm_move|].
    apply row_move_held_same; [by apply (lo_rows db Hok)|done|simpl; by rewrite Hs]. }
  assert (Hset : settles env false db (cr_Id r) StatusExpired 0 db'); [|by destruct Hset].
  apply (open_settles env db r now); auto; [by left|]. rewrite Z.sub_0_r. destruct (Z.eqb_spec (cr_Reserved r) 0).
  - destruct (markReservationTerminal _ _ _ _ _ _) as [[m db1]|]; [|done]. by injection E as _ <-.
  - destruct (queueRefundLocked _ _ _ _ _ _ _) as [[m db1]|]; [|done].
    destruct (attemptPendingRefundLocked _ _ _ _) as [[m2 db2]|]; [|done]. by injection E as _ <-.
Qed.
