(* ===== verification/CreditReserveFacts.v ===== *)
(** * Reserve

    What a call of [Reserve] that succeeds did: a replay that wrote nothing, or
    one admission. *)

From Stdlib Require Import Ascii.
From stdpp Require Import sorting.
From S2P Require Import Prelude GoText GoDigest GoTime AgentContract TurnTypes ExecutionTypes SubscriptionCycle CreditTables CreditsPack ProjectBudget CreditReservation CreditChecks CreditPackFacts CreditRefundFacts CreditLedgerFacts.

(** ** Admissions and grants keep the ledger invariant

    [admitted] is what a new reservation writes: the row, its allocations, the
    used credits of the packs that pay and of the project.  A grant appends a
    pack, or changes a pack without touching what it has used. *)

(** ** Allocation rows *)

Lemma allocation_rows_ids id rid l : StronglySorted Z.lt (map ca_Id (allocation_rows id rid l))
  ∧ Forall (λ i, id ≤ i) (map ca_Id (allocation_rows id rid l)).
Proof.
  revert id. induction l as [|a l IH]; intros id; simpl; [by split; constructor|].
  destruct (IH (id + 1)) as [Hs Hf]. split; constructor; try done; try lia; eapply Forall_impl; try done; simpl; lia.
Qed.

Lemma allocation_rows_of id rid l a :
  a ∈ allocation_rows id rid l → a.(ca_ReservationID) = rid
  ∧ ∃ x, x ∈ l ∧ a.(ca_PackID) = x.(al_PackID) ∧ a.(ca_Credits) = x.(al_Credits).
Proof.
  revert id. induction l as [|x l IH]; intros id; simpl; [by intros ?%not_elem_of_nil|].
  intros [->|Ha]%elem_of_cons; [split; [done|]; exists x; split; [left|done]|].
  destruct (IH _ Ha) as (? & y & ? & ?). split; [done|]. exists y. split; [by right|done].
Qed.

Lemma allocation_rows_packs id rid l : map ca_PackID (allocation_rows id rid l) = map al_PackID l.
Proof. revert id. induction l; intros id; simpl; [done|]. by rewrite IHl. Qed.

Lemma allocation_rows_sum id rid l : sum_by ca_Credits (allocation_rows id rid l) = sum_by al_Credits l.
Proof. revert id. induction l; intros id; [done|]. simpl. by rewrite !sum_by_cons, IHl. Qed.

Lemma allocation_rows_allocated id rid l i :
  sum_by (allocated i) (allocation_rows id rid l) = credits_of i l.
Proof. revert id. induction l; intros id; [done|]. simpl. by rewrite credits_of_cons, sum_by_cons, IHl. Qed.

Lemma StronglySorted_app_lt (l k : list Z) :
  StronglySorted Z.lt l → StronglySorted Z.lt k → (∀ x y, x ∈ l → y ∈ k → x < y) → StronglySorted Z.lt (l ++ k).
Proof.
  intros Hl Hk H. induction Hl as [|x l Hl IH Hx]; [done|]. simpl. constructor.
  - apply IH. intros. apply H; [by right|done].
  - apply Forall_app. split; [done|]. apply Forall_forall. intros y Hy. apply H; [left|done].
Qed.

(** ** Admissions *)

Definition admitted (db : Ledger) (r : CreditReservation) (l : list creditsPackAllocation) : Ledger :=
  mkLedger db.(lg_users) db.(lg_orders)
    (shift_budget (λ i, if r.(cr_ProjectID) =? i then r.(cr_Reserved) else 0) db.(lg_projects))
    (shift_used (λ i, credits_of i l) db.(lg_packs))
    (db.(lg_reservations) ++ [r])
    (db.(lg_allocations) ++ allocation_rows (fresh_row_id (map ca_Id db.(lg_allocations))) r.(cr_Id) l)
    db.(lg_tasks) db.(lg_bound).

Section Admission.
Context (db : Ledger) (r : CreditReservation) (l : list creditsPackAllocation).
Context (Hok : ledger_ok db) (Hrow : reservation_ok r) (Hst : r.(cr_Status) = StatusReserved).
Context (Hid : r.(cr_Id) = fresh_row_id (map cr_Id db.(lg_reservations))).
Context (Hkey : owner_key r ∉ map owner_key db.(lg_reservations)).
Context (Hnd : NoDup (map al_PackID l)) (Hsum : sum_by al_Credits l = r.(cr_Reserved)).
Context (Hl : ∀ a, a ∈ l → 0 < a.(al_Credits) ∧ ∃ p, p ∈ db.(lg_packs) ∧ p.(cp_Id) = a.(al_PackID)
                 ∧ p.(cp_UID) = r.(cr_UID)).
Context (Hfit : ∀ p, p ∈ db.(lg_packs) → p.(cp_CreditsUsed) + credits_of p.(cp_Id) l ≤ p.(cp_CreditsTotal)).
Context (Hprj : 0 < r.(cr_ProjectID) → 0 < r.(cr_Reserved) →
    ∃ j, j ∈ db.(lg_projects) ∧ j.(pj_Id) = r.(cr_ProjectID) ∧ j.(pj_UID) = r.(cr_UID)).

Let rows := allocation_rows (fresh_row_id (map ca_Id db.(lg_allocations))) r.(cr_Id) l.

Lemma admitted_new_allocations : allocations_of (admitted db r l) r.(cr_Id) = rows.
Proof.
  unfold allocations_of. simpl. unfold where_. rewrite List.filter_app.
  replace (List.filter (allocation_of (cr_Id r)) (lg_allocations db)) with (@nil CreditReservationAllocation).
  2: { symmetry. apply where_nil. intros a Ha. unfold allocation_of. apply Z.eqb_neq. intros He.
       apply (fresh_row_id_fresh (map cr_Id (lg_reservations db))). rewrite <- Hid, <- He. by apply (lo_parent db Hok). }
  simpl. fold rows. replace (List.filter (allocation_of (cr_Id r)) rows) with rows.
  - apply (order_by_ascending ca_Id). apply allocation_rows_ids.
  - symmetry. apply List.forallb_filter_id. apply forallb_forall. intros a Ha%list_elem_of_In.
    apply allocation_rows_of in Ha as [Ha _]. unfold allocation_of. by apply Z.eqb_eq.
Qed.

Lemma admitted_old_allocations x :
  x ∈ db.(lg_reservations) → allocations_of (admitted db r l) x.(cr_Id) = allocations_of db x.(cr_Id).
Proof.
  intros Hx. unfold allocations_of. simpl. f_equal. unfold where_. rewrite List.filter_app.
  rewrite (where_nil _ (allocation_rows _ _ _)); [apply app_nil_r|].
  intros a [Ha _]%allocation_rows_of. unfold allocation_of. apply Z.eqb_neq. intros He.
  apply (fresh_row_id_fresh (map cr_Id (lg_reservations db))). rewrite <- Hid, <- Ha, He. by apply list_elem_of_fmap_2.
Qed.

Lemma rows_ok : allocations_ok r.(cr_Id) rows ∧ sum_by ca_Credits rows = r.(cr_Reserved).
Proof.
  split; [|unfold rows; by rewrite allocation_rows_sum]. split.
  - apply Forall_forall. intros a [Hr (x & Hx & Hp & Hc)]%allocation_rows_of.
    destruct (Hl x Hx) as (? & p & Hpin & ? & _). pose proof (lo_pack_pos db Hok p Hpin). lia.
  - unfold rows. by rewrite allocation_rows_packs.
  - unfold rows. rewrite allocation_rows_sum, Hsum. destruct Hrow as [_ _ Hres _ _].
    unfold maxReservationSchemaInt in Hres. unfold max_int. lia.
Qed.

Lemma admitted_elem x : x ∈ (admitted db r l).(lg_reservations) → x ∈ db.(lg_reservations) ∨ x = r.
Proof. simpl. rewrite elem_of_app, list_elem_of_singleton. tauto. Qed.

Lemma admitted_ids :
  NoDup (map cr_Id (db.(lg_reservations) ++ [r])) ∧ NoDup (map owner_key (db.(lg_reservations) ++ [r])).
Proof.
  rewrite !map_app. split; (apply NoDup_app; split_and!; [apply Hok| |apply NoDup_singleton]).
  - intros i Hi ->%list_elem_of_singleton. apply (fresh_row_id_fresh (map cr_Id (lg_reservations db))). by rewrite <- Hid.
  - intros k Hk Hk'. apply list_elem_of_singleton in Hk' as ->. done.
Qed.

Lemma admitted_debt i : pack_debt (admitted db r l) i = pack_debt db i + credits_of i l.
Proof.
  unfold pack_debt. simpl lg_reservations. rewrite sum_by_app, sum_by_cons.
  change (sum_by _ []) with 0. rewrite admitted_new_allocations, active_held by auto.
  rewrite kept_all; [|apply (allocations_positive (cr_Id r)), rows_ok|by rewrite (proj2 rows_ok)].
  unfold rows. rewrite allocation_rows_allocated, Z.add_0_r. f_equal. apply sum_by_ext. intros x Hx.
  by rewrite admitted_old_allocations.
Qed.

Lemma admitted_ok : ledger_ok (admitted db r l).
Proof.
  destruct admitted_ids as [Hids Hkeys]. split; try done.
  - simpl. rewrite shift_used_ids. apply Hok.
  - simpl. intros p (q & Hq & ->)%elem_shift_used. by apply (lo_pack_pos db Hok q).
  - simpl. unfold shift_budget. rewrite map_map. apply Hok.
  - simpl. intros j (k & -> & Hk)%list_elem_of_fmap. by apply (lo_project_pos db Hok k).
  - intros x [Hx| ->]%admitted_elem; [by apply (lo_rows db Hok)|done].
  - simpl. rewrite map_app. destruct (allocation_rows_ids (fresh_row_id (map ca_Id (lg_allocations db))) (cr_Id r) l) as [Hs Hf].
    apply StronglySorted_app_lt; [apply Hok|done|]. intros x y Hx Hy. apply next_id_gt in Hx.
    eapply Forall_forall in Hf; [|done]. simpl in Hf. lia.
  - simpl. intros a [Ha|Ha]%elem_of_app; rewrite map_app, elem_of_app.
    + left. by apply (lo_parent db Hok).
    + right. apply allocation_rows_of in Ha as [-> _]. by left.
  - intros x [Hx| ->]%admitted_elem.
    + rewrite admitted_old_allocations by done. by apply (lo_allocations db Hok).
    + rewrite admitted_new_allocations. apply rows_ok.
  - intros x a [Hx| ->]%admitted_elem Ha.
    + rewrite admitted_old_allocations in Ha by done. destruct (lo_owner db Hok x a Hx Ha) as (p & Hp & ? & ?).
      eexists. split; [apply elem_shift_used; by exists p|done].
    + rewrite admitted_new_allocations in Ha. apply allocation_rows_of in Ha as (_ & y & Hy & -> & _).
      destruct (Hl y Hy) as (_ & p & Hp & ? & ?). eexists. split; [apply elem_shift_used; by exists p|done].
  - intros x [Hx| ->]%admitted_elem ? ?; [destruct (lo_project db Hok x Hx) as (j & Hj & ? & ?); [done|done|]|
      destruct Hprj as (j & Hj & ? & ?); [done|done|]]; (eexists; split; [by apply list_elem_of_fmap_2|done]).
  - intros p (q & Hq & ->)%elem_shift_used. simpl. rewrite admitted_debt, (lo_used db Hok q Hq). done.
  - simpl. intros p (q & Hq & ->)%elem_shift_used. exact (Hfit q Hq).
  - intros j (k & -> & Hk)%list_elem_of_fmap. simpl. rewrite (lo_budget db Hok k Hk). unfold project_debt.
    simpl lg_reservations. rewrite sum_by_app, sum_by_cons, active_held by auto. change (sum_by _ []) with 0. lia.
Qed.
End Admission.

(** ** Grants *)

(** A pack that was just created owes nothing. *)
Lemma insert_pack_ok db uid st sid credits expires remark :
  ledger_ok db → 0 ≤ credits → ledger_ok (insert_pack db uid st sid credits expires remark).
Proof.
  intros Hok Hc. set (new := mkCreditsPack (fresh_row_id (map cp_Id db.(lg_packs))) uid st sid credits 0 expires remark).
  assert (Hin : ∀ p, p ∈ lg_packs (insert_pack db uid st sid credits expires remark) → p ∈ lg_packs db ∨ p = new).
  { intros p. simpl. rewrite elem_of_app, list_elem_of_singleton. tauto. }
  assert (Hdebt : pack_debt db (cp_Id new) = 0).
  { apply sum_by_zero. intros r Hr. apply kept_other. intros a Ha He.
    destruct (lo_owner db Hok r a Hr Ha) as (p & Hp & Hpa & _). apply (fresh_row_id_fresh (map cp_Id (lg_packs db))).
    change (fresh_row_id (map cp_Id (lg_packs db))) with (cp_Id new). rewrite <- He, <- Hpa. by apply list_elem_of_fmap_2. }
  split; try apply Hok.
  - simpl. rewrite map_app. apply NoDup_app. split_and!; [apply Hok| |apply NoDup_singleton].
    intros i Hi ->%list_elem_of_singleton. by apply fresh_row_id_fresh in Hi.
  - intros p [Hp| ->]%Hin; [by apply (lo_pack_pos db Hok)|apply next_id_pos].
  - intros r a Hr Ha. destruct (lo_owner db Hok r a Hr Ha) as (p & Hp & ?). exists p. split; [|done].
    simpl. apply elem_of_app. by left.
  - intros p [Hp| ->]%Hin; [by apply (lo_used db Hok)|symmetry; apply Hdebt].
  - intros p [Hp| ->]%Hin; [by apply (lo_bound db Hok)|done].
Qed.

(** An update of packs that keeps their identity, owner and used credits. *)
Lemma update_packs_ok db (p : CreditsPack → bool) f :
  ledger_ok db →
  (∀ q, q ∈ db.(lg_packs) → p q = true → (f q).(cp_Id) = q.(cp_Id) ∧ (f q).(cp_UID) = q.(cp_UID)
        ∧ (f q).(cp_CreditsUsed) = q.(cp_CreditsUsed) ∧ (f q).(cp_CreditsUsed) ≤ (f q).(cp_CreditsTotal)) →
  ledger_ok (set_packs db (update_where p f db.(lg_packs))).
Proof.
  intros Hok Hf.
  assert (Hin : ∀ x, x ∈ update_where p f (lg_packs db) → ∃ q, q ∈ lg_packs db ∧ cp_Id x = cp_Id q
            ∧ cp_CreditsUsed x = cp_CreditsUsed q ∧ cp_CreditsUsed x ≤ cp_CreditsTotal x).
  { intros x (q & Hq & ->)%elem_update_where. exists q. pose proof (lo_bound db Hok q Hq).
    destruct (p q) eqn:Hp; [|done]. destruct (Hf q Hq Hp) as (? & ? & ? & ?). done. }
  split; try apply Hok.
  - simpl. rewrite update_where_keys; [apply Hok|]. intros q Hq Hp. by apply Hf.
  - intros x (q & Hq & -> & _)%Hin. by apply (lo_pack_pos db Hok).
  - intros r a Hr Ha. destruct (lo_owner db Hok r a Hr Ha) as (q & Hq & Hid & Hu).
    exists (if p q then f q else q). split; [simpl; apply elem_update_where; by exists q|].
    destruct (p q) eqn:Hp; [|done]. destruct (Hf q Hq Hp) as (-> & -> & _). done.
  - intros x (q & Hq & -> & -> & _)%Hin. by apply (lo_used db Hok).
  - intros x (q & _ & _ & _ & ?)%Hin. done.
Qed.

(** The tables before and after a grant differ by at most one new pack. *)
Inductive granted (db : Ledger) : Ledger → Prop :=
| granted_none : granted db db
| granted_pack uid st sid credits expires remark :
    0 < credits → granted db (insert_pack db uid st sid credits expires remark).

Lemma granted_ok db db' : ledger_ok db → granted db db' → ledger_ok db'.
Proof. intros Hok []; [done|]. apply insert_pack_ok; [done|lia]. Qed.

Lemma ensure_granted env db uid now db' : ensureCurrentSubscriptionCreditsTx env db uid now = Ok db' → granted db db'.
Proof.
  unfold ensureCurrentSubscriptionCreditsTx. intros E.
  destruct (lockCreditsOwnerUserTx env db uid) as [user|]; [|done].
  destruct (resolveActivePlanForUserTx env db user uid now) as [[[user' plan] credits]|]; [|done].
  destruct (lockExistingCreditsPacksTx env db uid); [done|].
  unfold ensureCurrentSubscriptionCreditsForUserTx in E.
  destruct (_ <=? _); [injection E as <-; constructor|]. destruct (_ && _); [injection E as <-; constructor|].
  destruct (_ || _); [injection E as <-; constructor|]. destruct (Z.ltb_spec 0 credits); [|done].
  destruct (subscriptionCycleBounds _ _) as [[cs ce]|]; [|done].
  destruct (_ && _); [injection E as <-; constructor|]. destruct (le_fault env StReadCyclePack); [done|].
  destruct (first_row _ _) as [p|].
  { destruct (checkCyclePack p ce); [done|]. injection E as <-. constructor. }
  destruct (le_fault env StReadActivePacks); [done|]. destruct (order_by _ _) as [|p [|? ?]]; [| |done].
  - destruct (le_fault env StInsertPack); [done|]. injection E as <-. by constructor.
  - destruct (checkCyclePack p ce); [done|]. injection E as <-. constructor.
Qed.

Lemma CreatePack_granted env db uid st sid credits expires remark db' :
  CreatePackTx env db uid st sid credits expires remark = Ok db' → granted db db'.
Proof.
  unfold CreatePackTx. intros E. destruct (Z.leb_spec credits 0); [injection E as <-; constructor|].
  destruct (le_fault env StInsertPack); [done|]. destruct (negb _); [|done]. injection E as <-. by constructor.
Qed.

Lemma createSubscriptionCyclePack_granted env db uid plan grant credits expires remark db' :
  createSubscriptionCyclePackTx env db uid plan grant credits expires remark = Ok db' → granted db db'.
Proof.
  unfold createSubscriptionCyclePackTx. intros E. destruct (0 <? uid); [|done].
  destruct (credits <=? 0); [injection E as <-; constructor|].
  destruct (subscriptionCyclePackSourceID _ _); [|done]. destruct (le_fault env StReadCyclePack); [done|].
  destruct (first_row _ _); [|by apply CreatePack_granted in E].
  destruct (negb _); [|done]. injection E as <-. constructor.
Qed.

Lemma AddToPack_ok env db uid st sid credits expires remark db' :
  ledger_ok db → AddToPackTx env db uid st sid credits expires remark = Ok db' → ledger_ok db'.
Proof.
  unfold AddToPackTx. intros Hok E. destruct (Z.leb_spec credits 0); [by injection E as <-|].
  destruct (le_fault env StUpsertPack); [done|].
  destruct (existsb _ _); injection E as <-; [|apply insert_pack_ok; [done|lia]].
  apply update_packs_ok; [done|]. intros q Hq _. pose proof (lo_bound db Hok q Hq). simpl. split_and!; try done. lia.
Qed.

Lemma Revoke_ok env db orderNo db' : ledger_ok db → RevokeOrderCreditsTx env db orderNo = Ok db' → ledger_ok db'.
Proof.
  unfold RevokeOrderCreditsTx. intros Hok E. destruct (bool_decide _); [by injection E as <-|].
  destruct (le_fault env StRevokePacks); [done|]. injection E as <-.
  apply update_packs_ok; [done|]. intros q Hq _. simpl. done.
Qed.

Lemma Clip_ok env db uid cutoff db' : ledger_ok db → ClipSubscriptionCreditsTx env db uid cutoff = Ok db' → ledger_ok db'.
Proof.
  unfold ClipSubscriptionCreditsTx. intros Hok E. destruct (le_fault env StClipPacks); [done|]. injection E as <-.
  apply update_packs_ok; [done|]. intros q Hq _. pose proof (lo_bound db Hok q Hq). done.
Qed.

(** ** Changes outside the credit services *)

(** Rows of other tables change freely; a project keeps its id, owner and spent
    budget, and a new project has spent nothing. *)
Record outside (db db' : Ledger) : Prop := {
  os_packs : db'.(lg_packs) = db.(lg_packs);
  os_reservations : db'.(lg_reservations) = db.(lg_reservations);
  os_allocations : db'.(lg_allocations) = db.(lg_allocations);
  os_projects : ∃ old new, db'.(lg_projects) = old ++ new
    ∧ map (λ j, (j.(pj_Id), j.(pj_UID), j.(pj_BudgetCreditsUsed))) old
      = map (λ j, (j.(pj_Id), j.(pj_UID), j.(pj_BudgetCreditsUsed))) db.(lg_projects)
    ∧ NoDup (map pj_Id new)
    ∧ Forall (λ j, j.(pj_BudgetCreditsUsed) = 0 ∧ 0 < j.(pj_Id) ∧ j.(pj_Id) ∉ map pj_Id db.(lg_projects)) new }.

Lemma project_debt_absent db i : ledger_ok db → 0 < i → i ∉ map pj_Id db.(lg_projects) → project_debt db i = 0.
Proof.
  intros Hok Hi Hn. apply sum_by_zero. intros r Hr. destruct (Z.eqb_spec (cr_ProjectID r) i) as [He|]; [|done].
  pose proof (held_bounds r (lo_rows db Hok r Hr)). destruct (Z.le_gt_cases (cr_Reserved r) 0); [lia|].
  destruct (lo_project db Hok r Hr) as (j & Hj & Hjid & _); [lia|done|]. destruct Hn. rewrite <- He, <- Hjid.
  by apply list_elem_of_fmap_2.
Qed.

Lemma outside_ok db db' : ledger_ok db → outside db db' → ledger_ok db'.
Proof.
  intros Hok [Hp Hr Ha (old & new & Hj & Hmap & Hnd & Hnew)].
  assert (Hal : ∀ i, allocations_of db' i = allocations_of db i) by (intros i; unfold allocations_of; by rewrite Ha).
  assert (Hpd : ∀ i, pack_debt db' i = pack_debt db i).
  { intros i. unfold pack_debt. rewrite Hr. apply sum_by_ext. intros x _. by rewrite Hal. }
  assert (Hjd : ∀ i, project_debt db' i = project_debt db i) by (intros i; unfold project_debt; by rewrite Hr).
  assert (Hids : map pj_Id old = map pj_Id (lg_projects db)).
  { apply (f_equal (map (λ x : Z * Z * Z, fst (fst x)))) in Hmap. by rewrite !map_map in Hmap. }
  assert (Hold : ∀ j, j ∈ old → ∃ k, k ∈ lg_projects db ∧ pj_Id k = pj_Id j ∧ pj_UID k = pj_UID j
            ∧ pj_BudgetCreditsUsed k = pj_BudgetCreditsUsed j).
  { intros j Hjo. apply (list_elem_of_fmap_2 (λ j, (pj_Id j, pj_UID j, pj_BudgetCreditsUsed j))) in Hjo.
    change (_ <$> old) with (map (λ j, (pj_Id j, pj_UID j, pj_BudgetCreditsUsed j)) old) in Hjo.
    rewrite Hmap in Hjo. apply list_elem_of_fmap in Hjo as (k & [= ? ? ?] & ?). by exists k. }
  assert (Hback : ∀ k, k ∈ lg_projects db → ∃ j, j ∈ old ∧ pj_Id j = pj_Id k ∧ pj_UID j = pj_UID k).
  { intros k Hk. apply (list_elem_of_fmap_2 (λ j, (pj_Id j, pj_UID j, pj_BudgetCreditsUsed j))) in Hk.
    change (_ <$> lg_projects db) with (map (λ j, (pj_Id j, pj_UID j, pj_BudgetCreditsUsed j)) (lg_projects db)) in Hk.
    rewrite <- Hmap in Hk. apply list_elem_of_fmap in Hk as (j & [= ? ? ?] & ?). by exists j. }
  split; rewrite ?Hp, ?Hr, ?Ha, ?Hj; try apply Hok.
  - rewrite map_app, Hids. apply NoDup_app. split_and!; [apply Hok| |done].
    intros i Hi (j & -> & Hjn)%list_elem_of_fmap. eapply Forall_forall in Hnew; [|done]. naive_solver.
  - intros j [Hjo|Hjn]%elem_of_app.
    + destruct (Hold j Hjo) as (k & Hk & <- & _). by apply (lo_project_pos db Hok).
    + eapply Forall_forall in Hnew; [|done]. naive_solver.
  - intros x Hx. rewrite Hal. by apply (lo_allocations db Hok).
  - intros x a Hx. rewrite Hal. by apply (lo_owner db Hok).
  - intros x Hx ? ?. destruct (lo_project db Hok x Hx) as (k & Hk & Hkid & Hku); [done|done|].
    destruct (Hback k Hk) as (j & ? & ? & ?). exists j. rewrite elem_of_app. split_and!; [by left|congruence|congruence].
  - intros p Hpin. rewrite Hpd. by apply (lo_used db Hok).
  - intros j [Hjo|Hjn]%elem_of_app; rewrite Hjd.
    + destruct (Hold j Hjo) as (k & Hk & <- & _ & <-). by apply (lo_budget db Hok).
    + eapply Forall_forall in Hnew as (-> & Hpos & Hni); [|done]. by rewrite project_debt_absent.
Qed.

(** ** Reserve

    What a call of [Reserve] that succeeds did: a replay that wrote nothing, or
    one admission. *)

Lemma affected_exists {A} (p : A → bool) l : affected p l ≠ 0 → ∃ x, x ∈ l ∧ p x = true.
Proof.
  unfold affected, where_. intros H. destruct (List.filter p l) as [|x k] eqn:E; [done|].
  exists x. rewrite list_elem_of_In, <- filter_In, E. by left.
Qed.

(** A charge of a project's budget is inside its cap. *)
Lemma charge_spec env db id uid credits db' :
  NoDup (map pj_Id db.(lg_projects)) → 0 < credits → AddBudgetSpent env db id uid credits = Ok db' →
  db' = set_projects db (shift_budget (λ i, if id =? i then credits else 0) db.(lg_projects))
  ∧ ∃ j, j ∈ db.(lg_projects) ∧ j.(pj_Id) = id ∧ j.(pj_UID) = uid ∧ j.(pj_DeletedAt) = None
      ∧ within_cap credits j = true.
Proof.
  intros Hn Hc E. unfold AddBudgetSpent in E. destruct (negb _); [|done].
  destruct (Z.eqb_spec credits 0); [lia|]. destruct (Z.ltb_spec credits 0); [lia|].
  destruct (le_fault env StChargeBudget); [done|].
  destruct (Z.eqb_spec (affected (λ p, live_project id uid p && within_cap credits p) (lg_projects db)) 1) as [H1|].
  2: { destruct (le_fault env StCountProject); [done|]. by destruct (_ =? 0). }
  injection E as <-. destruct (affected_exists (λ p, live_project id uid p && within_cap credits p) (lg_projects db))
    as (j & Hj & Hp); [lia|].
  assert (Hfact : pj_Id j = id ∧ pj_UID j = uid ∧ pj_DeletedAt j = None ∧ within_cap credits j = true).
  { unfold live_project, project_of in Hp. by bool_hyps. }
  split; [|by exists j]. destruct Hfact as (Hid & _).
  f_equal. unfold update_where, shift_budget. apply map_ext_in. intros k Hk%list_elem_of_In.
  destruct (Z.eqb_spec id (pj_Id k)) as [He|Hne].
  - assert (k = j) as -> by (apply (keyed_unique pj_Id (lg_projects db)); [done|done|done|congruence]).
    cbv beta. by rewrite Hp.
  - unfold live_project, project_of. destruct (Z.eqb_spec (pj_Id k) id); [congruence|]. simpl.
    destruct k. unfold add_spent. simpl. f_equal. lia.
Qed.

(** The packs that may pay, in the order they pay. *)
Definition paying_packs (env : ledger_env) (db : Ledger) (uid : Z) (now : time) : list CreditsPack :=
  order_by (λ a b, negb (allocation_less b a)) (order_by pack_id_le
    (where_ (λ p, spendable uid now (isSubscriptionCreditsActiveTx env db uid now) p
                  && (p.(cp_CreditsUsed) <? p.(cp_CreditsTotal))) db.(lg_packs))).

Lemma paying_in env db uid now p :
  p ∈ paying_packs env db uid now →
  p ∈ db.(lg_packs) ∧ p.(cp_UID) = uid ∧ unexpired now p.(cp_ExpiresAt) = true ∧ p.(cp_CreditsUsed) < p.(cp_CreditsTotal).
Proof.
  unfold paying_packs. rewrite !elem_order_by, elem_where. intros [? Hs]. unfold spendable in Hs. by bool_hyps.
Qed.

Lemma paying_NoDup env db uid now : NoDup (map cp_Id db.(lg_packs)) → NoDup (map cp_Id (paying_packs env db uid now)).
Proof. intros H. unfold paying_packs. rewrite !order_by_perm. by apply NoDup_where. Qed.

Lemma granted_packs db dbe :
  granted db dbe → NoDup (map cp_Id db.(lg_packs)) → (∀ p, p ∈ db.(lg_packs) → p.(cp_CreditsUsed) ≤ p.(cp_CreditsTotal)) →
  NoDup (map cp_Id dbe.(lg_packs)) ∧ (∀ p, p ∈ dbe.(lg_packs) → p.(cp_CreditsUsed) ≤ p.(cp_CreditsTotal)).
Proof.
  intros [|uid st sid credits expires remark Hc] Hn Hb; [done|]. simpl. split.
  - rewrite map_app. apply NoDup_app. split_and!; [done| |apply NoDup_singleton].
    intros i Hi ->%list_elem_of_singleton. by apply fresh_row_id_fresh in Hi.
  - intros p [Hp| ->%list_elem_of_singleton]%elem_of_app; [by apply Hb|simpl; lia].
Qed.

(** A debit: the grant of the current cycle, then the packs that expire first. *)
Lemma reserve_credits_spec env db uid cost now l db' :
  NoDup (map cp_Id db.(lg_packs)) → (∀ p, p ∈ db.(lg_packs) → p.(cp_CreditsUsed) ≤ p.(cp_CreditsTotal)) →
  0 < cost → ReserveCreditsDetailedAtTx env db uid cost now = Ok (l, db') →
  ∃ dbe, granted db dbe
    ∧ db' = set_packs dbe (shift_used (λ i, credits_of i l) dbe.(lg_packs))
    ∧ sum_by al_Credits l = cost ∧ NoDup (map al_PackID l)
    ∧ (∀ i, credits_of i l = taken i (paying_packs env dbe uid now) cost)
    ∧ (∀ a, a ∈ l → 0 < a.(al_Credits) ∧ ∃ p, p ∈ dbe.(lg_packs) ∧ p.(cp_Id) = a.(al_PackID) ∧ p.(cp_UID) = uid)
    ∧ (∀ p, p ∈ dbe.(lg_packs) → p.(cp_CreditsUsed) + credits_of p.(cp_Id) l ≤ p.(cp_CreditsTotal)).
Proof.
  intros Hn0 Hb0 Hc E. unfold ReserveCreditsDetailedAtTx in E. destruct (Z.leb_spec cost 0); [lia|].
  destruct (ensureCurrentSubscriptionCreditsTx env db uid now) as [dbe|] eqn:Ee; [|done].
  apply ensure_granted in Ee. destruct (granted_packs db dbe Ee Hn0 Hb0) as [Hne Hbe]. exists dbe.
  destruct (le_fault env StLockPacks); [done|]. fold (paying_packs env dbe uid now) in E.
  set (packs := paying_packs env dbe uid now) in *.
  destruct (debit_packs env dbe packs cost []) as [r|] eqn:Ed; [|done].
  pose proof (paying_NoDup env dbe uid now Hne) as Hnd. fold packs in Hnd.
  apply debit_packs_spec in Ed as (new & -> & Hcr & Hs & Hn & Hel); [|done|done| |done].
  2: { intros p Hp. by apply (paying_in env dbe uid now) in Hp as [? _]. }
  destruct (negb _) eqn:Hrem in E; [|done]. bool_hyps. injection E as <- <-. simpl app.
  split_and!; [done| |lia|done|done| |].
  - f_equal. apply shift_used_ext. intros p _. by rewrite Hcr.
  - intros a Ha. destruct (Hel a Ha) as (? & p & Hp & He). split; [done|].
    destruct (paying_in env dbe uid now p Hp) as (? & ? & _). exists p. by rewrite He.
  - intros p Hp. rewrite Hcr. pose proof (Hbe p Hp). destruct (decide (cp_Id p ∈ map cp_Id packs)) as [Hin|Hout].
    + apply list_elem_of_fmap in Hin as (q & Hq & Hqin).
      assert (q = p) as -> by (apply (keyed_unique cp_Id (lg_packs dbe)); [done| |done|done];
                               by apply (paying_in env dbe uid now) in Hqin as [? _]).
      pose proof (taken_available packs p cost Hnd Hqin ltac:(lia)). unfold available in *. lia.
    + rewrite taken_other; [lia|]. intros q Hq He. destruct Hout. rewrite <- He. by apply list_elem_of_fmap_2.
Qed.

(** ** The request *)

Lemma digest_request_ok req digest :
  CanonicalReservationRequestDigest req = Ok digest →
  0 < req.(rq_UID) ∧ 0 ≤ req.(rq_Reserved) ≤ maxReservationSchemaInt
  ∧ len digest = 64 ∧ lower_hex_text digest = true.
Proof.
  unfold CanonicalReservationRequestDigest. intros E.
  destruct (negb _) eqn:H1 in E; [|done]. destruct (negb _) eqn:H2 in E; [|done].
  destruct (negb _) eqn:H3 in E; [|done]. destruct (negb _) eqn:H4 in E; [|done].
  destruct (validateReservationText (rq_Tool req) _); [done|].
  destruct (validateReservationText (rq_IdempotencyKey req) _); [done|].
  destruct (negb _) eqn:H5 in E; [|done]. injection E as <-. bool_hyps. split_and!; [lia|lia|lia| |].
  - apply sha256_hex_len.
  - apply sha256_hex_text.
Qed.

Lemma new_reservation_ok id now req digest :
  0 < id → CanonicalReservationRequestDigest req = Ok digest →
  reservation_ok (new_reservation id now req digest).
Proof.
  intros Hid (? & ? & ? & ?)%digest_request_ok. split; try done. by apply rs_reserved.
Qed.

Lemma key_is_true uid key r : reservation_key_is uid key r = true ↔ owner_key r = (uid, key).
Proof. unfold reservation_key_is, owner_key. rewrite andb_true_iff, Z.eqb_eq, bool_decide_eq_true. naive_solver. Qed.

(** ** Admission *)

Lemma granted_under rs js db d :
  granted (set_projects (set_reservations db rs) js) d →
  ∃ dbe, granted db dbe ∧ d = set_projects (set_reservations dbe rs) js
    ∧ dbe.(lg_reservations) = db.(lg_reservations) ∧ dbe.(lg_projects) = db.(lg_projects)
    ∧ dbe.(lg_allocations) = db.(lg_allocations).
Proof.
  intros [|uid st sid credits expires remark Hc]; [exists db; by split_and!; [constructor|..]|].
  exists (insert_pack db uid st sid credits expires remark). split_and!; [by constructor|done..].
Qed.

(** The project of a new reservation. *)
Lemma reserve_budget_spec env db rs pid uid reserved db2 :
  ledger_ok db → 0 ≤ reserved →
  (if (0 <? pid) && (0 <? reserved) then AddBudgetSpent env (set_reservations db rs) pid uid reserved
   else Ok (set_reservations db rs)) = Ok db2 →
  db2 = set_projects (set_reservations db rs) (shift_budget (λ i, if pid =? i then reserved else 0) db.(lg_projects))
  ∧ (0 < pid → 0 < reserved → ∃ j, j ∈ db.(lg_projects) ∧ j.(pj_Id) = pid ∧ j.(pj_UID) = uid
       ∧ j.(pj_DeletedAt) = None ∧ within_cap reserved j = true).
Proof.
  intros Hok Hres E. destruct ((0 <? pid) && (0 <? reserved)) eqn:Hb.
  - bool_hyps. by apply charge_spec in E as [-> Hj]; [|apply Hok|].
  - injection E as <-. apply andb_false_iff in Hb. rewrite !Z.ltb_ge in Hb. split; [|lia].
    rewrite shift_budget_0; [done|]. intros j Hj. pose proof (lo_project_pos db Hok j Hj).
    destruct (Z.eqb_spec pid (pj_Id j)); [lia|done].
Qed.

(** The packs of a new reservation; a free reservation takes nothing. *)
Lemma reserve_packs_spec env db rs js uid cost now l db3 :
  ledger_ok db → 0 ≤ cost →
  (if 0 <? cost then ReserveCreditsDetailedAtTx env (set_projects (set_reservations db rs) js) uid cost now
   else Ok ([], set_projects (set_reservations db rs) js)) = Ok (l, db3) →
  ∃ dbe, granted db dbe ∧ ledger_ok dbe
    ∧ db3 = set_packs (set_projects (set_reservations dbe rs) js) (shift_used (λ i, credits_of i l) dbe.(lg_packs))
    ∧ dbe.(lg_reservations) = db.(lg_reservations) ∧ dbe.(lg_projects) = db.(lg_projects)
    ∧ dbe.(lg_allocations) = db.(lg_allocations)
    ∧ sum_by al_Credits l = cost ∧ NoDup (map al_PackID l)
    ∧ (∀ a, a ∈ l → 0 < a.(al_Credits) ∧ ∃ p, p ∈ dbe.(lg_packs) ∧ p.(cp_Id) = a.(al_PackID) ∧ p.(cp_UID) = uid)
    ∧ (∀ p, p ∈ dbe.(lg_packs) → p.(cp_CreditsUsed) + credits_of p.(cp_Id) l ≤ p.(cp_CreditsTotal)).
Proof.
  intros Hok Hc E. destruct (Z.ltb_spec 0 cost).
  - apply reserve_credits_spec in E as (d & Hg & -> & Hs & Hn & _ & Hel & Hfit);
      [|apply Hok|apply (lo_bound db Hok)|done].
    apply granted_under in Hg as (dbe & Hg & -> & Hr & Hj & Ha). exists dbe. simpl in *.
    split_and!; try done. by apply (granted_ok db).
  - injection E as <- <-. exists db. rewrite shift_used_0 by done. assert (cost = 0) as -> by lia.
    split_and!; try done; [constructor|constructor|by intros ? ?%not_elem_of_nil|].
    intros p Hp. pose proof (lo_bound db Hok p Hp). unfold credits_of. change (sum_by _ []) with 0. lia.
Qed.

(** A call of [Reserve] that succeeds is a replay, or admits one reservation. *)
Lemma Reserve_spec env db req res db' :
  ledger_ok db → Reserve env db req = Ok (res, db') →
  ∃ digest, CanonicalReservationRequestDigest req = Ok digest
    ∧ owner_key res.(rr_Reservation) = (req.(rq_UID), req.(rq_IdempotencyKey))
    ∧ ((res.(rr_Created) = false ∧ db' = db ∧ res.(rr_Reservation) ∈ db.(lg_reservations)
        ∧ reservationReplayMatches res.(rr_Reservation) req digest = true)
       ∨ (res.(rr_Created) = true ∧ (req.(rq_UID), req.(rq_IdempotencyKey)) ∉ map owner_key db.(lg_reservations)
          ∧ ∃ now dbe l, env.(le_now) 0%nat = Ok now ∧ granted db dbe
            ∧ res.(rr_Reservation) = new_reservation (fresh_row_id (map cr_Id db.(lg_reservations))) now req digest
            ∧ dbe.(lg_reservations) = db.(lg_reservations) ∧ dbe.(lg_allocations) = db.(lg_allocations)
            ∧ db' = admitted dbe res.(rr_Reservation) l ∧ ledger_ok db')).
Proof.
  intros Hok E. unfold Reserve in E.
  destruct (CanonicalReservationRequestDigest req) as [digest|] eqn:Ed; [|done]. exists digest. split; [done|].
  destruct (le_now env 0) as [now|] eqn:En; [|done]. destruct (le_fault env StInsertReservation); [done|].
  destruct (existsb _ _) eqn:Hex.
  { destruct (le_fault env StFindReservation); [done|]. destruct (first_row _ _) as [existing|] eqn:Ef; [|done].
    destruct (reservationReplayMatches existing req digest) eqn:Hm; [|done]. injection E as <- <-.
    apply first_row_Some in Ef as [Hin Hk]. simpl. split; [by apply key_is_true|]. by left. }
  destruct (digest_request_ok req digest Ed) as (_ & Hres & _).
  set (r := new_reservation (fresh_row_id (map cr_Id (lg_reservations db))) now req digest) in *.
  destruct (if (0 <? _) && _ then _ else _) as [db2|] eqn:Eb; [|done].
  apply reserve_budget_spec in Eb as [-> Hprj]; [|done|lia].
  destruct (if 0 <? _ then _ else _) as [[l db3]|] eqn:Ep; [|done].
  apply reserve_packs_spec in Ep as (dbe & Hg & Hoke & -> & Er & Ej & Ea & Hs & Hn & Hel & Hfit); [|done|lia].
  assert (Hfresh : (rq_UID req, rq_IdempotencyKey req) ∉ map owner_key (lg_reservations db)).
  { intros (x & Hx & Hin)%list_elem_of_fmap. apply not_true_iff_false in Hex. destruct Hex.
    apply existsb_exists. exists x. rewrite <- list_elem_of_In. split; [done|]. by apply key_is_true. }
  assert (Hadm : ledger_ok (admitted dbe r l)).
  { apply admitted_ok; simpl; rewrite ?Er; try done.
    - apply new_reservation_ok; [apply next_id_pos|done].
    - intros Hp Hr0. destruct (Hprj Hp Hr0) as (j & ? & ? & ? & _). exists j. by rewrite Ej. }
  assert (Hdb : Ok (mkReservationResult r true, admitted dbe r l) = Ok (res, db')).
  { rewrite <- E. unfold admitted. simpl. rewrite <- Er, <- Ej.
    destruct (Nat.eqb_spec (length l) 0) as [Hz|_].
    - apply nil_length_inv in Hz as ->. simpl. rewrite app_nil_r. by destruct dbe.
    - destruct (le_fault env StInsertAllocations); [by rewrite Er, Ej in *|]. by destruct dbe. }
  injection Hdb as <- <-. simpl. split; [done|]. right. split_and!; [done|done|].
  exists now, dbe, l. split_and!; done.
Qed.
