(* ===== verification/CreditRuns.v ===== *)
(** * Histories of the credit ledger

    [ledger_step] is one transaction of the credit services that commits, with
    any arguments, clock readings and faults, or a change outside them; a
    transaction that fails rolls back and is no step. *)

From Stdlib Require Import Ascii.
From stdpp Require Import sorting.
From S2P Require Import Prelude GoText GoDigest GoTime AgentContract TurnTypes ExecutionTypes SubscriptionCycle CreditTables CreditsPack ProjectBudget CreditReservation CreditChecks CreditPackFacts CreditRefundFacts CreditLedgerFacts CreditOperationFacts CreditReserveFacts.

Inductive ledger_step (db : Ledger) : Ledger → Prop :=
| ls_reserve env req res db' : Reserve env db req = Ok (res, db') → ledger_step db db'
| ls_hold env id hold b db' : holdForReview env db id hold b = Ok db' → ledger_step db db'
| ls_finalize env id used hold b db' : finalize env db id used hold b = Ok db' → ledger_step db db'
| ls_release env id hold db' : release env db id hold = Ok db' → ledger_step db db'
| ls_sweep env candidate cutoff outcome db' :
    sweep_body env db candidate cutoff = Ok (outcome, db') → ledger_step db db'
| ls_ensure env uid now db' : ensureCurrentSubscriptionCreditsTx env db uid now = Ok db' → ledger_step db db'
| ls_create env uid st sid credits expires remark db' :
    CreatePackTx env db uid st sid credits expires remark = Ok db' → ledger_step db db'
| ls_add env uid st sid credits expires remark db' :
    AddToPackTx env db uid st sid credits expires remark = Ok db' → ledger_step db db'
| ls_cycle env uid plan grant credits expires remark db' :
    createSubscriptionCyclePackTx env db uid plan grant credits expires remark = Ok db' → ledger_step db db'
| ls_revoke env orderNo db' : RevokeOrderCreditsTx env db orderNo = Ok db' → ledger_step db db'
| ls_clip env uid cutoff db' : ClipSubscriptionCreditsTx env db uid cutoff = Ok db' → ledger_step db db'
| ls_cap env id uid cap db' : SetBudgetCapForOwner env db id uid cap = Ok db' → ledger_step db db'
| ls_outside db' : outside db db' → ledger_step db db'.

Definition ledger_reachable (db : Ledger) : Prop := rtc ledger_step empty_ledger db.

Lemma cap_outside env db id uid cap db' : SetBudgetCapForOwner env db id uid cap = Ok db' → outside db db'.
Proof.
  unfold SetBudgetCapForOwner. intros E. destruct (negb _); [|done]. destruct (negb _); [|done].
  destruct (le_fault env StSetBudgetCap); [done|]. destruct (negb _); [|done]. injection E as <-.
  split; try done. simpl. eexists _, []. rewrite app_nil_r. split_and!; [done| |constructor|constructor].
  unfold update_where. rewrite map_map. apply map_ext. intros j. by destruct (live_project id uid j).
Qed.

Lemma ledger_step_ok db db' : ledger_ok db → ledger_step db db' → ledger_ok db'.
Proof.
  intros Hok. destruct 1 as [env req res db' E|env id hold b db' E|env id used hold b db' E|env id hold db' E
    |env c cutoff o db' E|env uid now db' E|env uid st sid credits ex rm db' E|env uid st sid credits ex rm db' E
    |env uid plan grant credits ex rm db' E|env no db' E|env uid cutoff db' E|env id uid cap db' E|db' H].
  - apply Reserve_spec in E as (d & _ & _ & [(_ & -> & _)|(_ & _ & now & dbe & l & _ & _ & _ & _ & _ & _ & ?)]); done.
  - apply hold_moves in E as [? _]; [|done]. by eapply ledger_moves_ok.
  - apply finalize_settles in E as [_ [? _]]; [|done]. by eapply ledger_moves_ok.
  - apply release_settles in E as [? _]; [|done]. by eapply ledger_moves_ok.
  - apply sweep_moves in E as [? _]; [|done]. by eapply ledger_moves_ok.
  - apply ensure_granted in E. by eapply granted_ok.
  - apply CreatePack_granted in E. by eapply granted_ok.
  - by eapply AddToPack_ok.
  - apply createSubscriptionCyclePack_granted in E. by eapply granted_ok.
  - by eapply Revoke_ok.
  - by eapply Clip_ok.
  - apply cap_outside in E. by eapply outside_ok.
  - by eapply outside_ok.
Qed.

Lemma ledger_steps_ok db db' : ledger_ok db → rtc ledger_step db db' → ledger_ok db'.
Proof. intros Hok H. induction H; [done|]. eauto using ledger_step_ok. Qed.

Lemma reachable_ok db : ledger_reachable db → ledger_ok db.
Proof. apply ledger_steps_ok, empty_ledger_ok. Qed.

(** ** Rows along a history *)

(** Every row of the first ledger is in the second, moved. *)
Definition rows_move (db db' : Ledger) : Prop :=
  ∀ r, r ∈ db.(lg_reservations) → ∃ r', r' ∈ db'.(lg_reservations) ∧ rtc row_move r r'.

Lemma rows_move_refl db db' : db'.(lg_reservations) = db.(lg_reservations) → rows_move db db'.
Proof. intros H r Hr. exists r. rewrite H. by split; [|apply rtc_refl]. Qed.

Lemma rows_move_trans db1 db2 db3 : rows_move db1 db2 → rows_move db2 db3 → rows_move db1 db3.
Proof.
  intros H1 H2 r Hr. destruct (H1 r Hr) as (r2 & Hr2 & Hm). destruct (H2 r2 Hr2) as (r3 & Hr3 & Hm2).
  exists r3. split; [done|]. by etrans.
Qed.

Lemma ledger_move_rows id db db' : ledger_ok db → ledger_move id db db' → rows_move db db'.
Proof.
  intros Hok [r f Hr <- Hm] x Hx. destruct (Z.eqb_spec (cr_Id x) (cr_Id r)) as [He|Hne].
  - assert (x = r) as -> by (apply (keyed_unique cr_Id (lg_reservations db)); [apply Hok|done|done|done]).
    exists (f r). split; [by apply transition_row_of|by apply rtc_once].
  - exists x. split; [|apply rtc_refl]. simpl. apply elem_update_where. exists x. split; [done|].
    unfold reservation_is. by destruct (Z.eqb_spec (cr_Id x) (cr_Id r)).
Qed.

Lemma ledger_moves_rows id db db' : ledger_ok db → rtc (ledger_move id) db db' → rows_move db db'.
Proof.
  intros Hok H. induction H as [|db1 db2 db3 Hm _ IH]; [by apply rows_move_refl|].
  eapply rows_move_trans; [by eapply ledger_move_rows|]. apply IH. by eapply ledger_move_ok.
Qed.

(** Moves of one reservation change every sum over the rows by that row alone. *)
Lemma ledger_moves_sum id db db' r :
  ledger_ok db → rtc (ledger_move id) db db' → r ∈ db.(lg_reservations) → r.(cr_Id) = id →
  ∃ r', r' ∈ db'.(lg_reservations) ∧ r'.(cr_Id) = id ∧ rtc row_move r r'
    ∧ ∀ v : CreditReservation → Z, sum_by v db'.(lg_reservations) = sum_by v db.(lg_reservations) - v r + v r'.
Proof.
  intros Hok H. revert r. induction H as [db|db db1 db2 Hm Hms IH]; intros r Hr Hid.
  - exists r. split_and!; [done|done|apply rtc_refl|]. intros v. lia.
  - pose proof (ledger_move_ok _ _ _ Hok Hm) as Hok1. destruct Hm as [x f Hx Hxid Hrm].
    assert (x = r) as -> by (apply (keyed_unique cr_Id (lg_reservations db)); [apply Hok|done|done|congruence]).
    destruct (IH Hok1 (f r)) as (r' & Hr' & Hid' & Hrms & Hsum).
    + by apply transition_row_of.
    + apply row_move_request in Hrm. injection Hrm as ? _ _ _ _ _ _ _ _ _. congruence.
    + exists r'. split_and!; [done|done|by eapply rtc_l|]. intros v. rewrite Hsum, transition_sum by done. lia.
Qed.

Lemma granted_reservations db db' : granted db db' → db'.(lg_reservations) = db.(lg_reservations).
Proof. by intros []. Qed.

Lemma ledger_step_rows db db' : ledger_ok db → ledger_step db db' → rows_move db db'.
Proof.
  intros Hok. destruct 1 as [env req res db' E|env id hold b db' E|env id used hold b db' E|env id hold db' E
    |env c cutoff o db' E|env uid now db' E|env uid st sid credits ex rm db' E|env uid st sid credits ex rm db' E
    |env uid plan grant credits ex rm db' E|env no db' E|env uid cutoff db' E|env id uid cap db' E|db' H].
  - apply Reserve_spec in E as (d & _ & _ & [(_ & -> & _)|(_ & _ & now & dbe & l & _ & _ & _ & Er & _ & -> & _)]);
      [by apply rows_move_refl| |done].
    intros r Hr. exists r. split; [|apply rtc_refl]. simpl. rewrite Er. apply elem_of_app. by left.
  - apply hold_moves in E as [? _]; [|done]. by eapply ledger_moves_rows.
  - apply finalize_settles in E as [_ [? _]]; [|done]. by eapply ledger_moves_rows.
  - apply release_settles in E as [? _]; [|done]. by eapply ledger_moves_rows.
  - apply sweep_moves in E as [? _]; [|done]. by eapply ledger_moves_rows.
  - apply ensure_granted in E. by apply rows_move_refl, granted_reservations.
  - apply CreatePack_granted in E. by apply rows_move_refl, granted_reservations.
  - apply rows_move_refl. unfold AddToPackTx in E. destruct (_ <=? _); [by injection E as <-|].
    destruct (le_fault _ _); [done|]. by destruct (existsb _ _); injection E as <-.
  - apply createSubscriptionCyclePack_granted in E. by apply rows_move_refl, granted_reservations.
  - apply rows_move_refl. unfold RevokeOrderCreditsTx in E. destruct (bool_decide _); [by injection E as <-|].
    destruct (le_fault _ _); [done|]. by injection E as <-.
  - apply rows_move_refl. unfold ClipSubscriptionCreditsTx in E. destruct (le_fault _ _); [done|]. by injection E as <-.
  - apply cap_outside in E. by apply rows_move_refl, E.
  - by apply rows_move_refl, H.
Qed.

Lemma ledger_steps_rows db db' : ledger_ok db → rtc ledger_step db db' → rows_move db db'.
Proof.
  intros Hok H. induction H as [|db1 db2 db3 Hs _ IH]; [by apply rows_move_refl|].
  eapply rows_move_trans; [by apply ledger_step_rows|]. apply IH. by eapply ledger_step_ok.
Qed.

(** ** What moves cannot do *)

Lemma terminal_stuck r r' : row_state r → known_terminal r.(cr_Status) = true → ¬ row_move r r'.
Proof.
  intros Hs Hk Hm. destruct Hm as [hold now Hst|now Hst|? ? ? Ho|? ? Hst|? ? Hst|? ? Ho]; try clash;
    destruct Ho; clash.
Qed.

Lemma row_moves_ok r r' : reservation_ok r → rtc row_move r r' → reservation_ok r'.
Proof. intros Hok H. induction H; eauto using row_move_ok. Qed.

Lemma row_moves_request r r' : rtc row_move r r' → request_of r' = request_of r.
Proof. induction 1 as [|x y z Hm _ IH]; [done|]. rewrite IH. by apply row_move_request. Qed.

Lemma terminal_frozen r r' :
  row_state r → known_terminal r.(cr_Status) = true → rtc row_move r r' → r' = r.
Proof.
  intros Hs Hk H. inversion H as [|? y ? Hm _]; subst; [done|]. by destruct (terminal_stuck r y Hs Hk).
Qed.

(** A queued refund only ever ends in its target. *)
Lemma pending_frozen r r' used :
  reservation_ok r → r.(cr_Status) = StatusRefundPending → r.(cr_RefundTargetUsed) = Some used →
  rtc row_move r r' → settled_as r.(cr_RefundTargetStatus) used r'.
Proof.
  intros Hok Hst Hu H. induction H as [r|r r1 r2 Hm Hms IH]; [by right|].
  pose proof (row_move_ok r r1 Hok Hm) as Hok1. destruct (decide (cr_Status r1 = StatusRefundPending)) as [Hp|Hp].
  - destruct (pending_target r r1 (ro_state r Hok) Hst Hm Hp) as [<- Ht]. apply IH; [done|done|congruence].
  - destruct Hm as [hold now Hs|now Hs|? ? ? Ho|? ? Hs|u now Hs Hu'|? ? Ho]; try clash; try (destruct Ho; clash).
    + simpl in Hp. congruence.
    + assert (u = used) as -> by congruence. apply terminal_frozen in Hms as ->; [by left|apply Hok1|].
      simpl. by destruct (row_state_pending r (ro_state r Hok) Hst) as (? & _ & _ & ? & _).
Qed.

(** Rows of the same id at two points of a history. *)
Lemma row_later db db' r :
  ledger_ok db → rtc ledger_step db db' → r ∈ db.(lg_reservations) →
  ∃ r', r' ∈ db'.(lg_reservations) ∧ rtc row_move r r'
    ∧ ∀ x, x ∈ db'.(lg_reservations) → x.(cr_Id) = r.(cr_Id) → x = r'.
Proof.
  intros Hok H Hr. destruct (ledger_steps_rows db db' Hok H r Hr) as (r' & Hr' & Hm). exists r'. split_and!; [done|done|].
  intros x Hx He. apply (keyed_unique cr_Id (lg_reservations db')); [apply (ledger_steps_ok db db' Hok H)|done|done|].
  apply row_moves_request in Hm. injection Hm as Hid _ _ _ _ _ _ _ _ _. congruence.
Qed.

(** ** A concrete history of the credit ledger

    A user with two packs and a project with a budget; one reservation of 60
    credits, held by a review, settled for 45. *)

Definition creditClock : time := 63890000000 * second.

(** A database that works, and one where the statement [st] fails. *)
Definition calm (n : Z) : ledger_env :=
  mkLedgerEnv (λ _, Ok (creditClock + n * second)) (creditClock + n * second) (λ _, None) (λ _, None).
Definition failing (st : ledger_statement) (n : Z) : ledger_env :=
  mkLedgerEnv (λ _, Ok (creditClock + n * second)) (creditClock + n * second)
    (λ s, match s, st with
          | StLockProject, StLockProject => Some (ErrText "lock wait timeout")
          | StRefundPack a, StRefundPack b => if a =? b then Some (ErrText "lock wait timeout") else None
          | _, _ => None
          end) (λ _, None).

Definition demoUser : User := mkUser 7 0 0 0 "".
Definition demoProject : CanvasProject := mkCanvasProject 3 7 None (Some 100) 0.

Definition creditLedger0 : Ledger := mkLedger [demoUser] [] [demoProject] [] [] [] [] [].
Definition creditLedger1 : Ledger :=
  insert_pack creditLedger0 7 CreditsSourcePurchase "order-1" 50 None "".
Definition creditLedger2 : Ledger :=
  insert_pack creditLedger1 7 CreditsSourceBonus "gift-1" 40 (Some (creditClock + 3600 * second)) "".

Definition demoRequest : ReservationRequest :=
  mkReservationRequest 7 "canvas_agent" "turn-1" "quote-1" 60 (10 * minute) "" 3.
Definition demoReview : ReservationReviewHold :=
  mkReviewHold "review-1" "settlement-1" "sha256:0123456789abcdef0123456789abcdef0123456789abcdef0123456789abcdef".

Definition creditRow : CreditReservation :=
  Eval vm_compute in new_reservation 1 creditClock demoRequest
    (match CanonicalReservationRequestDigest demoRequest with Ok d => d | Err _ => "" end).

(** The pack that expires first pays 40, the other one 20. *)
Definition creditLedger3 : Ledger :=
  Eval vm_compute in admitted creditLedger2 creditRow [mkPackAllocation 2 40 0; mkPackAllocation 1 20 1].

Lemma demo_digest : CanonicalReservationRequestDigest demoRequest = Ok creditRow.(cr_RequestDigest).
Proof. vm_compute. reflexivity. Qed.

Lemma demo_reserve : Reserve (calm 0) creditLedger2 demoRequest = Ok (mkReservationResult creditRow true, creditLedger3).
Proof. unfold Reserve. rewrite demo_digest. vm_compute. reflexivity. Qed.

Definition creditLedger4 : Ledger :=
  Eval vm_compute in match holdForReview (calm 1) creditLedger3 1 demoReview false with Ok db => db | Err _ => creditLedger3 end.
Lemma demo_hold : holdForReview (calm 1) creditLedger3 1 demoReview false = Ok creditLedger4.
Proof. vm_compute. reflexivity. Qed.

(** The refund fails once, because the project row cannot be locked. *)
Definition creditLedger5 : Ledger :=
  Eval vm_compute in match FinalizeReview (failing StLockProject 2) creditLedger4 1 demoReview 45 with
                     | Ok db => db | Err _ => creditLedger4 end.
Lemma demo_finalize : FinalizeReview (failing StLockProject 2) creditLedger4 1 demoReview 45 = Ok creditLedger5.
Proof. vm_compute. reflexivity. Qed.

(** A minute later the refund of 15 credits goes through. *)
Definition creditLedger6 : Ledger :=
  Eval vm_compute in match FinalizeReview (calm 63) creditLedger5 1 demoReview 45 with Ok db => db | Err _ => creditLedger5 end.
Lemma demo_refund : FinalizeReview (calm 63) creditLedger5 1 demoReview 45 = Ok creditLedger6.
Proof. vm_compute. reflexivity. Qed.

Lemma demo_balances :
  (map cp_CreditsUsed creditLedger3.(lg_packs), map pj_BudgetCreditsUsed creditLedger3.(lg_projects),
   map cp_CreditsUsed creditLedger5.(lg_packs), map cp_CreditsUsed creditLedger6.(lg_packs),
   map pj_BudgetCreditsUsed creditLedger6.(lg_projects), map cr_Status creditLedger6.(lg_reservations))
  = ([20; 40], [60], [20; 40], [5; 40], [45], [StatusFinalized]).
Proof. vm_compute. reflexivity. Qed.

(** ** The history *)

Lemma finalize_step db id used hold db' env :
  FinalizeReview env db id hold used = Ok db' → ledger_step db db'.
Proof. unfold FinalizeReview. intros E. destruct (ReservationReviewHold_validate hold); [done|]. by eapply ls_finalize. Qed.

Lemma credit_reach2 : ledger_reachable creditLedger2.
Proof.
  eapply rtc_l with creditLedger0; [|eapply rtc_l with creditLedger1; [|apply rtc_once]].
  - apply ls_outside. split; try done. exists [], [demoProject]. split_and!; try done; [apply NoDup_singleton|].
    apply Forall_singleton. split_and!; try done. apply not_elem_of_nil.
  - apply (ls_create _ (calm 0) 7 CreditsSourcePurchase "order-1" 50 None ""). reflexivity.
  - apply (ls_create _ (calm 0) 7 CreditsSourceBonus "gift-1" 40 (Some (creditClock + 3600 * second)) "").
    vm_compute. reflexivity.
Qed.

Lemma credit_reach3 : ledger_reachable creditLedger3.
Proof. eapply rtc_r; [apply credit_reach2|]. eapply ls_reserve, demo_reserve. Qed.

Lemma credit_reach4 : ledger_reachable creditLedger4.
Proof. eapply rtc_r; [apply credit_reach3|]. eapply ls_hold, demo_hold. Qed.

Lemma credit_reach5 : ledger_reachable creditLedger5.
Proof. eapply rtc_r; [apply credit_reach4|]. eapply finalize_step, demo_finalize. Qed.

Lemma credit_reach6 : ledger_reachable creditLedger6.
Proof. eapply rtc_r; [apply credit_reach5|]. eapply finalize_step, demo_refund. Qed.
