(* ===== verification/CreditLedgerTheorems.v ===== *)
(** * The credit ledger: theorems *)

From Stdlib Require Import Ascii.
From stdpp Require Import sorting.
From S2P Require Import Prelude GoText GoDigest GoTime AgentContract TurnTypes ExecutionTypes SubscriptionCycle CreditTables CreditsPack ProjectBudget CreditReservation CreditChecks CreditPackFacts CreditRefundFacts CreditLedgerFacts CreditOperationFacts CreditReserveFacts CreditRuns.

(** ** Conservation *)

Definition owned_packs (db : Ledger) (uid : Z) : list CreditsPack := where_ (λ p, p.(cp_UID) =? uid) db.(lg_packs).
Definition owned_reservations (db : Ledger) (uid : Z) : list CreditReservation :=
  where_ (λ r, r.(cr_UID) =? uid) db.(lg_reservations).

(** The share of one reservation in the packs of one user. *)
Lemma share_of_user db uid r :
  ledger_ok db → r ∈ db.(lg_reservations) →
  sum_by (λ p, kept p.(cp_Id) (allocations_of db r.(cr_Id)) (held_units r)) (owned_packs db uid)
  = if r.(cr_UID) =? uid then held_units r else 0.
Proof.
  intros Hok Hr. pose proof (held_bounds r (lo_rows db Hok r Hr)) as Hb.
  destruct (lo_allocations db Hok r Hr) as [Hall Htot]. pose proof (allocations_positive_of db r Hok Hr) as Hpos.
  destruct (Z.eqb_spec (cr_UID r) uid) as [Hu|Hu].
  - transitivity (sum_by (λ i, kept i (allocations_of db (cr_Id r)) (held_units r)) (map cp_Id (owned_packs db uid))).
    { unfold sum_by. induction (owned_packs db uid); [done|]. simpl. by rewrite IHl. }
    rewrite kept_sum; [lia| | |lia|done].
    + apply NoDup_where. apply Hok.
    + intros a Ha. destruct (lo_owner db Hok r a Hr Ha) as (p & Hp & <- & Hpu). apply list_elem_of_fmap_2.
      apply elem_where. split; [done|]. apply Z.eqb_eq. congruence.
  - apply sum_by_zero. intros p [Hp Hpu]%elem_where. apply Z.eqb_eq in Hpu. apply kept_other. intros a Ha He.
    destruct (lo_owner db Hok r a Hr Ha) as (q & Hq & Hqa & Hqu).
    assert (q = p) as -> by (apply (keyed_unique cp_Id (lg_packs db)); [apply Hok|done|done|congruence]). congruence.
Qed.

Lemma user_balance db uid :
  ledger_ok db → sum_by cp_CreditsUsed (owned_packs db uid) = sum_by held_units (owned_reservations db uid).
Proof.
  intros Hok. rewrite (sum_by_ext _ (λ p, pack_debt db p.(cp_Id))).
  2: { intros p [Hp _]%elem_where. by apply (lo_used db Hok). }
  unfold pack_debt. rewrite sum_by_swap. unfold owned_reservations. rewrite sum_by_filter.
  apply sum_by_ext. intros r Hr. by apply share_of_user.
Qed.

(** C5: Credits are conserved.  In every reachable ledger the used credits of a
    pack lie between zero and its total and are exactly what the reservations
    hold on that pack; the used credits of a user's packs add up to the credits
    the user's reservations hold; and the spent budget of a project is what its
    reservations hold. *)
Theorem ledger_conservation db :
  ledger_reachable db →
  (∀ p, p ∈ db.(lg_packs) → 0 ≤ p.(cp_CreditsUsed) ≤ p.(cp_CreditsTotal) ∧ p.(cp_CreditsUsed) = pack_debt db p.(cp_Id))
  ∧ (∀ uid, sum_by cp_CreditsUsed (owned_packs db uid) = sum_by held_units (owned_reservations db uid))
  ∧ (∀ j, j ∈ db.(lg_projects) → j.(pj_BudgetCreditsUsed) = project_debt db j.(pj_Id)).
Proof.
  intros Hok%reachable_ok. split_and!; [|intros uid; by apply user_balance|apply (lo_budget db Hok)].
  intros p Hp. pose proof (lo_used db Hok p Hp) as Hu. pose proof (pack_debt_nonneg db (cp_Id p) Hok).
  pose proof (lo_bound db Hok p Hp). lia.
Qed.

Lemma ledger_conservation_witness :
  sum_by cp_CreditsUsed (owned_packs creditLedger6 7) = sum_by held_units (owned_reservations creditLedger6 7)
  ∧ sum_by cp_CreditsUsed (owned_packs creditLedger6 7) = 45.
Proof.
  split; [|vm_compute; reflexivity]. apply (ledger_conservation creditLedger6). apply credit_reach6.
Defined.

(** ** Refunds *)

(** C8: A refund attempt is all or nothing.  In a reachable ledger an attempt on a
    queued refund fails only when a statement of the database fails.  When it
    succeeds, either the row is in its target with every credit of the refund
    returned, so that the user's packs carry [RefundDue] fewer used credits, or a
    statement failed and no pack and no project changed: the row waits, with one
    more attempt counted. *)
Theorem refund_all_or_nothing env db r now :
  ledger_reachable db → r ∈ db.(lg_reservations) → r.(cr_Status) = StatusRefundPending →
  match attemptPendingRefundLocked env db r now with
  | Err e => ∃ st, env.(le_fault) st = Some e
  | Ok (_, db') =>
    (terminal_columns r.(cr_RefundTargetStatus) (r.(cr_Reserved) - r.(cr_RefundDue)) now r ∈ db'.(lg_reservations)
     ∧ sum_by cp_CreditsUsed (owned_packs db' r.(cr_UID))
       = sum_by cp_CreditsUsed (owned_packs db r.(cr_UID)) - r.(cr_RefundDue))
    ∨ ((∃ st e, env.(le_fault) st = Some e) ∧ db'.(lg_packs) = db.(lg_packs) ∧ db'.(lg_projects) = db.(lg_projects)
       ∧ ∃ r', r' ∈ db'.(lg_reservations) ∧ r'.(cr_Id) = r.(cr_Id) ∧ r'.(cr_Status) = StatusRefundPending
         ∧ r'.(cr_RefundAttempts) = next_attempt r)
  end.
Proof.
  intros Hok%reachable_ok Hr Hst. pose proof (attempt_spec env db r r now Hok Hr eq_refl Hst) as Hspec.
  destruct (attemptPendingRefundLocked env db r now) as [[m db']|e]; [|done].
  destruct Hspec as (f & Hm & Hdb & _ & _ & _ & Hcase). simpl in Hdb. subst db'.
  assert (Hrow := lo_rows db Hok r Hr). assert (Hmv : ledger_move (cr_Id r) db (transition db r f)) by by apply lm_move.
  destruct Hcase as [Hf|(Hp & Hat & Hfault)].
  - left. rewrite <- Hf. split; [by apply transition_row_of|].
    rewrite !user_balance by (done || by apply (ledger_move_ok (cr_Id r) db)).
    unfold owned_reservations. rewrite !sum_by_filter, transition_sum by done.
    destruct (row_state_pending r (ro_state r Hrow) Hst) as (u & _ & _ & Hk & _ & _ & Hdue & _).
    assert (Hu : cr_UID (f r) = cr_UID r) by (apply row_move_request in Hm; by injection Hm).
    rewrite Hu, Z.eqb_refl, (active_held r) by auto. rewrite Hf, closed_held by done. simpl. lia.
  - right. rewrite transition_row by (apply row_move_held_same; [done|done|by rewrite Hp]).
    split_and!; [done|done|done|]. exists (f r). split_and!; [|by apply row_move_request in Hm; injection Hm|done|done].
    rewrite <- transition_row by (apply row_move_held_same; [done|done|by rewrite Hp]). by apply transition_row_of.
Qed.

Definition pendingRow : CreditReservation :=
  Eval vm_compute in match creditLedger5.(lg_reservations) with r :: _ => r | [] => creditRow end.

Lemma refund_all_or_nothing_witness :
  match attemptPendingRefundLocked (calm 63) creditLedger5 pendingRow (creditClock + 63 * second) with
  | Err e => ∃ st, (calm 63).(le_fault) st = Some e
  | Ok (_, db') =>
    (terminal_columns pendingRow.(cr_RefundTargetStatus) (pendingRow.(cr_Reserved) - pendingRow.(cr_RefundDue))
       (creditClock + 63 * second) pendingRow ∈ db'.(lg_reservations)
     ∧ sum_by cp_CreditsUsed (owned_packs db' pendingRow.(cr_UID))
       = sum_by cp_CreditsUsed (owned_packs creditLedger5 pendingRow.(cr_UID)) - pendingRow.(cr_RefundDue))
    ∨ ((∃ st e, (calm 63).(le_fault) st = Some e) ∧ db'.(lg_packs) = creditLedger5.(lg_packs)
       ∧ db'.(lg_projects) = creditLedger5.(lg_projects)
       ∧ ∃ r', r' ∈ db'.(lg_reservations) ∧ r'.(cr_Id) = pendingRow.(cr_Id) ∧ r'.(cr_Status) = StatusRefundPending
         ∧ r'.(cr_RefundAttempts) = next_attempt pendingRow)
  end.
Proof. apply refund_all_or_nothing; [apply credit_reach5|left|reflexivity]. Defined.

(** ** Settlement *)

Definition heldRow : CreditReservation :=
  Eval vm_compute in match creditLedger4.(lg_reservations) with r :: _ => r | [] => creditRow end.

Lemma enforce_same_hold r r' hold : same_hold r r' → enforceReservationHold r' hold = enforceReservationHold r hold.
Proof.
  intros [[= H1 H2 H3] H4]. unfold enforceReservationHold, reservationHasHoldBinding, reservationHoldMatches.
  by rewrite H1, H2, H3, H4.
Qed.

(** The used credits of the owner after moves of one reservation. *)
Lemma moves_balance db db' r r' :
  ledger_ok db → rtc (ledger_move r.(cr_Id)) db db' → r ∈ db.(lg_reservations) →
  r' ∈ db'.(lg_reservations) → r'.(cr_Id) = r.(cr_Id) →
  sum_by cp_CreditsUsed (owned_packs db' r.(cr_UID))
  = sum_by cp_CreditsUsed (owned_packs db r.(cr_UID)) - held_units r + held_units r'.
Proof.
  intros Hok Hm Hr Hr' Hid. pose proof (ledger_moves_ok _ _ _ Hok Hm) as Hok'.
  destruct (ledger_moves_sum _ _ _ r Hok Hm Hr eq_refl) as (x & Hx & Hxid & Hrm & Hsum).
  assert (x = r') as -> by (apply (keyed_unique cr_Id (lg_reservations db')); [apply Hok'|done|done|congruence]).
  rewrite !user_balance by done. unfold owned_reservations. rewrite !sum_by_filter, Hsum.
  apply row_moves_request in Hrm. injection Hrm as _ _ Hu _ _ _ _ _ _ _. rewrite Hu, Z.eqb_refl. done.
Qed.

(** What an accepted finalize says of the row it locked. *)
Lemma finalize_accepts env db r used hold b db' :
  ledger_ok db → r ∈ db.(lg_reservations) → finalize env db r.(cr_Id) used hold b = Ok db' →
  enforceReservationHold r hold = None ∧ 0 ≤ used ≤ r.(cr_Reserved).
Proof.
  intros Hok Hr E. unfold finalize in E. destruct (Z.ltb_spec used 0); [done|]. simpl in E.
  destruct (lockReservation env db (cr_Id r)) as [x|] eqn:El; [|done]. apply lockReservation_Ok in El as [Hx Hid].
  assert (x = r) as -> by (apply (keyed_unique cr_Id (lg_reservations db)); [apply Hok|done|done|done]).
  destruct (enforceReservationHold r hold); [done|]. destruct (Z.ltb_spec (cr_Reserved r) used); [done|]. done.
Qed.

(** Finalize on a finalized row. *)
Lemma finalized_replay env db r used hold b :
  ledger_ok db → r ∈ db.(lg_reservations) → r.(cr_Status) = StatusFinalized → r.(cr_Used) = used →
  0 ≤ used ≤ r.(cr_Reserved) → enforceReservationHold r hold = None → env.(le_fault) StLockReservation = None →
  finalize env db r.(cr_Id) used hold b = Ok db.
Proof.
  intros Hok Hr Hs Hu Hb He Hf. unfold finalize. destruct (Z.ltb_spec used 0); [lia|]. simpl.
  rewrite (lock_row env db r), He by done. destruct (Z.ltb_spec (cr_Reserved r) used); [lia|]. simpl.
  unfold status_is. by rewrite Hs, bool_decide_true, Hu, Z.eqb_refl.
Qed.

Lemma finalized_refuses env db r used hold b :
  ledger_ok db → r ∈ db.(lg_reservations) → r.(cr_Status) = StatusFinalized → r.(cr_Used) ≠ used →
  ∃ e, finalize env db r.(cr_Id) used hold b = Err e.
Proof.
  intros Hok Hr Hs Hu. destruct (finalize env db (cr_Id r) used hold b) as [db'|e] eqn:E; [|by exists e].
  exfalso. unfold finalize in E. destruct (Z.ltb_spec used 0); [done|]. simpl in E.
  destruct (lockReservation env db (cr_Id r)) as [x|] eqn:El; [|done]. apply lockReservation_Ok in El as [Hx Hid].
  assert (x = r) as -> by (apply (keyed_unique cr_Id (lg_reservations db)); [apply Hok|done|done|done]).
  destruct (enforceReservationHold r hold); [done|]. destruct (Z.ltb_spec (cr_Reserved r) used); [done|].
  simpl in E. unfold status_is in E. rewrite Hs, bool_decide_true in E by done.
  destruct (Z.eqb_spec (cr_Used r) used); [done|]. done.
Qed.

Lemma finalized_keeps env db r hold :
  ledger_ok db → r ∈ db.(lg_reservations) → r.(cr_Status) = StatusFinalized →
  ∃ e, release env db r.(cr_Id) hold = Err e.
Proof.
  intros Hok Hr Hs. destruct (release env db (cr_Id r) hold) as [db'|e] eqn:E; [|by exists e].
  exfalso. unfold release in E. destruct (lockReservation env db (cr_Id r)) as [x|] eqn:El; [|done].
  apply lockReservation_Ok in El as [Hx Hid].
  assert (x = r) as -> by (apply (keyed_unique cr_Id (lg_reservations db)); [apply Hok|done|done|done]).
  destruct (enforceReservationHold r hold); [done|]. unfold status_is in E. rewrite Hs in E.
  rewrite bool_decide_false, bool_decide_true in E by done. done.
Qed.

(** C6: Finalize charges exactly what was used, once.  When finalize accepts
    [used] in a reachable ledger and no statement fails, the row is finalized with
    [used] credits and the user's packs carry exactly [Reserved - used] fewer used
    credits, or the refund was queued before and its retry is not due, in which
    case nothing is written.  Once the row is finalized, every later call of
    finalize with the same amount and hold succeeds and changes nothing; another
    amount, or a release, is refused. *)
Theorem finalize_charges_once env db r used hold b db' :
  ledger_reachable db → r ∈ db.(lg_reservations) → held_units r = r.(cr_Reserved) →
  (∀ st, env.(le_fault) st = None) →
  finalize env db r.(cr_Id) used hold b = Ok db' →
  (r.(cr_Status) = StatusRefundPending ∧ db' = db)
  ∨ ∃ r', r' ∈ db'.(lg_reservations) ∧ r'.(cr_Id) = r.(cr_Id) ∧ r'.(cr_Status) = StatusFinalized ∧ r'.(cr_Used) = used
    ∧ sum_by cp_CreditsUsed (owned_packs db' r.(cr_UID))
      = sum_by cp_CreditsUsed (owned_packs db r.(cr_UID)) - (r.(cr_Reserved) - used)
    ∧ (∀ env' b', env'.(le_fault) StLockReservation = None → finalize env' db' r.(cr_Id) used hold b' = Ok db')
    ∧ (∀ env' b' hold' used', used' ≠ used → ∃ e, finalize env' db' r.(cr_Id) used' hold' b' = Err e)
    ∧ (∀ env' hold', ∃ e, release env' db' r.(cr_Id) hold' = Err e).
Proof.
  intros Hok%reachable_ok Hr Hheld Hnf E. destruct (finalize_accepts env db r used hold b db' Hok Hr E) as [He Hb].
  apply finalize_settles in E as (_ & Hm & r' & Hr' & Hid & Hset & Hhold & Hend); [|done].
  pose proof (ledger_moves_ok _ _ _ Hok Hm) as Hok'. specialize (Hhold r Hr eq_refl).
  destruct (decide (cr_Status r' = StatusFinalized)) as [Hs|Hs].
  2: { left. destruct Hend as [?|[[_ ->]|(st & e & Hf)]]; [done| |rewrite Hnf in Hf; done].
       assert (r' = r) as -> by (apply (keyed_unique cr_Id (lg_reservations db)); [apply Hok|done|done|done]).
       split; [|done]. destruct Hset as [[? _]|[? _]]; done. }
  right. assert (Hused : cr_Used r' = used) by (destruct Hset as [[_ ?]|[? _]]; [done|clash]).
  assert (Hres : cr_Reserved r' = cr_Reserved r).
  { destruct (ledger_moves_sum _ _ _ r Hok Hm Hr eq_refl) as (x & Hx & Hxid & Hrm & _).
    assert (x = r') as -> by (apply (keyed_unique cr_Id (lg_reservations db')); [apply Hok'|done|done|congruence]).
    apply row_moves_request in Hrm. by injection Hrm. }
  exists r'. rewrite <- Hid. split_and!; try done.
  - rewrite (moves_balance db db' r r') by done. rewrite Hheld, (closed_held r') by by rewrite Hs. lia.
  - intros env' b' Hl. apply finalized_replay; try done; [lia|]. by rewrite (enforce_same_hold r r').
  - intros env' b' hold' used' Hne. apply finalized_refuses; [done..|congruence].
  - intros env' hold'. by apply finalized_keeps.
Qed.

Lemma finalize_charges_once_witness :
  match finalize (calm 2) creditLedger4 heldRow.(cr_Id) 45 (Some demoReview) false with
  | Err _ => False
  | Ok db' =>
    (heldRow.(cr_Status) = StatusRefundPending ∧ db' = creditLedger4)
    ∨ ∃ r', r' ∈ db'.(lg_reservations) ∧ r'.(cr_Id) = heldRow.(cr_Id) ∧ r'.(cr_Status) = StatusFinalized ∧ r'.(cr_Used) = 45
      ∧ sum_by cp_CreditsUsed (owned_packs db' heldRow.(cr_UID))
        = sum_by cp_CreditsUsed (owned_packs creditLedger4 heldRow.(cr_UID)) - (heldRow.(cr_Reserved) - 45)
      ∧ (∀ env' b', env'.(le_fault) StLockReservation = None →
           finalize env' db' heldRow.(cr_Id) 45 (Some demoReview) b' = Ok db')
      ∧ (∀ env' b' hold' used', used' ≠ 45 → ∃ e, finalize env' db' heldRow.(cr_Id) used' hold' b' = Err e)
      ∧ (∀ env' hold', ∃ e, release env' db' heldRow.(cr_Id) hold' = Err e)
  end.
Proof.
  destruct (finalize (calm 2) creditLedger4 (cr_Id heldRow) 45 (Some demoReview) false) as [db'|e] eqn:E;
    [|vm_compute in E; discriminate E].
  apply (finalize_charges_once (calm 2) creditLedger4 heldRow 45 (Some demoReview) false);
    [apply credit_reach4|left|reflexivity|reflexivity|exact E].
Defined.

(** ** Reservations along a history: theorems

    Outcomes are final, a request is admitted once, rows satisfy the constraints
    of the schema at every point, and the sweeper leaves reviews and agent Turns
    alone. *)

(** ** Outcomes *)

Lemma row_moves_held r r' : reservation_ok r → rtc row_move r r' → held_units r' ≤ held_units r.
Proof.
  intros Hok H. induction H as [|r r1 r2 Hm _ IH]; [lia|].
  pose proof (row_move_held r r1 Hok Hm). specialize (IH (row_move_ok r r1 Hok Hm)). lia.
Qed.

(** C9: The outcome of a reservation is final.  Along every history a reservation
    keeps its request columns and its row, and never holds more credits than
    before; a finalized, released or expired row never changes again in any
    column; and a queued refund only ever ends in the status and with the used
    credits it was queued for. *)
Theorem outcome_final db db' r :
  ledger_reachable db → rtc ledger_step db db' → r ∈ db.(lg_reservations) →
  ∃ r', r' ∈ db'.(lg_reservations) ∧ request_of r' = request_of r
    ∧ (∀ x, x ∈ db'.(lg_reservations) → x.(cr_Id) = r.(cr_Id) → x = r')
    ∧ held_units r' ≤ held_units r
    ∧ (IsTerminal r = true → r' = r)
    ∧ (∀ used, r.(cr_Status) = StatusRefundPending → r.(cr_RefundTargetUsed) = Some used →
         (r'.(cr_Status) = r.(cr_RefundTargetStatus) ∧ r'.(cr_Used) = used)
         ∨ (r'.(cr_Status) = StatusRefundPending ∧ r'.(cr_RefundTargetStatus) = r.(cr_RefundTargetStatus)
            ∧ r'.(cr_RefundTargetUsed) = Some used)).
Proof.
  intros Hok%reachable_ok Hrun Hr. destruct (row_later db db' r Hok Hrun Hr) as (r' & Hr' & Hm & Huniq).
  pose proof (lo_rows db Hok r Hr) as Hrow. exists r'. split_and!; [done|by apply row_moves_request|done| | |].
  - by apply row_moves_held.
  - intros Ht. by apply terminal_frozen; [apply Hrow| |].
  - intros used Hst Hu. by apply (pending_frozen r r' used).
Qed.

Definition queuedRow : CreditReservation :=
  Eval vm_compute in match creditLedger5.(lg_reservations) with r :: _ => r | [] => creditRow end.

Lemma outcome_final_witness :
  ∃ r', r' ∈ creditLedger6.(lg_reservations) ∧ request_of r' = request_of queuedRow
    ∧ (∀ x, x ∈ creditLedger6.(lg_reservations) → x.(cr_Id) = queuedRow.(cr_Id) → x = r')
    ∧ held_units r' ≤ held_units queuedRow
    ∧ (IsTerminal queuedRow = true → r' = queuedRow)
    ∧ (∀ used, queuedRow.(cr_Status) = StatusRefundPending → queuedRow.(cr_RefundTargetUsed) = Some used →
         (r'.(cr_Status) = queuedRow.(cr_RefundTargetStatus) ∧ r'.(cr_Used) = used)
         ∨ (r'.(cr_Status) = StatusRefundPending ∧ r'.(cr_RefundTargetStatus) = queuedRow.(cr_RefundTargetStatus)
            ∧ r'.(cr_RefundTargetUsed) = Some used)).
Proof.
  apply (outcome_final creditLedger5); [apply credit_reach5| |left].
  apply rtc_once. eapply finalize_step, demo_refund.
Defined.

(** ** Admission *)

(** The row a call of [Reserve] answers with. *)
Lemma reserve_row env db req res db1 :
  ledger_ok db → Reserve env db req = Ok (res, db1) →
  ledger_ok db1 ∧ res.(rr_Reservation) ∈ db1.(lg_reservations)
  ∧ owner_key res.(rr_Reservation) = (req.(rq_UID), req.(rq_IdempotencyKey))
  ∧ CanonicalReservationRequestDigest req = Ok res.(rr_Reservation).(cr_RequestDigest).
Proof.
  intros Hok E. apply Reserve_spec in E as (d & Hd & Hk & Hcase); [|done].
  destruct Hcase as [(_ & -> & Hin & Hm)|(_ & _ & now & dbe & l & _ & _ & Hnew & Er & _ & -> & Hok1)].
  - split_and!; try done. pose proof (ro_digest _ (lo_rows db Hok _ Hin)) as [Hl _].
    unfold reservationReplayMatches in Hm. destruct (decide (cr_RequestDigest (rr_Reservation res) = "")) as [He|Hne].
    + rewrite He in Hl. done.
    + rewrite (bool_decide_false _ Hne) in Hm. simpl in Hm. bool_hyps. congruence.
  - split_and!; [done| |done|by rewrite Hd, Hnew]. simpl. apply elem_of_app. right. by left.
Qed.

(** [Reserve] under a key that is taken. *)
Lemma reserve_taken env db req digest r :
  ledger_ok db → r ∈ db.(lg_reservations) → owner_key r = (req.(rq_UID), req.(rq_IdempotencyKey)) →
  CanonicalReservationRequestDigest req = Ok digest → is_Ok (env.(le_now) 0%nat) →
  env.(le_fault) StInsertReservation = None → env.(le_fault) StFindReservation = None →
  Reserve env db req = if bool_decide (digest = r.(cr_RequestDigest)) then Ok (mkReservationResult r false, db)
                       else Err ErrReservationReplayConflict.
Proof.
  intros Hok Hr Hk Hd [now Hnow] Hf1 Hf2. unfold Reserve. rewrite Hd, Hnow, Hf1.
  assert (Hkey : reservation_key_is (rq_UID req) (rq_IdempotencyKey req) r = true) by by apply key_is_true.
  assert (Hfirst : first_row (reservation_key_is (rq_UID req) (rq_IdempotencyKey req)) (lg_reservations db) = Some r).
  { destruct (first_row _ _) as [x|] eqn:Ef.
    - apply first_row_Some in Ef as [Hx Hxk]. apply key_is_true in Hxk. f_equal.
      assert (Hi := lo_keys db Hok). revert Hi Hx Hr. generalize (lg_reservations db). intros l Hi Hx Hin.
      apply list_elem_of_lookup in Hx as [i Hx], Hin as [j Hin].
      assert (i = j) as ->; [|congruence]. apply (NoDup_lookup (map owner_key l) i j (owner_key r)); [done| |].
      + rewrite list_lookup_fmap, Hx. simpl. congruence.
      + by rewrite list_lookup_fmap, Hin.
    - eapply List.find_none in Ef; [|by apply list_elem_of_In]. congruence. }
  replace (existsb _ _) with true.
  2: { symmetry. apply existsb_exists. exists r. by rewrite <- list_elem_of_In. }
  rewrite Hf2, Hfirst. unfold reservationReplayMatches. pose proof (ro_digest _ (lo_rows db Hok _ Hr)) as [Hl _].
  rewrite (bool_decide_false (cr_RequestDigest r = "")) by (intros He; rewrite He in Hl; done). simpl.
  destruct (decide (digest = cr_RequestDigest r)) as [->|Hne]; [by rewrite !bool_decide_true by done|].
  by rewrite !bool_decide_false by congruence.
Qed.

(** C7: A request is admitted once.  After a call of [Reserve] succeeded, at every
    later point of the history there is one row for its key: a call with the same
    user and key that succeeds returns that row, with [Created] false, and writes
    nothing.  When the clock answers and no statement fails, the call succeeds
    exactly when the digest of its request is the stored one; any other request
    under the same key is refused with [ErrReservationReplayConflict]. *)
Theorem reserve_exactly_once env db req res db1 db2 :
  ledger_reachable db → Reserve env db req = Ok (res, db1) → rtc ledger_step db1 db2 →
  ∃ r, r ∈ db2.(lg_reservations) ∧ request_of r = request_of res.(rr_Reservation)
    ∧ CanonicalReservationRequestDigest req = Ok r.(cr_RequestDigest)
    ∧ ∀ env2 req2, req2.(rq_UID) = req.(rq_UID) → req2.(rq_IdempotencyKey) = req.(rq_IdempotencyKey) →
        (∀ res2 db3, Reserve env2 db2 req2 = Ok (res2, db3) → res2 = mkReservationResult r false ∧ db3 = db2)
        ∧ (∀ digest, CanonicalReservationRequestDigest req2 = Ok digest → is_Ok (env2.(le_now) 0%nat) →
             env2.(le_fault) StInsertReservation = None → env2.(le_fault) StFindReservation = None →
             Reserve env2 db2 req2 = if bool_decide (digest = r.(cr_RequestDigest))
                                     then Ok (mkReservationResult r false, db2)
                                     else Err ErrReservationReplayConflict).
Proof.
  intros Hok%reachable_ok E Hrun. apply reserve_row in E as (Hok1 & Hin & Hkey & Hd); [|done].
  destruct (row_later db1 db2 _ Hok1 Hrun Hin) as (r & Hr & Hm & _). apply row_moves_request in Hm.
  pose proof (ledger_steps_ok db1 db2 Hok1 Hrun) as Hok2. pose proof Hm as Hreq.
  injection Hreq as _ _ Hu _ Hik Hdig _ _ _ _. exists r. split_and!; [done|done|by rewrite Hdig|].
  intros env2 req2 Eu Ek.
  assert (Hkr : owner_key r = (rq_UID req2, rq_IdempotencyKey req2)).
  { unfold owner_key in *. rewrite Hu, Hik, Eu, Ek. done. }
  split; [|intros digest Hd2 Hnow Hf1 Hf2; by apply reserve_taken].
  intros res2 db3 E2. pose proof E2 as E3.
  apply Reserve_spec in E2 as (d2 & Hd2 & _ & [(_ & _ & _ & _)|(_ & Hfresh & _)]); [|exfalso|done].
  2: { apply Hfresh. rewrite <- Hkr. by apply list_elem_of_fmap_2. }
  pose proof E3 as E4. unfold Reserve in E4. rewrite Hd2 in E4.
  destruct (le_now env2 0) as [now|] eqn:En; [|done]. destruct (le_fault env2 StInsertReservation) eqn:Hf1; [done|].
  assert (Hf2 : le_fault env2 StFindReservation = None).
  { destruct (le_fault env2 StFindReservation); [|done]. exfalso. destruct (existsb _ _) eqn:Hex; [done|].
    apply not_true_iff_false in Hex. destruct Hex. apply existsb_exists. exists r. rewrite <- list_elem_of_In.
    split; [done|]. by apply key_is_true. }
  rewrite (reserve_taken env2 db2 req2 d2 r) in E3; [|done|done|done|done|by eexists|done|done].
  destruct (bool_decide _); [|done]. by injection E3 as <- <-.
Qed.

Lemma reserve_exactly_once_witness :
  ∃ r, r ∈ creditLedger6.(lg_reservations) ∧ request_of r = request_of creditRow
    ∧ CanonicalReservationRequestDigest demoRequest = Ok r.(cr_RequestDigest)
    ∧ ∀ env2 req2, req2.(rq_UID) = demoRequest.(rq_UID) → req2.(rq_IdempotencyKey) = demoRequest.(rq_IdempotencyKey) →
        (∀ res2 db3, Reserve env2 creditLedger6 req2 = Ok (res2, db3) →
           res2 = mkReservationResult r false ∧ db3 = creditLedger6)
        ∧ (∀ digest, CanonicalReservationRequestDigest req2 = Ok digest → is_Ok (env2.(le_now) 0%nat) →
             env2.(le_fault) StInsertReservation = None → env2.(le_fault) StFindReservation = None →
             Reserve env2 creditLedger6 req2 = if bool_decide (digest = r.(cr_RequestDigest))
                                     then Ok (mkReservationResult r false, creditLedger6)
                                     else Err ErrReservationReplayConflict).
Proof.
  apply (reserve_exactly_once (calm 0) creditLedger2 demoRequest (mkReservationResult creditRow true) creditLedger3);
    [apply credit_reach2|apply demo_reserve|].
  eapply rtc_l; [eapply ls_hold, demo_hold|]. eapply rtc_l; [eapply finalize_step, demo_finalize|].
  apply rtc_once. eapply finalize_step, demo_refund.
Defined.
