(* ===== verification/CreditSpendTheorems.v ===== *)
(** * Spending credits: theorems

    The debit takes from the packs that expire first and succeeds exactly when
    the balance covers the cost; the retry delay of refunds is bounded. *)

From Stdlib Require Import Ascii.
From stdpp Require Import sorting.
From S2P Require Import Prelude GoText GoDigest GoTime AgentContract TurnTypes ExecutionTypes CreditTables SubscriptionCycle CreditsPack ProjectBudget CreditReservation CreditChecks CreditPackFacts CreditRefundFacts CreditLedgerFacts CreditOperationFacts CreditReserveFacts CreditRuns.

(** ** The order of the packs *)

(** The order of payment: not after. *)
Definition pays_before (a b : CreditsPack) : Prop := Is_true (negb (allocation_less b a)).

Lemma allocation_less_cases a b :
  allocation_less a b = true ↔
  match a.(cp_ExpiresAt), b.(cp_ExpiresAt) with
  | Some l, Some r => l < r ∨ (l = r ∧ a.(cp_Id) < b.(cp_Id))
  | Some _, None => True
  | None, Some _ => False
  | None, None => a.(cp_Id) < b.(cp_Id)
  end.
Proof.
  unfold allocation_less, Before. destruct (cp_ExpiresAt a) as [l|], (cp_ExpiresAt b) as [r|]; try done.
  - destruct (Z.eqb_spec l r); simpl; rewrite Z.ltb_lt; naive_solver lia.
  - by rewrite Z.ltb_lt.
Qed.

Lemma pays_before_cases a b : pays_before a b ↔ ¬ allocation_less b a = true.
Proof. unfold pays_before. rewrite negb_True, Is_true_true. done. Qed.

#[local] Instance pays_before_trans : Transitive pays_before.
Proof.
  intros a b c. rewrite !pays_before_cases, !allocation_less_cases.
  destruct (cp_ExpiresAt a), (cp_ExpiresAt b), (cp_ExpiresAt c); naive_solver lia.
Qed.

Lemma paying_sorted env db uid now : StronglySorted pays_before (paying_packs env db uid now).
Proof.
  apply Sorted_StronglySorted; [apply _|]. unfold paying_packs.
  apply (order_by_sorted (λ a b, negb (allocation_less b a))). intros a b.
  rewrite !negb_true_iff, <- !not_true_iff_false, !allocation_less_cases.
  destruct (cp_ExpiresAt a), (cp_ExpiresAt b); try naive_solver lia.
Qed.

(** A pack pays only after every pack before it is exhausted. *)
Lemma taken_order packs p q : ∀ cost,
  NoDup (map cp_Id packs) → StronglySorted pays_before packs → p ∈ packs → q ∈ packs →
  allocation_less p q = true → 0 ≤ cost → 0 < taken q.(cp_Id) packs cost → taken p.(cp_Id) packs cost = available p.
Proof.
  induction packs as [|x packs IH]; intros cost Hn Hs Hp Hq Hl Hc Ht; [by apply not_elem_of_nil in Hp|].
  simpl in Hn. apply NoDup_cons in Hn as [Hx Hn]. inversion Hs as [|? ? Hs' Hall]; subst.
  assert (Hother : ∀ y, y ∈ packs → cp_Id x ≠ cp_Id y).
  { intros y Hy He. destruct Hx. rewrite He. by apply list_elem_of_fmap_2. }
  assert (0 ≤ available x) by (unfold available; lia).
  apply elem_of_cons in Hp as [->|Hp], Hq as [->|Hq].
  - apply allocation_less_cases in Hl. destruct (cp_ExpiresAt x); lia.
  - simpl in *. rewrite Z.eqb_refl, (taken_other (cp_Id x)) by (intros y Hy He; by destruct (Hother y Hy)).
    destruct (Z.eqb_spec (cp_Id x) (cp_Id q)) as [He|_]; [by destruct (Hother q Hq)|].
    destruct (Z.le_gt_cases cost (available x)); [|lia].
    rewrite (Z.min_r (available x) cost), Z.sub_diag, taken_0 in Ht by lia. lia.
  - rewrite Forall_forall in Hall. specialize (Hall p Hp). apply pays_before_cases in Hall. done.
  - simpl in *. destruct (Z.eqb_spec (cp_Id x) (cp_Id q)) as [He|_]; [by destruct (Hother q Hq)|].
    destruct (Z.eqb_spec (cp_Id x) (cp_Id p)) as [He|_]; [by destruct (Hother p Hp)|].
    rewrite Z.add_0_l in *. apply IH; try done. lia.
Qed.

(** ** The balance *)

(** What the packs can pay is the balance the service reports. *)
Lemma paying_balance env db uid now :
  (∀ p, p ∈ db.(lg_packs) → p.(cp_CreditsUsed) ≤ p.(cp_CreditsTotal)) →
  let rows := where_ (spendable uid now (isSubscriptionCreditsActiveTx env db uid now)) db.(lg_packs) in
  sum_by available (paying_packs env db uid now) = sum_by cp_CreditsTotal rows - sum_by cp_CreditsUsed rows.
Proof.
  intros Hb rows. unfold paying_packs. rewrite !(sum_by_perm _ (order_by _ _) _ (order_by_perm _ _)).
  unfold rows. rewrite !sum_by_filter.
  rewrite (sum_by_ext (λ x, if spendable _ _ _ x then cp_CreditsTotal x else 0)
             (λ x, (if spendable uid now (isSubscriptionCreditsActiveTx env db uid now) x
                       && (cp_CreditsUsed x <? cp_CreditsTotal x) then available x else 0)
                   + (if spendable uid now (isSubscriptionCreditsActiveTx env db uid now) x
                      then cp_CreditsUsed x else 0))).
  { rewrite sum_by_add. lia. }
  intros p Hp. specialize (Hb p Hp). unfold available. destruct (spendable _ _ _ p); [|done]. simpl.
  destruct (Z.ltb_spec (cp_CreditsUsed p) (cp_CreditsTotal p)); lia.
Qed.

(** C27: A debit takes from the packs that expire first and succeeds exactly when
    the balance covers it.  In a reachable ledger, when no statement fails and the
    grant of the current cycle is in place, a debit of [cost] credits succeeds if
    and only if [cost] is at most the balance (the total minus the used credits of
    the packs that count); the allocations then add up to [cost], only packs of
    the balance pay, none beyond what it has, and a pack pays only when every pack
    that expires before it is exhausted.  Otherwise the answer is
    [ErrInsufficientCredits]. *)
Theorem debit_first_expiring env db uid cost now dbe total used :
  ledger_reachable db → 0 < cost → (∀ st, env.(le_fault) st = None) →
  ensureCurrentSubscriptionCreditsTx env db uid now = Ok dbe →
  balanceSumTx env dbe uid now = Ok (total, used) →
  if cost <=? total - used
  then ∃ l, ReserveCreditsDetailedAtTx env db uid cost now
            = Ok (l, set_packs dbe (shift_used (λ i, credits_of i l) dbe.(lg_packs)))
    ∧ sum_by al_Credits l = cost
    ∧ (∀ a, a ∈ l → a.(al_PackID) ∈ map cp_Id (paying_packs env dbe uid now))
    ∧ (∀ p, p ∈ paying_packs env dbe uid now → 0 ≤ credits_of p.(cp_Id) l ≤ available p)
    ∧ (∀ p q, p ∈ paying_packs env dbe uid now → q ∈ paying_packs env dbe uid now →
         allocation_less p q = true → 0 < credits_of q.(cp_Id) l → credits_of p.(cp_Id) l = available p)
  else ReserveCreditsDetailedAtTx env db uid cost now = Err ErrInsufficientCredits.
Proof.
  intros Hok%reachable_ok Hc Hf Ee Hbal. pose proof (granted_ok _ _ Hok (ensure_granted _ _ _ _ _ Ee)) as Hoke.
  unfold balanceSumTx, balanceSumWithSubscriptionActiveTx in Hbal. rewrite Hf in Hbal. injection Hbal as <- <-.
  rewrite <- (paying_balance env dbe uid now) by apply Hoke.
  unfold ReserveCreditsDetailedAtTx. destruct (Z.leb_spec cost 0); [lia|]. rewrite Ee. simpl. rewrite Hf.
  fold (paying_packs env dbe uid now). pose proof (paying_NoDup env dbe uid now (lo_packs dbe Hoke)) as Hn.
  pose proof (paying_sorted env dbe uid now) as Hsort.
  assert (Hin : ∀ p, p ∈ paying_packs env dbe uid now → p ∈ lg_packs dbe) by (by intros p [? _]%paying_in).
  set (packs := paying_packs env dbe uid now) in *.
  destruct (debit_packs_total env packs dbe cost []) as [x E]; [done|done|apply Hoke|done|done|].
  rewrite E. apply debit_packs_spec in E as (l & -> & Hcr & Hs & _ & Hel); [|done|apply Hoke|done|done]. simpl.
  destruct (Z.leb_spec cost (sum_by available packs)) as [Hle|Hgt].
  - rewrite Z.min_l in Hs by done. rewrite Z.min_l, Z.sub_diag by done. simpl. exists l. split_and!; [|done| | |].
    + do 3 f_equal. apply shift_used_ext. intros p _. by rewrite Hcr.
    + intros a Ha. destruct (Hel a Ha) as (_ & p & Hp & ->). by apply list_elem_of_fmap_2.
    + intros p Hp. rewrite Hcr. split; [apply taken_nonneg; lia|apply taken_available; [done|done|lia]].
    + intros p q Hp Hq Hl. rewrite !Hcr. apply taken_order; [done..|lia].
  - destruct (Z.ltb_spec 0 (cost - Z.min cost (sum_by available packs))); [done|lia].
Qed.

Lemma debit_first_expiring_witness :
  (∃ l, ReserveCreditsDetailedAtTx (calm 0) creditLedger2 7 60 creditClock
        = Ok (l, set_packs creditLedger2 (shift_used (λ i, credits_of i l) creditLedger2.(lg_packs)))
    ∧ sum_by al_Credits l = 60
    ∧ (∀ a, a ∈ l → a.(al_PackID) ∈ map cp_Id (paying_packs (calm 0) creditLedger2 7 creditClock))
    ∧ (∀ p, p ∈ paying_packs (calm 0) creditLedger2 7 creditClock → 0 ≤ credits_of p.(cp_Id) l ≤ available p)
    ∧ (∀ p q, p ∈ paying_packs (calm 0) creditLedger2 7 creditClock →
         q ∈ paying_packs (calm 0) creditLedger2 7 creditClock →
         allocation_less p q = true → 0 < credits_of q.(cp_Id) l → credits_of p.(cp_Id) l = available p))
  ∧ ReserveCreditsDetailedAtTx (calm 0) creditLedger2 7 91 creditClock = Err ErrInsufficientCredits.
Proof.
  split.
  - apply (debit_first_expiring (calm 0) creditLedger2 7 60 creditClock creditLedger2 90 0);
      [apply credit_reach2|lia|reflexivity|vm_compute; reflexivity|vm_compute; reflexivity].
  - apply (debit_first_expiring (calm 0) creditLedger2 7 91 creditClock creditLedger2 90 0);
      [apply credit_reach2|lia|reflexivity|vm_compute; reflexivity|vm_compute; reflexivity].
Defined.

(** ** Retry delays *)

(** The retry delay of a refund starts at one minute, doubles with every
    attempt up to the sixth and is one hour from the seventh on; it never
    shrinks. *)
Theorem refund_backoff_bounds :
  (∀ attempt, minute ≤ refundRetryBackoff attempt ≤ maxRefundBackoff)
  ∧ (∀ attempt, 1 ≤ attempt ≤ 6 → refundRetryBackoff attempt = minute * 2 ^ (attempt - 1))
  ∧ (∀ attempt, 7 ≤ attempt → refundRetryBackoff attempt = maxRefundBackoff)
  ∧ (∀ a b, a ≤ b → refundRetryBackoff a ≤ refundRetryBackoff b).
Proof.
  assert (Hv : ∀ a, refundRetryBackoff a = if a <=? 6 then minute * 2 ^ (Z.max 1 a - 1) else maxRefundBackoff).
  { intros a. unfold refundRetryBackoff.
    destruct (Z.ltb_spec a 1); [destruct (Z.leb_spec a 6); [by rewrite Z.max_l by lia|lia]|].
    rewrite (Z.max_r 1 a) by lia. destruct (Z.leb_spec a 6).
    - assert (a = 1 ∨ a = 2 ∨ a = 3 ∨ a = 4 ∨ a = 5 ∨ a = 6) as [->|[->|[->|[->|[->| ->]]]]] by lia; done.
    - destruct (Z.ltb_spec 6 (a - 1)); [done|]. assert (a = 7) as -> by lia. done. }
  assert (Hb : ∀ e, 0 ≤ e ≤ 5 → minute ≤ minute * 2 ^ e ≤ maxRefundBackoff).
  { intros e He. pose proof (Z.pow_le_mono_r 2 0 e). pose proof (Z.pow_le_mono_r 2 e 5).
    change (2 ^ 0) with 1 in *. change (2 ^ 5) with 32 in *. unfold maxRefundBackoff, hour, minute, second. nia. }
  split_and!.
  - intros a. rewrite Hv. destruct (Z.leb_spec a 6); [apply Hb; lia|]. unfold maxRefundBackoff, hour, minute, second. lia.
  - intros a Ha. rewrite Hv. destruct (Z.leb_spec a 6); [by rewrite Z.max_r by lia|lia].
  - intros a Ha. rewrite Hv. destruct (Z.leb_spec a 6); [lia|done].
  - intros a b Hab. rewrite !Hv. destruct (Z.leb_spec a 6), (Z.leb_spec b 6); try lia.
    + apply Z.mul_le_mono_nonneg_l; [unfold minute, second; lia|]. apply Z.pow_le_mono_r; lia.
    + apply Hb. lia.
Qed.
