(* ===== verification/CreditSweepTheorems.v ===== *)
(** * The sweeper and the constraints of the schema: theorems *)

From Stdlib Require Import Ascii.
From stdpp Require Import sorting.
From S2P Require Import Prelude GoText GoDigest GoTime AgentContract TurnTypes ExecutionTypes CreditTables SubscriptionCycle CreditsPack ProjectBudget CreditReservation CreditChecks CreditPackFacts CreditRefundFacts CreditLedgerFacts CreditOperationFacts CreditReserveFacts CreditRuns.

(** ** Rows a transaction does not own *)

Lemma moves_other id db db' :
  rtc (ledger_move id) db db' →
  db'.(lg_tasks) = db.(lg_tasks) ∧ db'.(lg_bound) = db.(lg_bound)
  ∧ ∀ x, x ∈ db.(lg_reservations) → x.(cr_Id) ≠ id → x ∈ db'.(lg_reservations).
Proof.
  induction 1 as [|db1 db2 db3 Hm _ (Ht & Hb & IH)]; [done|]. destruct Hm as [r f Hr <- Hm].
  split_and!; [done|done|]. intros x Hx Hne. apply IH; [|done]. simpl. apply elem_update_where. exists x.
  split; [done|]. unfold reservation_is. by destruct (Z.eqb_spec (cr_Id x) (cr_Id r)).
Qed.

(** ** One candidate *)

Section Calm.
Context (env : ledger_env) (Hcalm : ∀ st, env.(le_fault) st = None).

Lemma attempt_done db r now :
  ledger_ok db → r ∈ db.(lg_reservations) → r.(cr_Status) = StatusRefundPending →
  ∃ m db', attemptPendingRefundLocked env db r now = Ok (m, db')
    ∧ m.(cr_Status) = r.(cr_RefundTargetStatus) ∧ m.(cr_RefundAttempts) = r.(cr_RefundAttempts)
    ∧ settles env false db r.(cr_Id) r.(cr_RefundTargetStatus) (r.(cr_Reserved) - r.(cr_RefundDue)) db'.
Proof.
  intros Hok Hr Hst. pose proof (attempt_spec env db r r now Hok Hr eq_refl Hst) as Hspec.
  destruct (row_state_pending r (ro_state r (lo_rows db Hok r Hr)) Hst) as (u & _ & _ & _ & Hu & _ & Hd & _).
  destruct (attemptPendingRefundLocked env db r now) as [[m db']|e]; [|destruct Hspec as [st Hf]; congruence].
  exists m, db'. split; [done|]. rewrite Hd. replace (cr_Reserved r - (cr_Reserved r - u)) with u by lia.
  pose proof (attempted_settles env db r now _ u _ Hok Hr Hst eq_refl Hu Hspec) as Hset.
  destruct Hspec as (f & _ & _ & _ & Hs & Ha & [Hf|(_ & _ & st & e & Hf)]); [|congruence].
  simpl in Hs, Ha. by rewrite Hs, Ha, Hf.
Qed.

(** An open reservation expires: queue and refund in one transaction. *)
Lemma expire_done db r now :
  ledger_ok db → r ∈ db.(lg_reservations) → r.(cr_Status) = StatusReserved →
  ∃ db', (if r.(cr_Reserved) =? 0 then
     try! (_, db) := markReservationTerminal env db r StatusExpired 0 now in Ok (reservationSweepTerminal, db)
   else
     try! (m, db) := queueRefundLocked env db r StatusExpired 0 r.(cr_Reserved) now in
     try! (m, db) := attemptPendingRefundLocked env db m now in
     Ok (if status_is m StatusRefundPending then reservationSweepRefundPending else reservationSweepTerminal, db))
   = Ok (reservationSweepTerminal, db') ∧ settles env false db r.(cr_Id) StatusExpired 0 db'.
Proof.
  intros Hok Hr Hst. pose proof (open_settles env db r now StatusExpired 0) as Hset. rewrite Z.sub_0_r in Hset.
  pose proof (ro_reserved r (lo_rows db Hok r Hr)) as Hres. destruct (Z.eqb_spec (cr_Reserved r) 0) as [Hz|Hz].
  - unfold markReservationTerminal in *. rewrite Hcalm in *. eexists. split; [reflexivity|].
    apply Hset; try done; [by left|by right].
  - destruct (queueRefundLocked env db r StatusExpired 0 (cr_Reserved r) now) as [[m db1]|] eqn:Eq.
    2: { exfalso. unfold queueRefundLocked in Eq. rewrite Hcalm in Eq.
         destruct (Z.leb_spec (cr_Reserved r) 0); [lia|]. simpl in Eq.
         destruct (Z.ltb_spec (cr_Reserved r) 0); [lia|]. simpl in Eq. by rewrite Z.sub_0_r, Z.eqb_refl in Eq. }
    destruct (attemptPendingRefundLocked env db1 m now) as [[m' db']|] eqn:Ea.
    + exists db'. destruct (queue_attempt_moves env db r StatusExpired 0 _ now m db1 _ Hok Hr ltac:(by left) Eq Ea)
        as (_ & r1 & _ & _ & -> & f & _ & _ & _ & Hs & _ & [Hf|(_ & _ & st & e & Hf)]); [|congruence].
      simpl in Hs. rewrite Hf in Hs. unfold status_is. rewrite Hs. split; [done|].
      apply Hset; try done; [by left|by right].
    + exfalso. unfold queueRefundLocked in Eq. destruct (negb (_ || _ || _ || _)); [|done].
      destruct (known_terminal StatusExpired); [|done]. simpl in Eq. rewrite Hcalm in Eq. injection Eq as <- <-.
      destruct (queued_row db r StatusExpired 0 now Hok Hr) as [Hmv Hr1]; [by left|done|lia|by right|].
      rewrite Z.sub_0_r in Hmv, Hr1. apply (ledger_move_ok _ _ _ Hok) in Hmv.
      match type of Ea with attemptPendingRefundLocked _ ?d ?m _ = _ =>
        pose proof (attempt_spec env d m _ now Hmv Hr1 eq_refl eq_refl) as Hspec end.
      rewrite Ea in Hspec. destruct Hspec as [st Hf]. congruence.
Qed.

(** What the sweep makes of a candidate. *)
Definition swept (db : Ledger) (now : time) (r r' : CreditReservation) : Prop :=
  (r.(cr_Status) = StatusRefundPending ∧ r'.(cr_Status) = r.(cr_RefundTargetStatus)
   ∧ r'.(cr_Used) = r.(cr_Reserved) - r.(cr_RefundDue))
  ∨ (r.(cr_Status) = StatusReserved ∧ task_running db r = true ∧ r' = extend_columns now r)
  ∨ (r.(cr_Status) = StatusReserved ∧ task_running db r = false ∧ r'.(cr_Status) = StatusExpired ∧ r'.(cr_Used) = 0).

(** A candidate the scan may return. *)
Definition due_row (cutoff now : time) (r : CreditReservation) : Prop :=
  (r.(cr_Status) = StatusReserved ∧ r.(cr_ExpiresAt) < cutoff)
  ∨ (r.(cr_Status) = StatusRefundPending ∧ ∀ t, r.(cr_NextRefundAt) = Some t → t ≤ now).

Lemma settles_row db id target used db' :
  known_terminal target = true → settles env false db id target used db' →
  rtc (ledger_move id) db db' ∧ ∃ r', r' ∈ db'.(lg_reservations) ∧ r'.(cr_Id) = id
    ∧ r'.(cr_Status) = target ∧ r'.(cr_Used) = used.
Proof.
  intros Hk (Hm & r' & Hr' & Hid & Hs & _ & Hend). split; [done|]. exists r'.
  destruct Hend as [Hst|[[? _]|(st & e & Hf)]]; [|done|congruence]. split_and!; [done|done|done|].
  destruct Hs as [[_ ?]|[Hp _]]; [done|]. rewrite Hst in Hp. by subst target.
Qed.

Lemma sweep_done db r cutoff scan now :
  ledger_ok db → r ∈ db.(lg_reservations) → due_row cutoff scan r → env.(le_now) 1%nat = Ok now → scan ≤ now →
  ∃ outcome db', sweep_body env db r cutoff = Ok (outcome, db')
    ∧ (outcome = reservationSweepTerminal ∨ outcome = reservationSweepExtended)
    ∧ rtc (ledger_move r.(cr_Id)) db db'
    ∧ ∃ r', r' ∈ db'.(lg_reservations) ∧ r'.(cr_Id) = r.(cr_Id) ∧ swept db now r r'.
Proof.
  intros Hok Hr Hdue Hnow Hle. unfold sweep_body. rewrite Hcalm.
  rewrite lock_row by done. rewrite Hnow. simpl. unfold swept. destruct Hdue as [[Hst Hexp]|[Hst Hnext]].
  - unfold status_is at 1 2 3. rewrite Hst. simpl. unfold Before. destruct (Z.ltb_spec (cr_ExpiresAt r) cutoff); [|lia].
    simpl. destruct (task_running db r) eqn:Htask.
    + rewrite Hcalm. eexists _, _. split; [done|]. split; [by right|].
      assert (Hm : row_move r (extend_columns now r)) by by apply mv_extend.
      rewrite <- transition_row by (apply row_move_held_same; [by apply (lo_rows db Hok)|done|simpl; by rewrite Hst]).
      split; [by apply rtc_once, lm_move|]. exists (extend_columns now r).
      split_and!; [by apply transition_row_of|done|naive_solver].
    + destruct (expire_done db r now Hok Hr Hst) as (db' & E & Hset). exists reservationSweepTerminal, db'.
      apply settles_row in Hset as (Hm & r' & ? & ? & ? & ?); [|done].
      split_and!; [exact E|by left|done|]. exists r'. split_and!; [done|done|naive_solver].
  - unfold status_is at 1 2. rewrite Hst. simpl.
    assert (Hb : backing_off r now = false).
    { unfold backing_off, holds_at. destruct (cr_NextRefundAt r) as [t|]; [|done]. specialize (Hnext t eq_refl).
      unfold After. apply Z.ltb_ge. lia. }
    rewrite Hb. destruct (attempt_done db r now Hok Hr Hst) as (m & db' & -> & Hms & Ha & Hset).
    rewrite Ha, Z.ltb_irrefl. eexists _, _. split; [done|]. split; [by left|].
    destruct (row_state_pending r (ro_state r (lo_rows db Hok r Hr)) Hst) as (u & _ & _ & Hk & _).
    apply settles_row in Hset as (Hm & r' & ? & ? & ? & ?); [|done].
    split; [done|]. exists r'. split_and!; [done|done|naive_solver].
Qed.
End Calm.

(** ** The loop *)

Lemma swept_tasks db db1 now r r' : db1.(lg_tasks) = db.(lg_tasks) → swept db1 now r r' → swept db now r r'.
Proof. intros H. unfold swept, task_running. by rewrite H. Qed.

Lemma sweep_loop_done envs cutoff scan rows : ∀ i db counts,
  ledger_ok db → NoDup (map cr_Id rows) →
  (∀ r, r ∈ rows → r ∈ db.(lg_reservations) ∧ due_row cutoff scan r) →
  (∀ j st, (envs j).(le_fault) st = None) → (∀ j, ∃ now, (envs j).(le_now) 1%nat = Ok now ∧ scan ≤ now) →
  ∃ db', sweep_loop envs (λ _ x, x) cutoff i rows db counts = ((fst counts + Z.of_nat (length rows), snd counts), db')
    ∧ ledger_ok db'
    ∧ (∀ x, x ∈ db.(lg_reservations) → x.(cr_Id) ∉ map cr_Id rows → x ∈ db'.(lg_reservations))
    ∧ (∀ r, r ∈ rows → ∃ j now r', (envs j).(le_now) 1%nat = Ok now ∧ r' ∈ db'.(lg_reservations)
                       ∧ r'.(cr_Id) = r.(cr_Id) ∧ swept db now r r').
Proof.
  induction rows as [|r rows IH]; intros i db counts Hok Hn Hin Hcalm Hnow.
  { exists db. rewrite Z.add_0_r. destruct counts. split_and!; [done|done|done|by intros ? ?%not_elem_of_nil]. }
  simpl in Hn. apply NoDup_cons in Hn as [Hr Hn]. destruct (Hin r ltac:(left)) as [Hrin Hdue].
  destruct (Hnow i) as (now & Enow & Hle).
  destruct (sweep_done (envs i) (Hcalm i) db r cutoff scan now Hok Hrin Hdue Enow Hle)
    as (outcome & db1 & E & Hout & Hm & r' & Hr' & Hid & Hsw).
  destruct (moves_other _ _ _ Hm) as (Ht & _ & Hother).
  destruct (IH (S i) db1 (count_sweep outcome counts)) as (db' & El & Hok' & Hrest & Hswept); [|done| |done|done|].
  { by eapply ledger_moves_ok. }
  { intros x Hx. destruct (Hin x ltac:(by right)) as [Hxin ?]. split; [|done]. apply Hother; [done|].
    intros He. destruct Hr. rewrite <- He. by apply list_elem_of_fmap_2. }
  exists db'. simpl. unfold sweepOne, atomic. rewrite E, El. split_and!; [|done| |].
  - destruct Hout as [->| ->]; destruct counts; simpl; f_equal; f_equal; lia.
  - intros x Hx Hout'. apply not_elem_of_cons in Hout' as [Hne Hout']. apply Hrest; [|done]. by apply Hother.
  - intros x [->|Hx]%elem_of_cons.
    + exists i, now, r'. split_and!; [done| |done|done]. apply Hrest; [done|by rewrite Hid].
    + destruct (Hswept x Hx) as (j & n & x' & ? & ? & ? & ?). exists j, n, x'. split_and!; [done|done|done|].
      by apply (swept_tasks db db1).
Qed.

Lemma sweepable_due db cutoff now r :
  sweepable db cutoff now r = true → due_row cutoff now r ∧ r.(cr_Id) ∉ db.(lg_bound).
Proof.
  unfold sweepable. rewrite andb_true_iff, negb_true_iff. intros [Hs Hb]. split.
  - apply orb_true_iff in Hs as [Hs|Hs]; [left|right]; apply andb_true_iff in Hs as [?%status_is_true Hs]; split; try done.
    + unfold Before in Hs. lia.
    + intros t Ht. rewrite Ht in Hs. lia.
  - intros Hin. apply not_true_iff_false in Hb. destruct Hb. apply existsb_exists. exists (cr_Id r).
    by rewrite <- list_elem_of_In, Z.eqb_refl.
Qed.



(** ** Constraints of the schema *)

Lemma validateReservationText_bounds value max :
  validateReservationText value max = None → 1 ≤ len value ≤ max.
Proof.
  unfold validateReservationText, first_error, when. intros H.
  destruct (decide (TrimSpace value = "")) as [He|Hne]; [by rewrite bool_decide_true in H|].
  rewrite bool_decide_false in H by done. destruct (Z.ltb_spec max (len value)); [done|]. split; [|done].
  destruct value; [done|]. unfold len. simpl. lia.
Qed.

Lemma hold_valid_columns hold :
  ReservationReviewHold_validate hold = None →
  1 ≤ len hold.(rh_ReviewID) ≤ 256 ∧ 1 ≤ len hold.(rh_SettlementKey) ≤ 256
  ∧ len hold.(rh_RequestDigest) = 71 ∧ HasPrefix hold.(rh_RequestDigest) "sha256:" = true
  ∧ lower_hex_text (String.substring 7 (String.length hold.(rh_RequestDigest) - 7) hold.(rh_RequestDigest)) = true.
Proof.
  unfold ReservationReviewHold_validate, first_error. intros H.
  destruct (validateReservationText (rh_ReviewID hold) _) eqn:H1; [done|].
  destruct (validateReservationText (rh_SettlementKey hold) _) eqn:H2; [done|].
  apply validateReservationText_bounds in H1, H2. unfold when in H.
  destruct (negb (_ && _)) eqn:H3 in H; [done|]. destruct (negb (forallb _ _)) eqn:H4 in H; [done|].
  unfold reservationReviewDigestBytes in H3. bool_hyps. split_and!; try done; apply H1 || apply H2.
Qed.

Lemma len_not_null s n : 0 < n → len s = n → is_null s = false.
Proof. intros Hn Hl. apply bool_decide_eq_false. intros ->. unfold len in Hl. simpl in Hl. lia. Qed.

Lemma bounded_code_ok s max : 1 ≤ len s ≤ max → bounded_code s max = true ∧ is_null s = false.
Proof.
  intros [Hl Hm]. split; [|by apply (len_not_null s (len s)); [lia|]].
  unfold bounded_code. destruct (Z.leb_spec 1 (len s)); [|lia]. destruct (Z.leb_spec (len s) max); [|lia].
  by rewrite orb_true_r.
Qed.

(** The hold columns are absent together, or present and well formed. *)
Lemma hold_none_checks r :
  hold_none r → hold_absent r = true ∧ hold_present r = false
  ∧ bounded_code r.(cr_HoldReviewID) 256 && bounded_code r.(cr_HoldSettlementKey) 256 = true
  ∧ is_null r.(cr_HoldRequestDigest) = true.
Proof.
  intros [[= H1 H2 H3] H4]. unfold hold_absent, hold_present. by rewrite H1, H2, H3, H4.
Qed.

Lemma hold_some_checks r :
  hold_some r → hold_absent r = false ∧ hold_present r = true
  ∧ bounded_code r.(cr_HoldReviewID) 256 && bounded_code r.(cr_HoldSettlementKey) 256 = true
  ∧ (len r.(cr_HoldRequestDigest) =? 71) && HasPrefix r.(cr_HoldRequestDigest) "sha256:"
     && lower_hex_text (String.substring 7 (String.length r.(cr_HoldRequestDigest) - 7) r.(cr_HoldRequestDigest)) = true.
Proof.
  intros [Hv [t Ht]]. apply hold_valid_columns in Hv as (H1 & H2 & H3 & H4 & H5). simpl in *.
  apply bounded_code_ok in H1 as [B1 N1], H2 as [B2 N2]. unfold hold_absent, hold_present.
  rewrite N1, N2, (len_not_null _ 71), Ht, B1, B2, H3, H4, H5 by done. done.
Qed.

Lemma hold_checks r :
  reservation_ok r → hold_none r ∨ hold_some r →
  chk_digests r = true ∧ chk_hold_tuple r = true
  ∧ bounded_code r.(cr_HoldReviewID) 256 && bounded_code r.(cr_HoldSettlementKey) 256 = true.
Proof.
  intros [_ _ _ [Hl Hx] _] Hh. unfold chk_digests, chk_hold_tuple. rewrite Hl, Hx, (len_not_null _ 64) by done. simpl.
  destruct Hh as [(-> & -> & -> & ->)%hold_none_checks|(-> & -> & -> & ->)%hold_some_checks]; [done|].
  by rewrite orb_true_r.
Qed.

Lemma error_code_checks r :
  r.(cr_Status) = StatusRefundPending →
  r.(cr_LastRefundErrorCode) = "" ∨ r.(cr_LastRefundErrorCode) ∈ refund_error_codes →
  chk_refund_error_code r = true ∧ bounded_code r.(cr_LastRefundErrorCode) 64 = true.
Proof.
  unfold chk_refund_error_code, status_is, refund_error_codes. intros ->.
  rewrite !elem_of_cons, elem_of_nil. intros [->|[->|[->|[->|[->|[->|[]]]]]]]; done.
Qed.

Lemma row_checks r : reservation_ok r → reservation_checks r = true.
Proof.
  intros Hok. pose proof Hok as [_ _ [Hr0 _] _ Hs]. unfold reservation_checks, chk_bounded_codes.
  assert (Hh : hold_none r ∨ hold_some r) by (destruct Hs; auto).
  destruct (hold_checks r Hok Hh) as (-> & -> & ->). clear Hh.
  destruct Hs as [Hst Hh Hu Hc Ht|Hst Hh Hu Hc Ht|used Hst Hh Hu Hk Htu Hrange Hdue Hz Hn He Ht|Hk Hh Hu Hz Hc Ht].
  - apply hold_none_checks in Hh as (Ha & Hp & _). destruct Hc as (C1 & C2 & C3 & C4 & C5), Ht as [T1 T2].
    unfold chk_status, chk_amounts, chk_review_state, chk_refund_tuple, chk_status_time, chk_refund_error_code, status_is.
    rewrite Hst, Ha, Hu, C1, C2, C3, C4, C5, T1, T2. simpl. by destruct (Z.leb_spec 0 (cr_Reserved r)); [|lia].
  - apply hold_some_checks in Hh as (Ha & Hp & _). destruct Hc as (C1 & C2 & C3 & C4 & C5), Ht as [T1 T2].
    unfold chk_status, chk_amounts, chk_review_state, chk_refund_tuple, chk_status_time, chk_refund_error_code, status_is.
    rewrite Hst, Hp, Hu, C1, C2, C3, C4, C5, T1, T2. simpl. by destruct (Z.leb_spec 0 (cr_Reserved r)); [|lia].
  - destruct (error_code_checks r Hst He) as [-> ->]. destruct Ht as [T1 T2], Hn as [t Hn].
    unfold chk_status, chk_amounts, chk_review_state, chk_refund_tuple, chk_status_time, status_is.
    rewrite Hst, Hu, Htu, Hdue, Hn, T1, T2. simpl.
    assert (Hk' : bool_decide (cr_RefundTargetStatus r = StatusFinalized) || bool_decide (cr_RefundTargetStatus r = StatusReleased)
                  || bool_decide (cr_RefundTargetStatus r = StatusExpired) = true) by done.
    rewrite Hk', Z.eqb_refl.
    destruct (Z.leb_spec 0 (cr_Reserved r)), (Z.leb_spec 0 used), (Z.leb_spec 0 (cr_Reserved r - used)),
      (Z.leb_spec used (cr_Reserved r)), (Z.ltb_spec 0 (cr_Reserved r - used)),
      (Z.leb_spec (cr_Reserved r - used) (cr_Reserved r)); try lia. simpl.
    destruct Hz as [->| ->]; [by rewrite bool_decide_true by done|by rewrite !orb_true_r].
  - destruct Hc as (C1 & C2 & C3 & C4 & C5).
    unfold chk_status, chk_amounts, chk_review_state, chk_refund_tuple, chk_status_time, chk_refund_error_code, status_is.
    rewrite C1, C2, C3, C4, C5. simpl.
    destruct (Z.leb_spec 0 (cr_Reserved r)), (Z.leb_spec 0 (cr_Used r)), (Z.leb_spec (cr_Used r) (cr_Reserved r)); try lia.
    destruct Ht as [(Hst & [t T1] & T2)|([Hst|Hst] & T1 & [t T2])]; rewrite Hst, T1, T2 in *; [done| |];
      (destruct Hz as [?| ->]; [done|]; done).
Qed.


