(* ===== verification/SubscriptionCycleTheorems.v ===== *)
(** * Subscription cycles: theorems *)

From stdpp Require Import sorting.
From S2P Require Import Prelude GoText GoJson GoTime AgentContract TurnTypes SubscriptionCycle.

(** ** The civil calendar

    [civil] inverts [date_days]: a month is numbered by [12 * year + month - 1],
    [month_start m] is its first day and [month_len m] its length. *)

Definition month_start (m : Z) : Z :=
  days_before_year (m / 12) + days_before_month (month_lengths (m / 12)) (Z.to_nat (m mod 12)).
Definition month_len (m : Z) : Z := nth (Z.to_nat (m mod 12)) (month_lengths (m / 12)) 0.

(** The month and the day of a day number. *)
Definition month_of (days : Z) : Z := 12 * (civil days).(cd_Year) + (civil days).(cd_Month) - 1.

(** ** Years *)

Definition year_len (y : Z) : Z := if leap_year y then 366 else 365.

Lemma leap_year_spec y : leap_year y = true ↔ y mod 4 = 0 ∧ (y mod 100 ≠ 0 ∨ y mod 400 = 0).
Proof. unfold leap_year. rewrite andb_true_iff, orb_true_iff, negb_true_iff, !Z.eqb_eq, Z.eqb_neq. done. Qed.

Lemma year_step y : days_before_year (y + 1) = days_before_year y + year_len y.
Proof.
  unfold days_before_year, year_len. replace (y + 1 - 1) with y by lia.
  destruct (leap_year y) eqn:Hl; [apply leap_year_spec in Hl|apply not_true_iff_false in Hl; rewrite leap_year_spec in Hl];
    Z.to_euclidean_division_equations; lia.
Qed.

(** The year of a day number, with the day inside the year. *)
Lemma civil_year n :
  ∃ y d, civil n = mkCivilDate y (fst (month_day (month_lengths y) 1 d)) (snd (month_day (month_lengths y) 1 d))
  ∧ 0 ≤ d < year_len y ∧ n = days_before_year y + d.
Proof.
  unfold civil. cbv zeta. set (q := n / 146097). set (d0 := n mod 146097). set (c := Z.min 3 (d0 / 36524)).
  set (d1 := d0 - c * 36524). set (f := d1 / 1461). set (d2 := d1 mod 1461). set (a := Z.min 3 (d2 / 365)).
  set (d3 := d2 - a * 365). set (y := 400 * q + 100 * c + 4 * f + a + 1). exists y, d3. split; [reflexivity|].
  assert (Hn : n = 146097 * q + d0) by apply Z.div_mod, (ltac:(lia) : 146097 ≠ 0).
  assert (H0 : 0 ≤ d0 < 146097) by (apply Z.mod_pos_bound; lia).
  assert (Hc : 0 ≤ c ≤ 3 ∧ 0 ≤ d1 ≤ 36524 ∧ (d1 = 36524 → c = 3)).
  { unfold d1, c. assert (36524 * (d0 / 36524) ≤ d0 < 36524 * (d0 / 36524) + 36524); [|lia].
    pose proof (Z.div_mod d0 36524 ltac:(lia)). pose proof (Z.mod_pos_bound d0 36524 ltac:(lia)). lia. }
  assert (H1 : d1 = 1461 * f + d2) by apply Z.div_mod, (ltac:(lia) : 1461 ≠ 0).
  assert (H2 : 0 ≤ d2 < 1461) by (apply Z.mod_pos_bound; lia).
  assert (Ha : 0 ≤ a ≤ 3 ∧ 0 ≤ d3 ≤ 365 ∧ (d3 = 365 → a = 3)).
  { unfold d3, a. assert (365 * (d2 / 365) ≤ d2 < 365 * (d2 / 365) + 365); [|lia].
    pose proof (Z.div_mod d2 365 ltac:(lia)). pose proof (Z.mod_pos_bound d2 365 ltac:(lia)). lia. }
  assert (Hd2 : d2 = d3 + a * 365) by (unfold d3; lia). assert (Hd0 : d0 = d1 + c * 36524) by (unfold d1; lia).
  clearbody q d0 c d1 f d2 a d3. assert (Hf : 0 ≤ f ≤ 24) by lia.
  assert (E4 : (y - 1) / 4 = 100 * q + 25 * c + f) by (symmetry; apply (Z.div_unique _ _ _ a); unfold y; lia).
  assert (E100 : (y - 1) / 100 = 4 * q + c) by (symmetry; apply (Z.div_unique _ _ _ (4 * f + a)); unfold y; lia).
  assert (E400 : (y - 1) / 400 = q) by (symmetry; apply (Z.div_unique _ _ _ (100 * c + 4 * f + a)); unfold y; lia).
  split; [|unfold days_before_year; rewrite E4, E100, E400; unfold y; lia].
  split; [lia|]. unfold year_len. destruct (leap_year y) eqn:Hl; [lia|].
  apply not_true_iff_false in Hl. rewrite leap_year_spec in Hl.
  destruct (Z.eq_dec d3 365) as [H365|]; [exfalso|lia]. apply Hl. assert (a = 3) as -> by lia.
  assert (M4 : y mod 4 = 0).
  { symmetry. apply (Z.mod_unique _ _ (100 * q + 25 * c + f + 1)); unfold y; lia. }
  split; [done|]. destruct (Z.eq_dec f 24) as [->|Hne].
  - right. symmetry. apply (Z.mod_unique _ _ (q + 1)); unfold y; lia.
  - left. assert (y mod 100 = 4 * f + 4); [|lia]. symmetry. apply (Z.mod_unique _ _ (4 * q + c)); unfold y; lia.
Qed.

(** ** Months *)

Lemma month_lengths_total y : days_before_month (month_lengths y) 12 = year_len y.
Proof. unfold month_lengths, year_len. simpl. destruct (leap_year y); lia. Qed.

Lemma month_len_range m : 28 ≤ month_len m ≤ 31.
Proof.
  unfold month_len, month_lengths. pose proof (Z.mod_pos_bound m 12 ltac:(lia)) as Hb.
  assert (Hk : (Z.to_nat (m mod 12) < 12)%nat) by lia. revert Hk. generalize (Z.to_nat (m mod 12)). intros k Hk.
  do 12 (destruct k as [|k]; [simpl; destruct (leap_year (m / 12)); lia|]). lia.
Qed.

Lemma days_before_month_S lengths k :
  (k < length lengths)%nat → days_before_month lengths (S k) = days_before_month lengths k + nth k lengths 0.
Proof.
  revert k. induction lengths as [|n lengths IH]; intros k Hk; simpl in Hk; [lia|].
  destruct k as [|k]; [simpl; destruct lengths; simpl; lia|].
  change (days_before_month (n :: lengths) (S (S k))) with (n + days_before_month lengths (S k)).
  rewrite IH by lia. simpl. lia.
Qed.

Lemma month_step m : month_start (m + 1) = month_start m + month_len m.
Proof.
  unfold month_start, month_len. pose proof (Z.div_mod m 12 ltac:(lia)) as Hm.
  pose proof (Z.mod_pos_bound m 12 ltac:(lia)) as Hb. set (y := m / 12) in *. set (k := m mod 12) in *.
  destruct (Z.eq_dec k 11) as [H11|Hne].
  - assert (E1 : (m + 1) / 12 = y + 1) by (symmetry; apply (Z.div_unique _ _ _ 0); lia).
    assert (E2 : (m + 1) mod 12 = 0) by (symmetry; apply (Z.mod_unique _ _ (y + 1)); lia).
    rewrite E1, E2, year_step, H11, <- (month_lengths_total y), (days_before_month_S _ 11) by (simpl; lia).
    simpl. lia.
  - assert (E1 : (m + 1) / 12 = y) by (symmetry; apply (Z.div_unique _ _ _ (k + 1)); lia).
    assert (E2 : (m + 1) mod 12 = k + 1) by (symmetry; apply (Z.mod_unique _ _ y); lia).
    rewrite E1, E2. replace (Z.to_nat (k + 1)) with (S (Z.to_nat k)) by lia.
    rewrite days_before_month_S by (simpl; lia). lia.
Qed.

Lemma month_start_lt a b : a < b → month_start a + month_len a ≤ month_start b.
Proof.
  intros Hab. rewrite <- month_step. set (n := Z.to_nat (b - a - 1)).
  replace b with (a + 1 + Z.of_nat n) by lia. clearbody n. clear b Hab.
  induction n as [|n IH]; [change (Z.of_nat 0) with 0; rewrite Z.add_0_r; reflexivity|].
  rewrite Nat2Z.inj_succ. replace (a + 1 + Z.succ (Z.of_nat n)) with (a + 1 + Z.of_nat n + 1) by lia.
  rewrite (month_step (a + 1 + Z.of_nat n)). pose proof (month_len_range (a + 1 + Z.of_nat n)). lia.
Qed.

(** The day of a year inside its month. *)
Lemma month_day_spec lengths : ∀ m0 d, 0 ≤ d < days_before_month lengths (length lengths) →
  ∃ k, (k < length lengths)%nat ∧ fst (month_day lengths m0 d) = m0 + Z.of_nat k
    ∧ 1 ≤ snd (month_day lengths m0 d) ≤ nth k lengths 0
    ∧ d = days_before_month lengths k + snd (month_day lengths m0 d) - 1.
Proof.
  induction lengths as [|n lengths IH]; intros m0 d Hd; simpl in Hd; [lia|]. simpl month_day.
  destruct (Z.ltb_spec d n) as [Hlt|Hge].
  - exists 0%nat. simpl. split_and!; lia.
  - destruct (IH (m0 + 1) (d - n)) as (k & Hk & Hf & Hs & He); [lia|]. exists (S k). simpl.
    split_and!; [lia|lia|lia|lia|lia].
Qed.

(** Every day number is a day of its month. *)
Lemma civil_sound n :
  1 ≤ (civil n).(cd_Month) ≤ 12 ∧ 1 ≤ (civil n).(cd_Day) ≤ month_len (month_of n)
  ∧ n = month_start (month_of n) + (civil n).(cd_Day) - 1.
Proof.
  destruct (civil_year n) as (y & d & Hc & Hd & Hn).
  destruct (month_day_spec (month_lengths y) 1 d) as (k & Hk & Hf & Hs & He).
  { simpl length. by rewrite month_lengths_total. }
  simpl length in Hk. rewrite Hf in Hc. unfold month_of, month_start, month_len.
  assert (Hy : cd_Year (civil n) = y) by by rewrite Hc.
  assert (Hmo : cd_Month (civil n) = 1 + Z.of_nat k) by by rewrite Hc.
  assert (Hda : cd_Day (civil n) = snd (month_day (month_lengths y) 1 d)) by by rewrite Hc.
  rewrite Hy, Hmo, Hda. assert (E1 : (12 * y + (1 + Z.of_nat k) - 1) / 12 = y).
  { symmetry. apply (Z.div_unique _ _ _ (Z.of_nat k)); lia. }
  assert (E2 : (12 * y + (1 + Z.of_nat k) - 1) mod 12 = Z.of_nat k).
  { symmetry. apply (Z.mod_unique _ _ y); lia. }
  rewrite E1, E2, Nat2Z.id. split_and!; lia.
Qed.

(** Two ways to write a day number agree. *)
Lemma month_unique m d m' d' :
  0 ≤ d < month_len m → 0 ≤ d' < month_len m' → month_start m + d = month_start m' + d' → m = m' ∧ d = d'.
Proof.
  intros Hd Hd' He. assert (m = m') as ->; [|lia].
  destruct (Z.lt_trichotomy m m') as [H|[H|H]]; [|done|]; apply month_start_lt in H; lia.
Qed.

Lemma civil_complete m d :
  0 ≤ d < month_len m →
  civil (month_start m + d) = mkCivilDate (m / 12) (m mod 12 + 1) (d + 1) ∧ month_of (month_start m + d) = m.
Proof.
  intros Hd. set (n := month_start m + d). destruct (civil_sound n) as (Hmo & Hda & Hn).
  destruct (month_unique m d (month_of n) (cd_Day (civil n) - 1)) as [Hm He]; [done|lia|unfold n in *; lia|].
  split; [|done]. unfold month_of in Hm. destruct (civil n) as [y mo da]. simpl in *.
  assert (m / 12 = y) as -> by (symmetry; apply (Z.div_unique _ _ _ (mo - 1)); lia).
  assert (m mod 12 = mo - 1) as -> by (symmetry; apply (Z.mod_unique _ _ y); lia).
  f_equal; lia.
Qed.

Lemma date_days_month y mo d : date_days y mo d = month_start (12 * y + mo - 1) + (d - 1).
Proof.
  unfold date_days, month_start. replace (12 * y + mo - 1) with ((mo - 1) + y * 12) by lia.
  by rewrite Z.div_add, Z.mod_add, Z.add_comm with (n := y) by lia.
Qed.

(** ** Subscription cycles: theorems *)

#[local] Arguments civil _ : simpl never.
#[local] Arguments addCalendarMonthsClamped _ _ : simpl never.

Lemma day_pos : 0 < day_ns.
Proof. done. Qed.

Lemma clock_bounds t : 0 ≤ clock_of t < day_ns.
Proof. apply Z.mod_pos_bound, day_pos. Qed.

Lemma time_split t : t = t / day_ns * day_ns + clock_of t.
Proof. unfold clock_of. pose proof (Z.div_mod t day_ns ltac:(pose proof day_pos; lia)). lia. Qed.

(** The day of the month an anchor falls on in the month [m]. *)
Definition clamped (anchor : time) (m : Z) : Z := Z.min (month_len m) (date_of anchor).(cd_Day).

(** The anchor moved by calendar months: same clock, same day or the last one. *)
Lemma addCalendarMonths_spec anchor months :
  let m := month_of (anchor / day_ns) + months in
  addCalendarMonthsClamped anchor months = (month_start m + clamped anchor m - 1) * day_ns + clock_of anchor.
Proof.
  intros m. unfold addCalendarMonthsClamped. cbv zeta. fold (date_of anchor).
  pose proof (month_len_range m) as Hr.
  assert (Ht : civil (date_days (cd_Year (date_of anchor)) (cd_Month (date_of anchor) + months) 1)
               = mkCivilDate (m / 12) (m mod 12 + 1) 1).
  { rewrite date_days_month.
    replace (12 * cd_Year (date_of anchor) + (cd_Month (date_of anchor) + months) - 1) with m
      by (unfold m, month_of, date_of; lia).
    apply (civil_complete m 0). lia. }
  rewrite Ht. cbn [cd_Year cd_Month].
  rewrite !date_days_month. pose proof (Z.div_mod m 12 ltac:(lia)) as Hm.
  replace (12 * (m / 12) + (m mod 12 + 1 + 1) - 1) with (m + 1) by lia.
  replace (12 * (m / 12) + (m mod 12 + 1) - 1) with m by lia. rewrite month_step.
  replace (month_start m + month_len m + (0 - 1)) with (month_start m + (month_len m - 1)) by lia.
  destruct (civil_complete m (month_len m - 1)) as [-> _]; [lia|]. cbn [cd_Day]. unfold clamped. do 2 f_equal.
  destruct (Z.ltb_spec (month_len m - 1 + 1) (cd_Day (date_of anchor))); lia.
Qed.

Lemma clamped_bounds anchor m : 1 ≤ clamped anchor m ≤ month_len m.
Proof.
  unfold clamped, date_of. pose proof (month_len_range m). destruct (civil_sound (anchor / day_ns)) as (_ & ? & _). lia.
Qed.

(** The anchor itself. *)
Lemma addCalendarMonths_0 anchor : addCalendarMonthsClamped anchor 0 = anchor.
Proof.
  rewrite addCalendarMonths_spec, Z.add_0_r. destruct (civil_sound (anchor / day_ns)) as (_ & Hd & Hn).
  unfold clamped, date_of. rewrite Z.min_r by lia. rewrite <- Hn. symmetry. apply time_split.
Qed.

(** Consecutive boundaries are 28 to 31 days apart. *)
Lemma addCalendarMonths_step anchor k :
  28 * day_ns ≤ addCalendarMonthsClamped anchor (k + 1) - addCalendarMonthsClamped anchor k ≤ 31 * day_ns.
Proof.
  rewrite !addCalendarMonths_spec. rewrite Z.add_assoc. set (m := month_of (anchor / day_ns) + k). rewrite month_step.
  unfold clamped. pose proof (month_len_range m). pose proof (month_len_range (m + 1)). pose proof day_pos.
  destruct (civil_sound (anchor / day_ns)) as (_ & Hd & _). fold (date_of anchor) in Hd.
  assert (28 ≤ month_len m + Z.min (month_len (m + 1)) (cd_Day (date_of anchor))
               - Z.min (month_len m) (cd_Day (date_of anchor)) ≤ 31) by lia. nia.
Qed.

Lemma addCalendarMonths_lt anchor a b : a < b → addCalendarMonthsClamped anchor a < addCalendarMonthsClamped anchor b.
Proof.
  intros Hab. set (n := Z.to_nat (b - a - 1)). replace b with (a + Z.of_nat n + 1) by lia. clearbody n. clear b Hab.
  pose proof day_pos. induction n as [|n IH].
  - change (Z.of_nat 0) with 0. rewrite Z.add_0_r. pose proof (addCalendarMonths_step anchor a). lia.
  - pose proof (addCalendarMonths_step anchor (a + Z.of_nat n + 1)).
    replace (a + Z.of_nat (S n) + 1) with (a + Z.of_nat n + 1 + 1) by lia. lia.
Qed.

(** A time lies before every boundary of a later month and after those of
    earlier ones. *)
Lemma boundary_side anchor now k :
  (month_of (now / day_ns) < month_of (anchor / day_ns) + k → now < addCalendarMonthsClamped anchor k)
  ∧ (month_of (anchor / day_ns) + k < month_of (now / day_ns) → addCalendarMonthsClamped anchor k < now).
Proof.
  rewrite addCalendarMonths_spec. set (m := month_of (anchor / day_ns) + k). pose proof (clamped_bounds anchor m).
  destruct (civil_sound (now / day_ns)) as (_ & Hd & Hn). pose proof (time_split now). pose proof day_pos.
  pose proof (clock_bounds now). pose proof (clock_bounds anchor).
  split; intros Hlt; apply month_start_lt in Hlt.
  - assert (now / day_ns + 1 ≤ month_start m + clamped anchor m - 1) by lia. nia.
  - assert (month_start m + clamped anchor m - 1 + 1 ≤ now / day_ns) by lia. nia.
Qed.

(** The answer is the pair of consecutive boundaries around [now]. *)
Lemma cycleBounds_spec start now :
  IsZero start = false → start ≤ now → ∃ k, 0 ≤ k
    ∧ subscriptionCycleBounds start now = Ok (addCalendarMonthsClamped start k, addCalendarMonthsClamped start (k + 1))
    ∧ addCalendarMonthsClamped start k ≤ now < addCalendarMonthsClamped start (k + 1).
Proof.
  intros Hz Hle. unfold subscriptionCycleBounds. rewrite Hz. change (negb false) with true. cbv iota. unfold Before, After.
  destruct (Z.ltb_spec now start); [lia|]. change (negb false) with true. cbv iota.
  set (k0 := (cd_Year (date_of now) - cd_Year (date_of start)) * 12 + (cd_Month (date_of now) - cd_Month (date_of start))).
  assert (Hk0 : month_of (start / day_ns) + k0 = month_of (now / day_ns)) by (unfold month_of, k0, date_of; lia).
  set (k := if now <? addCalendarMonthsClamped start k0 then k0 - 1 else k0). exists k.
  assert (Hb : addCalendarMonthsClamped start k ≤ now < addCalendarMonthsClamped start (k + 1)).
  { unfold k. destruct (boundary_side start now (k0 - 1)) as [_ H1]. destruct (boundary_side start now (k0 + 1)) as [H2 _].
    destruct (Z.ltb_spec now (addCalendarMonthsClamped start k0)).
    - replace (k0 - 1 + 1) with k0 by lia. split; [|done]. apply Z.lt_le_incl, H1. lia.
    - split; [done|]. apply H2. lia. }
  split_and!; [|done|lia|lia]. destruct (Z.le_gt_cases 0 k) as [|Hneg]; [done|]. exfalso.
  assert (addCalendarMonthsClamped start (k + 1) ≤ addCalendarMonthsClamped start 0); [|rewrite addCalendarMonths_0 in *; lia].
  destruct (Z.eq_dec (k + 1) 0) as [->|]; [done|]. apply Z.lt_le_incl, addCalendarMonths_lt. lia.
Qed.


(** An anchor on January 31, 2024 at noon; the cycle of March 5. *)
Definition demoAnchor : time := date_days 2024 1 31 * day_ns + 12 * 3600 * second_ns.
Definition demoToday : time := date_days 2024 3 5 * day_ns.

