(* ===== verification/BillingTypes.v ===== *)
(** * Agent billing records: service/agentbilling/types.go

    The immutable binding of a Turn to its reservation and the outcome that
    projects the reservation's commercial result, with their validators and
    digests.  Pointer fields are options. *)

From Stdlib Require Import Ascii.
From S2P Require Import Prelude GoText GoDigest AgentContract TurnTypes ExecutionTypes Settlement.

Definition maxBindingIDBytes : Z := 64.
Definition maxOutcomeIDBytes : Z := 64.
Definition billingMaxReservationToolBytes : Z := 64.
Definition max_int32 : Z := 2 ^ 31 - 1.

Definition OutcomeStatus : Type := string.
Definition OutcomeStatusReviewHeld : OutcomeStatus := "review_held".
Definition OutcomeStatusRefundPending : OutcomeStatus := "refund_pending".
Definition OutcomeStatusFinalized : OutcomeStatus := "finalized".
Definition OutcomeStatusReleased : OutcomeStatus := "released".

Definition OutcomeStatus_Valid (s : OutcomeStatus) : bool :=
  bool_decide (s = OutcomeStatusReviewHeld) || bool_decide (s = OutcomeStatusRefundPending)
  || bool_decide (s = OutcomeStatusFinalized) || bool_decide (s = OutcomeStatusReleased).

Definition RequestedIntent : Type := string.
Definition RequestedIntentFinalize : RequestedIntent := "finalize".
Definition RequestedIntentRelease : RequestedIntent := "release".
Definition RequestedIntentReview : RequestedIntent := "review".

Definition RequestedIntent_Valid (i : RequestedIntent) : bool :=
  bool_decide (i = RequestedIntentFinalize) || bool_decide (i = RequestedIntentRelease)
  || bool_decide (i = RequestedIntentReview).

Definition AuthorizationKind : Type := string.
Definition AuthorizationKindOperation : AuthorizationKind := "operation".
Definition AuthorizationKindReconcile : AuthorizationKind := "reconcile".

Definition AuthorizationKind_Valid (k : AuthorizationKind) : bool :=
  bool_decide (k = AuthorizationKindOperation) || bool_decide (k = AuthorizationKindReconcile).

(** ** Text and digests *)

Definition validateASCII (value : string) (max : Z) : validation :=
  first_error
    [ when (bool_decide (TrimSpace value = "") || (max <? len value)) (ErrText "is required and must not exceed bytes");
      when (negb (forallb (λ c, (0x21 <=? code c) && (code c <=? 0x7e)) (chars value)))
        (ErrText "must contain printable ASCII") ].

(** 64 characters, lower case, that decode as hexadecimal. *)
Definition lowerHexDigest (value : string) : bool := (len value =? 64) && forallb hex_char (chars value).

Definition sha256Digest (value : string) : bool :=
  HasPrefix value "sha256:" && lowerHexDigest (String.substring 7 (String.length value - 7) value).

Definition billingDigest (domain : string) (values : list string) : string :=
  "sha256:" +:+ sha256_hex (hash_parts (domain :: values)).

Definition shortDigest (domain : string) (values : list string) : string := sha256_hex (hash_parts (domain :: values)).

Definition optionalString (value : option string) : string := match value with Some s => s | None => "" end.
Definition optionalInt64 (value : option Z) : string := match value with Some n => FormatInt n | None => "" end.

(** ** Bindings *)

Record BindingRecord := mkBindingRecord {
  bd_BindingID : string;
  bd_TurnID : TurnID;
  bd_PrincipalID : PrincipalID;
  bd_TurnCommandDigest : string;
  bd_ReservationID : Z;
  bd_ReservationUID : Z;
  bd_ReservationRequestDigest : string;
  bd_ReservationTool : string;
  bd_ReservedUnits : Z;
  bd_ProjectID : Z;
  bd_PricingSnapshotDigest : string;
  bd_BindingDigest : string;
  bd_CreatedAt : time }.

Definition bindingID (turnID : TurnID) : string := shortDigest "agent-turn-reservation-binding-id-v1" [turnID].

Definition bindingRecordDigest (b : BindingRecord) : string :=
  billingDigest "agent-turn-reservation-binding-v1"
    [ b.(bd_BindingID); b.(bd_TurnID); b.(bd_PrincipalID); b.(bd_TurnCommandDigest);
      FormatInt b.(bd_ReservationID); FormatInt b.(bd_ReservationUID); b.(bd_ReservationRequestDigest);
      b.(bd_ReservationTool); FormatInt b.(bd_ReservedUnits); FormatInt b.(bd_ProjectID);
      b.(bd_PricingSnapshotDigest) ].

Definition required_text (s : string) (max : Z) : bool := negb (bool_decide (TrimSpace s = "")) && (len s <=? max).

Definition BindingRecord_Validate (b : BindingRecord) : validation :=
  first_error
    [ validateASCII b.(bd_BindingID) maxBindingIDBytes;
      when (negb (required_text b.(bd_TurnID) MaxTurnIDBytes)) ErrBindingConflict;
      when (negb (required_text b.(bd_PrincipalID) MaxPrincipalIDBytes)) ErrBindingConflict;
      when (bool_decide (is_Some (validateASCII b.(bd_TurnCommandDigest) MaxCommandDigestBytes))) ErrBindingConflict;
      when ((b.(bd_ReservationID) =? 0) || (b.(bd_ReservationUID) <=? 0) || (max_int32 <? b.(bd_ReservationUID))
            || (max_int32 <? b.(bd_ProjectID)) || (b.(bd_ReservedUnits) <? 0) || (max_int32 <? b.(bd_ReservedUnits)))
        ErrBindingConflict;
      when (negb (lowerHexDigest b.(bd_ReservationRequestDigest))) ErrBindingConflict;
      validateASCII b.(bd_ReservationTool) billingMaxReservationToolBytes;
      when (negb (sha256Digest b.(bd_PricingSnapshotDigest)) || negb (sha256Digest b.(bd_BindingDigest)))
        ErrBindingConflict;
      when (negb (bool_decide (b.(bd_BindingID) = bindingID b.(bd_TurnID)))
            || negb (bool_decide (b.(bd_BindingDigest) = bindingRecordDigest b)) || IsZero b.(bd_CreatedAt))
        ErrBindingConflict ].

(** ** Outcomes *)

Record OutcomeRecord := mkOutcomeRecord {
  oc_OutcomeID : string;
  oc_BindingID : string;
  oc_TurnID : TurnID;
  oc_ReservationID : Z;
  oc_BindingDigest : string;
  oc_SettlementKey : string;
  oc_LedgerRequestDigest : string;
  oc_AuthorizationKind : AuthorizationKind;
  oc_AttemptID : option string;
  oc_FencingToken : Sequence;
  oc_OperationID : option string;
  oc_TerminalStatus : TurnStatus;
  oc_RequestedIntent : RequestedIntent;
  oc_UsedUnits : option Z;
  oc_ReservedUnits : Z;
  oc_Status : OutcomeStatus;
  oc_RefundTarget : option string;
  oc_RefundDue : Z;
  oc_ReservationStateVersion : Z;
  oc_ReviewID : option string;
  oc_ReviewRequestDigest : option string;
  oc_ResolutionID : option string;
  oc_ResolutionRequestDigest : option string;
  oc_OutcomeDigest : string;
  oc_CreatedAt : time;
  oc_UpdatedAt : time }.

#[export] Instance OutcomeRecord_eq_dec : EqDecision OutcomeRecord.
Proof. solve_decision. Defined.

Definition outcomeID (settlementKey : string) : string :=
  shortDigest "agent-turn-settlement-outcome-id-v1" [settlementKey].

Definition settlementAuthorizationKey (domain : string) (turnID : TurnID) (receipt : string) : string :=
  "wm:turn-settlement:v1:" +:+ shortDigest domain [turnID; receipt].

(** The columns the digest covers. *)
Definition outcome_fields (o : OutcomeRecord) : list string :=
  [ o.(oc_OutcomeID); o.(oc_BindingID); o.(oc_TurnID); FormatInt o.(oc_ReservationID); o.(oc_BindingDigest);
    o.(oc_SettlementKey); o.(oc_LedgerRequestDigest); o.(oc_AuthorizationKind); optionalString o.(oc_AttemptID);
    FormatInt (i64 o.(oc_FencingToken)); optionalString o.(oc_OperationID); o.(oc_TerminalStatus);
    o.(oc_RequestedIntent); optionalInt64 o.(oc_UsedUnits); FormatInt o.(oc_ReservedUnits); o.(oc_Status);
    optionalString o.(oc_RefundTarget); FormatInt o.(oc_RefundDue); FormatInt o.(oc_ReservationStateVersion);
    optionalString o.(oc_ReviewID); optionalString o.(oc_ReviewRequestDigest); optionalString o.(oc_ResolutionID);
    optionalString o.(oc_ResolutionRequestDigest) ].

Definition outcomeRecordDigest (o : OutcomeRecord) : string :=
  billingDigest "agent-turn-settlement-outcome-v1" (outcome_fields o).

Definition is_set {A} (o : option A) : bool := match o with Some _ => true | None => false end.
Definition text_is (o : option string) (s : string) : bool := holds_at o (λ x, bool_decide (x = s)).

(** [validateASCII(...) != nil] on a pointer that may be nil. *)
Definition valid_text (o : option string) (max : Z) : bool :=
  holds_at o (λ s, match validateASCII s max with None => true | Some _ => false end).

Definition validateOutcomeAuthorization (o : OutcomeRecord) : validation :=
  if bool_decide (o.(oc_AuthorizationKind) = AuthorizationKindOperation) then
    when (negb (valid_text o.(oc_AttemptID) MaxAttemptIDBytes && valid_text o.(oc_OperationID) MaxOperationIDBytes
                && holds_at o.(oc_OperationID) (λ op, bool_decide (o.(oc_SettlementKey)
                     = settlementAuthorizationKey "operation" o.(oc_TurnID) op)))) ErrOutcomeConflict
  else if bool_decide (o.(oc_AuthorizationKind) = AuthorizationKindReconcile) then
    when (is_set o.(oc_AttemptID) || is_set o.(oc_OperationID)
          || negb (bool_decide (o.(oc_SettlementKey)
               = settlementAuthorizationKey "reconcile" o.(oc_TurnID) (FormatInt (i64 o.(oc_FencingToken))))))
      ErrOutcomeConflict
  else None.

Definition review_tuple (o : OutcomeRecord) : bool := is_set o.(oc_ReviewID) || is_set o.(oc_ReviewRequestDigest).
Definition resolution_tuple (o : OutcomeRecord) : bool :=
  is_set o.(oc_ResolutionID) || is_set o.(oc_ResolutionRequestDigest).

Definition validateOutcomeTuples (o : OutcomeRecord) : validation :=
  first_error
    [ if bool_decide (o.(oc_RequestedIntent) = RequestedIntentReview)
      then when (negb (valid_text o.(oc_ReviewID) MaxSettlementReviewIDBytes && holds_at o.(oc_ReviewID) lowerHexDigest
                       && holds_at o.(oc_ReviewRequestDigest) sha256Digest)) ErrOutcomeConflict
      else when (review_tuple o || resolution_tuple o) ErrOutcomeConflict;
      when (resolution_tuple o
            && negb (valid_text o.(oc_ResolutionID) MaxSettlementReviewIDBytes
                     && holds_at o.(oc_ResolutionID) lowerHexDigest
                     && holds_at o.(oc_ResolutionRequestDigest) sha256Digest)) ErrOutcomeConflict ].

(** The switch on the status. *)
Definition validateOutcomeStatus (o : OutcomeRecord) : validation :=
  if bool_decide (o.(oc_Status) = OutcomeStatusReviewHeld) then
    when (negb (bool_decide (o.(oc_RequestedIntent) = RequestedIntentReview)) || is_set o.(oc_UsedUnits)
          || resolution_tuple o || is_set o.(oc_RefundTarget) || negb (o.(oc_RefundDue) =? 0)) ErrOutcomeConflict
  else if bool_decide (o.(oc_Status) = OutcomeStatusRefundPending) then
    when (negb (holds_at o.(oc_UsedUnits) (λ used, (o.(oc_RefundDue) =? o.(oc_ReservedUnits) - used)
                  && (negb (text_is o.(oc_RefundTarget) "released") || (used =? 0))))
          || negb (text_is o.(oc_RefundTarget) "finalized" || text_is o.(oc_RefundTarget) "released")
          || (o.(oc_RefundDue) <=? 0)) ErrOutcomeConflict
  else if bool_decide (o.(oc_Status) = OutcomeStatusFinalized) then
    when (negb (is_set o.(oc_UsedUnits)) || is_set o.(oc_RefundTarget) || negb (o.(oc_RefundDue) =? 0)) ErrOutcomeConflict
  else if bool_decide (o.(oc_Status) = OutcomeStatusReleased) then
    when (negb (holds_at o.(oc_UsedUnits) (λ used, used =? 0)) || is_set o.(oc_RefundTarget)
          || negb (o.(oc_RefundDue) =? 0)) ErrOutcomeConflict
  else None.

Definition OutcomeRecord_Validate (o : OutcomeRecord) : validation :=
  first_error
    [ validateASCII o.(oc_OutcomeID) maxOutcomeIDBytes;
      validateASCII o.(oc_BindingID) maxBindingIDBytes;
      when (negb (required_text o.(oc_TurnID) MaxTurnIDBytes) || (o.(oc_ReservationID) =? 0)
            || negb (sha256Digest o.(oc_BindingDigest))) ErrOutcomeConflict;
      validateASCII o.(oc_SettlementKey) MaxSettlementKeyBytes;
      when (negb (sha256Digest o.(oc_LedgerRequestDigest)) || negb (AuthorizationKind_Valid o.(oc_AuthorizationKind))
            || (o.(oc_FencingToken) <? 1) || (MaxDurableSequence <? o.(oc_FencingToken))
            || negb (TurnStatus_Valid o.(oc_TerminalStatus)) || negb (TurnStatus_Terminal o.(oc_TerminalStatus))
            || negb (RequestedIntent_Valid o.(oc_RequestedIntent)) || negb (OutcomeStatus_Valid o.(oc_Status))
            || (o.(oc_ReservedUnits) <? 0) || (o.(oc_ReservationStateVersion) =? 0)) ErrOutcomeConflict;
      when (holds_at o.(oc_UsedUnits) (λ used, (used <? 0) || (o.(oc_ReservedUnits) <? used))) ErrOutcomeConflict;
      when ((o.(oc_RefundDue) <? 0) || (o.(oc_ReservedUnits) <? o.(oc_RefundDue))) ErrOutcomeConflict;
      validateOutcomeAuthorization o;
      validateOutcomeTuples o;
      validateOutcomeStatus o;
      when (bool_decide (o.(oc_RequestedIntent) = RequestedIntentFinalize)
            && negb (holds_at o.(oc_UsedUnits) (λ used, 0 <? used))) ErrOutcomeConflict;
      when (bool_decide (o.(oc_RequestedIntent) = RequestedIntentRelease)
            && negb (holds_at o.(oc_UsedUnits) (λ used, used =? 0))) ErrOutcomeConflict;
      when (bool_decide (o.(oc_RequestedIntent) = RequestedIntentReview)
            && negb (bool_decide (o.(oc_Status) = OutcomeStatusReviewHeld)) && negb (resolution_tuple o))
        ErrOutcomeConflict;
      when (negb (sha256Digest o.(oc_OutcomeDigest))
            || negb (bool_decide (o.(oc_OutcomeID) = outcomeID o.(oc_SettlementKey)))
            || negb (bool_decide (o.(oc_OutcomeDigest) = outcomeRecordDigest o))
            || IsZero o.(oc_CreatedAt) || Before o.(oc_UpdatedAt) o.(oc_CreatedAt)) ErrOutcomeConflict ].
