(* ===== verification/AgentBilling.v ===== *)
(** * The credit settlement authority: service/agentbilling/authority.go, sql_rows.go

    The adapter between the Turn kernel and the credit reservations.  Every
    operation runs in a transaction: it returns the new state or an error, and
    with an error the caller rolls back.  The kernel's tables are read only here:
    the Turn rows, the Reviews and the resolutions of [Database].

    Rows and records of the two billing tables have the same columns, so a row is
    a [stored] record; reading a row validates it. *)

From Stdlib Require Import Ascii.
From S2P Require Import Prelude GoText GoDigest GoTime AgentContract TurnTypes ExecutionTypes Settlement ProviderUsage SettlementUsage SqlDatabase BillingTypes CreditTables SubscriptionCycle CreditsPack ProjectBudget CreditReservation.

Record BillingState := mkBillingState {
  bl_ledger : Ledger;
  bl_bindings : list (stored BindingRecord);
  bl_outcomes : list (stored OutcomeRecord) }.

Definition with_ledger (st : BillingState) (db : Ledger) : BillingState :=
  mkBillingState db st.(bl_bindings) st.(bl_outcomes).
Definition with_outcomes (st : BillingState) (rows : list (stored OutcomeRecord)) : BillingState :=
  mkBillingState st.(bl_ledger) st.(bl_bindings) rows.

(** A binding row is also what the sweeper reads: [lg_bound]. *)
Definition insert_binding (st : BillingState) (b : BindingRecord) : BillingState :=
  let db := st.(bl_ledger) in
  mkBillingState
    (mkLedger db.(lg_users) db.(lg_orders) db.(lg_projects) db.(lg_packs) db.(lg_reservations) db.(lg_allocations)
       db.(lg_tasks) (db.(lg_bound) ++ [b.(bd_ReservationID)]))
    (st.(bl_bindings) ++ [mkStored (fresh_row_id (map row_ID st.(bl_bindings))) b])
    st.(bl_outcomes).

(** The statements of the authority that may fail for reasons of the database. *)
Inductive billing_statement :=
| BsLockTurn | BsLockReview | BsLockBinding | BsLockOutcome | BsLockResolution
| BsInsertBinding | BsInsertOutcome | BsUpdateOutcome | BsTransaction.

(** What a transaction sees of the outside: the i-th call of the reservation
    service, the database clock and the statements that fail. *)
Record billing_env := mkBillingEnv {
  be_call : nat → ledger_env;
  be_now : result time;
  be_fault : billing_statement → validation }.

(** ** Commands and their digests *)

Record ReservationAdmission := mkReservationAdmission {
  ra_PrincipalID : PrincipalID;
  ra_Reservation : ReservationRequest;
  ra_PricingSnapshotDigest : string }.

Definition ReservationAdmission_Validate (a : ReservationAdmission) : validation :=
  first_error
    [ when (bool_decide (a.(ra_PrincipalID) = "") || (MaxPrincipalIDBytes <? len a.(ra_PrincipalID))
            || negb (sha256Digest a.(ra_PricingSnapshotDigest))) ErrBindingConflict;
      match CanonicalReservationRequestDigest a.(ra_Reservation) with Ok _ => None | Err _ => Some ErrBindingConflict end;
      validateASCII a.(ra_Reservation).(rq_Tool) billingMaxReservationToolBytes ].

(** The sealed hook of one admission. *)
Record reservationAdmissionAuthority := mkReservationAuthority {
  aa_spec : ReservationAdmission;
  aa_reservationRequestDigest : string }.

Definition Admission (spec : ReservationAdmission) : result reservationAdmissionAuthority :=
  check! ReservationAdmission_Validate spec;;
  try! requestDigest := CanonicalReservationRequestDigest spec.(ra_Reservation) as ErrBindingConflict in
  Ok (mkReservationAuthority spec requestDigest).

Definition ordinaryRequestDigest (b : BindingRecord) (c : SettlementCommand) : string :=
  billingDigest "agent-turn-settlement-ledger-request-v1"
    [ b.(bd_BindingDigest); c.(sc_SettlementKey); c.(sc_AuthorizationKind); c.(sc_AttemptID);
      FormatInt (i64 c.(sc_FencingToken)); c.(sc_OperationID); c.(sc_TerminalStatus); c.(sc_Intent);
      FormatInt c.(sc_UsedUnits) ].

Definition reviewRequestDigest (b : BindingRecord) (c : SettlementReviewHoldCommand) : string :=
  let r := c.(hold_Review) in
  billingDigest "agent-turn-settlement-review-ledger-request-v1"
    [ b.(bd_BindingDigest); r.(rv_SettlementKey); r.(rv_ReviewID); r.(rv_RequestDigest); r.(rv_AttemptID);
      FormatInt (i64 r.(rv_FencingToken)); r.(rv_OperationID); r.(rv_TerminalStatus) ].

Definition resolutionAuthorityReceiptDigestFields (b : BindingRecord) (settlementKey reviewID reviewRequestDigest
    resolutionID decisionDigest evidenceID evidenceDigest pricingSnapshotDigest : string) (usedUnits : Z) : string :=
  billingDigest "agent-credit-settlement-authority-receipt-v1"
    [ b.(bd_BindingDigest); settlementKey; reviewID; reviewRequestDigest; resolutionID; decisionDigest; evidenceID;
      evidenceDigest; pricingSnapshotDigest; FormatInt usedUnits; FormatInt b.(bd_ReservedUnits) ].

Definition resolutionAuthorityReceiptDigest (b : BindingRecord) (c : SettlementReviewResolutionAuthorityCommand) : string :=
  resolutionAuthorityReceiptDigestFields b c.(rac_Review).(rv_SettlementKey) c.(rac_Review).(rv_ReviewID)
    c.(rac_Review).(rv_RequestDigest) c.(rac_ResolutionID) c.(rac_DecisionDigest) c.(rac_Evidence).(ev_EvidenceID)
    c.(rac_Evidence).(ev_EvidenceDigest) c.(rac_PricingSnapshotDigest) c.(rac_UsedUnits).

Definition resolutionAuthorityReceiptDigestFromRecord (b : BindingRecord) (r : SettlementReviewResolutionRecord) : string :=
  resolutionAuthorityReceiptDigestFields b r.(rs_SettlementKey) r.(rs_ReviewID) r.(rs_ReviewRequestDigest)
    r.(rs_ResolutionID) r.(rs_DecisionDigest) r.(rs_EvidenceID) r.(rs_EvidenceDigest) r.(rs_PricingSnapshotDigest)
    r.(rs_UsedUnits).

Definition positiveUnits (units : Z) : result Z :=
  guard! negb ((units <=? 0) || (max_int32 <? units)) else ErrReservationIneligible;; Ok units.

Definition settlementUnits (c : SettlementCommand) : result Z :=
  if bool_decide (c.(sc_Intent) = SettlementIntentRelease)
  then guard! c.(sc_UsedUnits) =? 0 else ErrOutcomeConflict;; Ok 0
  else positiveUnits c.(sc_UsedUnits).

(** ** Snapshots and outcomes *)

Definition snapshotMatchesBinding (b : BindingRecord) (s : ReservationSettlementSnapshot) : validation :=
  when ((s.(ss_ReservationID) =? 0) || negb (s.(ss_ReservationID) =? b.(bd_ReservationID))
        || negb (s.(ss_UID) =? b.(bd_ReservationUID))
        || negb (bool_decide (s.(ss_RequestDigest) = b.(bd_ReservationRequestDigest)))
        || negb (bool_decide (s.(ss_Tool) = b.(bd_ReservationTool)))
        || negb (s.(ss_Reserved) =? b.(bd_ReservedUnits)) || negb (s.(ss_ProjectID) =? b.(bd_ProjectID))
        || (s.(ss_StateVersion) =? 0)) ErrReservationStateDrift.

Definition snapshotTime (s : ReservationSettlementSnapshot) : result time :=
  match s.(ss_StateChangedAt) with
  | Some t => guard! negb (IsZero t) else ErrReservationStateDrift;; Ok t
  | None => Err ErrReservationStateDrift
  end.

(** The columns of an outcome that change: the others keep their values. *)
Definition outcome_with (o : OutcomeRecord) (used : option Z) (status : OutcomeStatus) (target : option string)
    (due version : Z) (resolutionID resolutionDigest : option string) (outcomeDigest : string)
    (created updated : time) : OutcomeRecord :=
  mkOutcomeRecord o.(oc_OutcomeID) o.(oc_BindingID) o.(oc_TurnID) o.(oc_ReservationID) o.(oc_BindingDigest)
    o.(oc_SettlementKey) o.(oc_LedgerRequestDigest) o.(oc_AuthorizationKind) o.(oc_AttemptID) o.(oc_FencingToken)
    o.(oc_OperationID) o.(oc_TerminalStatus) o.(oc_RequestedIntent) used o.(oc_ReservedUnits) status target due version
    o.(oc_ReviewID) o.(oc_ReviewRequestDigest) resolutionID resolutionDigest outcomeDigest created updated.

Definition with_outcome_digest (o : OutcomeRecord) (d : string) : OutcomeRecord :=
  outcome_with o o.(oc_UsedUnits) o.(oc_Status) o.(oc_RefundTarget) o.(oc_RefundDue) o.(oc_ReservationStateVersion)
    o.(oc_ResolutionID) o.(oc_ResolutionRequestDigest) d o.(oc_CreatedAt) o.(oc_UpdatedAt).

(** The status, refund target and refund due the snapshot stands for. *)
Definition snapshot_outcome (s : ReservationSettlementSnapshot) (used : Z)
    : result (OutcomeStatus * option string * Z) :=
  if bool_decide (s.(ss_Status) = StatusFinalized) then
    guard! s.(ss_Used) =? used else ErrReservationStateDrift;;
    Ok (OutcomeStatusFinalized, None, 0)
  else if bool_decide (s.(ss_Status) = StatusReleased) then
    guard! (used =? 0) && (s.(ss_Used) =? 0) else ErrReservationStateDrift;;
    Ok (OutcomeStatusReleased, None, 0)
  else if bool_decide (s.(ss_Status) = StatusRefundPending) then
    guard! bool_decide (s.(ss_RefundTargetUsed) = Some used)
           && (bool_decide (s.(ss_RefundTargetStatus) = StatusFinalized)
               || bool_decide (s.(ss_RefundTargetStatus) = StatusReleased))
           && (negb (bool_decide (s.(ss_RefundTargetStatus) = StatusReleased)) || (used =? 0))
      else ErrReservationStateDrift;;
    Ok (OutcomeStatusRefundPending, Some s.(ss_RefundTargetStatus), s.(ss_RefundDue))
  else Err ErrReservationStateDrift.

Definition outcomeFromSnapshot (b : BindingRecord) (o : OutcomeRecord) (s : ReservationSettlementSnapshot)
    : result OutcomeRecord :=
  check! snapshotMatchesBinding b s;;
  match o.(oc_UsedUnits) with
  | None => Err ErrOutcomeConflict
  | Some used =>
    try! (status, target, due) := snapshot_outcome s used in
    try! timestamp := snapshotTime s in
    let o := outcome_with o (Some used) status target due s.(ss_StateVersion) o.(oc_ResolutionID)
               o.(oc_ResolutionRequestDigest) o.(oc_OutcomeDigest)
               (if IsZero o.(oc_CreatedAt) then timestamp else o.(oc_CreatedAt)) timestamp in
    let o := with_outcome_digest o (outcomeRecordDigest o) in
    check! OutcomeRecord_Validate o;; Ok o
  end.

Definition text_option (s : string) : option string := if bool_decide (s = "") then None else Some s.

Definition requested_intent (c : SettlementCommand) : RequestedIntent :=
  if bool_decide (c.(sc_Intent) = SettlementIntentRelease) then RequestedIntentRelease else RequestedIntentFinalize.

Definition ordinaryOutcome (b : BindingRecord) (c : SettlementCommand) (requestDigest : string)
    (s : ReservationSettlementSnapshot) (existing : option OutcomeRecord) : result OutcomeRecord :=
  let used := if bool_decide (c.(sc_Intent) = SettlementIntentRelease) then 0 else c.(sc_UsedUnits) in
  outcomeFromSnapshot b
    (mkOutcomeRecord (outcomeID c.(sc_SettlementKey)) b.(bd_BindingID) b.(bd_TurnID) b.(bd_ReservationID)
       b.(bd_BindingDigest) c.(sc_SettlementKey) requestDigest c.(sc_AuthorizationKind) (text_option c.(sc_AttemptID))
       c.(sc_FencingToken) (text_option c.(sc_OperationID)) c.(sc_TerminalStatus) (requested_intent c) (Some used)
       b.(bd_ReservedUnits) "" None 0 0 None None None None ""
       (match existing with Some e => e.(oc_CreatedAt) | None => 0 end) 0) s.

Definition reviewAuthorization (r : SettlementReviewRecord) : AuthorizationKind * string * string :=
  if bool_decide (r.(rv_AttemptID) = "") && bool_decide (r.(rv_OperationID) = "")
  then (AuthorizationKindReconcile, "", "")
  else (AuthorizationKindOperation, r.(rv_AttemptID), r.(rv_OperationID)).

Definition reviewAuthorizationPointers (r : SettlementReviewRecord)
    : AuthorizationKind * option string * option string :=
  let '(kind, attemptID, operationID) := reviewAuthorization r in
  if bool_decide (kind = AuthorizationKindReconcile) then (kind, None, None)
  else (kind, Some attemptID, Some operationID).

Definition heldOutcome (b : BindingRecord) (c : SettlementReviewHoldCommand) (requestDigest : string)
    (s : ReservationSettlementSnapshot) (existing : option OutcomeRecord) : result OutcomeRecord :=
  let r := c.(hold_Review) in
  guard! bool_decide (s.(ss_Status) = StatusReviewHold) && bool_decide (s.(ss_HoldReviewID) = r.(rv_ReviewID))
         && bool_decide (s.(ss_HoldSettlementKey) = r.(rv_SettlementKey))
         && bool_decide (s.(ss_HoldRequestDigest) = r.(rv_RequestDigest)) else ErrReservationStateDrift;;
  try! timestamp := snapshotTime s in
  let '(kind, attemptID, operationID) := reviewAuthorizationPointers r in
  let o := mkOutcomeRecord (outcomeID r.(rv_SettlementKey)) b.(bd_BindingID) b.(bd_TurnID) b.(bd_ReservationID)
             b.(bd_BindingDigest) r.(rv_SettlementKey) requestDigest kind attemptID r.(rv_FencingToken) operationID
             r.(rv_TerminalStatus) RequestedIntentReview None b.(bd_ReservedUnits) OutcomeStatusReviewHeld None 0
             s.(ss_StateVersion) (Some r.(rv_ReviewID)) (Some r.(rv_RequestDigest)) None None ""
             (match existing with Some e => e.(oc_CreatedAt) | None => timestamp end) timestamp in
  let o := with_outcome_digest o (outcomeRecordDigest o) in
  check! OutcomeRecord_Validate o;; Ok o.

Definition resolvedReviewOutcome (b : BindingRecord) (o : OutcomeRecord)
    (c : SettlementReviewResolutionAuthorityCommand) (s : ReservationSettlementSnapshot) : result OutcomeRecord :=
  outcomeFromSnapshot b
    (outcome_with o (Some c.(rac_UsedUnits)) o.(oc_Status) o.(oc_RefundTarget) o.(oc_RefundDue)
       o.(oc_ReservationStateVersion) (Some c.(rac_ResolutionID)) (Some c.(rac_DecisionDigest)) o.(oc_OutcomeDigest)
       o.(oc_CreatedAt) o.(oc_UpdatedAt)) s.

Definition ordinaryOutcomeMatches (o : OutcomeRecord) (b : BindingRecord) (c : SettlementCommand)
    (requestDigest : string) : bool :=
  bool_decide (o.(oc_BindingID) = b.(bd_BindingID)) && bool_decide (o.(oc_BindingDigest) = b.(bd_BindingDigest))
  && (o.(oc_ReservationID) =? b.(bd_ReservationID)) && bool_decide (o.(oc_SettlementKey) = c.(sc_SettlementKey))
  && bool_decide (o.(oc_LedgerRequestDigest) = requestDigest)
  && bool_decide (o.(oc_TerminalStatus) = c.(sc_TerminalStatus))
  && bool_decide (o.(oc_AuthorizationKind) = c.(sc_AuthorizationKind))
  && bool_decide (optionalString o.(oc_AttemptID) = c.(sc_AttemptID)) && (o.(oc_FencingToken) =? c.(sc_FencingToken))
  && bool_decide (optionalString o.(oc_OperationID) = c.(sc_OperationID))
  && bool_decide (o.(oc_RequestedIntent) = requested_intent c)
  && negb (is_set o.(oc_ReviewID)) && negb (is_set o.(oc_ResolutionID)).

Definition reviewOutcomeMatches (o : OutcomeRecord) (b : BindingRecord) (c : SettlementReviewHoldCommand)
    (requestDigest : string) : bool :=
  let r := c.(hold_Review) in
  let '(kind, attemptID, operationID) := reviewAuthorization r in
  bool_decide (o.(oc_BindingID) = b.(bd_BindingID)) && bool_decide (o.(oc_BindingDigest) = b.(bd_BindingDigest))
  && (o.(oc_ReservationID) =? b.(bd_ReservationID)) && bool_decide (o.(oc_SettlementKey) = r.(rv_SettlementKey))
  && bool_decide (o.(oc_LedgerRequestDigest) = requestDigest)
  && bool_decide (o.(oc_TerminalStatus) = r.(rv_TerminalStatus)) && bool_decide (o.(oc_AuthorizationKind) = kind)
  && bool_decide (optionalString o.(oc_AttemptID) = attemptID) && (o.(oc_FencingToken) =? r.(rv_FencingToken))
  && bool_decide (optionalString o.(oc_OperationID) = operationID)
  && bool_decide (o.(oc_RequestedIntent) = RequestedIntentReview)
  && text_is o.(oc_ReviewID) r.(rv_ReviewID) && text_is o.(oc_ReviewRequestDigest) r.(rv_RequestDigest).

Definition verifyOutcomeSnapshot (o : OutcomeRecord) (b : BindingRecord) (s : ReservationSettlementSnapshot)
    : validation :=
  if bool_decide (o.(oc_Status) = OutcomeStatusReviewHeld) then
    first_error
      [ snapshotMatchesBinding b s;
        when (negb (bool_decide (s.(ss_Status) = StatusReviewHold) && text_is o.(oc_ReviewID) s.(ss_HoldReviewID)
                    && bool_decide (s.(ss_HoldSettlementKey) = o.(oc_SettlementKey))
                    && text_is o.(oc_ReviewRequestDigest) s.(ss_HoldRequestDigest)
                    && holds_at s.(ss_ReviewHeldAt) (λ held, holds_at s.(ss_StateChangedAt) (λ changed,
                         (held =? changed) && (changed =? o.(oc_UpdatedAt))))
                    && (s.(ss_StateVersion) =? o.(oc_ReservationStateVersion)))) ErrReservationStateDrift ]
  else
    match outcomeFromSnapshot b o s with
    | Err e => Some e
    | Ok want =>
      first_error
        [ when (negb (bool_decide (want.(oc_Status) = o.(oc_Status))
                      && bool_decide (optionalInt64 want.(oc_UsedUnits) = optionalInt64 o.(oc_UsedUnits))
                      && bool_decide (optionalString want.(oc_RefundTarget) = optionalString o.(oc_RefundTarget))
                      && (want.(oc_RefundDue) =? o.(oc_RefundDue))
                      && (want.(oc_ReservationStateVersion) =? o.(oc_ReservationStateVersion))
                      && bool_decide (want.(oc_OutcomeDigest) = o.(oc_OutcomeDigest))
                      && holds_at s.(ss_StateChangedAt) (λ changed, changed =? o.(oc_UpdatedAt))))
            ErrReservationStateDrift;
          if bool_decide (s.(ss_Status) = StatusFinalized) then
            when (is_set s.(ss_ReleasedAt) || negb (holds_at s.(ss_FinalizedAt) (λ t,
                    holds_at s.(ss_StateChangedAt) (λ changed, t =? changed)))) ErrReservationStateDrift
          else if bool_decide (s.(ss_Status) = StatusReleased) then
            when (is_set s.(ss_FinalizedAt) || negb (holds_at s.(ss_ReleasedAt) (λ t,
                    holds_at s.(ss_StateChangedAt) (λ changed, t =? changed)))) ErrReservationStateDrift
          else if bool_decide (s.(ss_Status) = StatusRefundPending) then
            when (is_set s.(ss_FinalizedAt) || is_set s.(ss_ReleasedAt)) ErrReservationStateDrift
          else None ]
    end.

(** ** Rows *)

Section Authority.
Context (env : billing_env).

(** [Take] of a row by a predicate; a row that does not validate is an error. *)
Definition lockBindingByTurn (st : BillingState) (turnID : TurnID) : result (option BindingRecord) :=
  check! env.(be_fault) BsLockBinding;;
  match first_row (λ r, bool_decide (r.(row_record).(bd_TurnID) = turnID)) st.(bl_bindings) with
  | None => Ok None
  | Some row => check! BindingRecord_Validate row.(row_record);; Ok (Some row.(row_record))
  end.

Definition lockOutcomeByTurn (st : BillingState) (turnID : TurnID) : result (option OutcomeRecord) :=
  check! env.(be_fault) BsLockOutcome;;
  match first_row (λ r, bool_decide (r.(row_record).(oc_TurnID) = turnID)) st.(bl_outcomes) with
  | None => Ok None
  | Some row => check! OutcomeRecord_Validate row.(row_record);; Ok (Some row.(row_record))
  end.

Definition lockExactBinding (st : BillingState) (turnID : TurnID) (principalID : PrincipalID) : result BindingRecord :=
  try! binding := lockBindingByTurn st turnID in
  match binding with
  | None => Err ErrBindingNotFound
  | Some b => guard! bool_decide (b.(bd_PrincipalID) = principalID) else ErrBindingConflict;; Ok b
  end.

(** The columns of the Turn row the authority reads. *)
Definition lockTurnOwner (k : Database) (turnID : TurnID) : result sqlTurnRow :=
  check! env.(be_fault) BsLockTurn;;
  match select_one (turn_is turnID) k.(db_turns) with
  | None => Err ErrBindingNotFound
  | Some row => Ok row
  end.

Definition validReview (r : SettlementReviewRecord) : result SettlementReviewRecord :=
  check! SettlementReviewRecord_Validate r as ErrOutcomeConflict;; Ok r.

Definition verifyReviewOwner (k : Database) (review : SettlementReviewRecord) (status : string) : result unit :=
  check! env.(be_fault) BsLockReview;;
  try! row := found (first_row (λ r, bool_decide (r.(row_record).(rv_ReviewID) = review.(rv_ReviewID)))
                       k.(db_settlement).(st_reviews)) in
  try! owner := validReview row.(row_record) in
  guard! bool_decide (owner.(rv_ReviewID) = review.(rv_ReviewID)) && bool_decide (owner.(rv_TurnID) = review.(rv_TurnID))
         && bool_decide (owner.(rv_SettlementKey) = review.(rv_SettlementKey))
         && bool_decide (owner.(rv_RequestDigest) = review.(rv_RequestDigest))
         && bool_decide (owner.(rv_Status) = status) else ErrOutcomeConflict;;
  Ok tt.

Definition lockReviewOwnerByTurn (k : Database) (turnID : TurnID) : result (option SettlementReviewRecord) :=
  check! env.(be_fault) BsLockReview;;
  match first_row (λ r, bool_decide (r.(row_record).(rv_TurnID) = turnID)) k.(db_settlement).(st_reviews) with
  | None => Ok None
  | Some row => try! review := validReview row.(row_record) in Ok (Some review)
  end.

Definition verifyOutcomeReviewOwner (review : option SettlementReviewRecord) (o : OutcomeRecord) : validation :=
  if negb (bool_decide (o.(oc_RequestedIntent) = RequestedIntentReview)) then
    when (is_set review || review_tuple o || resolution_tuple o) ErrOutcomeConflict
  else
    match review with
    | None => Some ErrOutcomeConflict
    | Some row =>
      first_error
        [ when (negb (text_is o.(oc_ReviewID) row.(rv_ReviewID) && bool_decide (row.(rv_TurnID) = o.(oc_TurnID))
                      && bool_decide (row.(rv_SettlementKey) = o.(oc_SettlementKey))
                      && text_is o.(oc_ReviewRequestDigest) row.(rv_RequestDigest)
                      && bool_decide (row.(rv_TerminalStatus) = o.(oc_TerminalStatus))
                      && (row.(rv_FencingToken) =? o.(oc_FencingToken)))) ErrOutcomeConflict;
          if bool_decide (o.(oc_AuthorizationKind) = AuthorizationKindOperation) then
            when (bool_decide (row.(rv_AttemptID) = "") || bool_decide (row.(rv_OperationID) = "")
                  || negb (text_is o.(oc_AttemptID) row.(rv_AttemptID) && text_is o.(oc_OperationID) row.(rv_OperationID)))
              ErrOutcomeConflict
          else if bool_decide (o.(oc_AuthorizationKind) = AuthorizationKindReconcile) then
            when (negb (bool_decide (row.(rv_AttemptID) = "")) || negb (bool_decide (row.(rv_OperationID) = ""))
                  || is_set o.(oc_AttemptID) || is_set o.(oc_OperationID)) ErrOutcomeConflict
          else Some ErrOutcomeConflict;
          if bool_decide (o.(oc_Status) = OutcomeStatusReviewHeld) then
            when (negb (bool_decide (row.(rv_Status) = SettlementReviewStatusPending)
                        || bool_decide (row.(rv_Status) = SettlementReviewStatusMeteredHeld))) ErrOutcomeConflict
          else if bool_decide (o.(oc_Status) = OutcomeStatusRefundPending)
                  || bool_decide (o.(oc_Status) = OutcomeStatusFinalized) then
            when (negb (bool_decide (row.(rv_Status) = SettlementReviewStatusFinalizedHeld))) ErrOutcomeConflict
          else Some ErrOutcomeConflict ]
    end.

Definition verifyResolutionProjection (b : BindingRecord) (o : OutcomeRecord) (r : SettlementReviewResolutionRecord)
    : validation :=
  when (negb (text_is o.(oc_ResolutionID) r.(rs_ResolutionID) && text_is o.(oc_ReviewID) r.(rs_ReviewID)
              && bool_decide (r.(rs_TurnID) = o.(oc_TurnID))
              && bool_decide (r.(rs_SettlementKey) = o.(oc_SettlementKey))
              && text_is o.(oc_ReviewRequestDigest) r.(rs_ReviewRequestDigest)
              && text_is o.(oc_ResolutionRequestDigest) r.(rs_DecisionDigest)
              && holds_at o.(oc_UsedUnits) (λ used, r.(rs_UsedUnits) =? used)
              && (r.(rs_ReservedUnits) =? o.(oc_ReservedUnits)) && (r.(rs_ReservedUnits) =? b.(bd_ReservedUnits))
              && bool_decide (r.(rs_PricingSnapshotDigest) = b.(bd_PricingSnapshotDigest))
              && bool_decide (r.(rs_AuthorityReceiptDigest) = resolutionAuthorityReceiptDigestFromRecord b r)))
    ErrOutcomeConflict.

Definition verifyOutcomeResolutionOwner (k : Database) (b : BindingRecord) (review : option SettlementReviewRecord)
    (o : OutcomeRecord) : validation :=
  if negb (resolution_tuple o) then
    match o.(oc_ReviewID) with
    | None => None
    | Some reviewID =>
      match env.(be_fault) BsLockResolution with
      | Some e => Some e
      | None => when (existsb (λ r, bool_decide (r.(row_record).(rs_ReviewID) = reviewID)) k.(db_settlement).(st_resolutions))
                  ErrOutcomeConflict
      end
    end
  else
    match o.(oc_ResolutionID), o.(oc_ResolutionRequestDigest), o.(oc_ReviewID), o.(oc_ReviewRequestDigest), o.(oc_UsedUnits) with
    | Some resolutionID, Some _, Some _, Some _, Some _ =>
      match env.(be_fault) BsLockResolution with
      | Some e => Some e
      | None =>
        match first_row (λ r, bool_decide (r.(row_record).(rs_ResolutionID) = resolutionID)) k.(db_settlement).(st_resolutions), review with
        | Some row, Some review =>
          let r := row.(row_record) in
          first_error
            [ match SettlementReviewResolutionRecord_Validate r with Some _ => Some ErrOutcomeConflict | None => None end;
              when (negb (bool_decide (review.(rv_ReviewID) = r.(rs_ReviewID)) && bool_decide (review.(rv_TurnID) = r.(rs_TurnID))
                          && bool_decide (review.(rv_SettlementKey) = r.(rs_SettlementKey))
                          && bool_decide (review.(rv_RequestDigest) = r.(rs_ReviewRequestDigest))
                          && (r.(rs_CreatedAt) =? review.(rv_UpdatedAt)))) ErrOutcomeConflict;
              verifyResolutionProjection b o r ]
        | _, _ => Some ErrOutcomeConflict
        end
      end
    | _, _, _, _, _ => Some ErrOutcomeConflict
    end.

(** ** Writing an outcome *)

(** The unique keys of w_agent_turn_settlement_outcome. *)
Definition outcome_key_taken (o e : OutcomeRecord) : bool :=
  bool_decide (e.(oc_OutcomeID) = o.(oc_OutcomeID)) || bool_decide (e.(oc_SettlementKey) = o.(oc_SettlementKey))
  || bool_decide (e.(oc_TurnID) = o.(oc_TurnID)) || (e.(oc_ReservationID) =? o.(oc_ReservationID))
  || (is_set o.(oc_ReviewID) && bool_decide (e.(oc_ReviewID) = o.(oc_ReviewID))).

(** The columns the UPDATE sets. *)
Definition update_outcome (next o : OutcomeRecord) : OutcomeRecord :=
  outcome_with o next.(oc_UsedUnits) next.(oc_Status) next.(oc_RefundTarget) next.(oc_RefundDue)
    next.(oc_ReservationStateVersion) next.(oc_ResolutionID) next.(oc_ResolutionRequestDigest) next.(oc_OutcomeDigest)
    o.(oc_CreatedAt) next.(oc_UpdatedAt).

Definition persistOutcome (st : BillingState) (next : OutcomeRecord) (previous : option OutcomeRecord)
    : result BillingState :=
  check! OutcomeRecord_Validate next;;
  match previous with
  | None =>
    check! env.(be_fault) BsInsertOutcome;;
    guard! negb (existsb (λ r, outcome_key_taken next r.(row_record)) st.(bl_outcomes))
      else ErrText "duplicate entry for w_agent_turn_settlement_outcome";;
    Ok (with_outcomes st (st.(bl_outcomes) ++ [mkStored (fresh_row_id (map row_ID st.(bl_outcomes))) next]))
  | Some p =>
    if bool_decide (next.(oc_OutcomeID) = p.(oc_OutcomeID)) && bool_decide (next.(oc_OutcomeDigest) = p.(oc_OutcomeDigest))
    then Ok st
    else
      check! env.(be_fault) BsUpdateOutcome;;
      let matches r := bool_decide (r.(row_record).(oc_OutcomeID) = p.(oc_OutcomeID))
                       && bool_decide (r.(row_record).(oc_OutcomeDigest) = p.(oc_OutcomeDigest)) in
      guard! affected matches st.(bl_outcomes) =? 1 else ErrOutcomeConflict;;
      Ok (with_outcomes st (update_where matches (λ r, mkStored r.(row_ID) (update_outcome next r.(row_record)))
                              st.(bl_outcomes)))
  end.

(** What an operation writes at its end: the state with the reservation moved,
    the next outcome and the one it replaces. *)
Record outcome_plan := mkOutcomePlan {
  op_state : BillingState;
  op_next : OutcomeRecord;
  op_previous : option OutcomeRecord }.

Definition persist_plan (p : outcome_plan) : result BillingState :=
  persistOutcome p.(op_state) p.(op_next) p.(op_previous).

(** A [...WithResult] call of the reservation service, on the billing state. *)
Definition on_ledger {A} (st : BillingState) (r : result (A * Ledger)) : result (A * BillingState) :=
  try! (a, db) := r in Ok (a, with_ledger st db).

(** ** Admission *)

Definition verifyBindingReservation (st : BillingState) (b : BindingRecord) (requireActive : bool) : result unit :=
  try! snapshot := LockSettlementSnapshot (env.(be_call) 1) st.(bl_ledger) b.(bd_ReservationID) in
  check! snapshotMatchesBinding b snapshot;;
  guard! negb (requireActive && negb (bool_decide (snapshot.(ss_Status) = StatusReserved))) else ErrReservationIneligible;;
  Ok tt.

Definition ReserveAndBindTurn (authority : reservationAdmissionAuthority) (st : BillingState) (turn : Turn)
    : result BillingState :=
  let spec := authority.(aa_spec) in
  guard! bool_decide (turn.(turn_PrincipalID) = spec.(ra_PrincipalID))
         && bool_decide (turn.(turn_Status) = TurnStatusQueued) else ErrBindingConflict;;
  try! bound := lockBindingByTurn st turn.(turn_ID) in
  guard! negb (is_set bound) else ErrBindingConflict;;
  try! (result, st) := on_ledger st (Reserve (env.(be_call) 0) st.(bl_ledger) spec.(ra_Reservation)) in
  guard! result.(rr_Created) else ErrBindingConflict;;
  let r := result.(rr_Reservation) in
  guard! bool_decide (r.(cr_RequestDigest) = authority.(aa_reservationRequestDigest)) else ErrBindingConflict;;
  let record := mkBindingRecord (bindingID turn.(turn_ID)) turn.(turn_ID) turn.(turn_PrincipalID)
                  turn.(turn_CommandDigest) r.(cr_Id) r.(cr_UID) r.(cr_RequestDigest) r.(cr_Tool) r.(cr_Reserved)
                  r.(cr_ProjectID) spec.(ra_PricingSnapshotDigest) "" r.(cr_CreatedAt) in
  let record := mkBindingRecord record.(bd_BindingID) record.(bd_TurnID) record.(bd_PrincipalID)
                  record.(bd_TurnCommandDigest) record.(bd_ReservationID) record.(bd_ReservationUID)
                  record.(bd_ReservationRequestDigest) record.(bd_ReservationTool) record.(bd_ReservedUnits)
                  record.(bd_ProjectID) record.(bd_PricingSnapshotDigest) (bindingRecordDigest record)
                  record.(bd_CreatedAt) in
  check! BindingRecord_Validate record;;
  check! env.(be_fault) BsInsertBinding;;
  guard! negb (existsb (λ e, bool_decide (e.(row_record).(bd_BindingID) = record.(bd_BindingID))
                             || bool_decide (e.(row_record).(bd_TurnID) = record.(bd_TurnID))
                             || (e.(row_record).(bd_ReservationID) =? record.(bd_ReservationID))) st.(bl_bindings))
    else ErrText "duplicate entry for w_agent_turn_reservation_binding";;
  let st := insert_binding st record in
  try! _ := verifyBindingReservation st record false in
  Ok st.

Definition VerifyTurnBinding (authority : reservationAdmissionAuthority) (st : BillingState) (turn : Turn) : result unit :=
  let spec := authority.(aa_spec) in
  guard! bool_decide (turn.(turn_PrincipalID) = spec.(ra_PrincipalID)) else ErrBindingConflict;;
  try! binding := lockBindingByTurn st turn.(turn_ID) in
  match binding with
  | None => Err ErrBindingNotFound
  | Some b =>
    guard! bool_decide (b.(bd_PrincipalID) = turn.(turn_PrincipalID))
           && bool_decide (b.(bd_TurnCommandDigest) = turn.(turn_CommandDigest))
           && (b.(bd_ReservationUID) =? spec.(ra_Reservation).(rq_UID))
           && bool_decide (b.(bd_ReservationRequestDigest) = authority.(aa_reservationRequestDigest))
           && bool_decide (b.(bd_ReservationTool) = spec.(ra_Reservation).(rq_Tool))
           && (b.(bd_ReservedUnits) =? spec.(ra_Reservation).(rq_Reserved))
           && (b.(bd_ProjectID) =? spec.(ra_Reservation).(rq_ProjectID))
           && bool_decide (b.(bd_PricingSnapshotDigest) = spec.(ra_PricingSnapshotDigest)) else ErrBindingConflict;;
    verifyBindingReservation st b false
  end.

(** ** Settlement *)

Definition snapshot_call (i : nat) (st : BillingState) (b : BindingRecord) : result ReservationSettlementSnapshot :=
  LockSettlementSnapshot (env.(be_call) i) st.(bl_ledger) b.(bd_ReservationID).

(** The call of the reservation service an ordinary settlement makes. *)
Definition settle_call (st : BillingState) (b : BindingRecord) (c : SettlementCommand) (used : Z)
    : result (ReservationSettlementSnapshot * BillingState) :=
  if bool_decide (c.(sc_Intent) = SettlementIntentFinalize)
  then on_ledger st (FinalizeAfterTurnAuthorizationWithResult (env.(be_call) 1) st.(bl_ledger) b.(bd_ReservationID) used)
  else if bool_decide (c.(sc_Intent) = SettlementIntentRelease)
  then on_ledger st (ReleaseWithResult (env.(be_call) 1) st.(bl_ledger) b.(bd_ReservationID))
  else Err ErrOutcomeConflict.

(** [Settle] up to [persistOutcome]; no plan means that a replay was verified. *)
Definition settle_plan (k : Database) (st : BillingState) (c : SettlementCommand) : result (option outcome_plan) :=
  check! SettlementCommand_Validate c;;
  try! turn := lockTurnOwner k c.(sc_TurnID) in
  guard! bool_decide (turn.(tr_PrincipalID) = c.(sc_PrincipalID)) && bool_decide (turn.(tr_Status) = c.(sc_TerminalStatus))
    else ErrBindingConflict;;
  try! review := lockReviewOwnerByTurn k c.(sc_TurnID) in
  guard! negb (is_set review) else ErrOutcomeConflict;;
  try! b := lockExactBinding st c.(sc_TurnID) c.(sc_PrincipalID) in
  let requestDigest := ordinaryRequestDigest b c in
  try! existing := lockOutcomeByTurn st c.(sc_TurnID) in
  guard! match existing with Some e => ordinaryOutcomeMatches e b c requestDigest | None => true end
    else ErrOutcomeConflict;;
  if holds_at existing (λ e, negb (bool_decide (e.(oc_Status) = OutcomeStatusRefundPending))) then
    match existing with
    | None => Err ErrOutcomeConflict
    | Some e =>
      try! snapshot := snapshot_call 0 st b in
      check! verifyOutcomeSnapshot e b snapshot;; Ok None
    end
  else
    try! before := snapshot_call 0 st b in
    check! snapshotMatchesBinding b before;;
    guard! is_set existing || bool_decide (before.(ss_Status) = StatusReserved) else ErrReservationStateDrift;;
    try! used := settlementUnits c in
    try! (snapshot, st) := settle_call st b c used in
    try! outcome := ordinaryOutcome b c requestDigest snapshot existing in
    Ok (Some (mkOutcomePlan st outcome existing)).

Definition Settle (k : Database) (st : BillingState) (c : SettlementCommand) : result BillingState :=
  try! plan := settle_plan k st c in
  match plan with None => Ok st | Some p => persist_plan p end.

Definition error_of {A} (r : result A) : validation := match r with Ok _ => None | Err e => Some e end.

(** The checks both execution guards make first. *)
Definition lockSameTurn (k : Database) (turn : Turn) : result sqlTurnRow :=
  try! owner := lockTurnOwner k turn.(turn_ID) in
  guard! bool_decide (owner.(tr_PrincipalID) = turn.(turn_PrincipalID))
         && bool_decide (owner.(tr_CommandDigest) = turn.(turn_CommandDigest))
         && bool_decide (owner.(tr_Status) = turn.(turn_Status)) else ErrBindingConflict;;
  Ok owner.

Definition AuthorizeTurnExecution (k : Database) (st : BillingState) (turn : Turn) : validation :=
  error_of (
    check! Turn_Validate turn as ErrReservationIneligible;;
    guard! negb (TurnStatus_Terminal turn.(turn_Status)) else ErrReservationIneligible;;
    try! _ := lockSameTurn k turn in
    try! b := lockExactBinding st turn.(turn_ID) turn.(turn_PrincipalID) in
    try! snapshot := snapshot_call 0 st b in
    check! snapshotMatchesBinding b snapshot;;
    guard! bool_decide (snapshot.(ss_Status) = StatusReserved) else ErrReservationIneligible;;
    try! now := env.(be_now) in
    guard! After snapshot.(ss_ExpiresAt) now else ErrTurnReservationExecutionExpired;;
    Ok tt).

Definition VerifyExpiredTurnReservation (k : Database) (st : BillingState) (turn : Turn) : validation :=
  error_of (
    check! Turn_Validate turn as ErrReconcilePrecondition;;
    guard! negb (TurnStatus_Terminal turn.(turn_Status)) else ErrReconcilePrecondition;;
    try! _ := lockSameTurn k turn in
    try! review := lockReviewOwnerByTurn k turn.(turn_ID) in
    guard! negb (is_set review) else ErrOutcomeConflict;;
    try! b := lockExactBinding st turn.(turn_ID) turn.(turn_PrincipalID) in
    try! outcome := lockOutcomeByTurn st turn.(turn_ID) in
    guard! negb (is_set outcome) else ErrOutcomeConflict;;
    try! snapshot := snapshot_call 0 st b in
    check! snapshotMatchesBinding b snapshot;;
    guard! bool_decide (snapshot.(ss_Status) = StatusReserved) else ErrReservationIneligible;;
    try! now := env.(be_now) in
    guard! negb (After snapshot.(ss_ExpiresAt) now) else ErrReconcilePrecondition;;
    Ok tt).

(** ** Reviews *)

Definition review_hold (r : SettlementReviewRecord) : ReservationReviewHold :=
  mkReviewHold r.(rv_ReviewID) r.(rv_SettlementKey) r.(rv_RequestDigest).

Definition hold_plan (k : Database) (st : BillingState) (c : SettlementReviewHoldCommand) : result outcome_plan :=
  let r := c.(hold_Review) in
  check! SettlementReviewHoldCommand_Validate c;;
  try! turn := lockTurnOwner k r.(rv_TurnID) in
  guard! bool_decide (turn.(tr_PrincipalID) = c.(hold_PrincipalID)) && bool_decide (turn.(tr_Status) = r.(rv_TerminalStatus))
    else ErrBindingConflict;;
  try! _ := verifyReviewOwner k r SettlementReviewStatusPending in
  try! b := lockExactBinding st r.(rv_TurnID) c.(hold_PrincipalID) in
  let requestDigest := reviewRequestDigest b c in
  try! existing := lockOutcomeByTurn st r.(rv_TurnID) in
  guard! match existing with Some e => reviewOutcomeMatches e b c requestDigest | None => true end
    else ErrOutcomeConflict;;
  try! before := snapshot_call 0 st b in
  check! snapshotMatchesBinding b before;;
  guard! is_set existing || bool_decide (before.(ss_Status) = StatusReserved) else ErrReservationStateDrift;;
  try! (snapshot, st) := on_ledger st (HoldForReviewAfterTurnAuthorizationWithResult (env.(be_call) 1) st.(bl_ledger)
                                         b.(bd_ReservationID) (review_hold r)) in
  try! outcome := heldOutcome b c requestDigest snapshot existing in
  Ok (mkOutcomePlan st outcome existing).

Definition billingHoldForReview (k : Database) (st : BillingState) (c : SettlementReviewHoldCommand) : result BillingState :=
  try! p := hold_plan k st c in persist_plan p.

Definition resolve_plan (k : Database) (st : BillingState) (c : SettlementReviewResolutionAuthorityCommand)
    : result (BindingRecord * outcome_plan) :=
  let r := c.(rac_Review) in
  check! SettlementReviewResolutionAuthorityCommand_Validate c;;
  try! turn := lockTurnOwner k r.(rv_TurnID) in
  guard! bool_decide (turn.(tr_PrincipalID) = c.(rac_PrincipalID)) && bool_decide (turn.(tr_Status) = r.(rv_TerminalStatus))
    else ErrBindingConflict;;
  try! _ := verifyReviewOwner k r SettlementReviewStatusMeteredHeld in
  try! b := lockExactBinding st r.(rv_TurnID) c.(rac_PrincipalID) in
  guard! bool_decide (b.(bd_PricingSnapshotDigest) = c.(rac_PricingSnapshotDigest)) else ErrPricingSnapshotConflict;;
  try! existing := lockOutcomeByTurn st r.(rv_TurnID) in
  let holdCommand := mkSettlementReviewHoldCommand r c.(rac_PrincipalID) in
  match existing with
  | None => Err ErrOutcomeConflict
  | Some outcome =>
    guard! reviewOutcomeMatches outcome b holdCommand (reviewRequestDigest b holdCommand) else ErrOutcomeConflict;;
    guard! negb (is_set outcome.(oc_ResolutionID)
                 && negb (text_is outcome.(oc_ResolutionID) c.(rac_ResolutionID)
                          && text_is outcome.(oc_ResolutionRequestDigest) c.(rac_DecisionDigest))) else ErrOutcomeConflict;;
    try! used := positiveUnits c.(rac_UsedUnits) in
    try! (snapshot, st) := on_ledger st (FinalizeReviewWithResult (env.(be_call) 1) st.(bl_ledger)
                                           b.(bd_ReservationID) (review_hold r) used) in
    try! updated := resolvedReviewOutcome b outcome c snapshot in
    Ok (b, mkOutcomePlan st updated (Some outcome))
  end.

Definition ResolveReview (k : Database) (st : BillingState) (c : SettlementReviewResolutionAuthorityCommand)
    : result (SettlementReviewResolutionAuthorityReceipt * BillingState) :=
  try! (b, p) := resolve_plan k st c in
  try! st := persist_plan p in
  Ok (mkResolutionReceipt c.(rac_ResolutionID) c.(rac_DecisionDigest) c.(rac_Evidence).(ev_EvidenceID)
        c.(rac_Evidence).(ev_EvidenceDigest) c.(rac_PricingSnapshotDigest) c.(rac_UsedUnits) b.(bd_ReservedUnits)
        (resolutionAuthorityReceiptDigest b c), st).

(** ** Recovery *)

(** What both recovery operations prove before they answer. *)
Definition lockOwnedOutcome (k : Database) (st : BillingState) (principalID : PrincipalID) (turnID : TurnID)
    : result (BindingRecord * OutcomeRecord) :=
  check! env.(be_fault) BsTransaction;;
  try! turn := lockTurnOwner k turnID in
  guard! bool_decide (turn.(tr_PrincipalID) = principalID) else ErrBindingNotFound;;
  try! review := lockReviewOwnerByTurn k turnID in
  try! b := lockExactBinding st turnID principalID in
  try! existing := lockOutcomeByTurn st turnID in
  match existing with
  | None => Err ErrOutcomeNotFound
  | Some outcome =>
    check! verifyOutcomeReviewOwner review outcome;;
    check! verifyOutcomeResolutionOwner k b review outcome;;
    Ok (b, outcome)
  end.

Definition GetOutcome (k : Database) (st : BillingState) (principalID : PrincipalID) (turnID : TurnID)
    : result OutcomeRecord :=
  try! (b, outcome) := lockOwnedOutcome k st principalID turnID in
  try! snapshot := snapshot_call 0 st b in
  check! verifyOutcomeSnapshot outcome b snapshot;;
  Ok outcome.

(** The frozen target of a pending outcome, replayed. *)
Definition pending_call (st : BillingState) (b : BindingRecord) (o : OutcomeRecord)
    : result (ReservationSettlementSnapshot * BillingState) :=
  if bool_decide (o.(oc_RequestedIntent) = RequestedIntentFinalize) then
    match o.(oc_UsedUnits) with
    | None => Err ErrOutcomeConflict
    | Some units =>
      try! used := positiveUnits units in
      on_ledger st (FinalizeAfterTurnAuthorizationWithResult (env.(be_call) 1) st.(bl_ledger) b.(bd_ReservationID) used)
    end
  else if bool_decide (o.(oc_RequestedIntent) = RequestedIntentRelease) then
    on_ledger st (ReleaseWithResult (env.(be_call) 1) st.(bl_ledger) b.(bd_ReservationID))
  else if bool_decide (o.(oc_RequestedIntent) = RequestedIntentReview) then
    match o.(oc_UsedUnits), o.(oc_ReviewID), o.(oc_ReviewRequestDigest) with
    | Some units, Some reviewID, Some requestDigest =>
      try! used := positiveUnits units in
      on_ledger st (FinalizeReviewWithResult (env.(be_call) 1) st.(bl_ledger) b.(bd_ReservationID)
                      (mkReviewHold reviewID o.(oc_SettlementKey) requestDigest) used)
    | _, _, _ => Err ErrOutcomeConflict
    end
  else Err ErrOutcomeConflict.

(** [ReconcilePending] up to [persistOutcome]; without a plan the outcome is not
    pending and was verified. *)
Definition pending_plan (k : Database) (st : BillingState) (principalID : PrincipalID) (turnID : TurnID)
    : result (OutcomeRecord * option outcome_plan) :=
  try! (b, outcome) := lockOwnedOutcome k st principalID turnID in
  if negb (bool_decide (outcome.(oc_Status) = OutcomeStatusRefundPending)) then
    try! snapshot := snapshot_call 0 st b in
    check! verifyOutcomeSnapshot outcome b snapshot;;
    Ok (outcome, None)
  else
    try! (snapshot, st) := pending_call st b outcome in
    try! updated := outcomeFromSnapshot b outcome snapshot in
    Ok (updated, Some (mkOutcomePlan st updated (Some outcome))).

Definition ReconcilePending (k : Database) (st : BillingState) (principalID : PrincipalID) (turnID : TurnID)
    : result (OutcomeRecord * BillingState) :=
  try! (outcome, plan) := pending_plan k st principalID turnID in
  match plan with
  | None => Ok (outcome, st)
  | Some p => try! st := persist_plan p in Ok (outcome, st)
  end.
End Authority.
