(* ===== verification/BillingFacts.v ===== *)
(** * Agent billing: the projection invariant

    [mirrors] says that an outcome shows its reservation; [billing_ok] that every
    outcome of the state mirrors the reservation its Turn is bound to, and that a
    bound reservation without an outcome is still reserved. *)

From Stdlib Require Import Ascii.
From stdpp Require Import sorting.
From S2P Require Import Prelude GoText GoDigest GoTime AgentContract TurnTypes ExecutionTypes Settlement ProviderUsage SettlementUsage SqlDatabase SubscriptionCycle CreditTables CreditsPack ProjectBudget CreditReservation CreditChecks CreditPackFacts CreditRefundFacts CreditLedgerFacts CreditOperationFacts CreditReserveFacts CreditRuns BillingTypes AgentBilling.

(** ** Stamps *)

(** The version counts the moves of a row; the time of the last one is kept with
    the outcome it made. *)
Record stamped (r : CreditReservation) : Prop := {
  sp_version : 0 < r.(cr_StateVersion);
  sp_held : r.(cr_Status) = StatusReviewHold → r.(cr_ReviewHeldAt) = r.(cr_StateChangedAt);
  sp_finalized : r.(cr_Status) = StatusFinalized → r.(cr_FinalizedAt) = r.(cr_StateChangedAt);
  sp_released : r.(cr_Status) = StatusReleased → r.(cr_ReleasedAt) = r.(cr_StateChangedAt) }.

Lemma row_move_version r r' : row_move r r' → r'.(cr_StateVersion) = r.(cr_StateVersion) + 1.
Proof. by destruct 1. Qed.

Lemma row_moves_version r r' :
  rtc row_move r r' → r.(cr_StateVersion) ≤ r'.(cr_StateVersion) ∧ (r'.(cr_StateVersion) = r.(cr_StateVersion) → r' = r).
Proof.
  induction 1 as [|r r1 r2 Hm _ [IH1 IH2]]; [split; [lia|done]|]. apply row_move_version in Hm.
  split; [lia|]. intros. lia.
Qed.

Lemma row_move_stamped r r' : reservation_ok r → stamped r → row_move r r' → stamped r'.
Proof.
  intros Hok [Hv Hh Hf Hr] Hm. pose proof (row_move_version r r' Hm) as Hver.
  split; [lia| | |]; destruct Hm as [hold now Hst|now Hst|target used now Ho Hk|code now Hst|used now Hst Hu|status now Ho Hk];
    simpl; intros He; try done; try congruence; try (rewrite He in *; done).
  - destruct (row_state_pending r (ro_state r Hok) Hst) as (u & _ & _ & Hk & _). rewrite He in Hk. done.
Qed.

Lemma row_moves_stamped r r' : reservation_ok r → stamped r → rtc row_move r r' → stamped r'.
Proof. intros Hok Hs H. induction H; eauto using row_move_ok, row_move_stamped. Qed.

Lemma new_reservation_stamped id now req digest : stamped (new_reservation id now req digest).
Proof. split; simpl; intros; [lia|done|done|done]. Qed.

(** Where the rows of a later ledger come from. *)
Definition rows_from (db db' : Ledger) : Prop :=
  ∀ r', r' ∈ db'.(lg_reservations) → (∃ r, r ∈ db.(lg_reservations) ∧ rtc row_move r r') ∨ stamped r'.

Lemma rows_from_refl db db' : db'.(lg_reservations) = db.(lg_reservations) → rows_from db db'.
Proof. intros H r. rewrite H. intros Hr. left. exists r. split; [done|apply rtc_refl]. Qed.

Lemma moves_from id db db' : ledger_ok db → rtc (ledger_move id) db db' → rows_from db db'.
Proof.
  intros Hok H. induction H as [|db1 db2 db3 Hm _ IH]; [by apply rows_from_refl|].
  pose proof (ledger_move_ok _ _ _ Hok Hm) as Hok2. intros r' Hr'. destruct (IH Hok2 r' Hr') as [(r2 & Hr2 & Hms)|?]; [|by right].
  left. destruct Hm as [r f Hr _ Hm]. simpl in Hr2. apply elem_update_where in Hr2 as (x & Hx & ->).
  exists x. split; [done|]. unfold reservation_is in Hms. destruct (Z.eqb_spec (cr_Id x) (cr_Id r)) as [He|]; [|done].
  assert (x = r) as -> by (apply (keyed_unique cr_Id (lg_reservations db1)); [apply Hok|done|done|done]).
  by eapply rtc_l.
Qed.

Lemma ledger_step_from db db' : ledger_ok db → ledger_step db db' → rows_from db db'.
Proof.
  intros Hok. destruct 1 as [env req res db' E|env id hold b db' E|env id used hold b db' E|env id hold db' E
    |env c cutoff o db' E|env uid now db' E|env uid st sid credits ex rm db' E|env uid st sid credits ex rm db' E
    |env uid plan grant credits ex rm db' E|env no db' E|env uid cutoff db' E|env id uid cap db' E|db' H].
  - apply Reserve_spec in E as (d & _ & _ & [(_ & -> & _)|(_ & _ & now & dbe & l & _ & _ & Hnew & Er & _ & -> & _)]);
      [by apply rows_from_refl| |done].
    intros r. simpl. rewrite Er. intros [Hr| ->%list_elem_of_singleton]%elem_of_app.
    + left. exists r. split; [done|apply rtc_refl].
    + right. rewrite Hnew. apply new_reservation_stamped.
  - apply hold_moves in E as [? _]; [|done]. by eapply moves_from.
  - apply finalize_settles in E as [_ [? _]]; [|done]. by eapply moves_from.
  - apply release_settles in E as [? _]; [|done]. by eapply moves_from.
  - apply sweep_moves in E as [? _]; [|done]. by eapply moves_from.
  - apply ensure_granted in E. by apply rows_from_refl, granted_reservations.
  - apply CreatePack_granted in E. by apply rows_from_refl, granted_reservations.
  - apply rows_from_refl. unfold AddToPackTx in E. destruct (_ <=? _); [by injection E as <-|].
    destruct (le_fault _ _); [done|]. by destruct (existsb _ _); injection E as <-.
  - apply createSubscriptionCyclePack_granted in E. by apply rows_from_refl, granted_reservations.
  - apply rows_from_refl. unfold RevokeOrderCreditsTx in E. destruct (bool_decide _); [by injection E as <-|].
    destruct (le_fault _ _); [done|]. by injection E as <-.
  - apply rows_from_refl. unfold ClipSubscriptionCreditsTx in E. destruct (le_fault _ _); [done|]. by injection E as <-.
  - apply cap_outside in E. by apply rows_from_refl, E.
  - by apply rows_from_refl, H.
Qed.

Definition all_stamped (db : Ledger) : Prop := ∀ r, r ∈ db.(lg_reservations) → stamped r.

Lemma stamped_from db db' : ledger_ok db → all_stamped db → rows_from db db' → all_stamped db'.
Proof.
  intros Hok Hs Hf r' Hr'. destruct (Hf r' Hr') as [(r & Hr & Hm)|?]; [|done].
  apply (row_moves_stamped r); [by apply (lo_rows db Hok)|by apply Hs|done].
Qed.

(** ** Binding and outcome of a row *)

Definition binds (b : BindingRecord) (r : CreditReservation) : Prop :=
  snapshotMatchesBinding b (reservationSettlementSnapshot r) = None.

Lemma binds_columns b r :
  binds b r ↔ r.(cr_Id) ≠ 0 ∧ r.(cr_Id) = b.(bd_ReservationID) ∧ r.(cr_UID) = b.(bd_ReservationUID)
    ∧ r.(cr_RequestDigest) = b.(bd_ReservationRequestDigest) ∧ r.(cr_Tool) = b.(bd_ReservationTool)
    ∧ r.(cr_Reserved) = b.(bd_ReservedUnits) ∧ r.(cr_ProjectID) = b.(bd_ProjectID) ∧ r.(cr_StateVersion) ≠ 0.
Proof.
  unfold binds, snapshotMatchesBinding. rewrite when_None, !orb_false_iff, !negb_false_iff, !Z.eqb_eq, !Z.eqb_neq,
    !bool_decide_eq_true. simpl. tauto.
Qed.

Lemma binds_moved b r r' : binds b r → rtc row_move r r' → 0 < r.(cr_StateVersion) → binds b r'.
Proof.
  rewrite !binds_columns. intros (H0 & H1 & H2 & H3 & H4 & H5 & H6 & H7) Hm Hv.
  pose proof (row_moves_version r r' Hm) as [Hv' _]. apply row_moves_request in Hm.
  injection Hm as E1 _ E2 E3 _ E4 _ E5 _ E6. split_and!; try congruence. lia.
Qed.

Definition outcome_of (o : OutcomeRecord) (b : BindingRecord) : Prop :=
  o.(oc_BindingID) = b.(bd_BindingID) ∧ o.(oc_TurnID) = b.(bd_TurnID) ∧ o.(oc_ReservationID) = b.(bd_ReservationID)
  ∧ o.(oc_BindingDigest) = b.(bd_BindingDigest) ∧ o.(oc_ReservedUnits) = b.(bd_ReservedUnits).

Inductive projects (o : OutcomeRecord) (r : CreditReservation) : Prop :=
| pj_held : o.(oc_Status) = OutcomeStatusReviewHeld → r.(cr_Status) = StatusReviewHold →
    o.(oc_ReviewID) = Some r.(cr_HoldReviewID) → o.(oc_SettlementKey) = r.(cr_HoldSettlementKey) →
    o.(oc_ReviewRequestDigest) = Some r.(cr_HoldRequestDigest) → o.(oc_UsedUnits) = None → projects o r
| pj_pending used : o.(oc_Status) = OutcomeStatusRefundPending → r.(cr_Status) = StatusRefundPending →
    o.(oc_UsedUnits) = Some used → r.(cr_RefundTargetUsed) = Some used →
    o.(oc_RefundTarget) = Some r.(cr_RefundTargetStatus) → o.(oc_RefundDue) = r.(cr_RefundDue) →
    (r.(cr_RefundTargetStatus) = StatusFinalized ∨ (r.(cr_RefundTargetStatus) = StatusReleased ∧ used = 0)) → projects o r
| pj_finalized : o.(oc_Status) = OutcomeStatusFinalized → r.(cr_Status) = StatusFinalized →
    o.(oc_UsedUnits) = Some r.(cr_Used) → o.(oc_RefundTarget) = None → o.(oc_RefundDue) = 0 → projects o r
| pj_released : o.(oc_Status) = OutcomeStatusReleased → r.(cr_Status) = StatusReleased →
    o.(oc_UsedUnits) = Some 0 → r.(cr_Used) = 0 → o.(oc_RefundTarget) = None → o.(oc_RefundDue) = 0 → projects o r.

(** The outcome shows the row as its last move left it. *)
Record mirrors (o : OutcomeRecord) (r : CreditReservation) : Prop := {
  mr_version : o.(oc_ReservationStateVersion) = r.(cr_StateVersion);
  mr_changed : r.(cr_StateChangedAt) = Some o.(oc_UpdatedAt);
  mr_time : IsZero o.(oc_UpdatedAt) = false;
  mr_status : projects o r }.

(** The columns of an outcome that no operation changes once it is written. *)
Definition outcome_identity (o : OutcomeRecord) :=
  (o.(oc_OutcomeID), o.(oc_BindingID), o.(oc_TurnID), o.(oc_ReservationID), o.(oc_BindingDigest), o.(oc_SettlementKey),
   o.(oc_LedgerRequestDigest), o.(oc_AuthorizationKind), o.(oc_AttemptID), o.(oc_FencingToken), o.(oc_OperationID),
   o.(oc_TerminalStatus), o.(oc_RequestedIntent), o.(oc_ReservedUnits), o.(oc_ReviewID), o.(oc_ReviewRequestDigest)).

Lemma update_outcome_same next prev :
  outcome_identity next = outcome_identity prev → next.(oc_CreatedAt) = prev.(oc_CreatedAt) → update_outcome next prev = next.
Proof.
  unfold outcome_identity. intros H Hc. injection H. intros. destruct next, prev. unfold update_outcome, outcome_with.
  simpl in *. by subst.
Qed.

(** What [outcomeFromSnapshot] makes of a row. *)
Lemma outcomeFromSnapshot_Ok b o r next :
  outcomeFromSnapshot b o (reservationSettlementSnapshot r) = Ok next →
  binds b r ∧ OutcomeRecord_Validate next = None ∧ mirrors next r ∧ outcome_identity next = outcome_identity o
  ∧ next.(oc_UsedUnits) = o.(oc_UsedUnits) ∧ next.(oc_ResolutionID) = o.(oc_ResolutionID)
  ∧ next.(oc_ResolutionRequestDigest) = o.(oc_ResolutionRequestDigest)
  ∧ (IsZero o.(oc_CreatedAt) = false → next.(oc_CreatedAt) = o.(oc_CreatedAt))
  ∧ next.(oc_OutcomeDigest) = outcomeRecordDigest next.
Proof.
  unfold outcomeFromSnapshot. intros E. destruct (snapshotMatchesBinding _ _) eqn:Hb; [done|]. split; [done|].
  destruct (oc_UsedUnits o) as [used|] eqn:Hu; [|done].
  destruct (snapshot_outcome _ used) as [[[status target] due]|] eqn:Hs; [|done].
  destruct (snapshotTime _) as [t|] eqn:Ht; [|done]. cbv zeta in E.
  destruct (OutcomeRecord_Validate _) eqn:Hv; [done|]. injection E as <-. split; [done|].
  assert (Htime : cr_StateChangedAt r = Some t ∧ IsZero t = false).
  { unfold snapshotTime in Ht. simpl in Ht. destruct (cr_StateChangedAt r) as [x|]; [|done].
    destruct (IsZero x) eqn:Hz; [done|]. injection Ht as <-. done. }
  destruct Htime as [Hch Hz]. split_and!; try done.
  - split; try done. unfold snapshot_outcome in Hs. simpl in Hs.
    destruct (bool_decide (cr_Status r = StatusFinalized)) eqn:H1.
    { destruct (cr_Used r =? used) eqn:H2; [|done]. injection Hs as <- <- <-. bool_hyps. by apply pj_finalized; simpl; [| |congruence|..]. }
    destruct (bool_decide (cr_Status r = StatusReleased)) eqn:H2.
    { destruct ((used =? 0) && (cr_Used r =? 0)) eqn:H3; [|done]. injection Hs as <- <- <-. bool_hyps. subst used.
      by apply pj_released. }
    destruct (bool_decide (cr_Status r = StatusRefundPending)) eqn:H3; [|done].
    destruct (bool_decide (cr_RefundTargetUsed r = Some used) && _ && _) eqn:H4; [|done]. injection Hs as <- <- <-.
    apply andb_true_iff in H4 as [[H4 H5]%andb_true_iff H6]. apply bool_decide_eq_true in H3, H4.
    apply (pj_pending _ _ used); try done. apply orb_true_iff in H5 as [H5|H5]; bool_hyps; [by left|right].
    split; [done|]. apply orb_true_iff in H6 as [H6|H6]; bool_hyps; [done|lia].
  - intros Hc. simpl. by rewrite Hc.
Qed.

(** ** The invariant *)

Definition bindings_of (st : BillingState) : list BindingRecord := map row_record st.(bl_bindings).
Definition outcomes_of (st : BillingState) : list OutcomeRecord := map row_record st.(bl_outcomes).
Definition rows_of (st : BillingState) : list CreditReservation := st.(bl_ledger).(lg_reservations).

Record billing_ok (st : BillingState) : Prop := {
  bo_ledger : ledger_ok st.(bl_ledger);
  bo_stamped : all_stamped st.(bl_ledger);
  bo_bound : st.(bl_ledger).(lg_bound) = map bd_ReservationID (bindings_of st);
  bo_turns : NoDup (map bd_TurnID (bindings_of st));
  bo_reservations : NoDup (map bd_ReservationID (bindings_of st));
  bo_bindings : ∀ b, b ∈ bindings_of st → BindingRecord_Validate b = None ∧ ∃ r, r ∈ rows_of st ∧ binds b r;
  bo_outcome_turns : NoDup (map oc_TurnID (outcomes_of st));
  bo_valid : ∀ o, o ∈ outcomes_of st → OutcomeRecord_Validate o = None;
  bo_outcomes : ∀ o, o ∈ outcomes_of st →
    ∃ b r, b ∈ bindings_of st ∧ outcome_of o b ∧ r ∈ rows_of st ∧ binds b r ∧ mirrors o r;
  bo_open : ∀ b r, b ∈ bindings_of st → r ∈ rows_of st → binds b r →
    b.(bd_TurnID) ∉ map oc_TurnID (outcomes_of st) → r.(cr_Status) = StatusReserved }.

Definition empty_billing : BillingState := mkBillingState empty_ledger [] [].

Lemma empty_billing_ok : billing_ok empty_billing.
Proof.
  split; simpl; [apply empty_ledger_ok| |done|apply NoDup_nil_2|apply NoDup_nil_2| |apply NoDup_nil_2| | | ].
  - intros r Hr. by apply not_elem_of_nil in Hr.
  - intros b Hb. by apply not_elem_of_nil in Hb.
  - intros o Ho. by apply not_elem_of_nil in Ho.
  - intros o Ho. by apply not_elem_of_nil in Ho.
  - intros b r Hb. by apply not_elem_of_nil in Hb.
Qed.

(** The row of a binding is the row with its reservation id. *)
Lemma bound_row st b r r' :
  billing_ok st → r ∈ rows_of st → r' ∈ rows_of st → binds b r → r'.(cr_Id) = b.(bd_ReservationID) → r' = r.
Proof.
  intros Hok Hr Hr' (_ & Hid & _)%binds_columns He.
  apply (keyed_unique cr_Id (rows_of st)); [apply (lo_reservations _ (bo_ledger st Hok))|done|done|congruence].
Qed.

Lemma binding_unique st b b' :
  billing_ok st → b ∈ bindings_of st → b' ∈ bindings_of st → b.(bd_TurnID) = b'.(bd_TurnID) → b = b'.
Proof.
  intros Hok Hb Hb' He. apply list_elem_of_lookup in Hb as [i Hi], Hb' as [j Hj].
  assert (i = j) as ->; [|congruence]. apply (NoDup_lookup _ i j b.(bd_TurnID) (bo_turns st Hok)).
  - by rewrite list_lookup_fmap, Hi.
  - rewrite list_lookup_fmap, Hj. simpl. by rewrite He.
Qed.

Lemma binding_by_reservation st b b' :
  billing_ok st → b ∈ bindings_of st → b' ∈ bindings_of st → b.(bd_ReservationID) = b'.(bd_ReservationID) → b = b'.
Proof.
  intros Hok Hb Hb' He. apply list_elem_of_lookup in Hb as [i Hi], Hb' as [j Hj].
  assert (i = j) as ->; [|congruence]. apply (NoDup_lookup _ i j b.(bd_ReservationID) (bo_reservations st Hok)).
  - by rewrite list_lookup_fmap, Hi.
  - rewrite list_lookup_fmap, Hj. simpl. by rewrite He.
Qed.

Lemma outcome_unique st o o' :
  billing_ok st → o ∈ outcomes_of st → o' ∈ outcomes_of st → o.(oc_TurnID) = o'.(oc_TurnID) → o = o'.
Proof.
  intros Hok Hb Hb' He. apply list_elem_of_lookup in Hb as [i Hi], Hb' as [j Hj].
  assert (i = j) as ->; [|congruence]. apply (NoDup_lookup _ i j o.(oc_TurnID) (bo_outcome_turns st Hok)).
  - by rewrite list_lookup_fmap, Hi.
  - rewrite list_lookup_fmap, Hj. simpl. by rewrite He.
Qed.

(** ** Other changes of the ledger *)

(** Everything the billing state needs of a new ledger: the rows it is bound to
    are still there, moved only for the reservation [id] that is excluded. *)
Record ledger_frame (keep : Z → Prop) (st : BillingState) (db' : Ledger) : Prop := {
  lf_ok : ledger_ok db';
  lf_stamped : all_stamped db';
  lf_bound : db'.(lg_bound) = st.(bl_ledger).(lg_bound);
  lf_moved : rows_move st.(bl_ledger) db';
  lf_kept : ∀ r, r ∈ rows_of st → keep r.(cr_Id) → r ∈ db'.(lg_reservations) }.

Lemma moves_frame id st db' :
  billing_ok st → rtc (ledger_move id) st.(bl_ledger) db' → ledger_frame (λ i, i ≠ id) st db'.
Proof.
  intros Hok Hm. pose proof (bo_ledger st Hok) as Hl. split.
  - by eapply ledger_moves_ok.
  - eapply stamped_from; [done|apply Hok|by eapply moves_from].
  - clear Hok Hl. induction Hm as [|? ? ? [r f _ _ _] _ IH]; [done|]. by rewrite IH.
  - by eapply ledger_moves_rows.
  - intros r Hr Hne. clear Hok Hl. revert Hr. unfold rows_of. induction Hm as [|db1 db2 db3 [x f Hx Hxid _] _ IH]; [done|].
    intros Hr. apply IH. simpl. apply elem_update_where. exists r. split; [done|]. unfold reservation_is.
    destruct (Z.eqb_spec (cr_Id r) (cr_Id x)); [congruence|done].
Qed.

(** A binding of the state binds the row that is there later. *)
Lemma frame_binds keep st db' b r :
  billing_ok st → ledger_frame keep st db' → r ∈ rows_of st → binds b r →
  ∃ r', r' ∈ db'.(lg_reservations) ∧ binds b r' ∧ rtc row_move r r'.
Proof.
  intros Hok Hf Hr Hb. destruct (lf_moved _ _ _ Hf r Hr) as (r' & Hr' & Hm). exists r'. split_and!; [done| |done].
  by apply (binds_moved b r); [| |apply (bo_stamped st Hok r Hr)].
Qed.

(** ** Writing an outcome *)

Definition honest (p : outcome_plan) : Prop :=
  ∀ prev, p.(op_previous) = Some prev → p.(op_next).(oc_OutcomeDigest) = prev.(oc_OutcomeDigest) →
    outcome_fields p.(op_next) = outcome_fields prev.

Definition settled_outcome (o : OutcomeRecord) : Prop :=
  o.(oc_Status) = OutcomeStatusFinalized ∨ o.(oc_Status) = OutcomeStatusReleased.

Record outcome_plan_ok (st : BillingState) (b : BindingRecord) (p : outcome_plan) : Prop := {
  po_binding : b ∈ bindings_of st;
  po_state : p.(op_state) = with_ledger st p.(op_state).(bl_ledger);
  po_moves : rtc (ledger_move b.(bd_ReservationID)) st.(bl_ledger) p.(op_state).(bl_ledger);
  po_row : ∃ r', r' ∈ rows_of p.(op_state) ∧ binds b r' ∧ mirrors p.(op_next) r';
  po_next : outcome_of p.(op_next) b;
  po_previous : match p.(op_previous) with
                | None => b.(bd_TurnID) ∉ map oc_TurnID (outcomes_of st)
                | Some prev => prev ∈ outcomes_of st ∧ outcome_identity p.(op_next) = outcome_identity prev
                               ∧ p.(op_next).(oc_CreatedAt) = prev.(oc_CreatedAt)
                end;
  po_resolution : ∀ prev, p.(op_previous) = Some prev → settled_outcome prev →
    p.(op_next).(oc_ResolutionID) = prev.(oc_ResolutionID)
    ∧ p.(op_next).(oc_ResolutionRequestDigest) = prev.(oc_ResolutionRequestDigest) }.

(** Same fields, so same version, so nothing moved. *)
Lemma fields_version a b : outcome_fields a = outcome_fields b → a.(oc_ReservationStateVersion) = b.(oc_ReservationStateVersion).
Proof. unfold outcome_fields. intros [= _ _ _ _ _ _ _ _ _ _ _ _ _ _ _ _ _ _ H _ _ _ _]. by apply FormatInt_inj. Qed.

Lemma moves_version id db db' r r' :
  ledger_ok db → rtc (ledger_move id) db db' → r ∈ db.(lg_reservations) → r.(cr_Id) = id →
  r' ∈ db'.(lg_reservations) → r'.(cr_Id) = id → r'.(cr_StateVersion) = r.(cr_StateVersion) → db' = db ∧ r' = r.
Proof.
  intros Hok Hm Hr Hid Hr' Hid' Hv. inversion Hm as [|? db1 ? Hm1 Hms]; subst.
  - split; [done|]. apply (keyed_unique cr_Id (lg_reservations db')); [apply Hok|done|done|congruence].
  - exfalso. pose proof (ledger_move_ok _ _ _ Hok Hm1) as Hok1. destruct Hm1 as [x f Hx Hxid Hrm].
    assert (x = r) as -> by (apply (keyed_unique cr_Id (lg_reservations db)); [apply Hok|done|done|congruence]).
    destruct (ledger_moves_rows _ _ _ Hok1 Hms (f r)) as (y & Hy & Hym); [by apply transition_row_of|].
    assert (y = r') as ->.
    { apply (keyed_unique cr_Id (lg_reservations db')); [apply (ledger_moves_ok _ _ _ Hok1 Hms)|done|done|].
      apply row_moves_request in Hym. apply row_move_request in Hrm. injection Hym as E _ _ _ _ _ _ _ _ _.
      injection Hrm as E' _ _ _ _ _ _ _ _ _. congruence. }
    apply row_moves_version in Hym as [Hle _]. apply row_move_version in Hrm. lia.
Qed.

(** The invariant after the reservation of [b] moved and its outcome was
    written; the other outcomes are those of before. *)
Lemma written_ok st b db' os :
  let st' := mkBillingState db' st.(bl_bindings) os in
  billing_ok st → b ∈ bindings_of st → ledger_frame (λ i, i ≠ b.(bd_ReservationID)) st db' →
  NoDup (map oc_TurnID (outcomes_of st')) → (∀ o, o ∈ outcomes_of st' → OutcomeRecord_Validate o = None) →
  (∀ o, o ∈ outcomes_of st' → o.(oc_TurnID) ≠ b.(bd_TurnID) → o ∈ outcomes_of st) →
  (∀ o, o ∈ outcomes_of st → o.(oc_TurnID) ≠ b.(bd_TurnID) → o ∈ outcomes_of st') →
  (∃ o, o ∈ outcomes_of st' ∧ outcome_of o b ∧ ∃ r', r' ∈ db'.(lg_reservations) ∧ binds b r' ∧ mirrors o r') →
  billing_ok st'.
Proof.
  intros st' Hok Hb Hf Hnd Hval Hback Hforth (ob & Hob & Hoc & r' & Hr' & Hbr & Hmir).
  assert (Hturn : oc_TurnID ob = bd_TurnID b) by apply Hoc.
  split; try apply Hok; [apply Hf|apply Hf|transitivity (lg_bound (bl_ledger st)); [apply Hf|apply Hok]| |done|done| |].
  - intros b' Hb'. destruct (bo_bindings st Hok b' Hb') as (Hv & r & Hr & Hbind). split; [done|].
    destruct (frame_binds _ _ _ _ _ Hok Hf Hr Hbind) as (x & ? & ? & _). by exists x.
  - intros o Ho. destruct (decide (oc_TurnID o = bd_TurnID b)) as [He|Hne].
    + assert (o = ob) as ->.
      { apply list_elem_of_lookup in Ho as [i Hi], Hob as [j Hj]. assert (i = j) as ->; [|congruence].
        apply (NoDup_lookup _ i j (oc_TurnID o) Hnd); rewrite list_lookup_fmap, ?Hi, ?Hj; simpl; congruence. }
      exists b, r'. by split_and!.
    + destruct (bo_outcomes st Hok o (Hback o Ho Hne)) as (b' & r & Hb' & Hoc' & Hr & Hbind & Hm).
      exists b', r. split_and!; try done. apply (lf_kept _ _ _ Hf); [done|]. intros He. destruct Hne.
      pose proof (proj1 (binds_columns b' r) Hbind) as (_ & Hid & _). destruct Hoc' as (_ & -> & _).
      by rewrite (binding_by_reservation st b' b Hok Hb' Hb) by congruence.
  - intros b' r Hb' Hr Hbind Hno.
    assert (Hne : bd_TurnID b' ≠ bd_TurnID b).
    { intros He. destruct Hno. rewrite He, <- Hturn. by apply list_elem_of_fmap_2. }
    destruct (bo_bindings st Hok b' Hb') as (_ & r0 & Hr0 & Hbind0).
    assert (Hneid : bd_ReservationID b' ≠ bd_ReservationID b).
    { intros He. destruct Hne. by rewrite (binding_by_reservation st b' b Hok Hb' Hb). }
    pose proof (proj1 (binds_columns b' r0) Hbind0) as (_ & Hid0 & _).
    pose proof (proj1 (binds_columns b' r) Hbind) as (_ & Hid & _).
    assert (Hkept : r0 ∈ lg_reservations db') by (apply (lf_kept _ _ _ Hf); [done|congruence]).
    assert (r = r0) as -> by (apply (keyed_unique cr_Id (lg_reservations db')); [apply Hf|done|done|congruence]).
    apply (bo_open st Hok b'); try done. intros (o & He & Ho)%list_elem_of_fmap. destruct Hno. rewrite He.
    apply list_elem_of_fmap_2. apply Hforth; [done|congruence].
Qed.

(** An UPDATE that matched one row replaced that row. *)
Lemma update_one (matches : stored OutcomeRecord → bool) f (g : OutcomeRecord → OutcomeRecord) rows prev :
  affected matches rows = 1 → prev ∈ map row_record rows → (∀ x, row_record x = prev → matches x = true) →
  (∀ x, row_record (f x) = g (row_record x)) →
  map row_record (update_where matches f rows) = map (λ o, if decide (o = prev) then g prev else o) (map row_record rows).
Proof.
  intros Haff Hprev Hmatch Hg. unfold update_where. rewrite !map_map. apply map_ext_in. intros x Hx%list_elem_of_In.
  assert (Hin : ∀ z, z ∈ rows → matches z = true → z ∈ List.filter matches rows).
  { intros z Hz Mz. apply list_elem_of_In, filter_In. by rewrite <- list_elem_of_In. }
  apply list_elem_of_fmap in Hprev as (y & -> & Hy). pose proof (Hin y Hy (Hmatch y eq_refl)) as Hy1.
  unfold affected, where_ in Haff. destruct (List.filter matches rows) as [|z [|z2 l]]; [done| |simpl in Haff; lia].
  apply list_elem_of_singleton in Hy1 as <-. destruct (matches x) eqn:Mx.
  - pose proof (Hin x Hx Mx) as ->%list_elem_of_singleton. rewrite decide_True by done. apply Hg.
  - destruct (decide (row_record x = row_record y)) as [He|]; [|done]. apply Hmatch in He. congruence.
Qed.

(** Replacing the outcome of a Turn. *)
Lemma replaced_ok st b next prev db' os :
  let st' := mkBillingState db' st.(bl_bindings) os in
  billing_ok st → b ∈ bindings_of st → ledger_frame (λ i, i ≠ b.(bd_ReservationID)) st db' →
  prev ∈ outcomes_of st → outcome_of next b → next.(oc_TurnID) = prev.(oc_TurnID) → OutcomeRecord_Validate next = None →
  (∃ r', r' ∈ db'.(lg_reservations) ∧ binds b r' ∧ mirrors next r') →
  outcomes_of st' = map (λ o, if decide (o = prev) then next else o) (outcomes_of st) → billing_ok st'.
Proof.
  intros st' Hok Hb Hf Hpin Hoc Hturn Hval Hrow Hlist.
  assert (Hnb : oc_TurnID next = bd_TurnID b) by apply Hoc.
  apply (written_ok st b); [done|done|done| | | | |]; fold st'; rewrite ?Hlist.
  - rewrite map_map. erewrite map_ext; [apply (bo_outcome_turns st Hok)|]. intros o. by destruct (decide (o = prev)) as [->|].
  - intros o (x & -> & Hx)%list_elem_of_fmap. destruct (decide (x = prev)); [done|]. by apply (bo_valid st Hok).
  - intros o (x & -> & Hx)%list_elem_of_fmap Hne. destruct (decide (x = prev)); [done|done].
  - intros o Ho Hne. apply list_elem_of_fmap. exists o. split; [|done].
    destruct (decide (o = prev)) as [->|]; [congruence|done].
  - exists next. split_and!; [|done|done]. apply list_elem_of_fmap. exists prev. split; [|done]. by rewrite decide_True.
Qed.

Lemma persist_ok env st b p st' :
  billing_ok st → outcome_plan_ok st b p → honest p → persist_plan env p = Ok st' → billing_ok st'.
Proof.
  intros Hok [Hb Hst Hm (r' & Hr' & Hbr & Hmir) Hoc Hprev _] Hh E.
  pose proof (moves_frame _ _ _ Hok Hm) as Hf. unfold persist_plan, persistOutcome in E.
  destruct p as [st1 next prev]. simpl in *. destruct (OutcomeRecord_Validate next) eqn:Hval; [done|].
  assert (Hb1 : bl_bindings st1 = bl_bindings st) by by rewrite Hst.
  assert (Ho1 : bl_outcomes st1 = bl_outcomes st) by by rewrite Hst.
  assert (Hnb : oc_TurnID next = bd_TurnID b) by apply Hoc.
  destruct prev as [prev|].
  - destruct Hprev as (Hpin & Hident & Hcreated).
    assert (Hpt : oc_TurnID next = oc_TurnID prev) by (unfold outcome_identity in Hident; by injection Hident).
    destruct (bool_decide (oc_OutcomeID next = oc_OutcomeID prev) && _) eqn:Hsame.
    + injection E as <-. apply andb_true_iff in Hsame as [_ Hd%bool_decide_eq_true].
      apply (Hh prev eq_refl), fields_version in Hd.
      destruct (bo_outcomes st Hok prev Hpin) as (b0 & r & Hb0 & Hoc0 & Hr & Hbind & Hmir0).
      assert (b0 = b) as -> by (apply (binding_unique st); [done|done|done|]; destruct Hoc0 as (_ & ? & _); congruence).
      pose proof (proj1 (binds_columns b r) Hbind) as (_ & Hid & _).
      pose proof (proj1 (binds_columns b r') Hbr) as (_ & Hid' & _).
      destruct (moves_version _ _ _ r r' (bo_ledger st Hok) Hm Hr Hid Hr' Hid') as [Hdb _].
      { rewrite <- (mr_version _ _ Hmir), <- (mr_version _ _ Hmir0). done. }
      rewrite Hst, Hdb. by destruct st.
    + destruct (be_fault env BsUpdateOutcome); [done|].
      match type of E with context [affected ?m _] => set (matches := m) in E end.
      destruct (Z.eqb_spec (affected matches (bl_outcomes st1)) 1) as [Haff|]; [|done]. injection E as <-.
      unfold with_outcomes. rewrite Hb1, Ho1 in *. apply (replaced_ok st b next prev); try done; [by exists r'|].
      unfold outcomes_of. simpl. rewrite (update_one matches _ (update_outcome next) _ prev); [|done|done| |done].
      { by rewrite update_outcome_same. }
      intros x Hx. unfold matches. rewrite Hx. by rewrite !bool_decide_true.
  - destruct (be_fault env BsInsertOutcome); [done|]. destruct (existsb _ _) eqn:Hex; [done|]. injection E as <-.
    unfold with_outcomes. rewrite Hb1, Ho1.
    apply (written_ok st b); [done|done|done| | | | |]; unfold outcomes_of; simpl; rewrite map_app; simpl.
    + rewrite map_app. apply NoDup_app. split_and!; [apply (bo_outcome_turns st Hok)| |apply NoDup_singleton].
      intros t Ht ->%list_elem_of_singleton. rewrite Hnb in Ht. done.
    + intros o [Ho| ->%list_elem_of_singleton]%elem_of_app; [by apply (bo_valid st Hok)|done].
    + intros o [Ho| ->%list_elem_of_singleton]%elem_of_app Hne; [done|congruence].
    + intros o Ho Hne. apply elem_of_app. by left.
    + exists next. split_and!; [apply elem_of_app; right; by left|done|by exists r'].
Qed.

(** ** Agent billing: what each operation plans to write

    Every operation of the authority ends by persisting an outcome next to one
    reservation it moved.  Here each plan is shown to satisfy [outcome_plan_ok]. *)

(** ** Lookups *)

Lemma lockBinding_Some env st turnID b :
  lockBindingByTurn env st turnID = Ok (Some b) →
  b ∈ bindings_of st ∧ b.(bd_TurnID) = turnID ∧ BindingRecord_Validate b = None.
Proof.
  unfold lockBindingByTurn. intros E. destruct (be_fault env BsLockBinding); [done|].
  destruct (first_row _ _) as [row|] eqn:Ef; [|done]. destruct (BindingRecord_Validate _) eqn:Hv; [done|].
  injection E as <-. apply first_row_Some in Ef as [Hin Ht%bool_decide_eq_true].
  split_and!; [by apply list_elem_of_fmap_2|done|done].
Qed.

Lemma lockBinding_None env st turnID :
  lockBindingByTurn env st turnID = Ok None → turnID ∉ map bd_TurnID (bindings_of st).
Proof.
  unfold lockBindingByTurn. intros E. destruct (be_fault env BsLockBinding); [done|].
  destruct (first_row _ _) as [row|] eqn:Ef; [by destruct (BindingRecord_Validate _)|].
  intros (b & -> & (row & -> & Hrow)%list_elem_of_fmap)%list_elem_of_fmap.
  eapply List.find_none in Ef; [|by apply list_elem_of_In]. by apply bool_decide_eq_false in Ef.
Qed.

Lemma lockOutcome_Some env st turnID o :
  lockOutcomeByTurn env st turnID = Ok (Some o) →
  o ∈ outcomes_of st ∧ o.(oc_TurnID) = turnID ∧ OutcomeRecord_Validate o = None.
Proof.
  unfold lockOutcomeByTurn. intros E. destruct (be_fault env BsLockOutcome); [done|].
  destruct (first_row _ _) as [row|] eqn:Ef; [|done]. destruct (OutcomeRecord_Validate _) eqn:Hv; [done|].
  injection E as <-. apply first_row_Some in Ef as [Hin Ht%bool_decide_eq_true].
  split_and!; [by apply list_elem_of_fmap_2|done|done].
Qed.

Lemma lockOutcome_None env st turnID :
  lockOutcomeByTurn env st turnID = Ok None → turnID ∉ map oc_TurnID (outcomes_of st).
Proof.
  unfold lockOutcomeByTurn. intros E. destruct (be_fault env BsLockOutcome); [done|].
  destruct (first_row _ _) as [row|] eqn:Ef; [by destruct (OutcomeRecord_Validate _)|].
  intros (b & -> & (row & -> & Hrow)%list_elem_of_fmap)%list_elem_of_fmap.
  eapply List.find_none in Ef; [|by apply list_elem_of_In]. by apply bool_decide_eq_false in Ef.
Qed.

Lemma lockExactBinding_Ok env st turnID principalID b :
  lockExactBinding env st turnID principalID = Ok b →
  b ∈ bindings_of st ∧ b.(bd_TurnID) = turnID ∧ b.(bd_PrincipalID) = principalID.
Proof.
  unfold lockExactBinding. intros E. destruct (lockBindingByTurn env st turnID) as [[x|]|] eqn:El; [|done|done].
  destruct (bool_decide _) eqn:Hp; [|done]. injection E as <-. apply lockBinding_Some in El as (? & ? & _).
  apply bool_decide_eq_true in Hp. done.
Qed.

Lemma snapshot_row env db id s :
  LockSettlementSnapshot env db id = Ok s →
  ∃ r, r ∈ db.(lg_reservations) ∧ r.(cr_Id) = id ∧ s = reservationSettlementSnapshot r.
Proof.
  unfold LockSettlementSnapshot. intros E. destruct (lockReservation env db id) as [r|] eqn:El; [|done].
  injection E as <-. apply lockReservation_Ok in El as [? ?]. by exists r.
Qed.

(** ** Calls of the reservation service *)

Record service_call (st : BillingState) (b : BindingRecord) (s : ReservationSettlementSnapshot) (st' : BillingState)
    : Prop := {
  sv_state : st' = with_ledger st st'.(bl_ledger);
  sv_moves : rtc (ledger_move b.(bd_ReservationID)) st.(bl_ledger) st'.(bl_ledger);
  sv_row : ∃ r, r ∈ rows_of st' ∧ r.(cr_Id) = b.(bd_ReservationID) ∧ s = reservationSettlementSnapshot r }.

Lemma call_made st b env (r : result Ledger) s st' :
  (∀ db', r = Ok db' → rtc (ledger_move b.(bd_ReservationID)) st.(bl_ledger) db') →
  on_ledger st (with_result env r b.(bd_ReservationID)) = Ok (s, st') → service_call st b s st'.
Proof.
  intros Hm E. unfold on_ledger, with_result in E. destruct r as [db'|]; [|done].
  destruct (LockSettlementSnapshot env db' _) as [snap|] eqn:Es; [|done]. injection E as <- <-.
  apply snapshot_row in Es. split; [done|by apply Hm|done].
Qed.

Lemma finalize_call st b env used hold u s st' :
  billing_ok st →
  on_ledger st (with_result env (finalize env st.(bl_ledger) b.(bd_ReservationID) used hold u) b.(bd_ReservationID))
    = Ok (s, st') → service_call st b s st'.
Proof.
  intros Hok. apply call_made. intros db' E. apply finalize_settles in E as [_ [? _]]; [done|apply Hok].
Qed.

Lemma FinalizeReview_call st b env used hold s st' :
  billing_ok st →
  on_ledger st (FinalizeReviewWithResult env st.(bl_ledger) b.(bd_ReservationID) hold used) = Ok (s, st') →
  service_call st b s st'.
Proof.
  intros Hok. apply call_made. intros db' E. unfold FinalizeReview in E.
  destruct (ReservationReviewHold_validate hold); [done|]. apply finalize_settles in E as [_ [? _]]; [done|apply Hok].
Qed.

Lemma Release_call st b env s st' :
  billing_ok st →
  on_ledger st (ReleaseWithResult env st.(bl_ledger) b.(bd_ReservationID)) = Ok (s, st') → service_call st b s st'.
Proof.
  intros Hok. apply call_made. intros db' E. apply release_settles in E as [? _]; [done|apply Hok].
Qed.

Lemma hold_call st b env hold s st' :
  billing_ok st →
  on_ledger st (HoldForReviewAfterTurnAuthorizationWithResult env st.(bl_ledger) b.(bd_ReservationID) hold) = Ok (s, st') →
  service_call st b s st'.
Proof.
  intros Hok. apply call_made. intros db' E. apply hold_moves in E as [? _]; [done|apply Hok].
Qed.

Lemma settle_call_made env st b c used s st' :
  billing_ok st → settle_call env st b c used = Ok (s, st') → service_call st b s st'.
Proof.
  intros Hok E. unfold settle_call in E. destruct (bool_decide _); [by eapply finalize_call|].
  destruct (bool_decide _); [by eapply Release_call|done].
Qed.

Lemma pending_call_made env st b o s st' :
  billing_ok st → pending_call env st b o = Ok (s, st') → service_call st b s st'.
Proof.
  intros Hok E. unfold pending_call in E. destruct (bool_decide _).
  { destruct (oc_UsedUnits o) as [units|]; [|done]. destruct (positiveUnits units); [|done]. by eapply finalize_call. }
  destruct (bool_decide _); [by eapply Release_call|]. destruct (bool_decide _); [|done].
  destruct (oc_UsedUnits o) as [units|]; [|done]. destruct (oc_ReviewID o); [|done].
  destruct (oc_ReviewRequestDigest o); [|done]. destruct (positiveUnits units); [|done]. by eapply FinalizeReview_call.
Qed.

(** ** What a valid outcome says *)

Lemma valid_created o : OutcomeRecord_Validate o = None → IsZero o.(oc_CreatedAt) = false.
Proof.
  unfold OutcomeRecord_Validate. rewrite first_error_None, !Forall_cons. intros H.
  repeat (destruct H as [? H]). rewrite when_None, !orb_false_iff in *. tauto.
Qed.

Lemma valid_parts o : OutcomeRecord_Validate o = None →
  o.(oc_OutcomeID) = outcomeID o.(oc_SettlementKey) ∧ o.(oc_OutcomeDigest) = outcomeRecordDigest o
  ∧ AuthorizationKind_Valid o.(oc_AuthorizationKind) = true ∧ validateOutcomeAuthorization o = None
  ∧ validateOutcomeTuples o = None ∧ validateOutcomeStatus o = None
  ∧ (o.(oc_RequestedIntent) = RequestedIntentReview → o.(oc_Status) ≠ OutcomeStatusReviewHeld → resolution_tuple o = true).
Proof.
  unfold OutcomeRecord_Validate. rewrite first_error_None, !Forall_cons. intros H.
  repeat (destruct H as [? H]).
  repeat match goal with
  | H : when _ _ = None |- _ => rewrite when_None, ?orb_false_iff in H
  end.
  repeat match goal with
  | H : _ ∧ _ |- _ => destruct H
  | H : negb (bool_decide _) = false |- _ => apply negb_false_iff, bool_decide_eq_true in H
  | H : negb (AuthorizationKind_Valid _) = false |- _ => apply negb_false_iff in H
  end.
  split_and!; try done. intros Hi Hs.
  match goal with
  | H : bool_decide (oc_RequestedIntent o = RequestedIntentReview) && _ && _ = false |- _ =>
    rewrite bool_decide_true, bool_decide_false in H by done; simpl in H; by apply negb_false_iff in H
  end.
Qed.

Lemma valid_text_kept t max : valid_text t max = true → text_option (optionalString t) = t.
Proof.
  unfold valid_text, text_option. destruct t as [x|]; [|done]. simpl. intros H.
  destruct (validateASCII x max) eqn:Hf; [done|]. unfold validateASCII in Hf. apply first_error_None, Forall_cons in Hf as [Hf _].
  apply when_None, orb_false_iff in Hf as [Hf _]. destruct (bool_decide (x = "")) eqn:He; [|done]. apply bool_decide_eq_true in He as ->. by vm_compute in Hf.
Qed.

Lemma valid_authorization o : OutcomeRecord_Validate o = None →
  text_option (optionalString o.(oc_AttemptID)) = o.(oc_AttemptID)
  ∧ text_option (optionalString o.(oc_OperationID)) = o.(oc_OperationID).
Proof.
  intros (_ & _ & Hk & Ha & _)%valid_parts. unfold validateOutcomeAuthorization in Ha. unfold AuthorizationKind_Valid in Hk.
  destruct (bool_decide (_ = AuthorizationKindOperation)).
  - apply when_None, negb_false_iff in Ha. apply andb_true_iff in Ha as [[? ?]%andb_true_iff _]. eauto using valid_text_kept.
  - simpl in Hk. rewrite Hk in Ha. apply when_None in Ha. apply orb_false_iff in Ha as [[? ?]%orb_false_iff _].
    by destruct (oc_AttemptID o), (oc_OperationID o).
Qed.

Lemma valid_tuples o : OutcomeRecord_Validate o = None →
  if bool_decide (o.(oc_RequestedIntent) = RequestedIntentReview)
  then is_Some o.(oc_ReviewID) ∧ is_Some o.(oc_ReviewRequestDigest)
  else o.(oc_ReviewID) = None ∧ o.(oc_ReviewRequestDigest) = None ∧ o.(oc_ResolutionID) = None
       ∧ o.(oc_ResolutionRequestDigest) = None.
Proof.
  intros (_ & _ & _ & _ & Ht & _)%valid_parts. unfold validateOutcomeTuples in Ht. apply first_error_None in Ht.
  apply Forall_cons in Ht as [Ht _]. destruct (bool_decide _).
  - apply when_None, negb_false_iff in Ht. unfold valid_text in Ht.
    destruct (oc_ReviewID o), (oc_ReviewRequestDigest o); simpl in Ht; rewrite ?andb_false_r in Ht; done.
  - apply when_None in Ht. unfold review_tuple, resolution_tuple in Ht.
    by destruct (oc_ReviewID o), (oc_ReviewRequestDigest o), (oc_ResolutionID o), (oc_ResolutionRequestDigest o).
Qed.

Lemma valid_resolution o : OutcomeRecord_Validate o = None →
  o.(oc_RequestedIntent) = RequestedIntentReview → o.(oc_Status) ≠ OutcomeStatusReviewHeld →
  is_Some o.(oc_ResolutionID) ∧ is_Some o.(oc_ResolutionRequestDigest).
Proof.
  intros (_ & _ & _ & _ & Ht & _ & Hr)%valid_parts Hi Hs. specialize (Hr Hi Hs). unfold validateOutcomeTuples in Ht.
  apply first_error_None, Forall_cons in Ht as [_ [Ht _]%Forall_cons]. rewrite Hr in Ht.
  apply when_None, negb_false_iff in Ht. unfold valid_text in Ht.
  destruct (oc_ResolutionID o), (oc_ResolutionRequestDigest o); simpl in Ht; rewrite ?andb_false_r in Ht; done.
Qed.

(** ** Replacing an outcome *)

(** A plan that projects the moved row into the existing outcome. *)
Lemma replace_plan_ok st b prev o s st1 next :
  billing_ok st → b ∈ bindings_of st → prev ∈ outcomes_of st → prev.(oc_TurnID) = b.(bd_TurnID) →
  service_call st b s st1 → outcome_identity o = outcome_identity prev → o.(oc_CreatedAt) = prev.(oc_CreatedAt) →
  (settled_outcome prev → o.(oc_ResolutionID) = prev.(oc_ResolutionID)
     ∧ o.(oc_ResolutionRequestDigest) = prev.(oc_ResolutionRequestDigest)) →
  outcomeFromSnapshot b o s = Ok next → outcome_plan_ok st b (mkOutcomePlan st1 next (Some prev)).
Proof.
  intros Hok Hb Hprev Hturn [Hst Hm (r & Hr & Hid & ->)] Hident Hcreated Hres E.
  apply outcomeFromSnapshot_Ok in E as (Hbind & _ & Hmir & Hid2 & _ & Hr1 & Hr2 & Hcr & _).
  assert (Hz : IsZero prev.(oc_CreatedAt) = false) by (apply valid_created, (bo_valid st Hok), Hprev).
  rewrite <- Hcreated in Hz. apply Hcr in Hz.
  assert (Hoc : outcome_of prev b).
  { destruct (bo_outcomes st Hok prev Hprev) as (b0 & _ & Hb0 & Hoc & _).
    by rewrite (binding_unique st b b0 Hok Hb Hb0) by (destruct Hoc as (_ & ? & _); congruence). }
  split; simpl; [done|done|done|by exists r| |split_and!; [done|congruence|congruence]|intros ? [= <-]; rewrite Hr1, Hr2; done].
  rewrite Hident in Hid2. unfold outcome_identity in Hid2. injection Hid2. intros. unfold outcome_of in *.
  destruct Hoc as (? & ? & ? & ? & ?). split_and!; congruence.
Qed.

(** A plan that writes the first outcome of a Turn. *)
Lemma first_plan_ok st b s st1 next :
  b ∈ bindings_of st → b.(bd_TurnID) ∉ map oc_TurnID (outcomes_of st) → service_call st b s st1 →
  (∀ r, r ∈ rows_of st1 → r.(cr_Id) = b.(bd_ReservationID) → s = reservationSettlementSnapshot r →
     binds b r ∧ mirrors next r) →
  outcome_of next b → outcome_plan_ok st b (mkOutcomePlan st1 next None).
Proof.
  intros Hb Hno [Hst Hm (r & Hr & Hid & Hs)] Hrow Hoc. split; simpl; try done. exists r.
  destruct (Hrow r Hr Hid Hs). done.
Qed.

Lemma ordinary_identity b c digest prev :
  OutcomeRecord_Validate prev = None → outcome_of prev b → ordinaryOutcomeMatches prev b c digest = true →
  prev.(oc_TurnID) = b.(bd_TurnID) → ∀ s next,
  ordinaryOutcome b c digest s (Some prev) = Ok next →
  ∃ o, outcome_identity o = outcome_identity prev ∧ o.(oc_CreatedAt) = prev.(oc_CreatedAt)
    ∧ (o.(oc_ResolutionID) = prev.(oc_ResolutionID) ∧ o.(oc_ResolutionRequestDigest) = prev.(oc_ResolutionRequestDigest))
    ∧ outcomeFromSnapshot b o s = Ok next.
Proof.
  intros Hv (Ho1 & Ho2 & Ho3 & Ho4 & Ho5) Hmt Ht s next E.
  pose proof (valid_parts prev Hv) as (Hid & _). pose proof (valid_authorization prev Hv) as [Ha Hop].
  pose proof (valid_tuples prev Hv) as Htup. unfold ordinaryOutcomeMatches in Hmt.
  repeat match type of Hmt with _ && _ = true => let H := fresh "M" in apply andb_true_iff in Hmt as [Hmt H] end.
  repeat match goal with
  | H : bool_decide _ = true |- _ => apply bool_decide_eq_true in H
  | H : (_ =? _) = true |- _ => apply Z.eqb_eq in H
  | H : negb (is_set ?o) = true |- _ => destruct o eqn:?; [done|clear H]
  end.
  assert (Hni : bool_decide (oc_RequestedIntent prev = RequestedIntentReview) = false).
  { apply bool_decide_eq_false. match goal with H : oc_RequestedIntent prev = _ |- _ => rewrite H end. unfold requested_intent. destruct (bool_decide (sc_Intent c = SettlementIntentRelease)); intros Hx; discriminate Hx. }
  rewrite Hni in Htup. destruct Htup as (Hr1 & Hr2 & Hr3 & Hr4).
  unfold ordinaryOutcome in E. refine (ex_intro _ _ (conj _ (conj _ (conj (conj _ _) E)))); [|reflexivity|by symmetry|by symmetry].
  unfold outcome_identity. cbn [oc_OutcomeID oc_BindingID oc_TurnID oc_ReservationID oc_BindingDigest oc_SettlementKey oc_LedgerRequestDigest oc_AuthorizationKind oc_AttemptID oc_FencingToken oc_OperationID oc_TerminalStatus oc_RequestedIntent oc_ReservedUnits oc_ReviewID oc_ReviewRequestDigest].
  repeat f_equal; congruence.
Qed.

(** ** The plans *)

Lemma moved_row st b db' r r0 :
  billing_ok st → rtc (ledger_move b.(bd_ReservationID)) st.(bl_ledger) db' → r0 ∈ rows_of st → binds b r0 →
  r ∈ db'.(lg_reservations) → r.(cr_Id) = b.(bd_ReservationID) → rtc row_move r0 r ∧ binds b r.
Proof.
  intros Hok Hm Hr0 Hb0 Hr Hid. pose proof (moves_frame _ _ _ Hok Hm) as Hf.
  destruct (frame_binds _ st _ b r0 Hok Hf Hr0 Hb0) as (x & Hx & Hbx & Hmx).
  assert (x = r) as <-; [|done]. pose proof (proj1 (binds_columns b x) Hbx) as (_ & Hxid & _).
  apply (keyed_unique cr_Id (lg_reservations db')); [apply Hf|done|done|congruence].
Qed.

Lemma mirror_row st b o :
  billing_ok st → b ∈ bindings_of st → o ∈ outcomes_of st → o.(oc_TurnID) = b.(bd_TurnID) →
  ∃ r, r ∈ rows_of st ∧ binds b r ∧ mirrors o r.
Proof.
  intros Hok Hb Ho Ht. destruct (bo_outcomes st Hok o Ho) as (b0 & r & Hb0 & Hoc & Hr & Hbr & Hm).
  rewrite (binding_unique st b b0 Hok Hb Hb0) by (destruct Hoc as (_ & ? & _); congruence). by exists r.
Qed.

(** The row of a settled outcome never moves again. *)
Lemma settled_frozen st o r r' :
  billing_ok st → r ∈ rows_of st → settled_outcome o → mirrors o r → rtc row_move r r' → r' = r.
Proof.
  intros Hok Hr Hset [_ _ _ Hp] Hm. apply terminal_frozen; [apply (lo_rows _ (bo_ledger st Hok) r Hr)| |done].
  destruct Hset as [Hs|Hs], Hp as [H1 H2|? H1 H2|H1 H2|H1 H2]; rewrite H1 in Hs; try discriminate Hs; by rewrite H2.
Qed.

Lemma outcome_binding st b prev :
  billing_ok st → b ∈ bindings_of st → prev ∈ outcomes_of st → prev.(oc_TurnID) = b.(bd_TurnID) → outcome_of prev b.
Proof.
  intros Hok Hb Hprev Ht. destruct (bo_outcomes st Hok prev Hprev) as (b0 & _ & Hb0 & Hoc & _).
  by rewrite (binding_unique st b b0 Hok Hb Hb0) by (destruct Hoc as (_ & ? & _); congruence).
Qed.

(** How [settle_plan] ends: a replay of an outcome that is not pending, or a call
    of the reservation service and the outcome it gives. *)
Inductive settle_ends (env : billing_env) (st : BillingState) (c : SettlementCommand) (b : BindingRecord)
    (existing : option OutcomeRecord) : option outcome_plan → Prop :=
| se_replay e : existing = Some e → e.(oc_Status) ≠ OutcomeStatusRefundPending → settle_ends env st c b existing None
| se_call before used s st1 next :
    (∀ e, existing = Some e → e.(oc_Status) = OutcomeStatusRefundPending) →
    snapshot_call env 0 st b = Ok before → is_Some existing ∨ before.(ss_Status) = StatusReserved →
    settlementUnits c = Ok used → settle_call env st b c used = Ok (s, st1) →
    ordinaryOutcome b c (ordinaryRequestDigest b c) s existing = Ok next →
    settle_ends env st c b existing (Some (mkOutcomePlan st1 next existing)).

Lemma settle_plan_ends env k st c plan :
  settle_plan env k st c = Ok plan →
  ∃ b existing, b ∈ bindings_of st ∧ b.(bd_TurnID) = c.(sc_TurnID) ∧ lockOutcomeByTurn env st c.(sc_TurnID) = Ok existing
    ∧ (∀ e, existing = Some e → ordinaryOutcomeMatches e b c (ordinaryRequestDigest b c) = true)
    ∧ settle_ends env st c b existing plan.
Proof.
  intros E. unfold settle_plan in E. destruct (SettlementCommand_Validate c); [done|].
  destruct (lockTurnOwner env k _) as [turn|]; [|done]. destruct (_ && _); [|done].
  destruct (lockReviewOwnerByTurn env k _) as [review|]; [|done]. destruct (negb (is_set review)); [|done].
  destruct (lockExactBinding env st _ _) as [b|] eqn:Eb; [|done]. apply lockExactBinding_Ok in Eb as (Hb & Hbt & _).
  destruct (lockOutcomeByTurn env st _) as [existing|] eqn:Eo; [|done]. exists b, existing. split_and!; try done.
  - intros e ->. by destruct (ordinaryOutcomeMatches e b c _).
  - destruct (match existing with Some e => ordinaryOutcomeMatches e b c _ | None => true end); [|done].
    destruct (holds_at existing _) eqn:Hpend.
    { destruct existing as [e|]; [|done]. destruct (snapshot_call env 0 st b); [|done].
      destruct (verifyOutcomeSnapshot _ _ _); [done|]. injection E as <-. apply (se_replay _ _ _ _ _ e); [done|].
      cbn in Hpend. by apply negb_true_iff, bool_decide_eq_false in Hpend. }
    destruct (snapshot_call env 0 st b) as [before|] eqn:Es; [|done]. destruct (snapshotMatchesBinding b before); [done|].
    destruct (is_set existing || _) eqn:Hres; [|done]. destruct (settlementUnits c) as [used|] eqn:Eu; [|done].
    destruct (settle_call env st b c used) as [[s st1]|] eqn:Ec; [|done].
    destruct (ordinaryOutcome b c _ s existing) as [next|] eqn:En; [|done]. injection E as <-.
    apply (se_call _ _ _ _ _ before used s); try done.
    + intros e ->. cbn in Hpend. by apply negb_false_iff, bool_decide_eq_true in Hpend.
    + apply orb_true_iff in Hres as [?|?%bool_decide_eq_true]; [left; by destruct existing|by right].
Qed.

Lemma settle_plan_sound env k st c p :
  billing_ok st → settle_plan env k st c = Ok (Some p) →
  ∃ b, b.(bd_TurnID) = c.(sc_TurnID) ∧ outcome_plan_ok st b p.
Proof.
  intros Hok (b & existing & Hb & Hbt & Eo & Hmt & Hend)%settle_plan_ends. exists b. split; [done|].
  inversion Hend as [|before used s st1 next _ _ _ _ Ec En]; subst. apply settle_call_made in Ec; [|done]. destruct existing as [e|].
  - apply lockOutcome_Some in Eo as (He & Het & Hev).
    pose proof (outcome_binding st b e Hok Hb He ltac:(congruence)) as Hoc.
    destruct (ordinary_identity b c _ e Hev Hoc (Hmt e eq_refl) ltac:(congruence) s next En) as (o & ? & ? & ? & ?).
    apply (replace_plan_ok st b e o s); try done. congruence.
  - apply lockOutcome_None in Eo. eapply first_plan_ok; [done|congruence|done| |].
    + intros r Hr Hid ->. apply outcomeFromSnapshot_Ok in En as (? & _ & ? & _). done.
    + destruct Ec as [_ _ (r & _ & _ & ->)]. apply outcomeFromSnapshot_Ok in En as (_ & _ & _ & Hi & _).
      unfold outcome_identity in Hi. injection Hi. intros. unfold outcome_of. simpl in *. split_and!; congruence.
Qed.

(** A Turn without an outcome: the plan writes its first. *)
Lemma settle_plan_fresh env k st c plan :
  settle_plan env k st c = Ok plan → c.(sc_TurnID) ∉ map oc_TurnID (outcomes_of st) →
  ∃ b, b ∈ bindings_of st ∧ b.(bd_TurnID) = c.(sc_TurnID) ∧ settle_ends env st c b None plan.
Proof.
  intros (b & existing & Hb & Hbt & Eo & _ & Hend)%settle_plan_ends Hno. exists b. split_and!; [done|done|].
  destruct existing as [e|]; [|done]. apply lockOutcome_Some in Eo as (He & Het & _). destruct Hno. rewrite <- Het.
  by apply list_elem_of_fmap_2.
Qed.

Lemma pending_plan_sound env k st principalID turnID o p :
  billing_ok st → pending_plan env k st principalID turnID = Ok (o, Some p) →
  o = p.(op_next) ∧ ∃ b, b.(bd_TurnID) = turnID ∧ outcome_plan_ok st b p.
Proof.
  intros Hok E. unfold pending_plan, lockOwnedOutcome in E. destruct (be_fault env BsTransaction); [done|].
  destruct (lockTurnOwner env k _) as [turn|]; [|done]. destruct (bool_decide _); [|done].
  destruct (lockReviewOwnerByTurn env k _) as [review|]; [|done].
  destruct (lockExactBinding env st _ _) as [b|] eqn:Eb; [|done]. apply lockExactBinding_Ok in Eb as (Hb & Hbt & _).
  destruct (lockOutcomeByTurn env st _) as [[e|]|] eqn:Eo; [|done|done]. apply lockOutcome_Some in Eo as (He & Het & _).
  destruct (verifyOutcomeReviewOwner review e); [done|]. destruct (verifyOutcomeResolutionOwner env k b review e); [done|].
  destruct (negb _).
  { destruct (snapshot_call env 0 st b); [|done]. by destruct (verifyOutcomeSnapshot _ _ _). }
  destruct (pending_call env st b e) as [[s st1]|] eqn:Ec; [|done]. apply pending_call_made in Ec; [|done].
  destruct (outcomeFromSnapshot b e s) as [next|] eqn:En; [|done]. injection E as <- <-. split; [done|].
  exists b. split; [done|]. apply (replace_plan_ok st b e e s); try done. congruence.
Qed.

Lemma resolve_plan_sound env k st c b p :
  billing_ok st → resolve_plan env k st c = Ok (b, p) →
  b.(bd_TurnID) = c.(rac_Review).(rv_TurnID) ∧ outcome_plan_ok st b p.
Proof.
  intros Hok E. unfold resolve_plan in E. destruct (SettlementReviewResolutionAuthorityCommand_Validate c); [done|].
  destruct (lockTurnOwner env k _) as [turn|]; [|done]. destruct (_ && _); [|done].
  destruct (verifyReviewOwner env k _ _) as [[]|]; [|done].
  destruct (lockExactBinding env st _ _) as [b0|] eqn:Eb; [|done]. apply lockExactBinding_Ok in Eb as (Hb & Hbt & _).
  destruct (bool_decide _); [|done].
  destruct (lockOutcomeByTurn env st _) as [[e|]|] eqn:Eo; [|done|done]. apply lockOutcome_Some in Eo as (He & Het & Hev).
  destruct (reviewOutcomeMatches e b0 _ _) eqn:Hmt; [|done]. destruct (negb (is_set _ && _)) eqn:Hrs; [|done].
  destruct (positiveUnits _) as [used|]; [|done].
  destruct (on_ledger st _) as [[s st1]|] eqn:Ec; [|done]. apply FinalizeReview_call in Ec; [|done].
  destruct (resolvedReviewOutcome b0 e c s) as [next|] eqn:En; [|done]. injection E as <- <-. split; [done|].
  unfold resolvedReviewOutcome in En.
  refine (replace_plan_ok st b0 e _ s st1 next Hok Hb He _ Ec _ _ _ En); [congruence|reflexivity|reflexivity|].
  intros Hset. cbn [outcome_with oc_ResolutionID oc_ResolutionRequestDigest]. apply negb_true_iff in Hrs.
  assert (Hi : oc_RequestedIntent e = RequestedIntentReview).
  { unfold reviewOutcomeMatches in Hmt. destruct (reviewAuthorization _) as [[? ?] ?]. bool_hyps. done. }
  destruct (valid_resolution e Hev Hi) as [(x & Hx) (y & Hy)]; [destruct Hset as [Hs|Hs]; rewrite Hs; intros Hz; discriminate Hz|].
  rewrite Hx, Hy in *. simpl in Hrs. apply negb_false_iff, andb_true_iff in Hrs as [H1 H2]. unfold text_is in *. simpl in *.
  by apply bool_decide_eq_true in H1 as ->, H2 as ->.
Qed.

(** ** Holding for review *)

Lemma reviewAuthorization_pointers r :
  reviewAuthorizationPointers r
  = let '(kind, attemptID, operationID) := reviewAuthorization r in
    if bool_decide (kind = AuthorizationKindReconcile) then (kind, None, None) else (kind, Some attemptID, Some operationID).
Proof. done. Qed.

(** The pointers the authority writes are those a matching outcome has. *)
Lemma pointers_match o r kind attemptID operationID :
  OutcomeRecord_Validate o = None → reviewAuthorization r = (kind, attemptID, operationID) →
  o.(oc_AuthorizationKind) = kind → optionalString o.(oc_AttemptID) = attemptID →
  optionalString o.(oc_OperationID) = operationID →
  reviewAuthorizationPointers r = (kind, o.(oc_AttemptID), o.(oc_OperationID)).
Proof.
  intros Hv Hr Hk Ha Hop. rewrite reviewAuthorization_pointers, Hr. pose proof (valid_authorization o Hv) as [Ha' Hop'].
  apply valid_parts in Hv as (_ & _ & Hkv & Hauth & _). unfold validateOutcomeAuthorization in Hauth. rewrite Hk in *.
  unfold AuthorizationKind_Valid in Hkv. destruct (bool_decide (kind = AuthorizationKindOperation)) eqn:H1.
  - apply bool_decide_eq_true in H1 as ->. rewrite bool_decide_false by done. apply when_None, negb_false_iff in Hauth.
    unfold valid_text in Hauth. destruct (oc_AttemptID o) as [x|], (oc_OperationID o) as [y|]; simpl in *;
      rewrite ?andb_false_r in Hauth; simpl in Hauth; try done. by subst.
  - simpl in Hkv. rewrite Hkv in *. apply when_None, orb_false_iff in Hauth as [[? ?]%orb_false_iff _].
    by destruct (oc_AttemptID o), (oc_OperationID o).
Qed.

Lemma heldOutcome_Ok b c digest r existing next :
  heldOutcome b c digest (reservationSettlementSnapshot r) existing = Ok next →
  outcome_of next b ∧ mirrors next r ∧ r.(cr_Status) = StatusReviewHold
  ∧ (∀ prev, existing = Some prev → OutcomeRecord_Validate prev = None → outcome_of prev b →
       reviewOutcomeMatches prev b c digest = true →
       outcome_identity next = outcome_identity prev ∧ next.(oc_CreatedAt) = prev.(oc_CreatedAt)).
Proof.
  intros E. unfold heldOutcome in E. cbn [ss_Status ss_HoldReviewID ss_HoldSettlementKey ss_HoldRequestDigest reservationSettlementSnapshot] in E.
  destruct (bool_decide (cr_Status r = StatusReviewHold) && _ && _ && _) eqn:Hg; [|done].
  apply andb_true_iff in Hg as [[[H1 H2]%andb_true_iff H3]%andb_true_iff H4].
  apply bool_decide_eq_true in H1, H2, H3, H4.
  destruct (snapshotTime _) as [t|] eqn:Ht; [|done].
  assert (Htime : cr_StateChangedAt r = Some t ∧ IsZero t = false).
  { unfold snapshotTime in Ht. simpl in Ht. destruct (cr_StateChangedAt r) as [x|]; [|done].
    destruct (IsZero x) eqn:Hz; [done|]. injection Ht as <-. done. }
  destruct (reviewAuthorizationPointers (hold_Review c)) as [[kind attemptID] operationID] eqn:Hp.
  cbv zeta in E. destruct (OutcomeRecord_Validate _); [done|]. injection E as <-.
  split; [done|]. split; [split; [done|apply Htime|apply Htime|apply pj_held; simpl; congruence]|]. split; [done|].
  intros prev -> Hv Hoc Hmt. split; [|done]. unfold reviewOutcomeMatches in Hmt.
  destruct (reviewAuthorization (hold_Review c)) as [[kind' a'] op'] eqn:Hra.
  repeat match type of Hmt with _ && _ = true => let H := fresh "M" in apply andb_true_iff in Hmt as [Hmt H] end.
  repeat match goal with
  | H : bool_decide _ = true |- _ => apply bool_decide_eq_true in H
  | H : (_ =? _) = true |- _ => apply Z.eqb_eq in H
  | H : text_is ?o _ = true |- _ => unfold text_is in H; destruct o eqn:?; [simpl in H|done]
  end.
  rewrite (pointers_match prev _ kind' a' op') in Hp by done. injection Hp as <- <- <-.
  pose proof (valid_parts prev Hv) as (Hid & _). destruct Hoc as (? & ? & ? & ? & ?).
  unfold outcome_identity. cbn [with_outcome_digest outcome_with oc_OutcomeID oc_BindingID oc_TurnID oc_ReservationID
    oc_BindingDigest oc_SettlementKey oc_LedgerRequestDigest oc_AuthorizationKind oc_AttemptID oc_FencingToken oc_OperationID
    oc_TerminalStatus oc_RequestedIntent oc_ReservedUnits oc_ReviewID oc_ReviewRequestDigest].
  repeat f_equal; congruence.
Qed.

Lemma hold_plan_sound env k st c p :
  billing_ok st → hold_plan env k st c = Ok p →
  ∃ b, b.(bd_TurnID) = c.(hold_Review).(rv_TurnID) ∧ outcome_plan_ok st b p.
Proof.
  intros Hok E. unfold hold_plan in E. destruct (SettlementReviewHoldCommand_Validate c); [done|].
  destruct (lockTurnOwner env k _) as [turn|]; [|done]. destruct (_ && _); [|done].
  destruct (verifyReviewOwner env k _ _) as [[]|]; [|done].
  destruct (lockExactBinding env st _ _) as [b|] eqn:Eb; [|done]. apply lockExactBinding_Ok in Eb as (Hb & Hbt & _).
  destruct (lockOutcomeByTurn env st _) as [existing|] eqn:Eo; [|done].
  destruct (match existing with Some e => reviewOutcomeMatches e b c _ | None => true end) eqn:Hmt; [|done].
  destruct (snapshot_call env 0 st b) as [before|]; [|done]. destruct (snapshotMatchesBinding b before); [done|].
  destruct (is_set existing || _); [|done].
  destruct (on_ledger st _) as [[s st1]|] eqn:Ec; [|done]. apply hold_call in Ec; [|done].
  destruct (heldOutcome b c _ s existing) as [next|] eqn:En; [|done]. injection E as <-. exists b. split; [done|].
  pose proof Ec as [Hst Hm (r & Hr & Hid & ->)].
  destruct (bo_bindings st Hok b Hb) as (_ & r0 & Hr0 & Hb0).
  destruct (moved_row st b _ r r0 Hok Hm Hr0 Hb0 Hr Hid) as [_ Hbr].
  apply heldOutcome_Ok in En as (Hoc & Hmir & Hheld & Hprev). split; simpl; try done; [by exists r| |].
  - destruct existing as [e|]; [|apply lockOutcome_None in Eo; congruence].
    apply lockOutcome_Some in Eo as (He & Het & Hev). split; [done|]. apply Hprev; try done.
    apply (outcome_binding st); try done. congruence.
  - intros prev -> Hset. exfalso. apply lockOutcome_Some in Eo as (He & Het & Hev).
    destruct (mirror_row st b prev Hok Hb He ltac:(congruence)) as (x & Hx & Hbx & Hmx).
    destruct (moved_row st b _ r x Hok Hm Hx Hbx Hr Hid) as [Hmv _].
    apply (settled_frozen st prev x r Hok Hx Hset Hmx) in Hmv as ->.
    destruct Hset as [Hs|Hs], Hmx as [_ _ _ [H1 H2|? H1 H2|H1 H2|H1 H2]]; rewrite H1 in Hs; try discriminate Hs;
      rewrite Hheld in H2; discriminate H2.
Qed.
