(* ===== verification/BillingRuns.v ===== *)
(** * Histories of the agent billing

    [billing_step] is one transaction of the authority that commits, or a
    transaction of the credit services on reservations that are not bound to a
    Turn.  The invariant [billing_ok] holds along every history. *)

From Stdlib Require Import Ascii.
From stdpp Require Import sorting.
From S2P Require Import Prelude GoText GoDigest GoTime AgentContract TurnTypes ExecutionTypes Settlement ProviderUsage SettlementUsage SqlDatabase BillingTypes CreditTables SubscriptionCycle CreditsPack ProjectBudget CreditReservation CreditChecks CreditPackFacts CreditRefundFacts CreditLedgerFacts CreditOperationFacts CreditReserveFacts CreditRuns AgentBilling BillingFacts.

(** The outcome the operation writes differs from the one it replaces whenever
    their digests differ, and the other way round: the two rows of one Turn are
    no collision of SHA-256. *)
Inductive billing_step (st : BillingState) : BillingState → Prop :=
| bs_bind env authority turn st' : ReserveAndBindTurn env authority st turn = Ok st' → billing_step st st'
| bs_settle env k c st' : Settle env k st c = Ok st' →
    (∀ p, settle_plan env k st c = Ok (Some p) → honest p) → billing_step st st'
| bs_hold env k c st' : billingHoldForReview env k st c = Ok st' →
    (∀ p, hold_plan env k st c = Ok p → honest p) → billing_step st st'
| bs_resolve env k c receipt st' : ResolveReview env k st c = Ok (receipt, st') →
    (∀ b p, resolve_plan env k st c = Ok (b, p) → honest p) → billing_step st st'
| bs_pending env k principalID turnID o st' : ReconcilePending env k st principalID turnID = Ok (o, st') →
    (∀ p, pending_plan env k st principalID turnID = Ok (o, Some p) → honest p) → billing_step st st'
| bs_ledger db' : ledger_step st.(bl_ledger) db' → db'.(lg_bound) = st.(bl_ledger).(lg_bound) →
    (∀ r, r ∈ rows_of st → r.(cr_Id) ∈ st.(bl_ledger).(lg_bound) → r ∈ db'.(lg_reservations)) →
    billing_step st (with_ledger st db').

Definition billing_reachable (st : BillingState) : Prop := rtc billing_step empty_billing st.

(** ** Admission *)

(** A binding is inserted for a row that is reserved and not bound yet. *)
Lemma bound_ok st db' b r :
  billing_ok st → ledger_frame (λ _, True) st db' → r ∈ db'.(lg_reservations) → binds b r →
  r.(cr_Status) = StatusReserved → BindingRecord_Validate b = None →
  b.(bd_TurnID) ∉ map bd_TurnID (bindings_of st) → b.(bd_ReservationID) ∉ map bd_ReservationID (bindings_of st) →
  billing_ok (insert_binding (with_ledger st db') b).
Proof.
  intros Hok Hf Hr Hbr Hres Hv Hnt Hnr.
  assert (Hbs : bindings_of (insert_binding (with_ledger st db') b) = bindings_of st ++ [b])
    by (unfold bindings_of; simpl; by rewrite map_app).
  split; rewrite ?Hbs; simpl; try apply Hok.
  - eapply outside_ok; [apply Hf|]. split; try done. simpl. exists db'.(lg_projects), [].
    rewrite app_nil_r. split_and!; [done|done|constructor|constructor].
  - apply Hf.
  - rewrite (lf_bound _ _ _ Hf), (bo_bound st Hok), map_app. done.
  - rewrite map_app. apply NoDup_app. split_and!; [apply Hok| |apply NoDup_singleton].
    by intros t Ht ->%list_elem_of_singleton.
  - rewrite map_app. apply NoDup_app. split_and!; [apply Hok| |apply NoDup_singleton].
    by intros t Ht ->%list_elem_of_singleton.
  - intros x [Hx| ->%list_elem_of_singleton]%elem_of_app; [|split; [done|by exists r]].
    destruct (bo_bindings st Hok x Hx) as (? & y & Hy & Hxy). split; [done|]. exists y.
    split; [by apply (lf_kept _ _ _ Hf)|done].
  - intros o Ho. destruct (bo_outcomes st Hok o Ho) as (x & y & Hx & Hox & Hy & Hxy & Hm).
    exists x, y. split_and!; try done; [apply elem_of_app; by left|by apply (lf_kept _ _ _ Hf)].
  - intros x y [Hx| ->%list_elem_of_singleton]%elem_of_app Hy Hxy Hno.
    + destruct (bo_bindings st Hok x Hx) as (_ & y0 & Hy0 & Hxy0).
      pose proof (proj1 (binds_columns x y0) Hxy0) as (_ & Hid0 & _).
      pose proof (proj1 (binds_columns x y) Hxy) as (_ & Hid & _).
      pose proof (lf_kept _ _ _ Hf y0 Hy0 I) as Hk.
      assert (y = y0) as -> by (apply (keyed_unique cr_Id (lg_reservations db')); [apply Hf|done|done|congruence]).
      by apply (bo_open st Hok x).
    + pose proof (proj1 (binds_columns b y) Hxy) as (_ & Hid & _).
      pose proof (proj1 (binds_columns b r) Hbr) as (_ & Hid' & _).
      assert (y = r) as -> by (apply (keyed_unique cr_Id (lg_reservations db')); [apply Hf|done|done|congruence]). done.
Qed.

Lemma granted_bound db db' : granted db db' → db'.(lg_bound) = db.(lg_bound).
Proof. by destruct 1. Qed.

Lemma bind_ok env authority st turn st' :
  billing_ok st → ReserveAndBindTurn env authority st turn = Ok st' →
  billing_ok st' ∧ st'.(bl_outcomes) = st.(bl_outcomes).
Proof.
  intros Hok E. unfold ReserveAndBindTurn in E. destruct (_ && _); [|done].
  destruct (lockBindingByTurn env st _) as [bound|] eqn:El; [|done]. destruct bound; [done|]. apply lockBinding_None in El.
  unfold on_ledger in E. destruct (Reserve (be_call env 0) _ _) as [[res db']|] eqn:Er; [|done].
  destruct (rr_Created res) eqn:Hc; [|done]. destruct (bool_decide _); [|done]. cbv zeta in E.
  match type of E with context [BindingRecord_Validate ?b] => set (record := b) in E end.
  destruct (BindingRecord_Validate record) eqn:Hv; [done|]. destruct (be_fault env BsInsertBinding); [done|].
  destruct (existsb _ _) eqn:Hex; [done|].
  destruct (verifyBindingReservation env _ record false) as [[]|] eqn:Evb; [|done]. injection E as <-. split; [|done].
  assert (Hstep : ledger_step (bl_ledger st) db') by by eapply ls_reserve.
  pose proof (bo_ledger st Hok) as Hl.
  apply Reserve_spec in Er as (d & _ & _ & [(? & _)|(_ & _ & now & dbe & l & _ & Hg & Hnew & Ere & _ & -> & Hok')]);
    [congruence| |done].
  set (r := rr_Reservation res) in *.
  assert (Hr : r ∈ lg_reservations (admitted dbe r l)) by (simpl; apply elem_of_app; right; by left).
  apply (bound_ok st _ record r); try done.
  - split; [done| | | |].
    + eapply stamped_from; [done|apply Hok|by apply ledger_step_from].
    + simpl. by apply granted_bound.
    + by apply ledger_step_rows.
    + intros x Hx _. simpl. rewrite Ere. apply elem_of_app. by left.
  - unfold verifyBindingReservation in Evb. destruct (LockSettlementSnapshot _ _ _) as [s|] eqn:Es; [|done].
    apply snapshot_row in Es as (x & Hx & Hid & ->). destruct (snapshotMatchesBinding _ _) eqn:Hm; [done|].
    assert (x = r) as ->; [|done]. apply (keyed_unique cr_Id (lg_reservations (admitted dbe r l))); [apply Hok'|done|done|done].
  - rewrite Hnew. done.
  - intros (x & He & (row & -> & Hrow)%list_elem_of_fmap)%list_elem_of_fmap.
    rewrite (proj2 (existsb_exists _ _)) in Hex; [done|]. exists row. split; [by apply list_elem_of_In|].
    apply orb_true_iff. right. by apply Z.eqb_eq.
Qed.

(** ** Other transactions of the credit services *)

Lemma frame_ok st db' :
  billing_ok st → ledger_frame (λ i, i ∈ st.(bl_ledger).(lg_bound)) st db' → billing_ok (with_ledger st db').
Proof.
  intros Hok Hf. assert (Hkeep : ∀ b r, b ∈ bindings_of st → r ∈ rows_of st → binds b r → r ∈ db'.(lg_reservations)).
  { intros b r Hb Hr Hbr. apply (lf_kept _ _ _ Hf); [done|]. rewrite (bo_bound st Hok).
    pose proof (proj1 (binds_columns b r) Hbr) as (_ & -> & _). by apply list_elem_of_fmap_2. }
  split; try apply Hok; simpl; try apply Hf.
  - rewrite (lf_bound _ _ _ Hf). apply Hok.
  - intros b Hb. destruct (bo_bindings st Hok b Hb) as (? & r & Hr & Hbr). split; [done|]. exists r. split; [|done].
    by apply (Hkeep b).
  - intros o Ho. destruct (bo_outcomes st Hok o Ho) as (b & r & Hb & Hoc & Hr & Hbr & Hm). exists b, r.
    split_and!; try done. by apply (Hkeep b).
  - intros b r Hb Hr Hbr Hno. destruct (bo_bindings st Hok b Hb) as (_ & r0 & Hr0 & Hbr0).
    pose proof (Hkeep b r0 Hb Hr0 Hbr0) as Hk. pose proof (proj1 (binds_columns b r0) Hbr0) as (_ & Hid0 & _).
    pose proof (proj1 (binds_columns b r) Hbr) as (_ & Hid & _).
    assert (r = r0) as -> by (apply (keyed_unique cr_Id (lg_reservations db')); [apply Hf|done|done|congruence]).
    by apply (bo_open st Hok b).
Qed.

(** The sweeper is such a transaction: its scan leaves bound reservations out. *)
Lemma sweep_spares_bound env st candidate cutoff outcome db' :
  billing_ok st → candidate.(cr_Id) ∉ st.(bl_ledger).(lg_bound) →
  sweep_body env st.(bl_ledger) candidate cutoff = Ok (outcome, db') → billing_step st (with_ledger st db').
Proof.
  intros Hok Hnot E. apply bs_ledger; [by eapply ls_sweep| |].
  - apply sweep_moves in E as [Hm _]; [|apply Hok]. apply (lf_bound _ _ _ (moves_frame _ _ _ Hok Hm)).
  - intros r Hr Hb. apply sweep_moves in E as [Hm _]; [|apply Hok].
    apply (lf_kept _ _ _ (moves_frame _ _ _ Hok Hm)); [done|]. congruence.
Qed.

(** ** Plans of a step *)

(** A step either persists a sound plan, or leaves the outcomes alone. *)
Lemma billing_step_plan st st' :
  billing_ok st → billing_step st st' →
  (billing_ok st' ∧ st'.(bl_outcomes) = st.(bl_outcomes))
  ∨ ∃ env b p, outcome_plan_ok st b p ∧ honest p ∧ persist_plan env p = Ok st'.
Proof.
  intros Hok. destruct 1 as [env a t st' E|env k c st' E Hh|env k c st' E Hh|env k c rc st' E Hh|env k pr t o st' E Hh|db' Hl Hb Hk].
  - left. by eapply bind_ok.
  - unfold Settle in E. destruct (settle_plan env k st c) as [[p|]|] eqn:Ep; [|injection E as <-; by left|done].
    right. destruct (settle_plan_sound _ _ _ _ _ Hok Ep) as (b & _ & Hp). exists env, b, p. eauto.
  - unfold billingHoldForReview in E. destruct (hold_plan env k st c) as [p|] eqn:Ep; [|done].
    right. destruct (hold_plan_sound _ _ _ _ _ Hok Ep) as (b & _ & Hp). exists env, b, p. eauto.
  - unfold ResolveReview in E. destruct (resolve_plan env k st c) as [[b p]|] eqn:Ep; [|done].
    destruct (persist_plan env p) as [st1|] eqn:E1; [|done]. injection E as <- <-.
    right. destruct (resolve_plan_sound _ _ _ _ _ _ Hok Ep) as (_ & Hp). exists env, b, p. eauto.
  - unfold ReconcilePending in E. destruct (pending_plan env k st pr t) as [[o' [p|]]|] eqn:Ep; [|injection E as <- <-; by left|done].
    destruct (persist_plan env p) as [st1|] eqn:E1; [|done]. injection E as <- <-.
    right. destruct (pending_plan_sound _ _ _ _ _ _ _ Hok Ep) as (_ & b & _ & Hp). exists env, b, p. eauto.
  - left. split; [|done]. apply frame_ok; [done|]. pose proof (bo_ledger st Hok) as Hlo. split; [| |done| |].
    + by eapply ledger_step_ok.
    + eapply stamped_from; [done|apply Hok|by apply ledger_step_from].
    + by apply ledger_step_rows.
    + intros r Hr Hin. by apply Hk.
Qed.

Lemma billing_step_ok st st' : billing_ok st → billing_step st st' → billing_ok st'.
Proof.
  intros Hok H. destruct (billing_step_plan st st' Hok H) as [[? _]|(env & b & p & Hp & Hh & E)]; [done|].
  by eapply persist_ok.
Qed.

Lemma billing_steps_ok st st' : billing_ok st → rtc billing_step st st' → billing_ok st'.
Proof. intros Hok H. induction H; eauto using billing_step_ok. Qed.

Lemma billing_reachable_ok st : billing_reachable st → billing_ok st.
Proof. apply billing_steps_ok, empty_billing_ok. Qed.

(** ** Outcomes along a history *)

(** What may happen to an outcome: its identity and amount stay, a queued refund
    ends in its target, and a settled outcome does not change at all. *)
Record outcome_later (o o' : OutcomeRecord) : Prop := {
  ol_identity : outcome_identity o' = outcome_identity o;
  ol_settled : settled_outcome o → o' = o;
  ol_used : ∀ used, o.(oc_UsedUnits) = Some used → o'.(oc_UsedUnits) = Some used;
  ol_target : ∀ target, o.(oc_RefundTarget) = Some target →
    o'.(oc_Status) = target ∨ (o'.(oc_Status) = OutcomeStatusRefundPending ∧ o'.(oc_RefundTarget) = Some target) }.

Lemma target_pending o r target :
  OutcomeRecord_Validate o = None → mirrors o r → o.(oc_RefundTarget) = Some target → o.(oc_Status) = OutcomeStatusRefundPending.
Proof.
  intros (_ & _ & _ & _ & _ & Hst & _)%valid_parts [_ _ _ [H1|? H1|H1 _ _ H2|H1 _ _ _ H2]] Ht; [|done|congruence|congruence].
  unfold validateOutcomeStatus in Hst. rewrite H1, Ht in Hst. simpl in Hst. apply when_None in Hst.
  by rewrite orb_true_r in Hst.
Qed.

(** Two outcomes of one Turn that show the same settled row. *)
Lemma settled_same prev next r :
  OutcomeRecord_Validate prev = None → OutcomeRecord_Validate next = None → settled_outcome prev →
  mirrors prev r → mirrors next r → outcome_identity next = outcome_identity prev →
  next.(oc_CreatedAt) = prev.(oc_CreatedAt) → next.(oc_ResolutionID) = prev.(oc_ResolutionID) →
  next.(oc_ResolutionRequestDigest) = prev.(oc_ResolutionRequestDigest) → next = prev.
Proof.
  intros (_ & Hd & _)%valid_parts (_ & Hd' & _)%valid_parts Hset [Hv Hc _ Hp] [Hv' Hc' _ Hp'] Hid Hcr Hr1 Hr2.
  assert (Hall : oc_Status next = oc_Status prev ∧ oc_UsedUnits next = oc_UsedUnits prev
                 ∧ oc_RefundTarget next = oc_RefundTarget prev ∧ oc_RefundDue next = oc_RefundDue prev).
  { destruct Hset as [Hs|Hs], Hp as [H1 H2|? H1 H2|H1 H2|H1 H2]; rewrite H1 in Hs; try discriminate Hs;
      destruct Hp' as [H1' H2'|? H1' H2'|H1' H2'|H1' H2']; rewrite H2 in H2'; try discriminate H2'; split_and!; congruence. }
  destruct Hall as (? & ? & ? & ?). assert (oc_UpdatedAt next = oc_UpdatedAt prev) by congruence.
  assert (oc_ReservationStateVersion next = oc_ReservationStateVersion prev) by congruence.
  unfold outcome_identity in Hid. injection Hid. intros.
  assert (outcome_fields next = outcome_fields prev) as Hf by (unfold outcome_fields; congruence).
  assert (oc_OutcomeDigest next = oc_OutcomeDigest prev) by (rewrite Hd, Hd'; unfold outcomeRecordDigest; by rewrite Hf).
  clear Hd Hd' Hf Hv Hv' Hc Hc' Hp Hp' Hset Hid. destruct next, prev. simpl in *. by subst.
Qed.

(** A queued refund in the outcome after moves of its row. *)
Lemma pending_later prev next r r' :
  reservation_ok r → mirrors prev r → prev.(oc_Status) = OutcomeStatusRefundPending → rtc row_move r r' →
  mirrors next r' →
  next.(oc_UsedUnits) = prev.(oc_UsedUnits)
  ∧ ∀ target, prev.(oc_RefundTarget) = Some target →
      next.(oc_Status) = target ∨ (next.(oc_Status) = OutcomeStatusRefundPending ∧ next.(oc_RefundTarget) = Some target).
Proof.
  intros Hok [_ _ _ Hp] Hs Hm [_ _ _ Hp'].
  destruct Hp as [H1|used H1 H2 H3 H4 H5 _ H6|H1|H1]; rewrite Hs in H1; try discriminate H1.
  pose proof (pending_frozen r r' used Hok H2 H4 Hm) as Hset. rewrite H3, H5.
  destruct Hset as [[Hx Hy]|(Hx & Hy & Hz)].
  - destruct H6 as [H6|[H6 H7]]; rewrite H6 in *;
      destruct Hp' as [G1 G2|? G1 G2|G1 G2|G1 G2]; rewrite Hx in G2; try discriminate G2;
      (split; [congruence|]; intros target [= <-]; left; by rewrite G1).
  - destruct Hp' as [G1 G2|? G1 G2 G3 G4 G5|G1 G2|G1 G2]; rewrite Hx in G2; try discriminate G2.
    split; [congruence|]. intros target [= <-]. right. split; congruence.
Qed.

#[export] Instance settled_outcome_dec o : Decision (settled_outcome o).
Proof. unfold settled_outcome. apply _. Defined.

(** What persisting a plan does to an outcome: it stays, or the next one takes its
    place. *)
Lemma persist_replaces env st b p st' :
  billing_ok st → outcome_plan_ok st b p → honest p → persist_plan env p = Ok st' →
  ∀ o, o ∈ outcomes_of st → o ∈ outcomes_of st' ∨ (p.(op_previous) = Some o ∧ p.(op_next) ∈ outcomes_of st').
Proof.
  intros Hok [Hb Hst Hm _ Hoc Hprev _] Hh E o Ho. unfold persist_plan, persistOutcome in E.
  destruct p as [st1 next prev]. simpl in *. destruct (OutcomeRecord_Validate next); [done|].
  assert (Ho1 : bl_outcomes st1 = bl_outcomes st) by by rewrite Hst.
  destruct prev as [prev|].
  - destruct Hprev as (Hpin & Hident & Hcreated). destruct (bool_decide (oc_OutcomeID next = oc_OutcomeID prev) && _).
    { injection E as <-. left. unfold outcomes_of. by rewrite Ho1. }
    destruct (be_fault env BsUpdateOutcome); [done|].
    match type of E with context [affected ?m _] => set (matches := m) in E end.
    destruct (Z.eqb_spec (affected matches (bl_outcomes st1)) 1) as [Haff|]; [|done]. injection E as <-.
    unfold outcomes_of. simpl. rewrite Ho1 in *.
    rewrite (update_one matches _ (update_outcome next) _ prev); [|done|done| |done].
    + rewrite update_outcome_same by done. destruct (decide (o = prev)) as [->|Hne].
      * right. split; [done|]. apply list_elem_of_fmap. exists prev. by rewrite decide_True.
      * left. apply list_elem_of_fmap. exists o. by rewrite decide_False.
    + intros x Hx. unfold matches. rewrite Hx. by rewrite !bool_decide_true.
  - destruct (be_fault env BsInsertOutcome); [done|]. destruct (existsb _ _); [done|]. injection E as <-.
    left. unfold outcomes_of. simpl. rewrite map_app, Ho1. apply elem_of_app. by left.
Qed.

Lemma plan_later env st b p st' o :
  billing_ok st → outcome_plan_ok st b p → honest p → persist_plan env p = Ok st' → o ∈ outcomes_of st →
  ∃ o', o' ∈ outcomes_of st' ∧ outcome_later o o'.
Proof.
  intros Hok Hp Hh E Ho. pose proof (persist_ok env st b p st' Hok Hp Hh E) as Hok'.
  destruct (bo_outcomes st Hok o Ho) as (b0 & r & Hb0 & Hoc0 & Hr & Hbr & Hmir).
  pose proof (bo_valid st Hok o Ho) as Hval.
  assert (Hrefl : outcome_later o o) by (split; [done|done|done|]; intros; right; split; [by eapply target_pending|done]).
  destruct (persist_replaces env st b p st' Hok Hp Hh E o Ho) as [Hsame|(Hprev & Hnext)]; [by exists o|].
  exists p.(op_next). split; [done|]. destruct Hp as [Hb Hst Hm (r' & Hr' & Hbr' & Hmir') Hoc Hpv Hres]. rewrite Hprev in Hpv.
  destruct Hpv as (_ & Hid & Hcr).
  assert (b0 = b) as -> by (apply (binding_unique st); try done; destruct Hoc0 as (_ & ? & _), Hoc as (_ & ? & _);
    unfold outcome_identity in Hid; injection Hid; congruence).
  pose proof (proj1 (binds_columns b r') Hbr') as (_ & Hid' & _).
  destruct (moved_row st b _ r' r Hok Hm Hr Hbr Hr' Hid') as [Hmv _].
  pose proof (lo_rows _ (bo_ledger st Hok) r Hr) as Hrow. split; [done| | |].
  - intros Hset. apply (settled_frozen st o r r' Hok Hr Hset Hmir) in Hmv as ->. destruct (Hres o Hprev Hset).
    by apply (settled_same o p.(op_next) r); [|apply (bo_valid st' Hok')|..].
  - intros used Hu. destruct (decide (settled_outcome o)) as [Hset|Hns].
    + apply (settled_frozen st o r r' Hok Hr Hset Hmir) in Hmv as ->. destruct (Hres o Hprev Hset).
      by rewrite (settled_same o p.(op_next) r); [|done|apply (bo_valid st' Hok')|..].
    + rewrite <- Hu. destruct (pending_later o p.(op_next) r r' Hrow Hmir) as [? _]; try done.
      destruct Hmir as [_ _ _ [H1 _ _ _ _ H2|? H1|H1|H1]]; [congruence|done| |]; destruct Hns; [by left|by right].
  - intros target Ht. apply (pending_later o p.(op_next) r r' Hrow Hmir); try done. by eapply target_pending.
Qed.

Lemma step_later st st' o :
  billing_ok st → billing_step st st' → o ∈ outcomes_of st → ∃ o', o' ∈ outcomes_of st' ∧ outcome_later o o'.
Proof.
  intros Hok Hs Ho. destruct (billing_step_plan st st' Hok Hs) as [[_ He]|(env & b & p & Hp & Hh & E)]; [|by eapply plan_later].
  exists o. unfold outcomes_of. rewrite He. split; [done|]. split; [done|done|done|]. intros target Ht. right. split; [|done].
  destruct (bo_outcomes st Hok o Ho) as (_ & r & _ & _ & _ & _ & Hm). by eapply target_pending; [apply (bo_valid st Hok)|..].
Qed.

(** The target of a queued refund is a settled status. *)
Lemma target_settled o target :
  OutcomeRecord_Validate o = None → o.(oc_Status) = OutcomeStatusRefundPending → o.(oc_RefundTarget) = Some target →
  target = OutcomeStatusFinalized ∨ target = OutcomeStatusReleased.
Proof.
  intros (_ & _ & _ & _ & _ & Hst & _)%valid_parts Hp Ht. unfold validateOutcomeStatus in Hst. rewrite Hp, Ht in Hst.
  simpl in Hst. apply when_None, orb_false_iff in Hst as [[_ Hst]%orb_false_iff _]. apply negb_false_iff in Hst.
  unfold text_is in Hst. simpl in Hst. apply orb_true_iff in Hst as [H|H]; apply bool_decide_eq_true in H; auto.
Qed.

Lemma later_trans st o1 o2 o3 :
  billing_ok st → o1 ∈ outcomes_of st → outcome_later o1 o2 → outcome_later o2 o3 → outcome_later o1 o3.
Proof.
  intros Hok Ho [Hi Hs Hu Ht] [Hi' Hs' Hu' Ht']. split; [congruence| |auto|].
  - intros Hset. rewrite <- (Hs Hset). apply Hs'. by rewrite (Hs Hset).
  - intros target Hta. destruct (Ht target Hta) as [H|[_ H]]; [|by apply Ht'].
    left. rewrite Hs'; [done|]. destruct (bo_outcomes st Hok o1 Ho) as (_ & r & _ & _ & _ & _ & Hm).
    pose proof (bo_valid st Hok o1 Ho) as Hv. pose proof (target_pending o1 r target Hv Hm Hta) as Hp.
    destruct (target_settled o1 target Hv Hp Hta) as [->| ->]; [by left|by right].
Qed.

Lemma steps_later st st' o :
  billing_ok st → rtc billing_step st st' → o ∈ outcomes_of st → ∃ o', o' ∈ outcomes_of st' ∧ outcome_later o o'.
Proof.
  intros Hok H. revert o. induction H as [st|st st1 st2 Hs _ IH]; intros o Ho.
  - exists o. split; [done|]. destruct (bo_outcomes st Hok o Ho) as (_ & r & _ & _ & _ & _ & Hm).
    split; [done|done|done|]. intros target Ht. right. split; [|done].
    by eapply target_pending; [apply (bo_valid st Hok)|..].
  - destruct (step_later st st1 o Hok Hs Ho) as (o1 & Ho1 & Hl1).
    destruct (IH (billing_step_ok st st1 Hok Hs) o1 Ho1) as (o2 & Ho2 & Hl2). exists o2. split; [done|].
    by eapply later_trans.
Qed.

(** ** A concrete history

    A Turn is admitted with a reservation of 60 credits and completes with 45
    used; the refund of the other 15 fails once and is completed by
    [ReconcilePending].  In another history the refund succeeds at once. *)

Definition billedTurn : Turn :=
  mkTurn "turn_1" "user-1" "thread-1" "key-1" "digest-1" (mkEventPluginRef "image" "1.0.0" "sha256:abc")
    TurnStatusQueued None creditClock creditClock None None.

(** The Turn row the authority reads. *)
Definition billedTables (status : string) : Database :=
  mkDatabase
    [mkSqlTurnRow 1 "turn_1" "user-1" "thread-1" "key-1" "digest-1" None status 2 None 1 None None None creditClock creditClock]
    [] [] [] [] noSettlement.

Definition billingEnv (call : ledger_env) (n : Z) : billing_env :=
  mkBillingEnv (λ _, call) (Ok (creditClock + n * second)) (λ _, None).

Definition billing0 : BillingState := mkBillingState creditLedger2 [] [].

Definition demoAdmission : ReservationAdmission :=
  mkReservationAdmission "user-1" demoRequest "sha256:0123456789abcdef0123456789abcdef0123456789abcdef0123456789abcdef".
Definition demoHook : reservationAdmissionAuthority :=
  Eval vm_compute in match Admission demoAdmission with Ok a => a | Err _ => mkReservationAuthority demoAdmission "" end.

Definition billing1 : BillingState :=
  Eval vm_compute in match ReserveAndBindTurn (billingEnv (calm 0) 0) demoHook billing0 billedTurn with
                     | Ok st => st | Err _ => billing0 end.
Lemma billing_bound : ReserveAndBindTurn (billingEnv (calm 0) 0) demoHook billing0 billedTurn = Ok billing1.
Proof. vm_compute. reflexivity. Qed.

Definition demoSettle : SettlementCommand :=
  Eval vm_compute in mkSettlementCommand "turn_1" "user-1" (settlementKey "turn_1" "operation-1")
    SettlementAuthorizationOperation "attempt-1" 1 "operation-1" SettlementIntentFinalize TurnStatusCompleted 45.

Definition billing2 : BillingState :=
  Eval vm_compute in match Settle (billingEnv (failing StLockProject 2) 2) (billedTables "completed") billing1 demoSettle with
                     | Ok st => st | Err _ => billing1 end.
Lemma billing_settled :
  Settle (billingEnv (failing StLockProject 2) 2) (billedTables "completed") billing1 demoSettle = Ok billing2.
Proof. vm_compute. reflexivity. Qed.

Definition billing3 : BillingState :=
  Eval vm_compute in match ReconcilePending (billingEnv (calm 63) 63) (billedTables "completed") billing2 "user-1" "turn_1" with
                     | Ok (_, st) => st | Err _ => billing2 end.
Definition demoReconciled : OutcomeRecord :=
  Eval vm_compute in match outcomes_of billing3 with o :: _ => o | [] => with_outcome_digest
    (mkOutcomeRecord "" "" "" 0 "" "" "" "" None 0 None "" "" None 0 "" None 0 0 None None None None "" 0 0) "" end.
Lemma billing_reconciled :
  ReconcilePending (billingEnv (calm 63) 63) (billedTables "completed") billing2 "user-1" "turn_1" = Ok (demoReconciled, billing3).
Proof. vm_compute. reflexivity. Qed.

Lemma billing_demo_values :
  (map oc_Status (outcomes_of billing2), map oc_UsedUnits (outcomes_of billing2), map cp_CreditsUsed billing2.(bl_ledger).(lg_packs),
   map oc_Status (outcomes_of billing3), map cp_CreditsUsed billing3.(bl_ledger).(lg_packs))
  = ([OutcomeStatusRefundPending], [Some 45], [20; 40], [OutcomeStatusFinalized], [5; 40]).
Proof. vm_compute. reflexivity. Qed.

(** A first outcome replaces none. *)
Lemma settle_first_honest env k st c :
  c.(sc_TurnID) ∉ map oc_TurnID (outcomes_of st) → ∀ p, settle_plan env k st c = Ok (Some p) → honest p.
Proof.
  intros Hno p (b & _ & _ & Hend)%settle_plan_fresh prev Hp; [|done]. inversion Hend; subst. discriminate Hp.
Qed.

Lemma billing_reach0 : billing_reachable billing0.
Proof.
  eapply rtc_l with (mkBillingState creditLedger0 [] []); [|eapply rtc_l with (mkBillingState creditLedger1 [] []); [|apply rtc_once]].
  - apply (bs_ledger empty_billing creditLedger0); [|done|intros r Hr; by apply not_elem_of_nil in Hr].
    apply ls_outside. split; try done. exists [], [demoProject]. split_and!; try done; [apply NoDup_singleton|].
    apply Forall_singleton. split_and!; try done. apply not_elem_of_nil.
  - apply (bs_ledger (mkBillingState creditLedger0 [] []) creditLedger1); [|done|intros r Hr; by apply not_elem_of_nil in Hr].
    apply (ls_create _ (calm 0) 7 CreditsSourcePurchase "order-1" 50 None ""). reflexivity.
  - apply (bs_ledger (mkBillingState creditLedger1 [] []) creditLedger2); [|done|intros r Hr; by apply not_elem_of_nil in Hr].
    apply (ls_create _ (calm 0) 7 CreditsSourceBonus "gift-1" 40 (Some (creditClock + 3600 * second)) "").
    vm_compute. reflexivity.
Qed.

Lemma billing_reach1 : billing_reachable billing1.
Proof. eapply rtc_r; [apply billing_reach0|]. eapply bs_bind, billing_bound. Qed.

Lemma billing_reach2 : billing_reachable billing2.
Proof.
  eapply rtc_r; [apply billing_reach1|]. eapply bs_settle; [apply billing_settled|]. apply settle_first_honest, not_elem_of_nil.
Qed.

Lemma billing_step3 : billing_step billing2 billing3.
Proof.
  eapply bs_pending; [apply billing_reconciled|]. intros p E prev Hp Hd. exfalso. vm_compute in E. injection E as <-.
  injection Hp as <-. vm_compute in Hd. discriminate Hd.
Qed.
