(* ===== verification/BillingTheorems.v ===== *)
(** * Agent billing: theorems

    Outcomes mirror reservations in every reachable state, are final, and are
    charged once; execution is authorized only while the reservation is live;
    the check of a stored outcome accepts exactly the outcomes that mirror their
    reservation. *)

From Stdlib Require Import Ascii.
From stdpp Require Import sorting.
From S2P Require Import Prelude GoText GoDigest GoTime AgentContract TurnTypes ExecutionTypes Settlement ProviderUsage SettlementUsage SqlDatabase BillingTypes CreditTables SubscriptionCycle CreditsPack ProjectBudget CreditReservation CreditChecks CreditPackFacts CreditRefundFacts CreditLedgerFacts CreditOperationFacts CreditReserveFacts CreditRuns AgentBilling BillingFacts BillingRuns CreditLedgerTheorems.

(** ** The drift check *)

(** Projecting a row into the outcome that mirrors it changes nothing. *)
Lemma project_mirror o b r :
  OutcomeRecord_Validate o = None → binds b r → mirrors o r → o.(oc_Status) ≠ OutcomeStatusReviewHeld →
  outcomeFromSnapshot b o (reservationSettlementSnapshot r) = Ok o.
Proof.
  intros Hv Hb [Hver Hch Hz Hp] Hns. pose proof (valid_created o Hv) as Hcr. pose proof (valid_parts o Hv) as (_ & Hd & _).
  unfold outcomeFromSnapshot. unfold binds in Hb. rewrite Hb.
  assert (Hso : ∃ used, oc_UsedUnits o = Some used
            ∧ snapshot_outcome (reservationSettlementSnapshot r) used = Ok (oc_Status o, oc_RefundTarget o, oc_RefundDue o)).
  { destruct Hp as [H1|used H1 H2 H3 H4 H5 H6 H7|H1 H2 H3 H4 H5|H1 H2 H3 H4 H5 H6]; [done|exists used|exists (cr_Used r)|exists 0];
      (split; [done|]); unfold snapshot_outcome; cbn [ss_Status ss_Used ss_RefundTargetUsed ss_RefundTargetStatus ss_RefundDue reservationSettlementSnapshot];
      rewrite H2.
    - cbn. rewrite H1, H4, H5, H6. rewrite (bool_decide_true (Some used = Some used)) by done. by destruct H7 as [->|[-> ->]].
    - cbn. rewrite Z.eqb_refl, H1, H4, H5. done.
    - cbn. rewrite H4, H1, H5, H6. done. }
  destruct Hso as (used & Hu & Hso). rewrite Hu, Hso. unfold snapshotTime. cbn [ss_StateChangedAt reservationSettlementSnapshot].
  rewrite Hch, Hz, Hcr. cbn [negb ss_StateVersion]. cbv zeta.
  assert (Ho : outcome_with o (Some used) (oc_Status o) (oc_RefundTarget o) (oc_RefundDue o) (cr_StateVersion r)
            (oc_ResolutionID o) (oc_ResolutionRequestDigest o) (oc_OutcomeDigest o) (oc_CreatedAt o) (oc_UpdatedAt o) = o)
    by (rewrite <- Hu, <- Hver; by destruct o).
  cbn [reservationSettlementSnapshot ss_StateVersion]. rewrite Ho, <- Hd.
  assert (Hw : with_outcome_digest o (oc_OutcomeDigest o) = o) by by destruct o.
  by rewrite Hw, Hv.
Qed.

(** The columns the check compares with what the row would project to. *)
Lemma projects_same want o r :
  OutcomeRecord_Validate o = None → projects want r → want.(oc_Status) = o.(oc_Status) →
  want.(oc_UsedUnits) = o.(oc_UsedUnits) → optionalString want.(oc_RefundTarget) = optionalString o.(oc_RefundTarget) →
  want.(oc_RefundDue) = o.(oc_RefundDue) → o.(oc_Status) ≠ OutcomeStatusReviewHeld → projects o r.
Proof.
  intros (_ & _ & _ & _ & _ & Hv & _)%valid_parts Hp Hs Hu Ht Hd Hns. unfold validateOutcomeStatus in Hv.
  destruct Hp as [H1|used H1 H2 H3 H4 H5 H6 H7|H1 H2 H3 H4 H5|H1 H2 H3 H4 H5 H6]; [congruence| | |];
    rewrite <- Hs, H1 in Hv; cbn in Hv; apply when_None in Hv.
  - apply (pj_pending _ _ used); try congruence. rewrite H5 in Ht. cbn in Ht.
    destruct (oc_RefundTarget o) as [x|]; cbn in Ht; [by subst|]. destruct H7 as [H7|[H7 _]]; rewrite H7 in Ht; discriminate Ht.
  - apply pj_finalized; try congruence. destruct (oc_RefundTarget o); [|done]. cbn in Hv. by rewrite orb_true_r in Hv.
  - apply pj_released; try congruence. destruct (oc_RefundTarget o); [|done]. cbn in Hv. by rewrite orb_true_r in Hv.
Qed.

(** The settlement times of a row the outcome mirrors. *)
Lemma mirror_times o r :
  reservation_ok r → stamped r → mirrors o r →
  (r.(cr_Status) = StatusFinalized → r.(cr_ReleasedAt) = None ∧ r.(cr_FinalizedAt) = Some o.(oc_UpdatedAt))
  ∧ (r.(cr_Status) = StatusReleased → r.(cr_FinalizedAt) = None ∧ r.(cr_ReleasedAt) = Some o.(oc_UpdatedAt))
  ∧ (r.(cr_Status) = StatusRefundPending → r.(cr_FinalizedAt) = None ∧ r.(cr_ReleasedAt) = None).
Proof.
  intros Hok [_ _ Hf Hr] [_ Hch _ _]. rewrite <- Hch. split_and!; intros Hs.
  - split; [|by apply Hf]. destruct (ro_state r Hok) as [? _ _ _ [_ ?]|? _ _ _ [_ ?]|? ? _ _ _ _ _ _ _ _ _ [_ ?]|_ _ _ _ _ Ht]; try done.
    destruct Ht as [(_ & _ & ?)|([?|?] & _)]; [done|clash|clash].
  - split; [|by apply Hr]. destruct (ro_state r Hok) as [? _ _ _ [? _]|? _ _ _ [? _]|? ? _ _ _ _ _ _ _ _ _ [? _]|_ _ _ _ _ Ht]; try done.
    destruct Ht as [(? & _)|(_ & ? & _)]; [clash|done].
  - destruct (ro_state r Hok) as [? _ _ _ ?|? _ _ _ ?|? ? _ _ _ _ _ _ _ _ _ ?|Hk]; try done. by rewrite Hs in Hk.
Qed.

Lemma verify_held o b r :
  o.(oc_Status) = OutcomeStatusReviewHeld → o.(oc_UsedUnits) = None → IsZero o.(oc_UpdatedAt) = false → stamped r →
  (verifyOutcomeSnapshot o b (reservationSettlementSnapshot r) = None ↔ binds b r ∧ mirrors o r).
Proof.
  intros Hs Hu Hz Hst. unfold verifyOutcomeSnapshot. rewrite Hs, bool_decide_true by done.
  rewrite first_error_None, !Forall_cons. fold (binds b r).
  rewrite when_None, negb_false_iff, !andb_true_iff, !bool_decide_eq_true, Z.eqb_eq. unfold text_is, holds_at.
  cbn [ss_Status ss_HoldReviewID ss_HoldSettlementKey ss_HoldRequestDigest ss_ReviewHeldAt ss_StateChangedAt ss_StateVersion
       reservationSettlementSnapshot]. split.
  - intros (Hb & (((((H1 & H2) & H3) & H4) & H5) & H6) & _). split; [done|].
    destruct (oc_ReviewID o) as [x|] eqn:Ex; [|done]. destruct (oc_ReviewRequestDigest o) as [y|] eqn:Ey; [|done].
    apply bool_decide_eq_true in H2, H4. subst x y.
    destruct (cr_ReviewHeldAt r); [|done]. destruct (cr_StateChangedAt r) as [c|] eqn:Ec; [|done].
    apply andb_true_iff in H5 as [_ H5]. apply Z.eqb_eq in H5. subst c.
    split; [done|done|done|]. apply pj_held; try done.
  - intros (Hb & [Hv Hc _ Hp]). destruct Hp as [_ H2 H3 H4 H5 _|? G1|G1|G1]; [|rewrite Hs in G1; discriminate G1..].
    split_and!; try done; rewrite ?H3, ?H5; try by apply bool_decide_eq_true.
    rewrite (sp_held r Hst H2), Hc. by rewrite !Z.eqb_refl.
Qed.

Lemma verify_projected o b r :
  OutcomeRecord_Validate o = None → o.(oc_Status) ≠ OutcomeStatusReviewHeld → reservation_ok r → stamped r →
  (verifyOutcomeSnapshot o b (reservationSettlementSnapshot r) = None ↔ binds b r ∧ mirrors o r).
Proof.
  intros Hv Hns Hok Hst. unfold verifyOutcomeSnapshot. rewrite bool_decide_false by done. split.
  - destruct (outcomeFromSnapshot b o _) as [want|] eqn:E; [|done].
    apply outcomeFromSnapshot_Ok in E as (Hb & _ & [Hver Hch Hz Hp] & _ & Hu & _).
    rewrite first_error_None, Forall_cons, when_None, negb_false_iff, !andb_true_iff, !bool_decide_eq_true, !Z.eqb_eq.
    intros (((((((H1 & H2) & H3) & H4) & H5) & H6) & H7) & _). split; [done|]. cbn in H7. rewrite Hch in H7. cbn in H7.
    apply Z.eqb_eq in H7. split; [congruence|congruence|by rewrite <- H7|]. by apply (projects_same want).
  - intros [Hb Hm]. rewrite (project_mirror o b r) by done. pose proof (mirror_times o r Hok Hst Hm) as (Hf & Hr & Hp).
    rewrite first_error_None, !Forall_cons, when_None, negb_false_iff, !andb_true_iff, !bool_decide_eq_true, !Z.eqb_eq.
    cbn [ss_Status ss_FinalizedAt ss_ReleasedAt ss_StateChangedAt reservationSettlementSnapshot].
    rewrite (mr_changed o r Hm). split_and!; try done; [by apply Z.eqb_eq|].
    case_bool_decide as G1; [destruct (Hf G1) as [-> ->]; cbn; by rewrite Z.eqb_refl|].
    case_bool_decide as G2; [destruct (Hr G2) as [-> ->]; cbn; by rewrite Z.eqb_refl|].
    case_bool_decide as G3; [by destruct (Hp G3) as [-> ->]|done].
Qed.

(** A held outcome has no amount. *)
Lemma held_unused o : OutcomeRecord_Validate o = None → o.(oc_Status) = OutcomeStatusReviewHeld → o.(oc_UsedUnits) = None.
Proof.
  intros (_ & _ & _ & _ & _ & Hv & _)%valid_parts Hs. unfold validateOutcomeStatus in Hv. rewrite Hs in Hv. cbn in Hv.
  apply when_None in Hv. by destruct (oc_UsedUnits o); [rewrite orb_true_r in Hv|].
Qed.

Lemma drift_check o b r :
  OutcomeRecord_Validate o = None → IsZero o.(oc_UpdatedAt) = false → reservation_ok r → stamped r →
  verifyOutcomeSnapshot o b (reservationSettlementSnapshot r) = None ↔ binds b r ∧ mirrors o r.
Proof.
  intros Hv Hz Hok Hst. destruct (decide (oc_Status o = OutcomeStatusReviewHeld)) as [Hs|Hs].
  - apply verify_held; try done. by apply held_unused.
  - by apply verify_projected.
Qed.


Definition demoBinding : BindingRecord :=
  Eval vm_compute in match bindings_of billing2 with b :: _ => b | [] => mkBindingRecord "" "" "" "" 0 0 "" "" 0 0 "" "" 0 end.
Definition pendingRow : CreditReservation :=
  Eval vm_compute in match rows_of billing2 with r :: _ => r | [] => creditRow end.
Definition pendingOutcome : OutcomeRecord :=
  Eval vm_compute in match outcomes_of billing2 with o :: _ => o | [] => demoReconciled end.

Lemma pending_row_in : pendingRow ∈ rows_of billing2.
Proof. vm_compute. left. Qed.


(** ** The projection in every reachable state *)

(** The credits an outcome says its Turn holds. *)
Definition turn_charge (o : OutcomeRecord) : Z :=
  if bool_decide (settled_outcome o) then default 0 o.(oc_UsedUnits) else o.(oc_ReservedUnits).

Lemma mirror_charge o b r : outcome_of o b → binds b r → mirrors o r → held_units r = turn_charge o.
Proof.
  intros (_ & _ & _ & _ & Hres) (_ & _ & _ & _ & _ & Hr & _)%binds_columns [_ _ _ Hp]. unfold turn_charge.
  destruct Hp as [H1 H2|u H1 H2|H1 H2 H3|H1 H2 H3 H4].
  - rewrite bool_decide_false by (intros [Hx|Hx]; rewrite H1 in Hx; discriminate Hx). rewrite active_held by auto. congruence.
  - rewrite bool_decide_false by (intros [Hx|Hx]; rewrite H1 in Hx; discriminate Hx). rewrite active_held by auto. congruence.
  - rewrite bool_decide_true by by left. rewrite closed_held by by rewrite H2. by rewrite H3.
  - rewrite bool_decide_true by by right. rewrite closed_held by by rewrite H2. by rewrite H3.
Qed.



(** C13: The commercial outcome of a Turn is final.  Along every history an outcome
    keeps its row and its identity (Turn, binding, reservation, settlement key,
    request, authorization, Review); an amount once written stays, a queued refund
    ends only in its recorded target, and a finalized or released outcome never
    changes in any column. *)
Theorem turn_outcome_final st st' o :
  billing_reachable st → rtc billing_step st st' → o ∈ outcomes_of st →
  ∃ o', o' ∈ outcomes_of st' ∧ outcome_identity o' = outcome_identity o
    ∧ (∀ x, x ∈ outcomes_of st' → x.(oc_TurnID) = o.(oc_TurnID) → x = o')
    ∧ (settled_outcome o → o' = o)
    ∧ (∀ used, o.(oc_UsedUnits) = Some used → o'.(oc_UsedUnits) = Some used)
    ∧ (∀ target, o.(oc_RefundTarget) = Some target →
         o'.(oc_Status) = target
         ∨ (o'.(oc_Status) = OutcomeStatusRefundPending ∧ o'.(oc_RefundTarget) = Some target)).
Proof.
  intros Hok%billing_reachable_ok Hs Ho. pose proof (billing_steps_ok st st' Hok Hs) as Hok'.
  destruct (steps_later st st' o Hok Hs Ho) as (o' & Ho' & [Hi Hset Hu Ht]). exists o'. split_and!; try done.
  intros x Hx He. apply (outcome_unique st'); try done. unfold outcome_identity in Hi. injection Hi. congruence.
Qed.

Lemma turn_outcome_final_witness :
  ∃ o', o' ∈ outcomes_of billing3 ∧ o'.(oc_UsedUnits) = Some 45
    ∧ (o'.(oc_Status) = StatusFinalized
       ∨ (o'.(oc_Status) = OutcomeStatusRefundPending ∧ o'.(oc_RefundTarget) = Some StatusFinalized)).
Proof.
  destruct (turn_outcome_final billing2 billing3 pendingOutcome billing_reach2) as (o' & Ho' & _ & _ & _ & Hu & Ht).
  - apply rtc_once, billing_step3.
  - vm_compute. left.
  - exists o'. split_and!; [done|by apply Hu|by apply Ht].
Defined.

(** ** Execution *)

(** What both guards read, on the tables. *)
Lemma snapshot_binds st env i b s :
  billing_ok st → b ∈ bindings_of st → snapshot_call env i st b = Ok s →
  ∃ r, r ∈ rows_of st ∧ binds b r ∧ s = reservationSettlementSnapshot r.
Proof.
  intros Hok Hb Es. apply snapshot_row in Es as (r & Hr & Hid & ->). exists r. split_and!; [done| |done].
  destruct (bo_bindings st Hok b Hb) as (_ & r0 & Hr0 & Hb0). by rewrite (bound_row st b r0 r).
Qed.

(** A reserved row has no outcome yet. *)
Lemma reserved_no_outcome st b r :
  billing_ok st → b ∈ bindings_of st → r ∈ rows_of st → binds b r → r.(cr_Status) = StatusReserved →
  b.(bd_TurnID) ∉ map oc_TurnID (outcomes_of st).
Proof.
  intros Hok Hb Hr Hbr Hs (o & He & Ho)%list_elem_of_fmap.
  destruct (mirror_row st b o Hok Hb Ho ltac:(done)) as (x & Hx & Hbx & [_ _ _ Hp]).
  assert (x = r) as -> by (apply (bound_row st b); try done; by apply binds_columns in Hbx as (_ & ? & _)).
  destruct Hp as [_ H|? _ H|_ H|_ H]; rewrite Hs in H; discriminate H.
Qed.

Lemma execution_live env k st turn :
  billing_reachable st → AuthorizeTurnExecution env k st turn = None →
  ∃ b r now, b ∈ bindings_of st ∧ b.(bd_TurnID) = turn.(turn_ID) ∧ b.(bd_PrincipalID) = turn.(turn_PrincipalID)
    ∧ r ∈ rows_of st ∧ binds b r ∧ r.(cr_Status) = StatusReserved ∧ held_units r = b.(bd_ReservedUnits)
    ∧ env.(be_now) = Ok now ∧ now < r.(cr_ExpiresAt)
    ∧ turn.(turn_ID) ∉ map oc_TurnID (outcomes_of st)
    ∧ is_Some (VerifyExpiredTurnReservation env k st turn).
Proof.
  intros Hok%billing_reachable_ok E. unfold AuthorizeTurnExecution in E.
  destruct (Turn_Validate turn) eqn:Hv; [done|]. destruct (negb (TurnStatus_Terminal _)) eqn:Ht; [|done].
  destruct (lockSameTurn env k turn) eqn:Hl; [|done].
  destruct (lockExactBinding env st _ _) as [b|] eqn:Eb; [|done]. pose proof (lockExactBinding_Ok _ _ _ _ _ Eb) as (Hb & Hbt & Hbp).
  destruct (snapshot_call env 0 st b) as [s|] eqn:Es; [|done].
  destruct (snapshot_binds st env 0 b s Hok Hb Es) as (r & Hr & Hbr & ->).
  destruct (snapshotMatchesBinding b _) eqn:Hmb; [done|]. destruct (bool_decide _) eqn:Hs; [|done].
  destruct (be_now env) as [now|] eqn:Hn; [|done]. destruct (After _ now) eqn:Ha; [|done].
  exists b, r, now. apply bool_decide_eq_true in Hs. cbn in Hs, Ha. split_and!; try done.
  - rewrite active_held by auto. by apply binds_columns in Hbr as (_ & _ & _ & _ & _ & ? & _).
  - unfold After in Ha. lia.
  - rewrite <- Hbt. by apply (reserved_no_outcome st b r).
  - unfold VerifyExpiredTurnReservation. rewrite Hv, Ht, Hl.
    destruct (lockReviewOwnerByTurn env k _) as [review|]; [|done]. destruct (negb (is_set review)); [|done].
    rewrite Eb. destruct (lockOutcomeByTurn env st _) as [o|]; [|done]. destruct (negb (is_set o)); [|done].
    rewrite Es, Hmb, Hn. cbn. destruct (bool_decide _); [|done]. by rewrite Ha.
Qed.

(** C14: A Turn executes only on a live reservation.  When
    [AuthorizeTurnExecution] accepts in a reachable state, the Turn is bound to a
    reservation of its principal that is reserved and not expired by the database
    clock, the reservation holds the whole reserved amount, and the Turn has no
    commercial outcome.  The expiry guard of reconciliation then refuses: no Turn
    can be executed and retired as expired under the same clock. *)
Theorem execution_needs_live_hold env k st turn :
  billing_reachable st → AuthorizeTurnExecution env k st turn = None →
  ∃ b r now, b ∈ bindings_of st ∧ b.(bd_TurnID) = turn.(turn_ID) ∧ b.(bd_PrincipalID) = turn.(turn_PrincipalID)
    ∧ r ∈ rows_of st ∧ binds b r ∧ r.(cr_Status) = StatusReserved ∧ held_units r = b.(bd_ReservedUnits)
    ∧ env.(be_now) = Ok now ∧ now < r.(cr_ExpiresAt)
    ∧ turn.(turn_ID) ∉ map oc_TurnID (outcomes_of st)
    ∧ is_Some (VerifyExpiredTurnReservation env k st turn).
Proof. apply execution_live. Qed.

Lemma execution_needs_live_hold_witness :
  AuthorizeTurnExecution (billingEnv (calm 1) 1) (billedTables "queued") billing1 billedTurn = None
  ∧ is_Some (VerifyExpiredTurnReservation (billingEnv (calm 1) 1) (billedTables "queued") billing1 billedTurn).
Proof.
  split; [vm_compute; reflexivity|].
  destruct (execution_needs_live_hold (billingEnv (calm 1) 1) (billedTables "queued") billing1 billedTurn)
    as (b & r & now & _ & _ & _ & _ & _ & _ & _ & _ & _ & _ & H); [apply billing_reach1|vm_compute; reflexivity|exact H].
Defined.

(** ** Settlement *)

Definition settle_target (c : SettlementCommand) : string :=
  if bool_decide (c.(sc_Intent) = SettlementIntentRelease) then StatusReleased else StatusFinalized.

(** The units of the command: a release uses none. *)
Lemma settlementUnits_Ok c used :
  settlementUnits c = Ok used →
  used = if bool_decide (c.(sc_Intent) = SettlementIntentRelease) then 0 else c.(sc_UsedUnits).
Proof.
  unfold settlementUnits, positiveUnits. destruct (bool_decide _); [destruct (_ =? 0)|destruct (negb _)]; intros [= <-]; done.
Qed.

Lemma settle_call_settles env st b c used s st1 :
  billing_ok st → settle_call env st b c used = Ok (s, st1) → (c.(sc_Intent) = SettlementIntentRelease → used = 0) →
  settles (be_call env 1) true st.(bl_ledger) b.(bd_ReservationID) (settle_target c) used st1.(bl_ledger).
Proof.
  intros Hok E Hrel. unfold settle_call, on_ledger, settle_target in *.
  destruct (bool_decide (sc_Intent c = SettlementIntentFinalize)) eqn:H1.
  - apply bool_decide_eq_true in H1. rewrite H1, bool_decide_false by done. unfold FinalizeAfterTurnAuthorizationWithResult, with_result in E.
    destruct (FinalizeAfterTurnAuthorization _ _ _ _) as [db'|] eqn:Ef; [|done].
    destruct (LockSettlementSnapshot _ _ _); [|done]. injection E as _ <-.
    apply finalize_settles in Ef as [_ ?]; [done|apply Hok].
  - destruct (bool_decide (sc_Intent c = SettlementIntentRelease)) eqn:H2; [|done]. apply bool_decide_eq_true in H2.
    unfold ReleaseWithResult, with_result in E. destruct (Release _ _ _) as [db'|] eqn:Ef; [|done].
    destruct (LockSettlementSnapshot _ _ _); [|done]. injection E as _ <-. rewrite (Hrel H2).
    apply (release_settles _ _ _ None); [apply Hok|done].
Qed.

(** The first settlement of a Turn. *)
Lemma settle_plan_first env k st c p :
  billing_ok st → settle_plan env k st c = Ok (Some p) → c.(sc_TurnID) ∉ map oc_TurnID (outcomes_of st) →
  (∀ f, (env.(be_call) 1%nat).(le_fault) f = None) →
  ∃ b r r' used, b ∈ bindings_of st ∧ b.(bd_TurnID) = c.(sc_TurnID) ∧ settlementUnits c = Ok used
    ∧ outcome_plan_ok st b p ∧ p.(op_previous) = None
    ∧ r ∈ rows_of st ∧ binds b r ∧ r.(cr_Status) = StatusReserved
    ∧ rtc (ledger_move r.(cr_Id)) st.(bl_ledger) p.(op_state).(bl_ledger)
    ∧ r' ∈ rows_of p.(op_state) ∧ r'.(cr_Id) = r.(cr_Id) ∧ r'.(cr_Status) = settle_target c ∧ r'.(cr_Used) = used.
Proof.
  intros Hok E Hno Hcalm. destruct (settle_plan_sound _ _ _ _ _ Hok E) as (b' & Hbt' & Hplan).
  destruct (settle_plan_fresh _ _ _ _ _ E Hno) as (b & Hb & Hbt & Hend).
  assert (b' = b) as -> by (apply (binding_unique st); [done|apply Hplan|done|congruence]).
  inversion Hend as [|before used s st1 next _ Es Hst Eu Ec _]; subst.
  destruct (snapshot_binds st env 0 b before Hok Hb Es) as (r & Hr & Hbr & ->).
  destruct Hst as [[? ?]|Hst]; [done|]. cbn in Hst.
  pose proof (settle_call_settles env st b c used s st1 Hok Ec) as [Hm (r' & Hr' & Hid' & Has & _ & Hfin)].
  { intros Hi. apply settlementUnits_Ok in Eu. by rewrite Hi, bool_decide_true in Eu. }
  pose proof (proj1 (binds_columns b r) Hbr) as (_ & Hid & _).
  assert (Hs' : r'.(cr_Status) = settle_target c).
  { destruct Hfin as [?|[(_ & Hdb)|(f & e & Hf)]]; [done| |by rewrite Hcalm in Hf]. exfalso. rewrite Hdb in Hr'.
    assert (r' = r) as -> by (apply (bound_row st b); done).
    destruct Has as [[Hx _]|[Hx _]]; rewrite Hst in Hx; [unfold settle_target in Hx; by destruct (bool_decide _)|discriminate Hx]. }
  exists b, r, r', used. rewrite Hid. split_and!; try done.
  destruct Has as [[_ ?]|[Hx _]]; [done|]. rewrite Hs' in Hx. unfold settle_target in Hx. by destruct (bool_decide _).
Qed.

(** Settling a settled Turn again writes nothing. *)
Lemma settle_settled env k st c o st' :
  billing_ok st → o ∈ outcomes_of st → settled_outcome o → c.(sc_TurnID) = o.(oc_TurnID) →
  Settle env k st c = Ok st' → st' = st.
Proof.
  intros Hok Ho Hset Ht E. unfold Settle in E. destruct (settle_plan env k st c) as [[p|]|] eqn:Ep; [|by injection E as <-|done].
  apply settle_plan_ends in Ep as (b & existing & _ & _ & Eo & _ & Hend).
  inversion Hend as [|before used s st1 next Hpend _ _ _ _ _]; subst. destruct existing as [e|].
  - apply lockOutcome_Some in Eo as (He & Het & _). assert (e = o) as -> by (apply (outcome_unique st); try done; congruence).
    specialize (Hpend o eq_refl). destruct Hset as [Hs|Hs]; rewrite Hpend in Hs; discriminate Hs.
  - apply lockOutcome_None in Eo. destruct Eo. rewrite Ht. by apply list_elem_of_fmap_2.
Qed.

(** An outcome that mirrors a settled row is settled with its amount. *)
Lemma mirror_settled o r :
  mirrors o r → r.(cr_Status) = StatusFinalized ∨ r.(cr_Status) = StatusReleased →
  settled_outcome o ∧ o.(oc_Status) = r.(cr_Status) ∧ o.(oc_UsedUnits) = Some r.(cr_Used).
Proof.
  intros [_ _ _ Hp] Hs. unfold settled_outcome.
  destruct Hp as [H1 H2|? H1 H2|H1 H2 H3|H1 H2 H3 H4]; rewrite H2 in Hs; rewrite ?H1, ?H2; split_and!; auto;
    try (destruct Hs as [Hs|Hs]; discriminate Hs); congruence.
Qed.

Lemma settle_charges env k st c st1 :
  billing_reachable st → c.(sc_TurnID) ∉ map oc_TurnID (outcomes_of st) →
  (∀ f, (env.(be_call) 1%nat).(le_fault) f = None) → Settle env k st c = Ok st1 →
  ∃ o b r used, settlementUnits c = Ok used ∧ b ∈ bindings_of st ∧ b.(bd_TurnID) = c.(sc_TurnID)
    ∧ r ∈ rows_of st ∧ binds b r
    ∧ o ∈ outcomes_of st1 ∧ outcome_of o b ∧ o.(oc_Status) = settle_target c ∧ o.(oc_UsedUnits) = Some used
    ∧ sum_by cp_CreditsUsed (owned_packs st1.(bl_ledger) r.(cr_UID))
      = sum_by cp_CreditsUsed (owned_packs st.(bl_ledger) r.(cr_UID)) - (b.(bd_ReservedUnits) - used)
    ∧ ∀ st2, rtc billing_step st1 st2 →
        o ∈ outcomes_of st2
        ∧ ∀ env2 k2 c2 st3, c2.(sc_TurnID) = c.(sc_TurnID) → Settle env2 k2 st2 c2 = Ok st3 → st3 = st2.
Proof.
  intros Hok%billing_reachable_ok Hno Hcalm E. pose proof E as Estep. unfold Settle in E.
  destruct (settle_plan env k st c) as [[p|]|] eqn:Ep; [| |done].
  2: { apply settle_plan_fresh in Ep as (b & _ & _ & Hend); [|done]. inversion Hend. done. }
  destruct (settle_plan_first env k st c p Hok Ep Hno Hcalm)
    as (b & r & r' & used & Hb & Hbt & Hu & Hplan & Hprev & Hr & Hbr & Hres & Hm & Hr' & Hid' & Hs' & Hused).
  assert (Hh : honest p) by (intros prev Hp; rewrite Hprev in Hp; discriminate Hp).
  pose proof (persist_ok env st b p st1 Hok Hplan Hh E) as Hok1.
  destruct Hplan as [_ Hst _ (x & Hx & Hbx & Hmx) Hoc _ _].
  pose proof (proj1 (binds_columns b r) Hbr) as (_ & Hid & _ & _ & _ & Hamount & _).
  assert (x = r') as ->.
  { pose proof (proj1 (binds_columns b x) Hbx) as (_ & Hxid & _).
    apply (keyed_unique cr_Id (lg_reservations (bl_ledger (op_state p)))); [|done|done|congruence].
    apply (ledger_moves_ok _ _ _ (bo_ledger st Hok) Hm). }
  destruct (mirror_settled p.(op_next) r' Hmx) as (Hset & Hos & Hou).
  { rewrite Hs'. unfold settle_target. destruct (bool_decide _); auto. }
  unfold persist_plan, persistOutcome in E. rewrite Hprev in E. destruct (OutcomeRecord_Validate _); [done|].
  destruct (be_fault env BsInsertOutcome); [done|]. destruct (negb _); [|done]. injection E as <-.
  exists p.(op_next), b, r, used. split_and!; try done; try congruence.
  - unfold outcomes_of. simpl. rewrite map_app. apply elem_of_app. right. by left.
  - simpl. rewrite (moves_balance (bl_ledger st) _ r r'); [|apply Hok|done|done|done|done].
    rewrite active_held, closed_held by (rewrite ?Hs'; unfold settle_target; try destruct (bool_decide _); auto). lia.
  - intros st2 Hs2. pose proof (billing_steps_ok _ st2 Hok1 Hs2) as Hok2.
    destruct (steps_later _ st2 p.(op_next) Hok1 Hs2) as (o' & Ho' & Hl).
    { unfold outcomes_of. simpl. rewrite map_app. apply elem_of_app. right. by left. }
    rewrite (ol_settled _ _ Hl Hset) in Ho'. split; [done|]. intros env2 k2 c2 st3 Hc2.
    apply (settle_settled env2 k2 st2 c2 p.(op_next)); try done. destruct Hoc as (_ & ? & _). congruence.
Qed.

(** C11: Settlement charges a Turn exactly once.  In a reachable state, when
    [Settle] accepts a command for a Turn without an outcome and the reservation
    service meets no fault, the Turn gets a settled outcome for exactly the units
    of the command (none for a release), and the packs of the user carry the
    unused rest of the reservation less.  From then on, whatever else runs, the
    outcome stays as it is, and any further [Settle] for the Turn that succeeds
    changes nothing. *)
Theorem settle_charges_once env k st c st1 :
  billing_reachable st → c.(sc_TurnID) ∉ map oc_TurnID (outcomes_of st) →
  (∀ f, (env.(be_call) 1%nat).(le_fault) f = None) → Settle env k st c = Ok st1 →
  ∃ o b r used, settlementUnits c = Ok used ∧ b ∈ bindings_of st ∧ b.(bd_TurnID) = c.(sc_TurnID)
    ∧ r ∈ rows_of st ∧ binds b r
    ∧ o ∈ outcomes_of st1 ∧ outcome_of o b ∧ o.(oc_Status) = settle_target c ∧ o.(oc_UsedUnits) = Some used
    ∧ sum_by cp_CreditsUsed (owned_packs st1.(bl_ledger) r.(cr_UID))
      = sum_by cp_CreditsUsed (owned_packs st.(bl_ledger) r.(cr_UID)) - (b.(bd_ReservedUnits) - used)
    ∧ ∀ st2, rtc billing_step st1 st2 →
        o ∈ outcomes_of st2
        ∧ ∀ env2 k2 c2 st3, c2.(sc_TurnID) = c.(sc_TurnID) → Settle env2 k2 st2 c2 = Ok st3 → st3 = st2.
Proof. apply settle_charges. Qed.

Definition billing2' : BillingState :=
  Eval vm_compute in match Settle (billingEnv (calm 2) 2) (billedTables "completed") billing1 demoSettle with
                     | Ok st => st | Err _ => billing1 end.

Lemma settle_charges_once_witness :
  ∃ o b r used, settlementUnits demoSettle = Ok used ∧ b ∈ bindings_of billing1 ∧ r ∈ rows_of billing1 ∧ binds b r
    ∧ o ∈ outcomes_of billing2' ∧ o.(oc_UsedUnits) = Some used
    ∧ sum_by cp_CreditsUsed (owned_packs billing2'.(bl_ledger) r.(cr_UID))
      = sum_by cp_CreditsUsed (owned_packs billing1.(bl_ledger) r.(cr_UID)) - (b.(bd_ReservedUnits) - used).
Proof.
  destruct (settle_charges_once (billingEnv (calm 2) 2) (billedTables "completed") billing1 demoSettle billing2')
    as (o & b & r & used & H1 & H2 & _ & H3 & H4 & H5 & _ & _ & H6 & H7 & _).
  - apply billing_reach1.
  - apply not_elem_of_nil.
  - reflexivity.
  - vm_compute. reflexivity.
  - exists o, b, r, used. split_and!; assumption.
Defined.
