(* ===== verification/PendingReconciler.v ===== *)
(** * Recovery of pending refunds: service/agentbilling/pending_reconciler.go

    A bounded pass over the outcomes whose refund is due.  Discovery is a plain
    read: a LEFT JOIN from the outcomes to their bindings and reservations, in
    the order of the outcome ids, between a cursor and a high watermark that was
    captured when the cycle began.  Each candidate is then reconciled in a
    transaction of its own. *)

From Stdlib Require Import Ascii.
From stdpp Require Import sorting.
From S2P Require Import Prelude GoText GoDigest GoTime AgentContract TurnTypes ExecutionTypes Settlement ProviderUsage SettlementUsage SqlDatabase BillingTypes CreditTables SubscriptionCycle CreditsPack ProjectBudget CreditReservation AgentBilling.

Definition MaxPendingReconcileBatchSize : Z := 200.
Definition MaxPendingReconcileFailureDetails : Z := 32.

Definition PendingReconcileFailureCode : Type := string.
Definition PendingReconcileFailureOwnerTupleDrift : PendingReconcileFailureCode := "owner_tuple_drift".
Definition PendingReconcileFailureOwnerNotFound : PendingReconcileFailureCode := "owner_not_found".
Definition PendingReconcileFailureDurableConflict : PendingReconcileFailureCode := "durable_conflict".
Definition PendingReconcileFailureReconcileFailed : PendingReconcileFailureCode := "reconcile_failed".
Definition PendingReconcileFailureUnexpectedStatus : PendingReconcileFailureCode := "unexpected_outcome_status".

Record PendingReconcileCursor := mkPendingCursor { pc_OutcomeRowID : Z; pc_CycleHighWatermark : Z }.
Definition zeroCursor : PendingReconcileCursor := mkPendingCursor 0 0.

Record PendingReconcileCandidate := mkPendingCandidate {
  pd_OutcomeRowID : Z; pd_TurnID : TurnID; pd_PrincipalID : PrincipalID; pd_ReservationID : Z;
  pd_SettlementKey : string; pd_NextRefundAt : time; pd_FailureCode : PendingReconcileFailureCode }.

Record PendingReconcileFailure := mkPendingFailure {
  pf_OutcomeRowID : Z; pf_TurnID : TurnID; pf_ReservationID : Z; pf_SettlementKey : string;
  pf_Code : PendingReconcileFailureCode }.

Record PendingReconcileFailureDetails := mkFailureDetails {
  fd_Items : list PendingReconcileFailure; fd_Omitted : Z }.

Record PendingReconcilePassResult := mkPassResult {
  pr_Discovered : Z; pr_Attempted : Z; pr_Converged : Z; pr_StillPending : Z; pr_Failed : Z;
  pr_NextCursor : PendingReconcileCursor; pr_FailureDetails : option PendingReconcileFailureDetails }.

(** ** Discovery *)

(** One row of the join: the columns of the outcome, and those of its binding and
    reservation when there are such rows. *)
Record pendingReconcileCandidateRow := mkCandidateRow {
  jr_outcome : stored OutcomeRecord;
  jr_binding : option BindingRecord;
  jr_reservation : option CreditReservation }.

Definition left_join {A B} (on : A → B → bool) (left : list A) (right : list B) : list (A * option B) :=
  flat_map (λ a, match where_ (on a) right with
                 | [] => [(a, None)]
                 | matches => map (λ b, (a, Some b)) matches
                 end) left.

(** The two joins of the query. *)
Definition joined_rows (st : BillingState) : list pendingReconcileCandidateRow :=
  let with_binding := left_join (λ o b, bool_decide (b.(bd_BindingID) = o.(row_record).(oc_BindingID)))
                        st.(bl_outcomes) (map row_record st.(bl_bindings)) in
  map (λ '((o, b), r), mkCandidateRow o b r)
    (left_join (λ '(o, _) r, r.(cr_Id) =? o.(row_record).(oc_ReservationID)) with_binding
       st.(bl_ledger).(lg_reservations)).

(** The disjuncts on the columns of a complete row that name a broken tuple; an
    empty request digest stands for NULL. *)
Definition tuple_broken (o : OutcomeRecord) (b : BindingRecord) (r : CreditReservation) : bool :=
  negb (bool_decide (b.(bd_TurnID) = o.(oc_TurnID))) || negb (b.(bd_ReservationID) =? o.(oc_ReservationID))
  || negb (bool_decide (b.(bd_BindingDigest) = o.(oc_BindingDigest)))
  || negb (b.(bd_ReservedUnits) =? o.(oc_ReservedUnits))
  || negb (r.(cr_UID) =? b.(bd_ReservationUID)) || bool_decide (r.(cr_RequestDigest) = "")
  || negb (bool_decide (r.(cr_RequestDigest) = b.(bd_ReservationRequestDigest)))
  || negb (bool_decide (r.(cr_Tool) = b.(bd_ReservationTool)))
  || negb (r.(cr_Reserved) =? b.(bd_ReservedUnits)) || negb (r.(cr_ProjectID) =? b.(bd_ProjectID))
  || negb (status_is r StatusRefundPending).

(** [integrityOrDue]. *)
Definition integrityOrDue (now : time) (row : pendingReconcileCandidateRow) : bool :=
  match row.(jr_binding), row.(jr_reservation) with
  | Some b, Some r =>
    tuple_broken row.(jr_outcome).(row_record) b r
    || match r.(cr_NextRefundAt) with None => true | Some t => t <=? now end
  | _, _ => true
  end.

Definition pendingReconcileBaseQuery (st : BillingState) (now : time) : list pendingReconcileCandidateRow :=
  where_ (λ row, bool_decide (row.(jr_outcome).(row_record).(oc_Status) = OutcomeStatusRefundPending)
                 && integrityOrDue now row) (joined_rows st).

Definition outcome_row_id (row : pendingReconcileCandidateRow) : Z := row.(jr_outcome).(row_ID).

(** [row.candidate()]. *)
Definition row_candidate (row : pendingReconcileCandidateRow) : PendingReconcileCandidate :=
  let o := row.(jr_outcome).(row_record) in
  mkPendingCandidate (outcome_row_id row) o.(oc_TurnID)
    (match row.(jr_binding) with Some b => b.(bd_PrincipalID) | None => "" end)
    o.(oc_ReservationID) o.(oc_SettlementKey)
    (match row.(jr_reservation) with Some r => default 0 r.(cr_NextRefundAt) | None => 0 end)
    (match row.(jr_binding), row.(jr_reservation) with
     | Some b, Some r =>
       if tuple_broken o b r || negb (is_set r.(cr_NextRefundAt)) || negb (r.(cr_Id) =? o.(oc_ReservationID))
       then PendingReconcileFailureOwnerTupleDrift else ""
     | _, _ => PendingReconcileFailureOwnerTupleDrift
     end).

(** The queries of a pass, each of which may fail. *)
Inductive pending_query := PqOwnerHigh | PqDueHigh | PqRange.

(** What a pass meets: its context at its n-th look, the database clock, the
    queries that fail, and for the i-th candidate the kernel tables, the calls, the
    error of a commit that was not observed, and what others did before. *)
Record pass_env := mkPassEnv {
  pe_context : nat → validation;
  pe_now : result time;
  pe_query : pending_query → validation;
  pe_kernel : nat → Database;
  pe_call : nat → billing_env;
  pe_lost : nat → validation;
  pe_others : nat → BillingState → BillingState }.

Definition max_id (ids : list Z) : Z := foldr Z.max 0 ids.

Section Pass.
Context (env : pass_env).

(** A failed query is reported as the error of the context when it is done. *)
Definition query_error (e : error) : error := match env.(pe_context) 1%nat with Some c => c | None => e end.

Definition validatePendingReconcileCursor (st : BillingState) (cursor : PendingReconcileCursor) : validation :=
  if ((cursor.(pc_CycleHighWatermark) =? 0) && negb (cursor.(pc_OutcomeRowID) =? 0))
     || (negb (cursor.(pc_CycleHighWatermark) =? 0) && (cursor.(pc_CycleHighWatermark) <? cursor.(pc_OutcomeRowID)))
  then Some ErrPendingReconcileCursor
  else if cursor.(pc_CycleHighWatermark) =? 0 then None
  else match env.(pe_query) PqOwnerHigh with
       | Some e => Some e
       | None => when (max_id (map row_ID st.(bl_outcomes)) <? cursor.(pc_CycleHighWatermark)) ErrPendingReconcileCursor
       end.

Definition discoverDuePendingHighWatermark (st : BillingState) (now : time) : result Z :=
  match env.(pe_query) PqDueHigh with
  | Some e => Err (query_error e)
  | None => Ok (max_id (map outcome_row_id (pendingReconcileBaseQuery st now)))
  end.

Definition in_range (cursor high : Z) (row : pendingReconcileCandidateRow) : bool :=
  (cursor <? outcome_row_id row) && (outcome_row_id row <=? high).
Definition by_outcome_id (a b : pendingReconcileCandidateRow) : bool := outcome_row_id a <=? outcome_row_id b.

Definition discoverDuePendingRange (st : BillingState) (now : time) (cursor high limit : Z)
    : result (list PendingReconcileCandidate) :=
  match env.(pe_query) PqRange with
  | Some e => Err (query_error e)
  | None => Ok (map row_candidate (take (Z.to_nat limit) (order_by by_outcome_id
                 (where_ (in_range cursor high) (pendingReconcileBaseQuery st now)))))
  end.

Definition discoverDuePendingPage (st : BillingState) (now : time) (cursor : PendingReconcileCursor) (limit : Z)
    : result (PendingReconcileCursor * list PendingReconcileCandidate * bool) :=
  check! validatePendingReconcileCursor st cursor;;
  try! cursor := (if cursor.(pc_CycleHighWatermark) =? 0 then
                    try! high := discoverDuePendingHighWatermark st now in
                    Ok (mkPendingCursor (if high <=? cursor.(pc_OutcomeRowID) then 0 else cursor.(pc_OutcomeRowID)) high)
                  else Ok cursor) in
  if cursor.(pc_CycleHighWatermark) =? 0 then Ok (zeroCursor, [], true)
  else
    try! candidates := discoverDuePendingRange st now cursor.(pc_OutcomeRowID) cursor.(pc_CycleHighWatermark) limit in
    Ok (cursor, candidates,
        (Z.of_nat (length candidates) <? limit)
        || match last candidates with
           | Some c => cursor.(pc_CycleHighWatermark) <=? c.(pd_OutcomeRowID)
           | None => false
           end).

Definition valid_limit (limit : Z) : bool := (1 <=? limit) && (limit <=? MaxPendingReconcileBatchSize).

Definition DiscoverDuePendingAfter (st : BillingState) (cursor : PendingReconcileCursor) (limit : Z)
    : result (list PendingReconcileCandidate * PendingReconcileCursor * bool) :=
  guard! valid_limit limit else ErrPendingReconcileLimit;;
  check! env.(pe_context) 0%nat;;
  match env.(pe_now) with
  | Err e => Err (query_error e)
  | Ok now =>
    try! (prepared, candidates, exhausted) := discoverDuePendingPage st now cursor limit in
    Ok (candidates, prepared, exhausted)
  end.

Definition DiscoverDuePending (st : BillingState) (limit : Z) : result (list PendingReconcileCandidate) :=
  try! (candidates, _, _) := DiscoverDuePendingAfter st zeroCursor limit in Ok candidates.

(** ** One pass *)

Definition pendingReconcileFailureCode (e : error) : PendingReconcileFailureCode :=
  match e with
  | ErrBindingNotFound | ErrOutcomeNotFound => PendingReconcileFailureOwnerNotFound
  | ErrBindingConflict | ErrOutcomeConflict => PendingReconcileFailureDurableConflict
  | _ => PendingReconcileFailureReconcileFailed
  end.

Definition addFailure (result : PendingReconcilePassResult) (c : PendingReconcileCandidate)
    (code : PendingReconcileFailureCode) : PendingReconcilePassResult :=
  let details := match result.(pr_FailureDetails) with Some d => d | None => mkFailureDetails [] 0 end in
  mkPassResult result.(pr_Discovered) result.(pr_Attempted) result.(pr_Converged) result.(pr_StillPending)
    (result.(pr_Failed) + 1) result.(pr_NextCursor)
    (Some (if MaxPendingReconcileFailureDetails <=? Z.of_nat (length details.(fd_Items))
           then mkFailureDetails details.(fd_Items) (details.(fd_Omitted) + 1)
           else mkFailureDetails (details.(fd_Items) ++ [mkPendingFailure c.(pd_OutcomeRowID) c.(pd_TurnID)
                  c.(pd_ReservationID) c.(pd_SettlementKey) code]) details.(fd_Omitted))).

(** [Attempted++] and the cursor moves to the candidate. *)
Definition advance_to (result : PendingReconcilePassResult) (c : PendingReconcileCandidate) : PendingReconcilePassResult :=
  mkPassResult result.(pr_Discovered) (result.(pr_Attempted) + 1) result.(pr_Converged) result.(pr_StillPending)
    result.(pr_Failed) (mkPendingCursor c.(pd_OutcomeRowID) result.(pr_NextCursor).(pc_CycleHighWatermark))
    result.(pr_FailureDetails).

Definition count_outcome (result : PendingReconcilePassResult) (c : PendingReconcileCandidate) (o : OutcomeRecord)
    : PendingReconcilePassResult :=
  if bool_decide (o.(oc_Status) = OutcomeStatusFinalized) || bool_decide (o.(oc_Status) = OutcomeStatusReleased)
  then mkPassResult result.(pr_Discovered) result.(pr_Attempted) (result.(pr_Converged) + 1) result.(pr_StillPending)
         result.(pr_Failed) result.(pr_NextCursor) result.(pr_FailureDetails)
  else if bool_decide (o.(oc_Status) = OutcomeStatusRefundPending)
  then mkPassResult result.(pr_Discovered) result.(pr_Attempted) result.(pr_Converged) (result.(pr_StillPending) + 1)
         result.(pr_Failed) result.(pr_NextCursor) result.(pr_FailureDetails)
  else addFailure result c PendingReconcileFailureUnexpectedStatus.

(** The transaction of the i-th candidate, with a commit that may be lost. *)
Definition reconcile_candidate (i : nat) (c : PendingReconcileCandidate) (st : BillingState)
    : result OutcomeRecord * BillingState :=
  let st := env.(pe_others) i st in
  match ReconcilePending (env.(pe_call) i) (env.(pe_kernel) i) st c.(pd_PrincipalID) c.(pd_TurnID) with
  | Err e => (Err e, st)
  | Ok (o, st') => match env.(pe_lost) i with None => (Ok o, st') | Some e => (Err e, st') end
  end.

Fixpoint pass_loop (i : nat) (candidates : list PendingReconcileCandidate) (result : PendingReconcilePassResult)
    (st : BillingState) : PendingReconcilePassResult * validation * BillingState :=
  match env.(pe_context) (2 + 2 * i)%nat with
  | Some e => (result, Some e, st)
  | None =>
    match candidates with
    | [] => (result, None, st)
    | c :: rest =>
      if negb (bool_decide (c.(pd_FailureCode) = "")) then
        pass_loop (S i) rest (addFailure (advance_to result c) c c.(pd_FailureCode)) st
      else
        let '(r, st) := reconcile_candidate i c st in
        match r with
        | Err e =>
          match env.(pe_context) (3 + 2 * i)%nat with
          | Some ctxErr => (result, Some ctxErr, st)
          | None => pass_loop (S i) rest (addFailure (advance_to result c) c (pendingReconcileFailureCode e)) st
          end
        | Ok o => pass_loop (S i) rest (count_outcome (advance_to result c) c o) st
        end
    end
  end.

Definition with_cursor (result : PendingReconcilePassResult) (cursor : PendingReconcileCursor)
    : PendingReconcilePassResult :=
  mkPassResult result.(pr_Discovered) result.(pr_Attempted) result.(pr_Converged) result.(pr_StillPending)
    result.(pr_Failed) cursor result.(pr_FailureDetails).

Definition ReconcileDuePendingPassAfter (st : BillingState) (cursor : PendingReconcileCursor) (limit : Z)
    : PendingReconcilePassResult * validation * BillingState :=
  let result := mkPassResult 0 0 0 0 0 cursor None in
  match DiscoverDuePendingAfter st cursor limit with
  | Err e => (result, Some e, st)
  | Ok (candidates, prepared, exhausted) =>
    let result := mkPassResult (Z.of_nat (length candidates)) 0 0 0 0 prepared None in
    match pass_loop 0 candidates result st with
    | (result, None, st) => (if exhausted then with_cursor result zeroCursor else result, None, st)
    | failed => failed
    end
  end.
End Pass.

(** [ReconcileDuePendingPass] keeps the cursor in the authority, under a mutex. *)
Definition ReconcileDuePendingPass (env : pass_env) (own : PendingReconcileCursor) (st : BillingState) (limit : Z)
    : PendingReconcilePassResult * validation * (PendingReconcileCursor * BillingState) :=
  let '(result, err, st) := ReconcileDuePendingPassAfter env st own limit in
  (result, err, (result.(pr_NextCursor), st)).
