(* ===== verification/PendingReconcilerTheorems.v ===== *)
(** * Recovery of pending refunds: theorems

    A pass accounts for every candidate, skips none, moves its cursor forward and
    ends its cycle; in reachable states every candidate is a due refund with an
    intact binding. *)

From Stdlib Require Import Ascii.
From stdpp Require Import sorting.
From S2P Require Import Prelude GoText GoDigest GoTime AgentContract TurnTypes ExecutionTypes Settlement ProviderUsage SettlementUsage SqlDatabase BillingTypes CreditTables SubscriptionCycle CreditsPack ProjectBudget CreditReservation CreditChecks CreditPackFacts CreditRefundFacts CreditLedgerFacts CreditOperationFacts CreditReserveFacts CreditRuns AgentBilling BillingFacts BillingRuns BillingTheorems PendingReconciler.

(** ** Counters *)

Definition details_ok (failed : Z) (details : option PendingReconcileFailureDetails) : Prop :=
  match details with
  | None => failed = 0
  | Some d => 0 < failed ∧ 0 ≤ d.(fd_Omitted) ∧ Z.of_nat (length d.(fd_Items)) + d.(fd_Omitted) = failed
              ∧ Z.of_nat (length d.(fd_Items)) ≤ MaxPendingReconcileFailureDetails
  end.

Record counted (result : PendingReconcilePassResult) : Prop := {
  ct_sum : result.(pr_Attempted) = result.(pr_Converged) + result.(pr_StillPending) + result.(pr_Failed);
  ct_nonneg : 0 ≤ result.(pr_Converged) ∧ 0 ≤ result.(pr_StillPending) ∧ 0 ≤ result.(pr_Failed);
  ct_details : details_ok result.(pr_Failed) result.(pr_FailureDetails) }.

(** One more attempt, and one more of the three. *)
Lemma failure_counted result c code :
  counted result → counted (addFailure (advance_to result c) c code).
Proof.
  intros [Hs Hn Hd]. split; [simpl; lia|simpl; lia|]. unfold addFailure, details_ok in *. simpl.
  destruct (pr_FailureDetails result) as [[items omitted]|]; simpl in *.
  - destruct (Z.leb_spec MaxPendingReconcileFailureDetails (Z.of_nat (length items))); simpl; [lia|].
    rewrite length_app. simpl. lia.
  - unfold MaxPendingReconcileFailureDetails. simpl. lia.
Qed.

Lemma outcome_counted result c o : counted result → counted (count_outcome (advance_to result c) c o).
Proof.
  intros Hc. pose proof Hc as [Hs Hn Hd]. unfold count_outcome.
  destruct (_ || _); [split; simpl; [lia|lia|done]|]. destruct (bool_decide _); [split; simpl; [lia|lia|done]|].
  by apply failure_counted.
Qed.

(** What an attempt never touches, and where it leaves the cursor. *)
Lemma count_outcome_cursor result c o :
  (count_outcome result c o).(pr_NextCursor) = result.(pr_NextCursor)
  ∧ (count_outcome result c o).(pr_Discovered) = result.(pr_Discovered)
  ∧ (count_outcome result c o).(pr_Attempted) = result.(pr_Attempted).
Proof. unfold count_outcome. destruct (_ || _); [done|]. by destruct (bool_decide _). Qed.

(** The candidates the loop went through: all of them unless the context ended
    it, and the cursor stands at the last one. *)
Lemma pass_loop_spec env : ∀ candidates i result st result' err st',
  pass_loop env i candidates result st = (result', err, st') → counted result →
  ∃ done rest, candidates = done ++ rest ∧ counted result'
    ∧ result'.(pr_Discovered) = result.(pr_Discovered)
    ∧ result'.(pr_Attempted) = result.(pr_Attempted) + Z.of_nat (length done)
    ∧ result'.(pr_NextCursor).(pc_CycleHighWatermark) = result.(pr_NextCursor).(pc_CycleHighWatermark)
    ∧ result'.(pr_NextCursor).(pc_OutcomeRowID)
      = match last done with Some c => c.(pd_OutcomeRowID) | None => result.(pr_NextCursor).(pc_OutcomeRowID) end
    ∧ (err = None → rest = []).
Proof.
  induction candidates as [|c rest IH]; intros i result st result' err st' E Hc; cbn [pass_loop] in E.
  { exists [], []. destruct (pe_context env _); injection E as <- <- <-; split_and!; try done; simpl; lia. }
  destruct (pe_context env (2 + 2 * i)).
  { injection E as <- <- <-. exists [], (c :: rest). split_and!; try done; simpl; lia. }
  assert (Hgo : ∀ result1 st1, pass_loop env (S i) rest result1 st1 = (result', err, st') → counted result1 →
            pr_Discovered result1 = pr_Discovered result → pr_Attempted result1 = pr_Attempted result + 1 →
            pr_NextCursor result1 = pr_NextCursor (advance_to result c) →
            ∃ done rest0, c :: rest = done ++ rest0 ∧ counted result'
              ∧ pr_Discovered result' = pr_Discovered result
              ∧ pr_Attempted result' = pr_Attempted result + Z.of_nat (length done)
              ∧ pc_CycleHighWatermark (pr_NextCursor result') = pc_CycleHighWatermark (pr_NextCursor result)
              ∧ pc_OutcomeRowID (pr_NextCursor result')
                = match last done with Some c => pd_OutcomeRowID c | None => pc_OutcomeRowID (pr_NextCursor result) end
              ∧ (err = None → rest0 = [])).
  { intros result1 st1 E1 Hc1 Hd Ha Hn. destruct (IH _ _ _ _ _ _ E1 Hc1) as (dn & rs & -> & ? & Hd1 & Ha1 & Hh1 & Hr1 & He).
    exists (c :: dn), rs. rewrite Hn in Hh1, Hr1. split_and!; try done; [congruence|simpl; lia|].
    rewrite Hr1. simpl. rewrite last_cons. by destruct (last dn). }
  destruct (negb _).
  { apply Hgo in E; try done. by apply failure_counted. }
  destruct (reconcile_candidate env i c st) as [[o|e] st1].
  - pose proof (count_outcome_cursor (advance_to result c) c o) as (H1 & H2 & H3).
    apply Hgo in E; try done; [by apply outcome_counted].
  - destruct (pe_context env (3 + 2 * i)).
    { injection E as <- <- <-. exists [], (c :: rest). split_and!; try done; simpl; lia. }
    apply Hgo in E; try done. by apply failure_counted.
Qed.

Lemma discovered_limit env st now cursor limit prepared candidates exhausted :
  valid_limit limit = true → discoverDuePendingPage env st now cursor limit = Ok (prepared, candidates, exhausted) →
  Z.of_nat (length candidates) ≤ limit.
Proof.
  unfold valid_limit. intros [Hl _]%andb_true_iff E. apply Z.leb_le in Hl. unfold discoverDuePendingPage in E.
  destruct (validatePendingReconcileCursor _ _ _); [done|]. destruct (if pc_CycleHighWatermark cursor =? 0 then _ else Ok cursor) as [cur|]; [|done].
  destruct (_ =? 0); [injection E as <- <- <-; simpl; lia|]. unfold discoverDuePendingRange in E.
  destruct (pe_query env PqRange); [done|]. injection E as <- <- <-. rewrite length_map, length_take. lia.
Qed.

(** C17: A recovery pass accounts for everything it did.  Whatever fails in it, a
    pass attempts at most the candidates it discovered, at most [limit] and never
    more than 200; every attempt is counted exactly once, as converged, still
    pending or failed; failure details are kept for the first 32 failures and the
    others are counted as omitted; and a pass that ends without an error attempted
    every candidate. *)
Theorem pass_accounts env st cursor limit result err st' :
  ReconcileDuePendingPassAfter env st cursor limit = (result, err, st') →
  result.(pr_Attempted) = result.(pr_Converged) + result.(pr_StillPending) + result.(pr_Failed)
  ∧ 0 ≤ result.(pr_Converged) ∧ 0 ≤ result.(pr_StillPending) ∧ 0 ≤ result.(pr_Failed)
  ∧ details_ok result.(pr_Failed) result.(pr_FailureDetails)
  ∧ result.(pr_Attempted) ≤ result.(pr_Discovered) ≤ MaxPendingReconcileBatchSize
  ∧ (0 < result.(pr_Discovered) → result.(pr_Discovered) ≤ limit)
  ∧ (err = None → result.(pr_Attempted) = result.(pr_Discovered)).
Proof.
  intros E. unfold ReconcileDuePendingPassAfter in E. destruct (DiscoverDuePendingAfter _ _ _ _) as [[[cs prepared] exhausted]|] eqn:Ed.
  2: { injection E as <- <- <-. unfold MaxPendingReconcileBatchSize. simpl. lia. }
  unfold DiscoverDuePendingAfter in Ed. destruct (valid_limit limit) eqn:Hl; [|done]. destruct (pe_context env 0); [done|].
  destruct (pe_now env) as [now|]; [|done].
  destruct (discoverDuePendingPage _ _ _ _ _) as [[[prep cands] ex]|] eqn:Ep; [|done]. injection Ed as <- <- <-.
  pose proof (discovered_limit _ _ _ _ _ _ _ _ Hl Ep) as Hlen. unfold valid_limit in Hl.
  apply andb_true_iff in Hl as [_ Hmax%Z.leb_le].
  destruct (pass_loop _ _ _ _ _) as [[res1 err1] st1] eqn:Eloop.
  destruct (pass_loop_spec _ _ _ _ _ _ _ _ Eloop) as (dn & rs & Hcands & [Hsum Hnn Hdet] & Hdisc & Hatt & _ & _ & Hall).
  { split; simpl; [lia|lia|done]. }
  simpl in Hdisc, Hatt. rewrite Hcands, length_app in Hlen, Hdisc.
  assert (Hres : result.(pr_Attempted) = res1.(pr_Attempted) ∧ result.(pr_Converged) = res1.(pr_Converged)
                 ∧ result.(pr_StillPending) = res1.(pr_StillPending) ∧ result.(pr_Failed) = res1.(pr_Failed)
                 ∧ result.(pr_FailureDetails) = res1.(pr_FailureDetails) ∧ result.(pr_Discovered) = res1.(pr_Discovered)
                 ∧ err = err1).
  { destruct err1; [by injection E as <- <- <-|]. injection E as <- <- <-. by destruct ex. }
  destruct Hres as (-> & -> & -> & -> & -> & -> & ->). split_and!; try lia; [done|].
  intros He. rewrite (Hall He) in *. simpl in *. lia.
Qed.

(** ** Keys of the two tables *)

Record keys_ok (st : BillingState) : Prop := {
  ko_bindings : NoDup (map bd_BindingID (bindings_of st));
  ko_outcomes : NoDup (map row_ID st.(bl_outcomes));
  ko_positive : ∀ row, row ∈ st.(bl_outcomes) → 0 < row.(row_ID) }.

Lemma bind_keys env authority st turn st' :
  keys_ok st → ReserveAndBindTurn env authority st turn = Ok st' → keys_ok st'.
Proof.
  intros [Hb Ho Hp] E. unfold ReserveAndBindTurn in E. destruct (_ && _); [|done].
  destruct (lockBindingByTurn env st _) as [bound|]; [|done]. destruct bound; [done|].
  unfold on_ledger in E. destruct (Reserve (be_call env 0) _ _) as [[res db']|]; [|done].
  destruct (rr_Created res); [|done]. destruct (bool_decide _); [|done]. cbv zeta in E.
  match type of E with context [BindingRecord_Validate ?b] => set (record := b) in E end.
  destruct (BindingRecord_Validate record); [done|]. destruct (be_fault env BsInsertBinding); [done|].
  destruct (existsb _ _) eqn:Hex; [done|].
  destruct (verifyBindingReservation env _ record false) as [[]|]; [|done]. injection E as <-.
  split; [|done|done]. unfold bindings_of, insert_binding. cbn [bl_bindings]. rewrite !map_app. apply NoDup_app.
  split_and!; [done| |apply NoDup_singleton]. intros x Hx ->%list_elem_of_singleton.
  apply list_elem_of_fmap in Hx as (y & He & (row & -> & Hrow)%list_elem_of_fmap).
  rewrite (proj2 (existsb_exists _ _)) in Hex; [done|]. exists row. split; [by apply list_elem_of_In|].
  apply orb_true_iff. left. apply orb_true_iff. left. by apply bool_decide_eq_true.
Qed.

Lemma persist_keys env st b p st' :
  keys_ok st → outcome_plan_ok st b p → persist_plan env p = Ok st' → keys_ok st'.
Proof.
  intros [Hb Ho Hp] Hplan E. unfold persist_plan, persistOutcome in E. pose proof (po_state _ _ _ Hplan) as Hst.
  destruct p as [st1 next prev]. simpl in *. destruct (OutcomeRecord_Validate next); [done|].
  assert (Hb1 : bl_bindings st1 = bl_bindings st) by by rewrite Hst.
  assert (Ho1 : bl_outcomes st1 = bl_outcomes st) by by rewrite Hst.
  assert (Hsame : keys_ok st1) by (split; unfold bindings_of; rewrite ?Hb1, ?Ho1; done).
  destruct prev as [prev|].
  - destruct (_ && _); [by injection E as <-|]. destruct (be_fault env BsUpdateOutcome); [done|].
    destruct (_ =? 1); [|done]. injection E as <-. split; unfold bindings_of; simpl; rewrite ?Hb1, ?Ho1; [done| |].
    + unfold update_where. rewrite map_map. erewrite map_ext; [exact Ho|]. intros x. by destruct (_ && _).
    + intros row (x & -> & Hx)%list_elem_of_fmap. destruct (_ && _); by apply Hp in Hx.
  - destruct (be_fault env BsInsertOutcome); [done|]. destruct (negb _); [|done]. injection E as <-.
    split; unfold bindings_of; simpl; rewrite ?Hb1, ?Ho1; [done| |].
    + rewrite map_app. apply NoDup_app. split_and!; [done| |apply NoDup_singleton].
      intros x Hx ->%list_elem_of_singleton. by apply fresh_row_id_fresh in Hx.
    + intros row [Hx| ->%list_elem_of_singleton]%elem_of_app; [by apply Hp|]. simpl. unfold fresh_row_id.
      assert (0 ≤ foldr Z.max 0 (map row_ID (bl_outcomes st))); [|lia].
      clear. induction (map row_ID (bl_outcomes st)); simpl; lia.
Qed.

Lemma billing_step_keys st st' : billing_ok st → keys_ok st → billing_step st st' → keys_ok st'.
Proof.
  intros Hok Hk H. inversion H as [env a t st1 E|env k c st1 E Hh|env k c st1 E Hh|env k c rc st1 E Hh|env k pr t o st1 E Hh|db']; subst.
  - by eapply bind_keys.
  - unfold Settle in E. destruct (settle_plan env k st c) as [[p|]|] eqn:Ep; [|by injection E as <-|done].
    destruct (settle_plan_sound _ _ _ _ _ Hok Ep) as (b & _ & Hp). by eapply persist_keys.
  - unfold billingHoldForReview in E. destruct (hold_plan env k st c) as [p|] eqn:Ep; [|done].
    destruct (hold_plan_sound _ _ _ _ _ Hok Ep) as (b & _ & Hp). by eapply persist_keys.
  - unfold ResolveReview in E. destruct (resolve_plan env k st c) as [[b p]|] eqn:Ep; [|done].
    destruct (persist_plan env p) as [st2|] eqn:E1; [|done]. injection E as <- <-.
    destruct (resolve_plan_sound _ _ _ _ _ _ Hok Ep) as (_ & Hp). by eapply persist_keys.
  - unfold ReconcilePending in E. destruct (pending_plan env k st pr t) as [[o' [p|]]|] eqn:Ep; [|by injection E as <- <-|done].
    destruct (persist_plan env p) as [st2|] eqn:E1; [|done]. injection E as <- <-.
    destruct (pending_plan_sound _ _ _ _ _ _ _ Hok Ep) as (_ & b & _ & Hp). by eapply persist_keys.
  - by destruct Hk.
Qed.

Lemma billing_reachable_keys st : billing_reachable st → keys_ok st.
Proof.
  assert (Hgen : ∀ st st', rtc billing_step st st' → billing_ok st → keys_ok st → keys_ok st').
  { induction 1; eauto using billing_step_ok, billing_step_keys. }
  intros H. eapply Hgen; [done|apply empty_billing_ok|]. split; simpl; [apply NoDup_nil_2|apply NoDup_nil_2|].
  intros row Hr. by apply not_elem_of_nil in Hr.
Qed.

(** ** The join *)

Lemma where_unique {A B} `{EqDecision B} (key : A → B) (p : A → bool) l x :
  NoDup (map key l) → x ∈ l → (∀ y, p y = true ↔ key y = key x) → where_ p l = [x].
Proof.
  intros Hn Hx Hp. induction l as [|y l IH]; [by apply not_elem_of_nil in Hx|]. simpl in *. apply NoDup_cons in Hn as [Hy Hn].
  destruct (p y) eqn:E.
  - apply Hp in E. apply elem_of_cons in Hx as [->|Hx].
    + f_equal. apply where_nil. intros z Hz. apply not_true_iff_false. intros Ez%Hp. apply Hy. rewrite <- Ez. by apply list_elem_of_fmap_2.
    + destruct Hy. rewrite E. by apply list_elem_of_fmap_2.
  - apply elem_of_cons in Hx as [->|Hx]; [|by apply IH]. assert (p y = true) by by apply Hp. congruence.
Qed.

Lemma left_join_single {A B} (on : A → B → bool) l r :
  (∀ a, a ∈ l → ∃ x, where_ (on a) r = [x]) → left_join on l r = map (λ a, (a, hd_error (where_ (on a) r))) l.
Proof.
  induction l as [|a l IH]; intros H; [done|].
  destruct (H a) as [x Hx]; [by left|]. cbn [map]. rewrite Hx, <- IH by (intros; apply H; by right).
  unfold left_join. cbn [flat_map]. by rewrite Hx.
Qed.

(** The binding and the row the join finds for an outcome of a reachable state. *)
Lemma join_matches st row :
  billing_ok st → keys_ok st → row ∈ st.(bl_outcomes) →
  ∃ b r, where_ (λ x, bool_decide (x.(bd_BindingID) = row.(row_record).(oc_BindingID))) (bindings_of st) = [b]
    ∧ where_ (λ x, x.(cr_Id) =? row.(row_record).(oc_ReservationID)) (rows_of st) = [r]
    ∧ outcome_of row.(row_record) b ∧ binds b r ∧ mirrors row.(row_record) r.
Proof.
  intros Hok Hk Hrow. assert (Ho : row.(row_record) ∈ outcomes_of st) by by apply list_elem_of_fmap_2.
  destruct (bo_outcomes st Hok _ Ho) as (b & r & Hb & Hoc & Hr & Hbr & Hm). exists b, r.
  pose proof Hoc as (H1 & _ & H3 & _). pose proof (proj1 (binds_columns b r) Hbr) as (_ & Hid & _). split_and!; try done.
  - apply (where_unique bd_BindingID); [apply Hk|done|]. intros y. rewrite bool_decide_eq_true. split; congruence.
  - apply (where_unique cr_Id); [apply (lo_reservations _ (bo_ledger st Hok))|done|]. intros y. rewrite Z.eqb_eq. split; congruence.
Qed.

Lemma joined_rows_intact st :
  billing_ok st → keys_ok st →
  map jr_outcome (joined_rows st) = st.(bl_outcomes)
  ∧ ∀ row, row ∈ joined_rows st → row.(jr_outcome) ∈ st.(bl_outcomes)
      ∧ ∃ b r, row.(jr_binding) = Some b ∧ row.(jr_reservation) = Some r
          ∧ b ∈ bindings_of st ∧ r ∈ rows_of st ∧ outcome_of row.(jr_outcome).(row_record) b ∧ binds b r
          ∧ mirrors row.(jr_outcome).(row_record) r.
Proof.
  intros Hok Hk. unfold joined_rows. fold (bindings_of st) (rows_of st). cbv zeta.
  rewrite (left_join_single _ (bl_outcomes st)).
  2: { intros o Ho. destruct (join_matches st o Hok Hk Ho) as (b & _ & Hw & _). by exists b. }
  rewrite left_join_single.
  2: { intros [o x] (o' & [= -> ->] & Ho)%list_elem_of_fmap. destruct (join_matches st o' Hok Hk Ho) as (_ & r & _ & Hw & _).
       by exists r. }
  split.
  - rewrite !map_map. apply map_id.
  - intros row ([[o x] y] & -> & ([o1 x1] & [= -> -> ->] & (o2 & [= -> ->] & Ho)%list_elem_of_fmap)%list_elem_of_fmap)%list_elem_of_fmap.
    split; [done|]. destruct (join_matches st o2 Hok Hk Ho) as (b & r & Hwb & Hwr & Hoc & Hbr & Hm). exists b, r.
    cbn [jr_binding jr_reservation jr_outcome]. rewrite Hwb, Hwr. split_and!; try done.
    + by apply (elem_where (λ x, bool_decide (bd_BindingID x = oc_BindingID (row_record o2)))); rewrite Hwb; left.
    + by apply (elem_where (λ x, cr_Id x =? oc_ReservationID (row_record o2))); rewrite Hwr; left.
Qed.

(** ** The due rows *)

(** An outcome whose queued refund is due. *)
Definition due_refund (st : BillingState) (now : time) (row : stored OutcomeRecord) : Prop :=
  row ∈ st.(bl_outcomes) ∧ row.(row_record).(oc_Status) = OutcomeStatusRefundPending
  ∧ ∃ r t, r ∈ rows_of st ∧ r.(cr_Id) = row.(row_record).(oc_ReservationID)
      ∧ r.(cr_Status) = StatusRefundPending ∧ r.(cr_NextRefundAt) = Some t ∧ t ≤ now.

(** A queued refund that is bound to an intact tuple has a next attempt. *)
Lemma pending_tuple st o b r :
  billing_ok st → r ∈ rows_of st → outcome_of o b → binds b r → mirrors o r → o.(oc_Status) = OutcomeStatusRefundPending →
  tuple_broken o b r = false ∧ r.(cr_Id) = o.(oc_ReservationID) ∧ r.(cr_Status) = StatusRefundPending
  ∧ is_Some r.(cr_NextRefundAt).
Proof.
  intros Hok Hr (H1 & H2 & H3 & H4 & H5) (_ & B1 & B2 & B3 & B4 & B5 & B6 & _)%binds_columns Hm Hs.
  assert (Hst : r.(cr_Status) = StatusRefundPending).
  { destruct (mr_status _ _ Hm) as [E|? _ E|E|E]; [rewrite Hs in E; done|done|rewrite Hs in E; done|rewrite Hs in E; done]. }
  pose proof (lo_rows _ (bo_ledger st Hok) r Hr) as Hro. split_and!; [|congruence|done|].
  - unfold tuple_broken, status_is.
    assert (Hd : cr_RequestDigest r ≠ "") by (intros E; pose proof (ro_digest r Hro) as [Hl _]; by rewrite E in Hl).
    rewrite !orb_false_iff, !negb_false_iff, !Z.eqb_eq, !bool_decide_eq_true, bool_decide_eq_false. split_and!; (done || congruence).
  - destruct (ro_state r Hro) as [E|E|used ? _ _ _ _ _ _ _ Hn|Hk]; [by rewrite Hst in E|by rewrite Hst in E|done|by rewrite Hst in Hk].
Qed.

Lemma base_query_due st now :
  billing_ok st → keys_ok st →
  (∀ row, row ∈ pendingReconcileBaseQuery st now → due_refund st now row.(jr_outcome) ∧ (row_candidate row).(pd_FailureCode) = "")
  ∧ (∀ o, due_refund st now o → ∃ row, row ∈ pendingReconcileBaseQuery st now ∧ row.(jr_outcome) = o)
  ∧ NoDup (map outcome_row_id (pendingReconcileBaseQuery st now)).
Proof.
  intros Hok Hk. destruct (joined_rows_intact st Hok Hk) as [Hmap Hrows]. unfold pendingReconcileBaseQuery. split_and!.
  - intros row [Hrow [Hs Hdue]%andb_true_iff]%elem_where. apply bool_decide_eq_true in Hs.
    destruct (Hrows row Hrow) as (Ho & b & r & Eb & Er & _ & Hr & Hoc & Hb & Hm).
    destruct (pending_tuple _ _ _ _ Hok Hr Hoc Hb Hm Hs) as (Ht & Hid & Hst & [t Hn]).
    unfold integrityOrDue in Hdue. unfold row_candidate. rewrite Eb, Er, Ht, Hn in *. simpl in *. apply Z.leb_le in Hdue.
    split; [by split_and!; try done; exists r, t|]. by rewrite Hid, Z.eqb_refl.
  - intros o (Ho & Hs & r0 & t & Hr0 & Hid0 & _ & Hn0 & Hle). pose proof Ho as Ho'. rewrite <- Hmap in Ho'.
    apply list_elem_of_fmap in Ho' as (row & -> & Hrow). exists row. split; [|done]. apply elem_where. split; [done|].
    destruct (Hrows row Hrow) as (_ & b & r & Eb & Er & _ & Hr & Hoc & Hb & Hm).
    destruct (pending_tuple _ _ _ _ Hok Hr Hoc Hb Hm Hs) as (Ht & Hid & _ & _).
    assert (r0 = r) as ->.
    { eapply (keyed_unique cr_Id); [apply (lo_reservations _ (bo_ledger st Hok))|done|done|congruence]. }
    unfold integrityOrDue. rewrite Eb, Er, Ht, Hn0. simpl. apply andb_true_iff. split; [by apply bool_decide_eq_true|].
    by apply Z.leb_le.
  - apply NoDup_where. replace (map outcome_row_id (joined_rows st)) with (map row_ID (map jr_outcome (joined_rows st)))
      by by rewrite map_map. rewrite Hmap. apply Hk.
Qed.

(** ** Pages *)

Definition inside (cursor : PendingReconcileCursor) (id : Z) : Prop :=
  cursor.(pc_OutcomeRowID) < id ≤ cursor.(pc_CycleHighWatermark).

Lemma max_id_ge ids x : x ∈ ids → x ≤ max_id ids.
Proof. unfold max_id. induction 1; simpl; lia. Qed.

Lemma sorted_strict (l : list Z) : StronglySorted Z.le l → NoDup l → StronglySorted Z.lt l.
Proof.
  induction 1 as [|x l Hs IH Hx]; intros Hn; [constructor|]. apply NoDup_cons in Hn as [Hnx Hn].
  constructor; [by apply IH|]. rewrite Forall_forall in *. intros y Hy.
  assert (y ≠ x) by (intros ->; by apply Hnx). specialize (Hx y Hy). lia.
Qed.

(** A page of an ascending list: what is not on it comes after all of it. *)
Lemma page_rest (ids : list Z) n x :
  StronglySorted Z.lt ids → x ∈ ids →
  x ∈ take n ids ∨ (length (take n ids) = n ∧ ∀ y, y ∈ take n ids → y < x).
Proof.
  intros Hs Hx. rewrite <- (take_drop n ids) in Hs, Hx. apply elem_of_app in Hx as [Hx|Hx]; [by left|]. right. split.
  - rewrite length_take. assert (0 < length (drop n ids))%nat by (destruct (drop n ids); [by apply not_elem_of_nil in Hx|simpl; lia]).
    rewrite length_drop in *. lia.
  - intros y Hy. by apply (StronglySorted_app_1_elem_of Z.lt (take n ids) (drop n ids)).
Qed.

Lemma candidate_ids rows : map pd_OutcomeRowID (map row_candidate rows) = map outcome_row_id rows.
Proof. by rewrite map_map. Qed.

(** What a page of discovery holds in a state whose tables are consistent. *)
Record page_ok (st : BillingState) (now : time) (cursor prepared : PendingReconcileCursor)
    (candidates : list PendingReconcileCandidate) (exhausted : bool) : Prop := {
  pg_prepared : prepared = cursor
    ∨ (cursor = zeroCursor ∧ ∀ row, due_refund st now row → inside prepared row.(row_ID));
  pg_sorted : StronglySorted Z.lt (map pd_OutcomeRowID candidates);
  pg_due : ∀ c, c ∈ candidates → c.(pd_FailureCode) = "" ∧ inside prepared c.(pd_OutcomeRowID)
    ∧ ∃ row, due_refund st now row ∧ row.(row_ID) = c.(pd_OutcomeRowID)
        ∧ c.(pd_TurnID) = row.(row_record).(oc_TurnID);
  pg_covers : ∀ row, due_refund st now row → inside prepared row.(row_ID) →
    row.(row_ID) ∈ map pd_OutcomeRowID candidates
    ∨ (exhausted = false ∧ ∀ c, c ∈ candidates → c.(pd_OutcomeRowID) < row.(row_ID));
  pg_more : exhausted = false → ∃ c, last candidates = Some c ∧ c.(pd_OutcomeRowID) < prepared.(pc_CycleHighWatermark) }.

Lemma range_ok env st now cursor prepared limit candidates :
  billing_ok st → keys_ok st → 1 ≤ limit →
  (prepared = cursor ∨ (cursor = zeroCursor ∧ ∀ row, due_refund st now row → inside prepared row.(row_ID))) →
  discoverDuePendingRange env st now prepared.(pc_OutcomeRowID) prepared.(pc_CycleHighWatermark) limit = Ok candidates →
  page_ok st now cursor prepared candidates
    ((Z.of_nat (length candidates) <? limit)
     || match last candidates with Some c => prepared.(pc_CycleHighWatermark) <=? c.(pd_OutcomeRowID) | None => false end).
Proof.
  intros Hok Hk Hl Hprep E. unfold discoverDuePendingRange in E. destruct (pe_query env PqRange); [done|].
  destruct (base_query_due st now Hok Hk) as (Hdue & Hall & Hnd).
  set (rows := order_by by_outcome_id _) in E. injection E as <-.
  assert (Hs : StronglySorted Z.lt (map outcome_row_id rows)).
  { apply sorted_strict; [apply (order_by_key outcome_row_id)|]. unfold rows. rewrite order_by_perm. by apply NoDup_where. }
  assert (Hin : ∀ row, row ∈ rows ↔ row ∈ pendingReconcileBaseQuery st now ∧ inside prepared (outcome_row_id row)).
  { intros row. unfold rows. rewrite elem_order_by, elem_where. unfold in_range, inside.
    by rewrite andb_true_iff, Z.ltb_lt, Z.leb_le. }
  assert (Hpage : ∀ c, c ∈ map row_candidate (take (Z.to_nat limit) rows) →
            ∃ row, c = row_candidate row ∧ row ∈ rows).
  { intros c (row & -> & Hrow)%list_elem_of_fmap. exists row. split; [done|]. by apply elem_of_take in Hrow as (i & ? & _); eapply list_elem_of_lookup_2. }
  assert (Hids : map pd_OutcomeRowID (map row_candidate (take (Z.to_nat limit) rows)) = take (Z.to_nat limit) (map outcome_row_id rows)).
  { rewrite candidate_ids. symmetry. apply firstn_map. }
  split; [done| | | |].
  - rewrite Hids. rewrite <- (take_drop (Z.to_nat limit) (map outcome_row_id rows)) in Hs.
    by apply StronglySorted_app_1_l in Hs.
  - intros c (row & -> & Hrow)%Hpage. apply Hin in Hrow as [Hq Hi]. destruct (Hdue row Hq) as [Hd Hc].
    split_and!; [done|done|]. by exists (jr_outcome row).
  - intros row Hd Hi. destruct (Hall row Hd) as (jrow & Hq & <-).
    assert (Hx : row_ID (jr_outcome jrow) ∈ map outcome_row_id rows) by (apply (list_elem_of_fmap_2 outcome_row_id rows jrow), Hin; done).
    rewrite Hids. destruct (page_rest _ (Z.to_nat limit) _ Hs Hx) as [?|[Hlen Hlt]]; [by left|]. right. rewrite <- Hids in Hlen, Hlt.
    assert (Hlt' : ∀ c, c ∈ map row_candidate (take (Z.to_nat limit) rows) → pd_OutcomeRowID c < row_ID (jr_outcome jrow)).
    { intros c Hc. by apply Hlt, list_elem_of_fmap_2. }
    split; [|done]. rewrite length_map in Hlen. rewrite Hlen. apply orb_false_iff. split; [apply Z.ltb_ge; lia|].
    destruct (last _) as [c|] eqn:Elast; [|done]. apply Z.leb_gt. apply last_Some_elem_of, Hlt' in Elast. unfold inside in Hi. lia.
  - intros [Hlen Hlast]%orb_false_iff. apply Z.ltb_ge in Hlen.
    destruct (last _) as [c|] eqn:Elast; [|apply last_None in Elast; rewrite Elast in Hlen; simpl in Hlen; lia].
    exists c. split; [done|]. by apply Z.leb_gt.
Qed.

Lemma discovery_ok env st cursor limit now candidates prepared exhausted :
  billing_ok st → keys_ok st → env.(pe_now) = Ok now →
  DiscoverDuePendingAfter env st cursor limit = Ok (candidates, prepared, exhausted) →
  page_ok st now cursor prepared candidates exhausted.
Proof.
  intros Hok Hk Hnow E. unfold DiscoverDuePendingAfter in E. destruct (valid_limit limit) eqn:Hl; [|done].
  apply andb_true_iff in Hl as [Hl%Z.leb_le _]. destruct (pe_context env 0); [done|]. rewrite Hnow in E.
  destruct (discoverDuePendingPage env st now cursor limit) as [[[p cs] ex]|] eqn:Ep; [|done]. injection E as -> -> ->.
  unfold discoverDuePendingPage in Ep. destruct (validatePendingReconcileCursor env st cursor) eqn:Ev; [done|].
  destruct (if pc_CycleHighWatermark cursor =? 0 then _ else Ok cursor) as [cur|] eqn:Ecur; [|done].
  assert (Hprep : (cur = cursor ∧ cursor.(pc_CycleHighWatermark) ≠ 0) ∨ (cursor = zeroCursor ∧ ∀ row, due_refund st now row → inside cur row.(row_ID))).
  { destruct (Z.eqb_spec (pc_CycleHighWatermark cursor) 0) as [Hz|]; [|left; by injection Ecur as <-]. right.
    assert (cursor = zeroCursor) as ->.
    { unfold validatePendingReconcileCursor in Ev. destruct cursor as [i h]. simpl in *. subst h. simpl in Ev.
      destruct (Z.eqb_spec i 0) as [->|]; [done|]. done. }
    split; [done|]. unfold discoverDuePendingHighWatermark in Ecur. destruct (pe_query env PqDueHigh); [done|].
    injection Ecur as <-. intros row Hd. destruct (base_query_due st now Hok Hk) as (_ & Hall & _).
    destruct (Hall row Hd) as (jrow & Hq & <-). destruct Hd as [Ho _]. pose proof (ko_positive st Hk _ Ho).
    assert (outcome_row_id jrow ≤ max_id (map outcome_row_id (pendingReconcileBaseQuery st now)))
      by by apply max_id_ge, list_elem_of_fmap_2.
    unfold inside, outcome_row_id in *. simpl. destruct (_ <=? 0); lia. }
  destruct (Z.eqb_spec (pc_CycleHighWatermark cur) 0) as [Hz|Hz].
  - injection Ep as <- <- <-. assert (Hno : ∀ row, due_refund st now row → inside cur row.(row_ID) → False).
    { intros row [Ho _] Hi. pose proof (ko_positive st Hk _ Ho). unfold inside in Hi. lia. }
    destruct Hprep as [[-> Hne]|[-> Hw]]; [done|].
    split; [by left|constructor|intros c Hc; by apply not_elem_of_nil in Hc| |done].
    intros row Hd _. destruct (Hno row Hd (Hw row Hd)).
  - destruct (discoverDuePendingRange _ _ _ _ _ _) as [cs'|] eqn:Er; [|done]. injection Ep as <- <- <-.
    eapply range_ok; [done..| |done]. destruct Hprep as [[? _]|?]; [by left|by right].
Qed.

(** C16: A recovery pass never skips a due refund.  In every reachable state each
    candidate is a due refund whose binding and reservation are intact, so a pass
    reports no tuple drift at discovery; candidates come in the order of their rows.
    A cycle that starts covers every refund that is due.  After a pass that ends
    without an error every due refund of its window was attempted by it or lies in
    the window of the next cursor, and that cursor either ended the cycle or moved
    strictly forward below the same high watermark: a cycle ends and starves no
    row. *)
Theorem pending_pass_fair env st cursor limit now result st' :
  billing_reachable st → env.(pe_now) = Ok now →
  ReconcileDuePendingPassAfter env st cursor limit = (result, None, st') →
  ∃ candidates prepared exhausted,
    DiscoverDuePendingAfter env st cursor limit = Ok (candidates, prepared, exhausted)
    ∧ page_ok st now cursor prepared candidates exhausted
    ∧ result.(pr_Attempted) = Z.of_nat (length candidates)
    ∧ (∀ row, due_refund st now row → inside prepared row.(row_ID) →
         row.(row_ID) ∈ map pd_OutcomeRowID candidates ∨ inside result.(pr_NextCursor) row.(row_ID))
    ∧ (result.(pr_NextCursor) = zeroCursor
       ∨ (result.(pr_NextCursor).(pc_CycleHighWatermark) = prepared.(pc_CycleHighWatermark)
          ∧ prepared.(pc_OutcomeRowID) < result.(pr_NextCursor).(pc_OutcomeRowID)
              < prepared.(pc_CycleHighWatermark))).
Proof.
  intros Hr Hnow E. pose proof (billing_reachable_ok st Hr) as Hok. pose proof (billing_reachable_keys st Hr) as Hk.
  unfold ReconcileDuePendingPassAfter in E.
  destruct (DiscoverDuePendingAfter env st cursor limit) as [[[cs prep] ex]|] eqn:Ed; [|done].
  pose proof (discovery_ok _ _ _ _ _ _ _ _ Hok Hk Hnow Ed) as Hpage. exists cs, prep, ex. split; [done|]. split; [done|].
  destruct (pass_loop _ _ _ _ _) as [[res1 err1] st1] eqn:Eloop.
  destruct (pass_loop_spec _ _ _ _ _ _ _ _ Eloop) as (dn & rs & Hcs & _ & _ & Hatt & Hhigh & Hrow & Hall).
  { split; simpl; [lia|lia|done]. }
  destruct err1; [done|]. rewrite (Hall eq_refl), app_nil_r in Hcs. subst dn. injection E as <- <-. simpl in Hatt, Hhigh, Hrow.
  split_and!; [by destruct ex| |].
  - intros row Hd Hi. destruct (pg_covers _ _ _ _ _ _ Hpage row Hd Hi) as [?|[-> Hlt]]; [by left|]. right. unfold inside in *.
    rewrite Hhigh, Hrow. destruct (last cs) as [c|] eqn:El; [|lia]. apply last_Some_elem_of, Hlt in El. lia.
  - destruct ex; [by left|]. right. split; [done|]. destruct (pg_more _ _ _ _ _ _ Hpage eq_refl) as (c & El & Hc).
    rewrite Hrow, El. split; [|done]. apply last_Some_elem_of in El. by destruct (pg_due _ _ _ _ _ _ Hpage c El) as (_ & [? _] & _).
Qed.

(** ** A pass on the queued refund of the demonstration *)

Definition quietPass (n : Z) : pass_env :=
  mkPassEnv (λ _, None) (Ok (creditClock + n * second)) (λ _, None) (λ _, billedTables "completed")
    (λ _, billingEnv (calm n) n) (λ _, None) (λ _ st, st).

Definition convergedPass : PendingReconcilePassResult := mkPassResult 1 1 1 0 0 zeroCursor None.

Lemma quiet_pass : ReconcileDuePendingPassAfter (quietPass 63) billing2 zeroCursor 10 = (convergedPass, None, billing3).
Proof. vm_compute. reflexivity. Qed.

Lemma quiet_pass_early :
  ReconcileDuePendingPass (quietPass 2) zeroCursor billing2 10 = (mkPassResult 0 0 0 0 0 zeroCursor None, None, (zeroCursor, billing2)).
Proof. vm_compute. reflexivity. Qed.

Lemma pass_accounts_witness :
  ReconcileDuePendingPassAfter (quietPass 63) billing2 zeroCursor 10 = (convergedPass, None, billing3)
  ∧ convergedPass.(pr_Attempted) = 0 + 1
  ∧ convergedPass.(pr_Attempted) = convergedPass.(pr_Discovered).
Proof.
  split; [exact quiet_pass|].
  destruct (pass_accounts (quietPass 63) billing2 zeroCursor 10 convergedPass None billing3) as (_ & _ & _ & _ & _ & _ & _ & H).
  - exact quiet_pass.
  - split; [reflexivity|by apply H].
Defined.

Lemma pending_pass_fair_witness :
  ∃ candidates prepared exhausted,
    DiscoverDuePendingAfter (quietPass 63) billing2 zeroCursor 10 = Ok (candidates, prepared, exhausted)
    ∧ page_ok billing2 (creditClock + 63 * second) zeroCursor prepared candidates exhausted
    ∧ length candidates = 1%nat.
Proof.
  destruct (pending_pass_fair (quietPass 63) billing2 zeroCursor 10 (creditClock + 63 * second) convergedPass billing3)
    as (cs & prep & ex & H1 & H2 & H3 & _).
  - exact billing_reach2.
  - reflexivity.
  - exact quiet_pass.
  - exists cs, prep, ex. split_and!; [exact H1|exact H2|]. simpl in H3. lia.
Defined.
