(* ===== verification/ExpiredReservations.v ===== *)
(** * Expired reservations of Turns: service/agentbilling/expired_reservation_reconciler.go

    A bounded scan over the bindings finds the unfinished Turns whose reservation
    has expired; each is retired by the kernel, which asks the expiry guard of the
    credit authority in the same transaction.  The theorem composes the three: a
    pass counts every candidate once, and every Turn it retires was bound to a
    reservation that had expired while still reserved, and had no outcome. *)

From Stdlib Require Import Ascii.
From stdpp Require Import sorting.
From S2P Require Import Prelude GoText GoJson GoDigest GoTime AgentContract TurnTypes MemoryStore MemoryStoreFacts Fixtures TurnService ExecutionTypes Settlement ProviderUsage SettlementUsage SqlDatabase SqlFacts SqlStore SqlExecution EffectOutbox SettlementAuthority SettlementTables SettlementResolution CommitCommand SqlCommit Reconcile EpochFacts SqlCommitFacts SqlExecutionFacts ExecutionFixtures CommitFixtures SettlementTheorems SubscriptionCycle CreditTables CreditsPack ProjectBudget CreditReservation CreditPackFacts CreditLedgerFacts CreditRuns BillingTypes AgentBilling BillingFacts BillingRuns BillingTheorems BillingKernel PendingReconciler.

Definition MaxExpiredReservationBatchSize : Z := 200.
Definition MaxExpiredReservationFailureDetails : Z := 32.

Definition ExpiredReservationFailureCode : Type := string.
Definition ExpiredReservationFailureOwnerNotFound : ExpiredReservationFailureCode := "owner_not_found".
Definition ExpiredReservationFailureOwnerTupleDrift : ExpiredReservationFailureCode := "owner_tuple_drift".
Definition ExpiredReservationFailureReservationState : ExpiredReservationFailureCode := "reservation_state_drift".
Definition ExpiredReservationFailureNotExpired : ExpiredReservationFailureCode := "not_expired".
Definition ExpiredReservationFailureLiveAttempt : ExpiredReservationFailureCode := "live_attempt".
Definition ExpiredReservationFailureDurableConflict : ExpiredReservationFailureCode := "durable_conflict".
Definition ExpiredReservationFailurePreconditionChanged : ExpiredReservationFailureCode := "precondition_changed".
Definition ExpiredReservationFailureReconcileFailed : ExpiredReservationFailureCode := "reconcile_failed".

Record ExpiredReservationCursor := mkExpiredCursor { xc_BindingRowID : Z; xc_CycleHighWatermark : Z }.
Definition zeroExpiredCursor : ExpiredReservationCursor := mkExpiredCursor 0 0.

Record ExpiredReservationCandidate := mkExpiredCandidate {
  xd_BindingRowID : Z; xd_TurnID : TurnID; xd_PrincipalID : PrincipalID; xd_ReservationID : Z;
  xd_TurnStatus : TurnStatus; xd_AttemptID : string; xd_ExpiresAt : time; xd_LeaseExpiresAt : option time;
  xd_FailureCode : ExpiredReservationFailureCode }.

Record ExpiredReservationFailure := mkExpiredFailure {
  xf_BindingRowID : Z; xf_TurnID : TurnID; xf_ReservationID : Z; xf_Code : ExpiredReservationFailureCode }.

Record ExpiredReservationFailureDetails := mkExpiredDetails {
  xe_Items : list ExpiredReservationFailure; xe_Omitted : Z }.

Record ExpiredReservationPassResult := mkExpiredResult {
  xr_Discovered : Z; xr_Attempted : Z; xr_Retired : list ReconcileResult; xr_Deferred : Z; xr_Skipped : Z;
  xr_Failed : Z; xr_NextCursor : ExpiredReservationCursor; xr_Details : option ExpiredReservationFailureDetails }.

Record ExpiredReservationReconcilerOptions := mkExpiredOptions {
  xo_ReconcilerID : string; xo_ReconcilerBuildDigest : string }.

Definition ExpiredReservationReconcilerOptions_Validate (o : ExpiredReservationReconcilerOptions) : validation :=
  first_error [ validateASCII o.(xo_ReconcilerID) MaxWorkerIDBytes;
                validateASCII o.(xo_ReconcilerBuildDigest) MaxWorkerBuildDigestBytes ].

(** ** Discovery *)

Record expiredReservationCandidateRow := mkExpiredRow {
  xw_binding : stored BindingRecord;
  xw_turn : option sqlTurnRow;
  xw_reservation : option CreditReservation;
  xw_attempt : option sqlTurnAttemptRow;
  xw_review : option (stored SettlementReviewRecord);
  xw_outcome : option (stored OutcomeRecord) }.

(** The five joins; a Turn that is not there has no active Attempt. *)
Definition expired_joined (k : Database) (st : BillingState) : list expiredReservationCandidateRow :=
  let turns := left_join (λ b t, bool_decide (t.(tr_TurnID) = b.(row_record).(bd_TurnID))) st.(bl_bindings) k.(db_turns) in
  let rows := left_join (λ '(b, _) r, r.(cr_Id) =? b.(row_record).(bd_ReservationID)) turns st.(bl_ledger).(lg_reservations) in
  let attempts := left_join (λ '((_, t), _) a,
                    match t with
                    | Some t => bool_decide (a.(ar_TurnID) = t.(tr_TurnID))
                                && bool_decide (t.(tr_ActiveAttemptID) = Some a.(ar_AttemptID))
                    | None => false
                    end) rows k.(db_attempts) in
  let reviews := left_join (λ '(((b, _), _), _) v, bool_decide (v.(row_record).(rv_TurnID) = b.(row_record).(bd_TurnID)))
                   attempts k.(db_settlement).(st_reviews) in
  let outcomes := left_join (λ '((((b, _), _), _), _) o, bool_decide (o.(row_record).(oc_TurnID) = b.(row_record).(bd_TurnID)))
                    reviews st.(bl_outcomes) in
  map (λ '(((((b, t), r), a), v), o), mkExpiredRow b t r a v o) outcomes.

Definition expired_predicate (now : time) (row : expiredReservationCandidateRow) : bool :=
  match row.(xw_turn), row.(xw_reservation) with
  | Some t, Some r =>
    (bool_decide (t.(tr_Status) ∈ [TurnStatusQueued; TurnStatusRunning])
     && (negb (status_is r StatusReserved) || (r.(cr_ExpiresAt) <=? now)))
    || (status_is r StatusReserved && (r.(cr_ExpiresAt) <=? now))
  | _, _ => true
  end.

Definition expiredReservationBaseQuery (k : Database) (st : BillingState) (now : time)
    : list expiredReservationCandidateRow := where_ (expired_predicate now) (expired_joined k st).

Definition binding_row_id (row : expiredReservationCandidateRow) : Z := row.(xw_binding).(row_ID).

(** The tuple of a Turn, its binding and its reservation; an empty request digest
    stands for NULL. *)
Definition expired_tuple_broken (b : BindingRecord) (t : sqlTurnRow) (r : CreditReservation) : bool :=
  bool_decide (is_Some (BindingRecord_Validate b))
  || bool_decide (r.(cr_RequestDigest) = "")
  || negb (bool_decide (t.(tr_TurnID) = b.(bd_TurnID))) || negb (bool_decide (t.(tr_PrincipalID) = b.(bd_PrincipalID)))
  || negb (bool_decide (t.(tr_CommandDigest) = b.(bd_TurnCommandDigest)))
  || negb (r.(cr_Id) =? b.(bd_ReservationID)) || negb (r.(cr_UID) =? b.(bd_ReservationUID))
  || negb (bool_decide (r.(cr_RequestDigest) = b.(bd_ReservationRequestDigest)))
  || negb (bool_decide (r.(cr_Tool) = b.(bd_ReservationTool)))
  || negb (r.(cr_Reserved) =? b.(bd_ReservedUnits)) || negb (r.(cr_ProjectID) =? b.(bd_ProjectID)).

(** The last switch: a queued Turn was never claimed, a running one has its
    active Attempt, whose lease must have lapsed. *)
Definition expired_execution_code (now : time) (b : BindingRecord) (t : sqlTurnRow) (a : option sqlTurnAttemptRow)
    : ExpiredReservationFailureCode :=
  if bool_decide (t.(tr_Status) = TurnStatusQueued) then
    if is_set t.(tr_ActiveAttemptID) || negb (t.(tr_FencingToken) =? 0) || is_set t.(tr_StartedAt) || is_set a
    then ExpiredReservationFailureOwnerTupleDrift else ""
  else if bool_decide (t.(tr_Status) = TurnStatusRunning) then
    match t.(tr_ActiveAttemptID), a with
    | Some active, Some a =>
      if negb (is_set t.(tr_StartedAt)) || negb (bool_decide (active = a.(ar_AttemptID)))
         || negb (bool_decide (a.(ar_TurnID) = b.(bd_TurnID))) || negb (a.(ar_FencingToken) =? t.(tr_FencingToken))
         || negb (bool_decide (a.(ar_Status) = AttemptStatusRunning))
      then ExpiredReservationFailureOwnerTupleDrift
      else if After a.(ar_LeaseExpiresAt) now then ExpiredReservationFailureLiveAttempt else ""
    | _, _ => ExpiredReservationFailureOwnerTupleDrift
    end
  else ExpiredReservationFailureReservationState.

Definition expired_code (now : time) (row : expiredReservationCandidateRow) : ExpiredReservationFailureCode :=
  let b := row.(xw_binding).(row_record) in
  match row.(xw_turn), row.(xw_reservation) with
  | Some t, Some r =>
    if expired_tuple_broken b t r then ExpiredReservationFailureOwnerTupleDrift
    else if is_set row.(xw_review) || is_set row.(xw_outcome) || is_set t.(tr_CancelRequestedAt)
    then ExpiredReservationFailureDurableConflict
    else if negb (status_is r StatusReserved) then ExpiredReservationFailureReservationState
    else if After r.(cr_ExpiresAt) now then ExpiredReservationFailureNotExpired
    else expired_execution_code now b t row.(xw_attempt)
  | _, _ => ExpiredReservationFailureOwnerNotFound
  end.

(** [row.candidate(now)]. *)
Definition expired_candidate (now : time) (row : expiredReservationCandidateRow) : ExpiredReservationCandidate :=
  let b := row.(xw_binding).(row_record) in
  mkExpiredCandidate (binding_row_id row) b.(bd_TurnID) b.(bd_PrincipalID) b.(bd_ReservationID)
    (match row.(xw_turn) with Some t => t.(tr_Status) | None => "" end)
    (match row.(xw_attempt) with Some a => a.(ar_AttemptID) | None => "" end)
    (match row.(xw_reservation) with Some r => r.(cr_ExpiresAt) | None => 0 end)
    (ar_LeaseExpiresAt <$> row.(xw_attempt)) (expired_code now row).

Inductive expired_query := XqOwnerHigh | XqHigh | XqRange.

(** What a pass meets: its context at its n-th look, whether the store still holds
    the sealed authority at the n-th look, the clock, the queries that fail, and
    for the i-th candidate what others did before and the call. *)
Record expired_env := mkExpiredEnv {
  xe_context : nat → validation;
  xe_bound : nat → bool;
  xe_now : result time;
  xe_query : expired_query → validation;
  xe_others : nat → Database → Database;
  xe_call : nat → commitEnv }.

Section Pass.
Context (cfg : SQLStoreConfig) (o : ExpiredReservationReconcilerOptions) (env : expired_env).

Definition expired_query_error (e : error) : error := match env.(xe_context) 1%nat with Some c => c | None => e end.

Definition validateExpiredReservationCursor (st : BillingState) (cursor : ExpiredReservationCursor) : validation :=
  if cursor.(xc_CycleHighWatermark) =? 0 then when (negb (cursor.(xc_BindingRowID) =? 0)) ErrExpiredReservationCursor
  else if cursor.(xc_CycleHighWatermark) <? cursor.(xc_BindingRowID) then Some ErrExpiredReservationCursor
  else match env.(xe_query) XqOwnerHigh with
       | Some e => Some e
       | None => when (max_id (map row_ID st.(bl_bindings)) <? cursor.(xc_CycleHighWatermark)) ErrExpiredReservationCursor
       end.

Definition in_binding_range (cursor : ExpiredReservationCursor) (row : expiredReservationCandidateRow) : bool :=
  (cursor.(xc_BindingRowID) <? binding_row_id row) && (binding_row_id row <=? cursor.(xc_CycleHighWatermark)).
Definition by_binding_id (a b : expiredReservationCandidateRow) : bool := binding_row_id a <=? binding_row_id b.

Definition discoverExpiredPage (k : Database) (st : BillingState) (now : time) (cursor : ExpiredReservationCursor) (limit : Z)
    : result (list ExpiredReservationCandidate * ExpiredReservationCursor * bool) :=
  try! cursor := (if cursor.(xc_CycleHighWatermark) =? 0 then
                    match env.(xe_query) XqHigh with
                    | Some e => Err (expired_query_error e)
                    | None =>
                      let high := max_id (map binding_row_id (expiredReservationBaseQuery k st now)) in
                      Ok (mkExpiredCursor (if high <=? cursor.(xc_BindingRowID) then 0 else cursor.(xc_BindingRowID)) high)
                    end
                  else Ok cursor) in
  if cursor.(xc_CycleHighWatermark) =? 0 then Ok ([], zeroExpiredCursor, true)
  else
    match env.(xe_query) XqRange with
    | Some e => Err (expired_query_error e)
    | None =>
      let candidates := map (expired_candidate now) (take (Z.to_nat limit) (order_by by_binding_id
                          (where_ (in_binding_range cursor) (expiredReservationBaseQuery k st now)))) in
      Ok (candidates, cursor,
          (Z.of_nat (length candidates) <? limit)
          || match last candidates with
             | Some c => cursor.(xc_CycleHighWatermark) <=? c.(xd_BindingRowID)
             | None => false
             end)
    end.

Definition valid_expired_limit (limit : Z) : bool := (1 <=? limit) && (limit <=? MaxExpiredReservationBatchSize).

Definition DiscoverExpiredReservations (k : Database) (st : BillingState) (cursor : ExpiredReservationCursor) (limit : Z)
    : result (list ExpiredReservationCandidate * ExpiredReservationCursor * bool) :=
  guard! env.(xe_bound) 0%nat else ErrLedgerUnavailable;;
  guard! valid_expired_limit limit else ErrExpiredReservationReconcileLimit;;
  check! env.(xe_context) 0%nat;;
  match env.(xe_now) with
  | Err e => Err (expired_query_error e)
  | Ok now =>
    check! validateExpiredReservationCursor st cursor;;
    discoverExpiredPage k st now cursor limit
  end.

(** ** One pass *)

Definition addDetail (result : ExpiredReservationPassResult) (c : ExpiredReservationCandidate)
    (code : ExpiredReservationFailureCode) : ExpiredReservationPassResult :=
  let details := match result.(xr_Details) with Some d => d | None => mkExpiredDetails [] 0 end in
  mkExpiredResult result.(xr_Discovered) result.(xr_Attempted) result.(xr_Retired) result.(xr_Deferred)
    result.(xr_Skipped) result.(xr_Failed) result.(xr_NextCursor)
    (Some (if MaxExpiredReservationFailureDetails <=? Z.of_nat (length details.(xe_Items))
           then mkExpiredDetails details.(xe_Items) (details.(xe_Omitted) + 1)
           else mkExpiredDetails (details.(xe_Items) ++ [mkExpiredFailure c.(xd_BindingRowID) c.(xd_TurnID)
                  c.(xd_ReservationID) code]) details.(xe_Omitted))).

(** The increments of the counters. *)
Definition tally (result : ExpiredReservationPassResult) (attempted : Z) (retired : list ReconcileResult)
    (deferred skipped failed : Z) : ExpiredReservationPassResult :=
  mkExpiredResult result.(xr_Discovered) (result.(xr_Attempted) + attempted) (result.(xr_Retired) ++ retired)
    (result.(xr_Deferred) + deferred) (result.(xr_Skipped) + skipped) (result.(xr_Failed) + failed)
    result.(xr_NextCursor) result.(xr_Details).

Definition move_cursor (result : ExpiredReservationPassResult) (cursor : ExpiredReservationCursor) : ExpiredReservationPassResult :=
  mkExpiredResult result.(xr_Discovered) result.(xr_Attempted) result.(xr_Retired) result.(xr_Deferred)
    result.(xr_Skipped) result.(xr_Failed) cursor result.(xr_Details).

Definition expired_retirement (c : ExpiredReservationCandidate) : ReconcileCommand :=
  mkReconcileCommand c.(xd_TurnID) ReclaimReasonReservationExpired o.(xo_ReconcilerID) o.(xo_ReconcilerBuildDigest).

(** The switch on what the retirement answered; [None] when the context is asked. *)
Definition count_retirement (c : ExpiredReservationCandidate) (r : Prelude.result ReconcileResult)
    (result : ExpiredReservationPassResult) : option ExpiredReservationPassResult :=
  match r with
  | Ok res => Some (if res.(rec_Changed) then tally result 0 [res] 0 0 0 else tally result 0 [] 0 1 0)
  | Err ErrReconcilePrecondition | Err ErrTurnTerminal =>
    Some (addDetail (tally result 0 [] 0 1 0) c ExpiredReservationFailurePreconditionChanged)
  | Err ErrTurnNotFound => Some (addDetail (tally result 0 [] 0 0 1) c ExpiredReservationFailureOwnerNotFound)
  | Err ErrStoreIntegrity | Err ErrSettlementBindingInvalid =>
    Some (addDetail (tally result 0 [] 0 0 1) c ExpiredReservationFailureDurableConflict)
  | Err _ => None
  end.

Fixpoint expired_loop (i : nat) (candidates : list ExpiredReservationCandidate) (result : ExpiredReservationPassResult)
    (k : Database) : ExpiredReservationPassResult * validation * Database :=
  match env.(xe_context) (2 + 2 * i)%nat with
  | Some e => (result, Some e, k)
  | None =>
    match candidates with
    | [] => (result, None, k)
    | c :: rest =>
      let result := move_cursor result (mkExpiredCursor c.(xd_BindingRowID) result.(xr_NextCursor).(xc_CycleHighWatermark)) in
      if bool_decide (c.(xd_FailureCode) = ExpiredReservationFailureLiveAttempt) then
        expired_loop (S i) rest (addDetail (tally result 0 [] 1 0 0) c c.(xd_FailureCode)) k
      else if bool_decide (c.(xd_FailureCode) = ExpiredReservationFailureNotExpired) then
        expired_loop (S i) rest (addDetail (tally result 0 [] 0 1 0) c c.(xd_FailureCode)) k
      else if negb (bool_decide (c.(xd_FailureCode) = "")) then
        expired_loop (S i) rest (addDetail (tally result 0 [] 0 0 1) c c.(xd_FailureCode)) k
      else
        let result := tally result 1 [] 0 0 0 in
        if negb (env.(xe_bound) (S i)) then (result, Some ErrLedgerUnavailable, k)
        else
          let '(r, k') := ReconcileTerminal cfg (env.(xe_call) i) (expired_retirement c) (env.(xe_others) i k) in
          match count_retirement c r result with
          | Some counted => expired_loop (S i) rest counted k'
          | None =>
            match env.(xe_context) (3 + 2 * i)%nat with
            | Some e => (result, Some e, k')
            | None =>
              expired_loop (S i) rest
                (addDetail (tally result 0 [] 0 0 1) c ExpiredReservationFailureReconcileFailed) k'
            end
          end
    end
  end.

Definition ReconcileExpiredReservationPassAfter (k : Database) (st : BillingState) (cursor : ExpiredReservationCursor) (limit : Z)
    : ExpiredReservationPassResult * validation * Database :=
  match DiscoverExpiredReservations k st cursor limit with
  | Err e => (mkExpiredResult 0 0 [] 0 0 0 cursor None, Some e, k)
  | Ok (candidates, prepared, exhausted) =>
    match expired_loop 0 candidates (mkExpiredResult (Z.of_nat (length candidates)) 0 [] 0 0 0 prepared None) k with
    | (result, None, k') => (if exhausted then move_cursor result zeroExpiredCursor else result, None, k')
    | failed => failed
    end
  end.
End Pass.

(** [ReconcileExpiredReservationPass] keeps the cursor under the mutex. *)
Definition ReconcileExpiredReservationPass (cfg : SQLStoreConfig) (o : ExpiredReservationReconcilerOptions) (env : expired_env)
    (own : ExpiredReservationCursor) (k : Database) (st : BillingState) (limit : Z)
    : ExpiredReservationPassResult * validation * (ExpiredReservationCursor * Database) :=
  let '(result, err, k') := ReconcileExpiredReservationPassAfter cfg o env k st own limit in
  (result, err, (result.(xr_NextCursor), k')).

(** ** The guard of a retirement *)

Lemma expired_hold env k st turn :
  billing_reachable st → VerifyExpiredTurnReservation env k st turn = None →
  ∃ b r now, b ∈ bindings_of st ∧ b.(bd_TurnID) = turn.(turn_ID) ∧ b.(bd_PrincipalID) = turn.(turn_PrincipalID)
    ∧ r ∈ rows_of st ∧ binds b r ∧ r.(cr_Status) = StatusReserved ∧ held_units r = b.(bd_ReservedUnits)
    ∧ env.(be_now) = Ok now ∧ r.(cr_ExpiresAt) ≤ now ∧ turn.(turn_ID) ∉ map oc_TurnID (outcomes_of st).
Proof.
  intros Hok%billing_reachable_ok E. unfold VerifyExpiredTurnReservation in E.
  destruct (Turn_Validate turn); [done|]. destruct (negb (TurnStatus_Terminal _)); [|done].
  destruct (lockSameTurn env k turn); [|done]. destruct (lockReviewOwnerByTurn env k _) as [review|]; [|done].
  destruct (negb (is_set review)); [|done].
  destruct (lockExactBinding env st _ _) as [b|] eqn:Eb; [|done]. apply lockExactBinding_Ok in Eb as (Hb & Hbt & Hbp).
  destruct (lockOutcomeByTurn env st _) as [oc|]; [|done]. destruct (negb (is_set oc)); [|done].
  destruct (snapshot_call env 0 st b) as [s|] eqn:Es; [|done].
  destruct (snapshot_binds st env 0 b s Hok Hb Es) as (r & Hr & Hbr & ->).
  destruct (snapshotMatchesBinding b _); [done|]. destruct (bool_decide _) eqn:Hs; [|done].
  destruct (be_now env) as [now|] eqn:Hn; [|done]. destruct (After _ now) eqn:Ha; [done|].
  exists b, r, now. apply bool_decide_eq_true in Hs. cbn in Hs, Ha. split_and!; try done.
  - rewrite active_held by auto. by apply binds_columns in Hbr as (_ & _ & _ & _ & _ & ? & _).
  - unfold After in Ha. lia.
  - rewrite <- Hbt. by apply (reserved_no_outcome st b r).
Qed.

(** What a retired Turn was bound to, as the credit authority of the call saw it. *)
Definition held_to_expiry (benv : billing_env) (st : BillingState) (turn : Turn) : Prop :=
  ∃ b r now, b ∈ bindings_of st ∧ b.(bd_TurnID) = turn.(turn_ID) ∧ b.(bd_PrincipalID) = turn.(turn_PrincipalID)
    ∧ r ∈ rows_of st ∧ binds b r ∧ r.(cr_Status) = StatusReserved ∧ held_units r = b.(bd_ReservedUnits)
    ∧ benv.(be_now) = Ok now ∧ r.(cr_ExpiresAt) ≤ now ∧ turn.(turn_ID) ∉ map oc_TurnID (outcomes_of st).

Lemma retired_held cfg env command db res db' benv st meter :
  ReconcileTerminal cfg env command db = (Ok res, db') → res.(rec_Changed) = true →
  command.(rcmd_Reason) = ReclaimReasonReservationExpired →
  (∀ j, (env.(cme_settlement) j).(ss_settlement) = Some (ProviderUsageCreditAuthority benv st meter)) → billing_reachable st →
  res.(rec_Turn).(turn_ID) = command.(rcmd_TurnID) ∧ res.(rec_Turn).(turn_Status) = TurnStatusTimeout
  ∧ held_to_expiry benv st res.(rec_Turn).
Proof.
  intros H Hc Hreason Hauth Hreach. destruct (ReconcileTerminal_changed _ _ _ _ _ _ H Hc) as (_ & provider & terminal & k & Hterm & Hw & _).
  destruct (rw_turn _ _ _ _ _ _ _ _ _ _ Hw) as (_ & Hid & Hturn & _). unfold turn_is in Hid. bool_hyps.
  apply toTurn_inv in Hturn as (Htid & _). destruct (rw_result _ _ _ _ _ _ _ _ _ _ Hw) as (_ & -> & _).
  rewrite Hreason in Hterm. injection Hterm as <-. split_and!; [simpl; congruence|done|].
  pose proof (rw_guards _ _ _ _ _ _ _ _ _ _ Hw) as Hg. unfold reconcileGuards in Hg.
  destruct (turnAttemptBudget cfg); [|done]. destruct (expiredActiveAttempt _ _ _); [|done].
  destruct (verifyReconcilePrecondition _ _ _ _); [done|]. rewrite Hreason in Hg.
  rewrite bool_decide_eq_true_2 in Hg by done.
  destruct (verifyExpiredTurnReservationLocked _ _ _) eqn:Hv in Hg; [done|]. unfold verifyExpiredTurnReservationLocked in Hv.
  rewrite Hauth in Hv. cbn in Hv. destruct (ss_violated _); [done|].
  exact (expired_hold benv db st (rtr_turn k) Hreach Hv).
Qed.

(** ** Counting *)

Definition accounted (result : ExpiredReservationPassResult) : Z :=
  Z.of_nat (length result.(xr_Retired)) + result.(xr_Deferred) + result.(xr_Skipped) + result.(xr_Failed).

Definition details_bounded (d : option ExpiredReservationFailureDetails) : Prop :=
  match d with
  | None => True
  | Some d => Z.of_nat (length d.(xe_Items)) ≤ MaxExpiredReservationFailureDetails ∧ 0 ≤ d.(xe_Omitted)
  end.

(** Everything but the details is as it was. *)
Lemma addDetail_spec result c code :
  accounted (addDetail result c code) = accounted result
  ∧ (addDetail result c code).(xr_Retired) = result.(xr_Retired)
  ∧ (addDetail result c code).(xr_Discovered) = result.(xr_Discovered)
  ∧ (addDetail result c code).(xr_NextCursor) = result.(xr_NextCursor)
  ∧ (details_bounded result.(xr_Details) → details_bounded (addDetail result c code).(xr_Details)).
Proof.
  split_and!; try done. unfold addDetail, details_bounded. simpl. destruct (xr_Details result) as [[items omitted]|]; simpl.
  - intros [H1 H2]. destruct (Z.leb_spec MaxExpiredReservationFailureDetails (Z.of_nat (length items))); simpl; [lia|].
    rewrite length_app. simpl. lia.
  - unfold MaxExpiredReservationFailureDetails. simpl. lia.
Qed.

Lemma tally_accounted result n retired d s f :
  accounted (tally result n retired d s f) = accounted result + Z.of_nat (length retired) + d + s + f.
Proof. unfold accounted, tally. simpl. rewrite length_app. lia. Qed.

(** One more candidate is counted: [result'] follows from [result]. *)
Record counts_one (result result' : ExpiredReservationPassResult) : Prop := {
  co_count : accounted result' = accounted result + 1;
  co_discovered : result'.(xr_Discovered) = result.(xr_Discovered);
  co_details : details_bounded result.(xr_Details) → details_bounded result'.(xr_Details) }.

Lemma detail_counts_one result n d s f c code :
  d + s + f = 1 → counts_one result (addDetail (tally result n [] d s f) c code).
Proof.
  intros H. destruct (addDetail_spec (tally result n [] d s f) c code) as (H1 & _ & H3 & _ & H5).
  split; [rewrite H1, tally_accounted; simpl; lia|by rewrite H3|exact H5].
Qed.

Lemma count_retirement_spec c r result result' :
  count_retirement c r result = Some result' →
  counts_one result result'
  ∧ ∀ res, res ∈ result'.(xr_Retired) → res ∈ result.(xr_Retired) ∨ (r = Ok res ∧ res.(rec_Changed) = true).
Proof.
  intros E. destruct r as [res|e]; cbn [count_retirement] in E.
  - injection E as <-. destruct (rec_Changed res) eqn:Hc.
    + split; [split; [rewrite tally_accounted; simpl; lia|done|done]|].
      intros x [?| ->%list_elem_of_singleton]%elem_of_app; [by left|by right].
    + split; [split; [rewrite tally_accounted; simpl; lia|done|done]|]. intros x Hx. left. cbn in Hx. by rewrite app_nil_r in Hx.
  - destruct e; try done; injection E as <-; (split; [by apply detail_counts_one|]); intros x Hx; left; cbn in Hx;
      by rewrite app_nil_r in Hx.
Qed.

Section Loop.
Context (cfg : SQLStoreConfig) (o : ExpiredReservationReconcilerOptions) (env : expired_env).

(** A retirement of the pass: a candidate the scan found clean. *)
Definition pass_retired (listed : list ExpiredReservationCandidate) (res : ReconcileResult) : Prop :=
  ∃ c i k k', c ∈ listed ∧ c.(xd_FailureCode) = "" ∧ env.(xe_bound) (S i) = true
    ∧ ReconcileTerminal cfg (env.(xe_call) i) (expired_retirement o c) k = (Ok res, k') ∧ res.(rec_Changed) = true.

Lemma expired_loop_spec listed : ∀ candidates i result k result' err k',
  (∀ c, c ∈ candidates → c ∈ listed) → details_bounded result.(xr_Details) →
  expired_loop cfg o env i candidates result k = (result', err, k') →
  result'.(xr_Discovered) = result.(xr_Discovered)
  ∧ accounted result ≤ accounted result' ≤ accounted result + Z.of_nat (length candidates)
  ∧ (err = None → accounted result' = accounted result + Z.of_nat (length candidates))
  ∧ details_bounded result'.(xr_Details)
  ∧ ∀ res, res ∈ result'.(xr_Retired) → res ∈ result.(xr_Retired) ∨ pass_retired listed res.
Proof.
  induction candidates as [|c rest IH]; intros i result k result' err k' Hin Hd E; cbn [expired_loop] in E.
  { destruct (xe_context env _); injection E as <- <- <-; split_and!; try done; try (simpl; lia); by left. }
  destruct (xe_context env (2 + 2 * i)).
  { injection E as <- <- <-. split_and!; try done; try (simpl; lia). by left. }
  set (moved := move_cursor result _) in E.
  assert (Hgo : ∀ next k1, expired_loop cfg o env (S i) rest next k1 = (result', err, k') → counts_one moved next →
            (∀ res, res ∈ next.(xr_Retired) → res ∈ result.(xr_Retired) ∨ pass_retired listed res) →
            result'.(xr_Discovered) = result.(xr_Discovered)
            ∧ accounted result ≤ accounted result' ≤ accounted result + Z.of_nat (length (c :: rest))
            ∧ (err = None → accounted result' = accounted result + Z.of_nat (length (c :: rest)))
            ∧ details_bounded result'.(xr_Details)
            ∧ ∀ res, res ∈ result'.(xr_Retired) → res ∈ result.(xr_Retired) ∨ pass_retired listed res).
  { intros next k1 E1 [Hc Hdis Hdet] Hret. change (accounted moved) with (accounted result) in Hc.
    destruct (IH (S i) next k1 result' err k') as (H1 & H2 & H3 & H4 & H5); [intros; apply Hin; by right|by apply Hdet|done|].
    split_and!; [by rewrite H1, Hdis|simpl; lia|simpl; lia|intros He; specialize (H3 He); simpl; lia|done|].
    intros res [Hr|?]%H5; [by apply Hret|by right]. }
  assert (Hsame : ∀ n d s f code res, res ∈ (addDetail (tally moved n [] d s f) c code).(xr_Retired) →
            res ∈ result.(xr_Retired) ∨ pass_retired listed res) by (intros n d s f code res; cbn; rewrite app_nil_r; by left).
  destruct (bool_decide _); [by eapply Hgo; [exact E|by apply detail_counts_one|apply Hsame]|].
  destruct (bool_decide _); [by eapply Hgo; [exact E|by apply detail_counts_one|apply Hsame]|].
  destruct (bool_decide (xd_FailureCode c = "")) eqn:Hcode; cbn [negb] in E;
    [|by eapply Hgo; [exact E|by apply detail_counts_one|apply Hsame]]. apply bool_decide_eq_true in Hcode.
  destruct (xe_bound env (S i)) eqn:Hb; cbn [negb] in E.
  2: { injection E as <- <- <-. unfold accounted. cbn. rewrite app_nil_r. split_and!; try done; try lia. by left. }
  destruct (ReconcileTerminal _ _ _ _) as [r k1] eqn:Ec.
  destruct (count_retirement c r _) as [next|] eqn:En.
  - apply count_retirement_spec in En as [[Hc1 Hc2 Hc3] Hr]. apply (Hgo next k1 E).
    + split; [|done|done]. rewrite Hc1, tally_accounted. simpl. lia.
    + intros res [Hx|[-> Hch]]%Hr; [left; cbn in Hx; by rewrite app_nil_r in Hx|]. right.
      exists c, i, (xe_others env i k), k1. split_and!; try done. apply Hin. by left.
  - destruct (xe_context env (3 + 2 * i)).
    { injection E as <- <- <-. unfold accounted. cbn. rewrite app_nil_r. split_and!; try done; try lia. by left. }
    apply (Hgo _ _ E).
    + destruct (detail_counts_one (tally moved 1 [] 0 0 0) 0 0 0 1 c ExpiredReservationFailureReconcileFailed ltac:(done)) as [Hc1 Hc2 Hc3].
      split; [|done|done]. rewrite Hc1, tally_accounted. simpl. lia.
    + intros res Hx. left. cbn in Hx. by rewrite !app_nil_r in Hx.
Qed.
End Loop.

Lemma expired_discovery_limit env k st cursor limit candidates prepared exhausted :
  DiscoverExpiredReservations env k st cursor limit = Ok (candidates, prepared, exhausted) →
  Z.of_nat (length candidates) ≤ limit ≤ MaxExpiredReservationBatchSize.
Proof.
  unfold DiscoverExpiredReservations, valid_expired_limit. intros E. destruct (xe_bound env 0); [|done].
  destruct (_ && _) eqn:Hl; [|done]. apply andb_true_iff in Hl as [H1%Z.leb_le H2%Z.leb_le].
  destruct (xe_context env 0); [done|]. destruct (xe_now env) as [now|]; [|done].
  destruct (validateExpiredReservationCursor _ _ _); [done|]. unfold discoverExpiredPage in E.
  destruct (if xc_CycleHighWatermark cursor =? 0 then _ else Ok cursor) as [cur|]; [|done].
  destruct (_ =? 0); [injection E as <- <- <-; simpl; lia|]. destruct (xe_query env XqRange); [done|].
  injection E as <- <- <-. rewrite length_map, length_take. lia.
Qed.

(** C18: The expiry pass retires only Turns whose credit ran out.  Whatever fails
    in it, a pass lists at most [limit] candidates, never more than 200, counts
    each at most once as retired, deferred, skipped or failed, and exactly once
    when it ends without an error, and keeps the details of at most 32.  When the
    store is bound to the credit authority, every Turn the pass retires was listed
    without a failure, is timed out, and at that moment its principal's
    reservation was still reserved with its whole amount, expired by the database
    clock, and the Turn had no commercial outcome. *)
Theorem expired_pass_sound cfg o env k st cursor limit result err k' benv seen meter :
  ReconcileExpiredReservationPassAfter cfg o env k st cursor limit = (result, err, k') →
  (∀ i j, ((env.(xe_call) i).(cme_settlement) j).(ss_settlement)
          = Some (ProviderUsageCreditAuthority (benv i) (seen i) (meter i))) →
  (∀ i, billing_reachable (seen i)) →
  accounted result ≤ result.(xr_Discovered) ≤ MaxExpiredReservationBatchSize
  ∧ (err = None → accounted result = result.(xr_Discovered))
  ∧ details_bounded result.(xr_Details)
  ∧ ∀ res, res ∈ result.(xr_Retired) →
      ∃ i c, (∃ listed prepared exhausted, DiscoverExpiredReservations env k st cursor limit = Ok (listed, prepared, exhausted)
                ∧ c ∈ listed)
        ∧ c.(xd_FailureCode) = "" ∧ res.(rec_Turn).(turn_ID) = c.(xd_TurnID)
        ∧ res.(rec_Turn).(turn_Status) = TurnStatusTimeout ∧ held_to_expiry (benv i) (seen i) res.(rec_Turn).
Proof.
  intros E Hauth Hreach. unfold ReconcileExpiredReservationPassAfter in E.
  destruct (DiscoverExpiredReservations env k st cursor limit) as [[[listed prepared] exhausted]|] eqn:Ed.
  2: { injection E as <- <- <-. unfold accounted, MaxExpiredReservationBatchSize. simpl. split_and!; try done.
       intros res Hres. by apply not_elem_of_nil in Hres. }
  pose proof (expired_discovery_limit _ _ _ _ _ _ _ _ Ed) as [Hl1 Hl2].
  destruct (expired_loop _ _ _ _ _ _ _) as [[result1 err1] k1] eqn:El.
  destruct (expired_loop_spec cfg o env listed listed 0 (mkExpiredResult (Z.of_nat (length listed)) 0 [] 0 0 0 prepared None) k result1 err1 k1 (λ _ H, H) ltac:(exact I) El) as (Hdis & Hcnt & Hall & Hdet & Hret).
  assert (Hz : accounted (mkExpiredResult (Z.of_nat (length listed)) 0 [] 0 0 0 prepared None) = 0) by done.
  rewrite Hz in Hcnt, Hall. simpl in Hdis.
  assert (Hres : accounted result = accounted result1 ∧ result.(xr_Discovered) = result1.(xr_Discovered)
                 ∧ result.(xr_Details) = result1.(xr_Details) ∧ result.(xr_Retired) = result1.(xr_Retired) ∧ err = err1).
  { destruct err1; [by injection E as <- <- <-|]. injection E as <- <- <-. by destruct exhausted. }
  destruct Hres as (-> & -> & -> & -> & ->). rewrite Hdis. split_and!; [lia|lia|intros He; specialize (Hall He); lia|done|].
  intros res [Hx|(c & i & k0 & k1' & Hc & Hcode & _ & Hcall & Hch)]%Hret; [by apply not_elem_of_nil in Hx|].
  destruct (retired_held _ _ _ _ _ _ (benv i) (seen i) (meter i) Hcall Hch eq_refl (Hauth i) (Hreach i)) as (H1 & H2 & H3).
  exists i, c. split_and!; [by exists listed, prepared, exhausted|done|exact H1|done|done].
Qed.

(** ** A pass on the Turn of the demonstration, long after its reservation expired *)

Definition lateBilling : billing_env := billingEnv (calm 100000) 100000.
Definition lateSettling : nat → settlementState :=
  λ _, mkSettlementState 0 (Some (ProviderUsageCreditAuthority lateBilling billing1 noMeter)) None false.
Definition lateCall : commitEnv :=
  mkCommitEnv background lateSettling (Ok (execAt 100000)) (Ok (execAt 100000)) TxReported noOthers.
Definition latePass : expired_env :=
  mkExpiredEnv (λ _, None) (λ _, true) (Ok (creditClock + 100000 * second)) (λ _, None) noOthers (λ _, lateCall).
Definition expiryOptions : ExpiredReservationReconcilerOptions := mkExpiredOptions "reconciler-1" "build-1".

Definition lateTables : Database :=
  Eval vm_compute in
    snd (ReconcileExpiredReservationPassAfter execConfig expiryOptions latePass admittedOne billing1 zeroExpiredCursor 10).
Definition lateResult : ReconcileResult :=
  ltac:(let x := eval vm_compute in
          (xr_Retired (fst (fst (ReconcileExpiredReservationPassAfter execConfig expiryOptions latePass admittedOne billing1
                                   zeroExpiredCursor 10)))) in
        match x with [?r] => exact r end).

Lemma late_pass :
  ReconcileExpiredReservationPassAfter execConfig expiryOptions latePass admittedOne billing1 zeroExpiredCursor 10
  = (mkExpiredResult 1 1 [lateResult] 0 0 0 zeroExpiredCursor None, None, lateTables).
Proof. vm_compute. reflexivity. Qed.

(** While the reservation is live the Turn is not even listed. *)
Lemma early_pass :
  fst (ReconcileExpiredReservationPass execConfig expiryOptions
         (mkExpiredEnv (λ _, None) (λ _, true) (Ok (creditClock + second)) (λ _, None) noOthers (λ _, lateCall))
         zeroExpiredCursor admittedOne billing1 10)
  = (mkExpiredResult 0 0 [] 0 0 0 zeroExpiredCursor None, None).
Proof. vm_compute. reflexivity. Qed.

Lemma expired_pass_sound_witness :
  lateResult.(rec_Turn).(turn_Status) = TurnStatusTimeout ∧ held_to_expiry lateBilling billing1 lateResult.(rec_Turn).
Proof.
  destruct (expired_pass_sound execConfig expiryOptions latePass admittedOne billing1 zeroExpiredCursor 10
    (mkExpiredResult 1 1 [lateResult] 0 0 0 zeroExpiredCursor None) None lateTables (λ _, lateBilling) (λ _, billing1)
    (λ _, noMeter)) as (_ & _ & _ & H).
  - exact late_pass.
  - intros i j. reflexivity.
  - intros i. exact billing_reach1.
  - destruct (H lateResult) as (i & c & _ & _ & _ & H1 & H2); [by left|]. split; [exact H1|exact H2].
Defined.
